(* ===== verification/_CoqProject ===== *)
-Q . S2P
Prelude.v
Duration.v
EvaCommon.v
ItemState.v
ItemTree.v
Inventory.v
Core.v
Replication.v
CoreSpec.v
CoreInvariant.v
CoreBehaviour.v
CoreExamples.v
ActMgr.v
CoreAction.v
CoreLaunch.v
CoreOps.v
Seq.v
Opener.v
OpenerRun.v
Logs.v
Launcher.v
SvcMgr.v
SvcMgrExamples.v
Eapi.v
EapiSpec.v
EapiExamples.v
Ieee.v
ModbusTypes.v
ModbusCodec.v
ModbusMaster.v
ModbusSpec.v
ModbusPull.v
ModbusExamples.v
Acl.v
Password.v
LocalAuth.v
LocalAuthStore.v
LocalAuthExamples.v
LmRule.v
LmCycle.v
LmMain.v
LmSpec.v
HmiTokens.v
HmiApi.v
HmiSpec.v
HmiSessions.v
HmiFiles.v
HmiWs.v
HmiWsSpec.v
HmiWeb.v
HmiWebSpec.v
HmiExamples.v
Bytes.v
Numbers.v
Psrpc.v
PsrpcSpec.v
Repl.v
ReplApi.v
ReplSpec.v
ReplChain.v
ReplExamples.v
FileWriter.v
FileWriterSpec.v
Gettext.v
GettextSpec.v
Otp.v
FileMgr.v
FileMgrSpec.v
Expiration.v
PubSubCtl.v
PubSubSpec.v
