(* ===== verification/Prelude.v ===== *)
(** * A verification of EVA ICS v4

    EVA ICS is a distributed control system.  A node runs a core process
    ([src/eva]), which owns the inventory of items (units, sensors, lvars,
    macros) and their states, and services ([src/svc]) on a message bus:
    controllers that exchange states with field devices, databases, user
    interfaces, replication to other nodes.  The development covers the core
    with its bus interface, the service manager and launchers, the controller
    for Modbus devices, the access control lists and local authentication,
    the HMI service, most of the logic manager, and the replication service with
    the calls it makes over pub/sub servers.

    ** The parts and how they interact

    A controller sends a raw event (status, value, options) for an item.  The
    core looks the item up, applies the item's logic and stores the state with
    a new event id (IEID: boot id and monotonic time), announces it on the bus
    and saves it.  An event may also update other items (delta followers) or
    create items.  A replication service delivers inventories and states of
    other nodes, whose items live in the same inventory under a source.
    Actions are sent to the controllers and tracked by the action manager;
    sequences run many of them in order and in time.  The logic manager runs
    macros when announced states match rules, and in cycles, and drives
    motorised units (openers) by sequences.  The service manager keeps the
    services in the registry and has the launchers run their processes.  Users
    log in at the HMI service, which asks the authentication services; these
    verify passwords and keys, and the ACL service combines the rights.  With
    these rights the HMI service calls the core, serves files, and sends states
    to web sockets.

    ** Files

    Common:
    - [Prelude]: results and errors, a state and error monad with frame
      lemmas, double precision floats, strings, tactics.
    - [Duration]: durations of the standard library.
    - [EvaCommon]: the crates outside the repository ([eva_common], [submap],
      [regex]) as type classes with laws, and the module [Sample] with a
      concrete implementation of each for the witnesses.

    The core ([src/eva/src]):
    - [ItemState]: [ItemState] and [Logic] of [items.rs]; a state is a record,
      each method a function on it.
    - [ItemTree]: [ItemTree] and [ItemMap] of [items.rs]; the recursive
      functions on nested maps, and the refinement to a finite map.
    - [Inventory]: [Inventory], [Item], [Source], [ItemConfigData] and [Filter]
      of [items.rs].  What the code shares through [Arc] (states, enabled
      flags, source flags) is a cell of a [Store], and an item refers to its
      cells, so that a redeployed item keeps the state others hold.
    - [Core]: [core.rs], the local part.  [World] is the core with what it
      sends to the bus and to the database; [Env] has the clocks and the
      failures of I/O as functions of a counter.  The lock of the state
      processor is a flag, and taking it when it is held is recorded in
      [w_blocked], so a task that waits for itself is visible.
    - [Replication]: [core.rs], sources, remote inventories and states.
    - [CoreSpec]: frames of all operations; termination and locking.
    - [CoreInvariant]: the invariant of the core over runs of its operations.
    - [CoreBehaviour]: what each operation does, branch by branch.
    - [CoreExamples]: concrete runs; the witnesses of the three files before,
      and runs that show defects.
    - [ActMgr]: [actmgr.rs], the action manager as a state machine whose steps
      are the critical sections of its tasks, in any order.
    - [CoreAction], [CoreLaunch]: [Core::action] of [core.rs] with the action
      counter, and with the manager and the controller that answers.
    - [CoreOps]: listings, data objects and the node checker of [core.rs].
    - [Seq]: [seq.rs]; a sequence can be cancelled at any of its steps.
    - [Logs]: [logs.rs], the log records in memory.
    - [Launcher]: [launcher.rs], the calls and the task of a service with its
      process.
    - [SvcMgr], [SvcMgrExamples]: [svcmgr.rs], the table of services with the
      registry and the launchers.
    - [Eapi], [EapiSpec], [EapiExamples]: [eapi.rs], every method of the bus
      interface and every frame it handles, over all of the above.

    The Modbus controller ([src/svc/controller-modbus/src]):
    - [Ieee]: the bit patterns of floats, for both precisions.
    - [ModbusTypes]: [types.rs], [common.rs].
    - [ModbusCodec]: [modbus.rs], values to registers and back.
    - [ModbusMaster]: [client.rs], [modbus.rs], [actions.rs] over an abstract
      transport ([Rmodbus] is the [rmodbus] crate).
    - [ModbusSpec]: writes against a device that follows the protocol.
    - [ModbusPull]: [pull.rs], and the TCP transport of [client.rs].
    - [ModbusExamples]: a sample device and the witnesses of the controller.

    Access control:
    - [Acl]: [src/svc/aaa-acl/src/main.rs]; a right is a value under a kind,
      the combination of lists a fold of unions.
    - [Password]: [src/genpass-native/src/lib.rs]; hashes, texts, policies.
    - [LocalAuth], [LocalAuthStore], [LocalAuthExamples]:
      [src/svc/aaa-localauth/src/main.rs]; keys, users, one-time users, and
      their copies in the registry.

    The logic manager ([src/svc/controller-lm/src]):
    - [LmRule]: [rule.rs]; events and timers in any order.
    - [LmCycle]: [cycle.rs]; a step relation on the status and the tasks that
      access it.
    - [Opener], [OpenerRun]: [opener.rs]; plans, and the sequence of actions
      a plan becomes.

    The HMI service ([src/svc/hmi/src]):
    - [HmiTokens]: [aaa.rs], [db.rs]; sessions, with a data base whose every
      statement may fail.
    - [HmiApi]: [api.rs], [aci.rs], [call_parser.rs]; every method of the API.
      A call to another service is recorded with its answer.
    - [HmiSpec]: which calls a request may cause.
    - [HmiSessions]: the sessions over all histories.
    - [HmiFiles]: private files that the API writes.
    - [HmiWs], [HmiWsSpec]: [handler.rs], [eapi.rs]; web sockets, with tasks,
      streams and events of the bus in any order.
    - [HmiWeb], [HmiWebSpec]: [handler.rs], [serve.rs], [convert.rs],
      [lang.rs], [upload.rs], [eapi.rs]; HTTP requests and bus calls.
    - [HmiExamples]: a concrete service and the witnesses.

    The logic manager as a service, the file writer:
    - [LmMain]: [src/svc/controller-lm/src], [main.rs], [parser.rs], [job.rs],
      [common.rs]; events that go to the rules and the parser, macros, jobs, and
      the methods of the bus.
    - [LmSpec]: the events of rules and parsers against a search.
    - [FileWriter]: [src/svc/svc-filewriter/src/main.rs]; lines, files of which
      any operation may fail, and the handler of events.
    - [FileWriterSpec]: what is in the files after any events and failures.

    One-time passwords, files, catalogues:
    - [Otp]: [src/svc/aaa-otp/src/main.rs]; secrets and the registry.
    - [FileMgr], [FileMgrSpec]: [src/svc/filemgr/src/main.rs]; a tree of
      directories, and calls that read and change it.
    - [Gettext], [GettextSpec]: [src/vendor/eva-gettext/src]; plural
      expressions, headers, files and translations.

    Item expiration, pub/sub:
    - [Expiration]: [src/svc/svc-expiration/src/main.rs]; two threads over the
      table of watched items, at the grain of their accesses to it.
    - [PubSubCtl], [PubSubSpec]: [src/svc/controller-pubsub/src]; messages that
      become events and actions, and states that become messages.
    - [Numbers]: numbers read from text.

    Replication ([src/psrpc/src], [src/svc/repl/src]):
    - [Bytes]: byte strings, UTF-8, little-endian integers.
    - [Psrpc]: [options.rs], [lib.rs], [tools.rs]; payloads, requests and
      replies, and the processor of messages of one node.
    - [PsrpcSpec]: payloads, and calls over a network that loses, repeats and
      reorders messages.
    - [Repl], [ReplApi]: [nodes.rs], [aaa.rs], [eapi.rs], [pubsub.rs],
      [main.rs]; the table of nodes with their tasks, which may be aborted at
      any wait, and what is called and published.
    - [ReplSpec]: what may be called and published, over all runs.
    - [ReplChain]: from the sender of one node to the core of another.
    - [ReplExamples]: two nodes, and the witnesses.

    ** What the theorems show

    - Item states: the logic holds after every raw event, the report flag is
      sound, repeated events are not reported, except out of range.
    - The tree of items implements a finite map under all insertions and
      removals, and mask queries return the items the mask selects.
    - The inventory's three indexes stay views of one map; the exception, an
      item registered over an item of another node, is characterised.
    - The core keeps this invariant, and each state cell changes only with a
      greater event id, along all runs in which no node takes over an item of
      another, also when the operations come from the bus in any order.  Each
      operation on states is specified on its branches.  While the core is not
      active, nothing that comes from the bus changes it.
    - Raw events never make the core wait for its own lock, unless a frame of
      events creates a delta follower.
    - Actions: finished once, the status never goes back, the unit's counter
      is balanced unless an announcement fails, and success is reported only
      when the controller has reported it.
    - Sequences: they succeed only when every action was completed, end in
      time, and the abort actions are launched whenever they do not end well.
    - Services: the table is what the registry has, a service is at no more
      than one launcher, and has at most one process.
    - Modbus: reading inverts writing for each type and position; a verified
      write succeeds and stores exactly the registers of the value; every
      item of a block that cannot be read is reported as failed.
    - ACLs: a formatted list grants exactly what the lists asked for grant,
      in any order.
    - Authentication: users log in only with their password, with the rights
      of their lists; one-time users once; keys and users survive a restart.
    - Rules fire on edges, and a chill-out loses no event; one loop of a cycle
      runs when starts do not overlap, and the races of the rest are shown; a
      plan of an opener moves it to the position asked for and leaves the
      motor off.
    - HMI: no request causes a call its caller has no right to; whoever is
      authenticated was vouched for by an authentication service; files are
      written and read only where the caller may; no web socket gets a state
      its owner may not read, nor an older state after a newer one, and its
      sender neither loses nor reorders frames.
    - The logic manager: the index of the parser and the loop over the rules do
      what a search through all of them does.
    - The file writer: files consist of whole lines in the order of the events,
      whatever fails.
    - One-time passwords: a second factor stays, and its secret is shown no more.
    - The file manager: what is read and changed is below the runtime directory
      and not protected.
    - Catalogues: files of gettext are read as what they describe, and plural
      expressions with all parentheses are read back.
    - The expiration service: items expire when they are silent and only then,
      once until an event comes, whatever the threads interleave like.
    - The pub/sub controller: a message becomes one event for each item, with
      what was found last; messages show the states that came last.
    - Remote calls: a reply is the result of the handler of the node that was
      called, for that very call, and a call that is delivered ends, unless its
      reply is too short.
    - Replication: other nodes call only what the list of their key lets them;
      nothing reaches the core that they may not write; and the states that are
      sent in bulk arrive, the core of the other node ending with the newest.

    ** Fuel and bounds

    [process_raw_state] calls itself through [process_modified]; the depth is
    a parameter, [raw_depth] = 2 in the operations, and
    [CoreSpec.process_raw_state_depth] shows that a greater depth gives the
    same result, as the events made by [process_modified] have no followers.
    [Opener.generate] calls itself at most three times deep, and
    [Opener.plan_terminates] says when.  The random strings of [Password] and
    the free logins of [LocalAuth] are drawn until they fit, which no bound
    ensures: the number of rounds is a parameter, and running out of it an
    error.  The parser of calls ([HmiApi.parse_val]) has the length of the text
    as fuel, and each step takes a character.  A [u16] is printed with at most
    five digits.  The parser of plural expressions calls itself for parts of a
    text, so that its length is enough, which is proved; the search for the last line of a
    broken file has the position as fuel; the loop of the expiration service that catches up
    has the nanoseconds it is late, enough for every step but zero.  Other recursions are structural.  Integers are
    [Z]; where the source relies on a width ([u16] offsets and registers, 64-bit
    lvar arithmetic, bytes of the codec, token times) the wrap-around or the
    check is written out.

    ** What is not modelled

    Bus framing and payload encoding, files, processes and sockets but for
    what is said above, logging, the SQL inventory database of the core (its
    operations are recorded, not executed), and concurrency inside an operation
    unless it is said: an operation of the core runs to its end, which the state
    processor lock ensures for states; the action manager, sequences, launchers,
    cycles, web sockets and the expiration service, which interleave, are modelled at the grain of their
    critical sections.  The services not named above are not
    modelled: most of them talk to a device, a data base or a network by a
    foreign library, and have little of their own. *)

From stdpp Require Export base tactics list option strings gmap fin_maps sets.
From Stdlib Require Export ZArith Lia.
From Stdlib Require Import SpecFloat.

(** ** Results and errors *)

(** The error kinds the modelled code raises, one constructor per
    constructor function of the error type it uses ([Error::invalid_data],
    [Error::not_found], ...).  Messages are not modelled. *)
Inductive Error :=
  | EInvalidData
  | EInvalidParams
  | ENotImplemented
  | ENotFound
  | EDuplicate
  | EBusy
  | EAccess
  | EFailed
  | ECore
  | ETimeout
  | ENotReady
  | EAborted
  | EBusClientNotRegistered
  | EMethodNotFound
  | EInternalRpc
  | EUnsupported
  | EMoreData (* AccessDeniedMoreDataRequired *)
  | EAuthRequired (* EvaHIAuthenticationRequired *)
  | EIo
  | ENever (* a call that does not return *)
  | EPanic (* a [panic!], which unwinds the task *).

#[export] Instance Error_eq_dec : EqDecision Error.
Proof. solve_decision. Defined.

Inductive EResult (A : Type) :=
  | Ok (a : A)
  | Err (e : Error).
Arguments Ok {A} a.
Arguments Err {A} e.

#[export] Instance EResult_eq_dec `{EqDecision A} : EqDecision (EResult A).
Proof. solve_decision. Defined.

Definition is_ok {A} (r : EResult A) : bool :=
  match r with Ok _ => true | Err _ => false end.

(** [Result::ok] *)
Definition ok {A} (r : EResult A) : option A :=
  match r with Ok a => Some a | Err _ => None end.

(** [Option::ok_or_else] *)
Definition ok_or {A} (o : option A) (e : Error) : EResult A :=
  match o with Some a => Ok a | None => Err e end.

#[export] Instance EResult_ret : MRet EResult := fun A a => Ok a.
#[export] Instance EResult_bind : MBind EResult :=
  fun A B f r => match r with Ok a => f a | Err e => Err e end.

Lemma pair_fst {A B} (p : A * B) (a : A) : p.1 = a -> p = (a, p.2).
Proof. by intros <-; destruct p. Qed.

(** ** A state and error monad

    [M S A] is a computation on a state [S] that returns a value or raises
    an error; as in the source, what was written before an error is raised
    stays written. *)
Definition M (S A : Type) : Type := S -> EResult A * S.

#[export] Instance M_ret {S} : MRet (M S) := fun A a s => (Ok a, s).
#[export] Instance M_bind {S} : MBind (M S) :=
  fun A B f m s =>
    match m s with
    | (Ok a, s') => f a s'
    | (Err e, s') => (Err e, s')
    end.
#[export] Instance M_fmap {S} : FMap (M S) :=
  fun A B f m s =>
    match m s with
    | (Ok a, s') => (Ok (f a), s')
    | (Err e, s') => (Err e, s')
    end.

Section monad.
Context {S : Type}.
Definition get : M S S := fun s => (Ok s, s).
Definition gets {A} (f : S -> A) : M S A := fun s => (Ok (f s), s).
Definition modify (f : S -> S) : M S unit := fun s => (Ok tt, f s).
Definition raise {A} (e : Error) : M S A := fun s => (Err e, s).
Definition lift {A} (r : EResult A) : M S A := fun s => (r, s).
(** [.log_ef()] and its variants: the error is logged and dropped. *)
Definition log_ef {A} (m : M S A) : M S unit := fun s => (Ok tt, (m s).2).
(** The result as a value, for code that matches on it. *)
Definition attempt {A} (m : M S A) : M S (EResult A) :=
  fun s => let '(r, s') := m s in (Ok r, s').
(** [for x in l { body }], where the body may raise. *)
Fixpoint for_each {A} (body : A -> M S unit) (l : list A) : M S unit :=
  match l with
  | [] => mret tt
  | x :: l' => body x ≫= fun _ => for_each body l'
  end.
(** The same, collecting the results. *)
Fixpoint for_collect {A B} (body : A -> M S B) (l : list A) : M S (list B) :=
  match l with
  | [] => mret []
  | x :: l' => body x ≫= fun y => for_collect body l' ≫= fun ys => mret (y :: ys)
  end.
End monad.

(** How the monad runs. *)
Lemma run_fmap {S A B} (f : A -> B) (m : M S A) s :
  (f <$> m) s =
    match m s with (Ok a, s') => (Ok (f a), s') | (Err e, s') => (Err e, s') end.
Proof. done. Qed.
Lemma run_ret {S A} (a : A) (s : S) : (mret a : M S A) s = (Ok a, s).
Proof. done. Qed.
Lemma run_bind {S A B} (m : M S A) (f : A -> M S B) s :
  (m ≫= f) s = match m s with (Ok a, s') => f a s' | (Err e, s') => (Err e, s') end.
Proof. done. Qed.

(** Split every [match] and [if] of the goal, closing the absurd branches. *)
Ltac split_matches :=
  repeat (case_match; simplify_eq/=; try done).

Lemma for_each_ext {S A} (f g : A -> M S unit) l s :
  (forall x s, f x s = g x s) -> for_each f l s = for_each g l s.
Proof.
  intros Hfg. revert s. induction l as [|x l IH]; intros s; simpl; [done|].
  rewrite !run_bind, Hfg. by split_matches.
Qed.

(** *** Frames

    [keeps R m]: whatever [m] returns, the state before and the state after
    are related by [R].  [R] is a preorder, so that frames compose. *)
Definition keeps {S A} (R : relation S) (m : M S A) : Prop := forall s, R s (m s).2.

Create HintDb keeps.

Section keeps.
Context {S : Type} {R : relation S} `{!PreOrder R}.

Lemma keeps_ret {A} (a : A) : keeps R (mret a).
Proof. intros s. simpl. reflexivity. Qed.
Lemma keeps_get : keeps R get.
Proof. intros s. simpl. reflexivity. Qed.
Lemma keeps_raise {A} err : keeps R (raise (A := A) err).
Proof. intros s. simpl. reflexivity. Qed.
Lemma keeps_lift {A} (r : EResult A) : keeps R (lift r).
Proof. intros s. simpl. reflexivity. Qed.
Lemma keeps_lift_bind {A B} (r : EResult A) (f : A -> M S B) :
  (forall a, r = Ok a -> keeps R (f a)) -> keeps R (lift r ≫= f).
Proof. intros Hf s. rewrite run_bind. simpl. destruct r; [by apply Hf|simpl; reflexivity]. Qed.
Lemma keeps_modify f : (forall s, R s (f s)) -> keeps R (modify f).
Proof. intros Hf s. simpl. apply Hf. Qed.
Lemma keeps_bind {A B} (m : M S A) (f : A -> M S B) :
  keeps R m -> (forall a, keeps R (f a)) -> keeps R (m ≫= f).
Proof.
  intros Hm Hf s. rewrite run_bind. specialize (Hm s).
  destruct (m s) as [[a|err] s']; simpl in *; [|done]. etrans; [done|apply Hf].
Qed.
(** The continuation, from the state where the first part has ended. *)
Lemma run_bind_rel {A B} (m : M S A) (f : A -> M S B) s :
  R s (m s).2 -> (forall a s', m s = (Ok a, s') -> R s' (f a s').2) -> R s ((m ≫= f) s).2.
Proof.
  intros Hm Hf. rewrite run_bind. destruct (m s) as [[a|err] s']; [|done]. etrans; [exact Hm|]. by apply Hf.
Qed.
(** After [get], the continuation runs on the state it was given. *)
Lemma keeps_get_bind {B} (f : S -> M S B) :
  (forall s, R s (f s s).2) -> keeps R (get ≫= f).
Proof. intros Hf s. rewrite run_bind. apply Hf. Qed.
Lemma keeps_fmap {A B} (f : A -> B) (m : M S A) : keeps R m -> keeps R (f <$> m).
Proof.
  intros Hm s. rewrite run_fmap. specialize (Hm s). by destruct (m s) as [[] ?].
Qed.
Lemma keeps_log_ef {A} (m : M S A) : keeps R m -> keeps R (log_ef m).
Proof. intros Hm s. apply Hm. Qed.
Lemma keeps_attempt {A} (m : M S A) : keeps R m -> keeps R (attempt m).
Proof. intros Hm s. specialize (Hm s). unfold attempt. by destruct (m s). Qed.
Lemma keeps_for_each {A} (body : A -> M S unit) l :
  (forall x, x ∈ l -> keeps R (body x)) -> keeps R (for_each body l).
Proof.
  induction l as [|x l IH]; intros Hb; simpl; [apply keeps_ret|].
  apply keeps_bind; [apply Hb, elem_of_cons; auto|]. intros _. apply IH.
  intros y Hy. apply Hb, elem_of_cons. auto.
Qed.
Lemma keeps_for_collect {A B} (body : A -> M S B) l :
  (forall x, x ∈ l -> keeps R (body x)) -> keeps R (for_collect body l).
Proof.
  induction l as [|x l IH]; intros Hb; simpl; [apply keeps_ret|].
  apply keeps_bind; [apply Hb, elem_of_cons; auto|]. intros y.
  apply keeps_bind; [|intros; apply keeps_ret]. apply IH.
  intros z Hz. apply Hb, elem_of_cons. auto.
Qed.
Lemma keeps_match_option {A B} (o : option A) (f : A -> M S B) g :
  (forall a, o = Some a -> keeps R (f a)) -> (o = None -> keeps R g) ->
  keeps R (match o with Some a => f a | None => g end).
Proof. destruct o; auto. Qed.
End keeps.

Lemma keeps_sub {S A} (R R' : relation S) (m : M S A) :
  subrelation R R' -> keeps R m -> keeps R' m.
Proof. intros Hs Hm s. apply Hs, Hm. Qed.

(** ** Double precision floats

    Rust's [f64] as the executable IEEE 754 model of the standard library:
    precision 53, maximal exponent 1024. *)
Definition f64 : Type := spec_float.
Definition f64_of_Z (z : Z) : f64 := binary_normalize 53 1024 z 0 false.
Definition f64_zero : f64 := S754_zero false.
Definition f64_eqb (x y : f64) : bool := SFeqb x y.
Definition f64_ltb (x y : f64) : bool := SFltb x y.
Definition f64_leb (x y : f64) : bool := SFleb x y.
Definition f64_add (x y : f64) : f64 := SFadd 53 1024 x y.
Definition f64_sub (x y : f64) : f64 := SFsub 53 1024 x y.
Definition f64_mul (x y : f64) : f64 := SFmul 53 1024 x y.
Definition f64_div (x y : f64) : f64 := SFdiv 53 1024 x y.

#[export] Instance f64_eq_dec : EqDecision f64.
Proof. unfold f64. solve_decision. Defined.

(** ** Machine integers *)
Definition wrap (w : Z) (z : Z) : Z := (z mod 2 ^ w)%Z.
Definition i64_min : Z := (-2 ^ 63)%Z.
Definition i64_max : Z := (2 ^ 63 - 1)%Z.

(** ** Strings

    The methods of [str] the code uses, on ASCII strings. *)

(** [s.split(c)]: never empty, an empty chunk at every adjacent separator. *)
Fixpoint split_on (c : Ascii.ascii) (s : string) : list string :=
  match s with
  | EmptyString => [EmptyString]
  | String a s' =>
      if Ascii.eqb a c then EmptyString :: split_on c s'
      else match split_on c s' with
           | x :: xs => String a x :: xs
           | [] => [String a EmptyString]
           end
  end.

Fixpoint join_with (c : Ascii.ascii) (l : list string) : string :=
  match l with
  | [] => EmptyString
  | [x] => x
  | x :: l' => (x +:+ String c (join_with c l'))%string
  end.

(** The path separator of item ids. *)
Definition slash : Ascii.ascii := Ascii.Ascii true true true true false true false false.

(** [s.strip_prefix(p)] *)
Fixpoint strip_prefix (p s : string) : option string :=
  match p, s with
  | EmptyString, _ => Some s
  | String a p', String b s' => if Ascii.eqb a b then strip_prefix p' s' else None
  | _, _ => None
  end.

(** [s.contains(p)], [s.ends_with(p)] *)
Definition contains (s p : string) : bool :=
  match String.index 0 p s with Some _ => true | None => false end.
Definition ends_with (s p : string) : bool :=
  String.eqb p (String.substring (String.length s - String.length p) (String.length p) s)
  && (String.length p <=? String.length s)%nat.

Lemma app_string_assoc (a b c : string) : (a +:+ (b +:+ c) = (a +:+ b) +:+ c)%string.
Proof. induction a as [|x a IH]; [done|]. exact (f_equal (String x) IH). Qed.
Lemma split_on_nonempty c s : split_on c s ≠ [].
Proof. destruct s; simpl; [done|]. destruct (Ascii.eqb _ _); [done|]. by case_match. Qed.

Lemma join_split c s : join_with c (split_on c s) = s.
Proof.
  induction s as [|a s IH]; simpl; [done|].
  pose proof (split_on_nonempty c s) as Hne.
  destruct (Ascii.eqb_spec a c) as [->|].
  - destruct (split_on c s) eqn:E; [done|]. by rewrite <-IH.
  - destruct (split_on c s) as [|x [|y l]]; [done|..]; by rewrite <-IH.
Qed.

#[export] Instance split_on_inj c : Inj (=) (=) (split_on c).
Proof. intros s t E. by rewrite <-(join_split c s), E, join_split. Qed.

(** ** Tactics *)

(** Unfold the monad. *)
Ltac unfold_m :=
  unfold mbind, mret, M_bind, M_ret, EResult_bind, EResult_ret, get, gets,
    modify, raise, lift, log_ef, attempt in *.

(** Evaluate both sides of an equation.  Types are compared, not
    normalized, which matters when they mention a class instance. *)
Ltac vm_refl :=
  lazymatch goal with |- _ = ?b => vm_cast_no_check (@eq_refl _ b) end.

(** Decompose a computation along its structure and close the leaves with
    the frames in the data base. *)
Ltac frame_step :=
  lazymatch goal with
  | |- keeps _ (mret _) => apply keeps_ret
  | |- keeps _ get => apply keeps_get
  | |- keeps _ (raise _) => apply keeps_raise
  | |- keeps _ (lift _) => apply keeps_lift
  | |- keeps _ (match ?x with _ => _ end) => destruct x eqn:?
  | |- keeps _ (log_ef _) => apply keeps_log_ef
  | |- keeps _ (attempt _) => apply keeps_attempt
  | |- keeps _ (_ <$> _) => apply keeps_fmap
  | |- keeps _ (for_each _ _) => apply keeps_for_each; intros ? ?
  | |- keeps _ (for_collect _ _) => apply keeps_for_collect; intros ? ?
  | |- keeps _ (_ ≫= _) => apply keeps_bind; [|intros ?]
  end.
Ltac frame := repeat first [ solve [eauto 4 with keeps nocore] | frame_step ].
