(* ===== verification/Duration.v ===== *)
(** * Durations

    [std::time::Duration] as the code uses it: a duration is its number of
    nanoseconds, of which the whole seconds have to fit into 64 bits.
    Arithmetic that leaves the range panics, which is the error [EPanic]. *)
From Stdlib Require Import SpecFloat.
From S2P Require Import Prelude.

Abbreviation Duration := Z (only parsing).

Definition NANOS_PER_SEC : Z := 1000000000.
(** [Duration::MAX] *)
Definition duration_max : Duration := (2 ^ 64 * NANOS_PER_SEC - 1)%Z.

Definition in_range (d : Duration) : Prop := (0 <= d <= duration_max)%Z.

Definition checked (n : Z) : EResult Duration :=
  if (n <=? duration_max)%Z then Ok n else Err EPanic.

(** [a + b], [a += b] *)
Definition duration_add (a b : Duration) : EResult Duration := checked (a + b)%Z.
(** [iter.sum::<Duration>()] *)
Definition duration_sum (l : list Duration) : EResult Duration :=
  foldl (fun acc d => acc ≫= fun a => duration_add a d) (Ok 0%Z) l.
(** [Duration::from_micros] of a [u64] *)
Definition from_micros (n : Z) : Duration := (n * 1000)%Z.

(** Rounding to the nearest integer, ties to even, of [n / 2 ^ k]. *)
Definition round_shift (n k : Z) : Z :=
  let q := Z.shiftr n k in
  let r := (n - Z.shiftl q k)%Z in
  let half := Z.shiftl 1 (k - 1) in
  if (half <? r)%Z || ((r =? half)%Z && Z.odd q) then (q + 1)%Z else q.

(** [Duration::from_secs_f64]: rounded to nanoseconds; negative, infinite and
    too large numbers panic. *)
Definition duration_from_secs_f64 (f : f64) : EResult Duration :=
  match f with
  | S754_zero _ => Ok 0%Z
  | S754_finite false m ex =>
      let n := (Z.pos m * NANOS_PER_SEC)%Z in
      checked (if (0 <=? ex)%Z then Z.shiftl n ex else round_shift n (- ex))
  | _ => Err EPanic
  end.

(** ** Facts *)

Lemma checked_ok n d : checked n = Ok d <-> d = n /\ (n <= duration_max)%Z.
Proof. unfold checked. destruct (Z.leb_spec n duration_max); naive_solver lia. Qed.

Lemma duration_add_ok a b d :
  duration_add a b = Ok d <-> d = (a + b)%Z /\ (a + b <= duration_max)%Z.
Proof. apply checked_ok. Qed.

Definition zsum (l : list Z) : Z := foldr Z.add 0%Z l.

Lemma zsum_app l k : zsum (l ++ k) = (zsum l + zsum k)%Z.
Proof. unfold zsum. induction l as [|x l IH]; simpl; lia. Qed.

Lemma zsum_nonneg l : Forall (fun d => 0 <= d)%Z l -> (0 <= zsum l)%Z.
Proof. unfold zsum. induction 1; simpl; lia. Qed.

Lemma zsum_reverse l : zsum (reverse l) = zsum l.
Proof.
  induction l as [|x l IH]; [done|]. rewrite reverse_cons, zsum_app, IH. unfold zsum. simpl. lia.
Qed.

Lemma foldl_add_err l err :
  foldl (fun acc d => acc ≫= fun a => duration_add a d) (Err err) l = Err err.
Proof. by induction l. Qed.

(** A sum of durations is the sum, unless it panics. *)
Lemma duration_sum_ok l d :
  Forall (fun d => 0 <= d)%Z l ->
  duration_sum l = Ok d <-> d = zsum l /\ (zsum l <= duration_max)%Z.
Proof.
  unfold duration_sum. intros Hl.
  enough (forall a, (0 <= a <= duration_max)%Z ->
    foldl (fun acc d => acc ≫= fun a => duration_add a d) (Ok a) l = Ok d <->
      d = (a + zsum l)%Z /\ (a + zsum l <= duration_max)%Z) as Hx.
  { rewrite (Hx 0%Z); [by rewrite Z.add_0_l|done]. }
  induction Hl as [|x l Hx Hl IH]; intros a Ha; simpl.
  - rewrite Z.add_0_r. naive_solver lia.
  - assert (0 <= zsum l)%Z by by apply zsum_nonneg. unfold zsum in *. simpl.
    change (mbind _ (Ok a)) with (duration_add a x). unfold duration_add at 2, checked.
    destruct (Z.leb_spec (a + x) duration_max).
    + rewrite IH by lia. by rewrite Z.add_assoc.
    + rewrite foldl_add_err. split; [done|lia].
Qed.

Lemma round_shift_bound n k :
  (0 <= n -> 0 < k -> 2 ^ k * round_shift n k <= n + 2 ^ (k - 1) /\
    n <= 2 ^ k * round_shift n k + 2 ^ (k - 1))%Z.
Proof.
  intros Hn Hk. unfold round_shift. rewrite !Z.shiftl_mul_pow2, Z.shiftr_div_pow2 by lia.
  assert (2 ^ k = 2 * 2 ^ (k - 1))%Z as E by (rewrite <-Z.pow_succ_r by lia; f_equal; lia).
  assert (0 < 2 ^ (k - 1))%Z by (apply Z.pow_pos_nonneg; lia).
  pose proof (Z.div_mod n (2 ^ k) ltac:(lia)) as Hd.
  pose proof (Z.mod_pos_bound n (2 ^ k) ltac:(lia)) as Hm.
  set (q := (n / 2 ^ k)%Z) in *. set (h := (2 ^ (k - 1))%Z) in *. rewrite E in *.
  rewrite Z.mul_1_l. destruct (Z.ltb_spec h (n - q * (2 * h))), (Z.eqb_spec (n - q * (2 * h)) h);
    simpl; try destruct (Z.odd q); nia.
Qed.

(** The duration made of a number of seconds is not negative, and at most
    half a nanosecond away from it. *)
Lemma duration_from_secs_f64_bound m ex d :
  duration_from_secs_f64 (S754_finite false m ex) = Ok d ->
  in_range d /\
    if (0 <=? ex)%Z then d = (Z.pos m * NANOS_PER_SEC * 2 ^ ex)%Z
    else (Z.abs (d * 2 ^ (- ex) - Z.pos m * NANOS_PER_SEC) <= 2 ^ (- ex - 1))%Z.
Proof.
  unfold duration_from_secs_f64. intros [-> Hmax]%checked_ok. unfold in_range.
  destruct (Z.leb_spec 0 ex).
  - rewrite Z.shiftl_mul_pow2 in * by lia. assert (0 < 2 ^ ex)%Z by (apply Z.pow_pos_nonneg; lia).
    unfold NANOS_PER_SEC in *. split; [|done]. split; [nia|done].
  - set (n := (Z.pos m * NANOS_PER_SEC)%Z) in *.
    assert (0 <= n)%Z by (unfold n, NANOS_PER_SEC; lia).
    destruct (round_shift_bound n (- ex)) as [H1 H2]; [lia|lia|].
    assert (2 ^ (- ex) = 2 * 2 ^ (- ex - 1))%Z as E
      by (rewrite <-Z.pow_succ_r by lia; f_equal; lia).
    assert (0 < 2 ^ (- ex - 1))%Z by (apply Z.pow_pos_nonneg; lia).
    split; [|nia]. split; [|done]. nia.
Qed.

Lemma duration_from_secs_f64_range f d : duration_from_secs_f64 f = Ok d -> in_range d.
Proof.
  destruct f as [s| | |[] m ex]; try done.
  - by intros [= <-].
  - intros E. by apply duration_from_secs_f64_bound in E as [].
Qed.
