(* ===== verification/EvaCommon.v ===== *)
(** * The interface to code outside the repository

    The node core is written against the crates [eva_common], [submap] and
    [regex], which are not part of the repository.  What the modelled code
    uses of them is collected here as type classes: [Externals] has the
    types and the functions, the [..Laws] classes have the documented
    behaviour that theorems rely on, each theorem naming the laws it needs.
    Structures of [eva_common] whose fields the code reads and writes
    directly (events, replication payloads) are records with those fields;
    enumerations the code matches exhaustively are inductive types with the
    same constructors.

    [Sample] is a small concrete implementation of every interface.  It is
    used by the witnesses only. *)
From S2P Require Import Prelude.

(** ** Enumerations the code matches exhaustively *)

Inductive ItemKind := Unit | Sensor | Lvar | Lmacro.

#[export] Instance ItemKind_eq_dec : EqDecision ItemKind.
Proof. solve_decision. Defined.

Definition ItemKind_code (k : ItemKind) : nat :=
  match k with Unit => 0 | Sensor => 1 | Lvar => 2 | Lmacro => 3 end.
Definition ItemKind_decode (n : nat) : option ItemKind :=
  match n with
  | 0 => Some Unit | 1 => Some Sensor | 2 => Some Lvar | 3 => Some Lmacro
  | _ => None
  end.
#[export] Program Instance ItemKind_countable : Countable ItemKind :=
  inj_countable ItemKind_code ItemKind_decode _.
Next Obligation. by intros []. Qed.

(** ** Types and functions *)

Class Externals := {
  (* eva_common::OID *)
  OID : Type;
  OID_eq_dec :: EqDecision OID;
  OID_countable :: Countable OID;
  oid_kind : OID -> ItemKind;
  oid_full_id : OID -> string;
  oid_as_str : OID -> string;
  oid_as_path : OID -> string;
  oid_parse : string -> option OID;
  (* eva_common::value::Value *)
  Value : Type;
  value_eqb : Value -> Value -> bool;
  value_default : Value;
  VUnit : Value;
  VU8 : Z -> Value;
  VI64 : Z -> Value;
  VF64 : f64 -> Value;
  VBytes : list Z -> Value;
  value_as_bytes : Value -> option (list Z);
  value_to_f64 : Value -> option f64;
  value_to_i64 : Value -> option Z;
  (* eva_common::IEID *)
  IEID : Type;
  ieid_new : Z -> Z -> IEID;
  ieid_gtb : IEID -> IEID -> bool;
  ieid_boot_id : IEID -> Z;
  ieid_is_phantom : IEID -> bool;
  (* eva_common::logic::Range *)
  Range : Type;
  range_matches : Range -> f64 -> bool;
  (* eva_common::acl::{OIDMask, OIDMaskList} *)
  OIDMask : Type;
  mask_kind : OIDMask -> option ItemKind;
  mask_chunks : OIDMask -> option (list string);
  OIDMaskList : Type;
  mask_list_masks : OIDMaskList -> list OIDMask;
  mask_list_matches : OIDMaskList -> OID -> bool;
  oid_mask_prefix_formula : string;
  oid_mask_prefix_regex : string;
  (* eva_common::events::Force *)
  Force : Type;
  Force_eq_dec :: EqDecision Force;
  ForceNone : Force;
  ForceFull : Force;
  (* submap::mkmf: does a map key match a formula *)
  key_matches_formula : string -> string -> bool;
  (* regex::Regex *)
  Regex : Type;
  regex_new : string -> option Regex;
  regex_is_match : Regex -> string -> bool
}.

(** ** Laws *)

(** An OID is its kind and its full id. *)
Class OidLaws `{Externals} : Prop := {
  oid_ext a b : oid_kind a = oid_kind b -> oid_full_id a = oid_full_id b -> a = b
}.

Class ValueLaws `{Externals} : Prop := {
  (* values that compare equal convert to the same number *)
  value_eqb_to_f64 a b : value_eqb a b = true -> value_to_f64 a = value_to_f64 b;
  (* an i64 converts back from the value made of it *)
  value_to_i64_of z : (i64_min <= z <= i64_max)%Z -> value_to_i64 (VI64 z) = Some z
}.

(** IEIDs are ordered by the boot id, then by the monotonic time. *)
Class IeidLaws `{Externals} : Prop := {
  ieid_gtb_irrefl a : ieid_gtb a a = false;
  ieid_gtb_trans a b c : ieid_gtb a b = true -> ieid_gtb b c = true -> ieid_gtb a c = true;
  ieid_gtb_new b t t' : (t < t')%Z -> ieid_gtb (ieid_new b t') (ieid_new b t) = true
}.

(** ** Payload structures *)

Section payloads.
Context `{Externals}.

Inductive OnNegativeDelta :=
  | NegSkip
  | NegReset
  | NegProcess
  | NegOverflow (floor ceil : f64).

Inductive OnModifiedError := OmeSkip | OmeReset | OmeProcess.

Inductive OnModified :=
  | SetOther (oid : list OIDMask) (status : Z) (value : option Value)
  | SetOtherValueDelta (oid : OID) (on_error : OnModifiedError)
      (on_negative : OnNegativeDelta) (period : option f64).

(* [ValueOptionOwned] is [option Value]; [ItemStatus] (i16) is [Z] *)
Record RawStateEvent := mkRaw {
  raw_status : Z;
  raw_value : option Value;
  raw_force : Force;
  raw_t : option f64;
  raw_on_modified : option OnModified;
  raw_status_compare : option Z;
  raw_value_compare : option Value;
  raw_status_else : option Z;
  raw_value_else : option Value
}.

(* [RawStateEventOwned { status, value, force, t, ..default() }] *)
Definition raw_of (status : Z) (value : option Value) (force : Force)
    (t : option f64) : RawStateEvent :=
  mkRaw status value force t None None None None None.

Record ReplicationState := mkRs {
  rs_status : Z;
  rs_value : Value;
  rs_act : option Z;
  rs_ieid : IEID;
  rs_t : f64
}.

Record ReplicationInventoryItem := mkRItem {
  ri_oid : OID;
  ri_status : option Z;
  ri_value : option Value;
  ri_act : option Z;
  ri_ieid : option IEID;
  ri_t : option f64;
  ri_meta : option Value;
  ri_enabled : bool
}.

Record LocalStateEvent := mkLse {
  lse_status : Z;
  lse_value : Value;
  lse_act : option Z;
  lse_ieid : IEID;
  lse_t : f64
}.

Record DbState := mkDb {
  db_status : Z;
  db_value : Value;
  db_ieid : IEID;
  db_t : f64
}.

(* [ReplicationStateEvent], with the state it carries as one field *)
Record ReplicationStateEvent := mkRse {
  rse_state : ReplicationState;
  rse_node : string;
  rse_force_accept : bool
}.

Inductive ReplicationStateEventExtended :=
  | RseBasic (rse : ReplicationStateEvent)
  | RseInventory (node : string) (item : ReplicationInventoryItem)
  | RseBasicItem (oid : OID) (event : ReplicationStateEvent).
End payloads.

(** The error status of an item, [eva_common::ITEM_STATUS_ERROR]
    (the value is pinned by the tests in eva/src/items.rs). *)
Definition ITEM_STATUS_ERROR : Z := (-1)%Z.

(** ** Replication and node data

    [RemoteStateEvent], the conversions between the payloads and
    [NodeData], of [eva_common::events] and [eva_common::services]. *)
Class NodeExternals `{Externals} := {
  RemoteStateEvent : Type;
  (* RemoteStateEvent::from_local_state_event *)
  remote_of_local : LocalStateEvent -> string -> bool -> RemoteStateEvent;
  (* From<ReplicationStateEvent> for RemoteStateEvent *)
  remote_of_rse : ReplicationStateEvent -> RemoteStateEvent;
  (* TryFrom<ReplicationInventoryItem> for ReplicationState *)
  rs_of_item : ReplicationInventoryItem -> EResult ReplicationState;
  (* OID::from_path *)
  oid_from_path : string -> EResult OID;
  NodeInfo : Type;
  NodeData : Type;
  node_new : option string -> bool -> option NodeInfo -> option Z -> NodeData;
  node_svc : NodeData -> option string;
  node_online : NodeData -> bool;
  node_timeout : NodeData -> option Z;
  node_set_online : bool -> NodeData -> NodeData;
  node_update_info : NodeInfo -> NodeData -> NodeData;
  node_update_timeout : option Z -> NodeData -> NodeData
}.

(** [eva_common::events::{NodeStatus, NodeStateEvent}] *)
Inductive NodeStatus := NsOnline | NsOffline | NsRemoved.
Record NodeStateEvent `{NodeExternals} := mkNodeState {
  ns_status : NodeStatus;
  ns_info : option NodeInfo;
  ns_timeout : option Z
}.
#[global] Arguments mkNodeState {_ _} _ _ _.
#[export] Instance NodeStatus_eq_dec : EqDecision NodeStatus.
Proof. solve_decision. Defined.

Class NodeLaws `{NodeExternals} : Prop := {
  node_svc_new s o i t : node_svc (node_new s o i t) = s;
  node_online_new s o i t : node_online (node_new s o i t) = o;
  node_online_set b d : node_online (node_set_online b d) = b;
  node_svc_set b d : node_svc (node_set_online b d) = node_svc d;
  node_online_info i d : node_online (node_update_info i d) = node_online d;
  node_svc_info i d : node_svc (node_update_info i d) = node_svc d;
  node_online_timeout t d : node_online (node_update_timeout t d) = node_online d;
  node_svc_timeout t d : node_svc (node_update_timeout t d) = node_svc d
}.

(** A replicated item converts to the state it carries. *)
Class ReplLaws `{NodeExternals} : Prop := {
  rs_of_item_ieid i rs : rs_of_item i = Ok rs -> ri_ieid i = Some (rs_ieid rs)
}.

(** ** A sample implementation *)

Module Sample.
Inductive SValue :=
  | SUnit | SNum (z : Z) | SF64 (f : f64) | SBytes (b : list Z) | SStr (s : string).

#[export] Instance SValue_eq_dec : EqDecision SValue.
Proof. solve_decision. Defined.

Record SRange := mkRange {
  r_min : option f64; r_max : option f64; r_min_eq : bool; r_max_eq : bool
}.

Definition srange_matches (r : SRange) (v : f64) : bool :=
  match r_min r with
  | Some m => if r_min_eq r then f64_leb m v else f64_ltb m v
  | None => true
  end &&
  match r_max r with
  | Some m => if r_max_eq r then f64_leb v m else f64_ltb v m
  | None => true
  end.

Definition sieid_gtb (a b : Z * Z) : bool :=
  (b.1 <? a.1)%Z || ((a.1 =? b.1)%Z && (b.2 <? a.2)%Z).

Inductive SForce := SNone | SWeak | SFull.
#[export] Instance SForce_eq_dec : EqDecision SForce.
Proof. solve_decision. Defined.

Definition kind_str (k : ItemKind) : string :=
  match k with
  | Unit => "unit" | Sensor => "sensor" | Lvar => "lvar" | Lmacro => "lmacro"
  end.

Definition parse_oid (s : string) : option (ItemKind * string) :=
  match String.index 0 ":" s with
  | Some n =>
      let id := String.substring (S n) (String.length s) s in
      let k := String.substring 0 n s in
      if String.eqb k "unit" then Some (Unit, id)
      else if String.eqb k "sensor" then Some (Sensor, id)
      else if String.eqb k "lvar" then Some (Lvar, id)
      else if String.eqb k "lmacro" then Some (Lmacro, id)
      else None
  | None => None
  end.

#[export] Instance externals : Externals := {|
  OID := ItemKind * string;
  oid_kind := fst;
  oid_full_id := snd;
  oid_as_str o := (kind_str o.1 +:+ ":" +:+ o.2)%string;
  oid_as_path o := (kind_str o.1 +:+ "/" +:+ o.2)%string;
  oid_parse := parse_oid;
  Value := SValue;
  value_eqb a b := bool_decide (a = b);
  value_default := SUnit;
  VUnit := SUnit;
  VU8 := SNum;
  VI64 := SNum;
  VF64 := SF64;
  VBytes := SBytes;
  value_as_bytes v := match v with SBytes b => Some b | _ => None end;
  value_to_f64 v :=
    match v with SNum z => Some (f64_of_Z z) | SF64 f => Some f | _ => None end;
  value_to_i64 v := match v with SNum z => Some z | _ => None end;
  IEID := Z * Z;
  ieid_new := pair;
  ieid_gtb := sieid_gtb;
  ieid_boot_id := fst;
  ieid_is_phantom i := (i.1 =? 0)%Z;
  Range := SRange;
  range_matches := srange_matches;
  OIDMask := option ItemKind * option (list string);
  mask_kind := fst;
  mask_chunks := snd;
  OIDMaskList := list (option ItemKind * option (list string));
  mask_list_masks := id;
  mask_list_matches _ _ := true;
  oid_mask_prefix_formula := "f:";
  oid_mask_prefix_regex := "r:";
  Force := SForce;
  ForceNone := SNone;
  ForceFull := SFull;
  key_matches_formula f k := String.eqb f k;
  Regex := string;
  regex_new s := Some s;
  regex_is_match r s := String.prefix r s
|}.

#[export] Instance oid_laws : OidLaws.
Proof. constructor. intros [] []; simpl; congruence. Qed.

#[export] Instance value_laws : ValueLaws.
Proof.
  constructor; simpl.
  - by intros a b ->%bool_decide_eq_true_1.
  - done.
Qed.

#[export] Instance ieid_laws : IeidLaws.
Proof.
  constructor; simpl; unfold sieid_gtb.
  - intros [x y]; simpl. rewrite !Z.ltb_irrefl. by rewrite andb_false_r.
  - intros [] [] []; simpl. lia.
  - intros b t t' ?; simpl. rewrite Z.ltb_irrefl, Z.eqb_refl. simpl. lia.
Qed.

Record SNode := mkSNode {
  sn_svc : option string; sn_online : bool; sn_info : option string; sn_timeout : option Z
}.

#[export] Instance node_externals : NodeExternals := {|
  RemoteStateEvent := LocalStateEvent * string * bool;
  remote_of_local e n b := (e, n, b);
  remote_of_rse r :=
    let s := rse_state r in
    (mkLse (rs_status s) (rs_value s) (rs_act s) (rs_ieid s) (rs_t s), rse_node r, true);
  rs_of_item i :=
    match ri_ieid i, ri_t i with
    | Some ieid, Some t =>
        Ok (mkRs (default 0%Z (ri_status i)) (default SUnit (ri_value i)) (ri_act i) ieid t)
    | _, _ => Err EInvalidData
    end;
  oid_from_path s :=
    match String.index 0 "/" s with
    | Some n =>
        let p := (String.substring 0 n s +:+ ":" +:+
                  String.substring (S n) (String.length s) s)%string in
        ok_or (parse_oid p) EInvalidData
    | None => Err EInvalidData
    end;
  NodeInfo := string;
  NodeData := SNode;
  node_new := mkSNode;
  node_svc := sn_svc;
  node_online := sn_online;
  node_timeout := sn_timeout;
  node_set_online b d := mkSNode (sn_svc d) b (sn_info d) (sn_timeout d);
  node_update_info i d := mkSNode (sn_svc d) (sn_online d) (Some i) (sn_timeout d);
  node_update_timeout t d := mkSNode (sn_svc d) (sn_online d) (sn_info d) t
|}.

#[export] Instance node_laws : NodeLaws.
Proof. by constructor. Qed.

#[export] Instance repl_laws : ReplLaws.
Proof.
  constructor. intros i rs. simpl. destruct (ri_ieid i), (ri_t i); [|done..].
  by intros [= <-].
Qed.
End Sample.
