(* ===== verification/ItemState.v ===== *)
(** * The state of an item (eva/src/items.rs)

    [ItemState] is the status, value, action counter, event id and time of
    one item.  The operations are the methods of the source, as functions
    from a state to a state.  Clocks are arguments: [now] is the wall clock
    ([Time::now().timestamp()]) and [ns] the monotonic clock
    ([monotonic_ns()]) at the time of the call. *)
From S2P Require Import Prelude EvaCommon.

Section item_state.
Context `{Externals}.

(** eva/src/items.rs:447-452 [Logic] *)
Record Logic := mkLogic { logic_range : option Range }.

(** eva/src/items.rs:216-225 [ItemState] *)
Record ItemState := mkState {
  st_status : Z;
  st_value : Value;
  st_act : option Z;
  st_ieid : IEID;
  st_t : f64
}.

Implicit Types st : ItemState.

(** eva/src/items.rs:157-160 [IEID::generate] *)
Definition ieid_generate (boot_id ns : Z) : IEID := ieid_new boot_id ns.

(** eva/src/items.rs:168-181 [validate_logic] *)
Definition validate_logic (value : option Value) (logic : option Logic) : bool :=
  match logic ≫= logic_range with
  | Some range =>
      match value with
      | Some v =>
          match value_to_f64 v with
          | Some val => range_matches range val
          | None => false
          end
      | None => false
      end
  | None => true
  end.

Definition set_status (s : Z) (st : ItemState) : ItemState :=
  mkState s (st_value st) (st_act st) (st_ieid st) (st_t st).
Definition set_value (v : Value) (st : ItemState) : ItemState :=
  mkState (st_status st) v (st_act st) (st_ieid st) (st_t st).
Definition set_act (a : option Z) (st : ItemState) : ItemState :=
  mkState (st_status st) (st_value st) a (st_ieid st) (st_t st).
Definition set_ieid (i : IEID) (st : ItemState) : ItemState :=
  mkState (st_status st) (st_value st) (st_act st) i (st_t st).
Definition set_t (t : f64) (st : ItemState) : ItemState :=
  mkState (st_status st) (st_value st) (st_act st) (st_ieid st) t.

(** eva/src/items.rs:235-249 [ItemState::new0] *)
Definition new0 (ieid : IEID) (tp : ItemKind) (now : f64) : ItemState :=
  let '(status, act) :=
    if decide (tp = Unit) then (1%Z, Some 0%Z) else (1%Z, None) in
  mkState status VUnit act ieid now.

(** eva/src/items.rs:260-269 [ItemState::mark_failed] *)
Definition mark_failed (ieid : IEID) (now : f64) st : bool * ItemState :=
  if (st_status st =? ITEM_STATUS_ERROR)%Z then (false, st)
  else (true, set_t now (set_ieid ieid (set_status ITEM_STATUS_ERROR st))).

(** eva/src/items.rs:271-285 [ItemState::force_set_state] *)
Definition force_set_state (status : option Z) (value : option Value)
    (ieid : IEID) (now : f64) st : ItemState :=
  let st := match status with Some s => set_status s st | None => st end in
  let st := match value with Some v => set_value v st | None => st end in
  set_t now (set_ieid ieid st).

(** eva/src/items.rs:287-291 [ItemState::force_set_value] *)
Definition force_set_value (value : Value) (ieid : IEID) (now : f64) st : ItemState :=
  set_t now (set_ieid ieid (set_value value st)).

(** eva/src/items.rs:297-306 [ItemState::act_decr] *)
Definition act_decr (ieid : IEID) (now : f64) st : ItemState :=
  let a := default 0%Z (st_act st) in
  let st := if (a =? 0)%Z then st else set_act (Some (a - 1)%Z) st in
  set_t now (set_ieid ieid st).

(** eva/src/items.rs:307-311 [ItemState::act_incr], the counter is a 64-bit
    [usize] *)
Definition act_incr (ieid : IEID) (now : f64) st : ItemState :=
  let a := match st_act st with Some a => wrap 64 (a + 1) | None => 1%Z end in
  set_t now (set_ieid ieid (set_act (Some a) st)).

(** eva/src/items.rs:312-322 [ItemState::set_from_rs] *)
Definition set_from_rs (rpl : ReplicationState) st : ItemState :=
  mkState (rs_status rpl) (rs_value rpl)
    (match rs_act rpl with Some act => Some act | None => st_act st end)
    (rs_ieid rpl) (rs_t rpl).

(** The pair of the status and the value a raw event asks for, after its
    compare-and-set condition (eva/src/items.rs:339-350). *)
Definition raw_target (raw : RawStateEvent) st : Z * option Value :=
  let status_match :=
    match raw_status_compare raw with
    | Some v => (v =? st_status st)%Z
    | None => true
    end in
  let compared_match :=
    match raw_value_compare raw with
    | Some v => if negb (value_eqb v (st_value st)) then false else status_match
    | None => status_match
    end in
  if compared_match then (raw_status raw, raw_value raw)
  else (default ITEM_STATUS_ERROR (raw_status_else raw), raw_value_else raw).

(** Writing the target status and value; the flag says if one of them was
    modified (eva/src/items.rs:351-365). *)
Definition raw_apply (logic : option Logic) (target : Z * option Value) st
    : bool * ItemState :=
  let '(status, value) := target in
  if (status =? ITEM_STATUS_ERROR)%Z || validate_logic value logic then
    let '(m1, s1) :=
      if negb (st_status st =? status)%Z then (true, set_status status st)
      else (false, st) in
    match value with
    | Some val =>
        if negb (value_eqb (st_value s1) val) then (true, set_value val s1)
        else (m1, s1)
    | None => (m1, s1)
    end
  else (true, set_status ITEM_STATUS_ERROR st).

(** Writing the time of the event (eva/src/items.rs:367-373). *)
Definition raw_apply_time (t : option f64) (ms : bool * ItemState) : bool * ItemState :=
  let '(modified, st) := ms in
  match t with
  | Some t =>
      if negb (f64_eqb t f64_zero) && negb (f64_eqb (st_t st) t)
      then (true, set_t t st) else (modified, st)
  | None => (modified, st)
  end.

(** eva/src/items.rs:329-384 [ItemState::set_from_raw] *)
Definition set_from_raw (raw : RawStateEvent) (logic : option Logic)
    (boot_id : Z) (time : f64) (ns : Z) st : bool * ItemState :=
  let '(modified, st') :=
    raw_apply_time (raw_t raw) (raw_apply logic (raw_target raw st) st) in
  if modified || bool_decide (raw_force raw ≠ ForceNone) then
    let st'' := set_ieid (ieid_generate boot_id ns) st' in
    (modified, match raw_t raw with None => set_t time st'' | Some _ => st'' end)
  else (false, st').

(** eva/src/items.rs:399-409 [ItemState::apply_logic] *)
Definition apply_logic (logic : option Logic) (boot_id : Z) (now : f64) (ns : Z)
    st : bool * ItemState :=
  if (st_status st =? ITEM_STATUS_ERROR)%Z || validate_logic (Some (st_value st)) logic
  then (false, st)
  else (true, set_t now (set_ieid (ieid_generate boot_id ns)
                           (set_status ITEM_STATUS_ERROR st))).

(** eva/src/items.rs:425-433 [LocalStateEvent::from] *)
Definition local_state_event_of st : LocalStateEvent :=
  mkLse (st_status st) (st_value st) (st_act st) (st_ieid st) (st_t st).

(** eva/src/items.rs:437-444 [DbState::from] *)
Definition db_state_of st : DbState :=
  mkDb (st_status st) (st_value st) (st_ieid st) (st_t st).

(** ** Properties *)

(** What the item logic promises of a state: it is marked as failed or
    its value is in the range. *)
Definition logic_ok (logic : option Logic) st : Prop :=
  st_status st = ITEM_STATUS_ERROR \/ validate_logic (Some (st_value st)) logic = true.

Lemma validate_logic_eqb `{!ValueLaws} v w logic :
  value_eqb v w = true ->
  validate_logic (Some v) logic = validate_logic (Some w) logic.
Proof. intros E%value_eqb_to_f64. unfold validate_logic. by rewrite E. Qed.

Lemma raw_apply_logic_ok `{!ValueLaws} logic target st :
  logic_ok logic (raw_apply logic target st).2.
Proof.
  unfold raw_apply, logic_ok. destruct target as [s v].
  destruct (Z.eqb_spec s ITEM_STATUS_ERROR) as [->|Hs]; simpl.
  { left. destruct (Z.eqb_spec (st_status st) ITEM_STATUS_ERROR); simpl;
      split_matches. }
  destruct (validate_logic v logic) eqn:E; [|by left]. right.
  destruct v as [v|].
  - destruct (negb (st_status st =? s)%Z); simpl;
      destruct (value_eqb (st_value st) v) eqn:Ev; simpl; try done;
      by erewrite validate_logic_eqb.
  - unfold validate_logic in *. by destruct (logic ≫= logic_range).
Qed.

Lemma raw_apply_time_status t ms :
  st_status (raw_apply_time t ms).2 = st_status ms.2.
Proof. destruct ms. unfold raw_apply_time. by split_matches. Qed.
Lemma raw_apply_time_value t ms :
  st_value (raw_apply_time t ms).2 = st_value ms.2.
Proof. destruct ms. unfold raw_apply_time. by split_matches. Qed.
Lemma raw_apply_time_act t ms :
  st_act (raw_apply_time t ms).2 = st_act ms.2.
Proof. destruct ms. unfold raw_apply_time. by split_matches. Qed.
Lemma raw_apply_time_ieid t ms :
  st_ieid (raw_apply_time t ms).2 = st_ieid ms.2.
Proof. destruct ms. unfold raw_apply_time. by split_matches. Qed.
Lemma raw_apply_time_unmodified t ms :
  (raw_apply_time t ms).1 = false ->
  ms.1 = false /\ (raw_apply_time t ms).2 = ms.2.
Proof. destruct ms. unfold raw_apply_time. by split_matches. Qed.

Lemma raw_apply_act logic target st : st_act (raw_apply logic target st).2 = st_act st.
Proof. destruct target. unfold raw_apply. by split_matches. Qed.
Lemma raw_apply_ieid logic target st : st_ieid (raw_apply logic target st).2 = st_ieid st.
Proof. destruct target. unfold raw_apply. by split_matches. Qed.
Lemma raw_apply_unmodified logic target st :
  (raw_apply logic target st).1 = false -> (raw_apply logic target st).2 = st.
Proof. destruct target. unfold raw_apply. by split_matches. Qed.

Lemma set_from_raw_unfold raw logic boot time ns st :
  exists ms, ms = raw_apply_time (raw_t raw) (raw_apply logic (raw_target raw st) st) /\
  (set_from_raw raw logic boot time ns st).1 = ms.1 /\
  st_status (set_from_raw raw logic boot time ns st).2 = st_status ms.2 /\
  st_value (set_from_raw raw logic boot time ns st).2 = st_value ms.2 /\
  st_act (set_from_raw raw logic boot time ns st).2 = st_act ms.2 /\
  st_ieid (set_from_raw raw logic boot time ns st).2 =
    (if ms.1 || bool_decide (raw_force raw ≠ ForceNone)
     then ieid_generate boot ns else st_ieid ms.2) /\
  (ms.1 || bool_decide (raw_force raw ≠ ForceNone) = false ->
   (set_from_raw raw logic boot time ns st).2 = ms.2).
Proof.
  eexists; split; [done|]. unfold set_from_raw.
  destruct (raw_apply_time _ _) as [m s]; simpl.
  destruct m; simpl; [|destruct (bool_decide _) eqn:E; simpl];
    destruct (raw_t raw); split_and!; done.
Qed.

(** whatever raw event an item receives, the state it ends in satisfies
    the item logic: the item is marked as failed or its value is inside
    the configured range. *)
Lemma set_from_raw_logic_ok `{!ValueLaws} raw logic boot time ns st :
  logic_ok logic (set_from_raw raw logic boot time ns st).2.
Proof.
  destruct (set_from_raw_unfold raw logic boot time ns st)
    as (ms & -> & _ & Es & Ev & _).
  unfold logic_ok. rewrite Es, Ev, raw_apply_time_status, raw_apply_time_value.
  apply raw_apply_logic_ok.
Qed.

(** the report flag of a raw update.  When it is false and the update is
    not forced, nothing at all was written; when it is true or the update is
    forced, the state carries a new event id; the action counter is never
    touched. *)
Lemma set_from_raw_report raw logic boot time ns st :
  let '(modified, st') := set_from_raw raw logic boot time ns st in
  st_act st' = st_act st /\
  (modified = false -> raw_force raw = ForceNone -> st' = st) /\
  (modified = false -> st_status st' = st_status st /\ st_value st' = st_value st) /\
  (modified = true \/ raw_force raw ≠ ForceNone -> st_ieid st' = ieid_generate boot ns).
Proof.
  destruct (set_from_raw_unfold raw logic boot time ns st)
    as (ms & Hms & Em & Es & Ev & Ea & Ei & Eq).
  destruct (set_from_raw raw logic boot time ns st) as [m st']; simpl in *. subst m.
  assert (ms.1 = false -> ms.2 = st) as Hu.
  { rewrite Hms. intros [? ->]%raw_apply_time_unmodified.
    by apply raw_apply_unmodified. }
  split_and!.
  - by rewrite Ea, Hms, raw_apply_time_act, raw_apply_act.
  - intros E F. rewrite <-(Hu E). apply Eq. rewrite E, F. simpl.
    apply bool_decide_eq_false_2. by intros [].
  - intros E. by rewrite Es, Ev, (Hu E).
  - intros [E|F]; rewrite Ei; [by rewrite E|].
    by rewrite (bool_decide_eq_true_2 _ F), orb_true_r.
Qed.

(** An event that is neither conditional nor timed. *)
Definition plain_raw (status : Z) (v : Value) : RawStateEvent :=
  raw_of status (Some v) ForceNone None.

(** a repeated raw event is not reported again: once an in-range event is
    applied, applying it a second time reports no modification and changes
    nothing, so the core stays silent. *)
Lemma set_from_raw_idempotent status v logic boot boot' time time' ns ns' st :
  value_eqb v v = true ->
  (status = ITEM_STATUS_ERROR \/ validate_logic (Some v) logic = true) ->
  let st1 := (set_from_raw (plain_raw status v) logic boot time ns st).2 in
  set_from_raw (plain_raw status v) logic boot' time' ns' st1 = (false, st1).
Proof.
  intros Hrefl Hok st1.
  assert ((status =? ITEM_STATUS_ERROR)%Z || validate_logic (Some v) logic = true) as Hg.
  { destruct Hok as [-> | ->]; [done|apply orb_true_r]. }
  assert (st_status st1 = status /\ value_eqb (st_value st1) v = true) as [Es Ev].
  { unfold st1, set_from_raw, raw_apply, raw_target, plain_raw, raw_of; simpl.
    rewrite Hg. destruct (Z.eqb_spec (st_status st) status); simpl;
      destruct (value_eqb (st_value st) v) eqn:E; simpl;
      rewrite ?(bool_decide_eq_false_2 (ForceNone ≠ ForceNone)) by (by intros []);
      simpl; done. }
  unfold set_from_raw, raw_apply, raw_target, plain_raw, raw_of; simpl.
  rewrite Hg, Es, Z.eqb_refl; simpl. rewrite Ev; simpl.
  by rewrite (bool_decide_eq_false_2 (ForceNone ≠ ForceNone)) by (by intros []).
Qed.

(** the exception to the rule above.  An event whose value is outside the
    range is reported as a modification every time, even when the item is
    already marked as failed and nothing but the event id and the time
    changes. *)
Lemma set_from_raw_out_of_range status v logic boot time ns st :
  status ≠ ITEM_STATUS_ERROR -> validate_logic (Some v) logic = false ->
  set_from_raw (plain_raw status v) logic boot time ns st =
    (true, mkState ITEM_STATUS_ERROR (st_value st) (st_act st)
             (ieid_generate boot ns) time).
Proof.
  intros Hs Hv. unfold set_from_raw, raw_apply, raw_target, plain_raw, raw_of; simpl.
  by rewrite (proj2 (Z.eqb_neq _ _) Hs), Hv.
Qed.

(** The number of actions in progress of a unit. *)
Definition busy st : Z := default 0%Z (st_act st).

Lemma act_incr_busy ieid now st :
  (0 <= busy st < 2 ^ 64 - 1)%Z -> busy (act_incr ieid now st) = (busy st + 1)%Z.
Proof.
  unfold busy, act_incr, wrap. destruct (st_act st) as [a|]; simpl; [|lia].
  intros ?. by rewrite Z.mod_small by lia.
Qed.
Lemma act_decr_busy ieid now st :
  (0 <= busy st)%Z -> busy (act_decr ieid now st) = Z.max 0 (busy st - 1).
Proof.
  unfold busy, act_decr. destruct (st_act st) as [a|] eqn:E; simpl; intros.
  - destruct (Z.eqb_spec a 0); simpl; rewrite ?E; simpl; lia.
  - rewrite E. simpl. lia.
Qed.
End item_state.

(** ** The unit test [test_logic] of the source, evaluated *)
Module ItemStateTests.
Import Sample.
Definition num (z : Z) : Value := SNum z.
Definition st0 : ItemState := set_value (num 34) (new0 (1, 1)%Z Sensor f64_zero).
Definition above0 : option Logic :=
  Some (mkLogic (Some (mkRange (Some f64_zero) None false false))).
Definition from0_to10 (eq : bool) : option Logic :=
  Some (mkLogic (Some (mkRange (Some f64_zero) (Some (f64_of_Z 10)) eq eq))).
Definition applied (logic : option Logic) (v : Value) : bool * Z :=
  let '(m, st) := apply_logic logic 1 f64_zero 2 (set_value v st0) in (m, st_status st).

Example no_logic : applied None (num 34) = (false, 1%Z).
Proof. reflexivity. Qed.
Example no_range : applied (Some (mkLogic None)) (num 34) = (false, 1%Z).
Proof. reflexivity. Qed.
Example not_a_number : applied above0 SUnit = (true, (-1)%Z).
Proof. vm_compute. reflexivity. Qed.
Example in_range : applied above0 (num 1) = (false, 1%Z).
Proof. vm_compute. reflexivity. Qed.
Example below_min : applied above0 (num 0) = (true, (-1)%Z).
Proof. vm_compute. reflexivity. Qed.
Example at_max_excluded : applied (from0_to10 false) (num 10) = (true, (-1)%Z).
Proof. vm_compute. reflexivity. Qed.
Example at_max_included : applied (from0_to10 true) (num 10) = (false, 1%Z).
Proof. vm_compute. reflexivity. Qed.
Example above_max : applied (from0_to10 true) (num 11) = (true, (-1)%Z).
Proof. vm_compute. reflexivity. Qed.

Lemma set_from_raw_logic_ok_example :
  logic_ok above0 (set_from_raw (plain_raw 1 (num (-5))) above0 7 f64_zero 9 st0).2.
Proof. apply (set_from_raw_logic_ok (plain_raw 1 (num (-5))) above0 7 f64_zero 9 st0). Defined.

Lemma set_from_raw_idempotent_example :
  let st1 := (set_from_raw (plain_raw 1 (num 5)) above0 7 f64_zero 9 st0).2 in
  set_from_raw (plain_raw 1 (num 5)) above0 7 f64_zero 10 st1 = (false, st1).
Proof.
  apply (set_from_raw_idempotent 1 (num 5) above0 7 7 f64_zero f64_zero 9 10 st0).
  - vm_compute. reflexivity.
  - right. vm_compute. reflexivity.
Defined.

Lemma set_from_raw_out_of_range_example :
  set_from_raw (plain_raw 1 (num (-5))) above0 7 f64_zero 9 st0 =
    (true, mkState ITEM_STATUS_ERROR (num 34) None (7, 9)%Z f64_zero).
Proof.
  apply (set_from_raw_out_of_range 1 (num (-5)) above0 7 f64_zero 9 st0).
  - discriminate.
  - vm_compute. reflexivity.
Defined.
End ItemStateTests.
