(* ===== verification/ItemTree.v ===== *)
(** * The item tree (eva/src/items.rs)

    The inventory keeps the items of one kind in a tree keyed by the chunks
    of the item id.  Every node has the items that end there ([members])
    and the items below it ([members_wildcard]), so that an OID mask is
    answered without visiting the subtree.

    The specification is a flat map: [repr t G] says that the tree [t]
    stores exactly the items of the finite map [G], which has for every OID
    the chunks that are left of its path and the item.  Every operation of
    the tree is proved to implement the operation on [G].

    A [HashMap] is a [gmap]; where the source iterates over one, the order
    is that of [map_to_list], and the theorems are up to permutation. *)
From S2P Require Import Prelude EvaCommon.

Section item_tree.
Context `{Externals} {Item : Type} (item_oid : Item -> OID).

(** eva/src/items.rs:1032-1037 [ItemTree] *)
Inductive ItemTree := mkTree {
  childs : gmap string ItemTree;
  members : gmap OID Item;
  members_wildcard : gmap OID Item
}.

Definition tree_default : ItemTree := mkTree ∅ ∅ ∅.

(** eva/src/items.rs:1040-1042 [ItemTree::is_empty] *)
Definition tree_is_empty (t : ItemTree) : bool :=
  (size (childs t) =? 0)%nat && (size (members t) =? 0)%nat.

(** eva/src/items.rs:1250-1262 [get_item_rec] *)
Fixpoint get_item_rec (t : ItemTree) (sp : list string) : option Item :=
  match sp with
  | chunk :: sp =>
      match childs t !! chunk with
      | Some child => get_item_rec child sp
      | None => None
      end
  | [] =>
      match map_to_list (members t) with
      | (_, item) :: _ => Some item
      | [] => None
      end
  end.

(** eva/src/items.rs:1326-1357 [append_item_rec]; the tree is returned with
    an error, too, as the source updates it in place *)
Fixpoint append_item_rec (t : ItemTree) (sp : list string) (item : Item)
    (replace : bool) : EResult unit * ItemTree :=
  match sp with
  | chunk :: sp =>
      if bool_decide (is_Some (members_wildcard t !! item_oid item)) && negb replace
      then (Err EDuplicate, t)
      else
        let wildcard := <[item_oid item := item]> (members_wildcard t) in
        match childs t !! chunk with
        | Some c =>
            let '(r, c') := append_item_rec c sp item replace in
            (r, mkTree (<[chunk := c']> (childs t)) (members t) wildcard)
        | None =>
            match append_item_rec tree_default sp item replace with
            | (Ok _, child) =>
                (Ok tt, mkTree (<[chunk := child]> (childs t)) (members t) wildcard)
            | (Err e, _) => (Err e, mkTree (childs t) (members t) wildcard)
            end
        end
  | [] =>
      if bool_decide (is_Some (members t !! item_oid item)) && negb replace
      then (Err EDuplicate, t)
      else (Ok tt, mkTree (childs t) (<[item_oid item := item]> (members t))
                     (members_wildcard t))
  end.

(** eva/src/items.rs:1263-1279 [remove_item_rec] *)
Fixpoint remove_item_rec (t : ItemTree) (sp : list string) (oid : OID)
    : option Item * ItemTree :=
  match sp with
  | chunk :: sp =>
      match members_wildcard t !! oid with
      | None => (None, t)
      | Some _ =>
          let wildcard := delete oid (members_wildcard t) in
          match childs t !! chunk with
          | Some c =>
              match remove_item_rec c sp oid with
              | (Some item, c') =>
                  let childs' :=
                    if tree_is_empty c' then delete chunk (childs t)
                    else <[chunk := c']> (childs t) in
                  (Some item, mkTree childs' (members t) wildcard)
              | (None, c') =>
                  (None, mkTree (<[chunk := c']> (childs t)) (members t) wildcard)
              end
          | None => (None, mkTree (childs t) (members t) wildcard)
          end
      end
  | [] => (members t !! oid, mkTree (childs t) (delete oid (members t)) (members_wildcard t))
  end.

(** The items of a hash map that pass the filter, [.values().filter().cloned()] *)
Definition filtered (f : Item -> bool) (m : gmap OID Item) : list Item :=
  filter (fun i => f i = true) (map_to_list m).*2.

(** eva/src/items.rs:1281-1324 [get_item_by_mask_rec] *)
Fixpoint get_item_by_mask_rec (t : ItemTree) (iter : list string)
    (f : Item -> bool) : list Item :=
  match iter with
  | chunk :: iter =>
      if String.eqb chunk "#" then filtered f (members_wildcard t)
      else if String.eqb chunk "+" then
        mbind (fun '(_, child) => get_item_by_mask_rec child iter f) (map_to_list (childs t))
      else match strip_prefix oid_mask_prefix_formula chunk with
      | Some formula =>
          mbind (fun '(_, child) => get_item_by_mask_rec child iter f)
            (filter (fun kc => key_matches_formula formula kc.1 = true)
               (map_to_list (childs t)))
      | None =>
      match strip_prefix oid_mask_prefix_regex chunk with
      | Some regex =>
          match regex_new regex with
          | Some re =>
              mbind (fun '(name, child) =>
                       if regex_is_match re name
                       then get_item_by_mask_rec child iter f else [])
                (map_to_list (childs t))
          | None => []
          end
      | None =>
      match childs t !! chunk with
      | Some child => get_item_by_mask_rec child iter f
      | None => []
      end end end
  | [] => filtered f (members t)
  end.

(** ** The flat specification *)

Abbreviation flat := (gmap OID (list string * Item)).
Implicit Types (G : flat) (t : ItemTree).

(** The item that ends at the node, and the item below it. *)
Definition here (e : list string * Item) : option Item :=
  match e with ([], i) => Some i | _ => None end.
Definition below (e : list string * Item) : option Item :=
  match e with (_ :: _, i) => Some i | _ => None end.
(** The entry as it is seen from the child [k]. *)
Definition step (k : string) (e : list string * Item) : option (list string * Item) :=
  match e with
  | (k' :: p, i) => if decide (k' = k) then Some (p, i) else None
  | ([], _) => None
  end.
Definition sub (k : string) G : flat := omap (step k) G.

Inductive repr : ItemTree -> flat -> Prop :=
  repr_intro cs ms ws G :
    (forall o, ms !! o = G !! o ≫= here) ->
    (forall o, ws !! o = G !! o ≫= below) ->
    (forall k, cs !! k = None -> sub k G = ∅) ->
    (forall k c, cs !! k = Some c -> sub k G ≠ ∅) ->
    (forall k c, cs !! k = Some c -> repr c (sub k G)) ->
    repr (mkTree cs ms ws) G.

Lemma lookup_sub k G o : sub k G !! o = G !! o ≫= step k.
Proof. apply lookup_omap. Qed.

Lemma sub_Some k G o p i : sub k G !! o = Some (p, i) <-> G !! o = Some (k :: p, i).
Proof.
  rewrite lookup_sub. destruct (G !! o) as [[[|k' q] j]|]; simpl; [done| |done].
  case_decide; subst; naive_solver.
Qed.

Lemma sub_insert k G o p i :
  sub k (<[o := (k :: p, i)]> G) = <[o := (p, i)]> (sub k G).
Proof.
  apply map_eq. intros o'. rewrite lookup_sub, !lookup_insert.
  case_decide; simpl; [by rewrite decide_True|by rewrite lookup_sub].
Qed.

Lemma sub_insert_ne k k' G o p i :
  k ≠ k' -> (forall q j, G !! o = Some (q, j) -> q = k :: p) ->
  sub k' (<[o := (k :: p, i)]> G) = sub k' G.
Proof.
  intros Hk Ho. apply map_eq. intros o'. rewrite !lookup_sub, lookup_insert.
  case_decide; simpl; [|done]. subst. rewrite decide_False by done.
  destruct (G !! o') as [[q j]|] eqn:E; simpl; [|done].
  by rewrite (Ho _ _ eq_refl), decide_False.
Qed.

Lemma sub_delete k G o : sub k (delete o G) = delete o (sub k G).
Proof.
  apply map_eq. intros o'. rewrite lookup_sub, !lookup_delete.
  case_decide; [done|by rewrite lookup_sub].
Qed.

Lemma repr_default : repr tree_default ∅.
Proof.
  constructor; intros; by rewrite ?lookup_empty in *.
Qed.

Lemma repr_empty t G : repr t G -> tree_is_empty t = true <-> G = ∅.
Proof.
  intros [cs ms ws G' Hm Hw Hn Hc _]. unfold tree_is_empty; simpl.
  rewrite andb_true_iff, !Nat.eqb_eq, !map_size_empty_iff. split.
  - intros [-> ->]. apply map_eq. intros o. rewrite lookup_empty.
    destruct (G' !! o) as [[[|k p] i]|] eqn:E; [| |done].
    + specialize (Hm o). by rewrite E, lookup_empty in Hm.
    + assert (sub k G' !! o = Some (p, i)) as Hs by by apply sub_Some.
      by rewrite Hn, lookup_empty in Hs by apply lookup_empty.
  - intros ->. split; apply map_eq; intros k.
    + destruct (cs !! k) as [c|] eqn:E; [|by rewrite lookup_empty].
      destruct (Hc _ _ E). apply map_eq. intros o. by rewrite lookup_sub, !lookup_empty.
    + by rewrite Hm, !lookup_empty.
Qed.

(** ** append *)

Lemma repr_append_child cs ms ws G k p c' o item :
  repr (mkTree cs ms ws) G ->
  (forall q j, G !! o = Some (q, j) -> q = k :: p) ->
  repr c' (<[o := (p, item)]> (sub k G)) ->
  repr (mkTree (<[k := c']> cs) ms (<[o := item]> ws)) (<[o := (k :: p, item)]> G).
Proof.
  intros Hr Ho Hc'. inversion Hr as [??? ? Hm Hw Hn Hne Hc]; subst. constructor.
  - intros o'. rewrite Hm, lookup_insert. case_decide; simpl; [|done]. subst.
    destruct (G !! o') as [[q j]|] eqn:E; simpl; [|done].
    by rewrite (Ho _ _ eq_refl).
  - intros o'. rewrite !lookup_insert. case_decide; [done|]. apply Hw.
  - intros k'. rewrite lookup_insert. case_decide; [done|]. intros Hk.
    rewrite sub_insert_ne by done. by apply Hn.
  - intros k' c. rewrite lookup_insert. case_decide.
    + intros [= <-]. subst. rewrite sub_insert. by apply insert_non_empty.
    + intros Hk. rewrite sub_insert_ne by done. by eapply Hne.
  - intros k' c. rewrite lookup_insert. case_decide.
    + intros [= <-]. subst. by rewrite sub_insert.
    + intros Hk. rewrite sub_insert_ne by done. by apply Hc.
Qed.

Lemma repr_append_here cs ms ws G o item :
  repr (mkTree cs ms ws) G ->
  (forall q j, G !! o = Some (q, j) -> q = []) ->
  repr (mkTree cs (<[o := item]> ms) ws) (<[o := ([], item)]> G).
Proof.
  intros Hr Ho. inversion Hr as [??? ? Hm Hw Hn Hne Hc]; subst.
  assert (forall k, sub k (<[o := ([], item)]> G) = sub k G) as Hs.
  { intros k. apply map_eq. intros o'. rewrite !lookup_sub, lookup_insert.
    case_decide; simpl; [|done]. subst.
    destruct (G !! o') as [[q j]|] eqn:E; simpl; [|done]. by rewrite (Ho _ _ eq_refl). }
  constructor; intros; rewrite ?Hs; eauto.
  - rewrite !lookup_insert. case_decide; [done|apply Hm].
  - rewrite lookup_insert, Hw. case_decide; simpl; [|done]. subst.
    destruct (G !! o0) as [[q j]|] eqn:E; simpl; [|done]. by rewrite (Ho _ _ eq_refl).
Qed.

Lemma repr_registered t G o p :
  repr t G -> (forall q j, G !! o = Some (q, j) -> q = p) ->
  match p with [] => members t | _ => members_wildcard t end !! o = snd <$> G !! o.
Proof.
  intros [cs ms ws G' Hm Hw _ _ _] Ho. destruct (G' !! o) as [[q j]|] eqn:E.
  - rewrite (Ho _ _ eq_refl) in E. destruct p; simpl; rewrite ?Hm, ?Hw, E; done.
  - destruct p; simpl; rewrite ?Hm, ?Hw, E; done.
Qed.

Lemma append_item_rec_dup p item t G :
  repr t G -> (forall q j, G !! item_oid item = Some (q, j) -> q = p) ->
  is_Some (G !! item_oid item) ->
  append_item_rec t p item false = (Err EDuplicate, t).
Proof.
  intros Hr Ho Hs. pose proof (repr_registered _ _ _ _ Hr Ho) as E.
  destruct p; simpl; by rewrite E, bool_decide_eq_true_2 by (by apply fmap_is_Some).
Qed.

Lemma append_item_rec_ok p item replace t G :
  repr t G -> (forall q j, G !! item_oid item = Some (q, j) -> q = p) ->
  replace = true \/ G !! item_oid item = None ->
  exists t', append_item_rec t p item replace = (Ok tt, t') /\
    repr t' (<[item_oid item := (p, item)]> G).
Proof.
  revert t G. induction p as [|k p IH]; intros t G Hr Ho Hg;
    pose proof (repr_registered _ _ _ _ Hr Ho) as E; simpl; rewrite E.
  - destruct t as [cs ms ws]. eexists; split; [|by apply repr_append_here].
    destruct Hg as [-> | ->]; simpl; [by rewrite andb_false_r|done].
  - replace (_ && _) with false by
      (destruct Hg as [-> | ->]; simpl; [by rewrite andb_false_r|done]).
    inversion Hr as [cs ms ws ? Hm Hw Hn Hne Hc]; subst; simpl.
    assert (forall c, repr c (sub k G) ->
      exists t', append_item_rec c p item replace = (Ok tt, t') /\
        repr t' (<[item_oid item := (p, item)]> (sub k G))) as IH'.
    { intros c Hrc. apply IH; [done| |].
      - intros q j Hq%sub_Some. by apply Ho in Hq as [= ->].
      - destruct Hg as [? | Hg]; [by left|right]. by rewrite lookup_sub, Hg. }
    destruct (cs !! k) as [c|] eqn:Ek.
    + destruct (IH' _ (Hc _ _ Ek)) as (t' & -> & Ht').
      eexists; split; [done|]. by apply repr_append_child.
    + destruct (IH' tree_default) as (t' & -> & Ht').
      { rewrite (Hn _ Ek). apply repr_default. }
      eexists; split; [done|]. by apply repr_append_child.
Qed.

(** ** remove *)

Lemma remove_item_rec_absent p o t G :
  repr t G -> G !! o = None -> remove_item_rec t p o = (None, t).
Proof.
  intros Hr Ho. pose proof (repr_registered t G o p Hr) as E.
  rewrite Ho in E. specialize (E ltac:(done)).
  destruct p; simpl in *; rewrite E; [|done].
  destruct t; simpl in *. by rewrite delete_id.
Qed.

Lemma repr_delete_child cs cs' ms ws G k p o item c' :
  repr (mkTree cs ms ws) G -> G !! o = Some (k :: p, item) ->
  repr c' (delete o (sub k G)) ->
  cs' = (if tree_is_empty c' then delete k cs else <[k := c']> cs) ->
  repr (mkTree cs' ms (delete o ws)) (delete o G).
Proof.
  intros Hr Ho Hc' ->. inversion Hr as [??? ? Hm Hw Hn Hne Hc]; subst.
  pose proof (repr_empty _ _ Hc') as He.
  assert (forall k', k ≠ k' -> sub k' (delete o G) = sub k' G) as Hs.
  { intros k' Hk. rewrite sub_delete, delete_id; [done|].
    rewrite lookup_sub, Ho. simpl. by rewrite decide_False. }
  assert (forall k', (if tree_is_empty c' then delete k cs else <[k:=c']> cs) !! k' =
    if decide (k = k') then if tree_is_empty c' then None else Some c' else cs !! k') as Hl.
  { intros k'. destruct (tree_is_empty c'); rewrite ?lookup_delete, ?lookup_insert;
      by case_decide. }
  constructor.
  - intros o'. rewrite Hm, lookup_delete. case_decide; [|done]. subst. by rewrite Ho.
  - intros o'. rewrite !lookup_delete. case_decide; [done|apply Hw].
  - intros k'. rewrite Hl. case_decide as Hk; [subst|rewrite Hs by done; apply Hn].
    rewrite sub_delete. destruct (tree_is_empty c'); [|done]. intros _. by apply He.
  - intros k' c. rewrite Hl. case_decide as Hk; [subst|rewrite Hs by done; apply Hne].
    rewrite sub_delete. destruct (tree_is_empty c') eqn:Et; [done|].
    intros _ ?%He. congruence.
  - intros k' c. rewrite Hl. case_decide as Hk; [subst|rewrite Hs by done; apply Hc].
    rewrite sub_delete. destruct (tree_is_empty c'); [done|]. by intros [= <-].
Qed.

Lemma remove_item_rec_present p o item t G :
  repr t G -> G !! o = Some (p, item) ->
  exists t', remove_item_rec t p o = (Some item, t') /\ repr t' (delete o G).
Proof.
  revert t G. induction p as [|k p IH]; intros t G Hr Ho;
    inversion Hr as [cs ms ws ? Hm Hw Hn Hne Hc]; subst; simpl.
  - rewrite Hm, Ho. eexists; split; [done|].
    assert (forall k, sub k (delete o G) = sub k G) as Hs.
    { intros k. rewrite sub_delete, delete_id; [done|]. by rewrite lookup_sub, Ho. }
    constructor; intros; rewrite ?Hs; eauto.
    + rewrite !lookup_delete. case_decide; [done|apply Hm].
    + rewrite Hw, lookup_delete. case_decide; [subst; by rewrite Ho|done].
  - rewrite Hw, Ho. simpl.
    assert (sub k G !! o = Some (p, item)) as Hs by by apply sub_Some.
    destruct (cs !! k) as [c|] eqn:Ek.
    + destruct (IH _ _ (Hc _ _ Ek) Hs) as (c' & -> & Hc').
      eexists; split; [done|]. by eapply repr_delete_child.
    + by rewrite (Hn _ Ek), lookup_empty in Hs.
Qed.

(** ** get *)

Lemma get_item_rec_sound p t G i :
  repr t G -> get_item_rec t p = Some i -> exists o, G !! o = Some (p, i).
Proof.
  revert t G. induction p as [|k p IH]; intros t G Hr;
    inversion Hr as [cs ms ws ? Hm Hw Hn Hne Hc]; subst; simpl.
  - destruct (map_to_list ms) as [|[o j] l] eqn:E; [done|]. intros [= ->].
    exists o. assert (ms !! o = Some i) as Ho.
    { apply elem_of_map_to_list. rewrite E. by apply elem_of_cons; left. }
    rewrite Hm in Ho. by destruct (G !! o) as [[[] ]|]; simplify_eq/=.
  - destruct (cs !! k) as [c|] eqn:Ek; [|done]. intros Hg.
    destruct (IH _ _ (Hc _ _ Ek) Hg) as [o ?%sub_Some]. by exists o.
Qed.

Lemma get_item_rec_complete p t G o i :
  repr t G -> G !! o = Some (p, i) -> is_Some (get_item_rec t p).
Proof.
  revert t G. induction p as [|k p IH]; intros t G Hr Ho;
    inversion Hr as [cs ms ws ? Hm Hw Hn Hne Hc]; subst; simpl.
  - assert ((o, i) ∈ map_to_list ms) as Hin.
    { apply elem_of_map_to_list. by rewrite Hm, Ho. }
    destruct (map_to_list ms) as [|[] l]; [by apply not_elem_of_nil in Hin|by eexists].
  - apply sub_Some in Ho. destruct (cs !! k) as [c|] eqn:Ek; [by eapply IH; eauto|].
    by rewrite (Hn _ Ek), lookup_empty in Ho.
Qed.

(** ** get_by_mask *)

(** Does one chunk of a mask match one chunk of a path. *)
Definition chunk_match (chunk k : string) : bool :=
  if String.eqb chunk "+" then true
  else match strip_prefix oid_mask_prefix_formula chunk with
  | Some formula => key_matches_formula formula k
  | None =>
  match strip_prefix oid_mask_prefix_regex chunk with
  | Some regex =>
      match regex_new regex with Some re => regex_is_match re k | None => false end
  | None => String.eqb chunk k
  end end.

(** Does a mask match a path: [#] stands for one chunk or more. *)
Fixpoint mask_path_match (chunks p : list string) : bool :=
  match chunks, p with
  | [], [] => true
  | c :: cs, k :: p' =>
      String.eqb c "#" || (chunk_match c k && mask_path_match cs p')
  | _, _ => false
  end.

Lemma elem_of_filtered f (m : gmap OID Item) i :
  i ∈ filtered f m <-> f i = true /\ exists o, m !! o = Some i.
Proof.
  unfold filtered. rewrite list_elem_of_filter, list_elem_of_fmap. split.
  - intros [Hf ([o j] & -> & Hin%elem_of_map_to_list)]. eauto.
  - intros (Hf & o & Ho). split; [done|]. exists (o, i).
    split; [done|]. by apply elem_of_map_to_list.
Qed.

(** The children a chunk other than [#] visits are those it matches. *)
Lemma by_mask_step t chunk iter f i :
  String.eqb chunk "#" = false ->
  i ∈ get_item_by_mask_rec t (chunk :: iter) f <->
  exists k c, childs t !! k = Some c /\ chunk_match chunk k = true /\
    i ∈ get_item_by_mask_rec c iter f.
Proof.
  intros Hc. simpl. rewrite Hc. unfold chunk_match.
  destruct (String.eqb chunk "+").
  { rewrite list_elem_of_bind. split.
    - intros ([k c] & Hin & ?%elem_of_map_to_list). eauto.
    - intros (k & c & Hk & _ & Hin). exists (k, c). split; [done|].
      by apply elem_of_map_to_list. }
  destruct (strip_prefix oid_mask_prefix_formula chunk) as [fm|].
  { rewrite list_elem_of_bind. split.
    - intros ([k c] & Hin & [? ?%elem_of_map_to_list]%list_elem_of_filter). eauto.
    - intros (k & c & Hk & Hm & Hin). exists (k, c). split; [done|].
      apply list_elem_of_filter. split; [done|]. by apply elem_of_map_to_list. }
  destruct (strip_prefix oid_mask_prefix_regex chunk) as [re|].
  { destruct (regex_new re) as [rx|];
      [|split; [by intros ?%not_elem_of_nil|naive_solver]].
    rewrite list_elem_of_bind. split.
    - intros ([k c] & Hin & ?%elem_of_map_to_list).
      destruct (regex_is_match rx k) eqn:?; [eauto|by apply not_elem_of_nil in Hin].
    - intros (k & c & Hk & Hm & Hin). exists (k, c). rewrite Hm. split; [done|].
      by apply elem_of_map_to_list. }
  destruct (childs t !! chunk) as [c|] eqn:Ek.
  - split; [intros; exists chunk, c; by rewrite String.eqb_refl|].
    intros (k & c' & Hk & ->%String.eqb_eq & Hin). congruence.
  - split; [by intros ?%not_elem_of_nil|].
    intros (k & c' & Hk & ->%String.eqb_eq & Hin). congruence.
Qed.

Lemma get_item_by_mask_rec_elem iter t G f i :
  repr t G ->
  i ∈ get_item_by_mask_rec t iter f <->
  f i = true /\ exists o p, G !! o = Some (p, i) /\ mask_path_match iter p = true.
Proof.
  revert t G. induction iter as [|chunk iter IH]; intros t G Hr;
    inversion Hr as [cs ms ws ? Hm Hw Hn Hne Hc]; subst.
  - simpl. rewrite elem_of_filtered. apply and_iff_compat_l. split.
    + intros [o Ho]. exists o, []. rewrite Hm in Ho.
      by destruct (G !! o) as [[[] ]|]; simplify_eq/=.
    + intros (o & [] & Ho & ?); [|done]. exists o. by rewrite Hm, Ho.
  - destruct (String.eqb chunk "#") eqn:Eh.
    + simpl. rewrite Eh, elem_of_filtered. apply and_iff_compat_l. split.
      * intros [o Ho]. rewrite Hw in Ho.
        destruct (G !! o) as [[[|k p] j]|] eqn:E; simplify_eq/=.
        exists o, (k :: p). done.
      * intros (o & [|k p] & Ho & ?); [done|]. exists o. by rewrite Hw, Ho.
    + rewrite by_mask_step by done. simpl. split.
      * intros (k & c & Hk & Hm' & Hin).
        apply (IH _ _ (Hc _ _ Hk)) in Hin as (? & o & p & ?%sub_Some & ?).
        split; [done|]. exists o, (k :: p). split; [done|]. simpl. by rewrite Eh, Hm'.
      * intros (Hf & o & [|k p] & Ho & Hp); [done|]. simpl in Hp. rewrite Eh in Hp. simpl in Hp.
        apply andb_true_iff in Hp as [Hp1 Hp2]. apply sub_Some in Ho.
        destruct (cs !! k) as [c|] eqn:Ek; [|by rewrite (Hn _ Ek), lookup_empty in Ho].
        exists k, c. split_and!; [done..|]. apply (IH _ _ (Hc _ _ Ek)). eauto.
Qed.

(** Every item is stored under its own OID. *)
Definition keyed G : Prop := forall o p i, G !! o = Some (p, i) -> item_oid i = o.

Lemma keyed_sub k G : keyed G -> keyed (sub k G).
Proof. intros Hk o p i ?%sub_Some. by eapply Hk. Qed.

Lemma filtered_NoDup f (m : gmap OID Item) :
  (forall o i, m !! o = Some i -> item_oid i = o) -> NoDup (filtered f m).
Proof.
  intros Hm. apply NoDup_filter, NoDup_fmap_2_strong; [|apply NoDup_map_to_list].
  intros [o1 i1] [o2 i2] H1%elem_of_map_to_list H2%elem_of_map_to_list ?; simpl in *.
  subst. by rewrite <-(Hm _ _ H1), <-(Hm _ _ H2).
Qed.

(** Lists collected from distinct children do not overlap. *)
Lemma collect_NoDup t G iter f (g : string * ItemTree -> list Item) l :
  repr t G -> keyed G ->
  NoDup l -> (forall kc, kc ∈ l -> childs t !! kc.1 = Some kc.2) ->
  (forall kc, kc ∈ l -> g kc = [] \/ g kc = get_item_by_mask_rec kc.2 iter f) ->
  (forall k c, childs t !! k = Some c -> NoDup (get_item_by_mask_rec c iter f)) ->
  NoDup (l ≫= g).
Proof.
  intros Hr Hk Hl Hin Hg Hnd. inversion Hr as [cs ms ws ? Hm Hw Hn Hne Hc]; subst.
  assert (forall kc i, kc ∈ l -> i ∈ g kc ->
    exists p, G !! item_oid i = Some (kc.1 :: p, i)) as Hg'.
  { intros kc i Hkc Hi. destruct (Hg _ Hkc) as [E|E]; rewrite E in Hi.
    { by apply not_elem_of_nil in Hi. }
    apply (get_item_by_mask_rec_elem _ _ _ _ _ (Hc _ _ (Hin _ Hkc)))
      in Hi as (_ & o & p & Ho%sub_Some & _).
    exists p. by rewrite (Hk _ _ _ Ho). }
  apply NoDup_bind; [| |done].
  - intros kc1 kc2 i H1 H2 [p1 E1]%Hg' [p2 E2]%Hg'; [|done..].
    rewrite E1 in E2. injection E2 as Ek _. pose proof (Hin _ H1) as C1.
    pose proof (Hin _ H2) as C2. destruct kc1, kc2; simpl in *. congruence.
  - intros kc Hkc. destruct (Hg _ Hkc) as [-> | ->]; [constructor|eauto].
Qed.

Lemma get_item_by_mask_rec_NoDup iter t G f :
  repr t G -> keyed G -> NoDup (get_item_by_mask_rec t iter f).
Proof.
  revert t G. induction iter as [|chunk iter IH]; intros t G Hr Hk;
    inversion Hr as [cs ms ws ? Hm Hw Hn Hne Hc]; subst.
  - simpl. apply filtered_NoDup. intros o i. rewrite Hm.
    destruct (G !! o) as [[[] ]|] eqn:E; [|done..]. intros [= ->]. by eapply Hk.
  - assert (forall k c, cs !! k = Some c -> NoDup (get_item_by_mask_rec c iter f)) as IH'.
    { intros k c Ek. eapply IH; eauto using keyed_sub. }
    assert (NoDup (map_to_list cs)) by apply NoDup_map_to_list.
    assert (forall kc, kc ∈ map_to_list cs -> cs !! kc.1 = Some kc.2).
    { by intros [] ?%elem_of_map_to_list. }
    simpl. case_match.
    { apply filtered_NoDup. intros o i. rewrite Hw.
      destruct (G !! o) as [[[] ]|] eqn:E; [done| |done]. intros [= ->]. by eapply Hk. }
    case_match; [|case_match; [|case_match; [case_match; [|constructor]|]]].
    + eapply (collect_NoDup (mkTree cs ms ws)); eauto. intros [] ?; by right.
    + eapply (collect_NoDup (mkTree cs ms ws)); eauto using NoDup_filter.
      * intros kc [_ ?]%list_elem_of_filter. eauto.
      * intros [] ?; by right.
    + eapply (collect_NoDup (mkTree cs ms ws)); eauto.
      intros [] ?; simpl; case_match; auto.
    + case_match; [eauto|constructor].
Qed.

(** ** The map of all items *)

(** eva/src/items.rs:1045-1051 [ItemMap] *)
Record ItemMap := mkMap {
  im_unit : ItemTree; im_sensor : ItemTree; im_lvar : ItemTree; im_lmacro : ItemTree
}.

Definition map_default : ItemMap :=
  mkMap tree_default tree_default tree_default tree_default.

(** eva/src/items.rs:1143-1152 [ItemMap::get_tree] *)
Definition get_tree (im : ItemMap) (tp : ItemKind) : ItemTree :=
  match tp with
  | Unit => im_unit im | Sensor => im_sensor im | Lvar => im_lvar im | Lmacro => im_lmacro im
  end.

(** eva/src/items.rs:1153-1162 [ItemMap::get_tree_mut], writing the tree back *)
Definition set_tree (tp : ItemKind) (t : ItemTree) (im : ItemMap) : ItemMap :=
  match tp with
  | Unit => mkMap t (im_sensor im) (im_lvar im) (im_lmacro im)
  | Sensor => mkMap (im_unit im) t (im_lvar im) (im_lmacro im)
  | Lvar => mkMap (im_unit im) (im_sensor im) t (im_lmacro im)
  | Lmacro => mkMap (im_unit im) (im_sensor im) (im_lvar im) t
  end.

(** [oid.full_id().split('/')] *)
Definition path (oid : OID) : list string := split_on slash (oid_full_id oid).

(** eva/src/items.rs:1163-1167 [ItemMap::append] *)
Definition map_append (item : Item) (replace : bool) (im : ItemMap)
    : EResult unit * ItemMap :=
  let tp := oid_kind (item_oid item) in
  let '(r, t) :=
    append_item_rec (get_tree im tp) (path (item_oid item)) item replace in
  (r, set_tree tp t im).

(** eva/src/items.rs:1168-1172 [ItemMap::get] *)
Definition map_get (oid : OID) (im : ItemMap) : option Item :=
  get_item_rec (get_tree im (oid_kind oid)) (path oid).

(** eva/src/items.rs:1173-1177 [ItemMap::remove] *)
Definition map_remove (oid : OID) (im : ItemMap) : option Item * ItemMap :=
  let '(r, t) := remove_item_rec (get_tree im (oid_kind oid)) (path oid) oid in
  (r, set_tree (oid_kind oid) t im).

(** One tree asked for a mask (eva/src/items.rs:1189-1199) *)
Definition tree_by_mask (chunks : option (list string)) (f : Item -> bool)
    (t : ItemTree) : list Item :=
  match chunks with
  | Some chunks => get_item_by_mask_rec t chunks f
  | None => filtered f (members_wildcard t)
  end.

(** eva/src/items.rs:1178-1247 [ItemMap::get_by_mask] *)
Definition map_get_by_mask (mask : OIDMask) (f : Item -> bool)
    (include_stateless : bool) (im : ItemMap) : list Item :=
  match mask_kind mask with
  | Some tp =>
      if bool_decide (tp = Lmacro) && negb include_stateless then []
      else tree_by_mask (mask_chunks mask) f (get_tree im tp)
  | None =>
      tree_by_mask (mask_chunks mask) f (im_unit im) ++
      tree_by_mask (mask_chunks mask) f (im_sensor im) ++
      tree_by_mask (mask_chunks mask) f (im_lvar im) ++
      (if include_stateless then tree_by_mask (mask_chunks mask) f (im_lmacro im) else [])
  end.

(** ** The refinement *)

Implicit Types (m : gmap OID Item) (im : ItemMap).

(** The entries of kind [k], with their paths. *)
Definition flat_of (k : ItemKind) m : flat :=
  map_imap (fun o i => if decide (oid_kind o = k) then Some (path o, i) else None) m.

(** The item map implements the finite map [m]. *)
Definition refines im m : Prop :=
  (forall k, repr (get_tree im k) (flat_of k m)) /\
  (forall o i, m !! o = Some i -> item_oid i = o).

Lemma get_set_tree k k' t im :
  get_tree (set_tree k t im) k' = if decide (k = k') then t else get_tree im k'.
Proof. by destruct k, k'. Qed.

Lemma lookup_flat_of k m o :
  flat_of k m !! o =
    if decide (oid_kind o = k) then (fun i => (path o, i)) <$> m !! o else None.
Proof.
  unfold flat_of. rewrite map_lookup_imap. by destruct (m !! o); simpl; case_decide.
Qed.

Lemma flat_of_path k m o q i : flat_of k m !! o = Some (q, i) -> q = path o.
Proof.
  rewrite lookup_flat_of. case_decide; [|done]. destruct (m !! o); naive_solver.
Qed.

Lemma flat_of_Some k m o q i :
  flat_of k m !! o = Some (q, i) <-> oid_kind o = k /\ q = path o /\ m !! o = Some i.
Proof.
  rewrite lookup_flat_of. case_decide; [|naive_solver].
  destruct (m !! o); naive_solver.
Qed.

Lemma flat_of_insert k m o i :
  oid_kind o = k -> flat_of k (<[o := i]> m) = <[o := (path o, i)]> (flat_of k m).
Proof.
  intros Hk. apply map_eq. intros o'. rewrite lookup_flat_of, !lookup_insert.
  destruct (decide (o = o')) as [<-|]; [by rewrite decide_True|].
  by rewrite lookup_flat_of.
Qed.
Lemma flat_of_insert_ne k m o i :
  oid_kind o ≠ k -> flat_of k (<[o := i]> m) = flat_of k m.
Proof.
  intros Hk. apply map_eq. intros o'. rewrite !lookup_flat_of, lookup_insert.
  destruct (decide (o = o')) as [<-|]; [by rewrite !decide_False|done].
Qed.
Lemma flat_of_delete k m o : flat_of k (delete o m) = delete o (flat_of k m).
Proof.
  apply map_eq. intros o'. rewrite lookup_flat_of, !lookup_delete.
  destruct (decide (o = o')); [by case_decide|by rewrite lookup_flat_of].
Qed.
Lemma flat_of_delete_ne k m o : oid_kind o ≠ k -> flat_of k (delete o m) = flat_of k m.
Proof.
  intros Hk. rewrite flat_of_delete, delete_id; [done|].
  by rewrite lookup_flat_of, decide_False.
Qed.

Lemma keyed_flat_of k m :
  (forall o i, m !! o = Some i -> item_oid i = o) -> keyed (flat_of k m).
Proof. intros Hk o p i (_ & _ & ?)%flat_of_Some. by apply Hk. Qed.

Lemma refines_default : refines map_default ∅.
Proof.
  split; [|intros ??; by rewrite lookup_empty].
  intros k. replace (get_tree map_default k) with tree_default by (by destruct k).
  replace (flat_of k ∅) with (∅ : flat); [apply repr_default|].
  apply map_eq. intros o. rewrite lookup_flat_of, !lookup_empty. by case_decide.
Qed.

Lemma map_get_refines `{!OidLaws} im m o : refines im m -> map_get o im = m !! o.
Proof.
  intros [Hr Hk]. specialize (Hr (oid_kind o)). unfold map_get.
  destruct (m !! o) as [i|] eqn:E.
  - assert (flat_of (oid_kind o) m !! o = Some (path o, i)) as Ho by by apply flat_of_Some.
    destruct (get_item_rec_complete _ _ _ _ _ Hr Ho) as [j Hj]. rewrite Hj.
    destruct (get_item_rec_sound _ _ _ _ Hr Hj) as [o' (Hk' & Hp & Ho')%flat_of_Some].
    apply (inj (split_on _)) in Hp. assert (o' = o) as -> by by apply oid_ext.
    congruence.
  - destruct (get_item_rec _ _) as [j|] eqn:Hj; [|done].
    destruct (get_item_rec_sound _ _ _ _ Hr Hj) as [o' (Hk' & Hp & Ho')%flat_of_Some].
    apply (inj (split_on _)) in Hp. assert (o' = o) as -> by by apply oid_ext.
    congruence.
Qed.

Lemma map_append_dup im m item :
  refines im m -> is_Some (m !! item_oid item) ->
  map_append item false im = (Err EDuplicate, im).
Proof.
  intros [Hr Hk] [i Hi]. unfold map_append.
  erewrite append_item_rec_dup; [by destruct (oid_kind _), im|apply Hr| |].
  - intros q j. apply flat_of_path.
  - exists (path (item_oid item), i). by apply flat_of_Some.
Qed.

Lemma map_append_ok im m item replace :
  refines im m -> replace = true \/ m !! item_oid item = None ->
  exists im', map_append item replace im = (Ok tt, im') /\
    refines im' (<[item_oid item := item]> m).
Proof.
  intros [Hr Hk] Hg. unfold map_append.
  destruct (append_item_rec_ok (path (item_oid item)) item replace
    (get_tree im (oid_kind (item_oid item))) _ (Hr _)) as (t' & -> & Ht').
  - intros q j. apply flat_of_path.
  - destruct Hg as [? | Hg]; [by left|right].
    by rewrite lookup_flat_of, decide_True, Hg.
  - eexists; split; [done|]. split.
    + intros k. rewrite get_set_tree. case_decide; subst.
      * by rewrite flat_of_insert.
      * rewrite flat_of_insert_ne by done. apply Hr.
    + intros o i. rewrite lookup_insert. case_decide; [naive_solver|apply Hk].
Qed.

Lemma map_remove_refines im m o :
  refines im m ->
  exists im', map_remove o im = (m !! o, im') /\ refines im' (delete o m).
Proof.
  intros [Hr Hk]. unfold map_remove.
  destruct (m !! o) as [i|] eqn:E.
  - destruct (remove_item_rec_present (path o) o i _ _ (Hr (oid_kind o)))
      as (t' & -> & Ht'); [by apply flat_of_Some|].
    eexists; split; [done|]. split.
    + intros k. rewrite get_set_tree. case_decide; subst.
      * by rewrite flat_of_delete.
      * rewrite flat_of_delete_ne by done. apply Hr.
    + intros o' i'. rewrite lookup_delete. case_decide; [done|apply Hk].
  - rewrite (remove_item_rec_absent _ _ _ _ (Hr (oid_kind o)))
      by (by rewrite lookup_flat_of, decide_True, E).
    exists im. split; [by destruct (oid_kind o), im|].
    rewrite delete_id by done. by split.
Qed.

Lemma path_cons o : exists k p, path o = k :: p.
Proof.
  unfold path. pose proof (split_on_nonempty slash (oid_full_id o)).
  destruct (split_on _ _); [done|eauto].
Qed.

(** What a mask selects, as a predicate on OIDs. *)
Definition mask_selects (mask : OIDMask) (include_stateless : bool) (o : OID) : bool :=
  match mask_kind mask with Some tp => bool_decide (oid_kind o = tp) | None => true end &&
  (include_stateless || bool_decide (oid_kind o ≠ Lmacro)) &&
  match mask_chunks mask with Some cs => mask_path_match cs (path o) | None => true end.

Lemma tree_by_mask_elem im m chunks f k i :
  refines im m ->
  i ∈ tree_by_mask chunks f (get_tree im k) <->
  f i = true /\ m !! item_oid i = Some i /\ oid_kind (item_oid i) = k /\
    match chunks with Some cs => mask_path_match cs (path (item_oid i)) | None => true end
      = true.
Proof.
  intros [Hr Hk]. specialize (Hr k). unfold tree_by_mask. destruct chunks as [cs|].
  - rewrite (get_item_by_mask_rec_elem _ _ _ _ _ Hr). split.
    + intros (? & o & p & (<- & -> & Ho)%flat_of_Some & ?). by rewrite (Hk _ _ Ho).
    + intros (? & Ho & Hkind & ?). split; [done|]. eexists _, _. split; [|done].
      by apply flat_of_Some.
  - rewrite elem_of_filtered. inversion Hr as [cs' ms ws ? _ Hw _ _ _ E]. split.
    + intros (? & o & Ho). simpl in Ho. rewrite Hw in Ho.
      destruct (flat_of k m !! o) as [[q j]|] eqn:Eo; [|done].
      apply flat_of_Some in Eo as (<- & -> & Hj).
      destruct (path_cons o) as (k' & p & Hp). rewrite Hp in Ho. simplify_eq/=.
      by rewrite (Hk _ _ Hj).
    + intros (? & Ho & Hkind & _). split; [done|]. exists (item_oid i). simpl.
      rewrite Hw. assert (flat_of k m !! item_oid i = Some (path (item_oid i), i)) as ->
        by by apply flat_of_Some.
      by destruct (path_cons (item_oid i)) as (k' & p & ->).
Qed.

Lemma tree_by_mask_NoDup im m chunks f k :
  refines im m -> NoDup (tree_by_mask chunks f (get_tree im k)).
Proof.
  intros Href. pose proof Href as [Hr Hk]. unfold tree_by_mask. destruct chunks.
  - eapply get_item_by_mask_rec_NoDup; [apply Hr|by apply keyed_flat_of].
  - apply filtered_NoDup. specialize (Hr k).
    inversion Hr as [cs' ms ws ? _ Hw _ _ _ E]. intros o i Ho. simpl in Ho.
    rewrite Hw in Ho. destruct (flat_of k m !! o) as [[[] j]|] eqn:Eo; simplify_eq/=.
    apply flat_of_Some in Eo as (_ & _ & ?). by apply Hk.
Qed.

Lemma map_get_by_mask_elem im m mask f st i :
  refines im m ->
  i ∈ map_get_by_mask mask f st im <->
  f i = true /\ m !! item_oid i = Some i /\ mask_selects mask st (item_oid i) = true.
Proof.
  intros Hr. unfold map_get_by_mask, mask_selects.
  destruct (mask_kind mask) as [tp|].
  - destruct (decide (tp = Lmacro /\ st = false)) as [[-> ->]|Hd].
    + rewrite bool_decide_eq_true_2 by done. simpl.
      split; [by intros ?%not_elem_of_nil|]. intros (_ & _ & Hs).
      destruct (oid_kind (item_oid i)); simpl in Hs; done.
    + replace (bool_decide (tp = Lmacro) && negb st) with false.
      2:{ symmetry. destruct st; [apply andb_false_r|]. rewrite andb_true_r.
          apply bool_decide_eq_false_2. intros ->. by apply Hd. }
      rewrite (tree_by_mask_elem _ _ _ _ _ _ Hr).
      assert (oid_kind (item_oid i) = tp -> st || bool_decide (oid_kind (item_oid i) ≠ Lmacro) = true).
      { intros ->. destruct st; [done|]. apply bool_decide_eq_true_2. intros ->. by apply Hd. }
      rewrite !andb_true_iff, bool_decide_eq_true. naive_solver.
  - change (im_unit im) with (get_tree im Unit).
    change (im_sensor im) with (get_tree im Sensor).
    change (im_lvar im) with (get_tree im Lvar).
    change (im_lmacro im) with (get_tree im Lmacro).
    rewrite !elem_of_app, !(tree_by_mask_elem _ _ _ _ _ _ Hr).
    destruct st; rewrite ?(tree_by_mask_elem _ _ _ _ _ _ Hr), ?elem_of_nil;
      simpl; rewrite ?andb_true_iff;
      destruct (oid_kind (item_oid i)) eqn:E; simpl; naive_solver.
Qed.

Lemma map_get_by_mask_NoDup im m mask f st :
  refines im m -> NoDup (map_get_by_mask mask f st im).
Proof.
  intros Hr. unfold map_get_by_mask. destruct (mask_kind mask) as [tp|].
  { destruct (_ && _); [constructor|by eapply tree_by_mask_NoDup]. }
  change (im_unit im) with (get_tree im Unit).
  change (im_sensor im) with (get_tree im Sensor).
  change (im_lvar im) with (get_tree im Lvar).
  change (im_lmacro im) with (get_tree im Lmacro).
  assert (forall k, NoDup (tree_by_mask (mask_chunks mask) f (get_tree im k))) as Hn
    by (intros; by eapply tree_by_mask_NoDup).
  assert (forall k k' i, i ∈ tree_by_mask (mask_chunks mask) f (get_tree im k) ->
    i ∈ tree_by_mask (mask_chunks mask) f (get_tree im k') -> k = k') as Hd.
  { intros k k' i (_ & _ & <- & _)%(tree_by_mask_elem _ _ _ _ _ _ Hr)
      (_ & _ & <- & _)%(tree_by_mask_elem _ _ _ _ _ _ Hr). done. }
  rewrite !NoDup_app. setoid_rewrite elem_of_app. setoid_rewrite elem_of_app.
  split_and!; auto.
  - intros i Hi [Hj|[Hj|Hj]]; [by specialize (Hd _ _ _ Hi Hj)..|].
    destruct st; [by specialize (Hd _ _ _ Hi Hj)|by apply not_elem_of_nil in Hj].
  - intros i Hi [Hj|Hj]; [by specialize (Hd _ _ _ Hi Hj)|].
    destruct st; [by specialize (Hd _ _ _ Hi Hj)|by apply not_elem_of_nil in Hj].
  - intros i Hi Hj.
    destruct st; [by specialize (Hd _ _ _ Hi Hj)|by apply not_elem_of_nil in Hj].
  - destruct st; [auto|constructor].
Qed.

(** ** Histories of operations *)

Inductive map_op :=
  | OpAppend (item : Item) (replace : bool)
  | OpRemove (oid : OID)
  | OpGet (oid : OID).

Inductive map_out := OutAppend (r : EResult unit) | OutItem (r : option Item).

(** The operations of the item map. *)
Definition map_exec (op : map_op) im : map_out * ItemMap :=
  match op with
  | OpAppend item replace =>
      let '(r, im') := map_append item replace im in (OutAppend r, im')
  | OpRemove oid => let '(r, im') := map_remove oid im in (OutItem r, im')
  | OpGet oid => (OutItem (map_get oid im), im)
  end.

(** The same operations on a finite map: the specification. *)
Definition flat_exec (op : map_op) m : map_out * gmap OID Item :=
  match op with
  | OpAppend item replace =>
      if bool_decide (is_Some (m !! item_oid item)) && negb replace
      then (OutAppend (Err EDuplicate), m)
      else (OutAppend (Ok tt), <[item_oid item := item]> m)
  | OpRemove oid => (OutItem (m !! oid), delete oid m)
  | OpGet oid => (OutItem (m !! oid), m)
  end.

Fixpoint run {S} (exec : map_op -> S -> map_out * S) (ops : list map_op) (s : S)
    : list map_out * S :=
  match ops with
  | [] => ([], s)
  | op :: ops =>
      let '(o, s') := exec op s in
      let '(os, s'') := run exec ops s' in (o :: os, s'')
  end.

Lemma map_exec_refines `{!OidLaws} op im m :
  refines im m ->
  (map_exec op im).1 = (flat_exec op m).1 /\
  refines (map_exec op im).2 (flat_exec op m).2.
Proof.
  intros Hr. destruct op as [item replace|o|o]; simpl.
  - destruct (bool_decide (is_Some _) && negb replace) eqn:E.
    + apply andb_true_iff in E as [E%bool_decide_eq_true ->%negb_true_iff].
      by rewrite (map_append_dup _ _ _ Hr E).
    + destruct (map_append_ok _ _ item replace Hr) as (im' & -> & Hr'); [|done].
      apply andb_false_iff in E as [E%bool_decide_eq_false|E%negb_false_iff];
        [right|by left]. by apply eq_None_not_Some.
  - by destruct (map_remove_refines _ _ o Hr) as (im' & -> & Hr').
  - by rewrite (map_get_refines _ _ o Hr).
Qed.

Lemma run_refines `{!OidLaws} ops im m :
  refines im m ->
  (run map_exec ops im).1 = (run flat_exec ops m).1 /\
  refines (run map_exec ops im).2 (run flat_exec ops m).2.
Proof.
  revert im m. induction ops as [|op ops IH]; intros im m Hr; simpl; [done|].
  destruct (map_exec_refines op _ _ Hr) as [Eo Hr'].
  destruct (map_exec op im) as [o1 im'], (flat_exec op m) as [o2 m']; simpl in *.
  destruct (IH _ _ Hr') as [Eo' Hr''].
  destruct (run map_exec ops im'), (run flat_exec ops m'); simpl in *.
  split; [by f_equal|done].
Qed.

(** C26: the item tree implements a finite map.  For every history of
    registrations, removals and lookups, starting from the empty map, the
    tree answers exactly what a flat map from OIDs to items answers:
    duplicates are refused unless replacing is allowed, a removed item is
    gone, and a lookup finds the last item registered. *)
Theorem item_map_refinement `{!OidLaws} ops :
  (run map_exec ops map_default).1 = (run flat_exec ops ∅).1.
Proof. apply run_refines, refines_default. Qed.

(** a query by mask returns every registered item that the mask selects
    and the filter accepts, no other item, and none of them twice; the
    wildcard indexes at the nodes of the tree never go stale. *)
Lemma item_map_by_mask `{!OidLaws} ops mask f include_stateless :
  let im := (run map_exec ops map_default).2 in
  let m := (run flat_exec ops ∅).2 in
  let found := map_get_by_mask mask f include_stateless im in
  NoDup found /\
  forall i, i ∈ found <->
    f i = true /\ m !! item_oid i = Some i /\
    mask_selects mask include_stateless (item_oid i) = true.
Proof.
  intros im m found. assert (refines im m) as Hr by apply run_refines, refines_default.
  split; [by eapply map_get_by_mask_NoDup|].
  intros i. by apply map_get_by_mask_elem.
Qed.
End item_tree.

Module ItemTreeExamples.
Import Sample.
Definition o1 : OID := (Unit, "light/room1/lamp1").
Definition o2 : OID := (Unit, "light/room2/lamp1").
Definition o3 : OID := (Sensor, "env/temp").
Definition ops : list map_op :=
  [OpAppend o1 false; OpAppend o2 false; OpAppend o3 false; OpAppend o1 false;
   OpAppend o1 true; OpGet o2; OpRemove o2; OpGet o2; OpRemove o2; OpGet o1].
Definition tree : ItemMap := (run (map_exec id) ops map_default).2.

Example outputs : (run (map_exec id) ops map_default).1 =
  [OutAppend (Ok tt); OutAppend (Ok tt); OutAppend (Ok tt); OutAppend (Err EDuplicate);
   OutAppend (Ok tt); OutItem (Some o2); OutItem (Some o2); OutItem None; OutItem None;
   OutItem (Some o1)].
Proof. vm_compute. reflexivity. Qed.

Example by_mask : map_get_by_mask (None, Some ["light"; "+"; "lamp1"]) (fun _ => true)
  false tree = [o1].
Proof. vm_compute. reflexivity. Qed.
Example by_wildcard : map_get_by_mask (Some Sensor, Some ["#"]) (fun _ => true)
  false tree = [o3].
Proof. vm_compute. reflexivity. Qed.
(** A wildcard chunk stands for at least one chunk. *)
Example wildcard_below : map_get_by_mask (None, Some ["env"; "temp"; "#"])
  (fun _ => true) false tree = [].
Proof. vm_compute. reflexivity. Qed.

Lemma item_map_refinement_witness :
  (run (map_exec id) ops map_default).1 = (run (flat_exec id) ops ∅).1.
Proof. exact (item_map_refinement id ops). Defined.

Lemma item_map_by_mask_example :
  o1 ∈ map_get_by_mask (None, Some ["light"; "+"; "lamp1"]) (fun _ => true) false tree.
Proof.
  apply (item_map_by_mask id ops (None, Some ["light"; "+"; "lamp1"]) (fun _ => true) false).
  vm_compute. auto.
Defined.
End ItemTreeExamples.
