(* ===== verification/Inventory.v ===== *)
(** * The inventory (eva/src/items.rs)

    The inventory keeps the items of a node, its own and those replicated
    from other nodes (sources), in three indexes: the item tree, the items
    by source and the sources.

    An item is shared between the indexes and the tasks that hold it
    ([Arc<ItemData>]).  Its fields never change but for the state
    ([Mutex<ItemState>]) and the enabled flag ([AtomicBool]); those are
    cells of a [Store], so that a write through one reference is seen
    through every other.  The same holds for the two flags of a source. *)
From S2P Require Import Prelude EvaCommon ItemState ItemTree.

(** ** Shared cells *)

Section store.
Context `{Externals}.

Definition loc : Type := positive.

(** eva/src/items.rs:777-782 [SourceData], the flags; the service is a field
    of [Source] as it never changes *)
Record SourceFlags := mkFlags { sf_online : bool; sf_destroyed : bool }.

Record Store := mkStore {
  s_state : gmap loc ItemState;        (* Mutex<ItemState> *)
  s_flag : gmap loc bool;              (* ItemData::enabled *)
  s_source : gmap loc SourceFlags;     (* ItemSource::data *)
  s_next : loc
}.

Definition store_empty : Store := mkStore ∅ ∅ ∅ 1%positive.

(** [Mutex::new], [AtomicBool::new], [SourceData::new] *)
Definition new_state (st : ItemState) (σ : Store) : loc * Store :=
  (s_next σ, mkStore (<[s_next σ := st]> (s_state σ)) (s_flag σ) (s_source σ)
               (Pos.succ (s_next σ))).
Definition new_flag (b : bool) (σ : Store) : loc * Store :=
  (s_next σ, mkStore (s_state σ) (<[s_next σ := b]> (s_flag σ)) (s_source σ)
               (Pos.succ (s_next σ))).
(** eva/src/items.rs:785-791 [SourceData::new]: a new source is online *)
Definition new_source_data (σ : Store) : loc * Store :=
  (s_next σ, mkStore (s_state σ) (s_flag σ) (<[s_next σ := mkFlags true false]> (s_source σ))
               (Pos.succ (s_next σ))).

(** Reading a cell; a cell that is held is always allocated (see
    [items_alloc]), so the default is never read. *)
Definition state_dummy : ItemState := mkState 0 VUnit None (ieid_new 0 0) f64_zero.
Definition read_state (σ : Store) (l : loc) : ItemState :=
  default state_dummy (s_state σ !! l).
Definition read_flag (σ : Store) (l : loc) : bool := default false (s_flag σ !! l).
Definition read_source (σ : Store) (l : loc) : SourceFlags :=
  default (mkFlags false false) (s_source σ !! l).

(** Writing a cell, which exists as long as there is a reference to it. *)
Definition write_state (l : loc) (st : ItemState) (σ : Store) : Store :=
  mkStore (alter (fun _ => st) l (s_state σ)) (s_flag σ) (s_source σ) (s_next σ).
Definition write_flag (l : loc) (b : bool) (σ : Store) : Store :=
  mkStore (s_state σ) (alter (fun _ => b) l (s_flag σ)) (s_source σ) (s_next σ).
Definition update_source (l : loc) (f : SourceFlags -> SourceFlags) (σ : Store) : Store :=
  mkStore (s_state σ) (s_flag σ) (alter f l (s_source σ)) (s_next σ).

End store.

Section inventory.
Context `{Externals}.

(** ** Items *)

(** eva/src/items.rs:454-462 [ActionConfig] *)
Record ActionConfig := mkActionConfig {
  ac_svc : string;
  ac_timeout : option f64;
  ac_config : option Value
}.

(** eva/src/items.rs:146-150 [ItemSource], with its [SourceData] *)
Record Source := mkSource {
  src_node : string;
  src_data : loc;
  src_svc : string
}.

(** eva/src/items.rs:567-591 [ItemData] *)
Record Item := mkItem {
  it_oid : OID;
  it_state : option loc;
  it_meta : option Value;
  it_source : option Source;
  it_enabled : loc;
  it_logic : option Logic;
  it_action : option ActionConfig
}.

(** eva/src/items.rs:797-803 [Inventory] *)
Record Inventory := mkInventory {
  items : ItemMap (Item := Item);
  items_by_source : gmap (option string) (gmap OID Item);
  sources : gmap string Source
}.

(** eva/src/items.rs:807-809 [Inventory::new] *)
Definition inventory_new : Inventory := mkInventory map_default ∅ ∅.

(** The inventory and the cells of its items. *)
Record Inv := mkInv { store : Store; inventory : Inventory }.

Abbreviation IM := (M Inv).

Definition on_store {A} (f : Store -> A * Store) : IM A := fun s =>
  let '(a, σ) := f (store s) in (Ok a, mkInv σ (inventory s)).
Definition put_inventory (i : Inventory) : IM unit :=
  modify (fun s => mkInv (store s) i).

(** eva/src/items.rs:190-193 [ItemSource::mark_online] *)
Definition src_mark_online (s : Source) (b : bool) : Store -> Store :=
  update_source (src_data s) (fun f => mkFlags b (sf_destroyed f)).
(** eva/src/items.rs:194-197 [ItemSource::mark_destroyed] *)
Definition src_mark_destroyed (s : Source) : Store -> Store :=
  update_source (src_data s) (fun f => mkFlags (sf_online f) true).
(** eva/src/items.rs:198-201 [ItemSource::online] *)
Definition src_is_online (σ : Store) (s : Source) : bool :=
  sf_online (read_source σ (src_data s)).
(** eva/src/items.rs:210-213 [ItemSource::is_destroyed] *)
Definition src_is_destroyed (σ : Store) (s : Source) : bool :=
  sf_destroyed (read_source σ (src_data s)).

(** eva/src/items.rs:163-166 [create_source], with [ItemSource::new] *)
Definition create_source (source_id svc : string) : IM Source :=
  data ← on_store new_source_data;
  mret (mkSource source_id data svc).

(** eva/src/items.rs:661-664 [ItemData::enabled] *)
Definition item_is_enabled (σ : Store) (i : Item) : bool := read_flag σ (it_enabled i).
(** eva/src/items.rs:665-668 [ItemData::set_enabled] *)
Definition item_set_enabled (i : Item) (b : bool) : Store -> Store := write_flag (it_enabled i) b.

(** The node an item comes from, none for a local item. *)
Definition node_of (i : Item) : option string := src_node <$> it_source i.

(** eva/src/items.rs:680-687 [ItemData::local_state_event] *)
Definition item_local_state_event (σ : Store) (i : Item) : option LocalStateEvent :=
  match it_state i with
  | Some st => Some (local_state_event_of (read_state σ st))
  | None => None
  end.

(** eva/src/items.rs:691-702 [ItemData::db_state] *)
Definition item_db_state (σ : Store) (i : Item) : option DbState :=
  match it_state i with
  | Some st =>
      let state := read_state σ st in
      match value_as_bytes (st_value state) with
      | Some _ => None
      | None => Some (db_state_of state)
      end
  | None => None
  end.

(** The result of [ItemData::state_and_info] *)
Record ItemStateAndInfo := mkInfo {
  si_oid : OID;
  si_status : option Z;
  si_value : option Value;
  si_act : option Z;
  si_ieid : option IEID;
  si_t : option f64;
  si_node : string;
  si_connected : bool
}.

(** eva/src/items.rs:713-760 [ItemData::state_and_info] *)
Definition state_and_info (σ : Store) (i : Item) (system_name : string)
    (include_binary_values : bool) : ItemStateAndInfo :=
  let '(status, value, act, ieid, t) :=
    match it_state i with
    | Some st =>
        let state := read_state σ st in
        let value :=
          match value_as_bytes (st_value state) with
          | Some v =>
              if include_binary_values then st_value state
              else VBytes (if (3 <=? length v)%nat then take 3 v else v)
          | None => st_value state
          end in
        (Some (st_status state), Some value, st_act state, Some (st_ieid state),
         Some (st_t state))
    | None => (None, None, None, None, None)
    end in
  let '(node, connected) :=
    match it_source i with
    | Some src => (src_node src, src_is_online σ src)
    | None => (system_name, true)
    end in
  mkInfo (it_oid i) status value act
    (if connected then ieid
     else match ieid with Some _ => Some (ieid_new 0 0) | None => None end)
    t node connected.

(** eva/src/items.rs:764-774 [ItemData::full_state_and_info]: the state, the
    meta data and the enabled flag *)
Definition full_state_and_info (σ : Store) (i : Item) (system_name : string)
    (include_binary_values : bool) : ItemStateAndInfo * option Value * bool :=
  (state_and_info σ i system_name include_binary_values, it_meta i, item_is_enabled σ i).

(** ** Item configurations *)

(** eva/src/items.rs:486-503 [ItemConfigData] *)
Record ItemConfigData := mkConfig {
  cf_oid : OID;
  cf_meta : option Value;
  cf_enabled : bool;
  cf_logic : option Logic;
  cf_action : option ActionConfig;
  cf_status : option Z;
  cf_value : option Value;
  cf_t : option f64
}.

(** eva/src/items.rs:506-526 [ItemConfigData::blank] *)
Definition config_blank (oid : OID) (sender : string) : ItemConfigData :=
  let action :=
    if decide (oid_kind oid = Unit) then Some (mkActionConfig sender None None) else None in
  mkConfig oid None true None action None None None.

(** eva/src/items.rs:527-547 [ItemConfigData::from_raw_event] *)
Definition config_from_raw_event (oid : OID) (ev : RawStateEvent) (sender : string)
    : ItemConfigData :=
  let action :=
    if decide (oid_kind oid = Unit) then Some (mkActionConfig sender None None) else None in
  mkConfig oid None true None action (Some (raw_status ev)) (raw_value ev) (raw_t ev).

(** eva/src/items.rs:593-612 [check_item_data], on the fields it looks at *)
Definition check_item_data (oid : OID) (logic : option Logic)
    (action : option ActionConfig) : EResult unit :=
  match oid_kind oid with
  | Unit => Ok tt
  | Sensor | Lvar => match action with Some _ => Err EInvalidData | None => Ok tt end
  | Lmacro => match logic with Some _ => Err EInvalidData | None => Ok tt end
  end.

(** ** Operations *)

(** eva/src/items.rs:990-993 [Inventory::get_item] *)
Definition get_item (oid : OID) (inv : Inventory) : option Item :=
  map_get oid (items inv).

(** eva/src/items.rs:963-980 [Inventory::append_item] *)
Definition append_item (item : Item) (replace : bool) : IM Item :=
  s ← get;
  let inv := inventory s in
  let '(r, items') := map_append it_oid item replace (items inv) in
  _ ← put_inventory (mkInventory items' (items_by_source inv) (sources inv));
  _ ← lift r;
  let node := node_of item in
  _ ← put_inventory
    match items_by_source inv !! node with
    | Some its =>
        mkInventory items' (<[node := <[it_oid item := item]> its]> (items_by_source inv))
          (sources inv)
    | None =>
        let its := {[ it_oid item := item ]} in
        match it_source item with
        | Some s =>
            mkInventory items' (<[node := its]> (items_by_source inv))
              (<[src_node s := s]> (sources inv))
        | None => mkInventory items' (<[node := its]> (items_by_source inv)) (sources inv)
        end
    end;
  mret item.

(** eva/src/items.rs:994-1009 [Inventory::remove_item] *)
Definition remove_item (oid : OID) : IM (option Item) :=
  s ← get;
  let inv := inventory s in
  let '(r, items') := map_remove oid (items inv) in
  match r with
  | Some item =>
      let node := node_of item in
      _ ← put_inventory
        match items_by_source inv !! node with
        | Some its =>
            let its' := delete (it_oid item) its in
            if (size its' =? 0)%nat then
              mkInventory items' (delete node (items_by_source inv))
                match node with Some n => delete n (sources inv) | None => sources inv end
            else mkInventory items' (<[node := its']> (items_by_source inv)) (sources inv)
        | None => mkInventory items' (items_by_source inv) (sources inv)
        end;
      mret (Some item)
  | None =>
      _ ← put_inventory (mkInventory items' (items_by_source inv) (sources inv));
      mret None
  end.

(** eva/src/items.rs:826-831 [Inventory::get_or_create_source] *)
Definition get_or_create_source (source_id svc : string) : IM Source :=
  s ← get;
  match sources (inventory s) !! source_id with
  | Some src => mret src
  | None => create_source source_id svc
  end.

(** eva/src/items.rs:832-837 [Inventory::get_items_by_source] *)
Definition get_items_by_source (source_id : string) (inv : Inventory) : option (gmap OID Item) :=
  items_by_source inv !! Some source_id.

(** eva/src/items.rs:838-847 [Inventory::list_local_items] *)
Definition list_local_items (inv : Inventory) : list Item :=
  match items_by_source inv !! None with
  | Some its => (map_to_list its).*2
  | None => []
  end.

(** eva/src/items.rs:848-853 [Inventory::mark_source_online] *)
Definition mark_source_online (source_id : string) (online : bool) : IM unit :=
  s ← get;
  match sources (inventory s) !! source_id with
  | Some source => modify (fun s => mkInv (src_mark_online source online (store s)) (inventory s))
  | None => mret tt
  end.

(** eva/src/items.rs:810-825 [Inventory::stats], the total number of items *)
Definition stats_items (inv : Inventory) : nat :=
  map_fold (fun _ its n => n + size its) 0 (items_by_source inv).

(** eva/src/items.rs:882-890 [Inventory::get_or_generate_state] *)
Definition get_or_generate_state (oid : OID) (boot_id : Z) (now : f64) (ns : Z)
    : IM ItemState :=
  s ← get;
  let fresh := new0 (ieid_generate boot_id ns) (oid_kind oid) now in
  mret match get_item oid (inventory s) with
       | Some item =>
           match it_state item with
           | Some old_stc => read_state (store s) old_stc
           | None => fresh
           end
       | None => fresh
       end.

(** [Arc::new(ItemData { .. })] with a cell for the state and one for the
    flag, registered with [append_item] *)
Definition add_item (oid : OID) (st : option ItemState) (meta : option Value)
    (source : option Source) (enabled : bool) (logic : option Logic)
    (action : option ActionConfig) (replace : bool) : IM Item :=
  l ← match st with
      | Some st => l ← on_store (new_state st); mret (Some l)
      | None => mret None
      end;
  en ← on_store (new_flag enabled);
  append_item (mkItem oid l meta source en logic action) replace.

(** eva/src/items.rs:896-921 [Inventory::append_item_from_config_data], with
    [ItemConfigData::split] *)
Definition append_item_from_config_data (cf : ItemConfigData) (boot_id : Z)
    (now : f64) (ns : Z) : IM Item :=
  _ ← lift (check_item_data (cf_oid cf) (cf_logic cf) (cf_action cf));
  let tp := oid_kind (cf_oid cf) in
  st ← (if decide (tp = Lmacro) then mret None
        else
          state ← get_or_generate_state (cf_oid cf) boot_id now ns;
          let state := if decide (tp = Unit) then set_act (Some 0%Z) state else state in
          let state := match cf_status cf with Some s => set_status s state | None => state end in
          let state := match cf_value cf with Some v => set_value v state | None => state end in
          let state := match cf_t cf with Some t => set_t t state | None => state end in
          mret (Some state));
  add_item (cf_oid cf) st (cf_meta cf) None (cf_enabled cf) (cf_logic cf) (cf_action cf) true.

(** The fields of an item as they are deserialized from the registry. *)
Record ItemParsed := mkParsed {
  ip_oid : OID;
  ip_state : option ItemState;
  ip_meta : option Value;
  ip_enabled : bool;
  ip_logic : option Logic;
  ip_action : option ActionConfig
}.

(** eva/src/items.rs:859-881 [Inventory::append_item_from_value]; the
    deserialized configuration (or the error) is an argument *)
Definition append_item_from_value (oid : OID) (config : EResult ItemParsed)
    (state : option ItemState) (boot_id : Z) (now : f64) (ns : Z) : IM Item :=
  data ← lift config;
  if decide (ip_oid data = oid) then
    _ ← lift (check_item_data (ip_oid data) (ip_logic data) (ip_action data));
    let tp := oid_kind (ip_oid data) in
    let st :=
      match state with
      | Some st => Some (if decide (tp = Unit) then set_act (Some 0%Z) st else st)
      | None =>
          match ip_state data with
          | Some st => Some st
          | None =>
              if decide (tp = Lmacro) then None
              else Some (new0 (ieid_generate boot_id ns) tp now)
          end
      end in
    add_item (ip_oid data) st (ip_meta data) None (ip_enabled data)
      (ip_logic data) (ip_action data) true
  else raise EInvalidData.

(** eva/src/items.rs:923-954 [Inventory::create_item] *)
Definition create_item (oid : OID) (ieid : option IEID) (from : option (string * string))
    (now : f64) : IM Item :=
  let tp := oid_kind oid in
  source ← match from with
           | Some (source_id, svc) =>
               src ← get_or_create_source source_id svc; mret (Some src)
           | None => mret None
           end;
  st ← (if decide (tp = Lmacro) then mret None
        else
          ieid ← lift (ok_or ieid EInvalidData);
          mret (Some (new0 ieid tp now)));
  add_item oid st None source true None None false.

(** eva/src/items.rs:622-644 [ItemData::from_repl_item], the state of the new
    item; the other fields are set by [append_remote_item] *)
Definition from_repl_item (i : ReplicationInventoryItem) : EResult (option ItemState) :=
  if decide (oid_kind (ri_oid i) = Lmacro) then Ok None
  else
    ieid ← ok_or (ri_ieid i) EInvalidData;
    t ← ok_or (ri_t i) EInvalidData;
    mret (Some (mkState (default 0%Z (ri_status i)) (default value_default (ri_value i))
                  (ri_act i) ieid t)).

(** eva/src/items.rs:955-962 [Inventory::append_remote_item] *)
Definition append_remote_item (remote_item : ReplicationInventoryItem) (source : Source)
    : IM Item :=
  st ← lift (from_repl_item remote_item);
  add_item (ri_oid remote_item) st (ri_meta remote_item) (Some source)
    (ri_enabled remote_item) None None true.

(** ** Filters *)

(** eva/src/items.rs:1053-1057 [NodeFilter] *)
Inductive NodeFilter := NodeLocal | NodeRemote (id : string) | NodeRemoteAny.

(** eva/src/items.rs:1059-1065 [Filter] *)
Record Filter := mkFilter {
  fl_include : option OIDMaskList;
  fl_exclude : option OIDMaskList;
  fl_node : option NodeFilter;
  fl_pattern : option Regex
}.

Definition filter_default : Filter := mkFilter None None None None.
(** eva/src/items.rs:1079-1082 [Filter::node] *)
Definition filter_node (sid : NodeFilter) (f : Filter) : Filter :=
  mkFilter (fl_include f) (fl_exclude f) (Some sid) (fl_pattern f).

(** eva/src/items.rs:1099-1139 [Filter::matches] *)
Definition filter_matches (f : Filter) (item : Item) : bool :=
  let node_ok :=
    match fl_node f with
    | Some NodeLocal => match it_source item with Some _ => false | None => true end
    | Some NodeRemoteAny => match it_source item with None => false | Some _ => true end
    | Some (NodeRemote id) =>
        match it_source item with
        | Some source =>
            negb (negb (String.eqb id "#") && negb (String.eqb id "*")
                  && negb (String.eqb (src_node source) id))
        | None => false
        end
    | None => true
    end in
  if negb node_ok then false
  else if match fl_pattern f with
          | Some pattern => negb (regex_is_match pattern (oid_as_str (it_oid item)))
          | None => false
          end then false
  else if match fl_include f with
          | Some l => negb (mask_list_matches l (it_oid item))
          | None => false
          end then false
  else match fl_exclude f with
       | Some l => negb (mask_list_matches l (it_oid item))
       | None => true
       end.

(** eva/src/items.rs:981-989 [Inventory::get_items_by_mask] *)
Definition get_items_by_mask (mask : OIDMask) (f : Filter) (include_stateless : bool)
    (inv : Inventory) : list Item :=
  map_get_by_mask mask (filter_matches f) include_stateless (items inv).

(** [HashSet<Item>::insert] over a list: items are hashed and compared by OID *)
Definition insert_new (h : gmap OID Item) (l : list Item) : gmap OID Item :=
  foldl (fun h i => match h !! it_oid i with Some _ => h | None => <[it_oid i := i]> h end) h l.

(** eva/src/items.rs:1010-1029 [Inventory::list_items_with_states] *)
Definition list_items_with_states (mask_list : OIDMaskList) (source_id : option NodeFilter)
    (inv : Inventory) : list Item :=
  let filter :=
    match source_id with Some v => filter_node v filter_default | None => filter_default end in
  let h := foldl (fun h mask => insert_new h (get_items_by_mask mask filter false inv))
             ∅ (mask_list_masks mask_list) in
  (map_to_list h).*2.

(** ** The invariant of the indexes

    The three indexes are views of one finite map [m]: the tree stores [m],
    the items by source are the items of [m] grouped by their node, without
    empty groups, and the sources are those of the non-local groups. *)

Implicit Types (m : gmap OID Item) (inv : Inventory).

Definition by_source m (src : option string) : gmap OID Item :=
  filter (fun oi => node_of oi.2 = src) m.

Definition nonempty {K A} `{Countable K} (g : gmap K A) : option (gmap K A) :=
  if (size g =? 0)%nat then None else Some g.

Record inv_repr inv m : Prop := {
  repr_items : refines it_oid (items inv) m;
  repr_groups src : items_by_source inv !! src = nonempty (by_source m src);
  repr_sources n : is_Some (sources inv !! n) <-> is_Some (nonempty (by_source m (Some n)));
  repr_nodes n s : sources inv !! n = Some s -> src_node s = n
}.

Lemma nonempty_Some {K A} `{Countable K} (g g' : gmap K A) :
  nonempty g = Some g' <-> g' = g /\ g ≠ ∅.
Proof.
  unfold nonempty. destruct (Nat.eqb_spec (size g) 0) as [E|E].
  - apply map_size_empty_inv in E. naive_solver.
  - split; [intros [= <-]|intros [-> _]]; [split; [done|]|done].
    intros ->. by rewrite map_size_empty in E.
Qed.

Lemma nonempty_insert {K A} `{Countable K} (g : gmap K A) k x :
  nonempty (<[k := x]> g) = Some (<[k := x]> g).
Proof. apply nonempty_Some. split; [done|apply insert_non_empty]. Qed.

Lemma nonempty_None {K A} `{Countable K} (g : gmap K A) : nonempty g = None -> g = ∅.
Proof.
  unfold nonempty. destruct (Nat.eqb_spec (size g) 0) as [E|E]; [|done].
  intros _. by apply map_size_empty_inv.
Qed.

Lemma lookup_by_source m src o i :
  by_source m src !! o = Some i <-> m !! o = Some i /\ node_of i = src.
Proof. unfold by_source. by rewrite map_lookup_filter_Some. Qed.

Lemma by_source_insert m o i :
  by_source (<[o := i]> m) (node_of i) = <[o := i]> (by_source m (node_of i)).
Proof. unfold by_source. by rewrite map_filter_insert_True. Qed.

Lemma by_source_insert_ne m o i src :
  node_of i ≠ src -> (forall old, m !! o = Some old -> node_of old ≠ src) ->
  by_source (<[o := i]> m) src = by_source m src.
Proof.
  intros Hne Hold. unfold by_source.
  rewrite map_filter_insert_False by done. by apply map_filter_delete_not.
Qed.

Lemma by_source_delete m o src : by_source (delete o m) src = delete o (by_source m src).
Proof. apply map_filter_delete. Qed.

Lemma by_source_delete_ne m o i src :
  m !! o = Some i -> node_of i ≠ src -> by_source (delete o m) src = by_source m src.
Proof.
  intros Ho Hne. rewrite by_source_delete. apply delete_id.
  destruct (by_source m src !! o) as [j|] eqn:E; [|done].
  apply lookup_by_source in E. naive_solver.
Qed.

Lemma inv_repr_new : inv_repr inventory_new ∅.
Proof.
  split; simpl.
  - apply refines_default.
  - intros src. unfold by_source. by rewrite lookup_empty, map_filter_empty.
  - intros n. unfold by_source. rewrite lookup_empty, map_filter_empty.
    split; by intros [? [=]].
  - intros n s. by rewrite lookup_empty.
Qed.

Lemma get_item_repr `{!OidLaws} inv m o : inv_repr inv m -> get_item o inv = m !! o.
Proof. intros [Hi _ _ _]. by eapply map_get_refines. Qed.

(** An item registered over none, or over one of the same node. *)
Definition same_node m (item : Item) : Prop :=
  forall old, m !! it_oid item = Some old -> node_of old = node_of item.

(** The indexes after [append_item] has registered an item. *)
Definition appended (item : Item) (items' : ItemMap) inv : Inventory :=
  let node := node_of item in
  match items_by_source inv !! node with
  | Some its =>
      mkInventory items' (<[node := <[it_oid item := item]> its]> (items_by_source inv))
        (sources inv)
  | None =>
      mkInventory items' (<[node := {[ it_oid item := item ]}]> (items_by_source inv))
        match it_source item with
        | Some s => <[src_node s := s]> (sources inv)
        | None => sources inv
        end
  end.

Lemma appended_items item im inv : items (appended item im inv) = im.
Proof. unfold appended. by destruct (items_by_source inv !! _). Qed.

Lemma append_item_run s m item replace :
  inv_repr (inventory s) m -> replace = true \/ m !! it_oid item = None ->
  exists items', refines it_oid items' (<[it_oid item := item]> m) /\
    append_item item replace s = (Ok item, mkInv (store s) (appended item items' (inventory s))).
Proof.
  intros [Hi _ _ _] Hg. destruct (map_append_ok _ _ _ item replace Hi Hg) as (im' & E & Hr).
  exists im'. split; [done|]. unfold append_item, put_inventory, appended. unfold_m.
  rewrite E. simpl. by destruct (items_by_source _ !! _), (it_source item).
Qed.

Lemma appended_groups inv m item items' src :
  inv_repr inv m ->
  items_by_source (appended item items' inv) !! src =
    if decide (node_of item = src) then Some (<[it_oid item := item]> (by_source m src))
    else items_by_source inv !! src.
Proof.
  intros [_ Hg _ _]. unfold appended. rewrite (Hg (node_of item)).
  destruct (nonempty _) as [g|] eqn:E; simpl; rewrite lookup_insert; case_decide; subst; try done.
  - by apply nonempty_Some in E as [-> _].
  - apply nonempty_None in E. by rewrite E.
Qed.

Lemma appended_sources inv m item items' n :
  inv_repr inv m ->
  (is_Some (sources (appended item items' inv) !! n) <->
    node_of item = Some n \/ is_Some (sources inv !! n)) /\
  (forall s, sources (appended item items' inv) !! n = Some s ->
    (it_source item = Some s /\ src_node s = n) \/ sources inv !! n = Some s).
Proof.
  intros [_ Hg Hs Hn]. unfold appended. rewrite (Hg (node_of item)).
  destruct (nonempty _) as [g|] eqn:E; simpl.
  - split; [|auto]. split; [auto|]. intros [E' |]; [|done].
    apply Hs. rewrite <-E', E. by eexists.
  - unfold node_of in *. destruct (it_source item) as [s|]; simpl in *; [|naive_solver].
    rewrite lookup_insert. split; [|intros s'; case_decide; naive_solver].
    case_decide; naive_solver.
Qed.

Lemma appended_repr inv m item items' :
  inv_repr inv m -> same_node m item ->
  refines it_oid items' (<[it_oid item := item]> m) ->
  inv_repr (appended item items' inv) (<[it_oid item := item]> m).
Proof.
  intros Hr Hsame Hi.
  assert (forall src, nonempty (by_source (<[it_oid item := item]> m) src) =
    if decide (node_of item = src) then Some (<[it_oid item := item]> (by_source m src))
    else nonempty (by_source m src)) as Hb.
  { intros src. case_decide as Hd; [subst; by rewrite by_source_insert, nonempty_insert|].
    rewrite by_source_insert_ne; [done..|]. intros old Ho. by rewrite (Hsame _ Ho). }
  split.
  - by rewrite appended_items.
  - intros src. rewrite (appended_groups _ m) by done. rewrite Hb.
    case_decide; [done|]. apply Hr.
  - intros n. destruct (appended_sources _ _ item items' n Hr) as [-> _].
    rewrite Hb, (repr_sources _ _ Hr). case_decide; naive_solver.
  - intros n s' Hs'. destruct (appended_sources _ _ item items' n Hr) as [_ Hn].
    destruct (Hn _ Hs') as [[] |]; [done|]. by eapply repr_nodes.
Qed.

Lemma append_item_repr s m item replace :
  inv_repr (inventory s) m -> same_node m item ->
  replace = true \/ m !! it_oid item = None ->
  exists inv', append_item item replace s = (Ok item, mkInv (store s) inv') /\
    inv_repr inv' (<[it_oid item := item]> m).
Proof.
  intros Hr Hs Hg. destruct (append_item_run _ _ _ _ Hr Hg) as (im' & Hi & ->).
  eexists. split; [done|]. by apply appended_repr.
Qed.

Lemma append_item_dup s m item :
  inv_repr (inventory s) m -> is_Some (m !! it_oid item) ->
  append_item item false s = (Err EDuplicate, s).
Proof.
  intros [Hi _ _ _] Hm. unfold append_item, put_inventory. unfold_m.
  rewrite (map_append_dup _ _ _ _ Hi Hm). by destruct s as [? []].
Qed.

Lemma remove_item_repr s m o :
  inv_repr (inventory s) m ->
  exists inv', remove_item o s = (Ok (m !! o), mkInv (store s) inv') /\
    inv_repr inv' (delete o m).
Proof.
  intros [Hi Hg Hs Hn]. destruct (map_remove_refines _ _ _ o Hi) as (im' & E & Hi').
  unfold remove_item, put_inventory. unfold_m. rewrite E.
  destruct (m !! o) as [item|] eqn:Ho; simpl.
  - assert (it_oid item = o) as Ho' by (by apply Hi). subst o.
    assert (by_source m (node_of item) !! it_oid item = Some item) as Hb
      by by apply lookup_by_source.
    assert (nonempty (by_source m (node_of item)) = Some (by_source m (node_of item))) as Hb'.
    { apply nonempty_Some. split; [done|]. intros E'. by rewrite E', lookup_empty in Hb. }
    assert (forall src, nonempty (by_source (delete (it_oid item) m) src) =
      if decide (node_of item = src) then nonempty (delete (it_oid item) (by_source m src))
      else nonempty (by_source m src)) as Hd.
    { intros src. case_decide as Hd; [by rewrite by_source_delete|].
      by rewrite (by_source_delete_ne _ _ _ _ Ho Hd). }
    eexists. split; [done|]. rewrite (Hg (node_of item)), Hb'.
    unfold nonempty in Hd at 2.
    destruct (size (delete (it_oid item) (by_source m (node_of item))) =? 0)%nat eqn:Ez.
    + split; simpl; [done| | |].
      * intros src. rewrite lookup_delete, Hd, Hg.
        case_decide; [subst; by rewrite Ez|done].
      * intros n. rewrite Hd. case_decide as Hd'.
        { subst. rewrite <-Hd', Ez, Hd', lookup_delete, decide_True by done. done. }
        rewrite <-Hs. destruct (node_of item); [|done].
        rewrite lookup_delete_ne; [done|congruence].
      * intros n s'. destruct (node_of item) as [n'|]; [|apply Hn].
        rewrite lookup_delete. case_decide; [done|apply Hn].
    + split; simpl; [done| | |done].
      * intros src. rewrite lookup_insert, Hd, Hg. case_decide; [subst; by rewrite Ez|done].
      * intros n. rewrite Hd, Hs. case_decide as Hd'; [|done].
        rewrite <-Hd', Ez, Hb'. split; by eexists.
  - eexists. split; [done|]. rewrite delete_id by done. rewrite delete_id in Hi' by done.
    by split.
Qed.

(** ** The invariant of the cells

    Everything an item refers to is allocated, and no two items share a
    state, so that a write to the state of one item is not seen by another. *)

Record item_ok (σ : Store) (i : Item) : Prop := {
  item_state_alloc l : it_state i = Some l -> is_Some (s_state σ !! l);
  item_enabled_alloc : is_Some (s_flag σ !! it_enabled i);
  item_source_alloc s : it_source i = Some s -> is_Some (s_source σ !! src_data s);
  item_stateless : it_state i = None -> oid_kind (it_oid i) = Lmacro
}.

Record store_ok (σ : Store) m : Prop := {
  fresh_state l : (s_next σ <= l)%positive -> s_state σ !! l = None;
  fresh_flag l : (s_next σ <= l)%positive -> s_flag σ !! l = None;
  fresh_source l : (s_next σ <= l)%positive -> s_source σ !! l = None;
  items_alloc o i : m !! o = Some i -> item_ok σ i;
  state_sep o1 o2 i1 i2 l :
    m !! o1 = Some i1 -> m !! o2 = Some i2 ->
    it_state i1 = Some l -> it_state i2 = Some l -> o1 = o2
}.

Record inv_ok (s : Inv) m : Prop := {
  ok_repr : inv_repr (inventory s) m;
  ok_store : store_ok (store s) m;
  ok_sources n src :
    sources (inventory s) !! n = Some src -> is_Some (s_source (store s) !! src_data src)
}.

(** The cells of [σ] are still there in [σ']. *)
Record store_le (σ σ' : Store) : Prop := {
  le_state l : is_Some (s_state σ !! l) -> is_Some (s_state σ' !! l);
  le_flag l : is_Some (s_flag σ !! l) -> is_Some (s_flag σ' !! l);
  le_source l : is_Some (s_source σ !! l) -> is_Some (s_source σ' !! l)
}.

#[global] Instance store_le_preorder : PreOrder store_le.
Proof.
  split; [by intros σ; split|]. intros x y z [] []. split; auto.
Qed.

Lemma item_ok_le σ σ' i : store_le σ σ' -> item_ok σ i -> item_ok σ' i.
Proof. intros [Hs Hf Hd] []. split; eauto. Qed.

(** A state cell that no item of [m] uses. *)
Definition unused m (l : loc) : Prop :=
  forall o i, m !! o = Some i -> it_state i ≠ Some l.

(** The cells below the next one. *)
Definition bounded {A} (g : gmap loc A) (n : loc) : Prop :=
  forall l, (n <= l)%positive -> g !! l = None.

Lemma bounded_insert {A} (g : gmap loc A) n x :
  bounded g n -> bounded (<[n := x]> g) (Pos.succ n).
Proof. intros Hg l Hl. rewrite lookup_insert_ne by lia. apply Hg. lia. Qed.
Lemma bounded_succ {A} (g : gmap loc A) n : bounded g n -> bounded g (Pos.succ n).
Proof. intros Hg l Hl. apply Hg. lia. Qed.
Lemma bounded_alter {A} (g : gmap loc A) n f l : bounded g n -> bounded (alter f l g) n.
Proof. intros Hg l' Hl. apply lookup_alter_None. by apply Hg. Qed.
Lemma is_Some_insert {A} (g : gmap loc A) k x l : is_Some (g !! l) -> is_Some (<[k := x]> g !! l).
Proof. intros ?. rewrite lookup_insert. by case_decide. Qed.
Lemma is_Some_alter {A} (g : gmap loc A) f k l : is_Some (g !! l) -> is_Some (alter f k g !! l).
Proof. by rewrite lookup_alter_is_Some. Qed.

#[local] Hint Resolve bounded_insert bounded_succ bounded_alter is_Some_insert is_Some_alter
  : core.

Lemma new_state_ok σ m st :
  store_ok σ m ->
  store_ok (new_state st σ).2 m /\ store_le σ (new_state st σ).2 /\
  s_state (new_state st σ).2 !! (new_state st σ).1 = Some st /\
  unused m (new_state st σ).1.
Proof.
  intros [Fs Ff Fd Ha Hp].
  assert (store_le σ (new_state st σ).2) as Hle by (split; simpl; auto).
  split_and!; [|done|by apply lookup_insert_eq|].
  - split; simpl; [by apply bounded_insert|by apply bounded_succ|by apply bounded_succ| |done].
    intros o i ?%Ha. by eapply item_ok_le.
  - intros o i Ho Hl. apply (item_state_alloc _ _ (Ha _ _ Ho)) in Hl.
    unfold new_state in Hl. simpl in Hl. rewrite Fs in Hl by lia. by destruct Hl.
Qed.

Lemma new_flag_ok σ m b :
  store_ok σ m ->
  store_ok (new_flag b σ).2 m /\ store_le σ (new_flag b σ).2 /\
  s_flag (new_flag b σ).2 !! (new_flag b σ).1 = Some b.
Proof.
  intros [Fs Ff Fd Ha Hp].
  assert (store_le σ (new_flag b σ).2) as Hle by (split; simpl; auto).
  split_and!; [|done|by apply lookup_insert_eq].
  split; simpl; [by apply bounded_succ|by apply bounded_insert|by apply bounded_succ| |done].
  intros o i ?%Ha. by eapply item_ok_le.
Qed.

Lemma new_source_data_ok σ m :
  store_ok σ m ->
  store_ok (new_source_data σ).2 m /\ store_le σ (new_source_data σ).2 /\
  s_source (new_source_data σ).2 !! (new_source_data σ).1 = Some (mkFlags true false).
Proof.
  intros [Fs Ff Fd Ha Hp].
  assert (store_le σ (new_source_data σ).2) as Hle by (split; simpl; auto).
  split_and!; [|done|by apply lookup_insert_eq].
  split; simpl; [by apply bounded_succ|by apply bounded_succ|by apply bounded_insert| |done].
  intros o i ?%Ha. by eapply item_ok_le.
Qed.

Lemma new_flag_state b σ l σ' : new_flag b σ = (l, σ') -> read_state σ' = read_state σ.
Proof. unfold new_flag. by intros [= <- <-]. Qed.

Lemma inv_ok_new : inv_ok (mkInv store_empty inventory_new) ∅.
Proof.
  split; simpl; [apply inv_repr_new| |by intros ??; rewrite lookup_empty..].
  split; simpl; intros *; by rewrite ?lookup_empty.
Qed.

(** The cells may grow while the indexes stay. *)
Lemma inv_ok_le s m σ :
  inv_ok s m -> store_ok σ m -> store_le (store s) σ ->
  inv_ok (mkInv σ (inventory s)) m.
Proof. intros [Hr _ Ho] Hσ [_ _ Hf]. split; simpl; eauto. Qed.

(** Writes keep the cells that there are. *)
Lemma write_state_le l st σ : store_le σ (write_state l st σ).
Proof. split; simpl; auto. Qed.
Lemma write_flag_le l b σ : store_le σ (write_flag l b σ).
Proof. split; simpl; auto. Qed.
Lemma update_source_le l f σ : store_le σ (update_source l f σ).
Proof. split; simpl; auto. Qed.

Lemma inv_ok_write s m σ :
  inv_ok s m -> store_le (store s) σ -> bounded (s_state σ) (s_next σ) ->
  bounded (s_flag σ) (s_next σ) -> bounded (s_source σ) (s_next σ) ->
  inv_ok (mkInv σ (inventory s)) m.
Proof.
  intros Hok Hle ???. apply inv_ok_le; [done| |done]. destruct Hok as [_ [Fs Ff Fd Ha Hp] _].
  split; [done..| |done]. intros o i ?%Ha. by eapply item_ok_le.
Qed.

Lemma inv_ok_write_state s m l st :
  inv_ok s m -> inv_ok (mkInv (write_state l st (store s)) (inventory s)) m.
Proof.
  intros Hok. destruct (ok_store _ _ Hok) as [Fs Ff Fd _ _].
  apply inv_ok_write; [done|apply write_state_le|by apply bounded_alter|done|done].
Qed.
Lemma inv_ok_write_flag s m l b :
  inv_ok s m -> inv_ok (mkInv (write_flag l b (store s)) (inventory s)) m.
Proof.
  intros Hok. destruct (ok_store _ _ Hok) as [Fs Ff Fd _ _].
  apply inv_ok_write; [done|apply write_flag_le|done|by apply bounded_alter|done].
Qed.
Lemma inv_ok_update_source s m l f :
  inv_ok s m -> inv_ok (mkInv (update_source l f (store s)) (inventory s)) m.
Proof.
  intros Hok. destruct (ok_store _ _ Hok) as [Fs Ff Fd _ _].
  apply inv_ok_write; [done|apply update_source_le|done|done|by apply bounded_alter].
Qed.

Lemma read_state_Some σ l st : s_state σ !! l = Some st -> read_state σ l = st.
Proof. unfold read_state. by intros ->. Qed.

Lemma read_write_state σ l st l' :
  is_Some (s_state σ !! l) ->
  read_state (write_state l st σ) l' = if decide (l = l') then st else read_state σ l'.
Proof.
  intros [old Hl]. unfold read_state, write_state. simpl. case_decide.
  - subst. by rewrite lookup_alter_eq, Hl.
  - by rewrite lookup_alter_ne.
Qed.

(** An item whose state cell is new is registered in all indexes. *)
Lemma append_item_ok s m item replace :
  inv_ok s m -> item_ok (store s) item ->
  (forall l, it_state item = Some l -> unused m l) ->
  same_node m item -> replace = true \/ m !! it_oid item = None ->
  exists s', append_item item replace s = (Ok item, s') /\ store s' = store s /\
    inv_ok s' (<[it_oid item := item]> m).
Proof.
  intros [Hr [Fs Ff Fd Ha Hp] Ho] Hi Hu Hs Hg.
  destruct (append_item_run _ _ _ _ Hr Hg) as (im' & Hi' & ->).
  eexists; split_and!; [done..|].
  assert (forall n src, sources (appended item im' (inventory s)) !! n = Some src ->
    it_source item = Some src \/ sources (inventory s) !! n = Some src) as Hsrc.
  { intros n src Hsrc.
    destruct (appended_sources _ _ item im' n Hr) as [_ Hn]. naive_solver. }
  split; simpl.
  - by apply appended_repr.
  - split; [done|done|done| |].
    + intros o i. rewrite lookup_insert. case_decide; [naive_solver|apply Ha].
    + intros o1 o2 i1 i2 l. rewrite !lookup_insert.
      repeat case_decide; subst; intros ????; simplify_eq; [done| | |by eapply Hp].
      * by edestruct Hu.
      * by edestruct Hu.
  - intros n src [? |?]%Hsrc; [by apply Hi|by eapply Ho].
Qed.

Lemma remove_item_ok s m o :
  inv_ok s m ->
  exists s', remove_item o s = (Ok (m !! o), s') /\ store s' = store s /\
    inv_ok s' (delete o m).
Proof.
  intros [Hr [Fs Ff Fd Ha Hp] Ho].
  destruct (remove_item_repr _ _ o Hr) as (inv' & E & Hr').
  eexists; split_and!; [done..|].
  assert (forall n src, sources inv' !! n = Some src ->
    sources (inventory s) !! n = Some src) as Hsrc.
  { revert E. unfold remove_item, put_inventory. unfold_m.
    split_matches; intros; simplify_eq/=; eauto;
      by match goal with H : delete _ _ !! _ = Some _ |- _ => apply lookup_delete_Some in H as [] end. }
  split; simpl; [done| |eauto]. split; [done|done|done| |].
  - intros o' i [_ ?]%lookup_delete_Some. eauto.
  - intros o1 o2 i1 i2 l [_ ?]%lookup_delete_Some [_ ?]%lookup_delete_Some. eauto.
Qed.

(** ** The operations keep the invariant *)

#[local] Opaque new_state new_flag new_source_data.

Definition source_alloc (σ : Store) (src : Source) : Prop :=
  is_Some (s_source σ !! src_data src).

Lemma get_or_create_source_ok s m id svc :
  inv_ok s m ->
  exists src σ, get_or_create_source id svc s = (Ok src, mkInv σ (inventory s)) /\
    inv_ok (mkInv σ (inventory s)) m /\ store_le (store s) σ /\
    src_node src = id /\ source_alloc σ src.
Proof.
  intros Hok. unfold get_or_create_source, create_source, on_store. unfold_m. simpl.
  destruct (sources _ !! id) as [src|] eqn:E.
  - exists src, (store s). pose proof (repr_nodes _ _ (ok_repr _ _ Hok) _ _ E).
    split_and!; [by destruct s|by destruct s|done|done|]. by eapply ok_sources.
  - destruct (new_source_data_ok _ _ (ok_store _ _ Hok)) as (H1 & L1 & F1).
    destruct (new_source_data (store s)) as [l1 σ1]; simpl in *.
    exists (mkSource id l1 svc), σ1. split_and!; [done|by apply inv_ok_le|done|done|by eexists].
Qed.

(** A source that is new, or registered and not destroyed. *)
Lemma get_or_create_source_live s m id svc :
  inv_ok s m ->
  (forall src, sources (inventory s) !! id = Some src -> src_is_destroyed (store s) src = false) ->
  exists src σ, get_or_create_source id svc s = (Ok src, mkInv σ (inventory s)) /\
    inv_ok (mkInv σ (inventory s)) m /\ src_node src = id /\
    exists f, s_source σ !! src_data src = Some f /\ sf_destroyed f = false.
Proof.
  intros Hok Hlive. unfold get_or_create_source, create_source, on_store. unfold_m. simpl.
  destruct (sources _ !! id) as [src|] eqn:E.
  - exists src, (store s). pose proof (repr_nodes _ _ (ok_repr _ _ Hok) _ _ E).
    split_and!; [by destruct s|by destruct s|done|].
    destruct (ok_sources _ _ Hok _ _ E) as [f Hf]. exists f. split; [done|].
    specialize (Hlive _ eq_refl). unfold src_is_destroyed, read_source in Hlive.
    by rewrite Hf in Hlive.
  - destruct (new_source_data_ok _ _ (ok_store _ _ Hok)) as (H1 & L1 & F1).
    destruct (new_source_data (store s)) as [l1 σ1]; simpl in *.
    exists (mkSource id l1 svc), σ1. split_and!; [done|by apply inv_ok_le|done|by eexists].
Qed.

(** The cells [add_item] allocates before it registers the item. *)
Lemma add_item_alloc s m oid st meta source enabled logic action replace :
  inv_ok s m -> (st = None -> oid_kind oid = Lmacro) ->
  (forall src, source = Some src -> source_alloc (store s) src) ->
  exists l en s1, let item := mkItem oid l meta source en logic action in
    add_item oid st meta source enabled logic action replace s = append_item item replace s1 /\
    inv_ok s1 m /\ inventory s1 = inventory s /\ item_ok (store s1) item /\
    (forall l', l = Some l' -> unused m l') /\ read_state (store s1) <$> l = st.
Proof.
  intros Hok Hst Hsrc. unfold add_item.
  assert (exists l s1, match st with
    | Some st => l ← on_store (new_state st); mret (Some l) | None => mret None
    end s = (Ok l, s1) /\ inv_ok s1 m /\ inventory s1 = inventory s /\
    store_le (store s) (store s1) /\
    (forall l', l = Some l' -> unused m l' /\ is_Some (s_state (store s1) !! l')) /\
    read_state (store s1) <$> l = st) as (l & s1 & E & Hok1 & Ei & L1 & Hl & Hr).
  { destruct st as [st|];
      [|exists None, s; split_and!; by try done; naive_solver].
    destruct (new_state_ok _ _ st (ok_store _ _ Hok)) as (H1 & L1 & E1 & U1).
    unfold on_store. unfold_m. destruct (new_state st (store s)) as [l σ]; simpl in *.
    eexists _, _. split_and!; [done|by apply inv_ok_le|done|done|..].
    - intros ? [= <-]. split; [done|by eexists].
    - unfold read_state. simpl. by rewrite E1. }
  destruct (new_flag_ok _ _ enabled (ok_store _ _ Hok1)) as (H2 & L2 & E2).
  unfold mbind at 1, M_bind at 1. rewrite E. unfold on_store. unfold_m.
  destruct (new_flag enabled (store s1)) as [en σ] eqn:En; simpl in *.
  exists l, en, (mkInv σ (inventory s1)).
  split_and!; [done|by apply inv_ok_le|done| |by intros; apply Hl|].
  - split; simpl; intros; simplify_eq; [|by eexists| |auto].
    + apply (le_state _ _ L2). by apply Hl.
    + by apply (le_source _ _ L2), (le_source _ _ L1), Hsrc.
  - simpl. by rewrite (new_flag_state _ _ _ _ En).
Qed.

Lemma add_item_ok s m oid st meta source enabled logic action replace :
  inv_ok s m -> (st = None -> oid_kind oid = Lmacro) ->
  (forall src, source = Some src -> source_alloc (store s) src) ->
  (forall old, m !! oid = Some old -> node_of old = src_node <$> source) ->
  replace = true \/ m !! oid = None ->
  exists item s', add_item oid st meta source enabled logic action replace s = (Ok item, s') /\
    inv_ok s' (<[oid := item]> m) /\ it_oid item = oid /\ it_source item = source /\
    read_state (store s') <$> it_state item = st.
Proof.
  intros Hok Hst Hsrc Hold Hg.
  destruct (add_item_alloc s m oid st meta source enabled logic action replace Hok Hst Hsrc)
    as (l & en & s1 & -> & Hok1 & _ & Hi & Hu & Hr).
  destruct (append_item_ok _ _ _ replace Hok1 Hi) as (s' & -> & Es & Hok'); [done..|].
  eexists _, s'. split_and!; [done..|]. by rewrite Es.
Qed.

Lemma add_item_dup s m oid st meta source enabled logic action :
  inv_ok s m -> (st = None -> oid_kind oid = Lmacro) ->
  (forall src, source = Some src -> source_alloc (store s) src) ->
  is_Some (m !! oid) ->
  exists s', add_item oid st meta source enabled logic action false s = (Err EDuplicate, s') /\
    inv_ok s' m /\ inventory s' = inventory s.
Proof.
  intros Hok Hst Hsrc Hd.
  destruct (add_item_alloc s m oid st meta source enabled logic action false Hok Hst Hsrc)
    as (l & en & s1 & -> & Hok1 & Ei & _).
  rewrite (append_item_dup _ m); [eauto|apply Hok1|done].
Qed.

(** ** Sequences of operations *)

(** The operations the node core applies to the inventory. *)
Inductive inv_op :=
  | OpCreate (oid : OID) (ieid : option IEID) (from : option (string * string)) (now : f64)
  | OpDeploy (cf : ItemConfigData) (boot_id : Z) (now : f64) (ns : Z)
  | OpLoad (oid : OID) (config : EResult ItemParsed) (state : option ItemState)
      (boot_id : Z) (now : f64) (ns : Z)
  | OpRemote (i : ReplicationInventoryItem) (source_id svc : string)
  | OpRemove (oid : OID).

Definition inv_exec (op : inv_op) : IM (option Item) :=
  match op with
  | OpCreate oid ieid from now => Some <$> create_item oid ieid from now
  | OpDeploy cf boot_id now ns => Some <$> append_item_from_config_data cf boot_id now ns
  | OpLoad oid config state boot_id now ns =>
      Some <$> append_item_from_value oid config state boot_id now ns
  | OpRemote i source_id svc =>
      src ← get_or_create_source source_id svc; Some <$> append_remote_item i src
  | OpRemove oid => remove_item oid
  end.

Definition op_oid (op : inv_op) : OID :=
  match op with
  | OpCreate oid _ _ _ | OpLoad oid _ _ _ _ _ | OpRemove oid => oid
  | OpDeploy cf _ _ _ => cf_oid cf
  | OpRemote i _ _ => ri_oid i
  end.

(** The operation does not replace an item of another node. *)
Definition no_clash (op : inv_op) m : Prop :=
  match op with
  | OpDeploy _ _ _ _ | OpLoad _ _ _ _ _ _ =>
      forall old, m !! op_oid op = Some old -> node_of old = None
  | OpRemote _ source_id _ =>
      forall old, m !! op_oid op = Some old -> node_of old = Some source_id
  | OpCreate _ _ _ _ | OpRemove _ => True
  end.

(** What an operation that returned [r] did to the map of the items. *)
Definition op_effect (op : inv_op) (r : EResult (option Item)) m : gmap OID Item :=
  match r with
  | Ok (Some i) =>
      match op with OpRemove oid => delete oid m | _ => <[op_oid op := i]> m end
  | _ => m
  end.

Definition step_ok (op : inv_op) s m : Prop :=
  inv_ok (inv_exec op s).2 (op_effect op (inv_exec op s).1 m).

Lemma step_create s m oid ieid from now :
  inv_ok s m -> step_ok (OpCreate oid ieid from now) s m.
Proof.
  intros Hok. unfold step_ok, inv_exec. rewrite run_fmap. unfold create_item.
  rewrite run_bind.
  assert (exists src s1, match from with
    | Some (source_id, svc) => src ← get_or_create_source source_id svc; mret (Some src)
    | None => mret None
    end s = (Ok src, s1) /\ inv_ok s1 m /\
    (forall src', src = Some src' -> source_alloc (store s1) src')) as (src & s1 & E & Hok1 & Ha).
  { destruct from as [[id svc]|]; [|exists None, s; naive_solver].
    destruct (get_or_create_source_ok s m id svc Hok) as (src & σ & E & Hok1 & _ & _ & Ha).
    exists (Some src), (mkInv σ (inventory s)). rewrite run_bind, E. naive_solver. }
  rewrite E, run_bind.
  destruct (decide (oid_kind oid = Lmacro)) as [Hk|Hk];
    [|destruct ieid as [ieid|]; [|by unfold_m]]; unfold_m; simpl;
    destruct (m !! oid) as [old|] eqn:Ho.
  1, 3: edestruct (add_item_dup s1 m oid) as (s' & -> & Hok' & _); eauto; done.
  all: edestruct (add_item_ok s1 m oid) as (item & s' & -> & Hok' & _);
    [done|try done| |by rewrite Ho|by right|]; eauto.
Qed.

Lemma step_deploy s m cf boot_id now ns :
  inv_ok s m -> no_clash (OpDeploy cf boot_id now ns) m ->
  step_ok (OpDeploy cf boot_id now ns) s m.
Proof.
  intros Hok Hc. unfold step_ok, inv_exec. rewrite run_fmap.
  unfold append_item_from_config_data, get_or_generate_state. rewrite run_bind.
  unfold lift. destruct (check_item_data _ _ _); [|done]. rewrite run_bind.
  destruct (decide (oid_kind (cf_oid cf) = Lmacro)) as [Hk|Hk]; unfold_m; simpl;
    (edestruct (add_item_ok s m (cf_oid cf)) as (item & s' & -> & Hok' & _);
      [done|try done|done|exact Hc|by left|]); done.
Qed.

(** The same, with what is known of the new item. *)
Lemma append_config_ok s m cf boot_id now ns :
  inv_ok s m -> no_clash (OpDeploy cf boot_id now ns) m ->
  exists m', inv_ok (append_item_from_config_data cf boot_id now ns s).2 m' /\
    forall o i, m' !! o = Some i -> m !! o = Some i \/ (o = cf_oid cf /\ it_source i = None).
Proof.
  intros Hok Hc. unfold append_item_from_config_data, get_or_generate_state. rewrite run_bind.
  unfold lift. destruct (check_item_data _ _ _); [|by eauto]. rewrite run_bind.
  destruct (decide (oid_kind (cf_oid cf) = Lmacro)) as [Hk|Hk]; unfold_m; simpl;
    (edestruct (add_item_ok s m (cf_oid cf)) as (item & s' & -> & Hok' & _ & Hs & _);
      [done|try done|done|exact Hc|by left|]);
    eexists; (split; [exact Hok'|]); intros o i; rewrite lookup_insert; case_decide; naive_solver.
Qed.

Lemma append_remote_ok s m i source :
  inv_ok s m -> source_alloc (store s) source ->
  (forall old, m !! ri_oid i = Some old -> node_of old = Some (src_node source)) ->
  exists m', inv_ok (append_remote_item i source s).2 m' /\
    forall o x, m' !! o = Some x -> m !! o = Some x \/ (o = ri_oid i /\ it_source x = Some source).
Proof.
  intros Hok Ha Hc. unfold append_remote_item. rewrite run_bind. unfold lift.
  destruct (from_repl_item i) as [st|] eqn:E; [|by eauto].
  edestruct (add_item_ok s m (ri_oid i)) as (item & s' & -> & Hok' & _ & Hs & _);
    [done| | |exact Hc|by left|].
  - intros ->. unfold from_repl_item in E. case_decide; [done|].
    by destruct (ri_ieid i), (ri_t i).
  - by intros ? [= <-].
  - eexists; split; [exact Hok'|]. intros o x. rewrite lookup_insert. case_decide; naive_solver.
Qed.

Lemma step_load s m oid config state boot_id now ns :
  inv_ok s m -> no_clash (OpLoad oid config state boot_id now ns) m ->
  step_ok (OpLoad oid config state boot_id now ns) s m.
Proof.
  intros Hok Hc. unfold step_ok, inv_exec. rewrite run_fmap.
  unfold append_item_from_value. rewrite run_bind. unfold lift.
  destruct config as [data|]; [|done]. case_decide as Hd; [|done]. rewrite run_bind.
  destruct (check_item_data _ _ _); [|done]. subst oid.
  edestruct (add_item_ok s m (ip_oid data)) as (item & s' & -> & Hok' & _);
    [done| |done|exact Hc|by left|done].
  by destruct state, (ip_state data); try done; case_decide.
Qed.

Lemma step_remote s m i source_id svc :
  inv_ok s m -> no_clash (OpRemote i source_id svc) m ->
  step_ok (OpRemote i source_id svc) s m.
Proof.
  intros Hok Hc. unfold step_ok, inv_exec. rewrite run_bind.
  destruct (get_or_create_source_ok s m source_id svc Hok)
    as (src & σ & -> & Hok1 & _ & Hn & Ha).
  rewrite run_fmap. unfold append_remote_item. rewrite run_bind. unfold lift.
  destruct (from_repl_item i) as [st|] eqn:E; [|done].
  edestruct (add_item_ok (mkInv σ (inventory s)) m (ri_oid i))
    as (item & s' & -> & Hok' & _); [done| | | |by left|done].
  - intros ->. unfold from_repl_item in E. case_decide; [done|].
    by destruct (ri_ieid i), (ri_t i).
  - by intros ? [= <-].
  - simpl. rewrite Hn. exact Hc.
Qed.

Lemma step_remove s m oid : inv_ok s m -> step_ok (OpRemove oid) s m.
Proof.
  intros Hok. unfold step_ok. simpl.
  destruct (remove_item_ok s m oid Hok) as (s' & -> & _ & Hok'). simpl.
  destruct (m !! oid) eqn:E; [done|]. by rewrite delete_id in Hok'.
Qed.

Lemma inv_exec_ok op s m : inv_ok s m -> no_clash op m -> step_ok op s m.
Proof.
  destruct op; eauto using step_create, step_deploy, step_load, step_remote, step_remove.
Qed.

(** The states reached from an empty inventory, with the map of the items. *)
Inductive reached : Inv -> gmap OID Item -> Prop :=
  | reached_new : reached (mkInv store_empty inventory_new) ∅
  | reached_step op s m :
      reached s m -> no_clash op m ->
      reached (inv_exec op s).2 (op_effect op (inv_exec op s).1 m).

Lemma reached_ok s m : reached s m -> inv_ok s m.
Proof.
  induction 1 as [|op s m _ IH Hc]; [apply inv_ok_new|]. by apply inv_exec_ok.
Qed.

(** *** The cells that exist stay as they are *)

Definition fresh_ok (σ : Store) : Prop :=
  bounded (s_state σ) (s_next σ) /\ bounded (s_source σ) (s_next σ).

(** The operations of the inventory add cells and change none. *)
Record grows (s s' : Inv) : Prop := {
  grows_fresh : fresh_ok (store s) -> fresh_ok (store s');
  grows_cells l st :
    fresh_ok (store s) -> s_state (store s) !! l = Some st -> s_state (store s') !! l = Some st;
  grows_sources l f :
    fresh_ok (store s) -> s_source (store s) !! l = Some f -> s_source (store s') !! l = Some f
}.

#[global] Instance grows_preorder : PreOrder grows.
Proof.
  split; [by intros s; split|]. intros x y z [] []. split; eauto.
Qed.

Lemma bounded_insert_old {A} (g : gmap loc A) n x l y :
  bounded g n -> g !! l = Some y -> <[n := x]> g !! l = Some y.
Proof.
  intros Hg Hl. rewrite lookup_insert_ne; [done|]. intros E. rewrite Hg in Hl by lia. done.
Qed.

Lemma new_state_grows st : keeps grows (on_store (new_state st)).
Proof.
  intros s. unfold on_store. Transparent new_state. unfold new_state. split; simpl.
  - intros [? ?]. split; simpl; auto.
  - intros l st' [? _]. by apply bounded_insert_old.
  - done.
Qed.
Lemma new_flag_grows b : keeps grows (on_store (new_flag b)).
Proof.
  intros s. unfold on_store. Transparent new_flag. unfold new_flag. split; simpl; [|done|done].
  intros [? ?]. split; simpl; auto.
Qed.
Lemma new_source_data_grows : keeps grows (on_store new_source_data).
Proof.
  intros s. unfold on_store. Transparent new_source_data. unfold new_source_data. split; simpl.
  - intros [? ?]. split; simpl; auto.
  - done.
  - intros l f [_ ?]. by apply bounded_insert_old.
Qed.
Lemma put_inventory_grows i : keeps grows (put_inventory i).
Proof. intros s. by split. Qed.

#[local] Hint Resolve new_state_grows new_flag_grows new_source_data_grows
  put_inventory_grows : keeps.

Lemma append_item_grows item replace : keeps grows (append_item item replace).
Proof. unfold append_item. frame. Qed.
Lemma remove_item_grows oid : keeps grows (remove_item oid).
Proof. unfold remove_item. frame. Qed.
#[local] Hint Resolve append_item_grows remove_item_grows : keeps.

Lemma add_item_grows oid st meta source enabled logic action replace :
  keeps grows (add_item oid st meta source enabled logic action replace).
Proof. unfold add_item. frame. Qed.
Lemma get_or_create_source_grows id svc : keeps grows (get_or_create_source id svc).
Proof. unfold get_or_create_source, create_source. frame. Qed.
Lemma get_or_generate_state_grows oid boot_id now ns :
  keeps grows (get_or_generate_state oid boot_id now ns).
Proof. unfold get_or_generate_state. frame. Qed.
#[local] Hint Resolve add_item_grows get_or_create_source_grows
  get_or_generate_state_grows : keeps.

Lemma create_item_grows oid ieid from now : keeps grows (create_item oid ieid from now).
Proof. unfold create_item. frame. Qed.
Lemma append_config_grows cf boot_id now ns :
  keeps grows (append_item_from_config_data cf boot_id now ns).
Proof. unfold append_item_from_config_data. frame. Qed.
Lemma append_value_grows oid config state boot_id now ns :
  keeps grows (append_item_from_value oid config state boot_id now ns).
Proof. unfold append_item_from_value. frame. Qed.
Lemma append_remote_grows i source : keeps grows (append_remote_item i source).
Proof. unfold append_remote_item. frame. Qed.
#[local] Opaque new_state new_flag new_source_data.

(** ** Properties *)

Lemma list_local_items_elem inv m i :
  inv_repr inv m -> i ∈ list_local_items inv <-> m !! it_oid i = Some i /\ it_source i = None.
Proof.
  intros [Hi Hg _ _]. unfold list_local_items. rewrite Hg.
  assert (node_of i = None <-> it_source i = None) as <-.
  { unfold node_of. by destruct (it_source i). }
  rewrite <-lookup_by_source. destruct (nonempty _) as [g|] eqn:E.
  - apply nonempty_Some in E as [-> _]. rewrite list_elem_of_fmap. split.
    + intros ([o j] & -> & Ho%elem_of_map_to_list). simpl.
      assert (it_oid j = o) as -> by (apply lookup_by_source in Ho as []; by eapply Hi). done.
    + intros Ho. exists (it_oid i, i). split; [done|]. by apply elem_of_map_to_list.
  - apply nonempty_None in E. rewrite E, lookup_empty.
    split; [by intros ?%not_elem_of_nil|done].
Qed.

Definition total (g : gmap (option string) (gmap OID Item)) : nat :=
  map_fold (fun _ its n => n + size its) 0 g.

Lemma total_insert g k its :
  g !! k = None -> total (<[k := its]> g) = total g + size its.
Proof.
  intros Hk. apply (map_fold_insert_L (fun _ its n => n + size its) 0 k its g); [|done].
  intros. lia.
Qed.

Lemma total_delete g k its :
  g !! k = Some its -> total g = total (delete k g) + size its.
Proof.
  intros Hk. rewrite <-(total_insert _ k) by apply lookup_delete_eq.
  by rewrite insert_delete_id.
Qed.

Lemma total_groups m : forall g,
  (forall src, g !! src = nonempty (by_source m src)) -> total g = size m.
Proof.
  induction m as [|o i m Ho IH] using map_ind; intros g Hg.
  - replace g with (∅ : gmap (option string) (gmap OID Item)); [done|].
    apply map_eq. intros src. rewrite Hg. unfold by_source. by rewrite map_filter_empty.
  - assert (forall src, node_of i ≠ src ->
      by_source (<[o := i]> m) src = by_source m src) as Hne.
    { intros src Hs. apply by_source_insert_ne; [done|]. by rewrite Ho. }
    assert (g !! node_of i = Some (<[o := i]> (by_source m (node_of i)))) as Hgi
      by by rewrite Hg, by_source_insert, nonempty_insert.
    assert (by_source m (node_of i) !! o = None) as Hb.
    { destruct (by_source m (node_of i) !! o) eqn:E; [|done].
      apply lookup_by_source in E as []. congruence. }
    rewrite (total_delete _ _ _ Hgi), !map_size_insert_None by done.
    destruct (nonempty (by_source m (node_of i))) as [b|] eqn:E.
    + apply nonempty_Some in E as [-> Hb'].
      rewrite <-(IH (<[node_of i := by_source m (node_of i)]> (delete (node_of i) g))).
      { rewrite total_insert by apply lookup_delete_eq. lia. }
      intros src. rewrite lookup_insert. case_decide as Hd; [subst; symmetry|].
      * by apply nonempty_Some.
      * by rewrite lookup_delete_ne, Hg, Hne.
    + rewrite <-(IH (delete (node_of i) g)).
      { apply nonempty_None in E. rewrite E, map_size_empty. lia. }
      intros src. rewrite lookup_delete. case_decide as Hd; [by subst|]. by rewrite Hg, Hne.
Qed.

(** After any sequence of creations, deployments, registry loads,
    replications and removals in which no item of one node is registered over
    an item of another, the three indexes of the inventory agree: an item is
    found by its OID exactly if it is listed under its node, a source is
    registered exactly while it has items, the local list holds exactly the
    items without a source, the statistics count every item once, and no two
    items share a state cell. *)
Lemma inventory_indexes_agree `{!OidLaws} s m :
  reached s m ->
  (forall o, get_item o (inventory s) = m !! o) /\
  (forall n o i,
    get_items_by_source n (inventory s) ≫= lookup o = Some i <->
    get_item o (inventory s) = Some i /\ node_of i = Some n) /\
  (forall n, is_Some (sources (inventory s) !! n) <->
    exists o i, get_item o (inventory s) = Some i /\ node_of i = Some n) /\
  (forall i, i ∈ list_local_items (inventory s) <->
    get_item (it_oid i) (inventory s) = Some i /\ it_source i = None) /\
  stats_items (inventory s) = size m /\
  (forall o1 o2 i1 i2 l,
    get_item o1 (inventory s) = Some i1 -> get_item o2 (inventory s) = Some i2 ->
    it_state i1 = Some l -> it_state i2 = Some l -> o1 = o2).
Proof.
  intros Hok%reached_ok. pose proof (ok_repr _ _ Hok) as Hr.
  assert (forall o, get_item o (inventory s) = m !! o) as Hget.
  { intros o. by apply get_item_repr. }
  assert (forall n o i, nonempty (by_source m (Some n)) ≫= lookup o = Some i <->
    m !! o = Some i /\ node_of i = Some n) as Hgr.
  { intros n o i. rewrite <-lookup_by_source. destruct (nonempty _) as [g|] eqn:E; simpl.
    - by apply nonempty_Some in E as [-> _].
    - apply nonempty_None in E. by rewrite E, lookup_empty. }
  split_and!; [done| | | | |].
  - intros n o i. unfold get_items_by_source. by rewrite (repr_groups _ _ Hr), Hgr, Hget.
  - intros n. rewrite (repr_sources _ _ Hr). split.
    + intros [g [-> Hne]%nonempty_Some].
      destruct (map_choose _ Hne) as (o & i & []%lookup_by_source). exists o, i.
      by rewrite Hget.
    + intros (o & i & Ho & Hn). rewrite Hget in Ho.
      pose proof (proj2 (Hgr n o i) (conj Ho Hn)). by destruct (nonempty _); [eexists|].
  - intros i. rewrite Hget. by apply list_local_items_elem.
  - apply total_groups, Hr.
  - intros o1 o2 i1 i2 l. rewrite !Hget. apply (ok_store _ _ Hok).
Qed.

(** An item deployed over an existing local one keeps its state: the
    IEID is the old one, the status, the value and the time are the old ones
    unless the configuration has its own, and the action counter of a unit
    starts from zero. *)
Lemma redeploy_keeps_state `{!OidLaws} s m cf boot_id now ns old l st :
  reached s m -> get_item (cf_oid cf) (inventory s) = Some old ->
  node_of old = None -> it_state old = Some l -> read_state (store s) l = st ->
  oid_kind (cf_oid cf) ≠ Lmacro ->
  check_item_data (cf_oid cf) (cf_logic cf) (cf_action cf) = Ok tt ->
  exists item s', append_item_from_config_data cf boot_id now ns s = (Ok item, s') /\
    get_item (cf_oid cf) (inventory s') = Some item /\ node_of item = None /\
    read_state (store s') <$> it_state item = Some (mkState
      (default (st_status st) (cf_status cf)) (default (st_value st) (cf_value cf))
      (if decide (oid_kind (cf_oid cf) = Unit) then Some 0%Z else st_act st)
      (st_ieid st) (default (st_t st) (cf_t cf))).
Proof.
  intros Hok%reached_ok Ho Hn Hl Hst Hk Hc. pose proof (ok_repr _ _ Hok) as Hr.
  unfold append_item_from_config_data, get_or_generate_state. rewrite Hc.
  rewrite run_bind. simpl. rewrite decide_False by done. rewrite !run_bind. simpl.
  rewrite Ho, Hl, Hst. rewrite (get_item_repr _ _ _ Hr) in Ho.
  edestruct (add_item_ok s m (cf_oid cf)) as (item & s' & -> & Hok' & Hi & Hs & Hst');
    [done|done|done|by rewrite Ho; intros ? [= <-]|by left|].
  exists item, s'. split_and!; [done| |by unfold node_of; rewrite Hs|].
  - rewrite (get_item_repr _ _ _ (ok_repr _ _ Hok')). by rewrite lookup_insert_eq.
  - rewrite Hst'. destruct st. case_decide; by destruct (cf_status cf), (cf_value cf), (cf_t cf).
Qed.

(** Registering an item over one of another node. *)
Lemma append_item_stale `{!OidLaws} s m old item :
  inv_repr (inventory s) m -> m !! it_oid item = Some old -> node_of old ≠ node_of item ->
  exists s', append_item item true s = (Ok item, s') /\ store s' = store s /\
    get_item (it_oid item) (inventory s') = Some item /\
    items_by_source (inventory s') !! node_of old ≫= lookup (it_oid item) = Some old /\
    forall m', ~ inv_repr (inventory s') m'.
Proof.
  intros Hr Ho Hn.
  destruct (append_item_run s m item true Hr) as (im & Hi & ->); [by left|].
  eexists. split; [done|]. split; [done|]. simpl.
  assert (items_by_source (appended item im (inventory s)) !! node_of old ≫=
    lookup (it_oid item) = Some old) as Hs.
  { rewrite (appended_groups _ m) by done. rewrite decide_False by done.
    rewrite (repr_groups _ _ Hr). destruct (nonempty _) as [g|] eqn:E; simpl.
    - apply nonempty_Some in E as [-> _]. by apply lookup_by_source.
    - apply nonempty_None in E.
      assert (by_source m (node_of old) !! it_oid item = Some old) as E'
        by by apply lookup_by_source. by rewrite E, lookup_empty in E'. }
  assert (get_item (it_oid item) (appended item im (inventory s)) = Some item) as Hg.
  { unfold get_item. rewrite appended_items, (map_get_refines it_oid _ _ _ Hi).
    by rewrite lookup_insert_eq. }
  split_and!; [done|done|]. intros m' Hr'. rewrite (get_item_repr _ _ _ Hr') in Hg.
  rewrite (repr_groups _ _ Hr') in Hs. destruct (nonempty _) as [g|] eqn:E; [|done].
  apply nonempty_Some in E as [-> _]. simpl in Hs. apply lookup_by_source in Hs as [].
  congruence.
Qed.

Lemma append_remote_stale `{!OidLaws} s m old i source st :
  inv_ok s m -> source_alloc (store s) source -> from_repl_item i = Ok st ->
  m !! ri_oid i = Some old -> node_of old ≠ Some (src_node source) ->
  exists item s', append_remote_item i source s = (Ok item, s') /\
    it_oid item = ri_oid i /\ it_source item = Some source /\
    get_item (ri_oid i) (inventory s') = Some item /\
    items_by_source (inventory s') !! node_of old ≫= lookup (ri_oid i) = Some old /\
    forall m', ~ inv_repr (inventory s') m'.
Proof.
  intros Hok Ha Hst Ho Hn. unfold append_remote_item. rewrite run_bind. unfold lift. rewrite Hst.
  destruct (add_item_alloc s m (ri_oid i) st (ri_meta i) (Some source) (ri_enabled i) None None
    true Hok) as (l & en & s1 & -> & Hok1 & _ & _).
  { intros ->. unfold from_repl_item in Hst. case_decide; [done|].
    by destruct (ri_ieid i), (ri_t i). }
  { by intros ? [= <-]. }
  destruct (append_item_stale s1 m old (mkItem (ri_oid i) l (ri_meta i) (Some source) en None None))
    as (s' & -> & _ & Hs); [apply Hok1|done|done|]. by eexists _, s'.
Qed.

(** An item registered over an item of another node replaces it in the
    tree and stays listed under the other node: [items_by_source] then has an
    entry for an item that the inventory no longer returns, and the indexes
    are views of no common map any more. *)
Lemma replace_other_source_stale `{!OidLaws} s m old item :
  reached s m -> get_item (it_oid item) (inventory s) = Some old ->
  node_of old ≠ node_of item ->
  exists s', append_item item true s = (Ok item, s') /\
    get_item (it_oid item) (inventory s') = Some item /\
    items_by_source (inventory s') !! node_of old ≫= lookup (it_oid item) = Some old /\
    forall m', ~ inv_repr (inventory s') m'.
Proof.
  intros Hok%reached_ok Ho Hn. pose proof (ok_repr _ _ Hok) as Hr.
  rewrite (get_item_repr _ _ _ Hr) in Ho.
  destruct (append_item_stale s m old item Hr Ho Hn) as (s' & ? & _ & ?). eauto.
Qed.

End inventory.

Module InventoryExamples.
Import Sample.

Definition temp : OID := (Sensor, "env/temp").
Definition lamp : OID := (Unit, "room1/lamp").

Definition deploy_temp (status : option Z) (value : option Value) : inv_op :=
  OpDeploy (mkConfig temp None true None None status value None) 7 (f64_of_Z 100) 1000.
Definition remote_lamp : inv_op :=
  OpRemote (mkRItem lamp (Some 1%Z) (Some (SNum 3)) (Some 0%Z) (Some (4%Z, 5%Z))
    (Some (f64_of_Z 90)) None true) "node2" "eva.repl.1".

Definition s0 : Inv := mkInv store_empty inventory_new.
Definition s1 : Inv := (inv_exec (deploy_temp (Some 1%Z) (Some (SNum 20))) s0).2.
Definition m1 : gmap OID Item :=
  op_effect (deploy_temp (Some 1%Z) (Some (SNum 20)))
    (inv_exec (deploy_temp (Some 1%Z) (Some (SNum 20))) s0).1 ∅.
Definition s2 : Inv := (inv_exec remote_lamp s1).2.
Definition m2 : gmap OID Item := op_effect remote_lamp (inv_exec remote_lamp s1).1 m1.

Definition temp_item : Item := mkItem temp (Some 1%positive) None None 2%positive None None.
Definition temp_state : ItemState := mkState 1 (SNum 20) None (7%Z, 1000%Z) (f64_of_Z 100).
Definition lamp_item : Item :=
  mkItem lamp (Some 4%positive) None
    (Some (mkSource "node2" 3%positive "eva.repl.1")) 5%positive None None.

Example s2_items :
  get_item temp (inventory s2) = Some temp_item /\
  get_item lamp (inventory s2) = Some lamp_item /\
  st_value (read_state (store s2) 1%positive) = SNum 20.
Proof. split_and!; vm_refl. Qed.

Lemma m1_lamp : m1 !! lamp = None.
Proof. vm_refl. Qed.

Lemma reached_s2 : reached s2 m2.
Proof.
  apply (reached_step remote_lamp s1 m1); [|intros old; change (m1 !! op_oid remote_lamp) with (m1 !! lamp); by rewrite m1_lamp].
  apply (reached_step (deploy_temp (Some 1%Z) (Some (SNum 20))) s0 ∅); [apply reached_new|].
  intros old. by rewrite lookup_empty.
Qed.

Lemma inventory_indexes_agree_example :
  reached s2 m2 /\ stats_items (inventory s2) = 2 /\
  list_local_items (inventory s2) = [temp_item].
Proof.
  split; [apply reached_s2|].
  destruct (inventory_indexes_agree s2 m2 reached_s2) as (_ & _ & _ & _ & -> & _).
  split; vm_refl.
Defined.

Definition redeploy : ItemConfigData :=
  mkConfig temp None true None None None (Some (SNum 25)) None.
Definition temp_state' : ItemState := mkState 1 (SNum 25) None (7%Z, 1000%Z) (f64_of_Z 100).

Lemma redeploy_keeps_state_example :
  exists item s', append_item_from_config_data redeploy 7 (f64_of_Z 200) 2000 s2 =
      (Ok item, s') /\
    get_item temp (inventory s') = Some item /\ node_of item = None /\
    read_state (store s') <$> it_state item = Some temp_state'.
Proof.
  apply (redeploy_keeps_state s2 m2 redeploy 7 (f64_of_Z 200) 2000 temp_item 1%positive
    temp_state); [apply reached_s2|vm_refl|vm_refl|vm_refl|vm_refl|done|vm_refl].
Defined.

(** A local lamp over the replicated one. *)
Definition local_lamp : Item := mkItem lamp (Some 1%positive) None None 2%positive None None.

Lemma replace_other_source_stale_example :
  exists s', append_item local_lamp true s2 = (Ok local_lamp, s') /\
    get_item lamp (inventory s') = Some local_lamp /\
    items_by_source (inventory s') !! Some "node2" ≫= lookup lamp = Some lamp_item /\
    forall m', ~ inv_repr (inventory s') m'.
Proof.
  apply (replace_other_source_stale s2 m2 lamp_item local_lamp);
    [apply reached_s2|vm_refl|done].
Defined.
End InventoryExamples.
