(* ===== verification/Core.v ===== *)
(** * The node core: local items (eva/src/core.rs)

    [World] is the mutable part of the [Core] structure together with what
    the core has sent out: messages published on the bus and writes to the
    inventory data base or the registry.  [CoreConfig] has the fields that
    are constant while the core runs, [Env] what comes from outside: the two
    clocks, read at every tick, and the results of the calls to the bus and
    to the data base, which may fail at any time.

    A method of [Core] is a computation in the state and error monad over
    [World]; it runs without being interleaved with other methods.  The
    state processor lock is a flag: a task that waits for the lock while it
    holds the lock itself never continues, which is recorded in [w_blocked]. *)
From S2P Require Import Prelude EvaCommon ItemState ItemTree Inventory.

Section core.
Context `{Ext : Externals} `{NExt : !NodeExternals}.

(** ** Configuration *)

(** eva/src/core.rs:325-330 [InstantSave] *)
Inductive InstantSave := IsStrict (b : bool) | IsByMask (l : OIDMaskList).
(** eva/src/core.rs:333-339 [InstantSave::matches] *)
Definition instant_save_matches (i : InstantSave) (oid : OID) : bool :=
  match i with IsStrict v => v | IsByMask mask => mask_list_matches mask oid end.

(** eva/src/core.rs:77-85 [sender_allowed_auto_create_strict] *)
Definition sender_allowed_auto_create_strict (sender : string) : bool :=
  contains sender ".controller." || contains sender ".llc." || contains sender ".plc."
  || ends_with sender ".plc" || ends_with sender ".program".

(** eva/src/core.rs:87-93 [AutoCreate] *)
Inductive AutoCreate :=
  | AcStrict (b : bool)
  | AcBySingleSender (s : string)
  | AcBySender (l : list string).
(** eva/src/core.rs:102-111 [AutoCreate::allowed] *)
Definition auto_create_allowed (ac : AutoCreate) (sender : string) : bool :=
  match ac with
  | AcStrict v => v && sender_allowed_auto_create_strict sender
  | AcBySingleSender v => String.eqb v "*" || String.eqb v "#" || contains sender v
  | AcBySender v =>
      existsb (fun s => String.eqb s "*" || String.eqb s "#") v
      || existsb (fun s => contains sender s) v
  end.

(** The constant fields of the core and what start-up has set up: whether
    the inventory data base and the state saver are running. *)
Record CoreConfig := mkCoreConfig {
  boot_id : Z;
  system_name : string;
  instant_save : InstantSave;
  auto_create : AutoCreate;
  source_sensors : bool;
  db_initialized : bool;
  state_tx_set : bool
}.

(** What the core gets from outside. *)
Record Env := mkEnv {
  env_now : nat -> f64;
  env_ns : nat -> Z;
  env_io : nat -> EResult unit;
  env_rpc : nat -> EResult (option Value);
  env_to_value : Item -> bool -> EResult Value
}.

(** ** State *)

Inductive BusMsg :=
  | MsgLocal (oid : OID) (st : LocalStateEvent)
  | MsgRemote (oid : OID) (st : RemoteStateEvent) (current : bool)
  | MsgLocalFor (receiver : string) (oid : OID) (st : LocalStateEvent)
  | MsgRemoteFor (receiver : string) (oid : OID) (st : RemoteStateEvent) (current : bool)
  | MsgRpc (svc method : string) (oid : OID) (node : string)
      (status : option Z) (value : option Value).

Inductive DbOp :=
  | DbSaveState (oid : OID) (st : DbState)
  | DbQueueState (oid : OID) (st : DbState)
  | DbSaveConfig (oid : OID) (config : Value)
  | DbDestroy (oid : OID).

(** eva/src/core.rs:342-439 [Core], the fields that change *)
Record World := mkWorld {
  w_inv : Inv;
  w_nodes : gmap string NodeData;
  w_locked : gset string;       (* inv_process *)
  w_saves : gset OID;           (* scheduled_saves *)
  w_initial : bool;             (* initial_announced *)
  w_active : bool;
  w_stp : bool;                 (* state_processor_lock is held *)
  w_blocked : bool;
  w_tick : nat;
  w_calls : nat;
  w_bus : list BusMsg;          (* the latest first *)
  w_db : list DbOp              (* the latest first *)
}.

Definition set_inv (i : Inv) (w : World) : World :=
  mkWorld i (w_nodes w) (w_locked w) (w_saves w) (w_initial w) (w_active w) (w_stp w)
    (w_blocked w) (w_tick w) (w_calls w) (w_bus w) (w_db w).
Definition set_nodes (n : gmap string NodeData) (w : World) : World :=
  mkWorld (w_inv w) n (w_locked w) (w_saves w) (w_initial w) (w_active w) (w_stp w)
    (w_blocked w) (w_tick w) (w_calls w) (w_bus w) (w_db w).
Definition set_locked (l : gset string) (w : World) : World :=
  mkWorld (w_inv w) (w_nodes w) l (w_saves w) (w_initial w) (w_active w) (w_stp w)
    (w_blocked w) (w_tick w) (w_calls w) (w_bus w) (w_db w).
Definition set_saves (l : gset OID) (w : World) : World :=
  mkWorld (w_inv w) (w_nodes w) (w_locked w) l (w_initial w) (w_active w) (w_stp w)
    (w_blocked w) (w_tick w) (w_calls w) (w_bus w) (w_db w).
Definition set_initial (b : bool) (w : World) : World :=
  mkWorld (w_inv w) (w_nodes w) (w_locked w) (w_saves w) b (w_active w) (w_stp w)
    (w_blocked w) (w_tick w) (w_calls w) (w_bus w) (w_db w).
Definition set_stp (stp blocked : bool) (w : World) : World :=
  mkWorld (w_inv w) (w_nodes w) (w_locked w) (w_saves w) (w_initial w) (w_active w) stp
    blocked (w_tick w) (w_calls w) (w_bus w) (w_db w).
Definition set_tick (n : nat) (w : World) : World :=
  mkWorld (w_inv w) (w_nodes w) (w_locked w) (w_saves w) (w_initial w) (w_active w)
    (w_stp w) (w_blocked w) n (w_calls w) (w_bus w) (w_db w).
Definition set_calls (n : nat) (w : World) : World :=
  mkWorld (w_inv w) (w_nodes w) (w_locked w) (w_saves w) (w_initial w) (w_active w)
    (w_stp w) (w_blocked w) (w_tick w) n (w_bus w) (w_db w).
Definition add_bus (m : BusMsg) (w : World) : World :=
  mkWorld (w_inv w) (w_nodes w) (w_locked w) (w_saves w) (w_initial w) (w_active w)
    (w_stp w) (w_blocked w) (w_tick w) (w_calls w) (m :: w_bus w) (w_db w).
Definition add_db (d : DbOp) (w : World) : World :=
  mkWorld (w_inv w) (w_nodes w) (w_locked w) (w_saves w) (w_initial w) (w_active w)
    (w_stp w) (w_blocked w) (w_tick w) (w_calls w) (w_bus w) (d :: w_db w).

Abbreviation CM := (M World).

Definition w_store (w : World) : Store := store (w_inv w).
Definition w_inventory (w : World) : Inventory := inventory (w_inv w).

(** The inventory under its read or write lock. *)
Definition on_inv {A} (m : M Inv A) : CM A := fun w =>
  let '(r, i) := m (w_inv w) in (r, set_inv i w).
Definition on_cells (f : Store -> Store) : CM unit :=
  modify (fun w => set_inv (mkInv (f (w_store w)) (w_inventory w)) w).

Variable (e : Env) (cfg : CoreConfig).

(** [Time::now().timestamp()], [monotonic_ns()] *)
Definition time_now : CM f64 := fun w =>
  (Ok (env_now e (w_tick w)), set_tick (S (w_tick w)) w).
Definition monotonic_ns : CM Z := fun w =>
  (Ok (env_ns e (w_tick w)), set_tick (S (w_tick w)) w).
(** A call to the bus, to the data base or to the registry. *)
Definition io_call : CM unit := fun w =>
  (env_io e (w_calls w), set_calls (S (w_calls w)) w).
Definition publish (m : BusMsg) : CM unit := _ ← io_call; modify (add_bus m).
Definition db_write (d : DbOp) : CM unit := _ ← io_call; modify (add_db d).

(** [state_processor_lock.lock()] and the release at the end of the guard's
    scope, also when the body returns an error. *)
Definition stp_acquire : CM unit := modify (fun w =>
  if w_stp w then set_stp true true w else set_stp true (w_blocked w) w).
Definition stp_release : CM unit := modify (fun w => set_stp false (w_blocked w) w).
Definition with_stp {A} (lock : bool) (body : CM A) : CM A :=
  if lock then
    _ ← stp_acquire;
    r ← attempt body;
    _ ← stp_release;
    lift r
  else body.

(** ** Announces and saves *)

(** eva/src/core.rs:158-177 [announce_local_state] *)
Definition announce_local_state (oid : OID) (st : LocalStateEvent) : CM unit :=
  publish (MsgLocal oid st).
(** eva/src/core.rs:180-201 [announce_local_state_for] *)
Definition announce_local_state_for (oid : OID) (st : LocalStateEvent) (receiver : string)
    : CM unit := publish (MsgLocalFor receiver oid st).
(** eva/src/core.rs:204-232 [announce_remote_state] *)
Definition announce_remote_state (oid : OID) (st : RemoteStateEvent) (current : bool)
    : CM unit := publish (MsgRemote oid st current).
(** eva/src/core.rs:235-265 [announce_remote_state_for] *)
Definition announce_remote_state_for (oid : OID) (st : RemoteStateEvent) (current : bool)
    (receiver : string) : CM unit := publish (MsgRemoteFor receiver oid st current).

(** eva/src/core.rs:268-278 [save_item_state] *)
Definition save_item_state (oid : OID) (st : DbState) : CM unit :=
  if db_initialized cfg then modify (add_db (DbSaveState oid st))
  else log_ef (db_write (DbSaveState oid st)).
(** eva/src/core.rs:287-295 [save_item_config] *)
Definition save_item_config (oid : OID) (config : Value) : CM unit :=
  db_write (DbSaveConfig oid config).
(** eva/src/core.rs:298-308 [destroy_inventory_item] *)
Definition destroy_inventory_item (oid : OID) : CM unit :=
  if db_initialized cfg then db_write (DbDestroy oid)
  else _ ← io_call; db_write (DbDestroy oid).

(** eva/src/core.rs:311-323 [prepare_state_data] *)
Definition prepare_state_data (item : Item) (st : ItemState)
    : LocalStateEvent * option DbState :=
  let s_st := local_state_event_of st in
  (s_st,
   match value_as_bytes (lse_value s_st) with
   | Some _ => None
   | None =>
       if instant_save_matches (instant_save cfg) (it_oid item)
       then Some (db_state_of st) else None
   end).

(** eva/src/core.rs:2033-2036 [Core::schedule_save] *)
Definition schedule_save (oid : OID) : CM unit :=
  modify (fun w => set_saves ({[ oid ]} ∪ w_saves w) w).
(** eva/src/core.rs:2037-2040 [Core::unschedule_save] *)
Definition unschedule_save (oid : OID) : CM unit :=
  modify (fun w => set_saves (w_saves w ∖ {[ oid ]}) w).

(** eva/src/core.rs:780-800 [Core::process_new_state] *)
Definition process_new_state (oid : OID) (s_state : LocalStateEvent)
    (db_st : option DbState) : CM unit :=
  _ ← log_ef (announce_local_state oid s_state);
  match db_st with
  | Some db_state =>
      if state_tx_set cfg then log_ef (db_write (DbQueueState oid db_state)) else mret tt
  | None => schedule_save oid
  end.

(** eva/src/core.rs:732-746 [Core::save] *)
Definition core_save : CM unit :=
  w ← get;
  let oids := w_saves w in
  _ ← modify (set_saves ∅);
  for_each (fun oid =>
    w ← get;
    match get_item oid (w_inventory w) ≫= item_db_state (w_store w) with
    | Some s_state => save_item_state oid s_state
    | None => mret tt
    end) (elements oids).

(** eva/src/core.rs:694-697 [Core::generate_ieid] *)
Definition generate_ieid : CM IEID :=
  ns ← monotonic_ns; mret (ieid_new (boot_id cfg) ns).

(** eva/src/items.rs:703-709 [ItemData::config] *)
Definition item_config (item : Item) : CM Value :=
  match it_source item with
  | Some _ => raise EFailed
  | None => w ← get; lift (env_to_value e item (item_is_enabled (w_store w) item))
  end.

(** ** Creating and destroying local items *)

(** eva/src/core.rs:750-778 [Core::create_local_item] *)
Definition create_local_item (oid : OID) : CM Item :=
  ieid ← (if decide (oid_kind oid = Lmacro) then mret None
          else ieid ← generate_ieid; mret (Some ieid));
  now ← time_now;
  item ← on_inv (create_item oid ieid None now);
  config ← item_config item;
  _ ← save_item_config (it_oid item) config;
  _ ← match it_state item with
      | Some stc =>
          w ← get;
          let '(s_state, db_st) := prepare_state_data item (read_state (w_store w) stc) in
          process_new_state (it_oid item) s_state db_st
      | None => mret tt
      end;
  mret item.

(** eva/src/core.rs:806-821 [Core::destroy_local_items] *)
Definition destroy_local_items (mask : OIDMask) : CM unit :=
  w ← get;
  for_each (fun item =>
    _ ← on_inv (remove_item (it_oid item));
    _ ← unschedule_save (it_oid item);
    log_ef (destroy_inventory_item (it_oid item)))
  (get_items_by_mask mask (filter_node NodeLocal filter_default) true (w_inventory w)).

(** [self.inventory.write().await.append_item_from_config_data(val, self.boot_id)] *)
Definition append_config (val : ItemConfigData) : CM Item :=
  now ← time_now;
  ns ← monotonic_ns;
  on_inv (append_item_from_config_data val (boot_id cfg) now ns).

(** eva/src/core.rs:827-894 [Core::deploy_local_items] *)
Definition deploy_local_items (configs : list ItemConfigData) (lock : bool) : CM unit :=
  if db_initialized cfg then
    saved ← for_collect (fun val =>
      item ← append_config val;
      config ← item_config item;
      mret (it_oid item, config)) configs;
    _ ← io_call;
    _ ← modify (fun w => foldl (fun w '(oid, c) => add_db (DbSaveConfig oid c) w) w saved);
    for_each (fun oid =>
      w ← get;
      match get_item oid (w_inventory w) with
      | Some item =>
          match it_state item with
          | Some stc =>
              with_stp lock (
                w ← get;
                let '(s_state, db_st) :=
                  prepare_state_data item (read_state (w_store w) stc) in
                _ ← process_new_state (it_oid item) s_state None;
                match db_st with
                | Some db_state => modify (add_db (DbSaveState oid db_state))
                | None => mret tt
                end)
          | None => mret tt
          end
      | None => mret tt
      end) saved.*1
  else
    for_each (fun val =>
      item ← append_config val;
      config ← item_config item;
      _ ← save_item_config (it_oid item) config;
      match it_state item with
      | Some stc =>
          with_stp lock (
            w ← get;
            let '(s_state, db_st) := prepare_state_data item (read_state (w_store w) stc) in
            process_new_state (it_oid item) s_state db_st)
      | None => mret tt
      end) configs.

(** eva/src/core.rs:1132-1173 [Core::undeploy_local_items], on the OIDs the
    payload was parsed to *)
Definition undeploy_local_items (oids : list OID) : CM unit :=
  if db_initialized cfg then
    removed ← for_collect (fun oid =>
      r ← on_inv (remove_item oid);
      match r with
      | Some _ => _ ← unschedule_save oid; mret (Some oid)
      | None => mret None
      end) oids;
    log_ef (_ ← io_call;
            modify (fun w => foldl (fun w oid => add_db (DbDestroy oid) w) w (omap id removed)))
  else
    for_each (fun oid =>
      r ← on_inv (remove_item oid);
      _ ← match r with
          | Some _ => log_ef (destroy_inventory_item oid)
          | None => mret tt
          end;
      unschedule_save oid) oids.

(** eva/src/core.rs:2044-2067 [Core::set_local_items_enabled] *)
Definition set_local_items_enabled (mask : OIDMask) (value : bool) : CM unit :=
  w ← get;
  let its := filter (fun i => it_source i = None)
    (get_items_by_mask mask filter_default true (w_inventory w)) in
  configs ← for_collect (fun item =>
    _ ← on_cells (item_set_enabled item value);
    r ← attempt (item_config item);
    mret match r with Ok config => Some (it_oid item, config) | Err _ => None end) its;
  for_each (fun '(oid, config) => log_ef (save_item_config oid config)) (omap id configs).

(** ** Raw state events *)

(** eva/src/core.rs:2572-2580 [calc_delta] *)
Definition calc_delta (current prev : f64) (on_negative : OnNegativeDelta) : f64 :=
  match on_negative with
  | NegOverflow floor ceil =>
      if f64_ltb current prev then f64_add (f64_sub ceil prev) (f64_sub current floor)
      else f64_sub current prev
  | _ => f64_sub current prev
  end.

(** eva/src/core.rs:1680-1691 [Core::auto_create_item_from_raw_empty] *)
Definition auto_create_item_from_raw_empty (oid : OID) (sender : string) : CM unit :=
  if auto_create_allowed (auto_create cfg) sender then
    log_ef (deploy_local_items [config_blank oid sender] true)
  else mret tt.

(** eva/src/core.rs:1693-1703 [Core::auto_create_item_from_raw] *)
Definition auto_create_item_from_raw (oid : OID) (raw : RawStateEvent) (sender : string)
    : CM unit :=
  if match raw_t raw with Some t => f64_eqb t f64_zero | None => false end then mret tt
  else log_ef (deploy_local_items [config_from_raw_event oid raw sender] true).

(** eva/src/core.rs:1705-1722 [Core::auto_create_item_from_raw_bulk] *)
Definition auto_create_item_from_raw_bulk (raw : list (OID * RawStateEvent))
    (sender : string) (lock : bool) : CM unit :=
  log_ef (deploy_local_items
    ((fun '(oid, rseo) => config_from_raw_event oid rseo sender) <$> raw) lock).

(** The event a delta is reported with, [apply_delta!] (eva/src/core.rs:1465-1483) *)
Definition delta_event (delta : f64) (force : Force) (t : option f64) : RawStateEvent :=
  raw_of 1 (Some (VF64 delta)) force t.
Definition apply_delta (delta : f64) (on_negative : OnNegativeDelta) (force : Force)
    (t : option f64) : option RawStateEvent :=
  if f64_ltb delta f64_zero then
    match on_negative with
    | NegSkip => None
    | NegReset => Some (delta_event f64_zero force t)
    | NegProcess | NegOverflow _ _ => Some (delta_event delta force t)
    end
  else Some (delta_event delta force t).

(** eva/src/core.rs:1407-1517 [Core::process_modified]; [raw] is the call
    back to [process_raw_state] *)
Definition process_modified (raw : Item -> RawStateEvent -> bool -> string -> CM unit)
    (om : OnModified) (really_modified : bool) (force : Force) (delta : option f64)
    (t : option f64) (sender : string) : CM unit :=
  match om with
  | SetOther oids status value =>
      if really_modified then
        for_each (fun mask =>
          w ← get;
          for_each (fun item => log_ef (raw item (raw_of status value force t) false sender))
            (get_items_by_mask mask (filter_node NodeLocal filter_default) false
               (w_inventory w))) oids
      else mret tt
  | SetOtherValueDelta oid on_error on_negative _ =>
      match delta with
      | Some delta =>
          w ← get;
          match get_item oid (w_inventory w) with
          | Some item =>
              let rw :=
                match it_state item with
                | Some state =>
                    if (st_status (read_state (w_store w) state) <=? ITEM_STATUS_ERROR)%Z then
                      match on_error with
                      | OmeSkip => None
                      | OmeReset => Some (delta_event f64_zero force t)
                      | OmeProcess => apply_delta delta on_negative force t
                      end
                    else apply_delta delta on_negative force t
                | None => None
                end in
              match rw with
              | Some rw => log_ef (raw item rw false sender)
              | None => mret tt
              end
          | None =>
              if auto_create_allowed (auto_create cfg) sender then
                match apply_delta delta on_negative force t with
                | Some rw => auto_create_item_from_raw oid rw sender
                | None => mret tt
                end
              else mret tt
          end
      | None => mret tt
      end
  end.

(** The delta of a raw event to the state it replaces (eva/src/core.rs:1606-1630) *)
Definition raw_delta (raw : RawStateEvent) (st : ItemState) (now : f64) : option f64 :=
  match raw_on_modified raw, raw_value raw with
  | Some (SetOtherValueDelta _ _ on_negative period), Some value =>
      let prev_value := st_value st in
      if negb (value_eqb prev_value VUnit) then
        let current := default f64_zero (value_to_f64 value) in
        let previous := default f64_zero (value_to_f64 prev_value) in
        match period with
        | Some period =>
            let elapsed := f64_sub now (st_t st) in
            if f64_ltb f64_zero elapsed then
              Some (f64_mul (f64_div (calc_delta current previous on_negative) period) elapsed)
            else None
        | None => Some (calc_delta current previous on_negative)
        end
      else None
  | _, _ => None
  end.

(** The part of [process_raw_state] under the state processor lock: the
    state is written, announced and saved.  The result is the flag and the
    delta for the items that follow this one, or nothing when the event
    changed nothing (eva/src/core.rs:1591-1647). *)
Definition process_raw_locked (item : Item) (state : loc) (raw : RawStateEvent)
    : CM (option (bool * option f64)) :=
  let force := raw_force raw in
  now ← time_now;
  ns ← monotonic_ns;
  w ← get;
  let st := read_state (w_store w) state in
  if bool_decide (oid_kind (it_oid item) = Lvar) && (st_status st =? 0)%Z
     && bool_decide (force = ForceNone)
  then mret None
  else
    let delta := raw_delta raw st now in
    let '(really_modified, st') := set_from_raw raw (it_logic item) (boot_id cfg) now ns st in
    _ ← on_cells (write_state state st');
    if really_modified || bool_decide (force ≠ ForceNone) then
      let '(s_state, db_st) := prepare_state_data item st' in
      _ ← process_new_state (it_oid item) s_state db_st;
      mret (Some (really_modified, delta))
    else mret None.

(** eva/src/core.rs:1559-1653 [Core::process_raw_state]; the depth bounds the
    calls through [process_modified] *)
Fixpoint process_raw_state (depth : nat) (item : Item) (raw : RawStateEvent)
    (lock : bool) (sender : string) : CM unit :=
  match depth with
  | O => raise ECore
  | S depth =>
      match it_source item with
      | Some _ => raise EBusy
      | None =>
          w ← get;
          let force := raw_force raw in
          if negb (item_is_enabled (w_store w) item) && bool_decide (force ≠ ForceFull)
          then mret tt
          else
            match it_state item with
            | None => mret tt
            | Some state =>
                r ← with_stp lock (process_raw_locked item state raw);
                match r with
                | None => mret tt
                | Some (really_modified, delta) =>
                    match raw_on_modified raw with
                    | Some om =>
                        process_modified (process_raw_state depth) om really_modified force
                          delta (raw_t raw) sender
                    | None => mret tt
                    end
                end
            end
      end
  end.

(** An event that follows another one has no followers itself. *)
Definition raw_depth : nat := 2.

(** eva/src/core.rs:1659-1678 [Core::update_state_from_raw] *)
Definition update_state_from_raw (oid : OID) (raw : RawStateEvent) (sender : string)
    : CM unit :=
  if decide (oid_kind oid = Lmacro) then raise ENotImplemented
  else
    w ← get;
    match get_item oid (w_inventory w) with
    | Some item => process_raw_state raw_depth item raw true sender
    | None =>
        if auto_create_allowed (auto_create cfg) sender then
          auto_create_item_from_raw oid raw sender
        else raise ENotFound
    end.

(** eva/src/core.rs:1523-1557 [Core::update_state_from_raw_bulk] *)
Definition update_state_from_raw_bulk (raw : list (OID * RawStateEvent)) (sender : string)
    : CM unit :=
  w ← get;
  let raw := filter (fun r => oid_kind r.1 ≠ Lmacro) raw in
  let to_process :=
    omap (fun '(oid, r) => (fun item => (item, r)) <$> get_item oid (w_inventory w)) raw in
  let to_create :=
    if auto_create_allowed (auto_create cfg) sender
    then filter (fun r => get_item r.1 (w_inventory w) = None) raw else [] in
  with_stp true (
    _ ← for_each (fun '(item, r) => log_ef (process_raw_state raw_depth item r false sender))
          to_process;
    if (length to_create =? 0)%nat then mret tt
    else auto_create_item_from_raw_bulk to_create sender false).

(** ** Lvar operations *)

(** eva/src/core.rs:67-74 [LvarOp] *)
Inductive LvarOp :=
  | LvarSet (status : option Z) (value : option Value)
  | LvarReset | LvarClear | LvarToggle | LvarIncrement | LvarDecrement.

(** eva/src/core.rs:137-152 [LvarRemoteOp::from_op], the status and the value *)
Definition lvar_remote_op (op : LvarOp) : option Z * option Value :=
  match op with LvarSet s v => (s, v) | _ => (None, None) end.

(** The new state and the value returned (eva/src/core.rs:1354-1396). *)
Definition lvar_apply (op : LvarOp) (ieid : IEID) (now : f64) (st : ItemState)
    : EResult (ItemState * option Value) :=
  let val := default 0%Z (value_to_i64 (st_value st)) in
  match op with
  | LvarSet status value => Ok (force_set_state status value ieid now st, None)
  | LvarReset => Ok (force_set_state (Some 1%Z) None ieid now st, None)
  | LvarClear => Ok (force_set_state (Some 0%Z) None ieid now st, None)
  | LvarToggle =>
      Ok (force_set_state (Some (if (st_status st =? 0)%Z then 1%Z else 0%Z))
            None ieid now st, None)
  | LvarIncrement =>
      if (val =? i64_max)%Z then Err EInvalidData
      else let value := VI64 (val + 1) in
           Ok (force_set_value value ieid now st, Some value)
  | LvarDecrement =>
      if (val =? i64_min)%Z then Err EInvalidData
      else let value := VI64 (val - 1) in
           Ok (force_set_value value ieid now st, Some value)
  end.

(** eva/src/core.rs:1289-1300 [Core::get_or_crete_lvar] *)
Definition get_or_crete_lvar (oid : OID) (source : string) : CM (option Item) :=
  w ← get;
  match get_item oid (w_inventory w) with
  | Some lvar => mret (Some lvar)
  | None =>
      if auto_create_allowed (auto_create cfg) source then
        r ← attempt (create_local_item oid);
        mret (ok r)
      else mret None
  end.

(** A call to a service and its answer. *)
Definition rpc_call (m : BusMsg) : CM (option Value) := fun w =>
  (env_rpc e (w_calls w), add_bus m (set_calls (S (w_calls w)) w)).

(** The operation on a local lvar: write, announce, save
    (eva/src/core.rs:1349-1401). *)
Definition lvar_update (oid : OID) (op : LvarOp) (lvar : Item) (st : loc)
    : CM (option Value) :=
  ieid ← generate_ieid;
  now ← time_now;
  w ← get;
  '(state, value) ← lift (lvar_apply op ieid now (read_state (w_store w) st));
  _ ← on_cells (write_state st state);
  let '(s_state, db_st) := prepare_state_data lvar state in
  _ ← process_new_state oid s_state db_st;
  mret value.

(** eva/src/core.rs:1308-1405 [Core::lvar_op] *)
Definition lvar_op (oid : OID) (op : LvarOp) (method_orig source : string)
    : CM (option Value) :=
  if decide (oid_kind oid ≠ Lvar) then raise ENotImplemented
  else
    r ← get_or_crete_lvar oid source;
    lvar ← lift (ok_or r ENotFound);
    w ← get;
    if negb (item_is_enabled (w_store w) lvar) then raise EAccess
    else
      match it_source lvar with
      | Some source =>
          let '(status, value) := lvar_remote_op op in
          rpc_call (MsgRpc (src_svc source) method_orig oid (src_node source) status value)
      | None =>
          match it_state lvar with
          | Some st => lvar_update oid op lvar st
          | None => raise ECore
          end
      end.

(** ** Announces on request *)

(** eva/src/core.rs:2073-2090 [Core::announce_local_initial] *)
Definition announce_local_initial : CM unit :=
  w ← get;
  _ ← for_each (fun item =>
        w ← get;
        if negb (w_active w) then mret tt
        else match item_local_state_event (w_store w) item with
             | Some s_state => log_ef (announce_local_state (it_oid item) s_state)
             | None => mret tt
             end) (list_local_items (w_inventory w));
  modify (set_initial true).

(** eva/src/core.rs:2094-2121 [Core::force_announce_state] *)
Definition force_announce_state (mask_list : OIDMaskList) (source_id : option NodeFilter)
    : CM unit :=
  w ← get;
  if negb (w_initial w) then mret tt
  else for_each (fun item =>
    w ← get;
    match item_local_state_event (w_store w) item with
    | Some state =>
        match it_source item with
        | Some src =>
            announce_remote_state (it_oid item)
              (remote_of_local state (src_node src) (src_is_online (w_store w) src)) true
        | None => announce_local_state (it_oid item) state
        end
    | None => mret tt
    end) (list_items_with_states mask_list source_id (w_inventory w)).

(** eva/src/core.rs:2125-2154 [Core::force_announce_state_for] *)
Definition force_announce_state_for (mask_list : OIDMaskList)
    (source_id : option NodeFilter) (receiver : string) : CM unit :=
  w ← get;
  if negb (w_initial w) then mret tt
  else for_each (fun item =>
    w ← get;
    match item_local_state_event (w_store w) item with
    | Some state =>
        match it_source item with
        | Some src =>
            announce_remote_state_for (it_oid item)
              (remote_of_local state (src_node src) (src_is_online (w_store w) src)) true receiver
        | None => announce_local_state_for (it_oid item) state receiver
        end
    | None => mret tt
    end) (list_items_with_states mask_list source_id (w_inventory w)).

(** eva/src/core.rs:618-647 [Core::load_inventory]; the registry keys and the
    states, parsed, in the order the registry returns them *)
Definition load_inventory (inv : list (string * EResult ItemParsed))
    (states : gmap string (EResult ItemState)) : CM unit :=
  (fix go inv states :=
     match inv with
     | [] => mret tt
     | (s, i) :: inv =>
         oid ← lift (oid_from_path s);
         state ← match states !! s with
                 | Some st => st ← lift st; mret (Some st)
                 | None => mret None
                 end;
         now ← time_now;
         ns ← monotonic_ns;
         _ ← on_inv (append_item_from_value oid i state (boot_id cfg) now ns);
         go inv (delete s states)
     end) inv states.

End core.
