(* ===== verification/Replication.v ===== *)
(** * The node core: sources and replicated items (eva/src/core.rs)

    The methods of the core that serve the replication services: marking
    other nodes online and offline, dropping a node with its items, taking
    over the inventory of a node and single state events of its items. *)
From S2P Require Import Prelude EvaCommon ItemState ItemTree Inventory Core.

Section replication.
Context `{Ext : Externals} `{NExt : !NodeExternals}.
Variable (e : Env) (cfg : CoreConfig).

Abbreviation CM := (M World).

(** eva/src/core.rs:713-721 [Core::lock_source] *)
Definition lock_source (source_id : string) : CM bool :=
  w ← get;
  if decide (source_id ∈ w_locked w) then mret false
  else _ ← modify (set_locked ({[ source_id ]} ∪ w_locked w)); mret true.

(** eva/src/core.rs:725-728 [Core::unlock_source] *)
Definition unlock_source (source_id : string) : CM unit :=
  modify (fun w => set_locked (w_locked w ∖ {[ source_id ]}) w).

(** ** Sources *)

(** eva/src/core.rs:1174-1218 [Core::mark_core_node_online] *)
Definition mark_core_node_online (source_id svc : string) (online : bool)
    (info : option NodeInfo) (timeout : option Z) : CM bool :=
  w ← get;
  match w_nodes w !! source_id with
  | Some node =>
      let node :=
        if negb (Bool.eqb (node_online node) online) then node_set_online online node
        else node in
      _ ← modify (set_nodes (<[source_id := node]> (w_nodes w)));
      if negb (bool_decide (node_svc node = Some svc)) then mret false
      else
        let node := match info with Some i => node_update_info i node | None => node end in
        let node := node_update_timeout timeout node in
        _ ← modify (set_nodes (<[source_id := node]> (w_nodes w)));
        mret true
  | None =>
      _ ← modify (set_nodes
            (<[source_id := node_new (Some svc) online info timeout]> (w_nodes w)));
      mret true
  end.

(** eva/src/core.rs:1219-1241 [Core::set_source_sensor] *)
Definition set_source_sensor (source_id : string) (online : bool) : CM unit :=
  source_sensor_oid ← lift (ok_or
    (oid_parse ("sensor:" +:+ system_name cfg +:+ "/node/" +:+ source_id)%string)
    EInvalidData);
  w ← get;
  let source_sensor := get_item source_sensor_oid (w_inventory w) in
  ieid ← generate_ieid e cfg;
  item ← match source_sensor with
         | Some item => mret item
         | None =>
             now ← time_now e;
             on_inv (create_item source_sensor_oid (Some ieid) None now)
         end;
  state ← lift (ok_or (it_state item) ECore);
  now ← time_now e;
  w ← get;
  let stc :=
    force_set_state (Some 1%Z) (Some (VU8 (if online then 1 else 0)%Z)) ieid now
      (read_state (w_store w) state) in
  _ ← on_cells (write_state state stc);
  let '(s_state, db_st) := prepare_state_data cfg item stc in
  process_new_state e cfg (it_oid item) s_state db_st.

(** eva/src/core.rs:1266-1287 [Core::destroy_source]; the source is free when
    no other task holds it, the wait for another task is not modelled *)
Definition destroy_source (source_id : string) : CM unit :=
  source ← on_inv (get_or_create_source source_id "");
  _ ← on_cells (src_mark_destroyed source);
  _ ← lock_source source_id;
  _ ← modify (fun w => set_nodes (delete source_id (w_nodes w)) w);
  w ← get;
  _ ← match get_items_by_source source_id (w_inventory w) with
      | Some its =>
          for_each (fun '(oid, _) => _ ← on_inv (remove_item oid); mret tt) (map_to_list its)
      | None => mret tt
      end;
  unlock_source source_id.

(** eva/src/core.rs:1242-1262 [Core::mark_source_online] *)
Definition core_mark_source_online (source_id svc : string) (online : bool)
    (info : option NodeInfo) (timeout : option Z) : CM unit :=
  ours ← mark_core_node_online source_id svc online info timeout;
  if (ours : bool) then
    _ ← on_inv (mark_source_online source_id online);
    if source_sensors cfg then log_ef (set_source_sensor source_id online) else mret tt
  else destroy_source source_id.

(** ** The inventory of another node *)

(** eva/src/core.rs:1738-1767 [check_state] *)
Definition check_state (item : ReplicationInventoryItem) : bool :=
  match oid_kind (ri_oid item) with
  | Lvar | Sensor =>
      match ri_act item, ri_ieid item, ri_t item with
      | None, Some _, Some _ => true
      | _, _, _ => false
      end
  | Lmacro =>
      match ri_status item, ri_value item, ri_act item, ri_ieid item, ri_t item with
      | None, None, None, None, None => true
      | _, _, _, _, _ => false
      end
  | Unit => match ri_ieid item, ri_t item with Some _, Some _ => true | _, _ => false end
  end.

(** [Option<&Value> == Option<&Value>] *)
Definition opt_value_eqb (a b : option Value) : bool :=
  match a, b with
  | Some a, Some b => value_eqb a b
  | None, None => true
  | _, _ => false
  end.

(** Registering a replicated item and announcing its state
    (eva/src/core.rs:1866-1894) *)
Definition append_and_announce (remote : ReplicationInventoryItem) (source : Source)
    (online : bool) : CM unit :=
  r ← attempt (on_inv (append_remote_item remote source));
  match r with
  | Ok item =>
      if decide (oid_kind (it_oid item) = Lmacro) then mret tt
      else
        w ← get;
        match item_local_state_event (w_store w) item with
        | Some s_state =>
            log_ef (announce_remote_state e (it_oid item)
                      (remote_of_local s_state (src_node source) online) true)
        | None => mret tt
        end
  | Err _ => mret tt
  end.

(** Updating a registered item whose meta data is the same
    (eva/src/core.rs:1819-1864) *)
Definition update_existing (ex : Item) (remote : ReplicationInventoryItem)
    (source : Source) (online : bool) : CM unit :=
  w ← get;
  _ ← (if negb (Bool.eqb (item_is_enabled (w_store w) ex) (ri_enabled remote))
       then on_cells (item_set_enabled ex (ri_enabled remote)) else mret tt);
  if check_state remote && bool_decide (oid_kind (ri_oid remote) ≠ Lmacro) then
    match it_state ex with
    | Some st =>
        match rs_of_item remote with
        | Ok rs =>
            w ← get;
            let state := read_state (w_store w) st in
            if ieid_gtb (rs_ieid rs) (st_ieid state) then
              let state := set_from_rs rs state in
              _ ← on_cells (write_state st state);
              log_ef (announce_remote_state e (it_oid ex)
                (remote_of_local (local_state_event_of state) (src_node source) online) true)
            else mret tt
        | Err _ => mret tt
        end
    | None => mret tt
    end
  else mret tt.

(** One item of the inventory of a node that is known already
    (eva/src/core.rs:1806-1895) *)
Definition process_remote_item (existing : gmap OID Item) (source : Source) (online : bool)
    (remote : ReplicationInventoryItem) : CM unit :=
  w ← get;
  if src_is_destroyed (w_store w) source then mret tt
  else
    match existing !! ri_oid remote with
    | Some ex =>
        match it_source ex with
        | None => mret tt
        | Some _ =>
            if opt_value_eqb (it_meta ex) (ri_meta remote)
            then update_existing ex remote source online
            else append_and_announce remote source online
        end
    | None => append_and_announce remote source online
    end.

(** The items of the payload: those that are gone are removed, the others
    updated or registered (eva/src/core.rs:1789-1933) *)
Definition process_remote_items (existing_items : option (gmap OID Item))
    (remote_inv : gmap OID ReplicationInventoryItem) (source : Source) (online quick : bool)
    : CM unit :=
  match existing_items with
  | Some existing =>
      _ ← (if quick then mret tt
           else for_each (fun '(oid, _) =>
             w ← get;
             if src_is_destroyed (w_store w) source then mret tt
             else if bool_decide (is_Some (remote_inv !! oid)) then mret tt
             else _ ← on_inv (remove_item oid); mret tt) (map_to_list existing));
      for_each (fun '(_, remote) => process_remote_item existing source online remote)
        (map_to_list remote_inv)
  | None =>
      for_each (fun '(_, remote) =>
        w ← get;
        if src_is_destroyed (w_store w) source then mret tt
        else if check_state remote then append_and_announce remote source online
        else mret tt) (map_to_list remote_inv)
  end.

(** eva/src/core.rs:1729-1939 [Core::process_remote_inventory] *)
Definition process_remote_inventory (remote_inv : gmap OID ReplicationInventoryItem)
    (source_id sender : string) (quick : bool) : CM unit :=
  if String.prefix "." source_id then raise EInvalidParams
  else
    free ← (if quick then mret true else lock_source source_id);
    if negb free then mret tt
    else
      w ← get;
      let existing_items := get_items_by_source source_id (w_inventory w) in
      source ← on_inv (get_or_create_source source_id sender);
      w ← get;
      let online := src_is_online (w_store w) source in
      _ ← process_remote_items existing_items remote_inv source online quick;
      if quick then mret tt else unlock_source source_id.

(** ** Replicated state events *)

(** eva/src/core.rs:1943-2032 [Core::update_state_from_repl] *)
Definition update_state_from_repl (oid : OID) (rsex : ReplicationStateEventExtended)
    (sender : string) : CM unit :=
  let basic (rse : ReplicationStateEvent) : CM unit :=
    let rs := rse_state rse in
    _ ← match oid_kind oid with
        | Lmacro => raise ENotImplemented
        | Lvar | Sensor => match rs_act rs with Some _ => raise EInvalidData | None => mret tt end
        | Unit => mret tt
        end;
    w ← get;
    let maybe_item := get_item oid (w_inventory w) in
    item ← (if rse_force_accept rse then
              match maybe_item with
              | Some item => mret item
              | None =>
                  source ← on_inv (get_or_create_source (rse_node rse) sender);
                  on_inv (append_remote_item
                    (mkRItem oid None None (rs_act rs) (Some (ieid_new 0 0))
                       (Some f64_zero) None true) source)
              end
            else lift (ok_or maybe_item ENotFound));
    match it_state item with
    | Some state =>
        match it_source item with
        | Some source =>
            if negb (String.eqb (rse_node rse) (src_node source)) then raise EBusy
            else
              w ← get;
              let st := read_state (w_store w) state in
              if ieid_gtb (rs_ieid rs) (st_ieid st) then
                let st := set_from_rs rs st in
                _ ← on_cells (write_state state st);
                log_ef (announce_remote_state e oid
                  (remote_of_local (local_state_event_of st) (src_node source)
                     (src_is_online (w_store w) source)) true)
              else log_ef (announce_remote_state e oid (remote_of_rse rse) false)
        | None => mret tt
        end
    | None => mret tt
    end in
  match rsex with
  | RseBasic rse => basic rse
  | RseInventory node item => process_remote_inventory {[ oid := item ]} node sender true
  | RseBasicItem _ event => basic event
  end.

End replication.
