(* ===== verification/CoreSpec.v ===== *)
(** * Properties of the node core

    Frames first: what the operations of [Core] and [Replication] leave
    alone.  [quiet] steps touch neither the items nor the locks; [same_lock]
    steps leave the state processor lock as it was; [lock_free] steps may
    take it and give it back. *)
From S2P Require Import Prelude EvaCommon ItemState ItemTree Inventory Core Replication.

Section frames.
Context `{Ext : Externals} `{NExt : !NodeExternals}.
Variable (e : Env) (cfg : CoreConfig).

Implicit Types w : World.

Record quiet w w' : Prop := {
  quiet_inv : w_inv w' = w_inv w;
  quiet_nodes : w_nodes w' = w_nodes w;
  quiet_locked : w_locked w' = w_locked w;
  quiet_stp : w_stp w' = w_stp w;
  quiet_blocked : w_blocked w' = w_blocked w;
  quiet_initial : w_initial w' = w_initial w;
  quiet_tick : w_tick w <= w_tick w'
}.

#[global] Instance quiet_preorder : PreOrder quiet.
Proof.
  split; [by intros w; split|]. intros x y z [] []. split; try congruence. lia.
Qed.

Lemma time_now_quiet : keeps quiet (time_now e).
Proof. intros w. split; simpl; auto. Qed.
Lemma monotonic_ns_quiet : keeps quiet (monotonic_ns e).
Proof. intros w. split; simpl; auto. Qed.
Lemma io_call_quiet : keeps quiet (io_call e).
Proof. intros w. by split. Qed.
Lemma rpc_call_quiet m : keeps quiet (rpc_call e m).
Proof. intros w. by split. Qed.
Lemma add_bus_quiet m : keeps quiet (modify (add_bus m)).
Proof. intros w. by split. Qed.
Lemma add_db_quiet d : keeps quiet (modify (add_db d)).
Proof. intros w. by split. Qed.
Lemma set_saves_quiet f : keeps quiet (modify (fun w => set_saves (f w) w)).
Proof. intros w. by split. Qed.
Lemma add_dbs_quiet {A} (f : A -> DbOp) (l : list A) :
  keeps quiet (modify (fun w => foldl (fun w x => add_db (f x) w) w l)).
Proof.
  apply keeps_modify. induction l as [|x l IH]; intros w; simpl; [reflexivity|].
  etrans; [|apply IH]. by split.
Qed.
End frames.

#[export] Hint Resolve time_now_quiet monotonic_ns_quiet io_call_quiet rpc_call_quiet
  add_bus_quiet add_db_quiet set_saves_quiet add_dbs_quiet : keeps.

Section quiet.
Context `{Ext : Externals} `{NExt : !NodeExternals}.
Variable (e : Env) (cfg : CoreConfig).

Lemma publish_quiet m : keeps quiet (publish e m).
Proof. unfold publish. frame. Qed.
Lemma db_write_quiet d : keeps quiet (db_write e d).
Proof. unfold db_write. frame. Qed.
Lemma generate_ieid_quiet : keeps quiet (generate_ieid e cfg).
Proof. unfold generate_ieid. frame. Qed.
Lemma item_config_quiet item : keeps quiet (item_config e item).
Proof. unfold item_config. frame. Qed.

Hint Resolve publish_quiet db_write_quiet : keeps.

Lemma announce_remote_state_quiet oid st current :
  keeps quiet (announce_remote_state e oid st current).
Proof. unfold announce_remote_state. frame. Qed.
Lemma announce_local_state_quiet oid st : keeps quiet (announce_local_state e oid st).
Proof. unfold announce_local_state. frame. Qed.
Lemma save_item_state_quiet oid st : keeps quiet (save_item_state e cfg oid st).
Proof. unfold save_item_state. frame. Qed.
Lemma save_item_config_quiet oid c : keeps quiet (save_item_config e oid c).
Proof. unfold save_item_config. frame. Qed.
Lemma destroy_inventory_item_quiet oid : keeps quiet (destroy_inventory_item e cfg oid).
Proof. unfold destroy_inventory_item. frame. Qed.
Lemma schedule_save_quiet oid : keeps quiet (schedule_save oid).
Proof. unfold schedule_save. frame. Qed.
Lemma unschedule_save_quiet oid : keeps quiet (unschedule_save oid).
Proof. unfold unschedule_save. frame. Qed.
Hint Resolve schedule_save_quiet announce_local_state_quiet : keeps.
Lemma process_new_state_quiet oid s db : keeps quiet (process_new_state e cfg oid s db).
Proof. unfold process_new_state. frame. Qed.
End quiet.

#[export] Hint Resolve publish_quiet db_write_quiet generate_ieid_quiet item_config_quiet
  announce_remote_state_quiet announce_local_state_quiet save_item_state_quiet
  save_item_config_quiet destroy_inventory_item_quiet schedule_save_quiet
  unschedule_save_quiet process_new_state_quiet : keeps.

(** ** The state processor lock *)

Section lock.
Context `{Ext : Externals} `{NExt : !NodeExternals}.
Variable (e : Env) (cfg : CoreConfig).

Implicit Types w : World.

Record same_lock w w' : Prop := {
  same_stp : w_stp w' = w_stp w;
  same_blocked : w_blocked w' = w_blocked w
}.
#[global] Instance same_lock_preorder : PreOrder same_lock.
Proof. split; [by intros w; split|]. intros x y z [] []. split; congruence. Qed.

(** Run while nobody holds the lock, the step neither blocks nor keeps it. *)
Definition lock_free w w' : Prop := w_stp w = false -> same_lock w w'.
#[global] Instance lock_free_preorder : PreOrder lock_free.
Proof.
  split; [by intros w|]. intros x y z Hxy Hyz Hx.
  destruct (Hxy Hx) as [Hs Hb]. etrans; [by apply Hxy|]. apply Hyz. congruence.
Qed.

#[global] Instance quiet_same_lock : subrelation quiet same_lock.
Proof. intros w w' []. by split. Qed.
#[global] Instance same_lock_lock_free : subrelation same_lock lock_free.
Proof. intros w w' H _. done. Qed.

Lemma keeps_quiet_same {A} (m : M World A) : keeps quiet m -> keeps same_lock m.
Proof. apply keeps_sub, _. Qed.
Lemma keeps_same_free {A} (m : M World A) : keeps same_lock m -> keeps lock_free m.
Proof. apply keeps_sub, _. Qed.
Lemma on_inv_same {A} (m : M Inv A) : keeps same_lock (on_inv m).
Proof. intros w. unfold on_inv. by destruct (m (w_inv w)). Qed.
Lemma on_cells_same f : keeps same_lock (on_cells f).
Proof. intros w. by split. Qed.

Lemma with_stp_free {A} lock (body : M World A) :
  keeps same_lock body -> keeps lock_free (with_stp lock body).
Proof.
  intros Hb w Hw. unfold with_stp. destruct lock; [|by apply keeps_same_free].
  unfold stp_acquire, stp_release. unfold_m. rewrite Hw.
  destruct (Hb (set_stp true (w_blocked w) w)) as [_ Hb'].
  destruct (body _) as [r w']; simpl in *. by split.
Qed.
Lemma with_stp_same {A} (body : M World A) :
  keeps same_lock body -> keeps same_lock (with_stp false body).
Proof. done. Qed.
End lock.

#[export] Hint Resolve keeps_quiet_same keeps_same_free on_inv_same on_cells_same
  with_stp_free with_stp_same : keeps.
#[export] Hint Extern 1 (keeps same_lock _) =>
  apply keeps_quiet_same; solve [eauto 4 with keeps nocore] : keeps.

Section raw_lock.
Context `{Ext : Externals} `{NExt : !NodeExternals}.
Variable (e : Env) (cfg : CoreConfig).

Implicit Types w : World.

Lemma process_raw_locked_same item l raw :
  keeps same_lock (process_raw_locked e cfg item l raw).
Proof. unfold process_raw_locked. frame. Qed.

Lemma append_config_same val : keeps same_lock (append_config e cfg val).
Proof. unfold append_config. frame. Qed.

Hint Resolve process_raw_locked_same append_config_same : keeps.

Lemma add_configs_quiet (saved : list (OID * Value)) :
  keeps quiet (modify (fun w => foldl (fun w '(oid, c) => add_db (DbSaveConfig oid c) w) w saved)).
Proof.
  apply keeps_modify. induction saved as [|[] saved IH]; intros w; simpl; [reflexivity|].
  etrans; [|apply IH]. by split.
Qed.
Hint Resolve add_configs_quiet : keeps.

Lemma deploy_lock_free configs lock :
  keeps lock_free (deploy_local_items e cfg configs lock).
Proof. unfold deploy_local_items. frame; apply with_stp_free; frame. Qed.

Lemma deploy_unlocked_same configs :
  keeps same_lock (deploy_local_items e cfg configs false).
Proof. unfold deploy_local_items. frame; apply with_stp_same; frame. Qed.

Lemma apply_delta_leaf delta on_negative force t rw :
  apply_delta delta on_negative force t = Some rw -> raw_on_modified rw = None.
Proof. unfold apply_delta. intros. by split_matches. Qed.

(** What follows an event does not take the lock, unless it creates an item. *)
Lemma process_modified_free raw om really force delta t sender :
  (forall item rw s, raw_on_modified rw = None -> keeps same_lock (raw item rw false s)) ->
  keeps lock_free (process_modified e cfg raw om really force delta t sender).
Proof.
  intros Hraw. unfold process_modified, auto_create_item_from_raw.
  frame; try (by eapply deploy_lock_free); apply keeps_same_free, Hraw; try done;
    split_matches; eauto using apply_delta_leaf.
Qed.

Lemma process_raw_leaf_same depth item raw sender :
  raw_on_modified raw = None ->
  keeps same_lock (process_raw_state e cfg depth item raw false sender).
Proof. intros Hn. destruct depth; simpl; [frame|]. rewrite Hn. frame. Qed.

Lemma process_raw_state_free depth item raw lock sender :
  keeps lock_free (process_raw_state e cfg depth item raw lock sender).
Proof.
  destruct depth; simpl; [frame|]. frame.
  apply process_modified_free. intros. by apply process_raw_leaf_same.
Qed.

(** Two call backs that agree on events without followers are the same. *)
Lemma process_modified_ext raw raw' om really force delta t sender w :
  (forall item rw lock s w, raw_on_modified rw = None -> raw item rw lock s w = raw' item rw lock s w) ->
  process_modified e cfg raw om really force delta t sender w =
  process_modified e cfg raw' om really force delta t sender w.
Proof.
  intros Hr.
  assert (forall item rw s w, raw_on_modified rw = None ->
    log_ef (raw item rw false s) w = log_ef (raw' item rw false s) w) as Hl.
  { intros. unfold log_ef. by rewrite Hr. }
  destruct om as [oids status value|oid on_error on_negative period]; simpl.
  - destruct really; [|done]. apply for_each_ext. intros mask w'. rewrite !run_bind. simpl.
    apply for_each_ext. auto.
  - destruct delta as [d|]; [|done]. rewrite !run_bind. simpl.
    split_matches; rewrite Hl; eauto using apply_delta_leaf.
Qed.

(** The event makes the core compute a delta for another item. *)
Definition has_delta (raw : RawStateEvent) : bool :=
  match raw_on_modified raw with Some (SetOtherValueDelta _ _ _ _) => true | _ => false end.

Lemma process_raw_unlocked_same depth item raw sender :
  auto_create_allowed (auto_create cfg) sender = false \/ has_delta raw = false ->
  keeps same_lock (process_raw_state e cfg depth item raw false sender).
Proof.
  intros Hd. destruct depth; simpl; [frame|]. frame.
  assert (forall depth item rw s, raw_on_modified rw = None ->
    keeps same_lock (process_raw_state e cfg depth item rw false s)) as Hraw
    by eauto using process_raw_leaf_same.
  unfold has_delta in Hd. unfold process_modified.
  match goal with H : raw_on_modified raw = Some ?om |- _ => rewrite H in Hd; destruct om end;
    [frame; by apply Hraw|].
  destruct Hd as [Hd|]; [|done]. rewrite Hd. frame; apply Hraw; try done;
    split_matches; eauto using apply_delta_leaf.
Qed.

Lemma process_raw_leaf_depth n item raw lock sender w :
  raw_on_modified raw = None ->
  process_raw_state e cfg (S n) item raw lock sender w =
  process_raw_state e cfg 1 item raw lock sender w.
Proof. intros Hn. simpl. by rewrite Hn. Qed.

(** The recursion of [process_raw_state] through [process_modified] ends
    after one level: the events that follow an event have no followers, so
    every depth above one gives the same result. *)
Lemma process_raw_state_depth n item raw lock sender w :
  process_raw_state e cfg (raw_depth + n) item raw lock sender w =
  process_raw_state e cfg raw_depth item raw lock sender w.
Proof.
  unfold raw_depth. simpl. destruct (it_source item); [done|]. rewrite !run_bind. simpl.
  destruct (_ && _); [done|]. destruct (it_state item) as [l|]; [|done].
  rewrite !run_bind. destruct (with_stp _ _ _) as [[[[rm d]|]|] w']; try done.
  destruct (raw_on_modified raw); [|done]. apply process_modified_ext.
  intros. by apply (process_raw_leaf_depth n).
Qed.

(** A raw event for one item never waits for the state processor lock
    that its own task holds: started with a free lock, the update ends with a
    free lock and without blocking, whatever follows the event (writes to
    other items, deltas, automatic creation). *)
Lemma raw_update_never_blocks oid raw sender w :
  w_stp w = false ->
  let w' := (update_state_from_raw e cfg oid raw sender w).2 in
  w_stp w' = false /\ w_blocked w' = w_blocked w.
Proof.
  intros Hw.
  assert (keeps lock_free (update_state_from_raw e cfg oid raw sender)) as Hk.
  { unfold update_state_from_raw, auto_create_item_from_raw.
    frame; eauto using process_raw_state_free, deploy_lock_free. }
  destruct (Hk w Hw) as [Hs Hb]. split; congruence.
Qed.

(** A frame of raw events never blocks either, if it does not make the
    core create an item for a delta: the sender is not allowed to create
    items, or no event of the frame asks for the delta of another item. *)
Lemma raw_bulk_never_blocks raw sender w :
  w_stp w = false ->
  auto_create_allowed (auto_create cfg) sender = false \/
    Forall (fun r => has_delta r.2 = false) raw ->
  let w' := (update_state_from_raw_bulk e cfg raw sender w).2 in
  w_stp w' = false /\ w_blocked w' = w_blocked w.
Proof.
  intros Hw Hd.
  assert (keeps lock_free (update_state_from_raw_bulk e cfg raw sender)) as Hk.
  { unfold update_state_from_raw_bulk, auto_create_item_from_raw_bulk.
    apply keeps_bind; [frame|]. intros w0. apply with_stp_free.
    apply keeps_bind; [|intros []; frame; eauto using deploy_unlocked_same].
    apply keeps_for_each. intros [item r] Hin. apply keeps_log_ef.
    apply process_raw_unlocked_same. destruct Hd as [?|Hd]; [by left|right].
    apply list_elem_of_omap in Hin as ([oid r'] & Hin & He).
    destruct (get_item oid _); simplify_eq/=.
    apply list_elem_of_filter in Hin as [_ Hin].
    rewrite Forall_forall in Hd. by apply (Hd _ Hin). }
  destruct (Hk w Hw) as [Hs Hb]. split; congruence.
Qed.

End raw_lock.
