(* ===== verification/CoreInvariant.v ===== *)
(** * Invariants of the node core

    [good_step] is what every operation of the core keeps: the indexes of
    the inventory agree, and a state cell is either left alone or gets a
    newer event id.  It is proved for every operation, and then for every
    sequence of operations in which no node takes over an item of another. *)
From S2P Require Import Prelude EvaCommon ItemState ItemTree Inventory Core Replication CoreSpec.

Section good.
Context `{Ext : Externals} `{NExt : !NodeExternals} `{!IeidLaws}.
Variable (e : Env) (cfg : CoreConfig).

Implicit Types w : World.

Definition inv_good (i : Inv) : Prop := exists m, inv_ok i m.

(** The [k]-th event id the core can generate. *)
Definition gen (k : nat) : IEID := ieid_new (boot_id cfg) (env_ns e k).

(** From one state of a cell to a later one, between two ticks: the same,
    or with a greater event id, or with an id not older than one generated
    in between. *)
Definition advances (t t' : nat) (st st' : ItemState) : Prop :=
  st' = st \/ ieid_gtb (st_ieid st') (st_ieid st) = true \/
  exists k, t <= k < t' /\
    (st_ieid st' = gen k \/ ieid_gtb (st_ieid st') (gen k) = true).

Lemma advances_refl t t' st : advances t t' st st.
Proof. by left. Qed.

Lemma advances_trans t1 t2 t3 st1 st2 st3 :
  t1 <= t2 <= t3 -> advances t1 t2 st1 st2 -> advances t2 t3 st2 st3 ->
  advances t1 t3 st1 st3.
Proof.
  intros Ht H12 [-> |[H23|(k & Hk & H23)]].
  - destruct H12 as [-> |[?|(k & ? & ?)]]; [by left|by right; left|].
    right. right. exists k. split; [lia|done].
  - destruct H12 as [-> |[?|(k & ? & Hk)]]; right; [by left|left|right].
    + by eapply ieid_gtb_trans.
    + exists k. split; [lia|]. right. destruct Hk as [<- |]; [done|].
      by eapply ieid_gtb_trans.
  - right. right. exists k. split; [lia|done].
Qed.

Record good_step' w w' : Prop := {
  good_inv : inv_good (w_inv w');
  good_tick : w_tick w <= w_tick w';
  good_cells l st :
    s_state (w_store w) !! l = Some st ->
    exists st', s_state (w_store w') !! l = Some st' /\
      advances (w_tick w) (w_tick w') st st';
  good_sources l : is_Some (s_source (w_store w) !! l) -> is_Some (s_source (w_store w') !! l)
}.
Definition good_step w w' : Prop := inv_good (w_inv w) -> good_step' w w'.

#[global] Instance good_step_preorder : PreOrder good_step.
Proof.
  split.
  - intros w Hw. split; [done|done| |done]. intros l st Hl. exists st. split; [done|by left].
  - intros x y z Hxy Hyz Hx. destruct (Hxy Hx) as [Hy Ht Hc Hf].
    destruct (Hyz Hy) as [Hz Ht' Hc' Hf']. split; [done|lia| |auto].
    intros l st (st1 & (st2 & ? & ?)%Hc' & ?)%Hc. exists st2. split; [done|].
    eapply advances_trans; [|done|done]. lia.
Qed.

Lemma good_cells_same w w' :
  inv_good (w_inv w') -> w_tick w <= w_tick w' ->
  (forall l st, s_state (w_store w) !! l = Some st -> s_state (w_store w') !! l = Some st) ->
  (forall l, is_Some (s_source (w_store w) !! l) -> is_Some (s_source (w_store w') !! l)) ->
  good_step' w w'.
Proof.
  intros ?? Hc Hf. split; [done|done| |done]. intros l st ?%Hc. exists st. split; [done|by left].
Qed.

(** Steps that do not touch the inventory. *)
Record same_inv w w' : Prop := {
  same_inv_inv : w_inv w' = w_inv w;
  same_inv_tick : w_tick w <= w_tick w'
}.
#[global] Instance same_inv_preorder : PreOrder same_inv.
Proof. split; [by intros w; split|]. intros x y z [] []. split; [congruence|lia]. Qed.

Lemma keeps_quiet_same_inv {A} (m : M World A) : keeps quiet m -> keeps same_inv m.
Proof. apply keeps_sub. intros w w' []. by split. Qed.
Lemma same_inv_modify f :
  (forall w, w_inv (f w) = w_inv w) -> (forall w, w_tick (f w) = w_tick w) ->
  keeps same_inv (modify f).
Proof. intros Hi Ht. apply keeps_modify. intros w. split; [done|]. by rewrite Ht. Qed.
Lemma stp_acquire_same_inv : keeps same_inv stp_acquire.
Proof. apply same_inv_modify; intros w; by destruct (w_stp w). Qed.
Lemma stp_release_same_inv : keeps same_inv stp_release.
Proof. by apply same_inv_modify. Qed.

Lemma same_inv_good w w' : same_inv w w' -> good_step w w'.
Proof.
  intros [Hi Ht] Hw. apply good_cells_same; [by rewrite Hi|done| |];
    unfold w_store; by rewrite Hi.
Qed.
Lemma keeps_same_inv_good {A} (m : M World A) : keeps same_inv m -> keeps good_step m.
Proof. apply keeps_sub. intros w w'. apply same_inv_good. Qed.

(** A frame under a condition that it keeps. *)
Definition under (P : World -> Prop) (R : relation World) w w' : Prop := P w -> R w w' /\ P w'.
#[global] Instance under_preorder P R : PreOrder R -> PreOrder (under P R).
Proof.
  intros [Hr Ht]. split.
  - intros w Hw. split; [apply Hr|done].
  - intros x y z Hxy Hyz Hx. destruct (Hxy Hx) as [? Hy]. destruct (Hyz Hy).
    split; [by eapply Ht|done].
Qed.

(** Operations on the inventory. *)
Lemma on_inv_good {A} (m : M Inv A) w :
  keeps grows m -> inv_good (w_inv w) -> inv_good (m (w_inv w)).2 ->
  good_step' w (on_inv m w).2.
Proof.
  intros Hg [f Hw] Hw'. specialize (Hg (w_inv w)). unfold on_inv.
  destruct (m (w_inv w)) as [r i]; simpl in *.
  assert (fresh_ok (store (w_inv w))) as Hf by (destruct (ok_store _ _ Hw); by split).
  apply good_cells_same; simpl; [done|done| |].
  - intros l st Hl. by apply (grows_cells _ _ Hg).
  - intros l [x Hl]. exists x. by apply (grows_sources _ _ Hg).
Qed.

Lemma write_flag_good l b : keeps good_step (on_cells (write_flag l b)).
Proof.
  intros w [f Hw]. apply good_cells_same; simpl; [|done|done|done].
  exists f. by apply (inv_ok_write_flag (w_inv w)).
Qed.
Lemma update_source_good l f : keeps good_step (on_cells (update_source l f)).
Proof.
  intros w [m Hw]. apply good_cells_same; simpl; [|done|done|].
  - exists m. by apply (inv_ok_update_source (w_inv w)).
  - intros l'. by apply update_source_le.
Qed.

(** A write to a state cell. *)
Lemma write_state_good l st' w :
  (forall st, s_state (w_store w) !! l = Some st ->
    st' = st \/ ieid_gtb (st_ieid st') (st_ieid st) = true) ->
  good_step w (on_cells (write_state l st') w).2.
Proof.
  intros Hst [f Hw]. split; simpl; [|done| |done].
  - exists f. by apply (inv_ok_write_state (w_inv w)).
  - intros l' st Hl. unfold w_store in *. simpl. destruct (decide (l = l')) as [<-|].
    + exists st'. rewrite lookup_alter_eq, Hl. split; [done|].
      destruct (Hst _ Hl) as [-> | ?]; [by left|by right; left].
    + exists st. rewrite lookup_alter_ne by done. split; [done|by left].
Qed.

(** A write with an event id generated since [w0]. *)
Lemma write_state_gen_good l st' k w0 w :
  good_step w0 w -> w_tick w0 <= k < w_tick w ->
  (forall st, s_state (w_store w) !! l = Some st -> st' = st \/ st_ieid st' = gen k) ->
  good_step w0 (on_cells (write_state l st') w).2.
Proof.
  intros Hg Hk Hst Hw. destruct (Hg Hw) as [[f Hf] Ht Hc Hfl]. split; simpl; [|done| |done].
  - exists f. by apply (inv_ok_write_state (w_inv w)).
  - intros l' st (st1 & Hl & Ha)%Hc. unfold w_store in *. simpl.
    destruct (decide (l = l')) as [<-|].
    + exists st'. rewrite lookup_alter_eq, Hl. split; [done|].
      destruct (Hst _ Hl) as [-> | ?]; [done|]. right. right. exists k. auto.
    + exists st1. rewrite lookup_alter_ne by done. done.
Qed.

End good.

#[export] Hint Resolve keeps_quiet_same_inv keeps_same_inv_good stp_acquire_same_inv
  stp_release_same_inv write_flag_good update_source_good : keeps.

Section operations.
Context `{Ext : Externals} `{NExt : !NodeExternals} `{!IeidLaws} `{!OidLaws}.
Variable (e : Env) (cfg : CoreConfig).

Implicit Types w : World.

Abbreviation good := (good_step e cfg).

Lemma fmap_snd {S A B} (f : A -> B) (m : M S A) s : ((f <$> m) s).2 = (m s).2.
Proof. rewrite run_fmap. by destruct (m s) as [[] ?]. Qed.

Lemma create_item_good oid ieid from now : keeps good (on_inv (create_item oid ieid from now)).
Proof.
  intros w [m Hw]. apply on_inv_good; [apply create_item_grows|by exists m|].
  pose proof (step_create _ _ oid ieid from now Hw) as Hs. unfold step_ok in Hs. simpl in Hs.
  rewrite fmap_snd in Hs. by eexists.
Qed.

Lemma remove_item_good oid : keeps good (on_inv (remove_item oid)).
Proof.
  intros w [m Hw]. apply on_inv_good; [apply remove_item_grows|by exists m|].
  destruct (remove_item_ok _ _ oid Hw) as (s' & -> & _ & ?). by eexists.
Qed.

Lemma get_or_create_source_good id svc : keeps good (on_inv (get_or_create_source id svc)).
Proof.
  intros w [m Hw]. apply on_inv_good; [apply get_or_create_source_grows|by exists m|].
  destruct (get_or_create_source_ok _ _ id svc Hw) as (src & σ & -> & ? & _). by eexists.
Qed.

Lemma mark_source_online_good id b : keeps good (on_inv (mark_source_online id b)).
Proof.
  intros w [m Hw]. unfold on_inv, mark_source_online, src_mark_online. unfold_m.
  destruct (sources _ !! id); simpl; [|apply same_inv_good; [|by exists m]].
  - by apply (update_source_good e cfg _ _ w); exists m.
  - split; simpl; done.
Qed.

(** *** Deploying over local items only *)

(** None of the OIDs belongs to another node. *)
Definition local_oids (oids : list OID) w : Prop :=
  inv_good (w_inv w) /\
  forall o old, o ∈ oids -> get_item o (w_inventory w) = Some old -> node_of old = None.

Lemma same_inv_under oids {A} (m : M World A) :
  keeps same_inv m -> keeps (under (local_oids oids) good) m.
Proof.
  intros Hm w Hw. pose proof (Hm w) as Hs. split; [by apply same_inv_good|].
  unfold local_oids, w_inventory in *. by rewrite (same_inv_inv _ _ Hs).
Qed.

Lemma append_config_under oids val :
  cf_oid val ∈ oids -> keeps (under (local_oids oids) good) (append_config e cfg val).
Proof.
  intros Hin. unfold append_config.
  apply keeps_bind; [apply same_inv_under; frame|intros now].
  apply keeps_bind; [apply same_inv_under; frame|intros ns].
  intros w [[m Hw] Hl].
  assert (no_clash (OpDeploy val (boot_id cfg) now ns) m) as Hc.
  { intros old Ho. apply (Hl (cf_oid val)); [done|]. unfold w_inventory.
    rewrite (get_item_repr _ m); [done|apply Hw]. }
  destruct (append_config_ok _ _ _ _ _ _ Hw Hc) as (m' & Hok & Hm').
  split; [intros _; apply on_inv_good; [apply append_config_grows|by exists m|by exists m']|].
  unfold on_inv. destruct (append_item_from_config_data _ _ _ _ _) as [r i]; simpl in *.
  split; [by exists m'|]. intros o old Ho. unfold w_inventory. simpl.
  rewrite (get_item_repr _ m' _ (ok_repr _ _ Hok)).
  intros [Hold|[_ Hs]]%Hm'; [|unfold node_of; by rewrite Hs].
  apply (Hl o); [done|]. unfold w_inventory.
  by rewrite (get_item_repr _ m _ (ok_repr _ _ Hw)).
Qed.

Hint Resolve same_inv_under create_item_good remove_item_good get_or_create_source_good
  mark_source_online_good add_configs_quiet append_config_under : keeps.

Lemma with_stp_keeps (R : relation World) `{!PreOrder R} {A} lock (body : M World A) :
  (forall B (m : M World B), keeps same_inv m -> keeps R m) ->
  keeps R body -> keeps R (with_stp lock body).
Proof.
  intros Hs Hb. unfold with_stp. destruct lock; [|done].
  apply keeps_bind; [apply Hs; frame|intros _].
  apply keeps_bind; [by apply keeps_attempt|intros r].
  apply keeps_bind; [apply Hs; frame|intros _]. frame.
Qed.

Lemma deploy_under oids configs lock :
  (forall cf, cf ∈ configs -> cf_oid cf ∈ oids) ->
  keeps (under (local_oids oids) good) (deploy_local_items e cfg configs lock).
Proof.
  intros Hin. unfold deploy_local_items.
  frame; (apply with_stp_keeps; [apply _|eauto with keeps|frame]).
Qed.

Lemma deploy_good configs lock w :
  (forall cf old, cf ∈ configs -> get_item (cf_oid cf) (w_inventory w) = Some old ->
    node_of old = None) ->
  good w (deploy_local_items e cfg configs lock w).2.
Proof.
  intros Hl Hw. apply (deploy_under (cf_oid <$> configs)); [|split; [done|]|done].
  - intros. by apply list_elem_of_fmap_2.
  - intros o old (cf & -> & Hcf)%list_elem_of_fmap. by apply Hl.
Qed.

Lemma auto_create_under oids oid raw sender w :
  get_item oid (w_inventory w) = None ->
  under (local_oids oids) good w (auto_create_item_from_raw e cfg oid raw sender w).2.
Proof.
  intros Hn [Hw Hl]. unfold auto_create_item_from_raw. case_match; [by split; [intros|split]|].
  unfold log_ef. simpl.
  destruct (deploy_under (oid :: oids) [config_from_raw_event oid raw sender] true) with w
    as [Hg [Hw' Hl']].
  - intros cf ->%list_elem_of_singleton. apply elem_of_cons. by left.
  - split; [done|]. intros o old [-> |]%elem_of_cons; [by rewrite Hn|by apply Hl].
  - split; [done|]. split; [done|]. intros o old Ho. apply Hl', elem_of_cons. by right.
Qed.

(** *** Raw events *)

(** Steps that do not touch the indexes. *)
Definition same_index w w' : Prop := w_inventory w' = w_inventory w.
#[local] Instance same_index_preorder : PreOrder same_index.
Proof. split; [by intros w|]. unfold same_index. intros x y z ? ?. congruence. Qed.
Lemma keeps_same_inv_index {A} (m : M World A) : keeps same_inv m -> keeps same_index m.
Proof.
  apply keeps_sub. intros w w' [Hi _]. unfold same_index, w_inventory. by rewrite Hi.
Qed.
Lemma on_cells_index f : keeps same_index (on_cells f).
Proof. by intros w. Qed.
Hint Resolve keeps_same_inv_index on_cells_index : keeps.

Lemma process_raw_locked_index item l raw :
  keeps same_index (process_raw_locked e cfg item l raw).
Proof. unfold process_raw_locked. frame. Qed.

Lemma same_index_under oids {A} (m : M World A) :
  keeps good m -> keeps same_index m -> keeps (under (local_oids oids) good) m.
Proof.
  intros Hg Hi w [Hw Hl]. split; [apply Hg|]. split; [by apply Hg|].
  by rewrite (Hi w).
Qed.

Lemma process_raw_locked_good item l raw :
  keeps good (process_raw_locked e cfg item l raw).
Proof.
  intros w. unfold process_raw_locked. rewrite run_bind. simpl. rewrite run_bind. simpl.
  rewrite run_bind. simpl.
  set (w2 := set_tick (S (S (w_tick w))) (set_tick (S (w_tick w)) w)).
  assert (good w w2) as Hg by (apply same_inv_good; split; simpl; [done|lia]).
  destruct (_ && _ && _); [exact Hg|].
  pose proof (set_from_raw_report raw (it_logic item) (boot_id cfg) (env_now e (w_tick w))
    (env_ns e (S (w_tick w))) (read_state (w_store w2) l)) as Hr.
  destruct (set_from_raw _ _ _ _ _ _) as [md st']. destruct Hr as (_ & Hsame & _ & Hgen).
  rewrite run_bind. unfold on_cells at 1. unfold modify at 1.
  set (w3 := set_inv _ w2).
  assert (good w w3) as Hg3.
  { apply (write_state_gen_good e cfg l st' (S (w_tick w)) w w2); [done|simpl; lia|].
    intros st <-%read_state_Some.
    destruct md; [right; by apply Hgen; left|].
    destruct (decide (raw_force raw = ForceNone)); [left; by apply Hsame|right].
    by apply Hgen; right. }
  destruct (md || _); [|exact Hg3].
  assert (forall s_state db_st, keeps good (_ ← process_new_state e cfg (it_oid item) s_state db_st;
    mret (Some (md, raw_delta raw (read_state (w_store w2) l) (env_now e (w_tick w))))))
    as Hk by (intros; frame).
  etrans; [exact Hg3|]. apply Hk.
Qed.

Hint Resolve process_raw_locked_good : keeps.

Lemma process_modified_under oids raw om really force delta t sender :
  (forall item rw lock s, keeps (under (local_oids oids) good) (raw item rw lock s)) ->
  keeps (under (local_oids oids) good) (process_modified e cfg raw om really force delta t sender).
Proof.
  intros Hraw. unfold process_modified. destruct om; [frame; apply Hraw|].
  destruct delta; [|frame]. apply keeps_get_bind. intros w.
  destruct (get_item oid (w_inventory w)) as [item|] eqn:E; case_match; try reflexivity.
  - apply Hraw.
  - case_match; [|reflexivity]. by apply auto_create_under.
Qed.

Lemma process_raw_state_under oids depth item raw lock sender :
  keeps (under (local_oids oids) good) (process_raw_state e cfg depth item raw lock sender).
Proof.
  revert item raw lock sender. induction depth as [|depth IH]; intros; simpl; [frame|]. frame.
  - apply with_stp_keeps; [apply _|eauto with keeps|].
    apply same_index_under; [frame|apply process_raw_locked_index].
  - by apply process_modified_under.
Qed.

Lemma under_good oids {A} (m : M World A) w :
  keeps (under (local_oids oids) good) m -> local_oids oids w -> good w (m w).2.
Proof. intros Hm Hw. by apply Hm. Qed.

Lemma local_oids_nil w : inv_good (w_inv w) -> local_oids [] w.
Proof. split; [done|]. by intros o old ?%not_elem_of_nil. Qed.

Lemma update_state_from_raw_good oid raw sender :
  keeps good (update_state_from_raw e cfg oid raw sender).
Proof.
  unfold update_state_from_raw. case_match; [frame|]. apply keeps_get_bind. intros w Hw.
  pose proof (local_oids_nil w Hw).
  destruct (get_item _ _) eqn:E; [by eapply (under_good []); [apply process_raw_state_under|..]|].
  case_match; [by apply (auto_create_under [])|exact (reflexivity (R := good) w Hw)].
Qed.

(** *** Lvar operations *)

Lemma create_local_item_good oid : keeps good (create_local_item e cfg oid).
Proof. unfold create_local_item. frame. Qed.

Lemma lvar_apply_ieid op ieid now st st' v :
  lvar_apply op ieid now st = Ok (st', v) -> st_ieid st' = ieid.
Proof. unfold lvar_apply, force_set_state. destruct op; intros; simplify_eq/=; by split_matches. Qed.

Hint Resolve create_local_item_good : keeps.

Lemma lvar_update_good oid op lvar st : keeps good (lvar_update e cfg oid op lvar st).
Proof.
  intros w. unfold lvar_update, generate_ieid. do 2 rewrite run_bind. simpl.
  unfold mret at 1, M_ret at 1. rewrite run_bind. simpl. rewrite run_bind. simpl.
  set (w2 := set_tick (S (S (w_tick w))) (set_tick (S (w_tick w)) w)).
  assert (good w w2) as Hg by (apply same_inv_good; split; simpl; [done|lia]).
  rewrite run_bind. unfold lift.
  destruct (lvar_apply _ _ _ _) as [[st' v]|] eqn:El; [|exact Hg].
  rewrite run_bind. unfold on_cells at 1. unfold modify at 1. set (w3 := set_inv _ w2).
  assert (good w w3) as Hg3.
  { apply (write_state_gen_good e cfg st st' (w_tick w) w w2); [done|simpl; lia|].
    intros ? _. right. by apply lvar_apply_ieid in El. }
  assert (forall s_state db_st, keeps good (_ ← process_new_state e cfg oid s_state db_st; mret v))
    as Hk by (intros; frame).
  etrans; [exact Hg3|]. apply Hk.
Qed.
Hint Resolve lvar_update_good : keeps.

Lemma lvar_op_good oid op method source : keeps good (lvar_op e cfg oid op method source).
Proof. unfold lvar_op, get_or_crete_lvar. frame. Qed.

(** *** Bulk events and the other operations on local items *)

Lemma update_bulk_good raw sender : keeps good (update_state_from_raw_bulk e cfg raw sender).
Proof.
  unfold update_state_from_raw_bulk. apply keeps_get_bind. intros w Hw.
  set (raw' := filter _ raw).
  set (to_create := if auto_create_allowed _ _ then _ else _).
  apply (under_good to_create.*1); [|split; [done|]|done].
  - apply with_stp_keeps; [apply _|eauto with keeps|].
    apply keeps_bind; [|intros _; case_match; [frame|]].
    + apply keeps_for_each. intros [item r] _. apply keeps_log_ef, process_raw_state_under.
    + apply keeps_log_ef, deploy_under. intros cf ([o r] & -> & Hin)%list_elem_of_fmap.
      simpl. by apply (list_elem_of_fmap_2 fst) in Hin.
  - intros o old ([o' r] & -> & Hin)%list_elem_of_fmap. unfold to_create in Hin.
    destruct (auto_create_allowed _ _); [|by apply not_elem_of_nil in Hin].
    apply list_elem_of_filter in Hin as [Hn _]. simpl in *. by rewrite Hn.
Qed.

Lemma destroy_local_items_good mask : keeps good (destroy_local_items e cfg mask).
Proof. unfold destroy_local_items. frame. Qed.

Lemma undeploy_good oids : keeps good (undeploy_local_items e cfg oids).
Proof. unfold undeploy_local_items. frame. Qed.

Lemma set_enabled_good mask b : keeps good (set_local_items_enabled e mask b).
Proof. unfold set_local_items_enabled, item_set_enabled. frame. Qed.

Lemma core_save_good : keeps good (core_save e cfg).
Proof. unfold core_save. frame. Qed.

Hint Resolve process_raw_locked_index update_bulk_good : keeps.

(** *** Sources *)

Lemma set_locked_same_inv f : keeps same_inv (modify (fun w => set_locked (f w) w)).
Proof. by apply same_inv_modify. Qed.
Lemma set_nodes_same_inv f : keeps same_inv (modify (fun w => set_nodes (f w) w)).
Proof. by apply same_inv_modify. Qed.
Hint Resolve set_locked_same_inv set_nodes_same_inv : keeps.

Lemma lock_source_same_inv id : keeps same_inv (lock_source id).
Proof. unfold lock_source. frame. Qed.
Lemma unlock_source_same_inv id : keeps same_inv (unlock_source id).
Proof. unfold unlock_source. frame. Qed.
Lemma mark_core_node_same_inv id svc online info timeout :
  keeps same_inv (mark_core_node_online id svc online info timeout).
Proof. unfold mark_core_node_online. frame. Qed.
Hint Resolve lock_source_same_inv unlock_source_same_inv mark_core_node_same_inv : keeps.

Lemma destroy_source_good id : keeps good (destroy_source id).
Proof. unfold destroy_source, src_mark_destroyed. frame. Qed.

(** Writing a state with the event id of tick [k]. *)
Lemma set_source_sensor_good id online : keeps good (set_source_sensor e cfg id online).
Proof.
  unfold set_source_sensor. apply keeps_bind; [frame|intros oid].
  apply keeps_bind; [frame|intros w0]. intros w. rewrite run_bind.
  unfold generate_ieid. rewrite run_bind. simpl. unfold mret at 1, M_ret at 1.
  set (w1 := set_tick (S (w_tick w)) w).
  assert (forall r w2, (match get_item oid (w_inventory w0) with
    | Some item => mret item
    | None => now ← time_now e;
        on_inv (create_item oid (Some (ieid_new (boot_id cfg) (env_ns e (w_tick w)))) None now)
    end) w1 = (r, w2) -> good w1 w2) as Hc.
  { intros r w2 E. assert (keeps good (match get_item oid (w_inventory w0) with
      | Some item => mret item
      | None => now ← time_now e;
        on_inv (create_item oid (Some (ieid_new (boot_id cfg) (env_ns e (w_tick w)))) None now)
      end)) as Hk by frame. specialize (Hk w1). by rewrite E in Hk. }
  assert (good w w1) as Hg1 by (apply same_inv_good; split; simpl; [done|lia]).
  rewrite run_bind. lazymatch goal with |- context [match ?x w1 with _ => _ end] =>
    destruct (x w1) as [r w2] eqn:E end.
  specialize (Hc _ _ E). destruct r as [item|]; [|by etrans].
  rewrite run_bind. unfold lift. destruct (ok_or (it_state item) ECore) as [l|]; [|by etrans].
  rewrite run_bind. simpl. rewrite run_bind. simpl. rewrite run_bind.
  unfold on_cells at 1. unfold modify at 1. set (w3 := set_tick (S (w_tick w2)) w2).
  intros Hw. pose proof (good_tick _ _ _ _ (Hc (good_inv _ _ _ _ (Hg1 Hw)))) as Ht.
  simpl in Ht.
  match goal with |- good_step' _ _ _ ?x => enough (good w x) as Hx by exact (Hx Hw) end.
  assert (good w w3) as Hg3.
  { etrans; [done|]. etrans; [done|]. apply same_inv_good; split; simpl; [done|lia]. }
  match goal with |- context [write_state l ?st'] =>
    transitivity (on_cells (write_state l st') w3).2
  end.
  - apply (write_state_gen_good e cfg _ _ (w_tick w) w w3); [done|simpl; lia|].
    intros st _. right. reflexivity.
  - assert (forall s db, keeps good (process_new_state e cfg (it_oid item) s db)) as Hk
      by (intros; frame). apply Hk.
Qed.
Hint Resolve destroy_source_good set_source_sensor_good : keeps.

Lemma core_mark_source_online_good id svc online info timeout :
  keeps good (core_mark_source_online e cfg id svc online info timeout).
Proof. unfold core_mark_source_online. frame. Qed.

(** *** Replication over items of the same node only *)

(** The source is known and none of the items belongs to another node. *)
Definition own_items (source : Source) (rs : list ReplicationInventoryItem) w : Prop :=
  inv_good (w_inv w) /\ source_alloc (w_store w) source /\
  forall r old, r ∈ rs -> get_item (ri_oid r) (w_inventory w) = Some old ->
    node_of old = Some (src_node source).

Lemma good_source_alloc source w w' :
  good_step' e cfg w w' -> source_alloc (w_store w) source -> source_alloc (w_store w') source.
Proof. intros Hg Ha. by apply (good_sources _ _ _ _ Hg). Qed.

Lemma same_index_own source rs {A} (m : M World A) :
  keeps good m -> keeps same_index m -> keeps (under (own_items source rs) good) m.
Proof.
  intros Hg Hi w (Hw & Ha & Hl). split; [apply Hg|]. split_and!.
  - by apply Hg.
  - by eapply good_source_alloc; [apply Hg|].
  - by rewrite (Hi w).
Qed.
Lemma same_inv_own source rs {A} (m : M World A) :
  keeps same_inv m -> keeps (under (own_items source rs) good) m.
Proof. intros Hm. apply same_index_own; frame. Qed.
Hint Resolve same_inv_own : keeps.

Lemma remove_item_own source rs oid :
  keeps (under (own_items source rs) good) (on_inv (remove_item oid)).
Proof.
  intros w ([m Hw] & Ha & Hl). assert (good w (on_inv (remove_item oid) w).2) as Hg
    by apply remove_item_good. specialize (Hg (ex_intro _ m Hw)).
  split; [by intros _|]. split_and!; [apply Hg|by eapply good_source_alloc|].
  unfold on_inv. destruct (remove_item_ok _ _ oid Hw) as (s' & -> & _ & Hok). simpl.
  intros r old Hr. unfold w_inventory. simpl. rewrite (get_item_repr _ _ _ (ok_repr _ _ Hok)).
  intros [_ Hold]%lookup_delete_Some. apply (Hl r); [done|]. unfold w_inventory.
  by rewrite (get_item_repr _ _ _ (ok_repr _ _ Hw)).
Qed.

Lemma append_remote_own source rs r :
  r ∈ rs -> keeps (under (own_items source rs) good) (on_inv (append_remote_item r source)).
Proof.
  intros Hin w ([m Hw] & Ha & Hl).
  assert (forall old, m !! ri_oid r = Some old -> node_of old = Some (src_node source)) as Hc.
  { intros old Ho. apply (Hl r); [done|]. unfold w_inventory.
    by rewrite (get_item_repr _ _ _ (ok_repr _ _ Hw)). }
  destruct (append_remote_ok _ _ _ _ Hw Ha Hc) as (m' & Hok & Hm').
  assert (good_step' e cfg w (on_inv (append_remote_item r source) w).2) as Hg.
  { apply on_inv_good; [apply append_remote_grows|by exists m|by exists m']. }
  split; [by intros _|]. split_and!; [apply Hg|by eapply good_source_alloc|].
  unfold on_inv. destruct (append_remote_item _ _ _) as [res i]; simpl in *.
  intros r' old Hr. unfold w_inventory. simpl. rewrite (get_item_repr _ _ _ (ok_repr _ _ Hok)).
  intros [Hold|[_ Hs]]%Hm'; [|unfold node_of; by rewrite Hs].
  apply (Hl r'); [done|]. unfold w_inventory. by rewrite (get_item_repr _ _ _ (ok_repr _ _ Hw)).
Qed.

Hint Resolve remove_item_own append_remote_own : keeps.

Lemma append_and_announce_own source rs r online :
  r ∈ rs -> keeps (under (own_items source rs) good) (append_and_announce e r source online).
Proof. intros Hin. unfold append_and_announce. frame. Qed.

Lemma update_existing_own source rs ex r online :
  keeps (under (own_items source rs) good) (update_existing e ex r source online).
Proof.
  apply same_index_own; unfold update_existing, item_set_enabled; [|frame].
  apply keeps_bind; [frame|intros w0]. apply keeps_bind; [frame|intros _].
  case_match; [|frame]. case_match; [|frame]. case_match; [|frame].
  apply keeps_get_bind. intros w. case_match; [|reflexivity].
  match goal with |- context [write_state ?l ?st'] =>
    transitivity (on_cells (write_state l st') w).2
  end.
  - apply (write_state_good e cfg). intros st <-%read_state_Some. by right.
  - assert (forall st, keeps good (log_ef (announce_remote_state e (it_oid ex) st true))) as Hk
      by (intros; frame). apply Hk.
Qed.

Hint Resolve append_and_announce_own update_existing_own : keeps.

Lemma process_remote_item_own existing source rs online r :
  r ∈ rs -> keeps (under (own_items source rs) good)
    (process_remote_item e existing source online r).
Proof. intros Hin. unfold process_remote_item. frame. Qed.
Hint Resolve process_remote_item_own : keeps.

Lemma process_remote_items_own existing rs source online quick :
  keeps (under (own_items source (map_to_list rs).*2) good)
    (process_remote_items e existing rs source online quick).
Proof.
  unfold process_remote_items.
  frame; match goal with H : _ ∈ map_to_list rs |- _ =>
    apply (list_elem_of_fmap_2 snd) in H end; frame.
Qed.
Hint Resolve process_remote_items_own : keeps.

(** None of the items of the payload belongs to another node. *)
Definition remote_own (rs : gmap OID ReplicationInventoryItem) (id : string) w : Prop :=
  forall k r old, rs !! k = Some r -> get_item (ri_oid r) (w_inventory w) = Some old ->
    node_of old = Some id.

Lemma own_items_source rs id svc w :
  inv_good (w_inv w) ->
  (forall r old, r ∈ rs -> get_item (ri_oid r) (w_inventory w) = Some old ->
    node_of old = Some id) ->
  exists source w', on_inv (get_or_create_source id svc) w = (Ok source, w') /\
    own_items source rs w' /\ good w w'.
Proof.
  intros [m Hw] Hrs. pose proof (get_or_create_source_good id svc w) as Hg. unfold on_inv in *.
  destruct (get_or_create_source_ok _ _ id svc Hw) as (src & σ & E & Hok & _ & Hn & Ha).
  rewrite E in *. eexists _, _. split_and!; [done| |done].
  split_and!; [by exists m|done|]. by rewrite Hn.
Qed.

Lemma process_remote_inventory_good rs id sender quick w :
  remote_own rs id w ->
  good w (process_remote_inventory e rs id sender quick w).2.
Proof.
  intros Hown Hw. unfold process_remote_inventory.
  case_match; [exact (reflexivity (R := good) w Hw)|]. rewrite run_bind.
  assert (same_inv w ((if quick then mret true else lock_source id) w).2) as Hs
    by (destruct quick; [reflexivity|apply lock_source_same_inv]).
  destruct (_ w) as [[free|err] w1]; simpl in Hs; [|by apply same_inv_good].
  destruct (negb free); [by apply same_inv_good|]. rewrite run_bind. simpl. rewrite run_bind.
  destruct Hs as [Hi Ht].
  destruct (own_items_source ((map_to_list rs).*2) id sender w1) as (src & w2 & -> & Hown2 & Hg2).
  { by rewrite Hi. }
  { intros r old ([k r'] & -> & Hin%elem_of_map_to_list)%list_elem_of_fmap. unfold w_inventory.
    rewrite Hi. by apply (Hown k). }
  assert (forall ex online, keeps (under (own_items src (map_to_list rs).*2) good)
    (_ ← process_remote_items e ex rs src online quick;
     if quick then mret tt else unlock_source id)) as Hk by (intros; frame).
  match goal with |- good_step' _ _ _ ?x => enough (good w x) as Hx by exact (Hx Hw) end.
  transitivity w1; [by apply same_inv_good|]. transitivity w2; [done|].
  rewrite run_bind. simpl. by apply Hk.
Qed.

(** A replicated state is written to an item only if its event id is newer. *)
Lemma repl_write_good oid rse (st : World -> Source -> RemoteStateEvent) l source :
  keeps good (w ← get;
    let st0 := read_state (w_store w) l in
    if ieid_gtb (rs_ieid (rse_state rse)) (st_ieid st0) then
      _ ← on_cells (write_state l (set_from_rs (rse_state rse) st0));
      log_ef (announce_remote_state e oid (st w source) true)
    else log_ef (announce_remote_state e oid (remote_of_rse rse) false)).
Proof.
  apply keeps_get_bind. intros w. simpl.
  assert (forall st current, keeps good (log_ef (announce_remote_state e oid st current)))
    as Hk by (intros; frame).
  case_match; [|apply Hk]. rewrite run_bind. simpl.
  transitivity (on_cells (write_state l (set_from_rs (rse_state rse)
    (read_state (w_store w) l))) w).2; [|apply Hk].
  apply (write_state_good e cfg). intros ? <-%read_state_Some. by right.
Qed.

Lemma repl_event_good oid rse sender :
  keeps good (update_state_from_repl e oid (RseBasic rse) sender).
Proof.
  unfold update_state_from_repl. apply keeps_bind; [frame|intros _].
  apply keeps_get_bind. intros w.
  set (tail := fun item => match it_state item with Some state => _ | None => _ end).
  assert (forall item, keeps good (tail item)) as Ht.
  { intros item. unfold tail. destruct (it_state item) as [l|]; [|frame].
    destruct (it_source item) as [src|]; [|frame]. case_match; [frame|].
    apply (repl_write_good oid rse (fun w src => remote_of_local
      (local_state_event_of (set_from_rs (rse_state rse) (read_state (w_store w) l)))
      (src_node src) (src_is_online (w_store w) src)) l src). }
  assert (forall o err, keeps good (item ← lift (ok_or o err); tail item)) as Ht' by (intros; frame).
  destruct (rse_force_accept rse); [|apply Ht'].
  destruct (get_item oid (w_inventory w)) as [item|] eqn:E; [apply Ht|].
  rewrite run_bind. rewrite run_bind. intros Hw.
  set (r := mkRItem oid _ _ _ _ _ _ _).
  destruct (own_items_source [r] (rse_node rse) sender w Hw) as (src & w1 & -> & Hown & Hg).
  { intros r' old ->%list_elem_of_singleton. simpl. by rewrite E. }
  match goal with |- good_step' _ _ _ ?x => enough (good w x) as Hx by exact (Hx Hw) end.
  transitivity w1; [done|].
  destruct (append_remote_own src [r] r (proj2 (list_elem_of_singleton r r) eq_refl) w1 Hown) as [Hg2 _].
  destruct (on_inv _ w1) as [[item|] w2]; simpl in *; [|done].
  transitivity w2; [done|apply Ht].
Qed.

(** *** Every operation *)

Inductive core_op :=
  | CoCreate (oid : OID)
  | CoDeploy (configs : list ItemConfigData)
  | CoDestroy (mask : OIDMask)
  | CoUndeploy (oids : list OID)
  | CoEnable (mask : OIDMask) (value : bool)
  | CoRaw (oid : OID) (raw : RawStateEvent) (sender : string)
  | CoRawBulk (raw : list (OID * RawStateEvent)) (sender : string)
  | CoLvar (oid : OID) (op : LvarOp) (method source : string)
  | CoSave
  | CoMarkSource (id svc : string) (online : bool) (info : option NodeInfo) (timeout : option Z)
  | CoDestroySource (id : string)
  | CoRemoteInventory (rs : gmap OID ReplicationInventoryItem) (id sender : string)
  | CoRepl (oid : OID) (rsex : ReplicationStateEventExtended) (sender : string).

Definition core_exec (op : core_op) : M World unit :=
  match op with
  | CoCreate oid => _ ← create_local_item e cfg oid; mret tt
  | CoDeploy configs => deploy_local_items e cfg configs true
  | CoDestroy mask => destroy_local_items e cfg mask
  | CoUndeploy oids => undeploy_local_items e cfg oids
  | CoEnable mask value => set_local_items_enabled e mask value
  | CoRaw oid raw sender => update_state_from_raw e cfg oid raw sender
  | CoRawBulk raw sender => update_state_from_raw_bulk e cfg raw sender
  | CoLvar oid op method source => _ ← lvar_op e cfg oid op method source; mret tt
  | CoSave => core_save e cfg
  | CoMarkSource id svc online info timeout =>
      core_mark_source_online e cfg id svc online info timeout
  | CoDestroySource id => destroy_source id
  | CoRemoteInventory rs id sender => process_remote_inventory e rs id sender false
  | CoRepl oid rsex sender => update_state_from_repl e oid rsex sender
  end.

(** The operation registers no item over an item of another node. *)
Definition clash_free (op : core_op) w : Prop :=
  match op with
  | CoDeploy configs =>
      forall cf old, cf ∈ configs -> get_item (cf_oid cf) (w_inventory w) = Some old ->
        node_of old = None
  | CoRemoteInventory rs id _ => remote_own rs id w
  | CoRepl oid (RseInventory node item) _ => remote_own {[ oid := item ]} node w
  | _ => True
  end.

Hint Resolve update_state_from_raw_good lvar_op_good destroy_local_items_good undeploy_good
  set_enabled_good core_save_good core_mark_source_online_good : keeps.

Lemma core_exec_good op w : clash_free op w -> good w (core_exec op w).2.
Proof.
  intros Hc. destruct op; simpl in *; try (by apply deploy_good);
    try (by apply process_remote_inventory_good);
    try (match goal with |- good_step _ _ w (?m w).2 => assert (keeps good m) as Hk by frame; apply Hk end).
  destruct rsex; [apply repl_event_good|by apply process_remote_inventory_good|].
  apply (repl_event_good oid event sender).
Qed.

(** A run of the core, from one state to another. *)
Inductive core_run : World -> World -> Prop :=
  | run_done w : core_run w w
  | run_step op w w' :
      clash_free op w -> core_run (core_exec op w).2 w' -> core_run w w'.

Lemma core_run_good w w' : core_run w w' -> good w w'.
Proof.
  induction 1 as [|op w w' Hc _ IH]; [reflexivity|].
  etrans; [by apply core_exec_good|done].
Qed.

(** C1: Along every run in which no node takes over an item of another, the
    indexes of the inventory keep agreeing: the tree, the items by source and
    the sources are views of one map of items, everything an item refers to
    exists, and no two items share a state. *)
Theorem core_inventory_invariant w w' :
  core_run w w' -> inv_good (w_inv w) -> inv_good (w_inv w').
Proof. intros Hr Hw. by apply (core_run_good _ _ Hr). Qed.


End operations.
