(* ===== verification/CoreBehaviour.v ===== *)
(** * What the operations of the node core do

    The functional behaviour of single operations: raw events, lvar
    operations, replicated states and inventories, and the removal of a
    source; then what happens when a node takes over an item of another. *)
From S2P Require Import Prelude EvaCommon ItemState ItemTree Inventory Core Replication CoreSpec CoreInvariant.

Section local.
Context `{Ext : Externals} `{NExt : !NodeExternals}.
Variable (e : Env) (cfg : CoreConfig).

Implicit Types w : World.

(** The messages of the next call to the bus: one, unless the call fails. *)
Definition sent w (m : BusMsg) : list BusMsg :=
  if is_ok (env_io e (w_calls w)) then [m] else [].

Lemma process_new_state_run oid s db w :
  exists w', process_new_state e cfg oid s db w = (Ok tt, w') /\ quiet w w' /\
    w_bus w' = sent w (MsgLocal oid s) ++ w_bus w.
Proof.
  assert (quiet w (process_new_state e cfg oid s db w).2) as Hq by apply process_new_state_quiet.
  exists (process_new_state e cfg oid s db w).2.
  assert ((process_new_state e cfg oid s db w).1 = Ok tt /\
    w_bus (process_new_state e cfg oid s db w).2 = sent w (MsgLocal oid s) ++ w_bus w) as [<- Hb].
  { unfold process_new_state, announce_local_state, publish, db_write, io_call, schedule_save, sent.
    unfold_m. destruct (env_io e (w_calls w)); simpl; destruct db; simpl; try done;
      destruct (state_tx_set cfg); simpl; try done;
      by destruct (env_io e (S (w_calls w))). }
  split; [by destruct (process_new_state _ _ _ _ _ _)|done].
Qed.

(** An event for an lvar that is switched off is dropped, unless forced. *)
Definition lvar_off (item : Item) (st : ItemState) (force : Force) : bool :=
  bool_decide (oid_kind (it_oid item) = Lvar) && (st_status st =? 0)%Z
  && bool_decide (force = ForceNone).

Lemma process_raw_locked_run item l raw w :
  is_Some (s_state (w_store w) !! l) ->
  let st := read_state (w_store w) l in
  let '(modified, st') := set_from_raw raw (it_logic item) (boot_id cfg)
    (env_now e (w_tick w)) (env_ns e (S (w_tick w))) st in
  let off := lvar_off item st (raw_force raw) in
  let report := negb off && (modified || bool_decide (raw_force raw ≠ ForceNone)) in
  exists w', process_raw_locked e cfg item l raw w =
      (Ok (if report then Some (modified, raw_delta raw st (env_now e (w_tick w))) else None), w') /\
    w_inventory w' = w_inventory w /\ w_stp w' = w_stp w /\
    (forall l', read_state (w_store w') l' =
      if decide (l = l') then if off then st else st' else read_state (w_store w) l') /\
    w_bus w' = (if report then sent w (MsgLocal (it_oid item) (local_state_event_of st')) else [])
      ++ w_bus w.
Proof.
  intros Hl st. destruct (set_from_raw _ _ _ _ _ _) as [md st'] eqn:Er. cbv zeta.
  unfold process_raw_locked. rewrite run_bind. simpl. rewrite run_bind. simpl.
  rewrite run_bind. simpl. unfold lvar_off. fold st.
  change (w_store (set_tick _ _)) with (w_store w). fold st.
  destruct (_ && _ && _); simpl.
  { eexists; split_and!; [done..| |done]. intros l'. by case_decide; subst. }
  rewrite Er, run_bind. unfold on_cells, modify.
  set (w3 := set_inv _ _).
  assert (forall l', read_state (w_store w3) l' =
    if decide (l = l') then st' else read_state (w_store w) l') as Hst.
  { intros l'. unfold w3, w_store. simpl. by rewrite read_write_state. }
  destruct (md || _); simpl.
  - rewrite run_bind. simpl.
    edestruct (process_new_state_run (it_oid item)) as (w' & -> & Hq & Hb).
    eexists; split_and!; [done|..].
    + unfold w_inventory. by rewrite (quiet_inv _ _ Hq).
    + by rewrite (quiet_stp _ _ Hq).
    + intros l'. unfold w_store. rewrite (quiet_inv _ _ Hq). apply Hst.
    + done.
  - eexists; split_and!; [done..| |done]. apply Hst.
Qed.

Lemma with_stp_run {A} (body : M World A) w :
  with_stp true body w =
    let '(r, w1) := body (if w_stp w then set_stp true true w
                          else set_stp true (w_blocked w) w) in
    (r, set_stp false (w_blocked w1) w1).
Proof.
  unfold with_stp, stp_acquire, stp_release. unfold_m. simpl. by destruct (body _) as [[] ?].
Qed.

#[local] Arguments with_stp : simpl never.


(** A raw event for an item of another node is refused with an error,
    one for a disabled item is ignored unless it is forced through, and one
    for a macro is refused; in all three cases no state is written and
    nothing is announced. *)
Lemma raw_event_refused oid raw sender w :
  let '(r, w') := update_state_from_raw e cfg oid raw sender w in
  (oid_kind oid = Lmacro -> r = Err ENotImplemented /\ w' = w) /\
  (oid_kind oid ≠ Lmacro ->
   forall item, get_item oid (w_inventory w) = Some item ->
   (it_source item ≠ None -> r = Err EBusy /\ w' = w) /\
   (it_source item = None -> item_is_enabled (w_store w) item = false ->
    raw_force raw ≠ ForceFull -> r = Ok tt /\ w' = w)).
Proof.
  destruct (update_state_from_raw e cfg oid raw sender w) as [r w'] eqn:E.
  unfold update_state_from_raw in E. split.
  - intros Hk. rewrite decide_True in E by done. unfold_m. by simplify_eq.
  - intros Hk item Hi. rewrite decide_False in E by done. rewrite run_bind in E. simpl in E.
    rewrite Hi in E. split.
    + intros Hs. simpl in E. destruct (it_source item); [|done]. unfold_m. by simplify_eq.
    + intros Hs Hd Hf. simpl in E. rewrite Hs, run_bind in E. simpl in E.
      rewrite Hd, bool_decide_eq_true_2 in E by done. unfold_m. by simplify_eq/=.
Qed.

(** ** Lvar operations *)

Lemma lvar_update_run oid op item l w :
  let w2 := set_tick (S (S (w_tick w))) w in
  lvar_update e cfg oid op item l w =
  match lvar_apply op (gen e cfg (w_tick w)) (env_now e (S (w_tick w)))
          (read_state (w_store w) l) with
  | Ok (st', v) =>
      (_ ← process_new_state e cfg oid (prepare_state_data cfg item st').1
             (prepare_state_data cfg item st').2; mret v)
        (set_inv (mkInv (write_state l st' (w_store w)) (w_inventory w)) w2)
  | Err err => (Err err, w2)
  end.
Proof.
  unfold lvar_update, generate_ieid, time_now, monotonic_ns, on_cells, gen. unfold_m. simpl.
  by destruct (lvar_apply _ _ _ _) as [[]|].
Qed.

(** An operation on a local lvar that is enabled: the new state of
    [lvar_apply] is written to this item and to no other, it is always
    announced, and the new value is returned; an increment of the greatest
    and a decrement of the smallest 64-bit integer fail and change nothing. *)
Lemma lvar_op_behaviour oid op method source w item l :
  get_item oid (w_inventory w) = Some item -> oid_kind oid = Lvar ->
  it_source item = None -> item_is_enabled (w_store w) item = true ->
  it_state item = Some l -> is_Some (s_state (w_store w) !! l) ->
  exists w', w_inventory w' = w_inventory w /\
  match lvar_apply op (gen e cfg (w_tick w)) (env_now e (S (w_tick w)))
          (read_state (w_store w) l) with
  | Ok (st', v) =>
      lvar_op e cfg oid op method source w = (Ok v, w') /\
      (forall l', read_state (w_store w') l' =
        if decide (l = l') then st' else read_state (w_store w) l') /\
      w_bus w' = sent w (MsgLocal oid (local_state_event_of st')) ++ w_bus w
  | Err err =>
      lvar_op e cfg oid op method source w = (Err err, w') /\
      w_store w' = w_store w /\ w_bus w' = w_bus w
  end.
Proof.
  intros Hi Hk Hs He Hl Hal.
  assert (lvar_op e cfg oid op method source w = lvar_update e cfg oid op item l w) as ->.
  { unfold lvar_op, get_or_crete_lvar. rewrite decide_False by (by intros []).
    rewrite run_bind, run_bind. simpl. rewrite Hi. unfold mret at 1, M_ret at 1.
    rewrite run_bind. simpl. rewrite run_bind. simpl. by rewrite He, Hs, Hl. }
  rewrite lvar_update_run. set (w2 := set_tick _ _).
  destruct (lvar_apply _ _ _ _) as [[st' v]|err]; [|exists w2; by split_and!].
  set (w3 := set_inv _ _). rewrite run_bind.
  edestruct (process_new_state_run oid) as (w' & -> & Hq & Hb).
  exists w'. split; [unfold w_inventory; by rewrite (quiet_inv _ _ Hq)|].
  split_and!; [done| |done]. intros l'. unfold w_store. rewrite (quiet_inv _ _ Hq).
  unfold w3. simpl. by rewrite read_write_state.
Qed.

(** Incrementing an lvar and decrementing it again gives back the value,
    and the status is left alone, for every 64-bit integer but the
    greatest. *)
Lemma lvar_increment_decrement `{!ValueLaws} ieid ieid' now now' st n :
  value_to_i64 (st_value st) = Some n -> (i64_min <= n < i64_max)%Z ->
  exists st1 st2,
    lvar_apply LvarIncrement ieid now st = Ok (st1, Some (VI64 (n + 1))) /\
    lvar_apply LvarDecrement ieid' now' st1 = Ok (st2, Some (VI64 n)) /\
    st_value st2 = VI64 n /\ value_to_i64 (st_value st2) = Some n /\
    st_status st2 = st_status st /\ st_ieid st2 = ieid'.
Proof.
  intros Hv Hn. unfold lvar_apply. rewrite Hv. simpl.
  rewrite (proj2 (Z.eqb_neq n i64_max)) by lia. eexists _, _. split; [done|]. simpl.
  rewrite value_to_i64_of by lia. simpl.
  rewrite (proj2 (Z.eqb_neq (n + 1) i64_min)) by lia.
  replace (n + 1 - 1)%Z with n by lia. split_and!; [done|done| |done|done].
  apply value_to_i64_of. lia.
Qed.

End local.

Section remote.
Context `{Ext : Externals} `{NExt : !NodeExternals} `{!OidLaws}.
Variable (e : Env) (cfg : CoreConfig).

Implicit Types w : World.

(** ** Replicated states *)

(** A state event from another node.  For an item of that node the state
    is taken over exactly if its event id is greater than the one stored,
    and is then announced as current; otherwise nothing is written and the
    event is announced as archived.  An event for an item of a third node is
    refused, and an event never writes to a local item. *)
Lemma repl_event_behaviour oid rse sender w item l :
  let rs := rse_state rse in
  get_item oid (w_inventory w) = Some item -> oid_kind oid ≠ Lmacro ->
  (oid_kind oid ≠ Unit -> rs_act rs = None) ->
  it_state item = Some l -> is_Some (s_state (w_store w) !! l) ->
  let st := read_state (w_store w) l in
  let accept := ieid_gtb (rs_ieid rs) (st_ieid st) in
  exists r w', update_state_from_repl e oid (RseBasic rse) sender w = (r, w') /\
    w_inventory w' = w_inventory w /\
    match it_source item with
    | None => r = Ok tt /\ w' = w
    | Some src =>
        if String.eqb (rse_node rse) (src_node src) then
          r = Ok tt /\
          (forall l', read_state (w_store w') l' =
            if decide (l = l') then if accept then set_from_rs rs st else st
            else read_state (w_store w) l') /\
          w_bus w' = sent e w
            (MsgRemote oid
               (if accept then
                  remote_of_local (local_state_event_of (set_from_rs rs st)) (src_node src)
                    (src_is_online (w_store w) src)
                else remote_of_rse rse) accept) ++ w_bus w
        else r = Err EBusy /\ w' = w
    end.
Proof.
  intros rs Hi Hk Ha Hl Hal st accept. subst rs.
  unfold update_state_from_repl. rewrite run_bind.
  assert (match oid_kind oid with
    | Lmacro => raise ENotImplemented
    | Lvar | Sensor =>
        match rs_act (rse_state rse) with Some _ => raise EInvalidData | None => mret tt end
    | Unit => mret tt end w = (Ok tt, w)) as ->.
  { destruct (oid_kind oid); try done; by rewrite Ha. }
  rewrite run_bind. simpl. rewrite Hi, run_bind.
  replace ((if rse_force_accept rse then mret item else lift (ok_or (Some item) ENotFound)) w)
    with (Ok item : EResult Item, w) by (by destruct (rse_force_accept rse)).
  rewrite Hl. destruct (it_source item) as [src|]; [|by eexists _, _].
  destruct (String.eqb _ _); simpl; [|by eexists _, _].
  rewrite run_bind. simpl. fold st accept. unfold sent, announce_remote_state, publish, io_call.
  unfold_m. destruct accept; simpl.
  - destruct (env_io e (w_calls w)); simpl; eexists _, _; split_and!; try done;
      intros l'; unfold w_store; simpl; by rewrite read_write_state.
  - destruct (env_io e (w_calls w)); simpl; eexists _, _; split_and!; try done;
      intros l'; by case_decide; subst.
Qed.

(** What a state event makes of the state of an item. *)
Definition takes_state (oid : OID) (rse : ReplicationStateEvent) : bool :=
  match oid_kind oid with
  | Unit => true
  | Lmacro => false
  | Sensor | Lvar => match rs_act (rse_state rse) with None => true | Some _ => false end
  end.
Definition replica (oid : OID) (item : Item) (st : ItemState) (rse : ReplicationStateEvent) : ItemState :=
  match it_source item with
  | Some src =>
      if takes_state oid rse && String.eqb (rse_node rse) (src_node src) &&
        ieid_gtb (rs_ieid (rse_state rse)) (st_ieid st)
      then set_from_rs (rse_state rse) st else st
  | None => st
  end.

Lemma refused_event oid rse sender w :
  takes_state oid rse = false ->
  exists err, update_state_from_repl e oid (RseBasic rse) sender w = (Err err, w).
Proof.
  unfold takes_state, update_state_from_repl. rewrite run_bind.
  destruct (oid_kind oid); [done| | |]; [..|intros _; by eexists]; destruct (rs_act (rse_state rse)); try done; by eexists.
Qed.
Lemma missing_event oid rse sender w :
  get_item oid (w_inventory w) = None -> rse_force_accept rse = false ->
  exists err, update_state_from_repl e oid (RseBasic rse) sender w = (Err err, w).
Proof.
  intros Hi Hf. destruct (takes_state oid rse) eqn:Ht; [|by apply refused_event].
  unfold update_state_from_repl. rewrite run_bind.
  assert (match oid_kind oid with
    | Lmacro => raise ENotImplemented
    | Lvar | Sensor =>
        match rs_act (rse_state rse) with Some _ => raise EInvalidData | None => mret tt end
    | Unit => mret tt end w = (Ok tt, w)) as ->.
  { unfold takes_state in Ht. destruct (oid_kind oid); try done; by destruct (rs_act _). }
  rewrite run_bind. simpl. rewrite Hf, Hi. by eexists.
Qed.

(** An event writes to no other item than its own, and to that one if it is an item
    of the node of the event and the event is newer. *)
Lemma state_event_effect oid rse sender w :
  inv_good (w_inv w) -> (rse_force_accept rse = true -> is_Some (get_item oid (w_inventory w))) ->
  let w' := (update_state_from_repl e oid (RseBasic rse) sender w).2 in
  w_inventory w' = w_inventory w /\
  forall o item l, get_item o (w_inventory w) = Some item -> it_state item = Some l ->
    read_state (w_store w') l =
    (if decide (o = oid) then replica o item (read_state (w_store w) l) rse else read_state (w_store w) l).
Proof.
  intros [m Hok] Hf w'. pose proof (get_item_repr (w_inventory w) m) as Hget.
  assert (forall err, update_state_from_repl e oid (RseBasic rse) sender w = (Err err, w) -> w' = w) as Hsame.
  { intros err E. unfold w'. by rewrite E. }
  destruct (takes_state oid rse) eqn:Ht.
  2:{ destruct (refused_event oid rse sender w Ht) as [err ->%Hsame]. split; [done|]. intros o item l _ _.
      case_decide; [subst|done]. unfold replica. rewrite Ht. by destruct (it_source item). }
  destruct (get_item oid (w_inventory w)) as [item|] eqn:Ei.
  2:{ destruct (rse_force_accept rse) eqn:Ef; [by destruct (Hf eq_refl)|].
      destruct (missing_event oid rse sender w Ei Ef) as [err ->%Hsame]. split; [done|]. intros o item l Ho _.
      case_decide; [congruence|done]. }
  assert (oid_kind oid ≠ Lmacro /\ (oid_kind oid ≠ Unit -> rs_act (rse_state rse) = None)) as [Hk Ha].
  { unfold takes_state in Ht. by destruct (oid_kind oid), (rs_act (rse_state rse)). }
  assert (m !! oid = Some item) as Hm by (rewrite <-Hget; [done|apply Hok]).
  pose proof (items_alloc _ _ (ok_store _ _ Hok) _ _ Hm) as Hio.
  destruct (it_state item) as [l0|] eqn:El.
  2:{ exfalso. apply Hk. pose proof (item_stateless _ _ Hio El) as Hs.
      by rewrite <-(proj2 (repr_items _ _ (ok_repr _ _ Hok)) _ _ Hm). }
  destruct (repl_event_behaviour oid rse sender w item l0 Ei Hk Ha El (item_state_alloc _ _ Hio _ El))
    as (r & w1 & E & Hinv & Hr).
  assert (w' = w1) as -> by (unfold w'; by rewrite E). split; [done|]. intros o it l Ho Hl.
  assert (o ≠ oid -> l0 ≠ l) as Hne.
  { intros Hd ->. apply Hd. eapply (state_sep _ _ (ok_store _ _ Hok) _ _ it item l); try done.
    rewrite <-Hget; [done|apply Hok]. }
  unfold replica. destruct (it_source item) as [src|] eqn:Es.
  - destruct (String.eqb (rse_node rse) (src_node src)) eqn:En; destruct Hr as [_ Hr]; [destruct Hr as [Hr _]; rewrite Hr|subst w1];
      destruct (decide (o = oid)) as [->|Hd].
    + assert (it = item) as -> by congruence. rewrite El in Hl. injection Hl as ->. rewrite decide_True, Es, Ht, En by done. done.
    + by rewrite decide_False by auto.
    + assert (it = item) as -> by congruence. by rewrite Es, Ht, En.
    + done.
  - destruct Hr as [_ ->]. case_decide as Hd; [|done]. subst. assert (it = item) as -> by congruence. by rewrite Es.
Qed.

(** ** Removing a source *)

Lemma remove_loop (l : list (OID * Item)) : forall w m,
  inv_ok (w_inv w) m ->
  exists i, for_each (fun '(oid, _) => _ ← on_inv (remove_item oid); mret tt) l w =
      (Ok tt, set_inv i w) /\ inv_ok i (foldr delete m (reverse l.*1)) /\ store i = w_store w.
Proof.
  induction l as [|[o x] l IH]; intros w m Hw.
  - exists (w_inv w). split_and!; [by destruct w|done|done].
  - cbn [for_each]. rewrite run_bind, run_bind. unfold on_inv at 1.
    destruct (remove_item_ok _ _ o Hw) as (s' & -> & Hs & Hok).
    destruct (IH (set_inv s' w) _ Hok) as (i & E & Hi & Hst). exists i.
    rewrite run_ret, E. split_and!; [done| |by rewrite Hst].
    simpl. by rewrite reverse_cons, foldr_app.
Qed.

Lemma foldr_delete_lookup {A} (m : gmap OID A) l o :
  foldr delete m l !! o = if decide (o ∈ l) then None else m !! o.
Proof.
  induction l as [|x l IH]; cbn [foldr].
  - case_decide as Hd; [by apply not_elem_of_nil in Hd|done].
  - rewrite lookup_delete, IH. repeat case_decide; try done; set_solver.
Qed.

(** The items of all other nodes. *)
Definition others (m : gmap OID Item) (id : string) : gmap OID Item :=
  filter (fun oi => node_of oi.2 ≠ Some id) m.

Lemma others_delete m id :
  foldr delete m (reverse (map_to_list (by_source m (Some id))).*1) = others m id.
Proof.
  apply map_eq. intros o. rewrite foldr_delete_lookup.
  assert (o ∈ reverse (map_to_list (by_source m (Some id))).*1 <->
    is_Some (by_source m (Some id) !! o)) as Ho.
  { rewrite elem_of_reverse, list_elem_of_fmap. split.
    - intros ([? i0] & -> & ?%elem_of_map_to_list). by exists i0.
    - intros [i0 ?]. exists (o, i0). split; [done|]. by apply elem_of_map_to_list. }
  apply option_eq. intros i. unfold others. rewrite map_lookup_filter_Some. case_decide as Hd.
  - apply Ho in Hd as [j [Hj Hn]%lookup_by_source]. naive_solver.
  - split; [|naive_solver]. intros Hi. split; [done|]. intros Hn. apply Hd, Ho.
    exists i. by apply lookup_by_source.
Qed.

Lemma others_all m id : by_source m (Some id) = ∅ -> others m id = m.
Proof. intros E. rewrite <-others_delete, E. by rewrite map_to_list_empty. Qed.

Lemma remove_source_items w m id :
  inv_ok (w_inv w) m ->
  exists i, (match get_items_by_source id (w_inventory w) with
    | Some its =>
        for_each (fun '(oid, _) => _ ← on_inv (remove_item oid); mret tt) (map_to_list its)
    | None => mret tt
    end) w = (Ok tt, set_inv i w) /\ inv_ok i (others m id).
Proof.
  intros Hw. unfold get_items_by_source, w_inventory. rewrite (repr_groups _ _ (ok_repr _ _ Hw)).
  destruct (nonempty _) as [g|] eqn:Eg.
  - apply nonempty_Some in Eg as [-> _].
    destruct (remove_loop (map_to_list (by_source m (Some id))) w m Hw) as (i & E & Hi & _).
    exists i. rewrite others_delete in Hi. done.
  - apply nonempty_None in Eg. exists (w_inv w). rewrite others_all by done.
    split; [by destruct w|done].
Qed.

Lemma others_source m id : nonempty (by_source (others m id) (Some id)) = None.
Proof.
  destruct (nonempty _) as [g|] eqn:E; [|done]. apply nonempty_Some in E as [_ Hne].
  destruct Hne. apply map_eq. intros o. rewrite lookup_empty.
  destruct (by_source _ _ !! o) as [i|] eqn:Ei; [|done].
  apply lookup_by_source in Ei as [[_ Hn]%map_lookup_filter_Some ?]. done.
Qed.

(** Destroying a source of an inventory whose indexes agree removes
    exactly the items of that node, forgets the source and the node, and
    leaves the items of all other nodes and the locks as they were. *)
Lemma destroy_source_behaviour id w :
  inv_good (w_inv w) -> id ∉ w_locked w ->
  exists w', destroy_source id w = (Ok tt, w') /\
    (forall o, get_item o (w_inventory w') =
      match get_item o (w_inventory w) with
      | Some i => if decide (node_of i = Some id) then None else Some i
      | None => None
      end) /\
    sources (w_inventory w') !! id = None /\ get_items_by_source id (w_inventory w') = None /\
    w_nodes w' = delete id (w_nodes w) /\ w_locked w' = w_locked w /\ inv_good (w_inv w').
Proof.
  intros [m Hw] Hl. unfold destroy_source. rewrite run_bind. unfold on_inv at 1.
  destruct (get_or_create_source_ok _ _ id "" Hw) as (src & σ & -> & Hok & _ & _ & _).
  rewrite run_bind. unfold on_cells, modify at 1. set (w1 := set_inv _ (set_inv _ w)).
  assert (inv_ok (w_inv w1) m) as Hok1 by by apply (inv_ok_update_source (mkInv σ (w_inventory w))).
  rewrite run_bind. unfold lock_source. rewrite run_bind. unfold get at 1.
  rewrite decide_False by done. rewrite run_bind. unfold modify at 1. rewrite run_ret.
  rewrite run_bind. unfold modify at 1. rewrite run_bind. unfold get at 1.
  set (w3 := set_nodes _ _). destruct (remove_source_items w3 m id Hok1) as (i & Ei & Hi).
  rewrite run_bind, Ei. eexists. split; [done|]. pose proof (ok_repr _ _ Hi) as Hr.
  unfold w_inventory in *. simpl. split_and!.
  - intros o. rewrite (get_item_repr _ _ _ Hr), (get_item_repr _ _ _ (ok_repr _ _ Hw)).
    unfold others. rewrite map_lookup_filter. destruct (m !! o) as [x|]; simpl; [|done].
    repeat case_guard; repeat case_decide; naive_solver.
  - apply eq_None_not_Some. rewrite (repr_sources _ _ Hr), others_source. by intros [? [=]].
  - unfold get_items_by_source. by rewrite (repr_groups _ _ Hr), others_source.
  - done.
  - set_solver.
  - by exists (others m id).
Qed.

(** ** The inventory of another node *)

(** The indexes agree, and the source has not been destroyed. *)
Record synced (src : Source) w (m : gmap OID Item) : Prop := {
  sy_ok : inv_ok (w_inv w) m;
  sy_live : exists f, s_source (w_store w) !! src_data src = Some f /\ sf_destroyed f = false
}.

(** What the payload of one item does to the map of the items. *)
Definition takes (src : Source) (r : ReplicationInventoryItem) (m m' : gmap OID Item) : Prop :=
  (forall o, o ≠ ri_oid r -> m' !! o = m !! o) /\
  exists i, m' !! ri_oid r = Some i /\ node_of i = Some (src_node src).

Lemma synced_inv src w w' m : synced src w m -> w_inv w' = w_inv w -> synced src w' m.
Proof. intros [Hok Hl] E. split; [by rewrite E|]. unfold w_store in *. by rewrite E. Qed.

Lemma synced_destroyed src w m : synced src w m -> src_is_destroyed (w_store w) src = false.
Proof.
  intros [_ (f & Hf & Hd)]. unfold src_is_destroyed, read_source. by rewrite Hf.
Qed.

Lemma log_ef_run {A} (m : M World A) w :
  keeps quiet m -> exists w', log_ef m w = (Ok tt, w') /\ quiet w w'.
Proof. intros Hm. exists (m w).2. split; [done|apply Hm]. Qed.

Lemma from_repl_item_ok r : check_state r = true -> exists st, from_repl_item r = Ok st.
Proof.
  unfold check_state, from_repl_item. intros Hc. case_decide as Hk; [by eexists|].
  destruct (oid_kind (ri_oid r)); try done; destruct (ri_act r), (ri_ieid r), (ri_t r);
    try done; by eexists.
Qed.

Lemma append_and_announce_takes src w m r online :
  synced src w m -> check_state r = true ->
  (forall old, m !! ri_oid r = Some old -> node_of old = Some (src_node src)) ->
  exists w' m', append_and_announce e r src online w = (Ok tt, w') /\
    synced src w' m' /\ takes src r m m' /\ w_locked w' = w_locked w.
Proof.
  intros [Hok (f & Hf & Hd)] Hc Hold. destruct (from_repl_item_ok _ Hc) as [st Hst].
  unfold append_and_announce. rewrite run_bind. unfold attempt, on_inv.
  pose proof (append_remote_grows r src (w_inv w)) as Hg.
  unfold append_remote_item in Hg |- *. rewrite run_bind in Hg |- *.
  unfold lift in Hg |- *. rewrite Hst in Hg |- *.
  destruct (add_item_ok (w_inv w) m (ri_oid r) st (ri_meta r) (Some src) (ri_enabled r)
    None None true) as (item & s' & E & Hok' & Ho & Hs & _);
    [done| | |exact Hold|by left|rewrite E in Hg |- *].
  { intros ->. unfold from_repl_item in Hst. case_decide; [done|].
    by destruct (ri_ieid r), (ri_t r). }
  { intros ? [= <-]. by eexists. }
  assert (synced src (set_inv s' w) (<[ri_oid r := item]> m)) as Hsy.
  { split; [done|]. exists f. split; [|done]. apply (grows_sources _ _ Hg); [|done].
    by destruct (ok_store _ _ Hok). }
  assert (takes src r m (<[ri_oid r := item]> m)) as Ht.
  { split; [intros; by rewrite lookup_insert_ne|]. exists item. rewrite lookup_insert_eq.
    unfold node_of. by rewrite Hs. }
  case_decide; [by eexists _, _|]. rewrite run_bind. simpl.
  destruct (item_local_state_event _ _); [|by eexists _, _].
  destruct (log_ef_run (announce_remote_state e (it_oid item)
    (remote_of_local l (src_node src) online) true) (set_inv s' w)) as (w' & -> & Hq);
    [eauto with keeps|]. exists w', (<[ri_oid r := item]> m).
  split_and!; [done| |done..|by rewrite (quiet_locked _ _ Hq)].
  by eapply synced_inv; [|apply Hq].
Qed.

(** Writes to states and to enabled flags. *)
Lemma synced_cells src w m f :
  synced src w m -> s_source (f (w_store w)) = s_source (w_store w) ->
  inv_ok (mkInv (f (w_store w)) (w_inventory w)) m ->
  synced src (on_cells f w).2 m.
Proof. intros [_ Hl] Hs Hok. split; [done|]. unfold w_store. simpl. by rewrite Hs. Qed.

Lemma update_existing_synced src w m ex r online :
  synced src w m ->
  exists w', update_existing e ex r src online w = (Ok tt, w') /\
    synced src w' m /\ w_locked w' = w_locked w.
Proof.
  intros Hsy. unfold update_existing. rewrite run_bind. unfold get at 1. rewrite run_bind.
  assert (exists w1, (if negb (Bool.eqb (item_is_enabled (w_store w) ex) (ri_enabled r))
    then on_cells (item_set_enabled ex (ri_enabled r)) else mret tt) w = (Ok tt, w1) /\
    synced src w1 m /\ w_locked w1 = w_locked w) as (w1 & -> & Hsy1 & Hl1).
  { case_match; [|by exists w]. eexists; split_and!; [done| |done].
    apply (synced_cells src w m (item_set_enabled ex (ri_enabled r))); [done|done|].
    apply (inv_ok_write_flag (w_inv w)), Hsy. }
  case_match; [|by exists w1]. destruct (it_state ex) as [l|]; [|by exists w1].
  destruct (rs_of_item r) as [rs|]; [|by exists w1]. rewrite run_bind. unfold get at 1.
  case_match; [|by exists w1]. rewrite run_bind. unfold on_cells, modify at 1.
  set (w2 := set_inv _ w1). assert (synced src w2 m) as Hsy2.
  { apply (synced_cells src w1 m (write_state l _)); [done|done|].
    apply (inv_ok_write_state (w_inv w1)), Hsy1. }
  edestruct (log_ef_run (announce_remote_state e (it_oid ex)
    (remote_of_local (local_state_event_of (set_from_rs rs (read_state (w_store w1) l)))
      (src_node src) online) true) w2) as (w' & -> & Hq); [eauto with keeps|].
  exists w'. split_and!; [done| |by rewrite (quiet_locked _ _ Hq)].
  by eapply synced_inv; [|apply Hq].
Qed.

(** The item of the payload replaces nothing of another node; one that was
    listed under the source ([listed]) is still registered. *)
Definition fits (src : Source) (listed : OID -> Prop) (r : ReplicationInventoryItem)
    (m : gmap OID Item) : Prop :=
  (forall old, m !! ri_oid r = Some old -> node_of old = Some (src_node src)) /\
  (listed (ri_oid r) -> is_Some (m !! ri_oid r)).

Lemma takes_fits src listed r r' m m' :
  takes src r m m' -> fits src listed r' m -> fits src listed r' m'.
Proof.
  intros [Hne (i & Hi & Hn)] [Hf1 Hf2]. destruct (decide (ri_oid r' = ri_oid r)) as [E|E].
  - unfold fits. rewrite E, Hi. split; [naive_solver|by eexists].
  - unfold fits. by rewrite Hne.
Qed.

Lemma takes_loop src listed (body : ReplicationInventoryItem -> M World unit)
    (l : list (OID * ReplicationInventoryItem)) :
  (forall k r w m, (k, r) ∈ l -> synced src w m -> fits src listed r m ->
    exists w' m', body r w = (Ok tt, w') /\ synced src w' m' /\ takes src r m m' /\
      w_locked w' = w_locked w) ->
  forall w m, synced src w m -> (forall k r, (k, r) ∈ l -> fits src listed r m) ->
  exists w' m', for_each (fun '(_, r) => body r) l w = (Ok tt, w') /\ synced src w' m' /\
    (forall o, (forall k r, (k, r) ∈ l -> ri_oid r ≠ o) -> m' !! o = m !! o) /\
    (forall k r, (k, r) ∈ l ->
      exists i, m' !! ri_oid r = Some i /\ node_of i = Some (src_node src)) /\
    w_locked w' = w_locked w.
Proof.
  induction l as [|[k r] l IH]; intros Hb w m Hsy Hfit.
  { exists w, m. split_and!; [done..| |done]. by intros ??? %not_elem_of_nil. }
  destruct (Hb k r w m) as (w1 & m1 & E1 & Hsy1 & Ht & Hl1); [by apply list_elem_of_here|done|by apply (Hfit k), list_elem_of_here|].
  destruct IH with (w := w1) (m := m1) as (w2 & m2 & E2 & Hsy2 & Hne & Hin & Hl2); [|done| |].
  { intros k' r' ???. apply (Hb k'). by apply list_elem_of_further. }
  { intros k' r' Hr. eapply takes_fits; [done|]. apply (Hfit k'). by apply list_elem_of_further. }
  exists w2, m2. cbn [for_each]. rewrite run_bind, E1. split_and!; [done|done| | |congruence].
  - intros o Ho. rewrite Hne by (intros k' r' ?; apply (Ho k'); by apply list_elem_of_further).
    apply Ht. intros ->. by apply (Ho k r (list_elem_of_here _ _)).
  - intros k' r' [[= -> ->]|Hr]%elem_of_cons; [|by apply (Hin k')].
    destruct (decide (Exists (fun kr => ri_oid kr.2 = ri_oid r) l)) as [Hx|Hx].
    + apply Exists_exists in Hx as ([k' r'] & Hr & E). simpl in E. rewrite <-E.
      by apply (Hin k').
    + rewrite Hne; [apply Ht|]. intros k' r' Hr E. apply Hx, Exists_exists. by exists (k', r').
Qed.

(** The items that are not in the payload are removed. *)
Lemma remove_missing_loop src (rs : gmap OID ReplicationInventoryItem) (l : list (OID * Item)) :
  forall w m, synced src w m ->
  exists w' m', for_each (fun '(oid, _) =>
      w ← get;
      if src_is_destroyed (w_store w) src then mret tt
      else if bool_decide (is_Some (rs !! oid)) then mret tt
      else _ ← on_inv (remove_item oid); mret tt) l w = (Ok tt, w') /\
    synced src w' m' /\ w_locked w' = w_locked w /\
    forall o, m' !! o =
      if decide (o ∈ l.*1 /\ rs !! o = None) then None else m !! o.
Proof.
  induction l as [|[k x] l IH]; intros w m Hsy.
  { exists w, m. split_and!; [done..|]. intros o. case_decide as Hd; [|done].
    destruct Hd as [Hd _]. by apply not_elem_of_nil in Hd. }
  cbn [for_each]. rewrite run_bind, run_bind. unfold get at 1.
  rewrite (synced_destroyed _ _ _ Hsy). case_bool_decide as Hk.
  - destruct (IH w m Hsy) as (w' & m' & E & Hsy' & Hl & Hm). exists w', m'. rewrite run_ret.
    split_and!; [done..|]. intros o. rewrite Hm. cbn [fmap list_fmap fst].
    apply decide_ext. rewrite elem_of_cons. destruct Hk. naive_solver.
  - rewrite run_bind. unfold on_inv at 1.
    destruct (remove_item_ok _ _ k (sy_ok _ _ _ Hsy)) as (s' & -> & Hs & Hok).
    destruct (IH (set_inv s' w) (delete k m)) as (w' & m' & E & Hsy' & Hl & Hm).
    { split; [done|]. unfold w_store. simpl. rewrite Hs. apply Hsy. }
    exists w', m'. rewrite run_ret. split_and!; [done..|]. intros o.
    rewrite Hm, lookup_delete. cbn [fmap list_fmap fst]. rewrite <-eq_None_not_Some in Hk.
    destruct (decide (k = o)) as [<-|Hne].
    + rewrite (decide_True (P := k ∈ k :: l.*1 /\ _)); [by case_decide|].
      split; [by apply list_elem_of_here|done].
    + apply decide_ext. rewrite elem_of_cons. naive_solver.
Qed.

(** The loop over a payload whose items are under their OIDs. *)
Lemma takes_loop_map src listed (body : ReplicationInventoryItem -> M World unit)
    (rs : gmap OID ReplicationInventoryItem) w m :
  (forall k r, rs !! k = Some r -> ri_oid r = k /\ check_state r = true) ->
  (forall r w m, check_state r = true -> synced src w m -> fits src listed r m ->
    exists w' m', body r w = (Ok tt, w') /\ synced src w' m' /\ takes src r m m' /\
      w_locked w' = w_locked w) ->
  synced src w m -> (forall k r, rs !! k = Some r -> fits src listed r m) ->
  exists w' m', for_each (fun '(_, r) => body r) (map_to_list rs) w = (Ok tt, w') /\
    synced src w' m' /\ w_locked w' = w_locked w /\
    (forall o, rs !! o = None -> m' !! o = m !! o) /\
    (forall o, is_Some (rs !! o) ->
      exists i, m' !! o = Some i /\ node_of i = Some (src_node src)).
Proof.
  intros Hrs Hbody Hsy Hfit.
  destruct (takes_loop src listed body (map_to_list rs)) with (w := w) (m := m)
    as (w2 & m2 & E2 & Hsy2 & Hne & Hin & Hl2); [|done| |].
  - intros k r w0 m0 [_ Hc]%elem_of_map_to_list%Hrs. by apply Hbody.
  - intros k r Hr%elem_of_map_to_list. by apply (Hfit k).
  - exists w2, m2. split_and!; [done..| |].
    + intros o Ho. apply Hne. intros k r Hr%elem_of_map_to_list <-.
      destruct (Hrs _ _ Hr). congruence.
    + intros o [r Hr]. destruct (Hrs _ _ Hr) as [Ho _]. rewrite <-Ho. apply (Hin o).
      by apply elem_of_map_to_list.
Qed.

Lemma elem_of_keys {A} (g : gmap OID A) o : o ∈ (map_to_list g).*1 <-> is_Some (g !! o).
Proof.
  rewrite list_elem_of_fmap. split.
  - intros ([? i0] & -> & ?%elem_of_map_to_list). by exists i0.
  - intros [i0 ?]. exists (o, i0). split; [done|]. by apply elem_of_map_to_list.
Qed.

(** An item of a known source, which is listed or new to it. *)
Lemma process_remote_item_takes src m0 r online w m :
  let g := by_source m0 (Some (src_node src)) in
  synced src w m -> fits src (fun o => is_Some (g !! o)) r m -> check_state r = true ->
  exists w' m', process_remote_item e g src online r w = (Ok tt, w') /\ synced src w' m' /\
    takes src r m m' /\ w_locked w' = w_locked w.
Proof.
  intros g Hsy [Hf1 Hf2] Hc. unfold process_remote_item. rewrite run_bind. unfold get at 1.
  rewrite (synced_destroyed _ _ _ Hsy).
  destruct (g !! ri_oid r) as [ex|] eqn:Eg; [|by apply append_and_announce_takes].
  pose proof Eg as Hex. apply lookup_by_source in Hex as [_ Hn]. unfold node_of in Hn.
  destruct (it_source ex); [|done].
  case_match; [|by apply append_and_announce_takes].
  destruct (update_existing_synced src w m ex r online Hsy) as (w' & E & Hsy' & Hl').
  destruct Hf2 as [i Hi]; [by eexists|]. exists w', m. split_and!; [done..| |done].
  split; [done|]. exists i. auto.
Qed.

(** The items of the payload are taken one by one; [listed] are the OIDs of
    the items the source had before. *)
Lemma process_remote_items_sync src (rs : gmap OID ReplicationInventoryItem) online w m :
  synced src w m ->
  (forall k r, rs !! k = Some r -> ri_oid r = k /\ check_state r = true) ->
  (forall k r old, rs !! k = Some r -> m !! k = Some old -> node_of old = Some (src_node src)) ->
  exists w' m', process_remote_items e (nonempty (by_source m (Some (src_node src)))) rs src
      online false w = (Ok tt, w') /\
    synced src w' m' /\ w_locked w' = w_locked w /\
    (forall o, rs !! o = None -> m' !! o =
      if decide (is_Some (by_source m (Some (src_node src)) !! o)) then None else m !! o) /\
    (forall o, is_Some (rs !! o) ->
      exists i, m' !! o = Some i /\ node_of i = Some (src_node src)).
Proof.
  intros Hsy Hrs Hown. unfold process_remote_items.
  destruct (nonempty _) as [g|] eqn:Eg.
  - apply nonempty_Some in Eg as [-> _]. rewrite run_bind. simpl.
    set (g := by_source m (Some (src_node src))).
    destruct (remove_missing_loop src rs (map_to_list g) w m Hsy) as (w1 & m1 & -> & Hsy1 & Hl1 & Hm1).
    destruct (takes_loop_map src (fun o => is_Some (g !! o))
      (process_remote_item e g src online) rs w1 m1)
      as (w2 & m2 & E2 & Hsy2 & Hl2 & Hne & Hin); [done| |done| |].
    + intros. by apply process_remote_item_takes.
    + intros k r Hr. destruct (Hrs _ _ Hr) as [<- _]. unfold fits.
      rewrite Hm1, decide_False by (intros [_ ?]; congruence). split; [eauto|].
      intros [ex [? _]%lookup_by_source]. by eexists.
    + exists w2, m2. split_and!; [done|done|congruence| |done].
      intros o Ho. rewrite Hne, Hm1 by done. apply decide_ext. rewrite elem_of_keys. naive_solver.
  - apply nonempty_None in Eg. rewrite Eg.
    destruct (takes_loop_map src (fun _ => False) (fun remote =>
      w ← get;
      if src_is_destroyed (w_store w) src then mret tt
      else if check_state remote then append_and_announce e remote src online else mret tt)
      rs w m) as (w2 & m2 & E2 & Hsy2 & Hl2 & Hne & Hin); [done| |done| |].
    + intros r w0 m0 Hc Hsy0 [Hf1 Hf2].
      rewrite run_bind. unfold get at 1. rewrite (synced_destroyed _ _ _ Hsy0), Hc.
      by apply append_and_announce_takes.
    + intros k r Hr. destruct (Hrs _ _ Hr) as [<- _]. split; [eauto|done].
    + exists w2, m2. split_and!; [done..| |done].
      intros o Ho. rewrite lookup_empty, decide_False by (by intros []). by apply Hne.
Qed.

(** C33: A full inventory of another node, with valid items and none that
    belongs to a third node, is taken over completely: afterwards the items
    of that node are exactly those of the payload, the items of all other
    nodes are untouched, the indexes agree and the source is unlocked. *)
Theorem remote_inventory_sync (rs : gmap OID ReplicationInventoryItem) id sender w :
  inv_good (w_inv w) -> String.prefix "." id = false -> id ∉ w_locked w ->
  (forall src, sources (w_inventory w) !! id = Some src ->
    src_is_destroyed (w_store w) src = false) ->
  (forall k r, rs !! k = Some r -> ri_oid r = k /\ check_state r = true) ->
  remote_own rs id w ->
  exists w', process_remote_inventory e rs id sender false w = (Ok tt, w') /\
    inv_good (w_inv w') /\ w_locked w' = w_locked w /\
    (forall o, (exists i, get_item o (w_inventory w') = Some i /\ node_of i = Some id) <->
      is_Some (rs !! o)) /\
    (forall o i, node_of i ≠ Some id ->
      get_item o (w_inventory w') = Some i <-> get_item o (w_inventory w) = Some i).
Proof.
  intros [m Hw] Hp Hl Hlive Hrs Hown. unfold process_remote_inventory. rewrite Hp, run_bind.
  assert (lock_source id w = (Ok true, set_locked ({[id]} ∪ w_locked w) w)) as ->.
  { unfold lock_source. rewrite run_bind. unfold get at 1. by rewrite decide_False by done. }
  cbn [negb]. rewrite run_bind. unfold get at 1. rewrite run_bind. unfold on_inv at 1.
  destruct (get_or_create_source_live _ _ id sender Hw Hlive) as (src & σ & E & Hok & Hn & Hf).
  change (w_inv (set_locked _ w)) with (w_inv w). rewrite E.
  set (w2 := set_inv _ _). rewrite run_bind. unfold get at 1. rewrite run_bind.
  assert (synced src w2 m) as Hsy by (by split).
  change (w_inventory (set_locked _ w)) with (w_inventory w).
  unfold get_items_by_source. unfold w_inventory at 1.
  rewrite (repr_groups _ _ (ok_repr _ _ Hw)), <-Hn.
  destruct (process_remote_items_sync src rs (src_is_online (w_store w2) src) w2 m Hsy Hrs)
    as (w3 & m3 & -> & Hsy3 & Hl3 & Hm3 & Hin).
  { intros k r old Hr Ho. destruct (Hrs _ _ Hr) as [<- _]. rewrite Hn. apply (Hown _ _ _ Hr).
    unfold w_inventory. by rewrite (get_item_repr _ _ _ (ok_repr _ _ Hw)). }
  pose proof (ok_repr _ _ (sy_ok _ _ _ Hsy3)) as Hr3.
  eexists. split; [done|]. unfold w_inventory in *. simpl. split_and!.
  - exists m3. apply Hsy3.
  - rewrite Hl3. simpl. rewrite Hn. set_solver.
  - intros o. rewrite (get_item_repr _ _ _ Hr3). destruct (rs !! o) as [r|] eqn:Eo.
    + split; [by eexists|]. intros _. apply Hin. by eexists.
    + rewrite (Hm3 _ Eo). split; [|by intros [? ?]]. intros (i & Hi & Hni).
      case_decide as Hd; [done|]. destruct Hd. exists i. by apply lookup_by_source.
  - intros o i Hni. rewrite (get_item_repr _ _ _ Hr3), (get_item_repr _ _ _ (ok_repr _ _ Hw)).
    destruct (rs !! o) as [r|] eqn:Eo.
    + destruct (Hin o) as (j & Hj & Hnj); [by eexists|].
      split; [congruence|]. intros Hi. destruct (Hrs _ _ Eo) as [Ho _]. destruct Hni. rewrite Hn.
      apply (Hown _ _ _ Eo). rewrite Ho. by rewrite (get_item_repr _ _ _ (ok_repr _ _ Hw)).
    + rewrite (Hm3 _ Eo). case_decide as Hd; [|done]. split; [done|].
      destruct Hd as [j [Hj Hnj]%lookup_by_source]. congruence.
Qed.

(** The check that protects local items from a remote inventory never
    fires, as it looks an item up among the items of the sending node only.
    A payload with the OID of a local item, or of an item of a third node,
    replaces that item, which stays listed under its node. *)
Lemma remote_inventory_takes_item oid r id sender w old :
  inv_good (w_inv w) -> String.prefix "." id = false ->
  (forall src, sources (w_inventory w) !! id = Some src ->
    src_is_destroyed (w_store w) src = false) ->
  ri_oid r = oid -> check_state r = true ->
  get_item oid (w_inventory w) = Some old -> node_of old ≠ Some id ->
  exists w' item, process_remote_inventory e {[ oid := r ]} id sender true w = (Ok tt, w') /\
    get_item oid (w_inventory w') = Some item /\ node_of item = Some id /\
    items_by_source (w_inventory w') !! node_of old ≫= lookup oid = Some old /\
    ~ inv_good (w_inv w').
Proof.
  intros [m Hw] Hp Hlive Ho Hc Hold Hn. unfold process_remote_inventory. rewrite Hp, run_bind.
  rewrite run_ret. cbn [negb]. rewrite run_bind. unfold get at 1. rewrite run_bind.
  unfold on_inv at 1.
  destruct (get_or_create_source_live _ _ id sender Hw Hlive) as (src & σ & -> & Hok & Hsn & Hf).
  set (w2 := set_inv _ w). rewrite run_bind. unfold get at 1. rewrite run_bind.
  assert (synced src w2 m) as Hsy by (by split).
  rewrite <-Hsn in Hn. unfold w_inventory in Hold.
  rewrite (get_item_repr _ _ _ (ok_repr _ _ Hw)) in Hold.
  assert (exists w' item, process_remote_items e (get_items_by_source id (w_inventory w))
    {[oid := r]} src (src_is_online (w_store w2) src) true w2 = (Ok tt, w') /\
    it_source item = Some src /\ get_item oid (w_inventory w') = Some item /\
    items_by_source (w_inventory w') !! node_of old ≫= lookup oid = Some old /\
    (forall m', ~ inv_repr (w_inventory w') m')) as (w' & item & -> & His & Hg & Hs & Hno).
  2: { exists w', item. split_and!; [done|done| |done|].
       - unfold node_of. rewrite His. simpl. by rewrite Hsn.
       - intros [m' Hm']. apply (Hno m'), Hm'. }
  destruct (from_repl_item_ok _ Hc) as [st Hst].
  destruct (append_remote_stale (w_inv w2) m old r src st) as (item & s' & E & Hio & His & Hg & Hs & Hno).
  { done. } { destruct Hf as (f & Hf & _). by eexists. } { done. } { by rewrite Ho. } { done. }
  assert (exists w', append_and_announce e r src (src_is_online (w_store w2) src) w2 = (Ok tt, w') /\
    w_inv w' = s') as (w' & Ea & Ei).
  { unfold append_and_announce. rewrite run_bind. unfold attempt, on_inv at 1. rewrite E.
    case_decide; [by eexists|]. rewrite run_bind. simpl.
    destruct (item_local_state_event _ _); [|by eexists].
    destruct (log_ef_run (announce_remote_state e (it_oid item) (remote_of_local l (src_node src)
      (src_is_online (w_store w2) src)) true) (set_inv s' w2)) as (w' & -> & Hq);
      [eauto with keeps|]. exists w'. split; [done|]. by rewrite (quiet_inv _ _ Hq). }
  exists w', item. rewrite Ho in *. unfold w_inventory. rewrite Ei. split_and!; [|done..].
  unfold process_remote_items, get_items_by_source.
  rewrite (repr_groups _ _ (ok_repr _ _ Hw)), map_to_list_singleton. cbn [for_each].
  destruct (nonempty _) as [g|] eqn:Eg.
  - apply nonempty_Some in Eg as [-> _]. rewrite run_bind, run_ret, run_bind.
    unfold process_remote_item. rewrite run_bind. unfold get at 1.
    rewrite (synced_destroyed _ _ _ Hsy), Ho.
    replace (by_source m (Some id) !! oid) with (@None Item); [by rewrite Ea|].
    symmetry. apply eq_None_not_Some. intros [x [Hx Hnx]%lookup_by_source]. congruence.
  - rewrite run_bind, run_bind. unfold get at 1. rewrite (synced_destroyed _ _ _ Hsy), Hc.
    by rewrite Ea.
Qed.

End remote.
