(* ===== verification/CoreExamples.v ===== *)
(** * The node core at work

    A small node: a sensor, an lvar and a unit of its own, and a lamp
    replicated from another node.  The theorems of the core are applied to
    it, and some runs are evaluated that show where the code does not do
    what it means to. *)
From S2P Require Import Prelude EvaCommon ItemState ItemTree Inventory Core Replication CoreSpec CoreInvariant CoreBehaviour.

Module CoreExamples.
Import Sample.

Definition cfg : CoreConfig :=
  mkCoreConfig 7 "node1" (IsStrict true) (AcStrict true) false false true.
Definition env : Env :=
  mkEnv (fun k => f64_of_Z (1000 + Z.of_nat k)) (fun k => (1000 + Z.of_nat k)%Z)
    (fun _ => Ok tt) (fun _ => Ok None) (fun _ _ => Ok SUnit).

Definition temp : OID := (Sensor, "a").
Definition counter : OID := (Lvar, "b").
Definition lamp : OID := (Unit, "c").

Definition config (oid : OID) (value : Z) : ItemConfigData :=
  mkConfig oid None true None None (Some 1%Z) (Some (SNum value)) None.
Definition remote (oid : OID) (act : option Z) (n : Z) : ReplicationInventoryItem :=
  mkRItem oid (Some 1%Z) (Some (SNum n)) act (Some (4%Z, n)) (Some (f64_of_Z 90)) None true.

Definition w0 : World :=
  mkWorld (mkInv store_empty inventory_new) ∅ ∅ ∅ true true false false 0 0 [] [].
Definition deploy : core_op := CoDeploy [config temp 20; config counter 5].
Definition w1 : World := (core_exec env cfg deploy w0).2.
Definition payload : gmap OID ReplicationInventoryItem := {[ lamp := remote lamp (Some 0%Z) 5 ]}.
Definition w2 : World :=
  (core_exec env cfg (CoRemoteInventory payload "node2" "eva.repl.1") w1).2.

Definition temp_item : Item := mkItem temp (Some 1%positive) None None 2%positive None None.
Definition counter_item : Item := mkItem counter (Some 3%positive) None None 4%positive None None.
Definition node2 : Source := mkSource "node2" 5%positive "eva.repl.1".
Definition lamp_item : Item :=
  mkItem lamp (Some 6%positive) None (Some node2) 7%positive None None.

Example w2_items :
  get_item temp (w_inventory w2) = Some temp_item /\
  get_item counter (w_inventory w2) = Some counter_item /\
  get_item lamp (w_inventory w2) = Some lamp_item /\
  sources (w_inventory w2) !! "node2" = Some node2.
Proof. split_and!; vm_refl. Qed.

Lemma w1_get_none o : o ∈ [temp; counter] -> get_item o (w_inventory w0) = None.
Proof. intros [-> |[-> | []%not_elem_of_nil]%elem_of_cons]%elem_of_cons; vm_refl. Qed.

Lemma run_w1 : core_run env cfg w0 w1.
Proof.
  apply (run_step _ _ deploy); [|apply run_done].
  intros cf old [-> |[-> | []%not_elem_of_nil]%elem_of_cons]%elem_of_cons; simpl;
    by rewrite w1_get_none by set_solver.
Qed.

Lemma payload_own : remote_own payload "node2" w1.
Proof.
  intros k r old Hr. unfold payload in Hr. apply lookup_singleton_Some in Hr as [<- <-].
  assert (get_item lamp (w_inventory w1) = None) as E by vm_refl. simpl. by rewrite E.
Qed.

Lemma w0_good : inv_good (w_inv w0).
Proof. exists ∅. apply inv_ok_new. Qed.
Lemma w1_good : inv_good (w_inv w1).
Proof. apply (core_run_good env cfg _ _ run_w1), w0_good. Qed.
Lemma run_w2 : core_run env cfg w0 w2.
Proof.
  apply (run_step _ _ deploy); [|apply (run_step _ _ (CoRemoteInventory payload "node2" "eva.repl.1"))].
  - intros cf old [-> |[-> | []%not_elem_of_nil]%elem_of_cons]%elem_of_cons; simpl;
      by rewrite w1_get_none by set_solver.
  - apply payload_own.
  - apply run_done.
Qed.
Lemma w2_good : inv_good (w_inv w2).
Proof. apply (core_run_good env cfg _ _ run_w2), w0_good. Qed.

(** ** The theorems at work *)

Definition raw (v : Z) : RawStateEvent := raw_of 1 (Some (SNum v)) SNone None.

Lemma raw_update_never_blocks_example :
  w_stp (update_state_from_raw env cfg temp (raw 21) "eva.controller.1" w2).2 = false.
Proof.
  apply (raw_update_never_blocks env cfg temp (raw 21) "eva.controller.1" w2). vm_refl.
Defined.

Lemma raw_bulk_never_blocks_example :
  w_blocked (update_state_from_raw_bulk env cfg [(temp, raw 21); (counter, raw 6)]
    "eva.controller.1" w2).2 = w_blocked w2.
Proof.
  apply (raw_bulk_never_blocks env cfg [(temp, raw 21); (counter, raw 6)] "eva.controller.1" w2);
    [vm_refl|right; by repeat constructor].
Defined.

Lemma core_inventory_invariant_witness : inv_good (w_inv w2).
Proof. apply (core_inventory_invariant env cfg w0 w2); [apply run_w2|apply w0_good]. Defined.

Definition temp_state : ItemState := mkState 1 (SNum 20) None (7%Z, 1001%Z) (f64_of_Z 1000).


Definition temp_state' : ItemState := mkState 1 (SNum 21) None (7%Z, 1005%Z) (f64_of_Z 1004).


Definition counter_state : ItemState :=
  mkState 1 (SNum 5) None (7%Z, 1003%Z) (f64_of_Z 1002).
Definition lamp_state : ItemState :=
  mkState 1 (SNum 5) (Some 0%Z) (4%Z, 5%Z) (f64_of_Z 90).
Definition counter_state' : ItemState :=
  mkState 1 (SNum 6) None (7%Z, 1004%Z) (f64_of_Z 1005).

Lemma lvar_op_behaviour_example :
  exists w', w_inventory w' = w_inventory w2 /\
    lvar_op env cfg counter LvarIncrement "lvar.incr" "ui" w2 = (Ok (Some (SNum 6)), w') /\
    read_state (w_store w') 3%positive = counter_state'.
Proof.
  destruct (lvar_op_behaviour env cfg counter LvarIncrement "lvar.incr" "ui" w2 counter_item
    3%positive ltac:(vm_refl) ltac:(done) ltac:(done) ltac:(vm_refl) ltac:(done)
    ltac:(exists counter_state; vm_refl))
    as (w' & Hi & Hr).
  assert (lvar_apply LvarIncrement (gen env cfg (w_tick w2)) (env_now env (S (w_tick w2)))
    (read_state (w_store w2) 3%positive) = Ok (counter_state', Some (SNum 6))) as E by vm_refl.
  rewrite E in Hr. destruct Hr as (Hw & Hst & _). exists w'. split_and!; [exact Hi|exact Hw|].
  rewrite Hst. vm_refl.
Defined.


Definition lamp_event (n : Z) : ReplicationStateEvent :=
  mkRse (mkRs 1 (SNum n) (Some 0%Z) (4%Z, n) (f64_of_Z 95)) "node2" false.

(** The lamp has the id (4, 5): an event with the id (4, 6) is newer. *)
Lemma repl_event_behaviour_example :
  exists w', update_state_from_repl env lamp (RseBasic (lamp_event 6)) "eva.repl.1" w2 =
      (Ok tt, w') /\
    st_value (read_state (w_store w') 6%positive) = SNum 6.
Proof.
  destruct (repl_event_behaviour env lamp (lamp_event 6) "eva.repl.1" w2 lamp_item 6%positive
    ltac:(vm_refl) ltac:(done) ltac:(done) ltac:(done)
    ltac:(exists lamp_state; vm_refl))
    as (r & w' & Hw & _ & Hr).
  change (it_source lamp_item) with (Some node2) in Hr. cbv iota in Hr.
  replace (String.eqb (rse_node (lamp_event 6)) (src_node node2)) with true in Hr by done.
  destruct Hr as (-> & Hst & _). exists w'. split; [exact Hw|]. rewrite Hst. vm_refl.
Defined.

Lemma destroy_source_behaviour_example :
  exists w', destroy_source "node2" w2 = (Ok tt, w') /\
    get_item lamp (w_inventory w') = None /\ get_item temp (w_inventory w') = Some temp_item.
Proof.
  destruct (destroy_source_behaviour "node2" w2 w2_good) as (w' & Hw & Hget & _).
  { assert (w_locked w2 = ∅) as -> by vm_refl. set_solver. }
  exists w'. split; [exact Hw|]. rewrite !Hget. split; vm_refl.
Defined.

Definition switch : OID := (Unit, "d").
Definition payload2 : gmap OID ReplicationInventoryItem :=
  {[ switch := remote switch (Some 0%Z) 8 ]}.

(** A later inventory of the other node, without the lamp. *)
Lemma remote_inventory_sync_witness :
  exists w', process_remote_inventory env payload2 "node2" "eva.repl.1" false w2 = (Ok tt, w') /\
    (exists i, get_item switch (w_inventory w') = Some i /\ node_of i = Some "node2") /\
    get_item temp (w_inventory w') = Some temp_item.
Proof.
  destruct (remote_inventory_sync env payload2 "node2" "eva.repl.1" w2)
    as (w' & Hw & _ & _ & Hin & Hout).
  - apply w2_good.
  - done.
  - assert (w_locked w2 = ∅) as -> by vm_refl. set_solver.
  - assert (sources (w_inventory w2) !! "node2" = Some node2) as -> by vm_refl.
    intros src [= <-]. vm_refl.
  - intros k r Hr. unfold payload2 in Hr. apply lookup_singleton_Some in Hr as [<- <-]. done.
  - intros k r old Hr. unfold payload2 in Hr. apply lookup_singleton_Some in Hr as [<- <-].
    assert (get_item switch (w_inventory w2) = None) as E by vm_refl. simpl. by rewrite E.
  - exists w'. split; [exact Hw|]. split.
    + apply Hin. unfold payload2. rewrite lookup_singleton_eq. by eexists.
    + apply Hout; [done|vm_refl].
Defined.

(** The other node sends an item with the OID of the local sensor. *)
Lemma remote_inventory_takes_item_example :
  exists w' item, process_remote_inventory env {[ temp := remote temp None 9 ]} "node2"
      "eva.repl.1" true w2 = (Ok tt, w') /\
    get_item temp (w_inventory w') = Some item /\ node_of item = Some "node2" /\
    items_by_source (w_inventory w') !! None ≫= lookup temp = Some temp_item /\
    ~ inv_good (w_inv w').
Proof.
  apply (remote_inventory_takes_item env temp (remote temp None 9) "node2" "eva.repl.1" w2
    temp_item); [apply w2_good|done| |done|done|vm_refl|done].
  assert (sources (w_inventory w2) !! "node2" = Some node2) as -> by vm_refl.
  intros src [= <-]. vm_refl.
Defined.

(** ** Runs that go wrong *)

(** The sensor reports, and the delta to its previous value is to be written
    to a sensor that does not exist yet. *)
Definition raw_delta_event (v : Z) (other : OID) : RawStateEvent :=
  mkRaw 1 (Some (SNum v)) SNone None (Some (SetOtherValueDelta other OmeSkip NegSkip None))
    None None None None.
Definition total : OID := (Sensor, "t").

(** A frame of raw events can block the core for ever: the frame is
    processed under the state processor lock, and an event of it whose delta
    goes to an item that is created automatically takes the lock again.  The
    same event sent alone is processed. *)
Lemma bulk_delta_deadlock :
  let sender := "eva.controller.1" in
  let ev := raw_delta_event 25 total in
  w_stp w2 = false /\ w_blocked w2 = false /\
  w_blocked (update_state_from_raw_bulk env cfg [(temp, ev)] sender w2).2 = true /\
  w_blocked (update_state_from_raw env cfg temp ev sender w2).2 = false /\
  is_Some (get_item total (w_inventory (update_state_from_raw env cfg temp ev sender w2).2)).
Proof.
  cbv zeta. split_and!; [vm_refl..|].
  exists (mkItem total (Some 8%positive) None None 9%positive None None : Item). vm_refl.
Qed.

(** An event with the time zero is marked as not modified, and no item is
    created for it when it comes alone; when it comes in a frame, the item is
    created. *)
Lemma bulk_creates_unmodified :
  let sender := "eva.controller.1" in
  let ev := raw_of 1 (Some (SNum 1)) SNone (Some f64_zero) in
  get_item total (w_inventory (update_state_from_raw env cfg total ev sender w2).2) = None /\
  is_Some (get_item total (w_inventory
    (update_state_from_raw_bulk env cfg [(total, ev)] sender w2).2)).
Proof.
  cbv zeta. split; [vm_refl|].
  exists (mkItem total (Some 8%positive) None None 9%positive None None : Item). vm_refl.
Qed.

(** A unit deployed locally over the lamp of the other node. *)
Definition w3 : World := (deploy_local_items env cfg [config lamp 1] true w2).2.
Definition w4 : World := (destroy_source "node2" w3).2.
Definition local_lamp : Item := mkItem lamp (Some 8%positive) None None 9%positive None None.

(** A local item deployed with the OID of an item of another node is lost
    when that node is dropped, as the stale entry makes the core remove the
    item by its OID.  The source itself stays registered and destroyed, so
    when the node comes back its inventory is ignored. *)
Lemma deploy_over_remote_lost :
  get_item lamp (w_inventory w3) = Some local_lamp /\ node_of local_lamp = None /\
  get_item lamp (w_inventory w4) = None /\
  get_item lamp (w_inventory
    (process_remote_inventory env payload "node2" "eva.repl.1" false w4).2) = None /\
  get_item lamp (w_inventory
    (process_remote_inventory env payload "node2" "eva.repl.1" false w1).2) = Some lamp_item.
Proof. split_and!; vm_refl. Qed.

(** The state of a replicated item is checked when the node is new, and
    not when it is known already: a sensor with an action counter is then
    accepted. *)
Lemma remote_item_unchecked :
  let bad := remote total (Some 3%Z) 5 in
  let inv := {[ total := bad ]} : gmap OID ReplicationInventoryItem in
  check_state bad = false /\
  get_item total (w_inventory
    (process_remote_inventory env inv "node3" "eva.repl.1" false w2).2) = None /\
  is_Some (get_item total (w_inventory
    (process_remote_inventory env inv "node2" "eva.repl.1" false w2).2)).
Proof.
  cbv zeta. split_and!; [vm_refl..|].
  exists (mkItem total (Some 8%positive) None (Some node2) 9%positive None None : Item). vm_refl.
Qed.

End CoreExamples.
