(* ===== verification/ActMgr.v ===== *)
(** * The action manager (eva/src/actmgr.rs)

    The manager keeps the actions of a node with their status.  A local
    action is stored, sent to its service, and then marked as accepted or
    failed by the reply; in between, and after, the service reports the
    progress with events, and the core marks actions that take too long.
    The tasks interleave at every point where the source releases the lock,
    so the manager is a state machine whose steps are the critical sections. *)
From S2P Require Import Prelude EvaCommon.

(** [eva_common::actions::Status]; the codes are those of
    bindings/common/eva4-common.h *)
Inductive Status := Created | Accepted | Pending | Running | Completed | Failed | Canceled | Terminated.

#[export] Instance Status_eq_dec : EqDecision Status.
Proof. solve_decision. Defined.

Definition status_code (s : Status) : Z :=
  match s with
  | Created => 0 | Accepted => 1 | Pending => 2 | Running => 8
  | Completed => 15 | Failed => 128 | Canceled => 129 | Terminated => 130
  end.
Definition status_of_code (c : Z) : EResult Status :=
  match find (fun s => (status_code s =? c)%Z)
    [Created; Accepted; Pending; Running; Completed; Failed; Canceled; Terminated] with
  | Some s => Ok s
  | None => Err EInvalidData
  end.
#[export] Program Instance Status_countable : Countable Status :=
  inj_countable (fun s => Z.to_pos (status_code s + 1))
    (fun p => ok (status_of_code (Z.pos p - 1))) _.
Next Obligation. by intros []. Qed.

Definition ACTION_COMPLETED : Z := 15.
Definition status_ltb (a b : Status) : bool := (status_code a <? status_code b)%Z.
Definition status_leb (a b : Status) : bool := (status_code a <=? status_code b)%Z.

Section actmgr.
Context `{Ext : Externals} {Uuid : Type} `{Countable Uuid}.
(* [OIDMask::matches], [Error::to_string().into()] *)
Context (mask_matches : OIDMask -> OID -> bool) (error_value : Error -> Value).

(** [eva_common::actions::Params], the payload as one value *)
Inductive Params := ParamsUnit (v : Value) | ParamsLmacro (v : Value).

(** ** Queries *)

(** eva/src/actmgr.rs:34-42 [StatusQuery] *)
Inductive StatusQuery := QWaiting | QRunning | QCompleted | QFailed | QFinished.

(** eva/src/actmgr.rs:45-53 [StatusQuery::matches] *)
Definition query_matches (q : StatusQuery) (s : Status) : bool :=
  match q with
  | QWaiting => status_ltb s Running
  | QRunning => bool_decide (s = Running)
  | QCompleted => bool_decide (s = Completed)
  | QFailed => status_leb Failed s
  | QFinished => status_leb Completed s
  end.

(** eva/src/actmgr.rs:124-162 [Action]; the two triggers are counters of how
    often they have been triggered *)
Record Action := mkAction {
  a_uuid : option Uuid;
  a_i : OID;
  a_status : Status;
  a_started : Z;
  a_time : gmap Status f64;
  a_timeout : option Z;
  a_priority : Z;
  a_params : Params;
  a_config : option Value;
  a_node : option string;
  a_out : option Value;
  a_err : option Value;
  a_exitcode : option Z;
  a_completed : nat;
  a_core_completed : nat;
  a_target : string;
  a_wait : option Z
}.

Implicit Types a : Action.

(** eva/src/actmgr.rs:72-79 [Filter] *)
Record AFilter := mkAFilter {
  af_i : option OIDMask;
  af_sq : option StatusQuery;
  af_svc : option string;
  af_time : option Z;
  af_limit : option nat
}.
Definition DEFAULT_FILTER_LIMIT : nat := 50.

(** eva/src/actmgr.rs:94-118 [Filter::matches] *)
Definition afilter_matches (f : AFilter) a (ts_now : f64) : bool :=
  if match af_i f with Some mask => negb (mask_matches mask (a_i a)) | None => false end
  then false
  else if match af_sq f with Some sq => negb (query_matches sq (a_status a)) | None => false end
  then false
  else if match af_svc f with Some svc => negb (String.eqb svc (a_target a)) | None => false end
  then false
  else if match af_time f, a_time a !! Created with
          | Some time, Some created => f64_ltb created (f64_sub ts_now (f64_of_Z time))
          | _, _ => false
          end
  then false
  else true.

(** eva/src/actmgr.rs:167-184 [ActionInfo] *)
Record ActionInfo := mkActionInfo {
  ai_uuid : option Uuid;
  ai_oid : OID;
  ai_status : Status;
  ai_time : gmap Status f64;
  ai_priority : Z;
  ai_params : Params;
  ai_out : option Value;
  ai_err : option Value;
  ai_exitcode : option Z;
  ai_node : string;
  ai_svc : string;
  ai_finished : bool;
  ai_started : Z
}.

(** eva/src/actmgr.rs:187-203 [ActionInfo::from_action] *)
Definition info_from_action a (system_name : string) : ActionInfo :=
  mkActionInfo (a_uuid a) (a_i a) (a_status a) (a_time a) (a_priority a) (a_params a)
    (a_out a) (a_err a) (a_exitcode a) (default system_name (a_node a)) (a_target a)
    (status_leb Completed (a_status a)) (a_started a).

(** ** Actions *)

(** eva/src/actmgr.rs:263-273 [ActionArgs] *)
Record ActionArgs := mkArgs {
  aa_uuid : option Uuid;
  aa_oid : OID;
  aa_params : Params;
  aa_timeout : option Z;
  aa_priority : Z;
  aa_config : option Value;
  aa_node : option string;
  aa_target : string;
  aa_wait : option Z
}.

(** eva/src/actmgr.rs:276-315 [Action::create]; the new id and the clocks are
    arguments *)
Definition action_create (args : ActionArgs) (new_v4 : Uuid) (now : f64) (instant : Z) : Action :=
  let remote := match aa_node args with Some _ => true | None => false end in
  mkAction
    (match aa_uuid args with
     | Some u => Some u
     | None => if remote then None else Some new_v4
     end)
    (aa_oid args) Created instant {[ Created := now ]} (aa_timeout args) (aa_priority args)
    (aa_params args) (aa_config args) (aa_node args) None None None 0 0 (aa_target args)
    (if remote then aa_wait args else None).

Definition set_progress (s : Status) (out err : option Value) (exitcode : option Z)
    (triggered : bool) a : Action :=
  mkAction (a_uuid a) (a_i a) s (a_started a) (a_time a) (a_timeout a) (a_priority a)
    (a_params a) (a_config a) (a_node a) out err exitcode
    (if triggered then S (a_completed a) else a_completed a)
    (if triggered then S (a_core_completed a) else a_core_completed a)
    (a_target a) (a_wait a).
Definition set_time (s : Status) (now : f64) a : Action :=
  mkAction (a_uuid a) (a_i a) (a_status a) (a_started a) (<[s := now]> (a_time a))
    (a_timeout a) (a_priority a) (a_params a) (a_config a) (a_node a) (a_out a) (a_err a)
    (a_exitcode a) (a_completed a) (a_core_completed a) (a_target a) (a_wait a).

(** eva/src/actmgr.rs:328-343 [Action::mark_failed] *)
Definition mark_failed (e : Error) (now : f64) a : Action :=
  if status_ltb (a_status a) Completed then
    set_time Failed now
      (set_progress Failed (a_out a) (Some (error_value e)) (a_exitcode a) true a)
  else a.

(** eva/src/actmgr.rs:344-351 [Action::mark_accepted] *)
Definition mark_accepted (now : f64) a : Action :=
  let a :=
    if status_ltb (a_status a) Accepted
    then set_progress Accepted (a_out a) (a_err a) (a_exitcode a) false a else a in
  set_time Accepted now a.

(** ** The manager *)

(** eva/src/actmgr.rs:56-61 [RemoteActionData] *)
Record RemoteActionData := mkRemote {
  ra_node : string; ra_svc : string; ra_oid : OID; ra_started : Z
}.

(** eva/src/actmgr.rs:355-360 [Manager] *)
Record Manager := mkManager {
  actions : gmap Uuid Action;
  remote_actions : gmap Uuid RemoteActionData;
  keep_for : Z
}.
Definition set_actions (acts : gmap Uuid Action) (m : Manager) : Manager :=
  mkManager acts (remote_actions m) (keep_for m).

(** [eva_common::actions::ActionEvent] *)
Record ActionEvent := mkEvent {
  ev_uuid : Uuid;
  ev_status : Z;
  ev_out : option Value;
  ev_err : option Value;
  ev_exitcode : option Z
}.

(** eva/src/actmgr.rs:390-409 [Manager::process_event] *)
Definition process_event (event : ActionEvent) (now : f64) : M Manager unit :=
  m ← get;
  match actions m !! ev_uuid event with
  | Some action =>
      status ← lift (status_of_code (ev_status event));
      let action :=
        if (status_code (a_status action) <? ev_status event)%Z then
          let need_trigger :=
            (ACTION_COMPLETED <=? ev_status event)%Z
            && (status_code (a_status action) <? ACTION_COMPLETED)%Z in
          set_progress status (ev_out event) (ev_err event) (ev_exitcode event) need_trigger action
        else action in
      modify (set_actions (<[ev_uuid event := set_time status now action]> (actions m)))
  | None => mret tt
  end.

(** eva/src/actmgr.rs:413-431 [Manager::terminate_action], up to the call to
    the service: the target, or the error *)
Definition terminate_target (uuid : Uuid) (m : Manager) : EResult string :=
  match actions m !! uuid with
  | Some action =>
      if status_leb Completed (a_status action) then Err EFailed else Ok (a_target action)
  | None => Err ENotFound
  end.

(** The first critical section of [launch_action]: a local action is stored
    under its id (eva/src/actmgr.rs:462-470) *)
Definition launch_store (action : Action) : M Manager (option Uuid) :=
  match a_node action with
  | Some _ => mret None
  | None =>
      match a_uuid action with
      | Some uuid =>
          _ ← modify (fun m => set_actions (<[uuid := action]> (actions m)) m);
          mret (Some uuid)
      | None => raise ECore
      end
  end.

(** The reply of the service to a local action (eva/src/actmgr.rs:495-505) *)
Definition launch_reply (uuid : Uuid) (result : EResult unit) (now : f64) : M Manager unit :=
  m ← get;
  match actions m !! uuid with
  | Some action =>
      let action :=
        match result with
        | Err e => mark_failed e now action
        | Ok _ => mark_accepted now action
        end in
      modify (set_actions (<[uuid := action]> (actions m)))
  | None => raise ECore
  end.

(** The reply of a replication service: the id under which the other node
    runs the action (eva/src/actmgr.rs:477-494) *)
Definition launch_remote_reply (action : Action) (uuid : Uuid) (started : Z) : M Manager unit :=
  match a_node action with
  | Some node =>
      modify (fun m => mkManager (actions m)
        (<[uuid := mkRemote node (a_target action) (a_i action) started]> (remote_actions m))
        (keep_for m))
  | None => raise ECore
  end.

(** eva/src/actmgr.rs:449-506 [Manager::launch_action], run without
    interleaving; [reply] is the answer of the service, for a remote action
    with the id of the action *)
Definition launch_action (action : Action) (reply : EResult Uuid) (started : Z) (now : f64)
    : M Manager unit :=
  uuid ← launch_store action;
  match uuid with
  | None => ruuid ← lift reply; launch_remote_reply action ruuid started
  | Some uuid => launch_reply uuid (match reply with Ok _ => Ok tt | Err e => Err e end) now
  end.

(** eva/src/actmgr.rs:527-548 [Manager::must_be_completed]: the answer, and
    whether the action has to be terminated *)
Definition must_be_completed (uuid : Uuid) (m : Manager) : bool * bool :=
  match actions m !! uuid with
  | Some action =>
      if bool_decide (a_status action = Completed) then (true, false)
      else if status_leb Completed (a_status action) then (false, false)
      else (false, true)
  | None => (false, false)
  end.

(** eva/src/actmgr.rs:614-619 [Manager::mark_action_timed_out] *)
Definition mark_action_timed_out (uuid : Uuid) (now : f64) : M Manager unit :=
  m ← get;
  match actions m !! uuid with
  | Some action => modify (set_actions (<[uuid := mark_failed ETimeout now action]> (actions m)))
  | None => mret tt
  end.

(** eva/src/actmgr.rs:586-610 [Manager::get_actions_filtered_serialized],
    before it is packed; [sort] is the derived order on [started] *)
Definition get_actions_filtered (sort : list ActionInfo -> list ActionInfo) (f : AFilter)
    (system_name : string) (ts_now : f64) (m : Manager) : list ActionInfo :=
  let act := filter (fun a => afilter_matches f a ts_now = true) (map_to_list (actions m)).*2 in
  let result := sort ((fun a => info_from_action a system_name) <$> act) in
  let limit := default DEFAULT_FILTER_LIMIT (af_limit f) in
  if (limit <? length result)%nat then drop (length result - limit) result else result.

(** eva/src/actmgr.rs:659-675 [cleanup_action_history] *)
Definition cleanup_action_history (t : Z) (m : Manager) : Manager :=
  mkManager
    (filter (fun ua => (t < a_started ua.2 + keep_for m)%Z \/ status_ltb (a_status ua.2) Completed = true)
       (actions m))
    (filter (fun ur => (t < ra_started ur.2 + keep_for m)%Z) (remote_actions m))
    (keep_for m).

(** ** The state machine *)

(** The critical sections, in any order the tasks run them. *)
Inductive mgr_op :=
  | OpStore (args : ActionArgs) (new_v4 : Uuid) (now : f64) (instant : Z)
  | OpReply (uuid : Uuid) (result : EResult unit) (now : f64)
  | OpRemoteReply (action : Action) (uuid : Uuid) (started : Z)
  | OpEvent (event : ActionEvent) (now : f64)
  | OpTimedOut (uuid : Uuid) (now : f64)
  | OpCleanup (t : Z).

Definition mgr_exec (op : mgr_op) (m : Manager) : Manager :=
  match op with
  | OpStore args new_v4 now instant => (launch_store (action_create args new_v4 now instant) m).2
  | OpReply uuid result now => (launch_reply uuid result now m).2
  | OpRemoteReply action uuid started => (launch_remote_reply action uuid started m).2
  | OpEvent event now => (process_event event now m).2
  | OpTimedOut uuid now => (mark_action_timed_out uuid now m).2
  | OpCleanup t => cleanup_action_history t m
  end.

(** The operation does not start an action under this id. *)
Definition keeps_id (uuid : Uuid) (op : mgr_op) : Prop :=
  match op with
  | OpStore args new_v4 now instant => a_uuid (action_create args new_v4 now instant) ≠ Some uuid
  | _ => True
  end.

Definition finished a : bool := status_leb Completed (a_status a).

Lemma not_finished a : status_ltb (a_status a) Completed = negb (finished a).
Proof. unfold status_ltb, finished, status_leb. destruct (a_status a); done. Qed.

(** The two triggers fire together, once, when the action is finished. *)
Record action_ok a : Prop := {
  triggers_agree : a_core_completed a = a_completed a;
  triggered_once : a_completed a = if finished a then 1 else 0;
  created_known : is_Some (a_time a !! Created)
}.

(** What every critical section does to an action that stays stored. *)
Record progresses a a' : Prop := {
  prog_status : (status_code (a_status a) <= status_code (a_status a'))%Z;
  prog_ok : action_ok a -> action_ok a';
  prog_same : a_i a' = a_i a /\ a_target a' = a_target a /\ a_started a' = a_started a
}.

#[global] Instance progresses_preorder : PreOrder progresses.
Proof.
  split; [by intros a; split|]. intros x y z [? ? [? [? ?]]] [? ? [? [? ?]]].
  split; [lia|auto|split_and!; congruence].
Qed.

Lemma status_of_code_Ok c s : status_of_code c = Ok s -> status_code s = c.
Proof.
  unfold status_of_code. destruct (find _ _) as [s'|] eqn:E; [|done]. intros [= <-].
  apply find_some in E as [_ ?]. lia.
Qed.

Lemma set_time_progresses s now a : progresses a (set_time s now a).
Proof.
  split; [done| |done]. intros [? ? Hc]. split; simpl; [done|done|].
  rewrite lookup_insert. by case_decide.
Qed.

(** A change of the status fires the triggers exactly if it finishes the
    action. *)
Lemma set_progress_progresses s out err exitcode a :
  (status_code (a_status a) <= status_code s)%Z ->
  progresses a (set_progress s out err exitcode (status_leb Completed s && negb (finished a)) a).
Proof.
  intros Hle. split; [done| |done]. intros [Ht Hc Hk]. split; [|simpl|done].
  - simpl. by rewrite Ht.
  - unfold finished, status_leb in *. simpl in *. rewrite Hc.
    destruct (a_status a), s; simpl in *; lia.
Qed.

Lemma mark_failed_progresses e now a : progresses a (mark_failed e now a).
Proof.
  unfold mark_failed. rewrite not_finished. destruct (finished a) eqn:E; simpl; [reflexivity|].
  etrans; [|apply set_time_progresses].
  pose proof (set_progress_progresses Failed (a_out a) (Some (error_value e)) (a_exitcode a) a) as Hp.
  rewrite E in Hp. apply Hp. unfold finished, status_leb in E. destruct (a_status a); simpl in *; lia.
Qed.

Lemma mark_accepted_progresses now a : progresses a (mark_accepted now a).
Proof.
  unfold mark_accepted. etrans; [|apply set_time_progresses]. case_match eqn:E; [|reflexivity].
  apply (set_progress_progresses Accepted). unfold status_ltb in E. simpl in *. lia.
Qed.

Lemma process_event_progresses status event now a :
  status_of_code (ev_status event) = Ok status ->
  progresses a (set_time status now
    (if (status_code (a_status a) <? ev_status event)%Z then
       set_progress status (ev_out event) (ev_err event) (ev_exitcode event)
         ((ACTION_COMPLETED <=? ev_status event)%Z
          && (status_code (a_status a) <? ACTION_COMPLETED)%Z) a
     else a)).
Proof.
  intros <-%status_of_code_Ok. etrans; [|apply set_time_progresses].
  destruct (Z.ltb_spec (status_code (a_status a)) (status_code status)); [|reflexivity].
  replace (_ && _) with (status_leb Completed status && negb (finished a)).
  - apply set_progress_progresses. lia.
  - unfold status_leb, finished, status_leb, ACTION_COMPLETED.
    destruct status, (a_status a); done.
Qed.

(** A write to one entry of the actions. *)
Lemma insert_progresses (acts : gmap Uuid Action) u uuid a a1 a1' :
  acts !! u = Some a1 -> progresses a1 a1' -> acts !! uuid = Some a ->
  exists a', <[u := a1']> acts !! uuid = Some a' /\ progresses a a'.
Proof.
  intros Hu Hp Ha. rewrite lookup_insert. case_decide; [subst|by exists a].
  exists a1'. by simplify_eq.
Qed.

Lemma mgr_exec_progresses op m uuid a :
  actions m !! uuid = Some a -> keeps_id uuid op ->
  match actions (mgr_exec op m) !! uuid with
  | Some a' => progresses a a'
  | None => finished a = true /\ exists t, op = OpCleanup t /\ (a_started a + keep_for m <= t)%Z
  end.
Proof.
  intros Ha Hk.
  assert (forall acts' : gmap Uuid Action, (exists a', acts' !! uuid = Some a' /\ progresses a a') ->
    match acts' !! uuid with
    | Some a' => progresses a a'
    | None => finished a = true /\ exists t, op = OpCleanup t /\ (a_started a + keep_for m <= t)%Z
    end) as Hw.
  { intros acts' (a' & -> & ?). done. }
  destruct op; simpl in Hk |- *.
  - unfold launch_store. unfold_m. apply Hw. exists a. split; [|reflexivity].
    destruct (a_node _); [done|]. destruct (a_uuid _) as [u|] eqn:E; [|done].
    unfold action_create in E. simpl in *. rewrite lookup_insert_ne; [done|]. congruence.
  - unfold launch_reply. unfold_m. apply Hw. destruct (actions m !! uuid0) as [a1|] eqn:E; simpl.
    + eapply insert_progresses; [done| |done].
      destruct result; [apply mark_accepted_progresses|apply mark_failed_progresses].
    + exists a. split; [done|reflexivity].
  - unfold launch_remote_reply. unfold_m. apply Hw. exists a.
    split; [by destruct (a_node _)|reflexivity].
  - unfold process_event. unfold_m. apply Hw.
    destruct (actions m !! ev_uuid event) as [a1|] eqn:E; simpl.
    + destruct (status_of_code (ev_status event)) as [status|] eqn:Es; simpl.
      * eapply insert_progresses; [done|by apply process_event_progresses|done].
      * exists a. split; [done|reflexivity].
    + exists a. split; [done|reflexivity].
  - unfold mark_action_timed_out. unfold_m. apply Hw.
    destruct (actions m !! uuid0) as [a1|] eqn:E; simpl.
    + eapply insert_progresses; [done|apply mark_failed_progresses|done].
    + exists a. split; [done|reflexivity].
  - rewrite map_lookup_filter, Ha. simpl. case_guard as Hg; simpl; [reflexivity|].
    rewrite not_finished in Hg. destruct (finished a); [|by destruct Hg; right].
    split; [done|]. exists t. split; [done|]. destruct (Z_lt_ge_dec t (a_started a + keep_for m)); [|lia].
    by destruct Hg; left.
Qed.

(** The states of the manager that can be reached. *)
Inductive mgr_reached : Manager -> Prop :=
  | mgr_start keep : mgr_reached (mkManager ∅ ∅ keep)
  | mgr_step op m : mgr_reached m -> mgr_reached (mgr_exec op m).

Lemma launch_store_lookup args new_v4 now instant m uuid a :
  actions (launch_store (action_create args new_v4 now instant) m).2 !! uuid = Some a ->
  a = action_create args new_v4 now instant \/ actions m !! uuid = Some a.
Proof.
  unfold launch_store. unfold_m. destruct (a_node _); [by right|].
  destruct (a_uuid _) as [u|]; [|by right]. simpl. rewrite lookup_insert. case_decide; naive_solver.
Qed.

Lemma action_create_ok args new_v4 now instant : action_ok (action_create args new_v4 now instant).
Proof. split; [done|done|]. simpl. rewrite lookup_singleton_eq. by eexists. Qed.

Lemma mgr_exec_lookup op m uuid a' :
  actions (mgr_exec op m) !! uuid = Some a' ->
  (exists args new_v4 now instant, a' = action_create args new_v4 now instant) \/
  exists a, actions m !! uuid = Some a /\ progresses a a'.
Proof.
  intros Ha'. destruct (actions m !! uuid) as [a|] eqn:Ha.
  - assert (keeps_id uuid op \/ exists args u now i, op = OpStore args u now i)
      as [Hk|(args & u & now & i & ->)]
      by (destruct op; [right; by eexists _, _, _, _|by left..]).
    + pose proof (mgr_exec_progresses op m uuid a Ha Hk) as Hp. rewrite Ha' in Hp.
      right. by exists a.
    + destruct (launch_store_lookup _ _ _ _ _ _ _ Ha') as [-> | ?]; [left; by eexists _, _, _, _|].
      right. exists a. split; [done|]. by simplify_eq.
  - left. destruct op; simpl in Ha'.
    + destruct (launch_store_lookup _ _ _ _ _ _ _ Ha') as [-> | ?]; [by eexists _, _, _, _|congruence].
    + unfold launch_reply in Ha'. unfold_m. destruct (actions m !! uuid0) eqn:E; simpl in *; [|congruence].
      rewrite lookup_insert in Ha'. case_decide; congruence.
    + unfold launch_remote_reply in Ha'. unfold_m. destruct (a_node _); simpl in *; congruence.
    + unfold process_event in Ha'. unfold_m.
      destruct (actions m !! ev_uuid event) eqn:E; simpl in *; [|congruence].
      destruct (status_of_code _); simpl in *; [|congruence].
      rewrite lookup_insert in Ha'. case_decide; congruence.
    + unfold mark_action_timed_out in Ha'. unfold_m.
      destruct (actions m !! uuid0) eqn:E; simpl in *; [|congruence].
      rewrite lookup_insert in Ha'. case_decide; congruence.
    + apply map_lookup_filter_Some in Ha' as [? _]. congruence.
Qed.

(** C25: Whatever the order in which launches, replies, events, timeouts and
    clean-ups run, the two triggers of a stored action have fired exactly
    once if the action is finished and not at all before, and the time of
    its creation is known. *)
Theorem action_triggers_once m uuid a :
  mgr_reached m -> actions m !! uuid = Some a ->
  a_completed a = (if finished a then 1 else 0) /\ a_core_completed a = a_completed a /\
  is_Some (a_time a !! Created).
Proof.
  intros Hm Ha. enough (action_ok a) as [] by done. revert uuid a Ha.
  induction Hm as [keep|op m Hm IH]; intros uuid a' Ha'.
  { simpl in Ha'. by rewrite lookup_empty in Ha'. }
  destruct (mgr_exec_lookup _ _ _ _ Ha') as [(args & u & now & i & ->)|(a & Ha & Hp)].
  - apply action_create_ok.
  - apply Hp. by eapply IH.
Qed.

(** The status of a stored action never goes back: no critical section
    lowers its code, so a finished action stays finished, and a reply of the
    service that is overtaken by an event does not undo it.  An action is
    dropped only by the clean-up, only when it is finished, and only when it
    is older than the history; so no action in progress is ever lost. *)
Lemma action_status_monotone op m uuid a :
  actions m !! uuid = Some a -> keeps_id uuid op ->
  match actions (mgr_exec op m) !! uuid with
  | Some a' =>
      (status_code (a_status a) <= status_code (a_status a'))%Z /\
      (finished a = true -> finished a' = true) /\
      a_i a' = a_i a /\ a_target a' = a_target a
  | None =>
      finished a = true /\ exists t, op = OpCleanup t /\ (a_started a + keep_for m <= t)%Z
  end.
Proof.
  intros Ha Hk. pose proof (mgr_exec_progresses op m uuid a Ha Hk) as Hp.
  destruct (actions (mgr_exec op m) !! uuid) as [a'|]; [|done]. destruct Hp as [Hs _ (? & ? & _)].
  split_and!; [done| |done|done]. unfold finished, status_leb.
  destruct (a_status a), (a_status a'); simpl in *; lia || done.
Qed.

End actmgr.

Module ActMgrExamples.
Import Sample.

Definition args : ActionArgs (Uuid := positive) :=
  mkArgs None (Unit, "a") (ParamsUnit (SNum 1)) (Some 5%Z) 100 None None "eva.controller.1" None.
Definition error_value (e : Error) : Value := SUnit.
Definition exec := mgr_exec (Uuid := positive) error_value.
Definition event (code : Z) : ActionEvent := mkEvent 9%positive code None None None.
Definition m0 : Manager (Uuid := positive) := mkManager ∅ ∅ 600.
Definition m1 := exec (OpStore args 9%positive (f64_of_Z 1) 10) m0.
Definition m2 := exec (OpEvent (event 15) (f64_of_Z 2)) m1.
(** The reply comes after the event that completes the action. *)
Definition m3 := exec (OpReply 9%positive (Ok tt) (f64_of_Z 3)) m2.

Definition status_at (m : Manager (Uuid := positive)) : option (Status * nat) :=
  (fun a => (a_status a, a_completed a)) <$> actions m !! 9%positive.

Example m3_status : status_at m1 = Some (Created, 0) /\ status_at m3 = Some (Completed, 1).
Proof. split; vm_refl. Qed.

Lemma m3_reached : mgr_reached error_value m3.
Proof. repeat apply (mgr_step (Uuid := positive)). apply mgr_start. Qed.

Lemma action_triggers_once_witness :
  exists a, actions m3 !! 9%positive = Some a /\ a_completed a = 1.
Proof.
  assert (exists a, actions m3 !! 9%positive = Some a /\ finished a = true) as (a & Ha & Hf).
  { destruct (actions m3 !! 9%positive) as [a|] eqn:E; [|by assert (status_at m3 = None) by
      (unfold status_at; by rewrite E)].
    exists a. split; [done|]. assert (status_at m3 = Some (Completed, 1)) as Hs by vm_refl.
    unfold status_at in Hs. rewrite E in Hs. injection Hs as Hs _. unfold finished. by rewrite Hs. }
  exists a. split; [done|].
  destruct (action_triggers_once error_value m3 9%positive a m3_reached Ha) as [-> _].
  by rewrite Hf.
Defined.

Lemma action_status_monotone_example :
  exists a, actions m2 !! 9%positive = Some a /\
    match actions m3 !! 9%positive with
    | Some a' => (status_code (a_status a) <= status_code (a_status a'))%Z
    | None => False
    end.
Proof.
  destruct (actions m2 !! 9%positive) as [a|] eqn:E.
  - exists a. split; [done|].
    pose proof (action_status_monotone error_value (OpReply 9%positive (Ok tt) (f64_of_Z 3))
      m2 9%positive a E I) as Hs. fold exec in Hs. fold m3 in Hs.
    destruct (actions m3 !! 9%positive); [apply Hs|].
    destruct Hs as (_ & t & Ht & _). discriminate Ht.
  - assert (status_at m2 = Some (Completed, 1)) as Hs by vm_refl.
    unfold status_at in Hs. by rewrite E in Hs.
Defined.
End ActMgrExamples.
