(* ===== verification/CoreAction.v ===== *)
(** * The node core: actions (eva/src/core.rs)

    An action on a unit or a macro: what the core checks, the action it
    creates, and the counter of the actions in progress that it keeps in the
    state of the unit.  The life of the action itself is in [ActMgr]. *)
From S2P Require Import Prelude EvaCommon ItemState ItemTree Inventory Core Replication CoreSpec CoreInvariant CoreBehaviour ActMgr.

Section action.
Context `{Ext : Externals} `{NExt : !NodeExternals} {Uuid : Type} `{Countable Uuid}.
(* [core.timeout] and [Duration::from_secs_f64] *)
Variable (e : Env) (cfg : CoreConfig) (core_timeout : Z) (from_secs_f64 : f64 -> Z).

Abbreviation CM := (M World).
Implicit Types w : World.

(** The kind of the item has to fit the parameters; no parameters stand for
    toggling a unit (eva/src/core.rs:954-973) *)
Definition check_params (oid : OID) (action_params : option Params) : EResult (option Params) :=
  match action_params with
  | Some (ParamsUnit v) =>
      if decide (oid_kind oid = Unit) then Ok (Some (ParamsUnit v)) else Err EInvalidData
  | Some (ParamsLmacro v) =>
      if decide (oid_kind oid = Lmacro) then Ok (Some (ParamsLmacro v)) else Err EInvalidData
  | None => if decide (oid_kind oid = Unit) then Ok None else Err EInvalidData
  end.

(** The value a unit is toggled to (eva/src/core.rs:983-988) *)
Definition toggle_value (st : ItemState) : Value :=
  match value_to_i64 (st_value st) with
  | Some n => VU8 (if (n <=? 0)%Z then 1 else 0)
  | None => VU8 1
  end.

(** The counter of a local unit is incremented and announced
    (eva/src/core.rs:1028-1039) *)
Definition count_started (item : Item) : CM unit :=
  with_stp true
    match it_state item with
    | Some stc =>
        ieid ← generate_ieid e cfg;
        now ← time_now e;
        w ← get;
        let state := act_incr ieid now (read_state (w_store w) stc) in
        _ ← on_cells (write_state stc state);
        announce_local_state e (it_oid item) (local_state_event_of state)
    | None => mret tt
    end.

(** The block of [Core::action] that creates the action, with the timeout of
    the node for a remote one (eva/src/core.rs:974-1046) *)
Definition action_start (u : option Uuid) (oid : OID) (params : option Params) (priority : Z)
    (wait : option Z) (new_v4 : Uuid) (instant : Z) : CM (Action (Uuid := Uuid) * option Z) :=
  w ← get;
  match get_item oid (w_inventory w) with
  | None => raise ENotFound
  | Some item =>
      if negb (item_is_enabled (w_store w) item) then raise EAccess
      else
        a_params ←
          match params with
          | Some p => mret p
          | None =>
              match it_state item with
              | Some state => mret (ParamsUnit (toggle_value (read_state (w_store w) state)))
              | None => raise EAccess
              end
          end;
        match it_source item with
        | Some source =>
            now ← time_now e;
            mret (action_create
                    (mkArgs u oid a_params None priority None (Some (src_node source))
                       (src_svc source) wait) new_v4 now instant,
                  w_nodes w !! src_node source ≫= node_timeout)
        | None =>
            match it_action item with
            | Some ac =>
                now ← time_now e;
                let action := action_create
                  (mkArgs u oid a_params
                     (Some match ac_timeout ac with
                           | Some t => from_secs_f64 t
                           | None => core_timeout
                           end)
                     priority (ac_config ac) None (ac_svc ac) None) new_v4 now instant in
                _ ← count_started item;
                mret (action, None)
            | None => raise EFailed
            end
        end
  end.

(** [Core::action] up to the launch of the action (eva/src/core.rs:942-1046) *)
Definition core_action (u : option Uuid) (oid : OID) (action_params : option Params)
    (priority : Z) (wait : option Z) (new_v4 : Uuid) (instant : Z)
    : CM (Action (Uuid := Uuid) * option Z) :=
  params ← lift (check_params oid action_params);
  action_start u oid params priority wait new_v4 instant.

(** The end of the task that runs a local action: the counter of the unit is
    decremented (eva/src/core.rs:1069-1090) *)
Definition action_end (oid : OID) : CM unit :=
  if decide (oid_kind oid = Unit) then
    w ← get;
    match get_item oid (w_inventory w) with
    | Some unit =>
        match it_source unit with
        | Some _ => mret tt
        | None =>
            with_stp true
              match it_state unit with
              | Some stc =>
                  ieid ← generate_ieid e cfg;
                  now ← time_now e;
                  w ← get;
                  let state := act_decr ieid now (read_state (w_store w) stc) in
                  _ ← on_cells (write_state stc state);
                  log_ef (announce_local_state e (it_oid unit) (local_state_event_of state))
              | None => mret tt
              end
        end
    | None => mret tt
    end
  else mret tt.

(** eva/src/core.rs:904-921 [Core::kill_actions], the service to call *)
Definition kill_target (oid : OID) (inv : Inventory) : EResult string :=
  match get_item oid inv with
  | Some unit =>
      match it_action unit with Some ac => Ok (ac_svc ac) | None => Err EFailed end
  | None => Err ENotFound
  end.

(** ** Properties *)

Definition act_of w (l : loc) : Z := busy (read_state (w_store w) l).

Lemma count_started_run item l w :
  it_state item = Some l -> is_Some (s_state (w_store w) !! l) -> w_stp w = false ->
  let st := act_incr (gen e cfg (w_tick w)) (env_now e (S (w_tick w))) (read_state (w_store w) l) in
  exists w', count_started item w = (env_io e (w_calls w), w') /\
    w_inventory w' = w_inventory w /\ w_stp w' = false /\ w_blocked w' = w_blocked w /\
    (forall l', read_state (w_store w') l' =
      if decide (l = l') then st else read_state (w_store w) l') /\
    (forall l', is_Some (s_state (w_store w) !! l') -> is_Some (s_state (w_store w') !! l')) /\
    s_flag (w_store w') = s_flag (w_store w).
Proof.
  intros Hl Hal Hs st. unfold count_started. rewrite with_stp_run, Hs, Hl.
  unfold generate_ieid, monotonic_ns, time_now, on_cells, announce_local_state, publish, io_call.
  unfold_m. simpl. destruct (env_io e (w_calls w)) as [[]|]; simpl; eexists;
    (split_and!; [done|done|done|done| | |done]); intros l';
    solve [by apply (read_write_state (w_store w) l st)|by apply is_Some_alter].
Qed.

Lemma action_end_run oid item l w :
  get_item oid (w_inventory w) = Some item -> oid_kind oid = Unit -> it_source item = None ->
  it_state item = Some l -> is_Some (s_state (w_store w) !! l) -> w_stp w = false ->
  let st := act_decr (gen e cfg (w_tick w)) (env_now e (S (w_tick w))) (read_state (w_store w) l) in
  exists w', action_end oid w = (Ok tt, w') /\ w_inventory w' = w_inventory w /\
    w_stp w' = false /\ w_blocked w' = w_blocked w /\
    (forall l', read_state (w_store w') l' =
      if decide (l = l') then st else read_state (w_store w) l').
Proof.
  intros Hi Hk Hsrc Hl Hal Hs st. unfold action_end. rewrite decide_True by done.
  rewrite run_bind. unfold get at 1. rewrite Hi, Hsrc, with_stp_run, Hs, Hl.
  unfold generate_ieid, monotonic_ns, time_now, on_cells, announce_local_state, publish, io_call.
  unfold_m. simpl. destruct (env_io e (w_calls w)) as [[]|]; simpl; eexists;
    (split_and!; [done|done|done|done|]); intros l';
    by apply (read_write_state (w_store w) l st).
Qed.

Definition ready_alloc_at w (l : loc) : Prop := is_Some (s_state (w_store w) !! l).

(** A local unit that takes actions. *)
Record ready oid w (item : Item) (ac : ActionConfig) (l : loc) : Prop := {
  ready_item : get_item oid (w_inventory w) = Some item;
  ready_unit : oid_kind oid = Unit;
  ready_local : it_source item = None;
  ready_enabled : item_is_enabled (w_store w) item = true;
  ready_action : it_action item = Some ac;
  ready_state : it_state item = Some l;
  ready_alloc : is_Some (s_state (w_store w) !! l);
  ready_unlocked : w_stp w = false;
  ready_count : (0 <= act_of w l < 2 ^ 64 - 1)%Z
}.

Lemma core_action_run u oid v priority wait new_v4 instant w item ac l :
  ready oid w item ac l ->
  exists w1, core_action u oid (Some (ParamsUnit v)) priority wait new_v4 instant w =
      (match env_io e (w_calls w) with
       | Ok _ => Ok (action_create (mkArgs u oid (ParamsUnit v)
           (Some match ac_timeout ac with Some t => from_secs_f64 t | None => core_timeout end)
           priority (ac_config ac) None (ac_svc ac) None) new_v4 (env_now e (w_tick w)) instant, None)
       | Err err => Err err
       end, w1) /\
    ready_alloc_at w1 l /\ w_inventory w1 = w_inventory w /\ w_stp w1 = false /\
    act_of w1 l = (act_of w l + 1)%Z /\
    (forall l', l' ≠ l -> read_state (w_store w1) l' = read_state (w_store w) l').
Proof.
  intros [Hi Hk Hs He Ha Hl Hal Hu Hc]. unfold core_action, check_params.
  rewrite run_bind, decide_True by done. unfold lift. unfold action_start.
  rewrite run_bind. unfold get at 1. rewrite Hi, He. cbn [negb]. rewrite run_bind, run_ret, Hs, Ha.
  rewrite run_bind. unfold time_now at 1. rewrite run_bind. set (w' := set_tick _ w).
  destruct (count_started_run item l w' Hl Hal Hu) as (w1 & -> & Hinv & Hstp & _ & Hst & Hal1 & _).
  exists w1. change (w_calls w') with (w_calls w). split_and!.
  - by destruct (env_io e (w_calls w)) as [[]|].
  - by apply Hal1.
  - done.
  - done.
  - unfold act_of in *. rewrite Hst, decide_True by done. by apply act_incr_busy.
  - intros l' Hne. by rewrite Hst, decide_False by congruence.
Qed.

(** The counter of a unit is balanced: an action on a local unit
    increments it, the end of the action decrements it, and after both it is
    what it was; no other state is touched. *)
Lemma action_counter_balanced u oid v priority wait new_v4 instant w item ac l :
  ready oid w item ac l -> env_io e (w_calls w) = Ok tt ->
  exists a w1 w2,
    core_action u oid (Some (ParamsUnit v)) priority wait new_v4 instant w = (Ok (a, None), w1) /\
    a_i a = oid /\ a_target a = ac_svc ac /\ a_status a = Created /\
    act_of w1 l = (act_of w l + 1)%Z /\
    action_end oid w1 = (Ok tt, w2) /\ act_of w2 l = act_of w l /\
    (forall l', l' ≠ l -> read_state (w_store w2) l' = read_state (w_store w) l').
Proof.
  intros Hr Hio. destruct (core_action_run u oid v priority wait new_v4 instant w item ac l Hr)
    as (w1 & E & Hal & Hinv & Hstp & Hact & Hoth). rewrite Hio in E.
  destruct (action_end_run oid item l w1) as (w2 & E2 & _ & _ & _ & Hst);
    [rewrite Hinv; apply Hr|apply Hr|apply Hr|apply Hr|done|done|].
  pose proof (ready_count _ _ _ _ _ Hr).
  eexists _, w1, w2. split_and!; [exact E|done|done|done|done|done| |].
  - unfold act_of in *. rewrite Hst, decide_True by done. rewrite act_decr_busy; lia.
  - intros l' Hne. rewrite Hst, decide_False by congruence. auto.
Qed.

(** The counter is not balanced when the announce of the new state fails:
    the action is refused with that error after the counter has been
    incremented, and no task is started that would decrement it. *)
Lemma action_announce_failure_leaks u oid v priority wait new_v4 instant w item ac l err :
  ready oid w item ac l -> env_io e (w_calls w) = Err err ->
  exists w1,
    core_action u oid (Some (ParamsUnit v)) priority wait new_v4 instant w = (Err err, w1) /\
    act_of w1 l = (act_of w l + 1)%Z.
Proof.
  intros Hr Hio. destruct (core_action_run u oid v priority wait new_v4 instant w item ac l Hr)
    as (w1 & E & _ & _ & _ & Hact & _). rewrite Hio in E. by exists w1.
Qed.

End action.

Module CoreActionExamples.
Import Sample.

Definition cfg : CoreConfig :=
  mkCoreConfig 7 "node1" (IsStrict false) (AcStrict false) false false true.
Definition env (io : EResult unit) : Env :=
  mkEnv (fun k => f64_of_Z (1000 + Z.of_nat k)) (fun k => (1000 + Z.of_nat k)%Z)
    (fun k => if (k <? 2)%nat then Ok tt else io) (fun _ => Ok None) (fun _ _ => Ok SUnit).

Definition lamp : OID := (Unit, "a").
Definition action_config : ActionConfig := mkActionConfig "eva.controller.1" None None.
Definition config : ItemConfigData :=
  mkConfig lamp None true None (Some action_config) (Some 1%Z) (Some (SNum 0)) None.
Definition w0 : World :=
  mkWorld (mkInv store_empty inventory_new) ∅ ∅ ∅ true true false false 0 0 [] [].
Definition w1 : World := (deploy_local_items (env (Ok tt)) cfg [config] true w0).2.
Definition lamp_item : Item :=
  mkItem lamp (Some 1%positive) None None 2%positive None (Some action_config).
Definition lamp_state : ItemState := mkState 1 (SNum 0) (Some 0%Z) (7%Z, 1001%Z) (f64_of_Z 1000).

Lemma lamp_ready : ready lamp w1 lamp_item action_config 1%positive.
Proof.
  split; [vm_refl|done|done|vm_refl|done|done|exists lamp_state; vm_refl|vm_refl|].
  assert (act_of w1 1%positive = 0%Z) as -> by vm_refl. lia.
Qed.

Definition on : Value := SNum 1.

Lemma action_counter_balanced_example :
  exists a w2 w3,
    core_action (env (Ok tt)) cfg 5 (fun _ => 0%Z) None lamp (Some (ParamsUnit on)) 100 None
      9%positive 10 w1 = (Ok (a, None), w2) /\
    a_target a = "eva.controller.1" /\
    act_of w2 1%positive = 1%Z /\ action_end (env (Ok tt)) cfg lamp w2 = (Ok tt, w3) /\
    act_of w3 1%positive = 0%Z.
Proof.
  destruct (action_counter_balanced (env (Ok tt)) cfg 5 (fun _ => 0%Z) None lamp on 100
    None 9%positive 10 w1 lamp_item action_config 1%positive lamp_ready)
    as (a & w2 & w3 & E & _ & Ht & _ & Hact & E3 & Hact3 & _); [vm_refl|].
  assert (act_of w1 1%positive = 0%Z) as E0 by vm_refl. rewrite E0 in *.
  exists a, w2, w3. split_and!; [exact E|exact Ht|rewrite Hact; done|exact E3|exact Hact3].
Defined.

Lemma action_announce_failure_leaks_example :
  exists w2,
    core_action (env (Err EFailed)) cfg 5 (fun _ => 0%Z) None lamp (Some (ParamsUnit on)) 100 None
      9%positive 10 w1 = (Err EFailed, w2) /\ act_of w2 1%positive = 1%Z.
Proof.
  destruct (action_announce_failure_leaks (env (Err EFailed)) cfg 5 (fun _ => 0%Z) None lamp
    on 100 None 9%positive 10 w1 lamp_item action_config 1%positive EFailed
    lamp_ready) as (w2 & E & Hact); [vm_refl|].
  assert (act_of w1 1%positive = 0%Z) as E0 by vm_refl. rewrite E0 in *.
  exists w2. split; [exact E|rewrite Hact; done].
Defined.
End CoreActionExamples.
