(* ===== verification/CoreLaunch.v ===== *)
(** * The node core: launching actions (eva/src/core.rs, eva/src/actmgr.rs)

    [Core::action] as a whole: the action is created and counted
    ([CoreAction]), handed to the action manager ([ActMgr]), and its outcome
    is read after the time the caller wants to wait.  Between the launch and
    the reading other tasks work on the manager: the reply of the service,
    events about the action, clean-ups.  They are a list of critical sections
    of the manager, which the environment chooses. *)
From S2P Require Import Prelude EvaCommon ItemState ItemTree Inventory Core CoreAction ActMgr.

Section launch.
Context `{Ext : Externals} `{NExt : !NodeExternals} {Uuid : Type} `{Countable Uuid}.
Context (error_value : Error -> Value).
Variable (e : Env) (cfg : CoreConfig) (core_timeout : Z) (from_secs_f64 : f64 -> Z).

(** eva/src/actmgr.rs:227-244 [ActionInfoOwned], what a replication service
    answers; the fields that are only passed on are those of [ActionInfo] *)
Record ActionInfoOwned := mkInfoOwned {
  io_uuid : Uuid;
  io_status : Status;
  io_info : ActionInfo (Uuid := Uuid)
}.

(** eva/src/actmgr.rs:247-260 [ActionInfoOwned::check_completed] *)
Definition check_completed (i : ActionInfoOwned) : bool := bool_decide (io_status i = Completed).

(** eva/src/core.rs:114-118 [ActionLaunchResult]; a local result before it is
    packed *)
Inductive ActionLaunchResult :=
  | LrState (s : bool)
  | LrLocal (info : ActionInfo (Uuid := Uuid) + ActionInfoOwned)
  | LrRemote (info : ActionInfoOwned).

(** The core, its action manager, and the calls of [terminate] the manager has
    sent to services. *)
Record Node := mkNode {
  nd_world : World;
  nd_mgr : Manager (Uuid := Uuid);
  nd_terminated : list (Uuid * string)
}.

Definition on_world {A} (m : M World A) : M Node A := fun n =>
  let '(r, w) := m (nd_world n) in (r, mkNode w (nd_mgr n) (nd_terminated n)).
Definition on_mgr {A} (m : M (Manager (Uuid := Uuid)) A) : M Node A := fun n =>
  let '(r, m) := m (nd_mgr n) in (r, mkNode (nd_world n) m (nd_terminated n)).

(** What one launch gets from outside: a fresh id and the clocks, the answer
    of the replication service to a remote action, what other tasks do with
    the manager before the outcome is read, whether calls of [terminate]
    reach the service, and the answer of the service to a later request for
    the result. *)
Record Outside := mkOutside {
  ou_new_v4 : Uuid;
  ou_instant : Z;
  ou_started : Z;
  ou_remote : EResult ActionInfoOwned;
  ou_during : list (mgr_op (Uuid := Uuid));
  ou_terminate : EResult unit;
  ou_result : EResult ActionInfoOwned
}.

Definition run_during (ops : list (mgr_op (Uuid := Uuid))) : M Node unit :=
  on_mgr (modify (fun m => foldl (fun m op => mgr_exec error_value op m) m ops)).

(** eva/src/actmgr.rs:413-431 [Manager::terminate_action] *)
Definition terminate_action (o : Outside) (uuid : Uuid) : M Node unit :=
  n ← get;
  target ← lift (terminate_target uuid (nd_mgr n));
  _ ← modify (fun n => mkNode (nd_world n) (nd_mgr n) ((uuid, target) :: nd_terminated n));
  lift (ou_terminate o).

(** eva/src/actmgr.rs:527-548 [Manager::must_be_completed], with the call *)
Definition must_be_completed_run (o : Outside) (uuid : Uuid) : M Node bool :=
  n ← get;
  let '(res, term) := must_be_completed uuid (nd_mgr n) in
  _ ← (if (term : bool) then log_ef (terminate_action o uuid) else mret tt);
  mret res.

(** eva/src/actmgr.rs:552-581 [Manager::get_action_serialized], before the
    result is packed *)
Definition get_action (o : Outside) (uuid : Uuid)
    : M Node (option (ActionInfo (Uuid := Uuid) + ActionInfoOwned)) :=
  n ← get;
  match actions (nd_mgr n) !! uuid with
  | Some action => mret (Some (inl (info_from_action action (system_name cfg))))
  | None =>
      match remote_actions (nd_mgr n) !! uuid with
      | Some _ => info ← lift (ou_result o); mret (Some (inr info))
      | None => mret None
      end
  end.

(** eva/src/core.rs:924-935 [Core::action_result_serialized] *)
Definition action_result (o : Outside) (uuid : Uuid)
    : M Node (ActionInfo (Uuid := Uuid) + ActionInfoOwned) :=
  info ← get_action o uuid;
  lift (ok_or info ENotFound).

(** A local action: it is stored by the task that launches it, other tasks
    work on the manager while the caller waits, then the outcome is read
    (eva/src/core.rs:1049-1104) *)
Definition launch_local (o : Outside) (action : Action (Uuid := Uuid)) (state_only_result : bool)
    : M Node ActionLaunchResult :=
  uuid ← lift (ok_or (a_uuid action) ECore);
  _ ← on_mgr (launch_store action);
  _ ← run_during (ou_during o);
  if state_only_result then
    s ← must_be_completed_run o uuid;
    mret (LrState s)
  else
    info ← action_result o uuid;
    mret (LrLocal info).

(** An action on an item of another node: the answer of the replication
    service is the outcome (eva/src/core.rs:1105-1125) *)
Definition launch_remote (o : Outside) (action : Action (Uuid := Uuid)) (state_only_result : bool)
    : M Node ActionLaunchResult :=
  _ ← on_mgr (launch_store action);
  res ← lift (ou_remote o);
  _ ← on_mgr (launch_remote_reply action (io_uuid res) (ou_started o));
  if state_only_result then
    let s := check_completed res in
    _ ← (if s then mret tt else log_ef (terminate_action o (io_uuid res)));
    mret (LrState s)
  else mret (LrRemote res).

(** eva/src/core.rs:942-1126 [Core::action] *)
Definition action (o : Outside) (u : option Uuid) (oid : OID) (action_params : option Params)
    (priority : Z) (wait : option Z) (state_only_result : bool) : M Node ActionLaunchResult :=
  created ← on_world (core_action e cfg core_timeout from_secs_f64 u oid action_params priority
                        wait (ou_new_v4 o) (ou_instant o));
  match a_node created.1 with
  | None => launch_local o created.1 state_only_result
  | Some _ => launch_remote o created.1 state_only_result
  end.

(** eva/src/core.rs:904-921 [Core::kill_actions]; the call is made to the
    service of the unit *)
Definition kill_actions (oid : OID) (call : string -> EResult unit) : M Node unit :=
  n ← get;
  target ← lift (kill_target oid (w_inventory (nd_world n)));
  lift (call target).

(** ** Properties *)

(** What the manager says about an action that is stored under [uuid]. *)
Definition status_of (m : Manager (Uuid := Uuid)) (uuid : Uuid) : option Status :=
  a_status <$> actions m !! uuid.

(** The service has reported the action as completed. *)
Definition reported_completed (uuid : Uuid) (op : mgr_op (Uuid := Uuid)) : Prop :=
  match op with
  | OpEvent event _ => ev_uuid event = uuid /\ ev_status event = 15%Z
  | _ => False
  end.

Lemma status_of_code_completed c : status_of_code c = Ok Completed -> c = 15%Z.
Proof.
  unfold status_of_code. destruct (find _ _) as [s|] eqn:E; [|done].
  intros [= ->]. by apply find_some in E as [_ <-%Z.eqb_eq].
Qed.

Lemma status_of_set_actions (m : Manager (Uuid := Uuid)) uuid u a :
  status_of (set_actions (<[u := a]> (actions m)) m) uuid =
    if decide (u = uuid) then Some (a_status a) else status_of m uuid.
Proof.
  unfold status_of. simpl. rewrite lookup_insert. by case_decide.
Qed.

Lemma mark_failed_completed err now (a : Action (Uuid := Uuid)) :
  a_status (mark_failed error_value err now a) = Completed -> a_status a = Completed.
Proof. unfold mark_failed. by case_match. Qed.

Lemma mark_accepted_completed now (a : Action (Uuid := Uuid)) :
  a_status (mark_accepted now a) = Completed -> a_status a = Completed.
Proof. unfold mark_accepted. by case_match. Qed.

(** Only an event can complete an action. *)
Lemma mgr_exec_completed op (m : Manager (Uuid := Uuid)) uuid :
  status_of (mgr_exec error_value op m) uuid = Some Completed ->
  status_of m uuid = Some Completed \/ reported_completed uuid op.
Proof.
  destruct op as [args v4 now inst|u res now|act u st|event now|u now|t]; simpl.
  - unfold launch_store. destruct (a_node _); [by left|]. destruct (a_uuid _) as [u|]; [|by left].
    unfold_m. simpl. rewrite status_of_set_actions. case_decide; [done|by left].
  - unfold launch_reply. unfold_m. simpl. destruct (actions m !! u) as [a|] eqn:E; [|by left].
    simpl. rewrite status_of_set_actions. case_decide as Hu; [|by left]. subst u.
    intros [= Hc]. left. unfold status_of. rewrite E. simpl. f_equal.
    destruct res; eauto using mark_failed_completed, mark_accepted_completed.
  - unfold launch_remote_reply. destruct (a_node act); by left.
  - unfold process_event. unfold_m. simpl.
    destruct (actions m !! ev_uuid event) as [a|] eqn:E; [|by left].
    destruct (status_of_code (ev_status event)) as [s|] eqn:Es; [|by left]. simpl.
    rewrite status_of_set_actions. case_decide as Hu; [|by left]. simpl.
    case_match; simpl; intros [= Hc].
    + right. subst s. split; [done|]. by apply status_of_code_completed.
    + left. unfold status_of. rewrite <-Hu, E. simpl. by f_equal.
  - unfold mark_action_timed_out. unfold_m. simpl. destruct (actions m !! u) as [a|] eqn:E; [|by left].
    simpl. rewrite status_of_set_actions. case_decide as Hu; [|by left]. subst u.
    intros [= Hc]. left. unfold status_of. rewrite E. simpl. f_equal.
    eauto using mark_failed_completed.
  - unfold status_of, cleanup_action_history. simpl. rewrite map_lookup_filter.
    destruct (actions m !! uuid) as [a|]; [|by left]. simpl. case_guard; [by left|done].
Qed.

Lemma during_completed ops (m : Manager (Uuid := Uuid)) uuid :
  status_of (foldl (fun m op => mgr_exec error_value op m) m ops) uuid = Some Completed ->
  status_of m uuid = Some Completed \/ exists op, op ∈ ops /\ reported_completed uuid op.
Proof.
  revert m. induction ops as [|op ops IH]; intros m; simpl; [by left|].
  intros [Hm|(op' & Hin & Hr)]%IH.
  - destruct (mgr_exec_completed _ _ _ Hm) as [?|Hr]; [by left|]. right. exists op. set_solver.
  - right. exists op'. set_solver.
Qed.

(** The action [Core::action] creates: where it goes, and its id. *)
Lemma core_action_created (u : option Uuid) oid params priority wait (v4 : Uuid) inst w a t w' :
  core_action e cfg core_timeout from_secs_f64 u oid params priority wait v4 inst w
    = (Ok (a, t), w') ->
  exists item, get_item oid (w_inventory w) = Some item /\
    item_is_enabled (w_store w) item = true /\ a_i a = oid /\ a_status a = Created /\
    a_node a = src_node <$> it_source item /\
    (it_source item = None -> a_uuid a = Some (default v4 u)).
Proof.
  unfold core_action. rewrite run_bind. destruct (lift _ w) as [[p|] w0] eqn:Ep; [|done].
  assert (w0 = w) as -> by (unfold lift in Ep; congruence). unfold action_start.
  rewrite run_bind. unfold get at 1. destruct (get_item oid (w_inventory w)) as [item|]; [|done].
  destruct (item_is_enabled (w_store w) item) eqn:He; simpl; [|done]. rewrite run_bind.
  set (choose := match p with Some _ => _ | None => _ end).
  destruct (choose w) as [[ap|] w1]; [|done]. intros Hr. exists item.
  destruct (it_source item) as [src|] eqn:Hs.
  - revert Hr. rewrite run_bind. simpl. by intros [= <- <- <-].
  - revert Hr. destruct (it_action item) as [ac|]; [|done]. rewrite run_bind. simpl. rewrite run_bind.
    destruct (count_started _ _ _ _) as [[]]; [|done]. simpl. intros [= <- <- <-].
    split_and!; try done. intros _. by destruct u.
Qed.

Lemma launch_local_true o a n n' :
  launch_local o a true n = (Ok (LrState true), n') -> a_node a = None -> a_status a ≠ Completed ->
  exists uuid, a_uuid a = Some uuid /\ exists op, op ∈ ou_during o /\ reported_completed uuid op.
Proof.
  unfold launch_local, launch_store. intros Hr Hn Hs. rewrite Hn in Hr.
  destruct (a_uuid a) as [uuid|]; [|done]. exists uuid. split; [done|]. revert Hr.
  unfold run_during, on_mgr, must_be_completed_run, must_be_completed. unfold_m. simpl.
  set (m1 := set_actions _ _). set (m2 := foldl _ _ _).
  destruct (actions m2 !! uuid) as [a2|] eqn:E2; [|by intros [=]].
  destruct (decide (a_status a2 = Completed)) as [Ec|Ec].
  - intros _. assert (status_of m2 uuid = Some Completed) as Hc
      by (unfold status_of; by rewrite E2, <-Ec).
    destruct (during_completed _ _ _ Hc) as [E|]; [|done].
    unfold m1 in E. rewrite status_of_set_actions, decide_True in E by done. congruence.
  - rewrite bool_decide_eq_false_2 by done. destruct (status_leb Completed _); by intros [=].
Qed.

Lemma launch_remote_true o a n n' :
  launch_remote o a true n = (Ok (LrState true), n') ->
  exists info, ou_remote o = Ok info /\ io_status info = Completed.
Proof.
  unfold launch_remote. rewrite run_bind. destruct (on_mgr _ n) as [[]]; [|done].
  rewrite run_bind. simpl. destruct (ou_remote o) as [info|]; [|done]. rewrite run_bind.
  destruct (on_mgr _ _) as [[]]; [|done]. unfold check_completed. rewrite run_bind.
  case_bool_decide; [by eauto|]. simpl. by intros [=].
Qed.

Lemma action_outcome o (u : option Uuid) oid params priority wait n n' :
  action o u oid params priority wait true n = (Ok (LrState true), n') ->
  exists item, get_item oid (w_inventory (nd_world n)) = Some item /\
    item_is_enabled (w_store (nd_world n)) item = true /\
    match it_source item with
    | None => exists op, op ∈ ou_during o /\ reported_completed (default (ou_new_v4 o) u) op
    | Some _ => exists info, ou_remote o = Ok info /\ io_status info = Completed
    end.
Proof.
  unfold action. rewrite run_bind. unfold on_world.
  destruct (core_action _ _ _ _ _ _ _ _ _ _ _ _) as [[[a t]|] w'] eqn:E; [|done].
  destruct (core_action_created _ _ _ _ _ _ _ _ _ _ _ E)
    as (item & Hi & He & _ & Hst & Hn & Hu). simpl. rewrite Hn. intros Hr.
  exists item. split_and!; [done|done|]. destruct (it_source item) as [src|]; simpl in *.
  - by apply launch_remote_true in Hr.
  - apply launch_local_true in Hr as (uuid & Huuid & Hr); [|done|congruence].
    by replace (default (ou_new_v4 o) u) with uuid by (rewrite Hu in Huuid; congruence).
Qed.

(** The outcome a caller of [Core::action] relies on.  When it asks for
    the state only and gets true, the item is registered and enabled, and the
    action has really been completed: the service of a local item has reported
    this very action as completed while the caller waited, or the node that
    owns the item has answered that it is completed. *)
Lemma action_true_completed o (u : option Uuid) oid params priority wait n n' :
  action o u oid params priority wait true n = (Ok (LrState true), n') ->
  exists item, get_item oid (w_inventory (nd_world n)) = Some item /\
    item_is_enabled (w_store (nd_world n)) item = true /\
    match it_source item with
    | None => exists op, op ∈ ou_during o /\ reported_completed (default (ou_new_v4 o) u) op
    | Some _ => exists info, ou_remote o = Ok info /\ io_status info = Completed
    end.
Proof. apply action_outcome. Qed.

(** What becomes of an action that is not completed in time: a local one is
    terminated, by a call to its service.  A remote one is not: the call looks
    for it among the local actions. *)
Lemma launch_remote_not_terminated o a info n :
  a_node a ≠ None -> ou_remote o = Ok info -> io_status info ≠ Completed ->
  actions (nd_mgr n) !! io_uuid info = None ->
  exists n', launch_remote o a true n = (Ok (LrState false), n') /\
    nd_terminated n' = nd_terminated n.
Proof.
  intros Hn Ho Hs Hm. destruct (a_node a) as [nd|] eqn:En; [|done].
  unfold launch_remote, launch_store, launch_remote_reply, check_completed. rewrite Ho, En.
  unfold on_mgr. unfold_m. simpl. rewrite bool_decide_eq_false_2 by done.
  unfold terminate_action, terminate_target. unfold_m. simpl. rewrite Hm. by eexists.
Qed.

End launch.

Module CoreLaunchExamples.
Import Sample CoreActionExamples.

Definition error_value (err : Error) : Value := SUnit.
Definition manager : Manager (Uuid := positive) := mkManager ∅ ∅ 600.
Definition node : Node (Uuid := positive) := mkNode w1 manager [].
(** The service accepts the action and reports that it is completed. *)
Definition outside : Outside (Uuid := positive) :=
  mkOutside 9%positive 10 10 (Err EFailed)
    [OpReply 9%positive (Ok tt) (f64_of_Z 2);
     OpEvent (mkEvent 9%positive 15 None None None) (f64_of_Z 3)] (Ok tt) (Err EFailed).
Definition launched :=
  action error_value (env (Ok tt)) cfg 5 (fun _ => 0%Z) outside None lamp (Some (ParamsUnit on))
    100 None true node.

Lemma action_true_completed_example :
  launched.1 = Ok (LrState true) /\
  exists item, get_item lamp (w_inventory (nd_world node)) = Some item /\ it_oid item = lamp /\
    exists op, op ∈ ou_during outside /\ reported_completed 9%positive op.
Proof.
  assert (launched.1 = Ok (LrState true)) as E by vm_refl. split; [exact E|].
  destruct (action_true_completed error_value (env (Ok tt)) cfg 5 (fun _ => 0%Z) outside None lamp
    (Some (ParamsUnit on)) 100 None node launched.2) as (item & Hi & _ & Hs).
  { by apply pair_fst. }
  assert (get_item lamp (w_inventory (nd_world node)) = Some lamp_item) as El by vm_refl.
  rewrite El in Hi. injection Hi as <-. exists lamp_item. split; [exact El|]. split; [done|exact Hs].
Defined.
End CoreLaunchExamples.
