(* ===== verification/CoreOps.v ===== *)
(** * The node core: queries, data objects, the node checker (eva/src/core.rs)

    The operations of the core that the bus interface uses besides those of
    [Core], [Replication] and [CoreLaunch]: the list of items, the data
    objects (binary structures whose fields are mapped to items), and the task
    that marks the nodes of a dead replication service offline.  It is also
    shown here that launching actions and announcing states keep the invariant
    of the core. *)
From S2P Require Import Prelude EvaCommon ItemState ItemTree Inventory Core Replication CoreSpec CoreInvariant ActMgr CoreAction CoreLaunch.

(** [eva_common::dobj]: the map of data objects *)
Class ObjectMaps `{Externals} := {
  ObjectMap : Type;
  DataObject : Type;
  Endianess : Type;
  dobj_name : DataObject -> string;
  om_names : ObjectMap -> list string;
  om_get : ObjectMap -> string -> option DataObject;
  om_size_of : ObjectMap -> string -> option Z;
  om_validate : ObjectMap -> EResult unit;
  om_extend : list DataObject -> ObjectMap -> ObjectMap;
  om_remove_bulk : list string -> ObjectMap -> ObjectMap;
  om_parse_values : ObjectMap -> string -> list Z -> Endianess -> EResult (list (OID * Value));
  om_mapped_oids : ObjectMap -> string -> list OID;
  (* TryFrom<String> for the name of a data object *)
  om_name : string -> EResult string
}.

Section ops.
Context `{Ext : Externals} `{NExt : !NodeExternals} `{!ObjectMaps}.
Variable (e : Env) (cfg : CoreConfig).

(** ** Queries *)

(** eva/src/core.rs:2155-2193 [Core::list_items]; [sort] orders the items *)
Definition list_items (sort : list Item -> list Item) (mask_list : OIDMaskList)
    (include exclude : option OIDMaskList) (source_id : option NodeFilter) (regex : option Regex)
    (include_stateless : bool) (inv : Inventory) : list Item :=
  let filter := mkFilter include exclude source_id regex in
  let h := foldl (fun h mask => insert_new h (get_items_by_mask mask filter include_stateless inv))
             ∅ (mask_list_masks mask_list) in
  sort (map_to_list h).*2.

(** ** Data objects *)

Record Objects := mkObjects {
  ob_map : ObjectMap;
  ob_registry : gmap string DataObject;
  ob_calls : nat
}.

Definition obj_call (io : nat -> EResult unit) (f : gmap string DataObject -> gmap string DataObject)
    : M Objects unit := fun o =>
  match io (ob_calls o) with
  | Ok _ => (Ok tt, mkObjects (ob_map o) (f (ob_registry o)) (S (ob_calls o)))
  | Err err => (Err err, mkObjects (ob_map o) (ob_registry o) (S (ob_calls o)))
  end.
Definition set_objects (f : ObjectMap -> ObjectMap) : M Objects unit :=
  modify (fun o => mkObjects (f (ob_map o)) (ob_registry o) (ob_calls o)).

(** eva/src/core.rs:2414-2421 [Core::dobj_list] *)
Definition dobj_list (o : Objects) : list (string * Z) :=
  (fun n => (n, default 0%Z (om_size_of (ob_map o) n))) <$> om_names (ob_map o).
(** eva/src/core.rs:2422-2424 [Core::dobj_get] *)
Definition dobj_get (name : string) (o : Objects) : option DataObject := om_get (ob_map o) name.
(** eva/src/core.rs:2425-2427 [Core::dobj_validate] *)
Definition dobj_validate (o : Objects) : EResult unit := om_validate (ob_map o).
(** eva/src/core.rs:2431-2438 [Core::dobj_insert] *)
Definition dobj_insert (io : nat -> EResult unit) (dobj : list DataObject) : M Objects unit :=
  _ ← set_objects (om_extend dobj);
  for_each (fun o => obj_call io (<[dobj_name o := o]>)) dobj.
(** eva/src/core.rs:2442-2448 [Core::dobj_remove] *)
Definition dobj_remove (io : nat -> EResult unit) (names : list string) : M Objects unit :=
  _ ← set_objects (om_remove_bulk names);
  for_each (fun n => obj_call io (delete n)) names.
(** eva/src/core.rs:2449-2466 [Core::load_dobj], on the values of the registry,
    parsed *)
Definition load_dobj (values : list (EResult DataObject)) : M Objects unit :=
  objects ← for_collect lift values;
  set_objects (om_extend objects).
(** eva/src/core.rs:2467-2484 [Core::dobj_push] *)
Definition dobj_push (map : ObjectMap) (name : string) (buf : list Z) (endianess : Endianess)
    (sender : string) : M World unit :=
  name ← lift (om_name name);
  vals ← lift (om_parse_values map name buf endianess);
  update_state_from_raw_bulk e cfg
    ((fun ov => (ov.1, raw_of 1 (Some ov.2) ForceNone None)) <$> vals) sender.
(** eva/src/core.rs:2485-2504 [Core::dobj_error] *)
Definition dobj_error (map : ObjectMap) (name : string) (status : option Z) (sender : string)
    : M World unit :=
  let status := default ITEM_STATUS_ERROR status in
  if (0 <=? status)%Z then raise EInvalidParams
  else
    name ← lift (om_name name);
    update_state_from_raw_bulk e cfg
      ((fun oid => (oid, raw_of status None ForceNone None)) <$> om_mapped_oids map name) sender.

(** ** The node checker *)

(** The nodes by their service (eva/src/core.rs:449-458) *)
Definition nodes_to_check (nodes : gmap string NodeData)
    : EResult (gmap string (list (string * option Z))) :=
  foldl (fun acc kv =>
    match acc, node_svc kv.2 with
    | Ok ntc, Some svc =>
        Ok (<[svc := default [] (ntc !! svc) ++ [(kv.1, node_timeout kv.2)]]> ntc)
    | Ok _, None => Err EPanic
    | Err err, _ => Err err
    end) (Ok ∅) (map_to_list nodes).

(** One round of the checker (eva/src/core.rs:447-467); [online] are the
    answers of [is_service_online] *)
Definition node_check (online : string -> EResult bool) : M World unit :=
  w ← get;
  ntc ← lift (nodes_to_check (w_nodes w));
  for_each (fun '(s, nodes) =>
    match online s with
    | Ok false => for_each (fun '(node, timeout) =>
        core_mark_source_online e cfg node s false None timeout) nodes
    | _ => mret tt
    end) (map_to_list ntc).

(** ** Facts *)

Definition nodes_known (w : World) : Prop :=
  map_Forall (fun _ d => is_Some (node_svc d)) (w_nodes w).

Lemma nodes_to_check_ok nodes :
  map_Forall (fun _ d => is_Some (node_svc d)) nodes ->
  exists ntc, nodes_to_check nodes = Ok ntc /\
    forall n d svc, nodes !! n = Some d -> node_svc d = Some svc ->
      exists l, ntc !! svc = Some l /\ (n, node_timeout d) ∈ l.
Proof.
  intros Hn. unfold nodes_to_check.
  assert (forall l (acc : gmap string (list (string * option Z))),
    (forall x, x ∈ l -> is_Some (node_svc x.2)) ->
    exists ntc, foldl (fun acc kv =>
      match acc, node_svc kv.2 with
      | Ok ntc, Some svc => Ok (<[svc := default [] (ntc !! svc) ++ [(kv.1, node_timeout kv.2)]]> ntc)
      | Ok _, None => Err EPanic
      | Err err, _ => Err err
      end) (Ok acc) l = Ok ntc /\
      (forall s y l', acc !! s = Some l' -> y ∈ l' -> exists l'', ntc !! s = Some l'' /\ y ∈ l'') /\
      forall x svc, x ∈ l -> node_svc x.2 = Some svc ->
        exists l', ntc !! svc = Some l' /\ (x.1, node_timeout x.2) ∈ l') as Hl.
  { induction l as [|x l IH]; intros acc Hx; csimpl.
    { exists acc. split_and!; [done|by eauto|by intros ? ? ?%elem_of_nil]. }
    destruct (Hx x) as [svc Hs]; [by left|]. rewrite Hs.
    set (acc' := <[svc := _]> acc).
    destruct (IH acc') as (ntc & E & Hacc & Hin); [intros y Hy; apply Hx; by right|].
    exists ntc. split; [done|].
    assert (forall y, y ∈ default [] (acc !! svc) ++ [(x.1, node_timeout x.2)] ->
      exists l'', ntc !! svc = Some l'' /\ y ∈ l'') as Hsvc.
    { intros y Hy. eapply Hacc; [apply lookup_insert_eq|done]. }
    split.
    - intros s y l' Hl' Hy. destruct (decide (s = svc)) as [->|Hne].
      + apply Hsvc. rewrite Hl'. simpl. apply elem_of_app. by left.
      + eapply Hacc; [|done]. unfold acc'. by rewrite lookup_insert_ne.
    - intros y s [->|Hy]%elem_of_cons Hs'; [|by eapply Hin].
      rewrite Hs in Hs'. injection Hs' as <-. apply Hsvc, elem_of_app. right. by left. }
  destruct (Hl (map_to_list nodes) ∅) as (ntc & E & _ & Hin).
  { intros [n d] Hd%elem_of_map_to_list. by apply (Hn n d). }
  exists ntc. split; [done|]. intros n d svc Hd Hs.
  apply (Hin (n, d) svc); [by apply elem_of_map_to_list|done].
Qed.
End ops.

(** ** Actions and announces keep the invariant of the core *)

Section keeps_good.
Context `{Ext : Externals} `{NExt : !NodeExternals} `{!IeidLaws} {Uuid : Type} `{Countable Uuid}.
Context (error_value : Error -> Value).
Variable (e : Env) (cfg : CoreConfig) (core_timeout : Z) (from_secs_f64 : f64 -> Z).
Abbreviation good := (good_step e cfg).

Lemma with_stp_good {A} lock (body : M World A) : keeps good body -> keeps good (with_stp lock body).
Proof.
  intros Hb. unfold with_stp. destruct lock; [|done].
  apply keeps_bind; [frame|intros _]. apply keeps_bind; [by apply keeps_attempt|intros r]. frame.
Qed.

Lemma act_incr_ieid ieid now st : st_ieid (act_incr ieid now st) = ieid.
Proof. done. Qed.
Lemma act_decr_ieid ieid now st : act_decr ieid now st = st \/ st_ieid (act_decr ieid now st) = ieid.
Proof. unfold act_decr. repeat case_match; auto. Qed.

(** A state that is written with the next event id of the core, and announced. *)
Lemma write_counted_good stc (f : IEID -> f64 -> ItemState -> ItemState) (k : ItemState -> M World unit) :
  (forall ieid now st, f ieid now st = st \/ st_ieid (f ieid now st) = ieid) ->
  (forall st, keeps good (k st)) ->
  keeps good (ieid ← generate_ieid e cfg; now ← time_now e; w ← get;
    let state := f ieid now (read_state (w_store w) stc) in
    _ ← on_cells (write_state stc state); k state).
Proof.
  intros Hf Hk w. set (w2 := set_tick (S (S (w_tick w))) (set_tick (S (w_tick w)) w)).
  set (state := f (gen e cfg (w_tick w)) (env_now e (S (w_tick w))) (read_state (w_store w2) stc)).
  change (good w ((_ ← on_cells (write_state stc state); k state) w2).2).
  assert (good w w2) as Hg by (apply same_inv_good; split; simpl; [done|lia]).
  rewrite run_bind. unfold on_cells at 1. unfold modify at 1. set (w3 := set_inv _ w2).
  assert (good w w3) as Hg3; [|etrans; [exact Hg3|apply Hk]].
  apply (write_state_gen_good e cfg stc _ (w_tick w) w w2); [done|simpl; lia|].
  intros st Hst. unfold state, read_state. rewrite Hst. apply Hf.
Qed.

Lemma count_started_good item : keeps good (count_started e cfg item).
Proof.
  unfold count_started. apply with_stp_good. destruct (it_state item) as [stc|]; [|frame].
  apply (write_counted_good stc act_incr
    (fun st => announce_local_state e (it_oid item) (local_state_event_of st))).
  - intros. right. apply act_incr_ieid.
  - intros st. frame.
Qed.

Lemma action_end_good oid : keeps good (action_end e cfg oid).
Proof.
  unfold action_end. destruct (decide _); [|frame]. apply keeps_bind; [frame|intros w0].
  destruct (get_item oid (w_inventory w0)) as [unit|]; [|frame]. destruct (it_source unit); [frame|].
  apply with_stp_good. destruct (it_state unit) as [stc|]; [|frame].
  apply (write_counted_good stc act_decr
    (fun st => log_ef (announce_local_state e (it_oid unit) (local_state_event_of st)))).
  - apply act_decr_ieid.
  - intros st. frame.
Qed.

Lemma core_action_good (u : option Uuid) oid params priority wait (v4 : Uuid) inst :
  keeps good (core_action e cfg core_timeout from_secs_f64 u oid params priority wait v4 inst).
Proof. unfold core_action, action_start. frame. apply count_started_good. Qed.

Lemma force_announce_state_good masks src : keeps good (force_announce_state e masks src).
Proof. unfold force_announce_state. frame. Qed.
Lemma force_announce_state_for_good masks src r : keeps good (force_announce_state_for e masks src r).
Proof.
  unfold force_announce_state_for, announce_remote_state_for, announce_local_state_for. frame.
Qed.

(** The part of the node that is the core. *)
Definition node_good (n n' : Node (Uuid := Uuid)) : Prop := good (nd_world n) (nd_world n').
#[global] Instance node_good_preorder : PreOrder node_good.
Proof.
  split; [intros n; apply good_step_preorder|]. intros x y z ? ?. unfold node_good. by etrans.
Qed.
Lemma on_world_good {A} (m : M World A) : keeps good m -> keeps node_good (on_world m).
Proof.
  intros Hm n. specialize (Hm (nd_world n)). unfold on_world. by destruct (m (nd_world n)).
Qed.
Lemma on_mgr_good {A} (m : M (Manager (Uuid := Uuid)) A) : keeps node_good (on_mgr m).
Proof. intros n. unfold on_mgr, node_good. destruct (m (nd_mgr n)). simpl. reflexivity. Qed.
Lemma set_terminated_good (f : Node (Uuid := Uuid) -> list (Uuid * string)) :
  keeps node_good (modify (fun n => mkNode (nd_world n) (nd_mgr n) (f n))).
Proof. intros n. unfold node_good. simpl. reflexivity. Qed.
#[local] Hint Resolve on_mgr_good set_terminated_good : keeps.

Lemma terminate_action_good o uuid : keeps node_good (terminate_action o uuid).
Proof. unfold terminate_action. frame. Qed.
#[local] Hint Resolve terminate_action_good : keeps.
Lemma action_result_good o uuid : keeps node_good (action_result cfg o uuid).
Proof. unfold action_result, get_action. frame. Qed.
#[local] Hint Resolve action_result_good : keeps.
Lemma action_good o u oid params priority wait b :
  keeps node_good (action error_value e cfg core_timeout from_secs_f64 o u oid params priority wait b).
Proof.
  unfold action. apply keeps_bind; [apply on_world_good, core_action_good|]. intros [a t].
  unfold launch_local, launch_remote, run_during, must_be_completed_run. frame.
Qed.
End keeps_good.
