(* ===== verification/Seq.v ===== *)
(** * Sequences of actions (eva/src/seq.rs)

    A sequence is a list of delays, actions and batches of actions that run at
    the same time, with a time limit and with actions to be done when it
    fails or is terminated.  What the sequences need of the core is the
    interface [ActionCore]: an action started at some time on some state ends
    with a result, at a later time, in a new state.  [Core::action] is an
    instance.

    The tasks of a batch all start at the same time; the order in which they
    have their effects is chosen by [sched].  The state keeps a log of the
    actions launched, the latest first, which the theorems are stated with. *)
From S2P Require Import Prelude Duration EvaCommon ItemState ItemTree Inventory Core ActMgr CoreAction CoreLaunch.

(** ** The structures of [eva_robots] *)

Section structures.
Context `{Ext : Externals} {Uuid : Type}.

Record SequenceAction := mkSeqAction {
  sa_oid : OID;
  sa_params : option Params;
  sa_wait : Duration
}.
Inductive SequenceActionEntry :=
  | SaSingle (a : SequenceAction)
  | SaMulti (l : list SequenceAction).
Inductive SequenceEntry :=
  | SeDelay (micros : Z)
  | SeActions (entry : SequenceActionEntry).
Record Sequence := mkSequence {
  sq_u : Uuid;
  sq_seq : list SequenceEntry;
  sq_timeout : Duration;
  sq_on_abort : option SequenceActionEntry
}.
End structures.

(** What the sequences need of the core. *)
Class ActionCore `{Ext : Externals} (Uuid S : Type) := {
  ac_action : SequenceAction -> Z -> S -> EResult (ActionLaunchResult (Uuid := Uuid)) * Z * S
}.

Section seq.
Context `{Ext : Externals} {Uuid S : Type} `{Countable Uuid} `{!ActionCore Uuid S}.

(** [Sequence::max_expected_duration], [Sequence::abort_timeout] of
    [eva_robots], [Op::enough] of [eva_common] for an operation with a
    timeout, of which some time has elapsed. *)
Context (max_expected_duration abort_timeout : Sequence (Uuid := Uuid) -> Duration).
Context (op_enough : Duration -> Duration -> Duration -> EResult unit).
Context (sched : list (nat * SequenceAction) -> list (nat * SequenceAction)).

Abbreviation Call := (SequenceAction * EResult (ActionLaunchResult (Uuid := Uuid)))%type.

Record SeqSt := mkSeqSt {
  ss_now : Z;
  ss_world : S;
  ss_log : list Call;                (* the latest first *)
  ss_futs : gmap Uuid Duration       (* FUTS, the waiting time of each *)
}.
Definition set_now (t : Z) (s : SeqSt) : SeqSt :=
  mkSeqSt t (ss_world s) (ss_log s) (ss_futs s).
Definition set_futs (f : gmap Uuid Duration) (s : SeqSt) : SeqSt :=
  mkSeqSt (ss_now s) (ss_world s) (ss_log s) f.

Abbreviation SM := (M SeqSt).

Definition core_action_call (a : SequenceAction) : SM (ActionLaunchResult (Uuid := Uuid)) :=
  fun s =>
    let '(r, t, w) := ac_action a (ss_now s) (ss_world s) in
    (r, mkSeqSt t w ((a, r) :: ss_log s) (ss_futs s)).

(** eva/src/seq.rs:22-42 [launch_action_entry] *)
Definition launch_action_entry (a : SequenceAction) : SM unit :=
  res ← core_action_call a;
  match res with
  | LrState true => mret tt
  | LrState false => raise EFailed
  | _ => raise ECore
  end.

(** A task of a batch, started at a time: what it returns, and when. *)
Definition run_task (t : Z) (a : SequenceAction) : SM (EResult unit * Z) :=
  _ ← modify (set_now t);
  r ← attempt (launch_action_entry a);
  s ← get;
  mret (r, ss_now s).

(** The tasks of a batch, in the order in which they have their effects
    (eva/src/seq.rs:46-50) *)
Definition spawn_all (t : Z) (l : list (nat * SequenceAction))
    : SM (list (nat * (EResult unit * Z))) :=
  for_collect (fun ia => r ← run_task t ia.2; mret (ia.1, r)) l.

(** Waiting for the tasks in the order they were spawned in; a task that has
    panicked ends the batch at once (eva/src/seq.rs:51-63) *)
Fixpoint join (ok : bool) (t : Z) (rs : list (EResult unit * Z)) : EResult unit * Z :=
  match rs with
  | [] => (if ok then Ok tt else Err EFailed, t)
  | (r, t') :: rs =>
      match r with
      | Err EPanic => (Err EPanic, Z.max t t')
      | Err _ => join false (Z.max t t') rs
      | Ok _ => join ok (Z.max t t') rs
      end
  end.

(** eva/src/seq.rs:43-65 [launch_action_sequence_batch] *)
Definition launch_action_sequence_batch (batch : list SequenceAction) : SM unit :=
  s ← get;
  rs ← spawn_all (ss_now s) (sched (imap pair batch));
  let results : gmap nat (EResult unit * Z) := list_to_map rs in
  let '(r, t) := join true (ss_now s) (omap (fun i => results !! i) (seq 0 (length batch))) in
  _ ← modify (set_now t);
  lift r.

(** [actions.iter().map(|a| a.wait).max()] *)
Definition max_wait (l : list SequenceAction) : option Duration :=
  match l with
  | [] => None
  | a :: l => Some (foldl (fun m a => Z.max m (sa_wait a)) (sa_wait a) l)
  end.

(** [op.enough(d)?] for an operation started at [t0] *)
Definition enough (t0 : Z) (timeout d : Duration) : SM unit :=
  s ← get; lift (op_enough timeout (ss_now s - t0)%Z d).

(** One entry of the loop of [launch_action_sequence]
    (eva/src/seq.rs:71-90) *)
Definition run_entry (t0 : Z) (timeout : Duration) (entry : SequenceEntry) : SM unit :=
  match entry with
  | SeDelay d =>
      let delay := from_micros d in
      _ ← enough t0 timeout delay;
      modify (fun s => set_now (ss_now s + delay)%Z s)
  | SeActions (SaSingle a) =>
      _ ← enough t0 timeout (sa_wait a);
      launch_action_entry a
  | SeActions (SaMulti l) =>
      match max_wait l with
      | Some max =>
          _ ← enough t0 timeout max;
          launch_action_sequence_batch l
      | None => mret tt
      end
  end.

(** eva/src/seq.rs:66-94 [launch_action_sequence] *)
Definition launch_action_sequence (seq : list SequenceEntry) (timeout : Duration) : SM unit :=
  s ← get;
  for_each (run_entry (ss_now s) timeout) seq.

(** eva/src/seq.rs:95-101 [abort] *)
Definition abort (entry : SequenceActionEntry) : SM unit :=
  match entry with
  | SaSingle a => launch_action_entry a
  | SaMulti l => launch_action_sequence_batch l
  end.

(** A task that is aborted stops at the entry it is in, or before it; actions
    of that entry that have been started go on, nobody reads their results. *)
Record Cut := mkCut { cut_at : nat; cut_started : bool }.

Definition run_cut (sequence : Sequence (Uuid := Uuid)) (c : Cut) : SM unit :=
  s ← get;
  _ ← for_each (run_entry (ss_now s) (sq_timeout sequence)) (take (cut_at c) (sq_seq sequence));
  if cut_started c then
    match sq_seq sequence !! cut_at c with
    | Some entry => log_ef (run_entry (ss_now s) (sq_timeout sequence) entry)
    | None => mret tt
    end
  else mret tt.

(** The task that runs the sequence: the result it sends, nothing if it was
    aborted or has panicked before; a task past its last entry is not aborted
    any more (eva/src/seq.rs:113-116) *)
Definition run_sequence (cancel : option Cut) (sequence : Sequence (Uuid := Uuid))
    : SM (option (EResult unit)) :=
  let aborted := c ← cancel; if (cut_at c <? length (sq_seq sequence))%nat then Some c else None in
  match aborted with
  | None =>
      r ← attempt (launch_action_sequence (sq_seq sequence) (sq_timeout sequence));
      mret (match r with Err EPanic => None | r => Some r end)
  | Some c =>
      r ← attempt (run_cut sequence c);
      mret (match r with
            | Ok _ => None
            | Err EPanic => None
            | Err e => Some (Err e)
            end)
  end.

(** eva/src/seq.rs:105-143 [execute] *)
Definition execute (cancel : option Cut) (sequence : Sequence (Uuid := Uuid)) : SM unit :=
  if (sq_timeout sequence <? max_expected_duration sequence)%Z then raise EFailed
  else
    _ ← modify (fun s =>
          set_futs (<[sq_u sequence := abort_timeout sequence]> (ss_futs s)) s);
    result ← run_sequence cancel sequence;
    _ ← modify (fun s => set_futs (delete (sq_u sequence) (ss_futs s)) s);
    match result with
    | Some (Ok _) => mret tt
    | Some (Err e) =>
        _ ← match sq_on_abort sequence with Some b => abort b | None => mret tt end;
        raise e
    | None =>
        _ ← match sq_on_abort sequence with Some b => abort b | None => mret tt end;
        raise EAborted
    end.

(** eva/src/seq.rs:147-154 [terminate]; the task is aborted *)
Definition terminate (u : Uuid) : SM unit :=
  s ← get;
  match ss_futs s !! u with
  | Some _ => modify (set_futs (delete u (ss_futs s)))
  | None => raise ENotFound
  end.

(** eva/src/seq.rs:159-168 [shutdown]; every task is aborted, and the longest
    of their waiting times is waited for *)
Definition shutdown : SM unit :=
  modify (fun s => set_now (ss_now s + foldr Z.max 0 (map_to_list (ss_futs s)).*2)%Z s).

(** ** Properties *)

Implicit Types (s : SeqSt) (cs : list Call).

Definition success (c : Call) : Prop := c.2 = Ok (LrState true).

Definition entry_actions (entry : SequenceActionEntry) : list SequenceAction :=
  match entry with SaSingle a => [a] | SaMulti l => l end.
Definition step_actions (entry : SequenceEntry) : list SequenceAction :=
  match entry with SeDelay _ => [] | SeActions entry => entry_actions entry end.

(** [logged cs s s']: from [s] to [s'] the actions [cs] were launched, in this
    order. *)
Definition logged cs s s' : Prop := ss_log s' = reverse cs ++ ss_log s.

Lemma logged_nil s s' : ss_log s' = ss_log s -> logged [] s s'.
Proof. done. Qed.
Lemma logged_trans cs cs' s1 s2 s3 :
  logged cs s1 s2 -> logged cs' s2 s3 -> logged (cs ++ cs') s1 s3.
Proof. unfold logged. intros E ->. by rewrite E, reverse_app, (assoc_L (++)). Qed.

Lemma launch_action_entry_logged a s :
  exists c, logged [(a, c)] s (launch_action_entry a s).2 /\
    ((launch_action_entry a s).1 = Ok tt <-> success (a, c)) /\
    ss_futs (launch_action_entry a s).2 = ss_futs s.
Proof.
  unfold launch_action_entry, core_action_call, logged, success. rewrite run_bind.
  destruct (ac_action a _ _) as [[r t] w]. exists r.
  destruct r as [[[]| |]|]; simpl; split_and!; try done; naive_solver.
Qed.

(** What the tasks of a batch return, against what they launched. *)
Definition task_of (ir : nat * (EResult unit * Z)) (c : Call) : Prop :=
  ir.2.1 = Ok tt <-> success c.

Lemma run_task_logged t a s :
  exists r c s', run_task t a s = (Ok (r, ss_now s'), s') /\ logged [(a, c)] s s' /\
    (r = Ok tt <-> success (a, c)) /\ ss_futs s' = ss_futs s.
Proof.
  unfold run_task, modify, attempt, get. rewrite !run_bind.
  destruct (launch_action_entry_logged a (set_now t s)) as (c & Hl & Hs & Hf).
  destruct (launch_action_entry a (set_now t s)) as [r s1]. by exists r, c, s1.
Qed.

Lemma spawn_all_logged t l s :
  exists rs cs s', spawn_all t l s = (Ok rs, s') /\ logged cs s s' /\
    rs.*1 = l.*1 /\ cs.*1 = l.*2 /\ Forall2 task_of rs cs /\ ss_futs s' = ss_futs s.
Proof.
  unfold spawn_all. revert s. induction l as [|[i a] l IH]; intros s.
  { exists [], [], s. split_and!; done. }
  cbn [for_collect]. rewrite !run_bind. simpl.
  destruct (run_task_logged t a s) as (r & c & s1 & -> & Hl & Hs & Hf). simpl.
  destruct (IH s1) as (rs & cs & s2 & E & Hl' & H1 & H2 & H3 & Hf'). rewrite run_bind, E.
  exists ((i, (r, ss_now s1)) :: rs), ((a, c) :: cs), s2. split_and!.
  - done.
  - by apply (logged_trans [(a, c)] cs s s1).
  - csimpl. by rewrite H1.
  - csimpl. by rewrite H2.
  - by constructor.
  - by rewrite Hf', Hf.
Qed.

(** Looking up all the keys of an association list gives its values. *)
Lemma omap_list_to_map {A} (ks : list nat) (l : list (nat * A)) :
  ks ≡ₚ l.*1 -> NoDup ks ->
  omap (fun i => (list_to_map l : gmap nat A) !! i) ks ≡ₚ l.*2.
Proof.
  intros Hp Hnd. rewrite Hp in Hnd. rewrite Hp. clear Hp ks.
  enough (forall k, k ⊆ l -> omap (fun i => (list_to_map l : gmap nat A) !! i) k.*1 = k.*2) as Hx
    by by rewrite Hx.
  induction k as [|[i x] k IH]; intros Hk; csimpl; [done|].
  assert ((list_to_map l : gmap nat A) !! i = Some x) as ->.
  { apply elem_of_list_to_map_1; [done|]. apply Hk. by left. }
  f_equal. apply IH. intros y Hy. apply Hk. by right.
Qed.

Lemma tasks_succeed rs cs :
  Forall2 task_of rs cs -> Forall (fun ir => ir.2.1 = Ok tt) rs <-> Forall success cs.
Proof. induction 1 as [|r c rs cs Hrc _ IH]; [done|]. rewrite !Forall_cons, IH. unfold task_of in Hrc. tauto. Qed.

Lemma join_ok ok t rs :
  (join ok t rs).1 = Ok tt <-> ok = true /\ Forall (fun r => r.1 = Ok tt) rs.
Proof.
  revert ok t. induction rs as [|[r t'] rs IH]; intros ok t; simpl.
  - destruct ok; naive_solver.
  - rewrite Forall_cons. destruct r as [[]|err]; simpl; [rewrite IH; naive_solver|].
    destruct err; simpl; try rewrite IH; naive_solver.
Qed.

Context (sched_perm : forall l, sched l ≡ₚ l).

Lemma batch_logged l s :
  exists r cs s', launch_action_sequence_batch l s = (r, s') /\ logged cs s s' /\ cs.*1 ≡ₚ l /\
    (r = Ok tt <-> Forall success cs) /\ ss_futs s' = ss_futs s.
Proof.
  unfold launch_action_sequence_batch. rewrite run_bind. unfold get at 1. rewrite run_bind.
  destruct (spawn_all_logged (ss_now s) (sched (imap pair l)) s)
    as (rs & cs & s' & -> & Hl & H1 & H2 & H3 & Hf).
  assert (rs.*1 ≡ₚ seq 0 (length l)) as Hk.
  { rewrite H1, sched_perm. apply reflexive_eq. clear. rewrite fmap_imap. simpl.
    rewrite <-(list_fmap_id (seq 0 _)). apply (imap_seq_0 l id). }
  set (js := omap _ _). assert (js ≡ₚ rs.*2) as Hj.
  { unfold js. apply omap_list_to_map; [by symmetry|apply NoDup_seq]. }
  destruct (join true (ss_now s) js) as [r t] eqn:E. eexists r, cs, _. split_and!.
  - done.
  - done.
  - rewrite H2, sched_perm. apply reflexive_eq. rewrite fmap_imap. simpl.
    rewrite <-(list_fmap_id l) at 2. apply (imap_const id).
  - assert ((join true (ss_now s) js).1 = r) as <- by by rewrite E. rewrite join_ok.
    rewrite Hj, Forall_fmap. rewrite <-(tasks_succeed rs cs) by done. unfold compose. naive_solver.
  - done.
Qed.

(** What running an entry launches: nothing when there is not enough time
    left, all its actions otherwise. *)
Lemma run_entry_logged t0 timeout entry s :
  exists r cs s', run_entry t0 timeout entry s = (r, s') /\ logged cs s s' /\
    (cs = [] \/ cs.*1 ≡ₚ step_actions entry) /\
    (r = Ok tt -> cs.*1 ≡ₚ step_actions entry /\ Forall success cs) /\ ss_futs s' = ss_futs s.
Proof.
  destruct entry as [d|[a|l]]; simpl.
  - unfold enough. unfold_m. simpl. destruct (op_enough _ _ _) as [[]|err]; simpl;
      eexists _, [], _; (split_and!; [done|done|by left|done|done]).
  - rewrite run_bind. unfold enough. unfold_m. simpl.
    destruct (op_enough _ _ _) as [[]|err]; [|by eexists _, [], _; split_and!; try done; left].
    destruct (launch_action_entry_logged a s) as (c & Hl & Hs & Hf).
    destruct (launch_action_entry a s) as [r s']. eexists r, [(a, c)], s'. simpl in *.
    split_and!; try done; [by right|]. intros ->. split; [done|]. constructor; [by apply Hs|done].
  - destruct (max_wait l) as [m|] eqn:Em.
    2: { destruct l; [|done]. eexists _, [], _. split_and!; try done. by left. }
    rewrite run_bind. unfold enough. unfold_m. simpl.
    destruct (op_enough _ _ _) as [[]|err]; [|by eexists _, [], _; split_and!; try done; left].
    destruct (batch_logged l s) as (r & cs & s' & -> & Hl & Hp & Hs & Hf).
    exists r, cs, s'. split_and!; try done; [by right|]. intros ->. split; [done|]. by apply Hs.
Qed.

(** All entries were run, one after the other, and each action succeeded. *)
Inductive completed : list SequenceEntry -> list Call -> Prop :=
  | completed_nil : completed [] []
  | completed_cons entry es cs cs' :
      cs.*1 ≡ₚ step_actions entry -> Forall success cs -> completed es cs' ->
      completed (entry :: es) (cs ++ cs').

(** The run ended in some entry: those before it were run successfully, its
    actions were launched or not, and nothing was launched after it. *)
Definition broken (es : list SequenceEntry) cs : Prop :=
  exists done entry rest cs1 cs2, es = done ++ entry :: rest /\ cs = cs1 ++ cs2 /\
    completed done cs1 /\ (cs2 = [] \/ cs2.*1 ≡ₚ step_actions entry).

Lemma broken_cons entry es cs cs' :
  cs.*1 ≡ₚ step_actions entry -> Forall success cs -> broken es cs' ->
  broken (entry :: es) (cs ++ cs').
Proof.
  intros Hp Hs (done & e' & rest & cs1 & cs2 & -> & -> & Hd & He).
  exists (entry :: done), e', rest, (cs ++ cs1), cs2. rewrite (assoc_L (++)).
  split_and!; [done|done| |done]. by constructor.
Qed.

Lemma entries_logged t0 timeout es s :
  exists r cs s', for_each (run_entry t0 timeout) es s = (r, s') /\ logged cs s s' /\
    match r with Ok _ => completed es cs | Err _ => broken es cs end /\ ss_futs s' = ss_futs s.
Proof.
  revert s. induction es as [|entry es IH]; intros s.
  { eexists _, [], s. split_and!; try done. constructor. }
  cbn [for_each]. rewrite run_bind.
  destruct (run_entry_logged t0 timeout entry s) as ([[]|err] & cs & s1 & -> & Hl & Hc & Hok & Hf).
  - destruct (IH s1) as (r & cs' & s2 & -> & Hl' & Hr & Hf'). destruct (Hok eq_refl) as [Hp Hs].
    exists r, (cs ++ cs'), s2. split_and!; [done|by eapply logged_trans| |by rewrite Hf', Hf].
    destruct r; [by constructor|by apply broken_cons].
  - exists (Err err), cs, s1. split_and!; try done. exists [], entry, es, [], cs.
    split_and!; try done. constructor.
Qed.

Lemma broken_take k es cs : broken (take k es) cs -> broken es cs.
Proof.
  intros (done & e' & rest & cs1 & cs2 & E & -> & Hd & He).
  exists done, e', (rest ++ drop k es), cs1, cs2. split_and!; try done.
  rewrite <-(take_drop k es) at 1. by rewrite E, <-(assoc_L (++)).
Qed.

Lemma run_cut_logged sq c s :
  (cut_at c < length (sq_seq sq))%nat ->
  exists r cs s', run_cut sq c s = (r, s') /\ logged cs s s' /\ broken (sq_seq sq) cs /\
    ss_futs s' = ss_futs s.
Proof.
  intros Hc. unfold run_cut. rewrite run_bind. unfold get at 1. rewrite run_bind.
  destruct (entries_logged (ss_now s) (sq_timeout sq) (take (cut_at c) (sq_seq sq)) s)
    as ([[]|err] & cs & s1 & -> & Hl & Hr & Hf).
  2: { exists (Err err), cs, s1. split_and!; try done. by eapply broken_take. }
  destruct (lookup_lt_is_Some_2 _ _ Hc) as [entry He].
  pose proof (take_drop_middle _ _ _ He) as Hsplit.
  destruct (cut_started c); [|eexists _, cs, s1; split_and!; try done].
  - rewrite He. unfold log_ef.
    destruct (run_entry_logged (ss_now s) (sq_timeout sq) entry s1)
      as (r & cs' & s2 & -> & Hl' & Hc' & _ & Hf').
    eexists _, (cs ++ cs'), s2. split_and!; [done|by eapply logged_trans| |by rewrite Hf', Hf].
    eexists _, entry, _, cs, cs'. by rewrite Hsplit.
  - eexists _, entry, _, cs, []. rewrite Hsplit, (right_id_L [] (++)). split_and!; eauto.
Qed.

Lemma run_sequence_logged cancel sq s :
  exists r cs s', run_sequence cancel sq s = (Ok r, s') /\ logged cs s s' /\
    match r with
    | Some (Ok _) => completed (sq_seq sq) cs
    | _ => broken (sq_seq sq) cs
    end /\ ss_futs s' = ss_futs s.
Proof.
  unfold run_sequence. destruct (c ← cancel; _) as [c|] eqn:Ec.
  - destruct cancel as [c'|]; simpl in Ec; [|done]. case_match eqn:Hlt; [|done].
    apply Nat.ltb_lt in Hlt. simplify_eq. rewrite run_bind. unfold attempt.
    destruct (run_cut_logged sq c s Hlt) as (r & cs & s' & -> & Hl & Hb & Hf).
    eexists _, cs, s'. split_and!; [done|done| |done]. by destruct r as [[]|[]].
  - rewrite run_bind. unfold attempt, launch_action_sequence. rewrite run_bind. unfold get at 1.
    destruct (entries_logged (ss_now s) (sq_timeout sq) (sq_seq sq) s) as (r & cs & s' & -> & Hl & Hr & Hf).
    eexists _, cs, s'. split_and!; [done|done| |done]. by destruct r as [[]|[]].
Qed.

Lemma abort_logged entry s :
  exists r cs s', abort entry s = (r, s') /\ logged cs s s' /\ cs.*1 ≡ₚ entry_actions entry /\
    (r = Ok tt <-> Forall success cs) /\ ss_futs s' = ss_futs s.
Proof.
  destruct entry as [a|l]; simpl.
  - destruct (launch_action_entry_logged a s) as (c & Hl & Hs & Hf).
    destruct (launch_action_entry a s) as [r s']. exists r, [(a, c)], s'. split_and!; try done.
    simpl in Hs. rewrite Hs, Forall_singleton. done.
  - apply batch_logged.
Qed.

Definition abort_actions (sq : Sequence (Uuid := Uuid)) : list SequenceAction :=
  from_option entry_actions [] (sq_on_abort sq).

Lemma execute_refused cancel sq s :
  (sq_timeout sq < max_expected_duration sq)%Z -> execute cancel sq s = (Err EFailed, s).
Proof. intros Hlt%Z.ltb_lt. unfold execute. by rewrite Hlt. Qed.

Lemma execute_ok cancel sq s s' :
  execute cancel sq s = (Ok tt, s') ->
  exists s1,
    launch_action_sequence (sq_seq sq) (sq_timeout sq)
      (set_futs (<[sq_u sq := abort_timeout sq]> (ss_futs s)) s) = (Ok tt, s1) /\
    s' = set_futs (delete (sq_u sq) (ss_futs s1)) s1.
Proof.
  unfold execute. destruct (_ <? _)%Z; [done|]. rewrite run_bind. unfold modify at 1.
  rewrite run_bind. set (s0 := set_futs _ s).
  assert (forall e s1, ((_ ← match sq_on_abort sq with
      | Some b => abort b | None => mret tt end; raise (A := unit) e) s1).1 ≠ Ok tt) as Hab.
  { intros e s1. rewrite run_bind. by destruct (_ s1) as [[]]. }
  destruct (run_sequence cancel sq s0) as [[r|] s1] eqn:E; [|done]. rewrite run_bind.
  unfold modify at 1. destruct r as [[[]|e]|]; intros Hr.
  - injection Hr as <-. exists s1. split; [|done]. revert E. unfold run_sequence.
    destruct (c ← cancel; _) as [c|]; rewrite run_bind; unfold attempt at 1.
    + by destruct (run_cut sq c s0) as [[[]|[]] s2].
    + destruct (launch_action_sequence _ _ s0) as [[[]|[]] s2]; by intros [= <-].
  - exfalso. eapply (Hab e). by rewrite Hr.
  - exfalso. eapply (Hab EAborted). by rewrite Hr.
Qed.

Lemma execute_outcome cancel sq s :
  (max_expected_duration sq <= sq_timeout sq)%Z ->
  exists r cs cs_abort s',
    execute cancel sq s = (r, s') /\ logged (cs ++ cs_abort) s s' /\
    match r with
    | Ok _ => completed (sq_seq sq) cs /\ cs_abort = []
    | Err _ => broken (sq_seq sq) cs /\ cs_abort.*1 ≡ₚ abort_actions sq
    end /\
    ss_futs s' = delete (sq_u sq) (ss_futs s).
Proof.
  intros Hle%Z.ltb_ge. unfold execute. rewrite Hle, run_bind. unfold modify at 1. rewrite run_bind.
  match goal with |- context [run_sequence cancel sq ?x] => set (s0 := x) end.
  destruct (run_sequence_logged cancel sq s0) as (r & cs & s1 & -> & Hl & Hr & Hf).
  rewrite run_bind. unfold modify at 1. set (s2 := set_futs _ s1).
  assert (ss_futs s2 = delete (sq_u sq) (ss_futs s)) as Hf2.
  { unfold s2. simpl. rewrite Hf. unfold s0. simpl. apply delete_insert_eq. }
  assert (forall e, exists r cs_abort s', (_ ← match sq_on_abort sq with
      | Some b => abort b | None => mret tt end; raise (A := unit) e) s2 = (Err r, s') /\
      logged cs_abort s2 s' /\ cs_abort.*1 ≡ₚ abort_actions sq /\ ss_futs s' = ss_futs s2) as Hab.
  { intros e. unfold abort_actions. rewrite run_bind. destruct (sq_on_abort sq) as [b|]; simpl.
    - destruct (abort_logged b s2) as ([[]|e'] & cs' & s3 & -> & Hl' & Hp & _ & Hf');
        [by exists e, cs', s3|by exists e', cs', s3].
    - by exists e, [], s2. }
  destruct r as [[[]|e]|].
  - exists (Ok tt), cs, [], s2. rewrite (right_id_L [] (++)). by split_and!.
  - destruct (Hab e) as (e' & cs' & s3 & -> & Hl' & Hp & Hf3). exists (Err e'), cs, cs', s3.
    split_and!; try done; [by apply (logged_trans cs cs' s s2)|by rewrite Hf3].
  - destruct (Hab EAborted) as (e' & cs' & s3 & -> & Hl' & Hp & Hf3). exists (Err e'), cs, cs', s3.
    split_and!; try done; [by apply (logged_trans cs cs' s s2)|by rewrite Hf3].
Qed.


(** ** Time *)

Section time.
(** [Op::enough] succeeds only if the time that is left suffices; an action
    that is completed takes at most the time its caller waits for. *)
Context (op_enough_left : forall timeout elapsed d,
  op_enough timeout elapsed d = Ok tt -> (elapsed + d <= timeout)%Z).
Context (action_in_time : forall a t w t' w',
  ac_action (ActionCore := _) a t w = (Ok (LrState true), t', w') -> (t <= t' <= t + sa_wait a)%Z).

Lemma launch_action_entry_time a s s' :
  launch_action_entry a s = (Ok tt, s') -> (ss_now s <= ss_now s' <= ss_now s + sa_wait a)%Z.
Proof.
  unfold launch_action_entry, core_action_call. rewrite run_bind.
  destruct (ac_action a (ss_now s) (ss_world s)) as [[r t] w] eqn:E.
  destruct r as [[[]| |]|]; try done. intros [= <-]. simpl. by apply (action_in_time a _ _ _ _ E).
Qed.

Lemma spawn_all_time t m l s rs s' :
  spawn_all t l s = (Ok rs, s') -> Forall (fun ia => sa_wait ia.2 <= m)%Z l ->
  Forall (fun ir => ir.2.1 = Ok tt -> t <= ir.2.2 <= t + m)%Z rs.
Proof.
  unfold spawn_all. revert s rs. induction l as [|[i a] l IH]; intros s rs.
  { intros [= <- <-] _. constructor. }
  cbn [for_collect]. rewrite run_bind. simpl. rewrite run_bind. unfold run_task. rewrite run_bind.
  unfold modify at 1. rewrite run_bind. unfold attempt at 1.
  destruct (launch_action_entry a (set_now t s)) as [r s1] eqn:E. simpl. rewrite run_bind.
  intros Hr [Ha Hl]%Forall_cons. destruct (for_collect _ l s1) as [[rs'|] s2] eqn:E2; [|done].
  rewrite run_ret in Hr. injection Hr as <- <-. constructor; [|by apply (IH s1)].
  simpl. intros ->. apply launch_action_entry_time in E. simpl in *. lia.
Qed.

Lemma join_time t m ok rs t' :
  Forall (fun r => r.1 = Ok tt -> t <= r.2 <= m)%Z rs ->
  forall t0, (t <= t0 <= m)%Z -> join ok t0 rs = (Ok tt, t') -> (t <= t' <= m)%Z.
Proof.
  intros Hrs. revert ok. induction Hrs as [|[r tr] rs Hr _ IH]; intros ok t0 Ht0; simpl.
  - intros E. destruct ok; by simplify_eq.
  - destruct r as [[]|err].
    + apply IH. simpl in Hr. specialize (Hr eq_refl). lia.
    + intros E. assert ((join false (Z.max t0 tr) rs).1 ≠ Ok tt) as Hn
        by (intros [? _]%join_ok; done).
      destruct err; simplify_eq; by rewrite E in Hn.
Qed.

Lemma max_wait_spec l m : max_wait l = Some m -> Forall (fun a => sa_wait a <= m)%Z l.
Proof.
  destruct l as [|a l]; [done|]. simpl. intros [= <-].
  enough (forall k, k <= foldl (fun m a => Z.max m (sa_wait a)) k l /\
    Forall (fun a => sa_wait a <= foldl (fun m a => Z.max m (sa_wait a)) k l) l)%Z as Hx
    by (constructor; apply Hx).
  induction l as [|b l IH]; intros k; simpl; [split; [lia|constructor]|].
  destruct (IH (Z.max k (sa_wait b))) as [H1 H2]. split; [lia|]. constructor; [lia|done].
Qed.

Lemma batch_time l m s s' :
  Forall (fun a => 0 <= sa_wait a <= m)%Z l -> (0 <= m)%Z ->
  launch_action_sequence_batch l s = (Ok tt, s') ->
  (ss_now s <= ss_now s' <= ss_now s + m)%Z.
Proof.
  intros Hl Hm. unfold launch_action_sequence_batch. rewrite run_bind. unfold get at 1.
  rewrite run_bind. destruct (spawn_all (ss_now s) _ s) as [[rs|] s1] eqn:E; [|done].
  apply (spawn_all_time _ m) in E.
  2: { apply Forall_forall. intros [i a]. rewrite sched_perm. intros Hin.
       apply elem_of_lookup_imap in Hin as (j & a' & ? & Ha). simplify_eq.
       by apply (Forall_lookup_1 _ _ _ _ Hl Ha). }
  destruct (join _ _ _) as [r t] eqn:Ej. simpl. intros [= -> <-]. simpl.
  eapply (join_time (ss_now s)); [|split; [reflexivity|lia]|exact Ej].
  apply Forall_forall. intros x (i & _ & Hi)%list_elem_of_omap.
  apply elem_of_list_to_map_2 in Hi. by apply (Forall_forall _ rs) with (x := (i, x)) in E.
Qed.

(** Delays and waiting times are unsigned. *)
Definition entry_wf (entry : SequenceEntry) : Prop :=
  match entry with
  | SeDelay d => (0 <= d)%Z
  | SeActions entry => Forall (fun a => 0 <= sa_wait a)%Z (entry_actions entry)
  end.

Lemma enough_run t0 timeout d s :
  enough t0 timeout d s = (op_enough timeout (ss_now s - t0)%Z d, s).
Proof. done. Qed.

Lemma run_entry_time t0 timeout entry s s' :
  entry_wf entry -> run_entry t0 timeout entry s = (Ok tt, s') ->
  (ss_now s <= ss_now s' <= Z.max (ss_now s) (t0 + timeout))%Z.
Proof.
  destruct entry as [d|[a|l]]; simpl; intros Hwf.
  - rewrite run_bind, enough_run. destruct (op_enough _ _ _) as [[]|] eqn:E; [|done].
    apply op_enough_left in E. intros [= <-]. unfold from_micros in *. simpl. lia.
  - rewrite run_bind, enough_run. destruct (op_enough _ _ _) as [[]|] eqn:E; [|done].
    apply op_enough_left in E. intros ?%launch_action_entry_time. lia.
  - destruct (max_wait l) as [m|] eqn:Em; [|intros [= <-]; lia].
    rewrite run_bind, enough_run. destruct (op_enough _ _ _) as [[]|] eqn:E; [|done].
    apply op_enough_left in E. pose proof (max_wait_spec _ _ Em) as Hm.
    intros Hb. apply (batch_time l m) in Hb.
    + lia.
    + apply Forall_and. split; [done|]. exact Hm.
    + destruct l as [|a l]; [done|]. apply Forall_cons in Hwf as [? _], Hm as [? _]. lia.
Qed.

Lemma entries_time es timeout s s' :
  Forall entry_wf es -> (0 <= timeout)%Z ->
  launch_action_sequence es timeout s = (Ok tt, s') ->
  (ss_now s <= ss_now s' <= ss_now s + timeout)%Z.
Proof.
  intros Hwf Ht. unfold launch_action_sequence. rewrite run_bind. unfold get at 1.
  set (t0 := ss_now s). assert (t0 <= ss_now s <= t0 + timeout)%Z as Hs by lia.
  clearbody t0. revert s Hs. induction Hwf as [|entry es He _ IH]; intros s Hs; simpl.
  { by intros [= <-]. }
  rewrite run_bind. destruct (run_entry _ _ _ s) as [[[]|] s1] eqn:E; [|done].
  apply run_entry_time in E; [|done]. apply IH. lia.
Qed.


End time.

(** ** Where the results come from *)

(** Every logged result is one the core has returned. *)
Definition from_core (c : Call) : Prop :=
  exists t w t' w', ac_action c.1 t w = (c.2, t', w').
Definition log_grows s s' : Prop :=
  Forall from_core (ss_log s) -> Forall from_core (ss_log s').
#[local] Instance log_grows_preorder : PreOrder log_grows.
Proof. split; [by intros ? ?|]. intros x y z Hxy Hyz Hx. auto. Qed.

Lemma core_action_call_grows a : keeps log_grows (core_action_call a).
Proof.
  intros s Hs. unfold core_action_call.
  destruct (ac_action a (ss_now s) (ss_world s)) as [[r t] w] eqn:E. simpl.
  constructor; [|done]. by eexists _, _, _, _.
Qed.
Lemma modify_grows f : (forall s, ss_log (f s) = ss_log s) -> keeps log_grows (modify f).
Proof. intros Hf. apply keeps_modify. intros s Hs. by rewrite Hf. Qed.
#[local] Hint Resolve core_action_call_grows : keeps.

Lemma launch_action_entry_grows a : keeps log_grows (launch_action_entry a).
Proof. unfold launch_action_entry. frame. Qed.
#[local] Hint Resolve launch_action_entry_grows : keeps.

Lemma batch_grows l : keeps log_grows (launch_action_sequence_batch l).
Proof.
  unfold launch_action_sequence_batch, spawn_all, run_task. frame; by apply modify_grows.
Qed.
#[local] Hint Resolve batch_grows : keeps.

Lemma run_entry_grows t0 timeout entry : keeps log_grows (run_entry t0 timeout entry).
Proof. unfold run_entry, enough. frame; by apply modify_grows. Qed.
#[local] Hint Resolve run_entry_grows : keeps.

Lemma launch_action_sequence_grows es timeout :
  keeps log_grows (launch_action_sequence es timeout).
Proof. unfold launch_action_sequence. frame. Qed.

Lemma completed_actions es cs entry a :
  completed es cs -> entry ∈ es -> a ∈ step_actions entry -> exists c, c ∈ cs /\ c.1 = a /\ success c.
Proof.
  induction 1 as [|entry' es cs cs' Hp Hs _ IH]; [by intros ?%elem_of_nil|].
  intros [->|Hin]%elem_of_cons Ha.
  - rewrite <-Hp in Ha. apply list_elem_of_fmap in Ha as (c & -> & Hc). exists c.
    split_and!; [apply elem_of_app; by left|done|]. by apply (Forall_forall success cs).
  - destruct (IH Hin Ha) as (c & ? & ? & ?). exists c. split_and!; [|done|done].
    apply elem_of_app. by right.
Qed.

(** When a sequence succeeds, the core has returned success for every action
    of it. *)
Lemma execute_ok_actions cancel sq s s' entry a :
  execute cancel sq s = (Ok tt, s') -> Forall from_core (ss_log s) ->
  entry ∈ sq_seq sq -> a ∈ step_actions entry ->
  exists t w t' w', ac_action a t w = (Ok (LrState true), t', w').
Proof.
  intros (s1 & Hl & _)%execute_ok Hs Hin Ha. set (s0 := set_futs _ s) in Hl.
  pose proof (launch_action_sequence_grows (sq_seq sq) (sq_timeout sq) s0 Hs) as Hg.
  rewrite Hl in Hg. unfold launch_action_sequence in Hl. rewrite run_bind in Hl.
  unfold get at 1 in Hl.
  destruct (entries_logged (ss_now s0) (sq_timeout sq) (sq_seq sq) s0)
    as (r & cs & s2 & E & Hlog & Hr & _). rewrite E in Hl. simplify_eq.
  destruct (completed_actions _ _ _ _ Hr Hin Ha) as (c & Hc & <- & Hsc).
  simpl in Hg. rewrite Hlog in Hg. apply Forall_app in Hg as [Hg _].
  assert (from_core c) as (t & w & t' & w' & E').
  { apply (Forall_forall from_core (reverse cs)); [done|]. by apply elem_of_reverse. }
  exists t, w, t', w'. by rewrite E', Hsc.
Qed.

(** ** What a sequence does to the core

    It changes the state of the core by actions only. *)
Section worlds.
Context (R : relation S) `{!PreOrder R} (Haction : forall a t w, R w (ac_action a t w).2).

Definition world_rel s s' : Prop := R (ss_world s) (ss_world s').
#[local] Instance world_rel_preorder : PreOrder world_rel.
Proof. split; [intros s; unfold world_rel; reflexivity|]. intros x y z. unfold world_rel. by etrans. Qed.
Lemma core_action_call_world a : keeps world_rel (core_action_call a).
Proof.
  intros s. unfold core_action_call, world_rel. specialize (Haction a (ss_now s) (ss_world s)).
  by destruct (ac_action a (ss_now s) (ss_world s)) as [[r t] w].
Qed.
Lemma modify_world f : (forall s, ss_world (f s) = ss_world s) -> keeps world_rel (modify f).
Proof. intros Hf. apply keeps_modify. intros s. unfold world_rel. by rewrite Hf. Qed.
#[local] Hint Resolve core_action_call_world : keeps.
Lemma launch_action_entry_world a : keeps world_rel (launch_action_entry a).
Proof. unfold launch_action_entry. frame. Qed.
#[local] Hint Resolve launch_action_entry_world : keeps.
Lemma batch_world l : keeps world_rel (launch_action_sequence_batch l).
Proof.
  unfold launch_action_sequence_batch, spawn_all, run_task. frame; by apply modify_world.
Qed.
#[local] Hint Resolve batch_world : keeps.
Lemma run_entry_world t0 timeout entry : keeps world_rel (run_entry t0 timeout entry).
Proof. unfold run_entry, enough. frame; by apply modify_world. Qed.
#[local] Hint Resolve run_entry_world : keeps.
Lemma execute_world cancel sq : keeps world_rel (execute cancel sq).
Proof.
  unfold execute, run_sequence, launch_action_sequence, run_cut, abort. frame; by apply modify_world.
Qed.
Lemma terminate_world u : keeps world_rel (terminate u).
Proof. unfold terminate. frame. by apply modify_world. Qed.
End worlds.

End seq.

(** ** The core as the interface *)

Section core.
Context `{Ext : Externals} `{NExt : !NodeExternals} {Uuid : Type} `{Countable Uuid}.
Context (error_value : Error -> Value) (e : Env) (cfg : CoreConfig) (core_timeout : Z)
  (from_secs_f64 : f64 -> Z).

(** The state: the node, and how many actions the sequences have launched. *)
Abbreviation S := (nat * Node (Uuid := Uuid))%type.

(** What comes from outside at each launch, and how long it takes. *)
Context (DEFAULT_ACTION_PRIORITY : Z) (outside : nat -> Outside (Uuid := Uuid)) (took : nat -> Z).

(** The call of [Core::action] by [launch_action_entry] (eva/src/seq.rs:22-31) *)
#[export] Instance core_actions : ActionCore Uuid S := {|
  ac_action a t w :=
    let '(r, n) := action error_value e cfg core_timeout from_secs_f64 (outside w.1) None
      (sa_oid a) (sa_params a) DEFAULT_ACTION_PRIORITY (Some (sa_wait a)) true w.2 in
    (r, (t + took w.1)%Z, (Datatypes.S w.1, n))
|}.

Context (max_expected_duration abort_timeout : Sequence (Uuid := Uuid) -> Duration).
Context (op_enough : Duration -> Duration -> Duration -> EResult unit).
Context (sched : list (nat * SequenceAction) -> list (nat * SequenceAction)).
Context (sched_perm : forall l, sched l ≡ₚ l).

(** Sequences on top of the core.  When the call that runs a sequence
    returns success, each of its actions has really been done: its item was
    registered and enabled, and the service of the item, or the node that owns
    it, has reported that action as completed. *)
Lemma sequence_actions_completed cancel sq (s s' : SeqSt (S := S)) entry a :
  execute max_expected_duration abort_timeout op_enough sched cancel sq s = (Ok tt, s') ->
  ss_log s = [] -> entry ∈ sq_seq sq -> a ∈ step_actions entry ->
  exists k (n : Node (Uuid := Uuid)) item, get_item (sa_oid a) (w_inventory (nd_world n)) = Some item /\
    item_is_enabled (w_store (nd_world n)) item = true /\
    match it_source item with
    | None => exists op, op ∈ ou_during (Uuid := Uuid) (outside k) /\
        reported_completed (Uuid := Uuid) (ou_new_v4 (outside k)) op
    | Some _ => exists info, ou_remote (outside k) = Ok info /\ io_status info = Completed
    end.
Proof.
  intros Hx Hs Hin Ha.
  destruct (execute_ok_actions max_expected_duration abort_timeout op_enough sched sched_perm
    cancel sq s s' entry a Hx) as (t & [k n] & t' & w' & E); [by rewrite Hs|done|done|].
  simpl in E. destruct (action _ _ _ _ _ _ _ _ _ _ _ _ n) as [r n'] eqn:Ea. simplify_eq.
  apply action_outcome in Ea. by exists k, n.
Qed.
End core.

Module SeqExamples.
Import Sample.

Definition act (name : string) : SequenceAction :=
  mkSeqAction (Unit, name) (Some (ParamsUnit (SNum 1 : Value))) 100.
Definition op_enough (timeout elapsed d : Duration) : EResult unit :=
  if (elapsed + d <=? timeout)%Z then Ok tt else Err ETimeout.
Definition max_expected (sq : Sequence (Uuid := positive)) : Duration := 0%Z.
Definition sched (l : list (nat * SequenceAction)) : list (nat * SequenceAction) := reverse l.

Lemma sched_perm l : sched l ≡ₚ l.
Proof. apply reverse_Permutation. Qed.
Lemma op_enough_left timeout elapsed d :
  op_enough timeout elapsed d = Ok tt -> (elapsed + d <= timeout)%Z.
Proof. unfold op_enough. by destruct (Z.leb_spec (elapsed + d) timeout). Qed.

(** A plant on which every action takes a nanosecond; all but one are
    completed, if they are waited for. *)
#[export] Instance plant : ActionCore positive unit := {|
  ac_action a t w :=
    (Ok (LrState (negb (String.eqb (sa_oid a).2 "bad") && (1 <=? sa_wait a)%Z)), (t + 1)%Z, tt)
|}.
Lemma plant_in_time (a : SequenceAction) (t : Z) (w : unit) t' w' :
  ac_action a t w = (Ok (LrState true), t', w') -> (t <= t' <= t + sa_wait a)%Z.
Proof. simpl. destruct (negb _), (Z.leb_spec 1 (sa_wait a)); simpl; naive_solver lia. Qed.
Definition s0 : SeqSt (Uuid := positive) (S := unit) := mkSeqSt 0 tt [] ∅.
Definition run (cancel : option Cut) (sq : Sequence (Uuid := positive)) :=
  execute (S := unit) max_expected max_expected op_enough sched cancel sq s0.

Definition good : Sequence (Uuid := positive) :=
  mkSequence 1%positive
    [SeActions (SaMulti [act "a"; act "b"]); SeDelay 5; SeActions (SaSingle (act "c"))]
    1000000 (Some (SaSingle (act "stop"))).
Definition bad : Sequence (Uuid := positive) :=
  mkSequence 1%positive [SeActions (SaMulti [act "a"; act "bad"]); SeActions (SaSingle (act "c"))]
    1000000 (Some (SaSingle (act "stop"))).

Definition names (r : EResult unit * SeqSt (Uuid := positive) (S := unit)) : EResult unit * list string :=
  (r.1, reverse ((fun c => (sa_oid c.1).2) <$> ss_log r.2)).

Example runs :
  names (run None good) = (Ok tt, ["b"; "a"; "c"]) /\
  names (run None bad) = (Err EFailed, ["bad"; "a"; "stop"]) /\
  names (run (Some (mkCut 1 false)) good) = (Err EAborted, ["b"; "a"; "stop"]).
Proof. split_and!; vm_refl. Qed.


Lemma good_wf : Forall entry_wf (sq_seq good).
Proof. repeat constructor; simpl; try lia. Qed.


(** The same on top of the core: one action on a lamp. *)
Definition lamp_on : SequenceAction :=
  mkSeqAction CoreActionExamples.lamp (Some (ParamsUnit CoreActionExamples.on)) 100.
Definition lamp_sequence : Sequence (Uuid := positive) :=
  mkSequence 1%positive [SeActions (SaSingle lamp_on)] 1000000 None.
Definition lamp_outside (k : nat) := CoreLaunchExamples.outside.
Definition lamp_core : ActionCore positive (nat * Node (Uuid := positive)) :=
  core_actions CoreLaunchExamples.error_value (CoreActionExamples.env (Ok tt)) CoreActionExamples.cfg
    5 (fun _ => 0%Z) 100 lamp_outside (fun _ => 1%Z).
Definition lamp_s0 : SeqSt (Uuid := positive) (S := nat * Node (Uuid := positive)) :=
  mkSeqSt 0 (0, CoreLaunchExamples.node) [] ∅.
Definition lamp_run :=
  execute (ActionCore0 := lamp_core) max_expected max_expected op_enough sched None lamp_sequence lamp_s0.

Lemma sequence_actions_completed_example :
  lamp_run.1 = Ok tt /\
  exists (n : Node (Uuid := positive)) item,
    get_item CoreActionExamples.lamp (w_inventory (nd_world n)) = Some item.
Proof.
  assert (lamp_run.1 = Ok tt) as E by vm_refl. split; [exact E|].
  destruct (sequence_actions_completed CoreLaunchExamples.error_value (CoreActionExamples.env (Ok tt))
    CoreActionExamples.cfg 5 (fun _ => 0%Z) 100 lamp_outside (fun _ => 1%Z) max_expected max_expected
    op_enough sched sched_perm None lamp_sequence lamp_s0 lamp_run.2
    (SeActions (SaSingle lamp_on)) lamp_on) as (k & n & item & Hi & _).
  - by apply pair_fst.
  - done.
  - by left.
  - by left.
  - by exists n, item.
Defined.
End SeqExamples.
