(* ===== verification/Opener.v ===== *)
(** * The logic manager: openers (svc/controller-lm/src/opener.rs)

    An opener turns an action on a unit with several positions into a plan for
    the ports that drive a motor, and runs the plan as a sequence of the core
    ([Seq]).  With the logic [Ac] the port switches the motor and the direction
    port its direction, with [Rdc] one port drives it up and the other down.

    The plan is checked against a model of the motor: it moves while it is
    driven, after a warm-up time, and it stops at its end positions. *)
From S2P Require Import Prelude Duration EvaCommon ActMgr CoreLaunch Seq.

(** ** Plans *)

(** svc/controller-lm/src/opener.rs:33-38 [Logic] *)
Inductive OLogic := Ac | Rdc.
#[export] Instance OLogic_eq_dec : EqDecision OLogic.
Proof. solve_decision. Defined.

(** svc/controller-lm/src/opener.rs:47-54 [Command] *)
Inductive Command := PortOn | PortOff | DPortOn | DPortOff | Delay (d : Duration).

(** svc/controller-lm/src/opener.rs:216-238 [PlanConfig]; [ts] and [te] are
    [i8] *)
Record PlanConfig := mkPlanConfig {
  pc_logic : OLogic;
  pc_steps : list f64;
  pc_warmup_open : option Duration;
  pc_warmup_close : option Duration;
  pc_tuning : option Duration;
  pc_ts : option Z;
  pc_te : option Z
}.

(** A computation that runs out of fuel, fails, or gives a value. *)
Definition Fuelled (A : Type) : Type := option (EResult A).
Definition fbind {A B} (m : Fuelled A) (f : A -> Fuelled B) : Fuelled B :=
  match m with
  | Some (Ok a) => f a
  | Some (Err e) => Some (Err e)
  | None => None
  end.

(** [steps.len().try_into()] for [i8] *)
Definition end_position (config : PlanConfig) : EResult Z :=
  let n := Z.of_nat (length (pc_steps config)) in
  if (n <=? 127)%Z then Ok n else Err EFailed.

Definition opt_add (d : Duration) (o : option Duration) : EResult Duration :=
  match o with Some t => duration_add d t | None => Ok d end.

(** The time the motor is on: the warm-up, the steps, and the tuning at an end
    position. *)
Definition travel (warmup : option Duration) (l : list Duration) (tuning : option Duration)
    : EResult Duration :=
  total ← duration_sum l;
  delay ← duration_add (default 0%Z warmup) total;
  opt_add delay tuning.

(** The branch that goes up, without passing the end position
    (svc/controller-lm/src/opener.rs:120-146) *)
Definition plan_up (config : PlanConfig) (steps : list Duration) (end_pos current_pos requested_pos : Z)
    : EResult (list Command) :=
  let start := match pc_logic config with
               | Ac => [DPortOn; PortOn]
               | Rdc => [DPortOff; PortOn]
               end in
  delay ← travel (pc_warmup_open config)
            (take (Z.to_nat (requested_pos - current_pos)) (drop (Z.to_nat current_pos) steps))
            (if (requested_pos =? end_pos)%Z then pc_tuning config else None);
  mret (start ++ [Delay delay; PortOff]).

(** The branch that goes down, without passing the start position
    (svc/controller-lm/src/opener.rs:158-190) *)
Definition plan_down (config : PlanConfig) (steps : list Duration) (end_pos current_pos requested_pos : Z)
    : EResult (list Command) :=
  let start := match pc_logic config with
               | Ac => [DPortOff; PortOn]
               | Rdc => [PortOff; DPortOn]
               end in
  delay ← travel (pc_warmup_close config)
            (take (Z.to_nat (current_pos - requested_pos))
               (drop (Z.to_nat (end_pos - current_pos)) (reverse steps)))
            (if (requested_pos =? 0)%Z then pc_tuning config else None);
  mret (start ++ [Delay delay; match pc_logic config with Ac => PortOff | Rdc => DPortOff end]).

(** svc/controller-lm/src/opener.rs:71-196 [Plan::generate] *)
Fixpoint generate (fuel : nat) (config : PlanConfig) (current_pos requested_pos : Z)
    (break_on_status_error : bool) : Fuelled (list Command) :=
  match fuel with
  | O => None
  | S fuel =>
      let again := generate fuel config in
      fbind (Some (end_position config)) (fun end_pos =>
      if (requested_pos <? 0)%Z || (current_pos <? 0)%Z || (end_pos <? current_pos)%Z
         || (end_pos <? requested_pos)%Z then Some (Err EFailed)
      else if (current_pos <? 0)%Z && break_on_status_error then Some (Err EFailed)
      else
        fbind (Some (mapM duration_from_secs_f64 (pc_steps config))) (fun steps =>
        match (current_pos ?= requested_pos)%Z with
        | Eq => Some (Ok [])
        | Lt =>
            if match pc_te config with
               | Some te => (te <=? requested_pos)%Z && negb (requested_pos =? end_pos)%Z
               | None => false
               end
            then
              fbind (again current_pos end_pos break_on_status_error) (fun plan_te =>
              fbind (again end_pos requested_pos break_on_status_error) (fun plan_tgt =>
              Some (Ok (plan_te ++ plan_tgt))))
            else Some (plan_up config steps end_pos current_pos requested_pos)
        | Gt =>
            if match pc_ts config with
               | Some ts => (requested_pos <=? ts)%Z && negb (requested_pos =? 0)%Z
               | None => false
               end
            then
              fbind (again current_pos 0%Z break_on_status_error) (fun plan_ts =>
              fbind (again 0%Z requested_pos break_on_status_error) (fun plan_tgt =>
              Some (Ok (plan_ts ++ plan_tgt))))
            else Some (plan_down config steps end_pos current_pos requested_pos)
        end))
  end.

(** ** The motor *)

(** A motor that is driven through its two ports: the position is the time it
    takes to get there from the start position. *)
Record Motor := mkMotor { mo_port : bool; mo_dport : bool; mo_pos : Z }.

(** The direction it is driven in: up, down, or not at all. *)
Definition drive (logic : OLogic) (m : Motor) : option bool :=
  match logic, mo_port m, mo_dport m with
  | Ac, true, up => Some up
  | Rdc, true, false => Some true
  | Rdc, false, true => Some false
  | _, _, _ => None
  end.
(** Both ports of an [Rdc] motor on is a short circuit. *)
Definition safe (logic : OLogic) (m : Motor) : Prop :=
  logic = Rdc -> mo_port m && mo_dport m = false.
Definition stopped (logic : OLogic) (m : Motor) : Prop :=
  match logic with
  | Ac => mo_port m = false
  | Rdc => mo_port m = false /\ mo_dport m = false
  end.

(** It starts to move after the warm-up time, and stops at the ends. *)
Definition exec_command (config : PlanConfig) (total : Z) (m : Motor) (c : Command) : Motor :=
  match c with
  | PortOn => mkMotor true (mo_dport m) (mo_pos m)
  | PortOff => mkMotor false (mo_dport m) (mo_pos m)
  | DPortOn => mkMotor (mo_port m) true (mo_pos m)
  | DPortOff => mkMotor (mo_port m) false (mo_pos m)
  | Delay d =>
      mkMotor (mo_port m) (mo_dport m)
        match drive (pc_logic config) m with
        | Some true => Z.min total (mo_pos m + Z.max 0 (d - default 0 (pc_warmup_open config)))
        | Some false => Z.max 0 (mo_pos m - Z.max 0 (d - default 0 (pc_warmup_close config)))
        | None => mo_pos m
        end%Z
  end.
Definition run_plan (config : PlanConfig) (total : Z) (plan : list Command) (m : Motor) : Motor :=
  foldl (exec_command config total) m plan.

(** The position of the motor at a step. *)
Definition position (steps : list Duration) (pos : Z) : Z := zsum (take (Z.to_nat pos) steps).

(** What a plan has to do: from a stopped motor at one step it leads to a
    stopped motor at another, and the motor is never driven both ways. *)
Record moves (config : PlanConfig) (steps : list Duration) (plan : list Command) (from to : Z) : Prop := {
  moves_ends p d : stopped (pc_logic config) (mkMotor p d (position steps from)) ->
    let m := run_plan config (zsum steps) plan (mkMotor p d (position steps from)) in
    stopped (pc_logic config) m /\ mo_pos m = position steps to;
  moves_safe p d k : stopped (pc_logic config) (mkMotor p d (position steps from)) ->
    safe (pc_logic config)
      (run_plan config (zsum steps) (take k plan) (mkMotor p d (position steps from)))
}.

(** ** Properties of plans *)

(** The states a segment of four commands goes through. *)
Ltac segment_safe k := do 5 (destruct k as [|k]; [done|]).

Lemma travel_ok warmup l tuning d :
  (0 <= default 0 warmup)%Z -> (0 <= default 0 tuning)%Z -> Forall (fun d => 0 <= d)%Z l ->
  travel warmup l tuning = Ok d <->
    d = (default 0 warmup + zsum l + default 0 tuning)%Z /\ (d <= duration_max)%Z.
Proof.
  intros Hw Ht Hl. pose proof (zsum_nonneg l Hl) as Hn. unfold travel.
  destruct (duration_sum l) as [total|err] eqn:E1; simpl.
  2: { split; [done|]. intros [-> ?]. assert (duration_sum l = Ok (zsum l)) by
         (apply duration_sum_ok; [done|split; [done|lia]]). congruence. }
  apply duration_sum_ok in E1 as [-> _]; [|done]. unfold duration_add at 1, checked.
  destruct (Z.leb_spec (default 0 warmup + zsum l)%Z duration_max); simpl; [|naive_solver lia].
  destruct tuning as [t|]; simpl in *.
  - rewrite duration_add_ok. naive_solver lia.
  - rewrite Z.add_0_r. naive_solver lia.
Qed.

Lemma travel_fits warmup l l' tuning d :
  travel warmup l tuning = Ok d ->
  (0 <= default 0 warmup)%Z -> (0 <= default 0 tuning)%Z ->
  Forall (fun d => 0 <= d)%Z l -> Forall (fun d => 0 <= d)%Z l' -> (zsum l' <= zsum l)%Z ->
  exists d', travel warmup l' tuning = Ok d'.
Proof.
  intros E Hw Ht Hl Hl' Hle. apply travel_ok in E as [-> Hd]; [|done..].
  eexists. apply travel_ok; [done..|]. split; [reflexivity|lia].
Qed.

Section plans.
Context (config : PlanConfig).

Lemma moves_app steps p1 p2 a b c :
  moves config steps p1 a b -> moves config steps p2 b c -> moves config steps (p1 ++ p2) a c.
Proof.
  intros [He1 Hs1] [He2 Hs2]. split.
  - intros p d Hst. destruct (He1 p d Hst) as [Hm Hp]. unfold run_plan in *. rewrite foldl_app.
    destruct (foldl _ _ p1) as [p' d' pos']. simpl in Hp. subst pos'. by apply He2.
  - intros p d k Hst. destruct (He1 p d Hst) as [Hm Hp]. rewrite take_app. unfold run_plan in *.
    rewrite foldl_app. destruct (decide (k <= length p1)) as [Hk|Hk].
    + replace (k - length p1) with 0 by lia. simpl. by apply Hs1.
    + rewrite (take_ge p1) by lia. destruct (foldl _ _ p1) as [p' d' pos']. simpl in Hp. subst pos'.
      by apply Hs2.
Qed.

Lemma moves_nil steps a : moves config steps [] a a.
Proof.
  split; [done|]. intros p d k Hst. rewrite take_nil. simpl. intros E. rewrite E in Hst.
  by destruct Hst as [-> ->].
Qed.

Lemma steps_ok l steps :
  mapM duration_from_secs_f64 l = Ok steps ->
  length steps = length l /\ Forall (fun d => 0 <= d)%Z steps.
Proof.
  revert steps. induction l as [|x l IH]; intros steps; simpl; [by intros [= <-]|].
  destruct (duration_from_secs_f64 x) as [d|] eqn:Ed; [|done]. simpl.
  destruct (mapM _ l) as [ds|] eqn:Em; [|done]. simpl. intros [= <-].
  destruct (IH ds eq_refl) as [Hl Hf]. split; [simpl; congruence|]. constructor; [|done].
  by apply duration_from_secs_f64_range in Ed as [? _].
Qed.

Section segment.
Context (steps : list Duration) (Hsteps : Forall (fun d => 0 <= d)%Z steps).
Let n := Z.of_nat (length steps).

Lemma position_bounds a : (0 <= position steps a <= zsum steps)%Z.
Proof.
  unfold position. rewrite <-(take_drop (Z.to_nat a) steps) at 3. rewrite zsum_app.
  assert (0 <= zsum (take (Z.to_nat a) steps))%Z by by apply zsum_nonneg, Forall_take.
  assert (0 <= zsum (drop (Z.to_nat a) steps))%Z by by apply zsum_nonneg, Forall_drop.
  lia.
Qed.

Lemma position_end : position steps n = zsum steps.
Proof. unfold position, n. by rewrite Nat2Z.id, firstn_all. Qed.
Lemma position_start : position steps 0 = 0%Z.
Proof. done. Qed.

Lemma zsum_up a b :
  (0 <= a <= b)%Z ->
  zsum (take (Z.to_nat (b - a)) (drop (Z.to_nat a) steps)) = (position steps b - position steps a)%Z.
Proof.
  intros Hab. unfold position. replace (Z.to_nat b) with (Z.to_nat a + Z.to_nat (b - a)) by lia.
  rewrite <-take_take_drop, zsum_app. lia.
Qed.

Lemma position_mono a b : (0 <= a <= b)%Z -> (position steps a <= position steps b)%Z.
Proof.
  intros Hab. enough (0 <= position steps b - position steps a)%Z by lia.
  rewrite <-zsum_up by done. by apply zsum_nonneg, Forall_take, Forall_drop.
Qed.

Lemma zsum_down a b :
  (0 <= b <= a)%Z -> (a <= n)%Z ->
  zsum (take (Z.to_nat (a - b)) (drop (Z.to_nat (n - a)) (reverse steps))) =
    (position steps a - position steps b)%Z.
Proof.
  intros Hab Hn. rewrite <-zsum_up by lia. rewrite <-(take_drop (Z.to_nat a) steps) at 1.
  rewrite reverse_app, drop_app_length' by (rewrite length_reverse, length_drop; unfold n in *; lia).
  rewrite <-(zsum_reverse (take _ (drop _ steps))). f_equal.
  rewrite <-(take_drop (Z.to_nat b) (take (Z.to_nat a) steps)), reverse_app.
  rewrite take_app_length' by (rewrite length_reverse, length_drop, length_take; unfold n in *; lia).
  f_equal. rewrite skipn_firstn_comm. f_equal. lia.
Qed.

Context (w_open : (0 <= default 0 (pc_warmup_open config))%Z)
  (w_close : (0 <= default 0 (pc_warmup_close config))%Z)
  (tuned : (0 <= default 0 (pc_tuning config))%Z).

Lemma plan_up_moves a b plan :
  (0 <= a <= b)%Z -> plan_up config steps n a b = Ok plan -> moves config steps plan a b.
Proof.
  intros Hab. unfold plan_up. destruct (travel _ _ _) as [d|] eqn:E; [|done]. simpl.
  intros [= <-]. apply travel_ok in E as [E _];
    [|done|by case_match|by apply Forall_take, Forall_drop]. rewrite zsum_up in E by done.
  assert (Z.min (zsum steps) (position steps a + Z.max 0 (d - default 0 (pc_warmup_open config)))
    = position steps b)%Z as Hd.
  { pose proof (position_bounds b). pose proof (position_bounds a).
    pose proof (position_mono a b ltac:(lia)).
    destruct (Z.eqb_spec b n) as [->|]; [rewrite position_end in *; lia|simpl in E; lia]. }
  split; intros p dp; simpl; [intros _|intros k]; destruct (pc_logic config) eqn:El.
  - unfold run_plan, drive. simpl. unfold drive. rewrite El. simpl. by rewrite Hd.
  - unfold run_plan, drive. simpl. unfold drive. rewrite El. simpl. by rewrite Hd.
  - by intros _ ?.
  - intros [Hp Hdp] _. simpl in Hp, Hdp. subst p dp. by segment_safe k.
Qed.

Lemma plan_down_moves a b plan :
  (0 <= b <= a)%Z -> (a <= n)%Z -> plan_down config steps n a b = Ok plan ->
  moves config steps plan a b.
Proof.
  intros Hab Hn. unfold plan_down. destruct (travel _ _ _) as [d|] eqn:E; [|done]. simpl.
  intros [= <-]. apply travel_ok in E as [E _];
    [|done|by case_match|by apply Forall_take, Forall_drop, Forall_reverse].
  rewrite zsum_down in E by done.
  assert (Z.max 0 (position steps a - Z.max 0 (d - default 0 (pc_warmup_close config)))
    = position steps b)%Z as Hd.
  { pose proof (position_bounds b). pose proof (position_bounds a).
    pose proof (position_mono b a ltac:(lia)).
    destruct (Z.eqb_spec b 0) as [->|]; [rewrite position_start in *; lia|simpl in E; lia]. }
  split; intros p dp; simpl; [intros _|intros k]; destruct (pc_logic config) eqn:El.
  - unfold run_plan, drive. simpl. unfold drive. rewrite El. simpl. by rewrite Hd.
  - unfold run_plan, drive. simpl. unfold drive. rewrite El. simpl. by rewrite Hd.
  - by intros _ ?.
  - intros [Hp Hdp] _. simpl in Hp, Hdp. subst p dp. by segment_safe k.
Qed.
End segment.

(** Warm-up and tuning times are unsigned. *)
Definition config_wf : Prop :=
  (0 <= default 0 (pc_warmup_open config))%Z /\ (0 <= default 0 (pc_warmup_close config))%Z /\
  (0 <= default 0 (pc_tuning config))%Z.

Lemma end_position_ok n : end_position config = Ok n -> n = Z.of_nat (length (pc_steps config)).
Proof. unfold end_position. case_match; by intros [= <-]. Qed.

Lemma fbind_ok {A B} (m : Fuelled A) (f : A -> Fuelled B) b :
  fbind m f = Some (Ok b) -> exists a, m = Some (Ok a) /\ f a = Some (Ok b).
Proof. destruct m as [[a|]|]; [by exists a|done..]. Qed.

Lemma generate_moves fuel cur req brk plan :
  config_wf -> generate fuel config cur req brk = Some (Ok plan) ->
  exists steps, mapM duration_from_secs_f64 (pc_steps config) = Ok steps /\
    (0 <= cur <= Z.of_nat (length steps))%Z /\ (0 <= req <= Z.of_nat (length steps))%Z /\
    moves config steps plan cur req.
Proof.
  intros (Hwo & Hwc & Htu). revert cur req plan. induction fuel as [|fuel IH]; [done|].
  intros cur req plan. cbn [generate].
  intros (n & [= Hn] & Hg)%fbind_ok. pose proof (end_position_ok n Hn) as Hlen.
  destruct (_ || _ || _ || _) eqn:Hb; [done|]. destruct (_ && brk); [done|].
  apply fbind_ok in Hg as (steps & [= Hs] & Hg). pose proof (steps_ok _ _ Hs) as [Hl Hf].
  rewrite <-Hl in Hlen. exists steps. split; [done|].  split; [lia|]. split; [lia|].
  destruct (Z.compare_spec cur req) as [->|Hc|Hc].
  - injection Hg as <-. apply moves_nil.
  - destruct (match pc_te config with Some _ => _ | None => _ end).
    + apply fbind_ok in Hg as (p1 & H1%IH & Hg). apply fbind_ok in Hg as (p2 & H2%IH & [= <-]).
      destruct H1 as (s1 & E1 & _ & _ & ?), H2 as (s2 & E2 & _ & _ & ?).
      rewrite Hs in E1, E2. injection E1 as <-. injection E2 as <-. by eapply moves_app.
    + injection Hg as Hg. subst n. by apply plan_up_moves in Hg; [|done|lia..].
  - destruct (match pc_ts config with Some _ => _ | None => _ end).
    + apply fbind_ok in Hg as (p1 & H1%IH & Hg). apply fbind_ok in Hg as (p2 & H2%IH & [= <-]).
      destruct H1 as (s1 & E1 & _ & _ & ?), H2 as (s2 & E2 & _ & _ & ?).
      rewrite Hs in E1, E2. injection E1 as <-. injection E2 as <-. by eapply moves_app.
    + injection Hg as Hg. subst n. by apply plan_down_moves in Hg; [|done|lia..].
Qed.


(** A request above [te] and below [ts], when the durations of whole runs do
    not overflow: the end position has to be passed before going up to it, the
    start position before going down to it. *)
Definition loops (cur req : Z) : bool :=
  match end_position config, mapM duration_from_secs_f64 (pc_steps config),
    pc_te config, pc_ts config with
  | Ok n, Ok steps, Some te, Some ts =>
      is_ok (plan_up config steps n 0 n) && is_ok (plan_down config steps n n 0)
      && (0 <=? cur)%Z && (cur <=? n)%Z && negb (cur =? req)%Z && (0 <? req)%Z && (req <? n)%Z
      && (te <=? req)%Z && (req <=? ts)%Z
  | _, _, _, _ => false
  end.

Lemma loops_cur cur cur' req n :
  end_position config = Ok n -> loops cur req = true ->
  (0 <= cur' <= n)%Z -> cur' ≠ req -> loops cur' req = true.
Proof.
  intros Hn. unfold loops. rewrite Hn. destruct (mapM _ _); [|done].
  destruct (pc_te config), (pc_ts config); try done.
  destruct (is_ok _); [|done]. destruct (is_ok _); [|done]. simpl. lia.
Qed.

Context (n : Z) (steps : list Duration).
Context (Hn : end_position config = Ok n)
  (Hm : mapM duration_from_secs_f64 (pc_steps config) = Ok steps).

Lemma steps_length : n = Z.of_nat (length steps).
Proof. apply end_position_ok in Hn. apply steps_ok in Hm as [-> _]. done. Qed.

(** The shape of [generate] for positions in range. *)
Lemma generate_unfold fuel cur req brk :
  (0 <= cur <= n)%Z -> (0 <= req <= n)%Z ->
  generate (S fuel) config cur req brk =
    if (cur =? req)%Z then Some (Ok [])
    else if (cur <? req)%Z then
      if match pc_te config with Some te => (te <=? req)%Z && negb (req =? n)%Z | None => false end
      then fbind (generate fuel config cur n brk) (fun p1 =>
           fbind (generate fuel config n req brk) (fun p2 => Some (Ok (p1 ++ p2))))
      else Some (plan_up config steps n cur req)
    else
      if match pc_ts config with Some ts => (req <=? ts)%Z && negb (req =? 0)%Z | None => false end
      then fbind (generate fuel config cur 0%Z brk) (fun p1 =>
           fbind (generate fuel config 0%Z req brk) (fun p2 => Some (Ok (p1 ++ p2))))
      else Some (plan_down config steps n cur req).
Proof.
  intros Hc Hr. cbn [generate]. rewrite Hn, Hm. cbn [fbind].
  destruct (_ || _ || _ || _) eqn:Hb; [lia|]. assert ((cur <? 0)%Z = false) as -> by lia.
  cbn [andb]. destruct (Z.compare_spec cur req) as [->|Hlt|Hlt].
  - by rewrite Z.eqb_refl.
  - assert ((cur =? req)%Z = false) as -> by lia. by assert ((cur <? req)%Z = true) as -> by lia.
  - assert ((cur =? req)%Z = false) as -> by lia. by assert ((cur <? req)%Z = false) as -> by lia.
Qed.

Lemma generate_end fuel cur brk :
  (0 <= cur < n)%Z -> generate (S fuel) config cur n brk = Some (plan_up config steps n cur n).
Proof.
  intros Hc. rewrite generate_unfold by lia. assert ((cur =? n)%Z = false) as -> by lia.
  assert ((cur <? n)%Z = true) as -> by lia.
  destruct (pc_te config) as [te|]; [|done]. rewrite Z.eqb_refl. by destruct (te <=? n)%Z.
Qed.
Lemma generate_start fuel cur brk :
  (0 < cur <= n)%Z -> generate (S fuel) config cur 0 brk = Some (plan_down config steps n cur 0).
Proof.
  intros Hc. rewrite generate_unfold by lia. assert ((cur =? 0)%Z = false) as -> by lia.
  assert ((cur <? 0)%Z = false) as -> by lia.
  destruct (pc_ts config) as [ts|]; [|done]. by destruct (0 <=? ts)%Z.
Qed.

(** A run over a part of the way takes no longer than one over all of it. *)
Lemma plan_up_fits cur :
  config_wf -> (0 <= cur <= n)%Z -> is_ok (plan_up config steps n 0 n) = true ->
  is_ok (plan_up config steps n cur n) = true.
Proof.
  intros (Hwo & Hwc & Htu) Hc. pose proof (steps_ok _ _ Hm) as [_ Hf]. unfold plan_up.
  rewrite Z.eqb_refl. destruct (travel _ _ _) as [d|] eqn:E; [|done]. intros _.
  apply (travel_fits _ _ (take (Z.to_nat (n - cur)) (drop (Z.to_nat cur) steps))) in E as [d' ->];
    [done|done|done|by apply Forall_take, Forall_drop..|].
  rewrite !zsum_up by lia. pose proof (position_bounds steps Hf cur). rewrite position_start. lia.
Qed.
Lemma plan_down_fits cur :
  config_wf -> (0 <= cur <= n)%Z -> is_ok (plan_down config steps n n 0) = true ->
  is_ok (plan_down config steps n cur 0) = true.
Proof.
  intros (Hwo & Hwc & Htu) Hc. pose proof (steps_ok _ _ Hm) as [_ Hf]. unfold plan_down.
  rewrite Z.eqb_refl. destruct (travel _ _ _) as [d|] eqn:E; [|done]. intros _.
  apply (travel_fits _ _ (take (Z.to_nat (cur - 0)) (drop (Z.to_nat (n - cur)) (reverse steps))))
    in E as [d' ->]; [done|done|done|by apply Forall_take, Forall_drop, Forall_reverse..|].
  pose proof (position_bounds steps Hf cur). rewrite steps_length in *.
  rewrite !zsum_down by lia. rewrite position_end. lia.
Qed.

Lemma loops_true cur req :
  loops cur req = true <->
    exists te ts, pc_te config = Some te /\ pc_ts config = Some ts /\
      is_ok (plan_up config steps n 0 n) = true /\ is_ok (plan_down config steps n n 0) = true /\
      (0 <= cur <= n)%Z /\ cur ≠ req /\ (0 < req < n)%Z /\ (te <= req <= ts)%Z.
Proof.
  unfold loops. rewrite Hn, Hm. destruct (pc_te config) as [te|], (pc_ts config) as [ts|];
    [|naive_solver..]. destruct (is_ok _), (is_ok _); simpl; [|naive_solver..].
  split; [intros; exists te, ts; split_and!; try done; lia|].
  intros (te' & ts' & [= <-] & [= <-] & ?). lia.
Qed.

Lemma generate_loops fuel cur req brk :
  config_wf -> loops cur req = true -> generate fuel config cur req brk = None.
Proof.
  intros Hwf. revert cur. induction fuel as [|fuel IH]; [done|]. intros cur Hl.
  pose proof Hl as (te & ts & Hte & Hts & Hu & Hd & Hc & Hne & Hr & Ht)%loops_true.
  rewrite generate_unfold, Hte, Hts by lia. assert ((cur =? req)%Z = false) as -> by lia.
  destruct (Z.ltb_spec cur req).
  - assert ((te <=? req)%Z && negb (req =? n)%Z = true) as -> by lia.
    destruct fuel as [|fuel]; [done|].
    rewrite generate_end by lia. pose proof (plan_up_fits cur Hwf ltac:(lia) Hu) as Hok.
    destruct (plan_up config steps n cur n); [|done]. cbn [fbind].
    rewrite (IH n); [done|]. apply (loops_cur cur n req n); [done|done|lia|lia].
  - assert ((req <=? ts)%Z && negb (req =? 0)%Z = true) as -> by lia.
    destruct fuel as [|fuel]; [done|].
    rewrite generate_start by lia. pose proof (plan_down_fits cur Hwf ltac:(lia) Hd) as Hok.
    destruct (plan_down config steps n cur 0); [|done]. cbn [fbind].
    rewrite (IH 0%Z); [done|]. apply (loops_cur cur 0 req n); [done|done|lia|lia].
Qed.

(** A request that is reached over the end position. *)
Lemma generate_over_end fuel req brk :
  (0 < req < n)%Z -> loops n req = false ->
  exists r, generate (S (S (S fuel))) config n req brk = Some r.
Proof.
  intros Hr Hl. rewrite generate_unfold by lia. assert ((n =? req)%Z = false) as -> by lia.
  assert ((n <? req)%Z = false) as -> by lia.
  destruct (pc_ts config) as [ts|] eqn:Hts; [|by eexists]. destruct (_ && _) eqn:Hc; [|by eexists].
  rewrite generate_start by lia. destruct (plan_down config steps n n 0) as [p1|] eqn:Hd; [|by eexists].
  cbn [fbind]. rewrite generate_unfold by lia. assert ((0 =? req)%Z = false) as -> by lia.
  assert ((0 <? req)%Z = true) as -> by lia.
  destruct (pc_te config) as [te|] eqn:Hte; [|by destruct (plan_up _ _ _ _ _); eexists].
  destruct ((te <=? req)%Z && _) eqn:Hc'; [|by destruct (plan_up _ _ _ _ _); eexists].
  rewrite generate_end by lia. destruct (plan_up config steps n 0 n) as [p2|] eqn:Hu; [|by eexists].
  exfalso. assert (loops n req = true) as E; [|by rewrite E in Hl].
  apply loops_true. exists te, ts. rewrite Hu, Hd. split_and!; try done; lia.
Qed.

(** A request that is reached over the start position. *)
Lemma generate_over_start fuel req brk :
  (0 < req < n)%Z -> loops 0 req = false ->
  exists r, generate (S (S (S fuel))) config 0 req brk = Some r.
Proof.
  intros Hr Hl. rewrite generate_unfold by lia. assert ((0 =? req)%Z = false) as -> by lia.
  assert ((0 <? req)%Z = true) as -> by lia.
  destruct (pc_te config) as [te|] eqn:Hte; [|by eexists]. destruct (_ && _) eqn:Hc; [|by eexists].
  rewrite generate_end by lia. destruct (plan_up config steps n 0 n) as [p1|] eqn:Hu; [|by eexists].
  cbn [fbind]. rewrite generate_unfold by lia. assert ((n =? req)%Z = false) as -> by lia.
  assert ((n <? req)%Z = false) as -> by lia.
  destruct (pc_ts config) as [ts|] eqn:Hts; [|by destruct (plan_down _ _ _ _ _); eexists].
  destruct ((req <=? ts)%Z && _) eqn:Hc'; [|by destruct (plan_down _ _ _ _ _); eexists].
  rewrite generate_start by lia. destruct (plan_down config steps n n 0) as [p2|] eqn:Hd; [|by eexists].
  exfalso. assert (loops 0 req = true) as E; [|by rewrite E in Hl].
  apply loops_true. exists te, ts. rewrite Hu, Hd. split_and!; try done; lia.
Qed.

Lemma generate_ends fuel cur req brk :
  (0 <= cur <= n)%Z -> (0 <= req <= n)%Z -> loops cur req = false ->
  exists r, generate (S (S (S (S fuel)))) config cur req brk = Some r.
Proof.
  intros Hc Hr Hl. rewrite generate_unfold by lia. destruct (Z.eqb_spec cur req); [by eexists|].
  assert (forall c, (0 <= c <= n)%Z -> c ≠ req -> loops c req = false) as Hl'.
  { intros c Hc' Hne. destruct (loops c req) eqn:E; [|done].
    by rewrite (loops_cur c cur req n) in Hl by (done || lia). }
  destruct (Z.ltb_spec cur req).
  - destruct (pc_te config) as [te|]; [|by eexists]. destruct (_ && _) eqn:Hb; [|by eexists].
    rewrite generate_end by lia. destruct (plan_up _ _ _ _ _) as [p1|]; [|by eexists]. cbn [fbind].
    destruct (generate_over_end fuel req brk) as [[p2|] ->]; [lia|apply Hl'; lia|..]; by eexists.
  - destruct (pc_ts config) as [ts|]; [|by eexists]. destruct (_ && _) eqn:Hb; [|by eexists].
    rewrite generate_start by lia. destruct (plan_down _ _ _ _ _) as [p1|]; [|by eexists]. cbn [fbind].
    destruct (generate_over_start fuel req brk) as [[p2|] ->]; [lia|apply Hl'; lia|..]; by eexists.
Qed.

End plans.

Lemma generate_more config fuel cur req brk r :
  generate fuel config cur req brk = Some r -> generate (S fuel) config cur req brk = Some r.
Proof.
  revert cur req r. induction fuel as [|fuel IH]; [done|]. intros cur req r.
  assert (forall a b c d (k : list Command -> list Command -> Fuelled (list Command)),
    fbind (generate fuel config a b brk) (fun p1 => fbind (generate fuel config c d brk) (k p1)) = Some r ->
    fbind (generate (S fuel) config a b brk) (fun p1 =>
      fbind (generate (S fuel) config c d brk) (k p1)) = Some r) as Hx.
  { intros a b c d k. destruct (generate fuel config a b brk) as [ra|] eqn:Ea; [|done].
    rewrite (IH _ _ _ Ea). destruct ra; [|done]. cbn [fbind].
    destruct (generate fuel config c d brk) as [rc|] eqn:Ec; [|done]. by rewrite (IH _ _ _ Ec). }
  remember (S fuel) as f' eqn:Ef. rewrite Ef at 1. cbn [generate]. subst f'.
  destruct (end_position config) as [n|]; [|done]. cbn [fbind].
  destruct (_ || _ || _ || _); [done|]. destruct (_ && brk); [done|].
  destruct (mapM _ _) as [steps|]; [|done]. cbn [fbind]. destruct (cur ?= req)%Z; [done|..].
  - destruct (match pc_te config with Some _ => _ | None => _ end); [apply Hx|done].
  - destruct (match pc_ts config with Some _ => _ | None => _ end); [apply Hx|done].
Qed.

Lemma generate_enough config fuel fuel' cur req brk r :
  generate fuel config cur req brk = Some r -> fuel <= fuel' ->
  generate fuel' config cur req brk = Some r.
Proof. intros Hr. induction 1 as [|f _ IH]; [done|]. by apply generate_more. Qed.

(** C38: Termination of [Plan::generate].  It ends, with a plan or an error,
    after at most three nested calls of itself, unless the requested position
    is neither end position and lies at or above [te] and at or below [ts];
    then it calls itself for ever. *)
Theorem plan_terminates config cur req brk :
  config_wf config ->
  if loops config cur req then forall fuel, generate fuel config cur req brk = None
  else exists r, forall fuel, 4 <= fuel -> generate fuel config cur req brk = Some r.
Proof.
  intros Hwf. destruct (loops config cur req) eqn:Hl.
  - intros fuel. pose proof Hl as Hl'. unfold loops in Hl'.
    destruct (end_position config) as [n|] eqn:Hn; [|done].
    destruct (mapM duration_from_secs_f64 (pc_steps config)) as [steps|] eqn:Hm; [|done].
    by apply (generate_loops config n steps).
  - enough (exists r, generate 4 config cur req brk = Some r) as [r Hr]
      by (exists r; intros fuel; by apply generate_enough).
    destruct (end_position config) as [n|] eqn:Hn; [|by cbn [generate]; rewrite Hn; eexists].
    destruct (mapM duration_from_secs_f64 (pc_steps config)) as [steps|] eqn:Hm.
    2: { cbn [generate]. rewrite Hn, Hm. cbn [fbind]. by repeat case_match; eexists. }
    destruct (decide (0 <= cur <= n /\ 0 <= req <= n)%Z) as [[Hc Hr]|Hb].
    + by apply (generate_ends config n steps Hn Hm).
    + exists (Err EFailed). cbn [generate]. rewrite Hn. cbn [fbind].
      destruct (_ || _ || _ || _) eqn:E; [done|lia].
Qed.

(** The flag [break_on_status_error] changes nothing: the check it guards
    comes after one that refuses every negative position. *)
Lemma break_on_status_error_unused config fuel cur req :
  generate fuel config cur req true = generate fuel config cur req false.
Proof.
  revert cur req. induction fuel as [|fuel IH]; [done|]. intros cur req. cbn [generate].
  destruct (end_position config) as [n|]; [|done]. cbn [fbind].
  destruct (_ || _ || _ || _) eqn:Hb; [done|]. assert ((cur <? 0)%Z = false) as -> by lia.
  by rewrite !IH.
Qed.

Module OpenerExamples.

(** Three steps of one, two and three seconds. *)
Definition config (logic : OLogic) (ts te : option Z) : PlanConfig :=
  mkPlanConfig logic [f64_of_Z 1; f64_of_Z 2; f64_of_Z 3] (Some 300000000%Z) None (Some 100000000%Z)
    ts te.
Definition s (n : Z) : Duration := (n * 1000000000)%Z.

(** Some of the cases the test module of the source has. *)
Example plans :
  generate 4 (config Ac None None) 0 1 true =
    Some (Ok [DPortOn; PortOn; Delay (s 1 + 300000000); PortOff])%Z /\
  generate 4 (config Ac None (Some 1%Z)) 0 1 true =
    Some (Ok [DPortOn; PortOn; Delay (s 6 + 400000000); PortOff;
              DPortOff; PortOn; Delay (s 5); PortOff])%Z /\
  generate 4 (config Rdc (Some 2%Z) None) 3 2 true =
    Some (Ok [PortOff; DPortOn; Delay (s 6 + 100000000); DPortOff;
              DPortOff; PortOn; Delay (s 3 + 300000000); PortOff])%Z /\
  generate 4 (config Ac None None) 0 4 true = Some (Err EFailed).
Proof. split_and!; vm_refl. Qed.

Lemma config_ok logic ts te : config_wf (config logic ts te).
Proof. unfold config_wf. simpl. lia. Qed.


Lemma plan_terminates_witness :
  (exists r, generate 4 (config Ac (Some 1%Z) (Some 2%Z)) 0 1 true = Some r) /\
  (forall fuel, generate fuel (config Ac (Some 1%Z) (Some 1%Z)) 0 1 true = None).
Proof.
  split.
  - pose proof (plan_terminates (config Ac (Some 1%Z) (Some 2%Z)) 0 1 true (config_ok _ _ _)) as H.
    assert (loops (config Ac (Some 1%Z) (Some 2%Z)) 0 1 = false) as El by vm_refl.
    rewrite El in H. destruct H as [r Hr]. exists r. apply Hr. lia.
  - pose proof (plan_terminates (config Ac (Some 1%Z) (Some 1%Z)) 0 1 true (config_ok _ _ _)) as H.
    assert (loops (config Ac (Some 1%Z) (Some 1%Z)) 0 1 = true) as El by vm_refl.
    rewrite El in H. exact H.
Defined.
End OpenerExamples.
