(* ===== verification/OpenerRun.v ===== *)
(** * The logic manager: running openers (svc/controller-lm/src/opener.rs)

    The plan of an opener becomes a sequence of actions on the units of its
    ports, which the core runs ([Seq]).  [Robots] is what is used of the crate
    [eva_robots] to build the sequence, [RobotsLaws] what the receiver finds in
    it.  The registry of running openers is used to terminate and kill them. *)
From S2P Require Import Prelude Duration EvaCommon ActMgr CoreLaunch Seq Opener.

Class Robots `{Ext : Externals} (Uuid : Type) := {
  RSequence : Type;
  rs_new : Uuid -> Duration -> RSequence;
  rs_push_actions_multi : list SequenceAction -> RSequence -> RSequence;
  rs_push_delay : Duration -> RSequence -> RSequence;
  rs_set_on_abort_multi : list SequenceAction -> RSequence -> RSequence;
  (* SequenceAction::new_unit *)
  rs_new_unit : OID -> Value -> Duration -> SequenceAction;
  (* what the core unpacks from the packed sequence *)
  rs_unpack : RSequence -> Sequence (Uuid := Uuid);
  VI8 : Z -> Value
}.

Section open.
Context `{Ext : Externals} {Uuid : Type} `{Countable Uuid} `{!Robots Uuid}.

(** Building appends entries; a delay is sent in microseconds. *)
Class RobotsLaws : Prop := {
  rs_unpack_new u t : rs_unpack (rs_new u t) = mkSequence u [] t None;
  rs_unpack_actions l s : rs_unpack (rs_push_actions_multi l s) =
    mkSequence (sq_u (rs_unpack s)) (sq_seq (rs_unpack s) ++ [SeActions (SaMulti l)])
      (sq_timeout (rs_unpack s)) (sq_on_abort (rs_unpack s));
  rs_unpack_delay d s : rs_unpack (rs_push_delay d s) =
    mkSequence (sq_u (rs_unpack s)) (sq_seq (rs_unpack s) ++ [SeDelay (d / 1000)%Z])
      (sq_timeout (rs_unpack s)) (sq_on_abort (rs_unpack s));
  rs_unpack_abort l s : rs_unpack (rs_set_on_abort_multi l s) =
    mkSequence (sq_u (rs_unpack s)) (sq_seq (rs_unpack s)) (sq_timeout (rs_unpack s)) (Some (SaMulti l));
  rs_new_unit_eq oid v w : rs_new_unit oid v w = mkSeqAction oid (Some (ParamsUnit v)) w
}.

(** ** The openers that are running *)

(** svc/controller-lm/src/opener.rs:16-20 [ActiveOpeners] *)
Record ActiveOpeners := mkActive {
  by_oid : gmap OID Uuid;
  by_action_uuid : gmap Uuid Uuid
}.
(** svc/controller-lm/src/opener.rs:23-26 [ActiveOpeners::register] *)
Definition register (oid : OID) (action_uuid seq_uuid : Uuid) (a : ActiveOpeners) : ActiveOpeners :=
  mkActive (<[oid := seq_uuid]> (by_oid a)) (<[action_uuid := seq_uuid]> (by_action_uuid a)).
(** svc/controller-lm/src/opener.rs:27-30 [ActiveOpeners::unregister] *)
Definition unregister (oid : OID) (action_uuid : Uuid) (a : ActiveOpeners) : ActiveOpeners :=
  mkActive (delete oid (by_oid a)) (delete action_uuid (by_action_uuid a)).

(** ** Configuration and messages *)

(** svc/controller-lm/src/opener.rs:199-214 [Opener] *)
Record Opener := mkOpener {
  op_oid : OID;
  op_break_on_status_error : bool;
  op_port : list OID;
  op_dport : list OID;
  op_plan_config : PlanConfig;
  op_set_state : bool;
  op_port_timeout : option Duration
}.

Inductive ActionReport := RCanceled | RRunning | RCompleted | RTerminated | RFailed (exitcode : Z).
Inductive OMsg :=
  | OmAction (action : Uuid) (report : ActionReport)
  | OmState (oid : OID) (status : Z) (value : Value).

Record OSt := mkOSt { os_active : ActiveOpeners; os_sent : list OMsg (* the latest first *) }.
Definition set_active (a : ActiveOpeners) (s : OSt) : OSt := mkOSt a (os_sent s).

Abbreviation OM := (M OSt).

(** What comes from outside: the replies of the core to [item.state] (the
    position, as [i8]) and to [seq], the id of a new sequence, the queue of
    messages, the table of pending actions, and the conversion of values. *)
Record OEnv := mkOEnv {
  oe_position : EResult Z;
  oe_seq : RSequence -> EResult unit;
  oe_new_uuid : Uuid;
  oe_send : OMsg -> EResult unit;
  oe_actt_remove : EResult bool;
  oe_timeout : Duration;
  oe_to_i8 : Value -> EResult Z
}.
Variable (e : OEnv).

Definition send (m : OMsg) : OM unit :=
  _ ← lift (oe_send e m);
  modify (fun s => mkOSt (os_active s) (m :: os_sent s)).

(** ** Running a plan *)

Definition actions_on (l : list OID) (v : Value) (port_timeout : Duration) : list SequenceAction :=
  (fun oid => rs_new_unit oid v port_timeout) <$> l.

(** One command, appended to the sequence
    (svc/controller-lm/src/opener.rs:266-283) *)
Definition push_command (config : Opener) (port_timeout : Duration) (seq : RSequence) (c : Command)
    : RSequence :=
  match c with
  | PortOn => rs_push_actions_multi (actions_on (op_port config) (VI8 1) port_timeout) seq
  | PortOff => rs_push_actions_multi (actions_on (op_port config) (VI8 0) port_timeout) seq
  | DPortOn => rs_push_actions_multi (actions_on (op_dport config) (VI8 1) port_timeout) seq
  | DPortOff => rs_push_actions_multi (actions_on (op_dport config) (VI8 0) port_timeout) seq
  | Delay d => rs_push_delay d seq
  end.

(** The sequence of a plan, with its abort actions
    (svc/controller-lm/src/opener.rs:257-288) *)
Definition plan_sequence (config : Opener) (plan : list Command) (timeout : Duration) : RSequence :=
  let port_timeout := default (oe_timeout e) (op_port_timeout config) in
  let seq := foldl (push_command config port_timeout) (rs_new (oe_new_uuid e) timeout) plan in
  let abort_actions :=
    actions_on (op_port config) (VU8 0) port_timeout ++
    (if decide (pc_logic (op_plan_config config) = Rdc)
     then actions_on (op_dport config) (VU8 0) port_timeout else []) in
  rs_set_on_abort_multi abort_actions seq.

(** The depth of [Plan::generate]: [plan_terminates] shows that it is enough;
    a call that never ends overflows the stack. *)
Definition generate_run (config : PlanConfig) (current_pos requested_pos : Z) (brk : bool)
    : EResult (list Command) :=
  match generate 4 config current_pos requested_pos brk with
  | Some r => r
  | None => Err EPanic
  end.

(** svc/controller-lm/src/opener.rs:240-304 [execute] *)
Definition opener_execute (action_uuid : Uuid) (config : Opener) (pos : Value) (current_pos : Z)
    (timeout : Duration) : OM unit :=
  requested ← lift (oe_to_i8 e pos);
  plan ← lift (generate_run (op_plan_config config) current_pos requested
                 (op_break_on_status_error config));
  let seq := plan_sequence config plan timeout in
  _ ← modify (fun s => set_active
        (register (op_oid config) action_uuid (oe_new_uuid e) (os_active s)) s);
  let res := oe_seq e seq in
  _ ← modify (fun s => set_active (unregister (op_oid config) action_uuid (os_active s)) s);
  lift res.

(** svc/controller-lm/src/opener.rs:330-333 [run_action] *)
Definition run_action (u : Uuid) (cfg : Opener) (pos : Value) (timeout : Duration) : OM unit :=
  let current_pos := match oe_position e with Ok p => p | Err _ => (-1)%Z end in
  opener_execute u cfg pos current_pos timeout.

(** svc/controller-lm/src/opener.rs:335-396 [handle_action]; the parameters of
    the action, if they are those of a unit *)
Definition handle_action (u : Uuid) (unit_params : option Value) (timeout : Duration) (cfg : Opener)
    : OM unit :=
  known ← lift (oe_actt_remove e);
  if negb known then send (OmAction u RCanceled)
  else
    _ ← send (OmAction u RRunning);
    '(report, state) ← match unit_params with
      | Some value =>
          r ← attempt (run_action u cfg value timeout);
          match r with
          | Ok _ => mret (RCompleted,
                      if op_set_state cfg then Some (OmState (op_oid cfg) 1 value) else None)
          | Err EPanic => raise EPanic
          | Err EAborted => mret (RTerminated, None)
          | Err _ => mret (RFailed 1, None)
          end
      | None => mret (RFailed (-1), None)
      end;
    _ ← match state with Some m => send m | None => mret tt end;
    send (OmAction u report).

(** svc/controller-lm/src/opener.rs:431-438 [terminate]: the sequence that is
    terminated *)
Definition opener_terminate (u : Uuid) (a : ActiveOpeners) : EResult Uuid :=
  ok_or (by_action_uuid a !! u) ENotFound.
(** svc/controller-lm/src/opener.rs:440-447 [kill]: the sequence that is
    terminated *)
Definition opener_kill (oid : OID) (a : ActiveOpeners) : EResult Uuid :=
  ok_or (by_oid a !! oid) ENotFound.

(** ** The sequence of a plan *)

Section laws.
Context `{!RobotsLaws}.

Definition port_wait (config : Opener) : Duration := default (oe_timeout e) (op_port_timeout config).

Definition entry_of (config : Opener) (c : Command) : SequenceEntry :=
  let batch l v := SeActions (SaMulti (actions_on l (VI8 v) (port_wait config))) in
  match c with
  | PortOn => batch (op_port config) 1%Z
  | PortOff => batch (op_port config) 0%Z
  | DPortOn => batch (op_dport config) 1%Z
  | DPortOff => batch (op_dport config) 0%Z
  | Delay d => SeDelay (d / 1000)%Z
  end.

(** The units that drive the motor. *)
Definition powered (config : Opener) : list OID :=
  op_port config ++ (if decide (pc_logic (op_plan_config config) = Rdc) then op_dport config else []).

Lemma plan_sequence_unpack config plan timeout :
  rs_unpack (plan_sequence config plan timeout) =
    mkSequence (oe_new_uuid e) (entry_of config <$> plan) timeout
      (Some (SaMulti (actions_on (powered config) (VU8 0) (port_wait config)))).
Proof.
  unfold plan_sequence. fold (port_wait config). rewrite rs_unpack_abort.
  assert (rs_unpack (foldl (push_command config (port_wait config)) (rs_new (oe_new_uuid e) timeout) plan)
    = mkSequence (oe_new_uuid e) (entry_of config <$> plan) timeout None) as ->.
  { induction plan as [|c plan IH] using rev_ind; [apply rs_unpack_new|].
    rewrite foldl_app, fmap_app. simpl. set (q := foldl _ _ _) in *.
    destruct c; simpl; rewrite ?rs_unpack_actions, ?rs_unpack_delay, IH; done. }
  simpl. do 3 f_equal. unfold powered, actions_on. rewrite fmap_app. by case_decide.
Qed.
(** ** What the ports are told *)

Abbreviation Call := (SequenceAction * EResult (ActionLaunchResult (Uuid := Uuid)))%type.

(** The last action launched on a unit. *)
Definition told (oid : OID) (cs : list Call) : option SequenceAction :=
  last (filter (fun a => sa_oid a = oid) cs.*1).
Definition off (a : SequenceAction) : Prop :=
  sa_params a = Some (ParamsUnit (VI8 0)) \/ sa_params a = Some (ParamsUnit (VU8 0)).

Lemma told_app oid cs cs' :
  told oid (cs ++ cs') = match told oid cs' with Some a => Some a | None => told oid cs end.
Proof. unfold told. rewrite fmap_app, filter_app, last_app. done. Qed.

Lemma told_none oid cs : (forall a, a ∈ cs.*1 -> sa_oid a ≠ oid) -> told oid cs = None.
Proof.
  intros Hn. unfold told. destruct (last _) as [a|] eqn:E; [|done].
  apply last_Some_elem_of, list_elem_of_filter in E as [Ho Ha]. by apply Hn in Ha.
Qed.

(** A batch of actions with the same parameters. *)
Lemma told_batch oid l v w cs :
  oid ∈ l -> cs.*1 ≡ₚ actions_on l v w ->
  told oid cs = Some (mkSeqAction oid (Some (ParamsUnit v)) w).
Proof.
  intros Hl Hp. unfold told. set (k := filter _ _).
  assert (Forall (fun a => a = mkSeqAction oid (Some (ParamsUnit v)) w) k) as Hk.
  { apply Forall_forall. intros a [Ho Ha]%list_elem_of_filter. rewrite Hp in Ha.
    apply list_elem_of_fmap in Ha as (o & -> & _). rewrite rs_new_unit_eq in *. simpl in Ho. by subst o. }
  assert (mkSeqAction oid (Some (ParamsUnit v)) w ∈ k) as Hin.
  { apply list_elem_of_filter. split; [done|]. rewrite Hp. apply list_elem_of_fmap. exists oid.
    by rewrite rs_new_unit_eq. }
  destruct (last k) as [a|] eqn:E.
  - apply last_Some_elem_of in E. by rewrite (proj1 (Forall_forall _ _) Hk a E).
  - apply last_None in E. rewrite E in Hin. by apply elem_of_nil in Hin.
Qed.

Lemma told_other oid l v w cs : oid ∉ l -> cs.*1 ≡ₚ actions_on l v w -> told oid cs = None.
Proof.
  intros Hl Hp. apply told_none. intros a Ha Ho. rewrite Hp in Ha.
  apply list_elem_of_fmap in Ha as (o & -> & Hin). rewrite rs_new_unit_eq in Ho. simpl in Ho. by subst.
Qed.

(** The last command of a plan for each port. *)
Definition port_command (c : Command) : option bool :=
  match c with PortOn => Some true | PortOff => Some false | _ => None end.
Definition dport_command (c : Command) : option bool :=
  match c with DPortOn => Some true | DPortOff => Some false | _ => None end.
Definition last_command (f : Command -> option bool) (plan : list Command) : option bool :=
  last (omap f plan).

Lemma last_command_cons f c plan :
  last_command f (c :: plan) = match last_command f plan with Some b => Some b | None => f c end.
Proof.
  unfold last_command. simpl. destruct (f c) as [b|]; [|by destruct (last _)].
  by rewrite last_cons.
Qed.
Lemma last_command_app f p1 p2 :
  last_command f (p1 ++ p2) =
    match last_command f p2 with Some b => Some b | None => last_command f p1 end.
Proof. unfold last_command. by rewrite omap_app, last_app. Qed.

Definition told_value (o : option SequenceAction) (b : option bool) (oid : OID) (w : Duration) : Prop :=
  o = (fun b : bool => mkSeqAction oid (Some (ParamsUnit (VI8 (if b then 1 else 0)%Z))) w) <$> b.

Lemma completed_told config plan cs oid :
  completed (entry_of config <$> plan) cs ->
  (oid ∈ op_port config -> oid ∉ op_dport config ->
    told_value (told oid cs) (last_command port_command plan) oid (port_wait config)) /\
  (oid ∈ op_dport config -> oid ∉ op_port config ->
    told_value (told oid cs) (last_command dport_command plan) oid (port_wait config)).
Proof.
  revert cs. induction plan as [|c plan IH]; intros cs Hc; inversion Hc as [|? ? cs1 cs2 Hp Hs Hc' E1 E2].
  { split; intros _ _; reflexivity. }
  clear Hc. subst. destruct (IH _ Hc') as [IHp IHd]. unfold told_value in *.
  split; intros Hin Hout; rewrite told_app, last_command_cons.
  - rewrite (IHp Hin Hout). destruct (last_command port_command plan) as [b|]; [done|]. simpl.
    destruct c; simpl in *; eauto using told_batch, told_other; apply told_none;
      intros a; rewrite Hp; by intros ?%elem_of_nil.
  - rewrite (IHd Hin Hout). destruct (last_command dport_command plan) as [b|]; [done|]. simpl.
    destruct c; simpl in *; eauto using told_batch, told_other; apply told_none;
      intros a; rewrite Hp; by intros ?%elem_of_nil.
Qed.

(** A plan ends with the motor switched off. *)
Definition ends_off (logic : OLogic) (plan : list Command) : Prop :=
  plan = [] \/
  (last_command port_command plan = Some false /\
   (logic = Rdc -> last_command dport_command plan = Some false)).

Lemma ends_off_app logic p1 p2 :
  ends_off logic p1 -> ends_off logic p2 -> ends_off logic (p1 ++ p2).
Proof.
  intros H1 [->|[Hp Hd]]; [by rewrite (right_id_L [] (++))|]. right.
  rewrite !last_command_app, Hp. split; [done|]. intros Hr. by rewrite (Hd Hr).
Qed.

Lemma generate_ends_off fuel config cur req brk plan :
  generate fuel config cur req brk = Some (Ok plan) -> ends_off (pc_logic config) plan.
Proof.
  revert cur req plan. induction fuel as [|fuel IH]; [done|]. intros cur req plan. cbn [generate].
  intros (n & _ & Hg)%fbind_ok. destruct (_ || _ || _ || _); [done|]. destruct (_ && brk); [done|].
  apply fbind_ok in Hg as (steps & _ & Hg). destruct (cur ?= req)%Z.
  - injection Hg as <-. by left.
  - destruct (match pc_te config with Some _ => _ | None => _ end).
    + apply fbind_ok in Hg as (p1 & H1%IH & Hg). apply fbind_ok in Hg as (p2 & H2%IH & [= <-]).
      by apply ends_off_app.
    + injection Hg as Hg. unfold plan_up in Hg. destruct (travel _ _ _) as [d|]; [|done].
      injection Hg as <-. right. by destruct (pc_logic config).
  - destruct (match pc_ts config with Some _ => _ | None => _ end).
    + apply fbind_ok in Hg as (p1 & H1%IH & Hg). apply fbind_ok in Hg as (p2 & H2%IH & [= <-]).
      by apply ends_off_app.
    + injection Hg as Hg. unfold plan_down in Hg. destruct (travel _ _ _) as [d|]; [|done].
      injection Hg as <-. right. by destruct (pc_logic config).
Qed.

Lemma completed_off config plan cs cur req brk fuel :
  generate fuel (op_plan_config config) cur req brk = Some (Ok plan) ->
  op_port config ## op_dport config -> completed (entry_of config <$> plan) cs ->
  cs = [] \/ forall oid, oid ∈ powered config -> exists a, told oid cs = Some a /\ off a.
Proof.
  intros Hg Hdis Hc. destruct (generate_ends_off _ _ _ _ _ _ Hg) as [->|[Hp Hd]].
  { left. by inversion Hc. }
  right. intros oid [Hin|Hin]%elem_of_app.
  - destruct (completed_told config plan cs oid Hc) as [Ht _].
    rewrite Ht, Hp; [|done|by intros ?%Hdis]. eexists. split; [done|]. by left.
  - case_decide as Hr; [|by apply elem_of_nil in Hin].
    destruct (completed_told config plan cs oid Hc) as [_ Ht].
    rewrite Ht, (Hd Hr); [|done|intros Hin'; by apply (Hdis oid)]. eexists. split; [done|]. by left.
Qed.

Context {S : Type} `{!ActionCore Uuid S}.
Context (max_expected_duration abort_timeout : Sequence (Uuid := Uuid) -> Duration).
Context (op_enough : Duration -> Duration -> Duration -> EResult unit).
Context (sched : list (nat * SequenceAction) -> list (nat * SequenceAction)).
Context (sched_perm : forall l, sched l ≡ₚ l).

(** C28: Openers and sequences together never leave a motor running.  Take the
    sequence an opener makes of a plan and let the core run it, whatever the
    actions return, whenever it is terminated: if any action was launched at
    all, the last action on every unit that drives the motor switches it off. *)
Theorem opener_switches_off fuel (config : Opener) cur req brk plan timeout cancel
    (s s' : SeqSt (S := S)) r :
  generate fuel (op_plan_config config) cur req brk = Some (Ok plan) ->
  op_port config ## op_dport config ->
  let sq := rs_unpack (plan_sequence config plan timeout) in
  (max_expected_duration sq <= timeout)%Z ->
  execute max_expected_duration abort_timeout op_enough sched cancel sq s = (r, s') ->
  exists cs, logged cs s s' /\
    (cs = [] \/ forall oid, oid ∈ powered config -> exists a, told oid cs = Some a /\ off a).
Proof.
  intros Hg Hdis sq Hmax Hx. pose proof (plan_sequence_unpack config plan timeout) as Hsq.
  assert (max_expected_duration sq <= sq_timeout sq)%Z as Hmax'.
  { enough (sq_timeout sq = timeout) as -> by done. unfold sq. by rewrite Hsq. }
  destruct (execute_outcome max_expected_duration abort_timeout op_enough sched sched_perm
    cancel sq s Hmax') as (r' & cs & csa & s1 & E & Hl & Hr & _).
  rewrite E in Hx. injection Hx as -> ->. exists (cs ++ csa). split; [done|].
  destruct r as [[]|err].
  - destruct Hr as [Hc ->]. rewrite (right_id_L [] (++)) in *. unfold sq in Hc. rewrite Hsq in Hc.
    by apply (completed_off config plan cs cur req brk fuel).
  - right. intros oid Hin. destruct Hr as [_ Hp]. unfold sq, abort_actions in Hp. rewrite Hsq in Hp.
    rewrite told_app, (told_batch oid (powered config) (VU8 0) (port_wait config) csa Hin Hp).
    eexists. split; [done|]. by right.
Qed.

End laws.
End open.

Module OpenerRunExamples.
Import Sample SeqExamples OpenerExamples.

#[export] Instance robots : Robots positive := {|
  RSequence := Sequence (Uuid := positive);
  rs_new u t := mkSequence u [] t None;
  rs_push_actions_multi l s :=
    mkSequence (sq_u s) (sq_seq s ++ [SeActions (SaMulti l)]) (sq_timeout s) (sq_on_abort s);
  rs_push_delay d s :=
    mkSequence (sq_u s) (sq_seq s ++ [SeDelay (d / 1000)%Z]) (sq_timeout s) (sq_on_abort s);
  rs_set_on_abort_multi l s := mkSequence (sq_u s) (sq_seq s) (sq_timeout s) (Some (SaMulti l));
  rs_new_unit oid v w := mkSeqAction oid (Some (ParamsUnit v)) w;
  rs_unpack s := s;
  VI8 z := SNum z
|}.
#[export] Instance robots_laws : RobotsLaws.
Proof. by constructor. Qed.

Definition oenv : OEnv (Uuid := positive) :=
  mkOEnv (Ok 3%Z) (fun _ => Ok tt) 1%positive (fun _ => Ok tt) (Ok true) 100
    (fun v : Value => match v with SNum z => Ok z | _ => Err EInvalidData end).
Definition door (port : string) : Opener :=
  mkOpener (Unit, "door") false [(Unit, port)] [(Unit, "dir")]
    (OpenerExamples.config Rdc (Some 2%Z) None) true None.
Definition door_plan : list Command :=
  match generate_run (op_plan_config (door "a")) 3 2 true with Ok p => p | Err _ => [] end.
Definition door_run (port : string) (cancel : option Cut) :=
  run cancel (rs_unpack (plan_sequence oenv (door port) door_plan (OpenerExamples.s 60))).

(** The plan runs to its end, the port does not work, the action is
    terminated while the motor runs. *)
Example door_runs :
  names (door_run "a" None) = (Ok tt, ["a"; "dir"; "dir"; "dir"; "a"; "a"]) /\
  names (door_run "bad" None) = (Err EFailed, ["bad"; "dir"; "bad"]) /\
  names (door_run "a" (Some (mkCut 2 false))) = (Err EAborted, ["a"; "dir"; "dir"; "a"]).
Proof. split_and!; vm_refl. Qed.

Lemma opener_switches_off_witness :
  (door_run "a" (Some (mkCut 2 false))).1 = Err EAborted /\
  exists cs, logged cs s0 (door_run "a" (Some (mkCut 2 false))).2 /\
    (cs = [] \/ forall oid, oid ∈ powered (door "a") -> exists a, told oid cs = Some a /\ off a).
Proof.
  assert ((door_run "a" (Some (mkCut 2 false))).1 = Err EAborted) as E by vm_refl.
  split; [exact E|].
  apply (opener_switches_off oenv (S := unit) max_expected max_expected op_enough sched sched_perm
    4 (door "a") 3 2 true door_plan (OpenerExamples.s 60) (Some (mkCut 2 false)) s0
    (door_run "a" (Some (mkCut 2 false))).2 (Err EAborted)).
  - vm_refl.
  - simpl. intros x ->%list_elem_of_singleton. by intros ?%list_elem_of_singleton.
  - unfold max_expected, OpenerExamples.s. lia.
  - by apply pair_fst.
Defined.
End OpenerRunExamples.
