(* ===== verification/Logs.v ===== *)
(** * The log of the node (eva/src/logs.rs)

    Log levels and their texts, the log records the node keeps in memory, the
    queries on them and their clean-up.  The outputs to the console, to files,
    to syslog and to the bus are not modelled. *)
From Stdlib Require Import Ascii.
From S2P Require Import Prelude EvaCommon.

(** The codes of the levels, of [eva_common]; a more severe level has a
    greater code. *)
Class LogLevels := {
  LOG_LEVEL_TRACE : Z;
  LOG_LEVEL_DEBUG : Z;
  LOG_LEVEL_INFO : Z;
  LOG_LEVEL_WARN : Z;
  LOG_LEVEL_ERROR : Z;
  LOG_LEVEL_OFF : Z
}.
Class LogLevelLaws `{LogLevels} : Prop := {
  log_levels_order : (0 <= LOG_LEVEL_TRACE < LOG_LEVEL_DEBUG /\ LOG_LEVEL_DEBUG < LOG_LEVEL_INFO /\
    LOG_LEVEL_INFO < LOG_LEVEL_WARN /\ LOG_LEVEL_WARN < LOG_LEVEL_ERROR /\ LOG_LEVEL_ERROR < 50)%Z
}.

(** [s.to_lowercase()], on ASCII strings *)
Definition ascii_lower (a : ascii) : ascii :=
  let n := nat_of_ascii a in
  if (65 <=? n)%nat && (n <=? 90)%nat then ascii_of_nat (n + 32) else a.
Fixpoint to_lowercase (s : string) : string :=
  match s with
  | EmptyString => EmptyString
  | String a s => String (ascii_lower a) (to_lowercase s)
  end.

(** [log::Level], from the most severe *)
Inductive Level := LError | LWarn | LInfo | LDebug | LTrace.

Section levels.
Context `{LogLevels}.

(** eva/src/logs.rs:156-168 [LogLevel::as_str] *)
Definition level_as_str (l : Z) : string :=
  if (l =? LOG_LEVEL_TRACE)%Z then "trace"
  else if (l =? LOG_LEVEL_DEBUG)%Z then "debug"
  else if (l =? LOG_LEVEL_INFO)%Z then "info"
  else if (l =? LOG_LEVEL_WARN)%Z then "warn"
  else if (l =? LOG_LEVEL_ERROR)%Z then "error"
  else if (l =? 50)%Z then "error"
  else "unknown".

(** eva/src/logs.rs:173-184 [from_str] *)
Definition level_from_str (level : string) : EResult Z :=
  let l := to_lowercase level in
  let one_of := existsb (String.eqb l) in
  if one_of ["trace"; "t"] then Ok LOG_LEVEL_TRACE
  else if one_of ["debug"; "d"] then Ok LOG_LEVEL_DEBUG
  else if one_of ["info"; "i"] then Ok LOG_LEVEL_INFO
  else if one_of ["warning"; "warn"; "w"] then Ok LOG_LEVEL_WARN
  else if one_of ["error"; "e"; "err"; "critical"; "crit"; "c"] then Ok LOG_LEVEL_ERROR
  else Err EInvalidData.

(** eva/src/logs.rs:188-197 [LogLevel::from] *)
Definition level_of (l : Level) : Z :=
  match l with
  | LTrace => LOG_LEVEL_TRACE
  | LDebug => LOG_LEVEL_DEBUG
  | LInfo => LOG_LEVEL_INFO
  | LWarn => LOG_LEVEL_WARN
  | LError => LOG_LEVEL_ERROR
  end.

(** eva/src/logs.rs:201-210 [Level::from] *)
Definition level_to (l : Z) : Level :=
  if (l =? LOG_LEVEL_TRACE)%Z then LTrace
  else if (l =? LOG_LEVEL_DEBUG)%Z then LDebug
  else if (l =? LOG_LEVEL_WARN)%Z then LWarn
  else if (l =? LOG_LEVEL_ERROR)%Z then LError
  else LInfo.

(** ** Records in memory *)

(** eva/src/logs.rs:511-518 [LogRecord] *)
Record LogRecord := mkLogRecord {
  lr_time : Z;
  lr_h : string;
  lr_l : Z;
  lr_module : string;
  lr_msg : string
}.

Context `{Externals}.
Context (DEFAULT_GET_RECORD_LIMIT : Z).

(** eva/src/logs.rs:60-68 [RecordFilter] *)
Record RecordFilter := mkRecordFilter {
  rf_level : Z;
  rf_module : option string;
  rf_msg : option string;
  rf_regex : option Regex;
  rf_not_before : option Z;
  rf_limit : Z
}.

(** eva/src/logs.rs:71-87 [RecordFilter::new], at the time [now] *)
Definition record_filter_new (level : option Z) (module msg : option string) (regex : option Regex)
    (t limit : option Z) (now : Z) : RecordFilter :=
  mkRecordFilter (default LOG_LEVEL_INFO level) module (to_lowercase <$> msg) regex
    ((fun v => now - v)%Z <$> t) (default DEFAULT_GET_RECORD_LIMIT limit).

(** eva/src/logs.rs:88-114 [RecordFilter::matches] *)
Definition record_matches (f : RecordFilter) (r : LogRecord) : bool :=
  if (lr_l r <? rf_level f)%Z then false
  else if match rf_not_before f with Some nb => (lr_time r <? nb)%Z | None => false end then false
  else if match rf_module f with Some m => negb (String.eqb (lr_module r) m) | None => false end
  then false
  else if match rf_regex f with
          | Some rx => negb (regex_is_match rx (to_lowercase (lr_msg r)))
          | None => false
          end then false
  else if match rf_msg f with
          | Some m => negb (contains (to_lowercase (lr_msg r)) m)
          | None => false
          end then false
  else true.

(** eva/src/logs.rs:120-134 [get_log_records] *)
Definition get_log_records (f : RecordFilter) (log : list LogRecord) : list LogRecord :=
  let records := filter (fun r => record_matches f r = true) log in
  drop (length records - Z.to_nat (rf_limit f)) records.

(** eva/src/logs.rs:139-142 [purge_log_records] *)
Definition purge_log_records (log : list LogRecord) : list LogRecord := [].

(** eva/src/logs.rs:238-245 [MemoryLogger::log] *)
Definition memory_log (enabled : bool) (r : LogRecord) (log : list LogRecord) : list LogRecord :=
  if enabled then log ++ [r] else log.

(** eva/src/logs.rs:249-264 [cleanup_memory_log], at the time [now] *)
Definition cleanup_memory_log (keep : option Z) (max : option nat) (now : Z) (log : list LogRecord)
    : list LogRecord :=
  let log := match keep with
             | Some k => filter (fun r => now - k < lr_time r)%Z log
             | None => log
             end in
  match max with
  | Some m => if (m <? length log)%nat then drop (length log - m) log else log
  | None => log
  end.

(** ** Facts *)

Lemma level_roundtrip `{!LogLevelLaws} l : level_to (level_of l) = l.
Proof.
  pose proof log_levels_order. unfold level_to.
  destruct l; simpl; repeat match goal with |- context [(?a =? ?b)%Z] => destruct (Z.eqb_spec a b) end;
    first [done | lia].
Qed.

Lemma level_as_str_from_str `{!LogLevelLaws} l :
  level_from_str (level_as_str (level_of l)) = Ok (level_of l).
Proof.
  pose proof log_levels_order. unfold level_as_str.
  destruct l; simpl; repeat match goal with |- context [(?a =? ?b)%Z] => destruct (Z.eqb_spec a b) end;
    first [done | lia].
Qed.

(** A query gives the latest of the matching records, in their order. *)
Lemma get_log_records_latest f log :
  exists before, filter (fun r => record_matches f r = true) log = before ++ get_log_records f log /\
    length (get_log_records f log) =
      min (Z.to_nat (rf_limit f)) (length (filter (fun r => record_matches f r = true) log)).
Proof.
  unfold get_log_records. set (rs := filter _ _). eexists. split; [symmetry; apply take_drop|].
  rewrite length_drop. lia.
Qed.

(** The clean-up keeps the latest records, at most [max] of them. *)
Lemma cleanup_memory_log_bound keep m now log :
  length (cleanup_memory_log keep (Some m) now log) <= m.
Proof.
  unfold cleanup_memory_log. set (l := match keep with Some _ => _ | None => _ end).
  destruct (Nat.ltb_spec m (length l)); [rewrite length_drop|]; lia.
Qed.
End levels.
