(* ===== verification/Launcher.v ===== *)
(** * The service launcher (eva/src/launcher.rs)

    A launcher runs the processes of services and restarts them when they end.
    Its calls are serialized by the lock of the table of services; the task
    that runs a service is in one of three phases: it waits before the process
    is started (again), it has started the process and sends it the initial
    payload, or the process is registered and it waits for its end.  Live
    processes are kept apart from the table, so that a process nobody refers
    to any more can be seen. *)
From Stdlib Require Import Ascii.
From S2P Require Import Prelude Duration.

(** ** Paths

    [std::path::Path], for paths without [.] components: a path is compared
    by its components. *)
Definition path_components (s : string) : list string :=
  filter (fun c => c ≠ "") (split_on slash s).
Definition path_absolute (s : string) : bool := String.prefix "/" s.
Definition path_eqb (a b : string) : bool :=
  Bool.eqb (path_absolute a) (path_absolute b)
  && bool_decide (path_components a = path_components b).
Definition path_parent (s : string) : option string :=
  match reverse (path_components s) with
  | [] => None
  | _ :: l => Some ((if path_absolute s then "/" else "") +:+ join_with slash (reverse l))%string
  end.
Definition path_join (a b : string) : string := (a +:+ "/" +:+ b)%string.
(** [s.trim()], spaces only *)
Fixpoint trim_start (s : string) : string :=
  match s with
  | String " "%char s' => trim_start s'
  | _ => s
  end.
Definition string_rev (s : string) : string :=
  String.string_of_list_ascii (reverse (String.list_ascii_of_string s)).
Definition trim (s : string) : string := string_rev (trim_start (string_rev (trim_start s))).

(** ** What a service is started with *)

(** [eva_common::services::RealtimeConfig] *)
Record RealtimeConfig := mkRealtime { rt_priority : option Z; rt_cpu_ids : list Z }.

(** [eva_common::services::Initial], what the launcher reads of it, and the
    rest as one value *)
Record Initial {Rest : Type} := mkInitial {
  in_command : string;
  in_data_path : option string;
  in_planned_data_path : string;
  in_realtime : RealtimeConfig;
  in_rest : Rest
}.
Arguments Initial : clear implicits.
Arguments mkInitial {_}.

(** eva/src/svcmgr.rs:39-46 [PayloadStartStop] *)
Record PayloadStartStop {Rest : Type} := mkPayload {
  ps_id : string;
  ps_initial : Initial Rest;
  ps_mem_warn : Z;
  ps_binary_to_reflash : option (list Z)
}.
Arguments PayloadStartStop : clear implicits.
Arguments mkPayload {_}.

(** eva/src/svcmgr.rs:709-719 [Status] *)
Inductive SvcStatus := Unknown | Offline | Starting | Terminating | Online | Private | Disabled.
#[export] Instance SvcStatus_eq_dec : EqDecision SvcStatus.
Proof. solve_decision. Defined.

(** eva/src/svcmgr.rs:722-729 [Status::from] *)
Definition svc_status_of_u8 (s : Z) : SvcStatus :=
  if (s =? 0)%Z then Starting
  else if (s =? 1)%Z then Online
  else if (s =? 0xef)%Z then Terminating
  else Private.

(** eva/src/svcmgr.rs:576-580 [ServiceStatus] *)
Record ServiceStatus := mkServiceStatus { ss_pid : option positive; ss_status : SvcStatus }.

Section launcher.
Context {Rest : Type}.

(** ** State *)

Inductive Phase :=
  | Stopped
  | Waiting
  | Spawned (pid : positive)
  | Running (pid : positive) (status : Z).

(** eva/src/launcher.rs:51-57 [Service] *)
Record Service := mkService {
  sv_initial : Initial Rest;
  sv_mem_warn : Z;
  sv_phase : Phase
}.

Record Launcher := mkLauncher {
  lc_rpc : bool;                        (* the client to call services is set *)
  lc_realtime : RealtimeConfig;         (* default_realtime *)
  lc_services : gmap string Service;
  lc_procs : gmap positive string;      (* live processes, of which service *)
  lc_pids : positive;                   (* a pid that was not used yet *)
  lc_files : gmap string (list Z);      (* binaries that were written *)
  lc_io : nat                           (* file system calls made *)
}.

Definition set_services (m : gmap string Service) (l : Launcher) : Launcher :=
  mkLauncher (lc_rpc l) (lc_realtime l) m (lc_procs l) (lc_pids l) (lc_files l) (lc_io l).
Definition set_procs (m : gmap positive string) (l : Launcher) : Launcher :=
  mkLauncher (lc_rpc l) (lc_realtime l) (lc_services l) m (lc_pids l) (lc_files l) (lc_io l).
Definition set_files (m : gmap string (list Z)) (l : Launcher) : Launcher :=
  mkLauncher (lc_rpc l) (lc_realtime l) (lc_services l) (lc_procs l) (lc_pids l) m (lc_io l).

Abbreviation LM := (M Launcher).

(** The file system and the directory of the installation. *)
Record LEnv := mkLEnv {
  le_io : nat -> EResult unit;
  le_canonicalize : string -> EResult string;
  le_exists : string -> bool;
  le_eva_dir : string
}.
Variable (e : LEnv).

Definition fs_call : LM unit := fun l =>
  (le_io e (lc_io l),
   mkLauncher (lc_rpc l) (lc_realtime l) (lc_services l) (lc_procs l) (lc_pids l) (lc_files l)
     (S (lc_io l))).

(** ** Calls *)

(** eva/src/launcher.rs:272-286 [Service::stop]: the process is killed if it is
    registered, and the task is aborted *)
Definition service_stop (svc : Service) : LM unit :=
  match sv_phase svc with
  | Running pid _ => modify (fun l => set_procs (delete pid (lc_procs l)) l)
  | _ => mret tt
  end.

(** eva/src/launcher.rs:313-320 [stop_svc!] *)
Definition stop_svc (id : string) : LM unit :=
  l ← get;
  match lc_services l !! id with
  | Some service =>
      _ ← modify (fun l => set_services (delete id (lc_services l)) l);
      service_stop service
  | None => mret tt
  end.

(** Directories whose files are not replaced
    (eva/src/launcher.rs:411-443) *)
Definition forbidden_dir (dir : string) : bool :=
  existsb (path_eqb dir)
    ["/"; "/bin"; "/sbin"; "/usr/bin"; "/usr/sbin"; "/usr/local/bin"; "/usr/local/sbin";
     path_join (le_eva_dir e) "venv/bin"]
  || path_eqb dir (path_join (le_eva_dir e) "svc").

(** A replacement of the binary of a service
    (eva/src/launcher.rs:391-451) *)
Definition reflash (initial : Initial Rest) (b : list Z) : LM unit :=
  command ← lift (ok_or (head (split_on " "%char (in_command initial))) EInvalidData);
  let program_path := trim command in
  parent ← lift (ok_or (path_parent program_path) EFailed);
  program_dir ← lift (le_canonicalize e parent);
  if forbidden_dir program_dir then raise EInvalidData
  else
    _ ← (if le_exists e program_path then fs_call else mret tt);
    _ ← fs_call;
    _ ← modify (fun l => set_files (<[program_path := b]> (lc_files l)) l);
    _ ← fs_call;
    fs_call.

(** The configured realtime parameters, with the defaults of the launcher
    (eva/src/launcher.rs:373-388) *)
Definition override_realtime (d : RealtimeConfig) (r : RealtimeConfig) : RealtimeConfig :=
  mkRealtime (match rt_priority r with None => rt_priority d | p => p end)
    (match rt_cpu_ids r with [] => rt_cpu_ids d | c => c end).
Definition with_realtime (r : RealtimeConfig) (i : Initial Rest) : Initial Rest :=
  mkInitial (in_command i) (in_data_path i) (in_planned_data_path i) r (in_rest i).

(** The call [start] (eva/src/launcher.rs:367-480) *)
Definition call_start (p : PayloadStartStop Rest) : LM unit :=
  l ← get;
  if negb (lc_rpc l) then raise EFailed
  else
    let initial :=
      with_realtime (override_realtime (lc_realtime l) (in_realtime (ps_initial p))) (ps_initial p) in
    _ ← stop_svc (ps_id p);
    _ ← match ps_binary_to_reflash p with
        | Some (b :: bs) => reflash initial (b :: bs)
        | _ => mret tt
        end;
    _ ← match in_data_path initial with
        | Some dp =>
            if le_exists e dp then mret tt
            else _ ← fs_call; _ ← fs_call; _ ← fs_call; fs_call
        | None => mret tt
        end;
    modify (fun l => set_services
      (<[ps_id p := mkService initial (ps_mem_warn p) Waiting]> (lc_services l)) l).

(** The call [stop] (eva/src/launcher.rs:481-486) *)
Definition call_stop (p : PayloadStartStop Rest) : LM unit := stop_svc (ps_id p).

(** The call [stop_and_purge] (eva/src/launcher.rs:487-498); a directory that
    does not exist is no error *)
Definition call_stop_and_purge (p : PayloadStartStop Rest) : LM unit :=
  _ ← stop_svc (ps_id p);
  if le_exists e (in_planned_data_path (ps_initial p)) then fs_call else mret tt.

Definition service_status (svc : Service) : ServiceStatus :=
  match sv_phase svc with
  | Running pid status => mkServiceStatus (Some pid) (svc_status_of_u8 status)
  | _ => mkServiceStatus None Starting
  end.

(** The call [list] (eva/src/launcher.rs:322-341) *)
Definition call_list (l : Launcher) : gmap string ServiceStatus := service_status <$> lc_services l.
(** The call [get] (eva/src/launcher.rs:342-366) *)
Definition call_get (id : string) (l : Launcher) : EResult ServiceStatus :=
  ok_or (service_status <$> lc_services l !! id) ENotFound.

(** The call [shutdown] (eva/src/launcher.rs:499-512); the table is kept, the
    tasks are aborted *)
Definition call_shutdown : LM unit :=
  l ← get;
  _ ← for_each (fun iv => service_stop iv.2) (map_to_list (lc_services l));
  modify (fun l => set_services
    ((fun svc => mkService (sv_initial svc) (sv_mem_warn svc) Stopped) <$> lc_services l) l).

(** eva/src/launcher.rs:523-537 [status_handler], one frame *)
Definition status_frame (sender : string) (status : Z) : LM unit :=
  modify (fun l =>
    match lc_services l !! sender with
    | Some (mkService i mw (Running pid _)) =>
        set_services (<[sender := mkService i mw (Running pid status)]> (lc_services l)) l
    | _ => l
    end).

(** ** The task of a service

    eva/src/launcher.rs:69-239 [Service::launch] and eva/src/launcher.rs:240-261
    [Service::runner], the steps between its waits. *)

(** The process is started (eva/src/launcher.rs:77-90) *)
Definition task_spawn (id : string) (l : Launcher) : Launcher :=
  match lc_services l !! id with
  | Some (mkService i mw Waiting) =>
      mkLauncher (lc_rpc l) (lc_realtime l)
        (<[id := mkService i mw (Spawned (lc_pids l))]> (lc_services l))
        (<[lc_pids l := id]> (lc_procs l)) (Pos.succ (lc_pids l)) (lc_files l) (lc_io l)
  | _ => l
  end.
(** The initial payload is sent and the process is registered
    (eva/src/launcher.rs:105-191) *)
Definition task_register (id : string) (l : Launcher) : Launcher :=
  match lc_services l !! id with
  | Some (mkService i mw (Spawned pid)) =>
      set_services (<[id := mkService i mw (Running pid 0)]> (lc_services l)) l
  | _ => l
  end.
(** The process of the service ends, the task waits to start it again
    (eva/src/launcher.rs:192-258) *)
Definition task_exit (id : string) (l : Launcher) : Launcher :=
  match lc_services l !! id with
  | Some (mkService i mw (Running pid _)) | Some (mkService i mw (Spawned pid)) =>
      set_services (<[id := mkService i mw Waiting]> (lc_services l))
        (set_procs (delete pid (lc_procs l)) l)
  | _ => l
  end.

(** ** Properties *)

Implicit Types l : Launcher.

Inductive launcher_op :=
  | LcStart (p : PayloadStartStop Rest)
  | LcStop (p : PayloadStartStop Rest)
  | LcPurge (p : PayloadStartStop Rest)
  | LcShutdown
  | LcStatus (sender : string) (status : Z)
  | LcSpawn (id : string)
  | LcRegister (id : string)
  | LcExit (id : string).

Definition launcher_exec (op : launcher_op) l : Launcher :=
  match op with
  | LcStart p => (call_start p l).2
  | LcStop p => (call_stop p l).2
  | LcPurge p => (call_stop_and_purge p l).2
  | LcShutdown => (call_shutdown l).2
  | LcStatus sender status => (status_frame sender status l).2
  | LcSpawn id => task_spawn id l
  | LcRegister id => task_register id l
  | LcExit id => task_exit id l
  end.

Definition phase_pid (ph : Phase) : option positive :=
  match ph with Spawned pid | Running pid _ => Some pid | _ => None end.
Definition svc_pid l (id : string) : option positive :=
  lc_services l !! id ≫= fun svc => phase_pid (sv_phase svc).
Definition spawning l (id : string) : bool :=
  match lc_services l !! id with
  | Some (mkService _ _ (Spawned _)) => true
  | _ => false
  end.

(** No call stops a service in the moment its process is being started. *)
Definition no_race (op : launcher_op) l : Prop :=
  match op with
  | LcStart p | LcStop p | LcPurge p => spawning l (ps_id p) = false
  | LcShutdown => forall id, spawning l id = false
  | _ => True
  end.

(** The live processes are those of the services of the table, one each. *)
Record procs_ok l : Prop := {
  procs_iff pid id : lc_procs l !! pid = Some id <-> svc_pid l id = Some pid;
  procs_fresh pid : is_Some (lc_procs l !! pid) -> (pid < lc_pids l)%positive
}.

(** The parts of the state the processes depend on. *)
Definition same_procs l l' : Prop :=
  lc_services l' = lc_services l /\ lc_procs l' = lc_procs l /\ lc_pids l' = lc_pids l.
#[local] Instance same_procs_preorder : PreOrder same_procs.
Proof.
  split; [by intros l|]. intros x y z (?&?&?) (?&?&?). unfold same_procs. split_and!; congruence.
Qed.
Lemma fs_call_same : keeps same_procs fs_call.
Proof. by intros l. Qed.
Lemma set_files_same f : keeps same_procs (modify (fun l => set_files (f l) l)).
Proof. by intros l. Qed.
#[local] Hint Resolve fs_call_same set_files_same : keeps.

Lemma same_procs_ok l l' : same_procs l l' -> procs_ok l -> procs_ok l'.
Proof.
  intros (Hs & Hp & Hn) [Hi Hf]. split.
  - intros pid id. unfold svc_pid. rewrite Hp, Hs. apply Hi.
  - intros pid. rewrite Hp, Hn. apply Hf.
Qed.

Lemma stop_svc_run id l :
  exists l', stop_svc id l = (Ok tt, l') /\ lc_services l' = delete id (lc_services l) /\
    lc_pids l' = lc_pids l /\ lc_files l' = lc_files l /\
    lc_procs l' = match sv_phase <$> lc_services l !! id with
                  | Some (Running pid _) => delete pid (lc_procs l)
                  | _ => lc_procs l
                  end.
Proof.
  unfold stop_svc. rewrite run_bind. unfold get at 1.
  destruct (lc_services l !! id) as [[i mw ph]|] eqn:E; simpl.
  - rewrite run_bind. unfold service_stop. destruct ph; simpl; eexists; by split_and!.
  - exists l. split_and!; try done. by rewrite delete_id.
Qed.

Lemma svc_pid_delete id id' l l' :
  lc_services l' = delete id (lc_services l) ->
  svc_pid l' id' = if decide (id = id') then None else svc_pid l id'.
Proof. intros E. unfold svc_pid. rewrite E, lookup_delete. by case_decide. Qed.

Lemma svc_pid_insert id id' svc l l' :
  lc_services l' = <[id := svc]> (lc_services l) ->
  svc_pid l' id' = if decide (id = id') then phase_pid (sv_phase svc) else svc_pid l id'.
Proof. intros E. unfold svc_pid. rewrite E, lookup_insert. by case_decide. Qed.

Lemma stop_svc_ok id l l' :
  spawning l id = false -> procs_ok l -> stop_svc id l = (Ok tt, l') ->
  procs_ok l' /\ svc_pid l' id = None.
Proof.
  intros Hsp [Hi Hf] E. destruct (stop_svc_run id l) as (l1 & E1 & Hs & Hn & _ & Hp).
  rewrite E in E1. injection E1 as <-.
  assert (svc_pid l' id = None) as Hid by (rewrite (svc_pid_delete id id l l') by done; by case_decide).
  split; [|done]. pose proof (Hi) as Hi'. unfold spawning in Hsp.
  assert (forall pid, svc_pid l id = Some pid <->
    exists st, sv_phase <$> lc_services l !! id = Some (Running pid st)) as Hpid.
  { intros pid. unfold svc_pid. destruct (lc_services l !! id) as [[i mw []]|]; simpl in *; naive_solver. }
  split.
  - intros pid id'. rewrite (svc_pid_delete id id' l l'), Hp by done.
    destruct (sv_phase <$> lc_services l !! id) as [[| | |pid0 st]|] eqn:Eph.
    all: try (case_decide as Hd; [subst id'|apply Hi]; split; [|done]; intros H1%Hi;
      apply Hpid in H1 as [? [=]]).
    rewrite lookup_delete. assert (svc_pid l id = Some pid0) as H0 by (apply Hpid; eauto).
    apply Hi in H0.
    destruct (decide (pid0 = pid)) as [->|], (decide (id = id')) as [<-|]; [done| | |apply Hi].
    + split; [done|]. intros H1%Hi. congruence.
    + split; [|done]. intros H1%Hi. apply Hpid in H1 as [? [=]]. done.
  - intros pid. rewrite Hp, Hn.
    destruct (sv_phase <$> lc_services l !! id) as [[]|]; try apply Hf.
    intros [? [_ H1]%lookup_delete_Some]. apply Hf. by eexists.
Qed.

Lemma insert_waiting_ok id svc l l' :
  procs_ok l -> svc_pid l id = None -> phase_pid (sv_phase svc) = None ->
  lc_services l' = <[id := svc]> (lc_services l) -> lc_procs l' = lc_procs l ->
  lc_pids l' = lc_pids l -> procs_ok l'.
Proof.
  intros [Hi Hf] Hid Hph Hs Hp Hn. split.
  - intros pid id'. rewrite (svc_pid_insert id id' svc l l'), Hp, Hi by done.
    case_decide; [subst id'|done]. by rewrite Hid, Hph.
  - intros pid. rewrite Hp, Hn. apply Hf.
Qed.

Lemma stop_then_ok {A} id l (m : LM A) :
  spawning l id = false -> procs_ok l -> keeps same_procs m ->
  exists l1, procs_ok l1 /\ svc_pid l1 id = None /\
    same_procs l1 ((_ ← stop_svc id; m) l).2.
Proof.
  intros Hsp Hok Hm. rewrite run_bind. destruct (stop_svc_run id l) as (l1 & E & _). rewrite E.
  destruct (stop_svc_ok id l l1 Hsp Hok E) as [Hok1 Hid]. exists l1. split_and!; [done|done|].
  apply Hm.
Qed.

Lemma call_start_ok p l : spawning l (ps_id p) = false -> procs_ok l -> procs_ok (call_start p l).2.
Proof.
  intros Hsp Hok. unfold call_start. rewrite run_bind. unfold get at 1.
  destruct (negb (lc_rpc l)); [done|]. rewrite run_bind.
  destruct (stop_svc_run (ps_id p) l) as (l1 & E & _). rewrite E.
  destruct (stop_svc_ok _ l l1 Hsp Hok E) as [Hok1 Hid]. set (i := with_realtime _ _).
  assert (forall A B (m1 : LM A) (m2 : LM B) (k : LM unit),
    keeps same_procs m1 -> keeps same_procs m2 ->
    (forall l2, same_procs l1 l2 -> procs_ok (k l2).2) ->
    procs_ok ((_ ← m1; _ ← m2; k) l1).2) as Hx.
  { intros A B m1 m2 k H1 H2 Hk. rewrite run_bind. specialize (H1 l1).
    destruct (m1 l1) as [[] l2]; [|by eapply same_procs_ok]. rewrite run_bind.
    specialize (H2 l2). destruct (m2 l2) as [[] l3]; simpl in *.
    - apply Hk. by transitivity l2.
    - eapply same_procs_ok; [|done]. by transitivity l2. }
  apply Hx.
  - unfold reflash. frame.
  - frame.
  - intros l2 (Hs & Hp & Hn). simpl.
    apply (insert_waiting_ok (ps_id p) (mkService i (ps_mem_warn p) Waiting) l1); simpl; try done;
      by rewrite Hs.
Qed.

Lemma stop_all_procs (m : list (string * Service)) l :
  exists l', for_each (fun iv => service_stop iv.2) m l = (Ok tt, l') /\
    lc_services l' = lc_services l /\ lc_pids l' = lc_pids l /\
    forall pid id, lc_procs l' !! pid = Some id ->
      lc_procs l !! pid = Some id /\ forall iv st, iv ∈ m -> sv_phase iv.2 ≠ Running pid st.
Proof.
  revert l. induction m as [|[i [ini mw ph]] m IH]; intros l.
  { exists l. split_and!; try done. intros pid id Hp. split; [done|]. by intros ? ? ?%elem_of_nil. }
  cbn [for_each]. rewrite run_bind. unfold service_stop. simpl.
  assert (forall (l1 : Launcher), lc_services l1 = lc_services l -> lc_pids l1 = lc_pids l ->
    (forall pid id, lc_procs l1 !! pid = Some id ->
      lc_procs l !! pid = Some id /\ forall st, ph ≠ Running pid st) ->
    exists l', for_each (fun iv => service_stop iv.2) m l1 = (Ok tt, l') /\
      lc_services l' = lc_services l /\ lc_pids l' = lc_pids l /\
      forall pid id, lc_procs l' !! pid = Some id -> lc_procs l !! pid = Some id /\
        forall iv st, iv ∈ (i, mkService ini mw ph) :: m -> sv_phase iv.2 ≠ Running pid st) as Hx.
  { intros l1 H1 H2 H3. destruct (IH l1) as (l' & E & Hs & Hn & Hp). exists l'.
    split_and!; [done|congruence|congruence|]. intros pid id [H4 H5]%Hp.
    destruct (H3 _ _ H4) as [? H6]. split; [done|]. intros iv st [->|Hin]%elem_of_cons; [apply H6|by apply H5]. }
  destruct ph as [| | |pid0 st0]; try (apply Hx; done).
  apply Hx; [done|done|]. intros pid id. simpl. rewrite lookup_delete. case_decide; [done|].
  intros ?. split; [done|]. intros st Hr. congruence.
Qed.

Lemma call_shutdown_ok l :
  (forall id, spawning l id = false) -> procs_ok l -> procs_ok (call_shutdown l).2.
Proof.
  intros Hsp [Hi Hf]. unfold call_shutdown. rewrite run_bind. unfold get at 1. rewrite run_bind.
  destruct (stop_all_procs (map_to_list (lc_services l)) l) as (l' & -> & Hs & Hn & Hp). simpl.
  assert (forall pid, lc_procs l' !! pid = None) as He.
  { intros pid. destruct (lc_procs l' !! pid) as [id|] eqn:E; [|done]. exfalso.
    apply Hp in E as [E Hno]. apply Hi in E. unfold svc_pid in E. specialize (Hsp id).
    unfold spawning in Hsp. destruct (lc_services l !! id) as [[i mw ph]|] eqn:Es; [|done].
    simpl in E. destruct ph as [| | |pid' st]; simplify_eq/=.
    apply elem_of_map_to_list in Es. by apply (Hno _ st Es). }
  split; simpl.
  - intros pid id. rewrite He. unfold svc_pid. simpl. rewrite lookup_fmap.
    split; [done|]. by destruct (lc_services l' !! id).
  - intros pid. rewrite He. by intros [].
Qed.

(** A step of the task of a service. *)
Lemma task_ok id l l' svc ph :
  procs_ok l -> lc_services l !! id = Some svc ->
  lc_services l' = <[id := mkService (sv_initial svc) (sv_mem_warn svc) ph]> (lc_services l) ->
  (forall pid id', lc_procs l' !! pid = Some id' <->
    if decide (id = id') then phase_pid ph = Some pid else lc_procs l !! pid = Some id') ->
  (lc_pids l <= lc_pids l')%positive ->
  (forall pid, phase_pid ph = Some pid -> (pid < lc_pids l')%positive) -> procs_ok l'.
Proof.
  intros [Hi Hf] Hid Hs Hp Hle Hlt. split.
  - intros pid id'. rewrite Hp, (svc_pid_insert id id' _ l l' Hs). case_decide; [done|apply Hi].
  - intros pid [id' Hx]. apply Hp in Hx. case_decide; [by apply Hlt|].
    assert (pid < lc_pids l)%positive by (apply Hf; by eexists). lia.
Qed.

Lemma task_spawn_ok id l : procs_ok l -> procs_ok (task_spawn id l).
Proof.
  intros Hok. unfold task_spawn. destruct (lc_services l !! id) as [[i mw []]|] eqn:E; try done.
  assert (lc_procs l !! lc_pids l = None) as Hnone.
  { apply eq_None_not_Some. intros ?%(procs_fresh l Hok). lia. }
  assert (forall pid, lc_procs l !! pid ≠ Some id) as Hno.
  { intros pid Hp%(procs_iff l Hok). unfold svc_pid in Hp. by rewrite E in Hp. }
  eapply task_ok; [exact Hok|exact E|done| |simpl; lia|].
  - intros pid id'. simpl. rewrite lookup_insert. repeat case_decide; subst; naive_solver.
  - simpl. intros pid [= <-]. lia.
Qed.

Lemma task_register_ok id l : procs_ok l -> procs_ok (task_register id l).
Proof.
  intros Hok. unfold task_register. destruct (lc_services l !! id) as [[i mw []]|] eqn:E; try done.
  assert (svc_pid l id = Some pid) as Hp by (unfold svc_pid; by rewrite E).
  eapply task_ok; [exact Hok|exact E|done| |simpl; lia|].
  - intros pid' id'. simpl. case_decide; [subst id'|done]. by rewrite (procs_iff l Hok), Hp.
  - simpl. intros ? [= <-]. apply (procs_fresh l Hok). apply (procs_iff l Hok) in Hp. by eexists.
Qed.

Lemma task_exit_ok id l : procs_ok l -> procs_ok (task_exit id l).
Proof.
  intros Hok. unfold task_exit.
  assert (forall i mw ph pid, lc_services l !! id = Some (mkService i mw ph) -> phase_pid ph = Some pid ->
    procs_ok (set_services (<[id := mkService i mw Waiting]> (lc_services l))
      (set_procs (delete pid (lc_procs l)) l))) as Hx.
  { intros i mw ph pid E Hph. assert (svc_pid l id = Some pid) as Hp by (unfold svc_pid; by rewrite E).
    eapply task_ok; [exact Hok|exact E|done| |simpl; lia|done].
    intros pid' id'. simpl. rewrite lookup_delete. apply (procs_iff l Hok) in Hp.
    repeat case_decide; subst; try naive_solver.
    split; [|done]. intros H1%(procs_iff l Hok). apply (procs_iff l Hok) in Hp. congruence. }
  destruct (lc_services l !! id) as [[i mw []]|] eqn:E; try done; by eapply Hx.
Qed.

Lemma status_frame_ok sender status l : procs_ok l -> procs_ok (status_frame sender status l).2.
Proof.
  intros Hok. unfold status_frame. simpl.
  destruct (lc_services l !! sender) as [[i mw []]|] eqn:E; try done.
  assert (svc_pid l sender = Some pid) as Hp by (unfold svc_pid; by rewrite E).
  eapply task_ok; [exact Hok|exact E|done| |simpl; lia|].
  - intros pid' id'. simpl. case_decide; [subst id'|done]. by rewrite (procs_iff l Hok), Hp.
  - simpl. intros ? [= <-]. apply (procs_fresh l Hok). apply (procs_iff l Hok) in Hp. by eexists.
Qed.

Lemma launcher_exec_ok op l : no_race op l -> procs_ok l -> procs_ok (launcher_exec op l).
Proof.
  destruct op as [p|p|p| |sender st|id|id|id]; simpl; intros Hr Hok.
  - by apply call_start_ok.
  - destruct (stop_svc_run (ps_id p) l) as (l' & E & _). unfold call_stop. rewrite E.
    by eapply stop_svc_ok.
  - unfold call_stop_and_purge.
    set (m := if le_exists _ _ then fs_call else mret tt).
    assert (keeps same_procs m) as Hm by (unfold m; frame).
    destruct (stop_then_ok (ps_id p) l m Hr Hok Hm) as (l1 & Hok1 & _ & Hsame).
    by apply (same_procs_ok l1).
  - by apply call_shutdown_ok.
  - by apply status_frame_ok.
  - by apply task_spawn_ok.
  - by apply task_register_ok.
  - by apply task_exit_ok.
Qed.

Inductive launcher_run : Launcher -> Launcher -> Prop :=
  | launcher_done l : launcher_run l l
  | launcher_step op l l' :
      no_race op l -> launcher_run (launcher_exec op l) l' -> launcher_run l l'.

Fixpoint no_races (ops : list launcher_op) l : Prop :=
  match ops with
  | [] => True
  | op :: ops => no_race op l /\ no_races ops (launcher_exec op l)
  end.
Lemma launcher_run_ops ops l :
  no_races ops l -> launcher_run l (foldl (fun l op => launcher_exec op l) l ops).
Proof.
  revert l. induction ops as [|op ops IH]; intros l; simpl; [intros; apply launcher_done|].
  intros [Hn Hs]. by apply (launcher_step op), IH.
Qed.


(** When a service is stopped in the moment its process is being started, the
    process stays alive and belongs to no service of the table; a service that
    is started again then has two processes. *)
Lemma stop_race_orphan p l i mw pid :
  lc_services l !! ps_id p = Some (mkService i mw (Spawned pid)) ->
  lc_procs l !! pid = Some (ps_id p) ->
  lc_procs (call_stop p l).2 !! pid = Some (ps_id p) /\
  lc_services (call_stop p l).2 !! ps_id p = None.
Proof.
  intros Hs Hp. destruct (stop_svc_run (ps_id p) l) as (l' & E & Hd & _ & _ & Hpr).
  unfold call_stop. rewrite E. simpl. rewrite Hd, Hpr, Hs. simpl. by rewrite lookup_delete_eq.
Qed.

Definition same_files l l' : Prop := lc_files l' = lc_files l.
#[local] Instance same_files_preorder : PreOrder same_files.
Proof. split; [by intros l|]. intros x y z. unfold same_files. congruence. Qed.
Lemma fs_call_files : keeps same_files fs_call.
Proof. by intros l. Qed.
Lemma stop_svc_files id : keeps same_files (stop_svc id).
Proof. intros l. by destruct (stop_svc_run id l) as (l' & -> & _ & _ & ? & _). Qed.
#[local] Hint Resolve fs_call_files stop_svc_files : keeps.

Lemma reflash_files initial b l r l' :
  reflash initial b l = (r, l') ->
  lc_files l' = lc_files l \/
  exists command parent dir,
    head (split_on " "%char (in_command initial)) = Some command /\
    path_parent (trim command) = Some parent /\ le_canonicalize e parent = Ok dir /\
    forbidden_dir dir = false /\ lc_files l' = <[trim command := b]> (lc_files l).
Proof.
  unfold reflash. rewrite run_bind. unfold lift at 1.
  destruct (head _) as [command|]; [|intros [= _ <-]; by left]. simpl. rewrite run_bind. unfold lift at 1.
  destruct (path_parent _) as [parent|] eqn:Ep; [|intros [= _ <-]; by left]. simpl. rewrite run_bind.
  unfold lift at 1. destruct (le_canonicalize e parent) as [dir|] eqn:Ec; [|intros [= _ <-]; by left].
  destruct (forbidden_dir dir) eqn:Ef; [intros [= _ <-]; by left|]. rewrite run_bind.
  set (m := if le_exists _ _ then fs_call else mret tt).
  assert (keeps same_files m) as Hk by (unfold m; frame). specialize (Hk l). destruct (m l) as [[] l1];
    [|intros [= _ <-]; by left]. rewrite run_bind.
  pose proof (fs_call_files l1) as Hk1. unfold same_files in *. simpl in Hk.
  destruct (fs_call l1) as [[] l2]; [|intros [= _ <-]; left; simpl in *; congruence].
  intros E. right. exists command, parent, dir. split_and!; try done. rewrite run_bind in E. simpl in E.
  assert (keeps same_files (_ ← fs_call; fs_call)) as H2 by frame.
  set (l3 := set_files _ l2) in E. specialize (H2 l3). rewrite E in H2. simpl in H2, Hk1.
  rewrite H2. simpl. by rewrite Hk1, Hk.
Qed.

(** Replacing the binary of a service is confined.  Whatever a call to
    start a service does, the files it has written are those written before,
    or one more: the program of the command of the service, and the resolved
    directory of that program is none of the system directories, not the
    directory of the Python environment and not that of the built-in
    services. *)
Lemma reflash_confined p l :
  lc_files (call_start p l).2 = lc_files l \/
  exists b command parent dir,
    ps_binary_to_reflash p = Some b /\
    head (split_on " "%char (in_command (ps_initial p))) = Some command /\
    path_parent (trim command) = Some parent /\ le_canonicalize e parent = Ok dir /\
    forbidden_dir dir = false /\
    lc_files (call_start p l).2 = <[trim command := b]> (lc_files l).
Proof.
  destruct (call_start p l) as [r0 l0] eqn:E0. simpl. revert E0. unfold call_start.
  rewrite run_bind. unfold get at 1. destruct (negb (lc_rpc l)); [intros [= _ <-]; by left|].
  rewrite run_bind. pose proof (stop_svc_files (ps_id p) l) as Hk.
  destruct (stop_svc (ps_id p) l) as [[] l1]; [|intros [= _ <-]; by left]. set (i := with_realtime _ _).
  match goal with |- context [(_ ← _; ?k) l1] => set (rest := k) end.
  assert (keeps same_files rest) as Hrest by (unfold rest; frame; by intros ?).
  assert (forall (m : LM unit), (_ ← m; rest) l1 = (r0, l0) -> lc_files l0 = lc_files (m l1).2) as Hm.
  { intros m. rewrite run_bind. destruct (m l1) as [[] l2]; [|by intros [= _ <-]].
    specialize (Hrest l2). intros E. by rewrite E in Hrest. }
  intros ->%Hm. unfold same_files in Hk. simpl in Hk.
  destruct (ps_binary_to_reflash p) as [[|b bs]|]; [left; exact Hk| |left; exact Hk].
  destruct (reflash i (b :: bs) l1) as [r l2] eqn:E. simpl.
  destruct (reflash_files _ _ _ _ _ E) as [->|(c & pa & d & H1 & H2 & H3 & H4 & ->)]; [left; exact Hk|].
  right. exists (b :: bs), c, pa, d. split_and!; try done. by rewrite Hk.
Qed.

(** A refused replacement leaves the service stopped: it is taken out of the
    table before the check. *)
Lemma reflash_refused_stops p l command parent dir :
  lc_rpc l = true -> is_Some (ps_binary_to_reflash p) -> ps_binary_to_reflash p ≠ Some [] ->
  head (split_on " "%char (in_command (ps_initial p))) = Some command ->
  path_parent (trim command) = Some parent -> le_canonicalize e parent = Ok dir ->
  forbidden_dir dir = true ->
  exists l', call_start p l = (Err EInvalidData, l') /\ lc_services l' !! ps_id p = None.
Proof.
  intros Hr [b Hb] Hne Hc Hp Hd Hf. unfold call_start. rewrite run_bind. unfold get at 1. rewrite Hr.
  cbn [negb]. rewrite run_bind. destruct (stop_svc_run (ps_id p) l) as (l1 & -> & Hs & _).
  rewrite Hb in *. destruct b as [|b bs]; [done|]. rewrite run_bind. unfold reflash. rewrite run_bind.
  unfold lift at 1. simpl. rewrite Hc. simpl. rewrite run_bind. unfold lift at 1. rewrite Hp. simpl.
  rewrite run_bind. unfold lift at 1. rewrite Hd, Hf. eexists. split; [done|].
  by rewrite Hs, lookup_delete_eq.
Qed.

(** ** What the calls do to the table *)

Definition same_services l l' : Prop := lc_services l' = lc_services l.
#[local] Instance same_services_preorder : PreOrder same_services.
Proof. split; [by intros l|]. intros x y z. unfold same_services. congruence. Qed.
Lemma fs_call_services : keeps same_services fs_call.
Proof. by intros l. Qed.
Lemma set_files_services f : keeps same_services (modify (fun l => set_files (f l) l)).
Proof. by intros l. Qed.
#[local] Hint Resolve fs_call_services set_files_services : keeps.

Lemma call_stop_services p l : lc_services (call_stop p l).2 = delete (ps_id p) (lc_services l).
Proof. unfold call_stop. by destruct (stop_svc_run (ps_id p) l) as (l' & -> & <- & _). Qed.

Lemma call_stop_and_purge_services p l :
  lc_services (call_stop_and_purge p l).2 = delete (ps_id p) (lc_services l).
Proof.
  unfold call_stop_and_purge. rewrite run_bind.
  destruct (stop_svc_run (ps_id p) l) as (l' & -> & <- & _).
  set (m := if le_exists _ _ then fs_call else mret tt).
  assert (keeps same_services m) as Hm by (unfold m; frame). apply Hm.
Qed.

(** The service a call [start] leaves in the table. *)
Definition started (d : RealtimeConfig) (p : PayloadStartStop Rest) : Service :=
  mkService (with_realtime (override_realtime d (in_realtime (ps_initial p))) (ps_initial p))
    (ps_mem_warn p) Waiting.

Lemma call_start_services p l :
  exists r l', call_start p l = (r, l') /\
  match r with
  | Ok _ => lc_services l' = <[ps_id p := started (lc_realtime l) p]> (lc_services l)
  | Err _ => lc_services l' = lc_services l \/ lc_services l' = delete (ps_id p) (lc_services l)
  end.
Proof.
  unfold call_start. rewrite run_bind. unfold get at 1.
  destruct (negb (lc_rpc l)); [eexists _, l; split; [done|by left]|]. rewrite run_bind.
  destruct (stop_svc_run (ps_id p) l) as (l1 & -> & Hs & _).
  match goal with |- context [(_ ← ?m1; _ ← ?m2; _) l1] =>
    assert (keeps same_services m1) as H1 by (unfold reflash; frame);
    assert (keeps same_services m2) as H2 by frame; specialize (H1 l1);
    rewrite run_bind; destruct (m1 l1) as [[] l2];
      [|eexists _, l2; split; [done|]; right; unfold same_services in H1; simpl in H1; congruence];
    rewrite run_bind; specialize (H2 l2); destruct (m2 l2) as [[] l3]
  end; unfold same_services in *; simpl in *.
  - eexists _, _. split; [done|]. simpl. by rewrite H2, H1, Hs, insert_delete_eq.
  - eexists _, l3. split; [done|]. right. congruence.
Qed.

(** The steps of the tasks and the reports of services add no service. *)
Definition task_op (op : launcher_op) : bool :=
  match op with LcStart _ | LcStop _ | LcPurge _ => false | _ => true end.
Lemma task_op_services op l id :
  task_op op = true -> is_Some (lc_services (launcher_exec op l) !! id) <-> is_Some (lc_services l !! id).
Proof.
  assert (forall svc i0 svc', lc_services l !! i0 = Some svc ->
    is_Some (<[i0 := svc']> (lc_services l) !! id) <-> is_Some (lc_services l !! id)) as Hi.
  { intros svc i0 svc' E. rewrite lookup_insert. case_decide; [subst; rewrite E|done]. done. }
  destruct op as [| | | |sender st|i|i|i]; simpl; try done; intros _.
  - unfold call_shutdown. rewrite run_bind. unfold get at 1. rewrite run_bind.
    destruct (stop_all_procs (map_to_list (lc_services l)) l) as (l' & -> & Hs & _). simpl.
    by rewrite lookup_fmap, fmap_is_Some, Hs.
  - destruct (lc_services l !! sender) as [[? ? []]|] eqn:E; simpl; try done. by eapply Hi.
  - unfold task_spawn. destruct (lc_services l !! i) as [[? ? []]|] eqn:E; simpl; try done. by eapply Hi.
  - unfold task_register. destruct (lc_services l !! i) as [[? ? []]|] eqn:E; simpl; try done. by eapply Hi.
  - unfold task_exit. destruct (lc_services l !! i) as [[? ? []]|] eqn:E; simpl; try done; by eapply Hi.
Qed.

End launcher.

(** ** Examples *)
Module LauncherExamples.
Definition env : LEnv :=
  mkLEnv (fun _ => Ok tt) (fun s => Ok s) (fun _ => true) "/opt/eva4".
Definition no_realtime : RealtimeConfig := mkRealtime None [].
Definition empty : Launcher (Rest := unit) := mkLauncher true no_realtime ∅ ∅ 1 ∅ 0.
Definition payload (id : string) : PayloadStartStop unit :=
  mkPayload id (mkInitial "/opt/eva4/svc/eva-test" None "/opt/eva4/runtime/svc_data/test" no_realtime tt)
    0 None.
Definition ops : list (launcher_op (Rest := unit)) :=
  [LcStart (payload "a"); LcSpawn "a"; LcRegister "a"; LcStatus "a" 1; LcStart (payload "b");
   LcSpawn "b"; LcRegister "b"; LcExit "a"; LcSpawn "a"; LcRegister "a"; LcStop (payload "b")].
Definition final : Launcher := foldl (fun l op => launcher_exec env op l) empty ops.

End LauncherExamples.
