(* ===== verification/SvcMgr.v ===== *)
(** * The service manager (eva/src/svcmgr.rs)

    The manager keeps the parameters of the services in a table, stores them
    in the registry and has the launchers start and stop the services.  The
    model is composed with the model of the launchers: a call of the manager
    runs the handler of the launcher it is addressed to.  A call over the bus
    may be lost before it reaches the launcher or after the launcher has
    processed it, and a call to the registry may fail. *)
From S2P Require Import Prelude Duration EvaCommon Logs Launcher.

(** eva/src/bus.rs:143-151 [is_unix_socket!] *)
Definition is_unix_socket (path : string) : bool :=
  String.prefix "/" path || ends_with path ".sock" || ends_with path ".socket"
  || ends_with path ".ipc".

(** eva/src/lib.rs:31-31 [MEMORY_WARN_DEFAULT] *)
Definition MEMORY_WARN_DEFAULT : Z := 201326592.

(** [eva_common::services::{Timeout, BusConfig}], [eva_common::tools] and the
    version of the program *)
Class SvcExternals := {
  Timeout : Type;
  timeout_offer : Duration -> Timeout -> Timeout;
  timeout_startup : Timeout -> option Duration;
  BusConfig : Type;
  bus_path : BusConfig -> string;
  bus_set_path : string -> BusConfig -> BusConfig;
  bus_offer_timeout : Duration -> BusConfig -> BusConfig;
  busrt_DEFAULT_TIMEOUT : Duration;
  format_path : string -> option string -> option string -> string;
  get_eva_dir : string;
  BUILD : Z;
  VERSION : string;
  EAPI_VERSION : Z;
  (* Initial::data_path: where the service keeps data, for its user *)
  initial_data_path : string -> option string -> option string
}.

Section params.
Context `{Externals, LogLevels, SvcExternals}.
Context (value_to_string : Value -> string).

(** eva/src/svcmgr.rs:592-627 [Params] *)
Record Params := mkParams {
  pa_enabled : bool;
  pa_env : gmap string Value;
  pa_command : string;
  pa_prepare_command : option string;
  pa_timeout : Timeout;
  pa_bus : BusConfig;
  pa_config : option Value;
  pa_workers : Z;
  pa_user : option string;
  pa_react_to_fail : bool;
  pa_mem_warn : option Z;
  pa_launcher : string;
  pa_call_tracing : bool;
  pa_restart_delay : Duration;
  pa_log_level : option string;
  pa_realtime : RealtimeConfig
}.

(** The process-wide settings of the core *)
Record CoreSettings := mkCoreSettings {
  cs_min_log_level : Z;
  cs_fips : bool;
  cs_active : bool
}.

(** [eva_common::services::{Initial, CoreInfo}], the fields the launcher
    passes to the service *)
Record InitRest := mkInitRest {
  ir_id : string;
  ir_system_name : string;
  ir_prepare_command : option string;
  ir_timeout : Timeout;
  ir_core : Z * string * Z * string * Z * bool;
  ir_bus : BusConfig;
  ir_config : option Value;
  ir_workers : Z;
  ir_user : option string;
  ir_react_to_fail : bool;
  ir_fips : bool;
  ir_call_tracing : bool;
  ir_restart_delay : Duration;
  ir_env : gmap string string
}.

(** eva/src/svcmgr.rs:630-685 [Params::to_initial] *)
Definition to_initial (cs : CoreSettings) (p : Params) (id system_name : string)
    (default_timeout : Duration) : Initial InitRest :=
  let dir_eva := get_eva_dir in
  let timeout := timeout_offer default_timeout (pa_timeout p) in
  let bus := bus_offer_timeout busrt_DEFAULT_TIMEOUT (pa_bus p) in
  let bus := if is_unix_socket (bus_path bus)
             then bus_set_path (format_path dir_eva (Some (bus_path bus)) None) bus
             else bus in
  let log_level :=
    match pa_log_level p with
    | Some lvl =>
        if String.eqb lvl "off" then LOG_LEVEL_OFF
        else match level_from_str lvl with Ok l => l | Err _ => cs_min_log_level cs end
    | None => cs_min_log_level cs
    end in
  let data_path := (dir_eva +:+ "/runtime/svc_data/" +:+ id)%string in
  mkInitial (format_path dir_eva (Some (pa_command p)) None)
    (initial_data_path data_path (pa_user p)) data_path (pa_realtime p)
    (mkInitRest id system_name (pa_prepare_command p) timeout
       (BUILD, VERSION, EAPI_VERSION, dir_eva, log_level, cs_active cs) bus (pa_config p)
       (pa_workers p) (pa_user p) (pa_react_to_fail p) (cs_fips cs) (pa_call_tracing p)
       (pa_restart_delay p) (value_to_string <$> pa_env p)).

(** eva/src/svcmgr.rs:686-688 [Params::startup_timeout] *)
Definition startup_timeout (p : Params) : option Duration := timeout_startup (pa_timeout p).

Definition set_mem_warn (m : option Z) (p : Params) : Params :=
  mkParams (pa_enabled p) (pa_env p) (pa_command p) (pa_prepare_command p) (pa_timeout p) (pa_bus p)
    (pa_config p) (pa_workers p) (pa_user p) (pa_react_to_fail p) m (pa_launcher p)
    (pa_call_tracing p) (pa_restart_delay p) (pa_log_level p) (pa_realtime p).
Definition set_enabled (b : bool) (p : Params) : Params :=
  mkParams b (pa_env p) (pa_command p) (pa_prepare_command p) (pa_timeout p) (pa_bus p)
    (pa_config p) (pa_workers p) (pa_user p) (pa_react_to_fail p) (pa_mem_warn p) (pa_launcher p)
    (pa_call_tracing p) (pa_restart_delay p) (pa_log_level p) (pa_realtime p).

(** eva/src/svcmgr.rs:691-699 [Info] *)
Record Info := mkInfo {
  inf_id : string;
  inf_launcher : string;
  inf_status : SvcStatus;
  inf_enabled : bool;
  inf_pid : option positive
}.

(** eva/src/svcmgr.rs:733-757 [Info::from_params] *)
Definition info_from_params (id : string) (status : option ServiceStatus) (launcher : string)
    (enabled : bool) : Info :=
  let '(ss, pid) :=
    match status with
    | Some st => if decide (is_Some (ss_pid st)) then (ss_status st, ss_pid st) else (ss_status st, None)
    | None => if enabled then (Unknown, None) else (Disabled, None)
    end in
  mkInfo id launcher ss enabled pid.
End params.
Arguments Params {_ _}.
Arguments InitRest {_ _}.

(** What becomes of a call over the bus: it does not reach the launcher, the
    answer comes, or the launcher processes it and the answer is too late. *)
Inductive Delivery := Lost (e : Error) | Answered | Late (e : Error).

(** The registry keeps the parameters serialized. *)
Class ParamsCodec `{Externals, SvcExternals} := {
  Stored : Type;
  params_ser : Params -> Stored;
  params_de : Stored -> EResult Params
}.
(** What is serialized is read back, as long as the delay before a restart,
    which is written as a number of seconds, is exact. *)
Class ParamsCodecLaws `{ParamsCodec} : Prop := {
  params_de_ser p : (0 <= pa_restart_delay p < 2 ^ 51)%Z -> params_de (params_ser p) = Ok p
}.

Section manager.
Context `{Externals, LogLevels, SvcExternals, !ParamsCodec}.
Context (value_to_string : Value -> string) (info_sort : list Info -> list Info).

(** The state of the manager, of the registry and of the launchers.
    [mg_services] is the table of eva/src/svcmgr.rs:32-37 [Manager]. *)
Record Mgr := mkMgr {
  mg_services : gmap string Params;
  mg_registry : gmap string Stored;     (* the keys of services *)
  mg_data : gset string;                (* services with data in the registry *)
  mg_cache : gset string;
  mg_launchers : gmap string (Launcher (Rest := InitRest));
  mg_calls : nat                        (* calls made over the bus *)
}.

Definition with_services (m : gmap string Params) (w : Mgr) : Mgr :=
  mkMgr m (mg_registry w) (mg_data w) (mg_cache w) (mg_launchers w) (mg_calls w).
Definition with_registry (m : gmap string Stored) (w : Mgr) : Mgr :=
  mkMgr (mg_services w) m (mg_data w) (mg_cache w) (mg_launchers w) (mg_calls w).
Definition with_data (d c : gset string) (w : Mgr) : Mgr :=
  mkMgr (mg_services w) (mg_registry w) d c (mg_launchers w) (mg_calls w).
Definition with_launcher (n : string) (l : Launcher) (w : Mgr) : Mgr :=
  mkMgr (mg_services w) (mg_registry w) (mg_data w) (mg_cache w) (<[n := l]> (mg_launchers w))
    (mg_calls w).
Definition count_call (w : Mgr) : Mgr :=
  mkMgr (mg_services w) (mg_registry w) (mg_data w) (mg_cache w) (mg_launchers w) (S (mg_calls w)).

Abbreviation SM := (M Mgr).

Record MgrEnv := mkMgrEnv {
  me_delivery : nat -> Delivery;        (* of each call over the bus *)
  me_lenv : string -> LEnv;             (* the file systems of the launchers *)
  me_core : CoreSettings
}.
Variable (e : MgrEnv).

(** A call over the bus, with the effect it has when it is processed. *)
Definition bus_call {A} (f : SM A) : SM A :=
  w ← get;
  _ ← modify count_call;
  match me_delivery e (mg_calls w) with
  | Lost err => raise err
  | Answered => f
  | Late err => _ ← attempt f; raise err
  end.

(** A handler of a launcher. *)
Definition at_launcher {A} (n : string) (f : LEnv -> M Launcher A) : SM A :=
  w ← get;
  match mg_launchers w !! n with
  | None => raise EBusClientNotRegistered
  | Some l =>
      let '(r, l') := f (me_lenv e n) l in
      _ ← modify (with_launcher n l');
      lift r
  end.

Inductive Method := MStart | MStop | MStopAndPurge.
Definition call_method (m : Method) (le : LEnv) (p : PayloadStartStop InitRest) : M Launcher unit :=
  match m with
  | MStart => call_start le p
  | MStop => call_stop p
  | MStopAndPurge => call_stop_and_purge le p
  end.

(** eva/src/svcmgr.rs:48-72 [start_stop_service] *)
Definition start_stop_service (launcher : string) (method : Method) (id : string)
    (initial : Initial InitRest) (mem_warn : Z) (binary_to_reflash : option (list Z)) : SM unit :=
  bus_call (at_launcher launcher (fun le =>
    call_method method le (mkPayload id initial mem_warn binary_to_reflash))).

(** eva/src/svcmgr.rs:74-96 [get_service_status] *)
Definition get_service_status (name launcher : string) : SM ServiceStatus :=
  bus_call (at_launcher launcher (fun _ => l ← get; lift (call_get name l))).

(** eva/src/svcmgr.rs:98-115 [collect_service_info] *)
Definition collect_service_info (launcher : string) (info : gmap string ServiceStatus)
    : SM (gmap string ServiceStatus) :=
  data ← bus_call (at_launcher launcher (fun _ => call_list <$> get));
  mret (data ∪ info).

(** The calls to the registry ([eva_common::registry]) *)
Definition key_set (id : string) (p : Params) : SM unit :=
  bus_call (modify (fun w => with_registry (<[id := params_ser p]> (mg_registry w)) w)).
Definition key_delete (id : string) : SM unit :=
  bus_call (modify (fun w => with_registry (delete id (mg_registry w)) w)).
Definition key_delete_data (id : string) : SM unit :=
  bus_call (modify (fun w => with_data (mg_data w ∖ {[id]}) (mg_cache w) w)).
Definition key_delete_cache (id : string) : SM unit :=
  bus_call (modify (fun w => with_data (mg_data w) (mg_cache w ∖ {[id]}) w)).

(** ** Operations *)

(** One key of the registry (eva/src/svcmgr.rs:141-149) *)
Definition load_entry (nv : string * Stored) : SM unit :=
  params ← lift (params_de nv.2);
  let params := match pa_mem_warn params with
                | None => set_mem_warn (Some MEMORY_WARN_DEFAULT) params
                | Some _ => params
                end in
  modify (fun w => with_services (<[nv.1 := params]> (mg_services w)) w).
(** eva/src/svcmgr.rs:136-151 [Manager::load] *)
Definition load : SM unit :=
  w ← get; for_each load_entry (map_to_list (mg_registry w)).

(** eva/src/svcmgr.rs:162-184 [Manager::get_service_init] *)
Definition get_service_init (id system_name : string) (default_timeout : Duration) (allow_any : bool)
    : SM (Initial InitRest * string * Z) :=
  w ← get;
  match mg_services w !! id with
  | None => raise ENotFound
  | Some c =>
      if pa_enabled c || allow_any
      then mret (to_initial value_to_string (me_core e) c id system_name default_timeout,
                 pa_launcher c, default MEMORY_WARN_DEFAULT (pa_mem_warn c))
      else raise EFailed
  end.

(** eva/src/svcmgr.rs:188-194 [Manager::get_service_launcher] *)
Definition get_service_launcher (id : string) : SM string :=
  w ← get; lift (ok_or (pa_launcher <$> mg_services w !! id) ENotFound).
(** eva/src/svcmgr.rs:198-204 [Manager::is_service_enabled] *)
Definition is_service_enabled (id : string) : SM bool :=
  w ← get; lift (ok_or (pa_enabled <$> mg_services w !! id) ENotFound).
(** eva/src/svcmgr.rs:227-233 [Manager::get_service_params] *)
Definition get_service_params (id : string) : SM Params :=
  w ← get; lift (ok_or (mg_services w !! id) ENotFound).

(** eva/src/svcmgr.rs:237-245 [Manager::is_service_online] *)
Definition is_service_online (id : string) : SM bool :=
  launcher ← get_service_launcher id;
  r ← attempt (get_service_status id launcher);
  mret (match r with Ok status => bool_decide (ss_status status = Online) | Err _ => false end).

(** eva/src/svcmgr.rs:249-255 [Manager::get_service_info] *)
Definition get_service_info (id : string) : SM Info :=
  launcher ← get_service_launcher id;
  enabled ← is_service_enabled id;
  status ← get_service_status id launcher;
  mret (info_from_params id (Some status) launcher enabled).

(** eva/src/svcmgr.rs:259-299 [Manager::list_services] *)
Definition list_services : SM (list Info) :=
  w ← get;
  svc_info ← foldr (fun nc (k : gmap string ServiceStatus -> SM (gmap string ServiceStatus)) info =>
      r ← attempt (collect_service_info (pa_launcher nc.2) info);
      k (match r with Ok info' => info' | Err _ => info end))
    (fun info => mret info) (map_to_list (mg_services w)) ∅;
  w' ← get;
  mret (info_sort ((fun nc =>
    info_from_params nc.1 (svc_info !! nc.1) (pa_launcher nc.2) (pa_enabled nc.2)) <$>
      map_to_list (mg_services w'))).

(** eva/src/svcmgr.rs:308-360 [Manager::start_stop]; the calls of the services
    are made at once, here in the order of the table *)
Definition start_stop (method : Method) (system_name : string) (default_timeout : Duration)
    (launcher : option string) : SM unit :=
  w ← get;
  let srv := (fun ic =>
      (ic.1, to_initial value_to_string (me_core e) ic.2 ic.1 system_name default_timeout,
       pa_launcher ic.2, pa_mem_warn ic.2)) <$>
    filter (fun ic => pa_enabled ic.2 && match launcher with
                                         | Some l => String.eqb l (pa_launcher ic.2)
                                         | None => true
                                         end = true) (map_to_list (mg_services w)) in
  for_each (fun '(id, init, launcher, mem_warn) =>
    log_ef (start_stop_service launcher method id init (default MEMORY_WARN_DEFAULT mem_warn) None)) srv.

(** eva/src/svcmgr.rs:300-303 [Manager::start] *)
Definition mgr_start (system_name : string) (default_timeout : Duration) : SM unit :=
  start_stop MStart system_name default_timeout None.
(** eva/src/svcmgr.rs:304-307 [Manager::stop] *)
Definition mgr_stop (system_name : string) (default_timeout : Duration) : SM unit :=
  start_stop MStop system_name default_timeout None.
(** eva/src/svcmgr.rs:361-369 [Manager::start_by_launcher] *)
Definition start_by_launcher (launcher system_name : string) (default_timeout : Duration) : SM unit :=
  start_stop MStart system_name default_timeout (Some launcher).
(** eva/src/svcmgr.rs:370-378 [Manager::stop_by_launcher] *)
Definition stop_by_launcher (launcher system_name : string) (default_timeout : Duration) : SM unit :=
  start_stop MStop system_name default_timeout (Some launcher).

(** [r.map_err(|_| Error::failed(...))] *)
Definition or_failed {A} (m : SM A) : SM A :=
  r ← attempt m; match r with Ok a => mret a | Err _ => raise EFailed end.

(** eva/src/svcmgr.rs:382-407 [Manager::restart_service] *)
Definition restart_service (id system_name : string) (default_timeout : Duration)
    (binary_to_reflash : option (list Z)) : SM unit :=
  '(init, launcher, mem_warn) ← get_service_init id system_name default_timeout false;
  or_failed (start_stop_service launcher MStart id init mem_warn binary_to_reflash).

(** eva/src/svcmgr.rs:411-435 [Manager::stop_service] *)
Definition stop_service (id system_name : string) (default_timeout : Duration) : SM unit :=
  '(init, launcher, mem_warn) ← get_service_init id system_name default_timeout true;
  or_failed (start_stop_service launcher MStop id init mem_warn None).

(** The warning level of a service that does not set it
    (eva/src/svcmgr.rs:446-450) *)
Definition fill_mem_warn (p : Params) : Params :=
  match pa_mem_warn p with
  | None => set_mem_warn (Some (MEMORY_WARN_DEFAULT * pa_workers p)%Z) p
  | Some _ => p
  end.

(** eva/src/svcmgr.rs:439-465 [Manager::deploy_service] *)
Definition deploy_service (id : string) (params : Params) (system_name : string)
    (default_timeout : Duration) : SM unit :=
  let params := fill_mem_warn params in
  _ ← log_ef (stop_service id system_name default_timeout);
  _ ← key_set id params;
  _ ← modify (fun w => with_services (<[id := params]> (mg_services w)) w);
  if pa_enabled params then restart_service id system_name default_timeout None else mret tt.

(** eva/src/svcmgr.rs:208-223 [Manager::set_service_enabled] *)
Definition set_service_enabled (id : string) (enabled : bool) (system_name : string)
    (timeout : Duration) : SM unit :=
  params ← get_service_params id;
  if Bool.eqb (pa_enabled params) enabled then mret tt
  else deploy_service id (set_enabled enabled params) system_name timeout.

(** eva/src/svcmgr.rs:469-499 [Manager::purge_service] *)
Definition purge_service (id system_name : string) (default_timeout : Duration) : SM unit :=
  r ← attempt (get_service_init id system_name default_timeout true);
  _ ← match r with
      | Ok (initial, launcher, mem_warn) =>
          _ ← start_stop_service launcher MStopAndPurge id initial mem_warn None;
          modify (fun w => with_services (delete id (mg_services w)) w)
      | Err ENotFound => mret tt
      | Err err => raise err
      end;
  _ ← key_delete id;
  _ ← key_delete_data id;
  key_delete_cache id.

(** eva/src/svcmgr.rs:503-527 [Manager::undeploy_service] *)
Definition undeploy_service (id system_name : string) (default_timeout : Duration) : SM unit :=
  '(init, launcher, mem_warn) ← get_service_init id system_name default_timeout true;
  _ ← start_stop_service launcher MStop id init mem_warn None;
  _ ← key_delete id;
  modify (fun w => with_services (delete id (mg_services w)) w).

(** The longest time a service may take to start
    (eva/src/svcmgr.rs:533-545) *)
Definition max_startup (timeout : Duration) (services : gmap string Params) : option Duration :=
  foldl (fun max_timeout sv =>
    if pa_enabled sv.2 then
      let startup := default timeout (startup_timeout sv.2) in
      match max_timeout with
      | Some max => if (max <? startup)%Z then Some startup else Some max
      | None => Some startup
      end
    else max_timeout) None (map_to_list services).

Definition all_started (states : list Info) (services : gmap string Params) : bool :=
  let online := inf_id <$> filter (fun s => inf_status s = Online) states in
  forallb (fun sv => negb (pa_enabled sv.2 && negb (existsb (String.eqb sv.1) online)))
    (map_to_list services).

(** eva/src/svcmgr.rs:531-573 [Manager::wait_all_started]: [rounds] are the
    rounds of the loop, each with the time it starts at and what the rest of
    the system does while it sleeps *)
Fixpoint wait_rounds (wait_until : Duration) (rounds : list (Duration * (Mgr -> Mgr))) : SM unit :=
  match rounds with
  | [] => raise EFailed
  | (now, others) :: rounds =>
      if (now <? wait_until)%Z then
        _ ← modify others;
        states ← list_services;
        w ← get;
        if all_started states (mg_services w) then mret tt else wait_rounds wait_until rounds
      else raise EFailed
  end.
Definition wait_all_started (timeout now : Duration) (rounds : list (Duration * (Mgr -> Mgr))) : SM unit :=
  w ← get;
  match max_startup timeout (mg_services w) with
  | Some max_t => wait_rounds (now + max_t)%Z rounds
  | None => mret tt
  end.

(** ** Facts *)

Implicit Types w : Mgr.

Lemma fill_mem_warn_bound p m :
  (0 <= pa_workers p < 2 ^ 32)%Z -> pa_mem_warn p = None -> pa_mem_warn (fill_mem_warn p) = Some m ->
  (0 <= m < 2 ^ 64)%Z.
Proof. unfold fill_mem_warn, MEMORY_WARN_DEFAULT. intros ? ->. simpl. intros [= <-]. lia. Qed.

Lemma fill_mem_warn_some p : exists m, pa_mem_warn (fill_mem_warn p) = Some m.
Proof. unfold fill_mem_warn. destruct (pa_mem_warn p) eqn:E; eauto. Qed.
Lemma fill_mem_warn_delay p : pa_restart_delay (fill_mem_warn p) = pa_restart_delay p.
Proof. unfold fill_mem_warn. by destruct (pa_mem_warn p). Qed.
Lemma fill_mem_warn_launcher p : pa_launcher (fill_mem_warn p) = pa_launcher p.
Proof. unfold fill_mem_warn. by destruct (pa_mem_warn p). Qed.

Lemma run_bus_call {A} (f : SM A) w :
  bus_call f w = match me_delivery e (mg_calls w) with
                 | Lost err => (Err err, count_call w)
                 | Answered => f (count_call w)
                 | Late err => (Err err, (f (count_call w)).2)
                 end.
Proof.
  unfold bus_call. rewrite run_bind. unfold get at 1. rewrite run_bind. unfold modify.
  destruct (me_delivery e (mg_calls w)); [done|done|].
  rewrite run_bind. unfold attempt. by destruct (f (count_call w)).
Qed.
(** A call over the bus is lost, or it has its effect, with its result or an
    error. *)
Lemma bus_call_cases {A} (f : SM A) w :
  (exists err, bus_call f w = (Err err, count_call w) /\ me_delivery e (mg_calls w) = Lost err) \/
  bus_call f w = f (count_call w) \/
  exists err, bus_call f w = (Err err, (f (count_call w)).2).
Proof. rewrite run_bus_call. destruct (me_delivery e (mg_calls w)); naive_solver. Qed.
Lemma bus_call_ok {A} (f : SM A) w a w' : bus_call f w = (Ok a, w') -> f (count_call w) = (Ok a, w').
Proof. destruct (bus_call_cases f w) as [(?&->&_)|[->|(?&->)]]; done. Qed.

Section keeps_calls.
Context (R : relation Mgr) `{!PreOrder R} (Hcount : forall w, R w (count_call w)).
Lemma keeps_bus_call {A} (f : SM A) : keeps R f -> keeps R (bus_call f).
Proof.
  intros Hf w. specialize (Hf (count_call w)).
  destruct (bus_call_cases f w) as [(?&->&_)|[->|(?&->)]]; [apply Hcount| |];
    by transitivity (count_call w).
Qed.
Lemma keeps_at_launcher {A} n (f : LEnv -> M Launcher A) :
  (forall l w, R w (with_launcher n l w)) -> keeps R (at_launcher n f).
Proof.
  intros Hw w. unfold at_launcher. rewrite run_bind. unfold get at 1.
  destruct (mg_launchers w !! n) as [l|]; [|done]. destruct (f (me_lenv e n) l) as [r l'].
  rewrite run_bind. simpl. apply Hw.
Qed.
End keeps_calls.

(** ** The table and the registry *)

Definition same_tables w w' : Prop :=
  mg_services w' = mg_services w /\ mg_registry w' = mg_registry w.
#[local] Instance same_tables_preorder : PreOrder same_tables.
Proof. split; [by intros w|]. intros x y z [] []. split; congruence. Qed.
Lemma start_stop_service_tables n m id i mw b :
  keeps same_tables (start_stop_service n m id i mw b).
Proof. apply keeps_bus_call; [apply _|done|]. by apply keeps_at_launcher; [apply _|..]. Qed.
Lemma get_service_status_tables name n : keeps same_tables (get_service_status name n).
Proof. apply keeps_bus_call; [apply _|done|]. by apply keeps_at_launcher; [apply _|..]. Qed.
Lemma collect_service_info_tables n i : keeps same_tables (collect_service_info n i).
Proof.
  unfold collect_service_info. frame. apply keeps_bus_call; [apply _|done|]. by apply keeps_at_launcher; [apply _|..].
Qed.
#[local] Hint Resolve start_stop_service_tables get_service_status_tables collect_service_info_tables
  : keeps.

(** What [load] makes of a stored value. *)
Definition load_one (v : Stored) : EResult Params :=
  match params_de v with
  | Ok p => Ok (match pa_mem_warn p with None => set_mem_warn (Some MEMORY_WARN_DEFAULT) p | Some _ => p end)
  | Err err => Err err
  end.

Definition exact_delay (p : Params) : Prop := (0 <= pa_restart_delay p < 2 ^ 51)%Z.

(** The entry of a service in the table is the one that [load] would give. *)
Definition agree w (id : string) : Prop :=
  match mg_services w !! id, mg_registry w !! id with
  | Some p, Some v => load_one v = Ok p /\ exact_delay p
  | None, None => True
  | _, _ => False
  end.

Lemma agree_same w w' id : same_tables w w' -> agree w id -> agree w' id.
Proof. intros [Hs Hr]. unfold agree. by rewrite Hs, Hr. Qed.

(** A step that concerns one service. *)
Definition only (id : string) w w' : Prop :=
  forall id', id' ≠ id ->
    mg_services w' !! id' = mg_services w !! id' /\ mg_registry w' !! id' = mg_registry w !! id'.
#[local] Instance only_preorder id : PreOrder (only id).
Proof.
  split; [by intros w id'|]. intros x y z Hx Hy id' Hn. destruct (Hx id' Hn), (Hy id' Hn).
  split; congruence.
Qed.
Lemma same_only id : subrelation same_tables (only id).
Proof. intros w w' [Hs Hr] id' _. by rewrite Hs, Hr. Qed.
Lemma agree_only id id' w w' : only id w w' -> id' ≠ id -> agree w id' -> agree w' id'.
Proof. intros Ho Hn. destruct (Ho id' Hn) as [Hs Hr]. unfold agree. by rewrite Hs, Hr. Qed.

Lemma key_set_only id p : keeps (only id) (key_set id p).
Proof.
  apply keeps_bus_call; [apply _|done|]. intros w id' Hn. simpl. by rewrite lookup_insert_ne.
Qed.
Lemma key_delete_only id : keeps (only id) (key_delete id).
Proof.
  apply keeps_bus_call; [apply _|done|]. intros w id' Hn. simpl. by rewrite lookup_delete_ne.
Qed.
Lemma insert_only id p :
  keeps (only id) (modify (fun w => with_services (<[id := p]> (mg_services w)) w)).
Proof. intros w id' Hn. simpl. by rewrite lookup_insert_ne. Qed.
Lemma delete_only id :
  keeps (only id) (modify (fun w => with_services (delete id (mg_services w)) w)).
Proof. intros w id' Hn. simpl. by rewrite lookup_delete_ne. Qed.
Lemma key_delete_data_same id : keeps same_tables (key_delete_data id).
Proof. by apply keeps_bus_call; [apply _|..]. Qed.
Lemma key_delete_cache_same id : keeps same_tables (key_delete_cache id).
Proof. by apply keeps_bus_call; [apply _|..]. Qed.

Lemma get_service_init_state id sn t any w :
  exists r, get_service_init id sn t any w = (r, w) /\
    match r with
    | Ok (i, n, mw) => exists p, mg_services w !! id = Some p /\ pa_launcher p = n
    | Err ENotFound => mg_services w !! id = None
    | Err err => err = EFailed /\ any = false
    end.
Proof.
  unfold get_service_init. rewrite run_bind. unfold get at 1.
  destruct (mg_services w !! id) as [p|]; [|by eexists].
  destruct any; [rewrite orb_true_r|rewrite orb_false_r]; [eexists; split; [done|]; by exists p|].
  destruct (pa_enabled p); eexists; (split; [done|]); [by exists p|done].
Qed.
Lemma get_service_init_tables id sn t any : keeps same_tables (get_service_init id sn t any).
Proof. intros w. by destruct (get_service_init_state id sn t any w) as (r & -> & _). Qed.
#[local] Hint Resolve key_delete_data_same key_delete_cache_same get_service_init_tables : keeps.

Lemma restart_service_tables id sn t b : keeps same_tables (restart_service id sn t b).
Proof. unfold restart_service, or_failed. frame. Qed.
Lemma stop_service_tables id sn t : keeps same_tables (stop_service id sn t).
Proof. unfold stop_service, or_failed. frame. Qed.
Lemma start_stop_tables m sn t n : keeps same_tables (start_stop m sn t n).
Proof. unfold start_stop. frame. Qed.
Lemma list_services_tables : keeps same_tables list_services.
Proof.
  unfold list_services. apply keeps_bind; [frame|]. intros w0.
  apply keeps_bind; [|intros ?; frame]. generalize (∅ : gmap string ServiceStatus).
  induction (map_to_list (mg_services w0)) as [|nc l IH]; intros info; simpl; frame; apply IH.
Qed.
#[local] Hint Resolve restart_service_tables stop_service_tables start_stop_tables
  list_services_tables : keeps.

Ltac only_frame :=
  repeat first
    [ solve [eauto 3 using key_set_only, key_delete_only, insert_only, delete_only with nocore]
    | solve [apply (keeps_sub same_tables); [apply same_only|frame]]
    | frame_step ].
Lemma deploy_only id p sn t : keeps (only id) (deploy_service id p sn t).
Proof. unfold deploy_service. only_frame. Qed.
Lemma undeploy_only id sn t : keeps (only id) (undeploy_service id sn t).
Proof. unfold undeploy_service. only_frame. Qed.
Lemma purge_only id sn t : keeps (only id) (purge_service id sn t).
Proof. unfold purge_service. only_frame. Qed.
Lemma set_enabled_only id b sn t : keeps (only id) (set_service_enabled id b sn t).
Proof.
  unfold set_service_enabled, get_service_params. only_frame. apply deploy_only.
Qed.

Lemma same_run {A} (m : SM A) w r w' : keeps same_tables m -> m w = (r, w') -> same_tables w w'.
Proof. intros Hk E. specialize (Hk w). by rewrite E in Hk. Qed.

Lemma key_set_ok id p w a w' :
  key_set id p w = (Ok a, w') ->
  mg_services w' = mg_services w /\ mg_registry w' = <[id := params_ser p]> (mg_registry w) /\
  mg_launchers w' = mg_launchers w.
Proof. intros E%bus_call_ok. by injection E as <- <-. Qed.
Lemma key_delete_ok id w a w' :
  key_delete id w = (Ok a, w') ->
  mg_services w' = mg_services w /\ mg_registry w' = delete id (mg_registry w).
Proof. intros E%bus_call_ok. by injection E as <- <-. Qed.

(** A deployment that succeeds has stored the parameters; one that fails after
    that has failed to start the service. *)
Lemma deploy_service_ok id p sn t w w' :
  deploy_service id p sn t w = (Ok tt, w') ->
  mg_services w' !! id = Some (fill_mem_warn p) /\
  mg_registry w' !! id = Some (params_ser (fill_mem_warn p)).
Proof.
  unfold deploy_service. rewrite run_bind. unfold log_ef. rewrite run_bind.
  destruct (key_set id _ _) as [[[]|] w1] eqn:E; [|done]. apply key_set_ok in E as (_ & Hr & _).
  rewrite run_bind. unfold modify. set (w2 := with_services _ w1).
  assert (forall w3, same_tables w2 w3 -> mg_services w3 !! id = Some (fill_mem_warn p) /\
    mg_registry w3 !! id = Some (params_ser (fill_mem_warn p))) as Hx.
  { intros w3 [-> ->]. simpl. by rewrite Hr, !lookup_insert_eq. }
  destruct (pa_enabled _); intros E; apply Hx; [|by injection E as <-].
  by eapply same_run; [apply restart_service_tables|].
Qed.

Lemma undeploy_service_ok id sn t w w' :
  undeploy_service id sn t w = (Ok tt, w') ->
  mg_services w' !! id = None /\ mg_registry w' !! id = None.
Proof.
  unfold undeploy_service. rewrite run_bind.
  destruct (get_service_init_state id sn t true w) as ([[[i n] mw]|] & -> & _); [|done].
  rewrite run_bind. destruct (start_stop_service _ _ _ _ _ _ w) as [[]  w1]; [|done].
  rewrite run_bind. destruct (key_delete id w1) as [[] w2] eqn:E; [|done].
  apply key_delete_ok in E as [_ Hr]. intros [= <-]. simpl. by rewrite Hr, !lookup_delete_eq.
Qed.

Lemma purge_service_ok id sn t w w' :
  purge_service id sn t w = (Ok tt, w') ->
  mg_services w' !! id = None /\ mg_registry w' !! id = None.
Proof.
  unfold purge_service. rewrite run_bind. unfold attempt at 1.
  destruct (get_service_init_state id sn t true w) as (r & -> & Hr). simpl. rewrite run_bind.
  match goal with |- context [match ?m w with _ => _ end] => destruct (m w) as [[] w1] eqn:E end; [|done].
  assert (mg_services w1 !! id = None) as Hn.
  { destruct r as [[[i n] mw]|[]]; try done; [|by injection E as <- <-].
    rewrite run_bind in E. destruct (start_stop_service _ _ _ _ _ _ w) as [[] w2]; [|done].
    injection E as <- <-. simpl. by rewrite lookup_delete_eq. }
  rewrite run_bind. destruct (key_delete id w1) as [[] w2] eqn:Ed; [|done].
  apply key_delete_ok in Ed as [Hs Hg]. intros E2.
  assert (same_tables w2 w') as [-> ->]
    by (eapply (same_run (_ ← key_delete_data id; key_delete_cache id)); [frame|done]).
  by rewrite Hs, Hn, Hg, lookup_delete_eq.
Qed.

(** ** Sequences of operations *)

Inductive mgr_op :=
  | OpDeploy (id : string) (p : Params)
  | OpUndeploy (id : string)
  | OpPurge (id : string)
  | OpEnable (id : string) (b : bool)
  | OpRestart (id : string) (binary : option (list Z))
  | OpStop (id : string)
  | OpStartAll (launcher : option string)
  | OpStopAll (launcher : option string)
  | OpList
  | OpTask (launcher : string) (op : launcher_op (Rest := InitRest)).  (* a step of a launcher *)

Definition mgr_exec (sn : string) (t : Duration) (op : mgr_op) : SM unit :=
  match op with
  | OpDeploy id p => deploy_service id p sn t
  | OpUndeploy id => undeploy_service id sn t
  | OpPurge id => purge_service id sn t
  | OpEnable id b => set_service_enabled id b sn t
  | OpRestart id b => restart_service id sn t b
  | OpStop id => stop_service id sn t
  | OpStartAll None => mgr_start sn t
  | OpStartAll (Some n) => start_by_launcher n sn t
  | OpStopAll None => mgr_stop sn t
  | OpStopAll (Some n) => stop_by_launcher n sn t
  | OpList => (fun _ => tt) <$> list_services
  | OpTask n op => modify (fun w =>
      match mg_launchers w !! n with
      | Some l => with_launcher n (launcher_exec (me_lenv e n) op l) w
      | None => w
      end)
  end.

Fixpoint mgr_run (sn : string) (t : Duration) (ops : list mgr_op) w : list (EResult unit) * Mgr :=
  match ops with
  | [] => ([], w)
  | op :: ops => let '(r, w1) := mgr_exec sn t op w in
                 let '(rs, w2) := mgr_run sn t ops w1 in (r :: rs, w2)
  end.

(** The service whose entry an operation changes. *)
Definition op_target (op : mgr_op) : option string :=
  match op with
  | OpDeploy id _ | OpUndeploy id | OpPurge id | OpEnable id _ => Some id
  | _ => None
  end.
Definition op_exact (op : mgr_op) : Prop :=
  match op with OpDeploy _ p => exact_delay p | _ => True end.

(** The services whose last change did not succeed. *)
Definition doubtful (op : mgr_op) (r : EResult unit) (d : gset string) : gset string :=
  match op_target op with
  | None => d
  | Some id =>
      match r, op with
      | Err _, _ => {[id]} ∪ d
      | Ok _, OpEnable _ _ => d
      | Ok _, _ => d ∖ {[id]}
      end
  end.
Fixpoint doubtful_run (ops : list mgr_op) (rs : list (EResult unit)) (d : gset string) : gset string :=
  match ops, rs with
  | op :: ops, r :: rs => doubtful_run ops rs (doubtful op r d)
  | _, _ => d
  end.

Context `{!ParamsCodecLaws}.

Lemma deploy_agrees id p sn t w w' :
  exact_delay p -> deploy_service id p sn t w = (Ok tt, w') -> agree w' id.
Proof.
  intros Hp [Hs Hr]%deploy_service_ok. unfold agree, load_one. rewrite Hs, Hr.
  assert (exact_delay (fill_mem_warn p)) as Hd by (unfold exact_delay; by rewrite fill_mem_warn_delay).
  rewrite params_de_ser by done. destruct (fill_mem_warn_some p) as [m ->]. done.
Qed.

Lemma mgr_exec_tables sn t op : op_target op = None -> keeps same_tables (mgr_exec sn t op).
Proof.
  destruct op as [| | | | | |[]|[]| |n f]; intros ?; simpl; try done;
    unfold mgr_start, start_by_launcher, mgr_stop, stop_by_launcher; frame.
  intros w. simpl. by destruct (mg_launchers w !! n).
Qed.

Lemma mgr_exec_only sn t op id : op_target op = Some id -> keeps (only id) (mgr_exec sn t op).
Proof.
  destruct op; intros [= ->]; simpl; [apply deploy_only|apply undeploy_only|apply purge_only|
    apply set_enabled_only].
Qed.

Lemma mgr_exec_agree sn t op w r w' :
  op_exact op -> mgr_exec sn t op w = (r, w') ->
  forall d, (forall id, id ∉ d -> agree w id) -> forall id, id ∉ doubtful op r d -> agree w' id.
Proof.
  intros Hx E d Hd id. unfold doubtful. destruct (op_target op) as [tid|] eqn:Et.
  2: { intros ?. eapply agree_same; [|by apply Hd]. by eapply same_run; [apply mgr_exec_tables|]. }
  destruct (decide (id = tid)) as [->|Hn].
  2: { intros Hnot. eapply (agree_only tid); [|done|apply Hd].
       - pose proof (mgr_exec_only sn t op tid Et w) as Ho. by rewrite E in Ho.
       - destruct r, op; set_solver. }
  destruct r as [[]|]; [|set_solver].
  assert (mg_services w' !! tid = None /\ mg_registry w' !! tid = None -> agree w' tid) as Hnone
    by (intros [Hs Hr]; unfold agree; by rewrite Hs, Hr).
  destruct op as [id p|id|id|id b| | | | | |]; simplify_eq/=; intros Hnot.
  - by eapply deploy_agrees.
  - by apply Hnone, (undeploy_service_ok _ sn t w).
  - by apply Hnone, (purge_service_ok _ sn t w).
  - specialize (Hd _ Hnot). revert E. unfold set_service_enabled, get_service_params. rewrite run_bind.
    rewrite run_bind. unfold get at 1. unfold lift. unfold agree in Hd.
    destruct (mg_services w !! tid) as [p|] eqn:Ep; [|done]. simpl.
    destruct (Bool.eqb _ _); [intros [= <-]; unfold agree; by rewrite Ep|].
    apply deploy_agrees. by destruct (mg_registry w !! tid) as [v|]; [destruct Hd|].
Qed.

Lemma mgr_run_agree sn t ops w rs w' d :
  Forall op_exact ops -> mgr_run sn t ops w = (rs, w') ->
  (forall id, id ∉ d -> agree w id) -> forall id, id ∉ doubtful_run ops rs d -> agree w' id.
Proof.
  revert w rs d. induction ops as [|op ops IH]; simpl; intros w rs d Hx E Hd.
  { by injection E as <- <-. }
  destruct (mgr_exec sn t op w) as [r w1] eqn:E1. destruct (mgr_run sn t ops w1) as [rs2 w2] eqn:E2.
  injection E as <- <-. inversion Hx; subst. eapply IH; [done|exact E2|]. by eapply mgr_exec_agree.
Qed.

(** The manager starts again: its table is empty and is loaded. *)
Definition restarted w : Mgr := with_services ∅ w.

Lemma load_entries (l : list (string * Stored)) w (t : gmap string Params) :
  NoDup l.*1 -> (forall id v, (id, v) ∈ l -> exists p, load_one v = Ok p /\ t !! id = Some p) ->
  exists w', for_each load_entry l w = (Ok tt, w') /\
    w' = with_services (mg_services w') w /\
    forall id, mg_services w' !! id = if decide (id ∈ l.*1) then t !! id else mg_services w !! id.
Proof.
  revert w. induction l as [|[id v] l IH]; intros w Hnd Hl; csimpl.
  { exists w. split_and!; [done|by destruct w|done]. }
  apply NoDup_cons in Hnd as [Hni Hnd]. destruct (Hl id v) as (p & Hp & Ht); [by left|].
  unfold load_one in Hp. rewrite run_bind. unfold load_entry at 1. rewrite run_bind. unfold lift at 1. simpl.
  destruct (params_de v) as [p0|]; [|done]. injection Hp as Hp. simpl. rewrite Hp.
  destruct (IH (with_services (<[id := p]> (mg_services w)) w) Hnd) as (w' & E & Hw & Hs).
  { intros id' v' Hin. apply Hl. by right. }
  exists w'. split_and!; [done|by rewrite Hw|]. intros id'. rewrite Hs. simpl.
  rewrite lookup_insert. repeat case_decide; set_solver.
Qed.

Lemma load_restores w : (forall id, agree w id) -> load (restarted w) = (Ok tt, w).
Proof.
  intros Ha. unfold load. rewrite run_bind. unfold get at 1. simpl.
  destruct (load_entries (map_to_list (mg_registry w)) (restarted w) (mg_services w))
    as (w' & -> & Hw & Hs).
  { apply NoDup_fst_map_to_list. }
  { intros id v Hin%elem_of_map_to_list. specialize (Ha id). unfold agree in Ha. rewrite Hin in Ha.
    destruct (mg_services w !! id) as [p|]; [|done]. exists p. by destruct Ha. }
  f_equal. rewrite Hw. destruct w as [sv rg da ca la ca']. unfold restarted, with_services. simpl in *.
  f_equal. apply map_eq. intros id. rewrite Hs. case_decide as Hd; [done|].
  rewrite lookup_empty. specialize (Ha id). unfold agree in Ha. simpl in Ha.
  destruct (rg !! id) as [v|] eqn:Er; [|by destruct (sv !! id)]. destruct Hd.
  apply list_elem_of_fmap. exists (id, v). split; [done|]. by apply elem_of_map_to_list.
Qed.

(** C10: The services survive a restart of the node.  After any sequence of
    deployments, removals, purges and other operations of the service
    manager, with any losses on the bus and failures of the launchers, if for
    every service the last change of it was not refused, then a manager that
    starts again with the registry as it is loads exactly the table the
    manager had, the warning levels included. *)
Theorem services_survive_restart sn t ops w rs w' :
  (forall id, agree w id) -> Forall op_exact ops -> mgr_run sn t ops w = (rs, w') ->
  doubtful_run ops rs ∅ = ∅ ->
  load (restarted w') = (Ok tt, w').
Proof.
  intros Ha Hx E Hd. apply load_restores. intros id.
  apply (mgr_run_agree sn t ops w rs w' ∅); [done|done|intros; apply Ha|set_solver].
Qed.

(** ** The services and the launchers *)

Definition at_node w (n id : string) : Prop :=
  exists l, mg_launchers w !! n = Some l /\ is_Some (lc_services l !! id).

(** A service is only with the launcher its parameters name. *)
Definition placed w : Prop :=
  forall n id, at_node w n id -> exists p, mg_services w !! id = Some p /\ pa_launcher p = n.

Lemma placed_same w w' :
  mg_launchers w' = mg_launchers w -> mg_services w' = mg_services w -> placed w -> placed w'.
Proof. intros Hl Hs. unfold placed, at_node. by rewrite Hl, Hs. Qed.

Lemma call_method_services m le p l :
  forall id, is_Some (lc_services (call_method m le p l).2 !! id) ->
    (m = MStart /\ id = ps_id p) \/ is_Some (lc_services l !! id) /\ (m = MStart \/ id ≠ ps_id p).
Proof.
  intros id. destruct m; simpl.
  - destruct (call_start_services le p l) as ([] & l' & -> & Hs); simpl.
    + rewrite Hs, lookup_insert. case_decide; naive_solver.
    + destruct Hs as [->| ->]; [naive_solver|]. rewrite lookup_delete_is_Some. naive_solver.
  - rewrite call_stop_services, lookup_delete_is_Some. naive_solver.
  - rewrite call_stop_and_purge_services, lookup_delete_is_Some. naive_solver.
Qed.

Lemma run_at_launcher {A} n (f : LEnv -> M Launcher A) w :
  at_launcher n f w = match mg_launchers w !! n with
                      | None => (Err EBusClientNotRegistered, w)
                      | Some l => ((f (me_lenv e n) l).1, with_launcher n (f (me_lenv e n) l).2 w)
                      end.
Proof.
  unfold at_launcher. rewrite run_bind. unfold get at 1. destruct (mg_launchers w !! n); [|done].
  by destruct (f _ _) as [[] l'].
Qed.

(** A call of the manager changes the launcher it is made to, and there only
    the service it is about. *)
Lemma start_stop_service_nodes n m id i mw b w n' id' :
  at_node (start_stop_service n m id i mw b w).2 n' id' ->
  at_node w n' id' \/ m = MStart /\ n' = n /\ id' = id.
Proof.
  unfold start_stop_service. set (f := at_launcher n _).
  assert (at_node (f (count_call w)).2 n' id' -> at_node w n' id' \/ m = MStart /\ n' = n /\ id' = id)
    as Hf.
  { unfold f. rewrite run_at_launcher. simpl. unfold at_node.
    destruct (mg_launchers w !! n) as [l|] eqn:El; [|by left]. simpl.
    intros (l' & Hl & Hid). rewrite lookup_insert in Hl. case_decide; [|left; eauto]. simplify_eq.
    apply call_method_services in Hid. simpl in Hid. naive_solver. }
  destruct (bus_call_cases f w) as [(?&->&_)|[->|(?&->)]]; [by left|done|done].
Qed.

(** A call to stop a service that is not lost leaves it out of the launcher. *)
Lemma stop_call_removes n m id i mw b w :
  m ≠ MStart -> (forall err, me_delivery e (mg_calls w) ≠ Lost err) ->
  ~ at_node (start_stop_service n m id i mw b w).2 n id.
Proof.
  intros Hm Hd. unfold start_stop_service. set (f := at_launcher n _).
  assert (~ at_node (f (count_call w)).2 n id) as Hf.
  { unfold f. rewrite run_at_launcher. simpl. unfold at_node.
    destruct (mg_launchers w !! n) as [l|] eqn:El; simpl; [|rewrite El; by intros (?&?&_)].
    intros (l' & Hl & Hid). rewrite lookup_insert_eq in Hl. simplify_eq.
    apply call_method_services in Hid. simpl in Hid. naive_solver. }
  destruct (bus_call_cases f w) as [(?&_&Hl)|[->|(?&->)]]; [by apply Hd in Hl|done|done].
Qed.

Lemma start_stop_placed n m id i mw b w p :
  mg_services w !! id = Some p -> pa_launcher p = n -> placed w ->
  placed (start_stop_service n m id i mw b w).2.
Proof.
  intros Hp Hn Hw n' id' [Hat|(_ & -> & ->)]%start_stop_service_nodes;
    destruct (start_stop_service_tables n m id i mw b w) as [-> _]; [by apply Hw|eauto].
Qed.

Lemma run_or_failed {A} (m : SM A) w : (or_failed m w).2 = (m w).2.
Proof. unfold or_failed. rewrite run_bind. unfold attempt. by destruct (m w) as [[] ?]. Qed.

Lemma restart_placed id sn t b w : placed w -> placed (restart_service id sn t b w).2.
Proof.
  intros Hw. unfold restart_service. rewrite run_bind.
  destruct (get_service_init_state id sn t false w) as ([[[i n] mw]|] & -> & Hr); [|done].
  destruct Hr as (p & Hp & Hn). rewrite run_or_failed. by eapply start_stop_placed.
Qed.

Lemma stop_placed id sn t w : placed w -> placed (stop_service id sn t w).2.
Proof.
  intros Hw. unfold stop_service. rewrite run_bind.
  destruct (get_service_init_state id sn t true w) as ([[[i n] mw]|] & -> & Hr); [|done].
  destruct Hr as (p & Hp & Hn). rewrite run_or_failed. by eapply start_stop_placed.
Qed.

(** After a stop that is not lost no launcher has the service. *)
Lemma stop_service_removes id sn t w n :
  placed w -> (forall err, me_delivery e (mg_calls w) ≠ Lost err) ->
  ~ at_node (stop_service id sn t w).2 n id.
Proof.
  intros Hw Hd. unfold stop_service. rewrite run_bind.
  destruct (get_service_init_state id sn t true w) as (r & -> & Hr).
  assert (mg_services w !! id = None -> ~ at_node w n id) as Hnone.
  { intros E (p & Hp & _)%Hw. congruence. }
  destruct r as [[[i n'] mw]|err].
  - destruct Hr as (p & Hp & Hn). rewrite run_or_failed. destruct (decide (n = n')) as [->|Hne].
    + by apply stop_call_removes.
    + intros [(p' & Hp' & Hn')%Hw|(_ & ? & _)]%start_stop_service_nodes; [|done]. congruence.
  - destruct err; try (by destruct Hr); apply Hnone, Hr.
Qed.

(** The stop of a deployment that moves a service reaches its launcher. *)
Definition move_delivered w (op : mgr_op) : Prop :=
  match op with
  | OpDeploy id p =>
      (forall err, me_delivery e (mg_calls w) ≠ Lost err) \/
      (forall p0, mg_services w !! id = Some p0 -> pa_launcher p0 = pa_launcher p)
  | OpTask _ op => task_op op = true
  | _ => True
  end.

Lemma deploy_placed id p sn t w :
  (forall err, me_delivery e (mg_calls w) ≠ Lost err) \/
  (forall p0, mg_services w !! id = Some p0 -> pa_launcher p0 = pa_launcher p) ->
  placed w -> placed (deploy_service id p sn t w).2.
Proof.
  intros Hd Hw. unfold deploy_service. rewrite run_bind. unfold log_ef.
  pose proof (stop_placed id sn t w Hw) as H1'. pose proof (stop_service_tables id sn t w) as [Ht _].
  assert (forall n, at_node (stop_service id sn t w).2 n id -> n = pa_launcher p) as Hat.
  { intros n Hn. destruct Hd as [Hd|Hd]; [by apply stop_service_removes in Hn|].
    apply H1' in Hn as (p0 & Hp0 & <-). rewrite Ht in Hp0. by apply Hd. }
  destruct (stop_service id sn t w) as [r1 w1]. simpl in *. rewrite run_bind.
  assert (mg_launchers (key_set id (fill_mem_warn p) w1).2 = mg_launchers w1 /\
          mg_services (key_set id (fill_mem_warn p) w1).2 = mg_services w1) as [Hl Hs].
  { unfold key_set. set (f := modify _). by destruct (bus_call_cases f w1) as [(?&->&_)|[->|(?&->)]]. }
  destruct (key_set _ _ w1) as [[] w2]; simpl in *; [|by eapply placed_same].
  rewrite run_bind. unfold modify. set (w3 := with_services _ w2).
  assert (placed w3) as Hw3.
  { intros n id' Hn. unfold w3 in Hn. unfold at_node in Hn. simpl in Hn. rewrite Hl in Hn.
    simpl. rewrite Hs. destruct (decide (id = id')) as [<-|Hne].
    - rewrite lookup_insert_eq. exists (fill_mem_warn p). split; [done|].
      rewrite fill_mem_warn_launcher. symmetry. by apply Hat.
    - rewrite lookup_insert_ne by done. by apply H1'. }
  destruct (pa_enabled _); [by apply restart_placed|done].
Qed.

(** A stop that succeeds, and the service is taken out of the table. *)
Lemma stopped_placed n m id i mw b p w w' :
  m ≠ MStart -> mg_services w !! id = Some p -> pa_launcher p = n -> placed w ->
  start_stop_service n m id i mw b w = (Ok tt, w') ->
  placed w' /\ placed (with_services (delete id (mg_services w')) w').
Proof.
  intros Hm Hp Hn Hw E. pose proof (start_stop_placed n m id i mw b w p Hp Hn Hw) as Hw'.
  assert (forall err, me_delivery e (mg_calls w) ≠ Lost err) as Hd.
  { intros err Hl. unfold start_stop_service in E. by rewrite run_bus_call, Hl in E. }
  pose proof (stop_call_removes n m id i mw b w Hm Hd) as Hr. rewrite E in Hw', Hr. simpl in *.
  split; [done|]. intros n' id' Hat. simpl. change (at_node w' n' id') in Hat.
  destruct (Hw' _ _ Hat) as (p' & Hp' & Hn'). exists p'. split; [|done].
  rewrite lookup_delete_ne; [done|]. intros <-.
  pose proof (start_stop_service_tables n m id i mw b w) as [Ht _]. rewrite E in Ht. simpl in Ht.
  rewrite Ht in Hp'. by simplify_eq.
Qed.

Lemma key_delete_placed id : keeps (fun w w' => mg_launchers w' = mg_launchers w /\
  mg_services w' = mg_services w) (key_delete id).
Proof.
  intros w. unfold key_delete. set (f := modify _).
  by destruct (bus_call_cases f w) as [(?&->&_)|[->|(?&->)]].
Qed.
Lemma purge_data_placed id : keeps (fun w w' => mg_launchers w' = mg_launchers w /\
  mg_services w' = mg_services w) (_ ← key_delete id; _ ← key_delete_data id; key_delete_cache id).
Proof.
  set (R := fun w w' => _). assert (PreOrder R).
  { split; [by intros w|]. intros x y z [] []. split; congruence. }
  repeat (apply keeps_bind; [|intros _]); by apply keeps_bus_call.
Qed.

Lemma undeploy_placed id sn t w : placed w -> placed (undeploy_service id sn t w).2.
Proof.
  intros Hw. unfold undeploy_service. rewrite run_bind.
  destruct (get_service_init_state id sn t true w) as ([[[i n] mw]|] & -> & Hr); [|done].
  destruct Hr as (p & Hp & Hn). rewrite run_bind.
  pose proof (start_stop_placed n MStop id i mw None w p Hp Hn Hw) as Hw'.
  destruct (start_stop_service _ _ _ _ _ _ w) as [[[]|] w1] eqn:E; [|done].
  destruct (stopped_placed n MStop id i mw None p w w1) as [_ Hdel]; [done..|].
  rewrite run_bind. destruct (key_delete_placed id w1) as [Hl Hs].
  destruct (key_delete id w1) as [[] w2]; simpl in *; [|by apply (placed_same w1)].
  eapply placed_same; [| |exact Hdel]; simpl; [done|by rewrite Hs].
Qed.

Lemma purge_placed id sn t w : placed w -> placed (purge_service id sn t w).2.
Proof.
  intros Hw. unfold purge_service. rewrite run_bind. unfold attempt at 1.
  destruct (get_service_init_state id sn t true w) as (r & -> & Hr). simpl. rewrite run_bind.
  match goal with |- context [match ?m w with _ => _ end] =>
    assert (placed (m w).2) as Hm; [|destruct (m w) as [[] w1]; [|done]] end.
  - destruct r as [[[i n] mw]|[]]; try done. destruct Hr as (p & Hp & Hn). rewrite run_bind.
    pose proof (start_stop_placed n MStopAndPurge id i mw None w p Hp Hn Hw) as Hw'.
    destruct (start_stop_service _ _ _ _ _ _ w) as [[[]|] w1] eqn:E; [|done].
    by destruct (stopped_placed n MStopAndPurge id i mw None p w w1) as [_ ?].
  - simpl in Hm. destruct (purge_data_placed id w1) as [Hl Hs]. by eapply placed_same.
Qed.

Lemma set_enabled_placed id b sn t w : placed w -> placed (set_service_enabled id b sn t w).2.
Proof.
  intros Hw. unfold set_service_enabled, get_service_params. rewrite run_bind, run_bind.
  unfold get at 1. unfold lift. destruct (mg_services w !! id) as [p|] eqn:E; [|done]. simpl.
  destruct (Bool.eqb _ _); [done|]. apply deploy_placed; [|done]. right. rewrite E. by intros p0 [= <-].
Qed.

Lemma start_stop_all_placed m sn t n w : placed w -> placed (start_stop m sn t n w).2.
Proof.
  intros Hw. unfold start_stop. rewrite run_bind. unfold get at 1.
  match goal with |- context [for_each ?b ?l w] => set (body := b); set (srv := l) end.
  assert (forall x, x ∈ srv -> exists p, mg_services w !! x.1.1.1 = Some p /\ pa_launcher p = x.1.2) as Hsrv.
  { intros x ([id p] & -> & [_ Hin]%list_elem_of_filter)%list_elem_of_fmap.
    exists p. split; [|done]. by apply elem_of_map_to_list. }
  assert (forall l w1, (forall x, x ∈ l -> x ∈ srv) -> mg_services w1 = mg_services w -> placed w1 ->
    placed (for_each body l w1).2) as Hl; [|by apply Hl].
  induction l as [|[[[id i] n0] mw] l IH]; intros w1 Hin Hs Hp; [done|]. cbn [for_each].
  rewrite run_bind. unfold body at 1, log_ef.
  destruct (Hsrv (id, i, n0, mw)) as (p & Hid & Hn); [apply Hin; by left|]. simpl in Hid, Hn.
  apply IH; [intros; apply Hin; by right| |].
  - destruct (start_stop_service_tables n0 m id i (default MEMORY_WARN_DEFAULT mw) None w1) as [-> _].
    done.
  - eapply start_stop_placed; [by rewrite Hs|done|done].
Qed.

(** What only asks the launchers. *)
Definition same_placed w w' : Prop := placed w -> placed w'.
#[local] Instance same_placed_preorder : PreOrder same_placed.
Proof. split; [by intros w Hw|]. intros x y z. unfold same_placed. auto. Qed.
Lemma list_services_placed : keeps same_placed list_services.
Proof.
  unfold list_services. apply keeps_bind; [frame|]. intros w0. apply keeps_bind; [|intros ?; frame].
  generalize (∅ : gmap string ServiceStatus).
  induction (map_to_list (mg_services w0)) as [|nc l IH]; intros info; simpl; frame; try apply IH.
  unfold collect_service_info. frame. apply keeps_bus_call; [by apply _|by intros ??|].
  intros w Hw. rewrite run_at_launcher. destruct (mg_launchers w !! _) as [l0|] eqn:E; [|done].
  eapply placed_same; [| |exact Hw]; simpl; [by apply insert_id|done].
Qed.

Lemma mgr_exec_placed sn t op w : move_delivered w op -> placed w -> placed (mgr_exec sn t op w).2.
Proof.
  destruct op as [id p|id|id|id b|id b|id|[n|]|[n|]| |n op]; simpl; intros Hd Hw.
  - by apply deploy_placed.
  - by apply undeploy_placed.
  - by apply purge_placed.
  - by apply set_enabled_placed.
  - by apply restart_placed.
  - by apply stop_placed.
  - by apply start_stop_all_placed.
  - by apply start_stop_all_placed.
  - by apply start_stop_all_placed.
  - by apply start_stop_all_placed.
  - rewrite run_fmap. pose proof (list_services_placed w Hw). by destruct (list_services w) as [[] ?].
  - destruct (mg_launchers w !! n) as [l|] eqn:El; [|done]. intros n' id' (l' & Hl & Hid). simpl in *.
    rewrite lookup_insert in Hl. case_decide; [|apply Hw; by exists l']. simplify_eq.
    apply Hw. exists l. split; [done|]. by eapply task_op_services.
Qed.

Fixpoint moves_delivered (sn : string) (t : Duration) (ops : list mgr_op) w : Prop :=
  match ops with
  | [] => True
  | op :: ops => move_delivered w op /\ moves_delivered sn t ops (mgr_exec sn t op w).2
  end.

(** A service runs with one launcher.  Whatever the operations of the
    manager and the steps of the launchers are, and whatever calls are lost or
    refused, if the calls that stop a service which is deployed to another
    launcher reach the launcher it was with, every service a launcher has is in
    the table of the manager and its parameters name that launcher; so no two
    launchers have the same service. *)
Lemma service_one_launcher sn t ops w n n' id :
  placed w -> moves_delivered sn t ops w ->
  let w' := (mgr_run sn t ops w).2 in
  at_node w' n id ->
  (exists p, mg_services w' !! id = Some p /\ pa_launcher p = n) /\ (at_node w' n' id -> n' = n).
Proof.
  intros Hw Hd w' Hat. assert (placed w') as Hw'.
  { unfold w'. clear - Hw Hd. revert w Hw Hd.
    induction ops as [|op ops IH]; intros w Hw; simpl; [done|]. intros [Hop Hrest].
    pose proof (mgr_exec_placed sn t op w Hop Hw) as H'. destruct (mgr_exec sn t op w) as [r w1].
    simpl in *. specialize (IH w1 H' Hrest). by destruct (mgr_run sn t ops w1). }
  destruct (Hw' _ _ Hat) as (p & Hp & Hn). split; [by exists p|].
  intros (p' & Hp' & <-)%Hw'. congruence.
Qed.

(** ** Deployment *)

Lemma restart_service_ok id sn t b p w w' :
  mg_services w !! id = Some p -> restart_service id sn t b w = (Ok tt, w') ->
  pa_enabled p = true /\ exists l l',
    mg_launchers w !! pa_launcher p = Some l /\ mg_launchers w' !! pa_launcher p = Some l' /\
    lc_services l' !! id = Some (started (lc_realtime l)
      (mkPayload id (to_initial value_to_string (me_core e) p id sn t)
         (default MEMORY_WARN_DEFAULT (pa_mem_warn p)) b)).
Proof.
  intros Hp. unfold restart_service. rewrite run_bind. unfold get_service_init. rewrite run_bind.
  unfold get at 1. rewrite Hp, orb_false_r. destruct (pa_enabled p); [|done]. rewrite run_ret.
  unfold or_failed. rewrite run_bind. unfold attempt.
  destruct (start_stop_service _ _ _ _ _ _ w) as [[[]|] w1] eqn:E; [|done]. intros [= <-].
  split; [done|]. apply bus_call_ok in E. rewrite run_at_launcher in E. simpl in E.
  destruct (mg_launchers w !! pa_launcher p) as [l|]; [|done]. injection E as Er <-. exists l.
  set (pl := mkPayload _ _ _ _) in *.
  destruct (call_start_services (me_lenv e (pa_launcher p)) pl l) as (r & l' & E & Hs).
  rewrite E in *. simpl in Er. subst r. exists l'. split; [done|]. simpl.
  by rewrite lookup_insert_eq, Hs, lookup_insert_eq.
Qed.

(** What a deployment that succeeds has done.  The table and the registry
    have the new parameters, with the warning level filled in; if the service
    is enabled, the launcher the parameters name has the service, about to be
    started, with exactly the initial payload built from the new parameters
    (overridden by the realtime defaults of that launcher). *)
Lemma deploy_starts id p sn t w w' :
  deploy_service id p sn t w = (Ok tt, w') ->
  mg_services w' !! id = Some (fill_mem_warn p) /\
  mg_registry w' !! id = Some (params_ser (fill_mem_warn p)) /\
  (pa_enabled p = true -> exists l l' m,
     pa_mem_warn (fill_mem_warn p) = Some m /\
     mg_launchers w' !! pa_launcher p = Some l' /\
     lc_services l' !! id = Some (started l
       (mkPayload id (to_initial value_to_string (me_core e) (fill_mem_warn p) id sn t) m None))).
Proof.
  intros E. pose proof (deploy_service_ok _ _ _ _ _ _ E) as [Hs Hr]. split_and!; [done|done|].
  intros Hen. revert E. unfold deploy_service. rewrite run_bind. unfold log_ef. rewrite run_bind.
  destruct (key_set id _ _) as [[[]|] w1]; [|done]. rewrite run_bind. unfold modify.
  assert (pa_enabled (fill_mem_warn p) = true) as ->
    by (unfold fill_mem_warn; by destruct (pa_mem_warn p)).
  intros E. eapply restart_service_ok in E as (_ & l & l' & _ & Hl & Hsv); [|apply lookup_insert_eq].
  rewrite fill_mem_warn_launcher in Hl. destruct (fill_mem_warn_some p) as [m Hm]. rewrite Hm in Hsv.
  by exists (lc_realtime l), l', m.
Qed.
End manager.
