(* ===== verification/SvcMgrExamples.v ===== *)
(** * Examples of the service manager

    Two launchers, services that are deployed, moved, disabled and removed,
    with lost calls. *)
From S2P Require Import Prelude Duration EvaCommon Logs Launcher SvcMgr.

Module SvcMgrExamples.
Export Sample.

#[local] Instance levels : LogLevels := {
  LOG_LEVEL_TRACE := 0; LOG_LEVEL_DEBUG := 10; LOG_LEVEL_INFO := 20; LOG_LEVEL_WARN := 30;
  LOG_LEVEL_ERROR := 40; LOG_LEVEL_OFF := 100 }.
#[local] Instance svc_externals : SvcExternals := {
  Timeout := option Z;
  timeout_offer t o := match o with None => Some t | _ => o end;
  timeout_startup o := o;
  BusConfig := string;
  bus_path s := s;
  bus_set_path s _ := s;
  bus_offer_timeout _ s := s;
  busrt_DEFAULT_TIMEOUT := 1000000000;
  format_path d p _ := match p with Some p => (d +:+ "/" +:+ p)%string | None => d end;
  get_eva_dir := "/opt/eva4";
  BUILD := 1;
  VERSION := "4.0.0";
  EAPI_VERSION := 1;
  initial_data_path s u := match u with Some _ => Some s | None => None end }.
#[local] Instance codec : ParamsCodec := {
  Stored := Params;
  params_ser p := p;
  params_de p := Ok p }.
#[local] Instance codec_laws : ParamsCodecLaws.
Proof. by constructor. Qed.

Definition show (v : Value) : string := "".
Definition no_realtime : RealtimeConfig := mkRealtime None [].
Definition params (launcher : string) (enabled : bool) : Params :=
  mkParams enabled ∅ "svc/eva-test" None (None : Timeout) ("var/bus.ipc" : BusConfig) None 2 None false
    None launcher false 2000000000 (Some "off") no_realtime.

Definition launcher0 : Launcher (Rest := InitRest) := mkLauncher true no_realtime ∅ ∅ 1 ∅ 0.
Definition start : Mgr :=
  mkMgr ∅ ∅ ∅ ∅ {["main" := launcher0; "second" := launcher0]} 0.
Definition lenv : LEnv := mkLEnv (fun _ => Ok tt) (fun s => Ok s) (fun _ => true) "/opt/eva4".
(** The calls with the numbers in [lost] do not reach their target. *)
Definition env (lost : list nat) : MgrEnv :=
  mkMgrEnv (fun n => if existsb (Nat.eqb n) lost then Lost ETimeout else Answered) (fun _ => lenv)
    (mkCoreSettings 20 false true).

Lemma start_agrees id : agree start id.
Proof. done. Qed.
Lemma start_placed : placed start.
Proof.
  intros n id (l & Hl & [svc Hs]). exfalso. simpl in Hl.
  assert (l = launcher0) as ->; [|unfold launcher0 in Hs; simpl in Hs; by rewrite lookup_empty in Hs].
  apply lookup_insert_Some in Hl as [[_ <-]|[_ Hl]]; [done|].
  by apply lookup_singleton_Some in Hl as [_ <-].
Qed.

Definition at_node_b (w : Mgr) (n id : string) : bool :=
  match mg_launchers w !! n with
  | Some l => match lc_services l !! id with Some _ => true | None => false end
  | None => false
  end.
Lemma at_node_spec w n id : at_node_b w n id = true -> at_node w n id.
Proof.
  unfold at_node_b, at_node. destruct (mg_launchers w !! n) as [l|]; [|done]. intros E. exists l.
  split; [done|]. by destruct (lc_services l !! id).
Qed.

(** Two services; the second is removed, and then the purge of one that is not
    there is refused for a lost call and repeated. *)
Definition ops : list mgr_op :=
  [OpDeploy "a" (params "main" true); OpDeploy "b" (params "second" true); OpEnable "a" false;
   OpUndeploy "b"; OpPurge "c"; OpPurge "c"; OpDeploy "a" (params "second" true)].
Definition final (lost : list nat) : list (EResult unit) * Mgr :=
  mgr_run show (fun l => l) (env lost) "test" 5000000000 ops start.

Lemma services_survive_restart_witness :
  fst (final [8]) = [Ok tt; Ok tt; Ok tt; Ok tt; Err ETimeout; Ok tt; Ok tt] /\
  load (restarted (snd (final [8]))) = (Ok tt, snd (final [8])).
Proof.
  split; [vm_refl|].
  apply (services_survive_restart show (fun l => l) (env [8]) "test" 5000000000 ops start
    (fst (final [8])) (snd (final [8]))).
  - exact start_agrees.
  - repeat constructor; unfold exact_delay; simpl; lia.
  - apply surjective_pairing.
  - vm_refl.
Defined.

Lemma deploy_starts_example :
  exists w', deploy_service show (env []) "a" (params "main" true) "test" 5000000000 start = (Ok tt, w') /\
    mg_services w' !! "a" = Some (fill_mem_warn (params "main" true)).
Proof.
  exists (deploy_service show (env []) "a" (params "main" true) "test" 5000000000 start).2.
  assert (deploy_service show (env []) "a" (params "main" true) "test" 5000000000 start =
    (Ok tt, (deploy_service show (env []) "a" (params "main" true) "test" 5000000000 start).2)) as E
    by (apply pair_fst; vm_refl).
  split; [exact E|]. exact (proj1 (deploy_starts show (env []) _ _ _ _ _ _ E)).
Defined.

Lemma service_one_launcher_example :
  at_node (snd (final [])) "second" "a" /\
  ((exists p, mg_services (snd (final [])) !! "a" = Some p /\ pa_launcher p = "second") /\
   (at_node (snd (final [])) "main" "a" -> "main" = "second")).
Proof.
  assert (at_node (snd (final [])) "second" "a") as Hat
    by (apply at_node_spec; vm_refl).
  split; [exact Hat|].
  refine (service_one_launcher show (fun l => l) (env []) "test" 5000000000 ops start
    "second" "main" "a" start_placed _ Hat).
  assert (forall n err, me_delivery (env []) n ≠ Lost err) as Hd by done.
  unfold ops. cbn [moves_delivered move_delivered]. split_and!; first [exact I | left; apply Hd].
Defined.

(** When the call that stops a service is lost, a deployment with another
    launcher goes on, and both launchers have the service. *)
Definition moved : Mgr :=
  (mgr_run show (fun l => l) (env [2]) "test" 5000000000
     [OpDeploy "a" (params "main" true); OpDeploy "a" (params "second" true)] start).2.
Lemma lost_stop_two_launchers :
  (mgr_run show (fun l => l) (env [2]) "test" 5000000000
     [OpDeploy "a" (params "main" true); OpDeploy "a" (params "second" true)] start).1 = [Ok tt; Ok tt] /\
  at_node moved "main" "a" /\ at_node moved "second" "a".
Proof. split_and!; [vm_refl|apply at_node_spec; vm_refl..]. Qed.
End SvcMgrExamples.
