(* ===== verification/Eapi.v ===== *)
(** * The bus interface of the core (eva/src/eapi.rs)

    The core serves calls by method name and handles the frames published on
    its topics.  The state is that of the whole node: the core and its action
    manager under the sequences, the service manager with the launchers, the
    data objects and the log.  A payload is a list of bytes; the decoders of
    the payloads are those of [eva_common], one per structure. *)
From S2P Require Import Prelude Duration EvaCommon ItemState ItemTree Inventory Core Replication CoreSpec CoreInvariant ActMgr CoreAction CoreLaunch CoreOps Seq Logs Launcher SvcMgr.

(** ** Parameters of the calls *)

Section params.
Context `{Ext : Externals} `{NExt : !NodeExternals} `{!ObjectMaps} {Uuid : Type}.

(** eva/src/eapi.rs:522-534 [LogGetParams] *)
Record LogGetParams := mkLogGet {
  lg_level : option Value;
  lg_time : option Z;
  lg_limit : option Z;
  lg_module : option string;
  lg_msg : option string;
  lg_rx : option string
}.
(** eva/src/eapi.rs:857-870 [ParamsList], of the call [item.list] *)
Record ParamsList := mkParamsList {
  pl_i : option Value;
  pl_node : option string;
  pl_regex : option string;
  pl_include : option OIDMaskList;
  pl_exclude : option OIDMaskList;
  pl_include_binary_values : bool
}.
(** The parameters of [item.announce] (eva/src/eapi.rs:916-922) *)
Record ParamsAnnounce := mkParamsAnnounce {
  pn_i : option (OIDMask + list OIDMask);
  pn_node : option string;
  pn_broadcast : bool
}.
(** eva/src/eapi.rs:958-971 [ParamsState] *)
Record ParamsState := mkParamsState {
  pt_i : option Value;
  pt_regex : option string;
  pt_include : option OIDMaskList;
  pt_exclude : option OIDMaskList;
  pt_full : bool;
  pt_include_binary_values : bool
}.
(** The parameters of [action], [action.toggle] and [run]
    (eva/src/eapi.rs:1032-1042) *)
Record ParamsAction := mkParamsAction {
  pc_u : option Uuid;
  pc_i : string;
  pc_params : option ActMgr.Params;
  pc_priority : option Z;
  pc_wait : option f64
}.
(** eva/src/eapi.rs:1160-1169 [ParamsSet] *)
Record ParamsSet := mkParamsSet {
  pe_i : string;
  pe_status : option Z;
  pe_value : option Value
}.
(** The parameters of [dobj.push] (eva/src/eapi.rs:596-603) *)
Record DobjPush := mkDobjPush { dp_name : string; dp_data : list Z; dp_endianess : Endianess }.
(** eva/src/eapi.rs:1530-1541 [ParamsUpdate] *)
Record ParamsUpdate := mkParamsUpdate {
  pu_version : string;
  pu_build : Z;
  pu_yes : bool;
  pu_url : option string;
  pu_test : bool
}.
(** eva/src/eapi.rs:42-51 [CrashSimulatedKind] *)
Inductive CrashSimulatedKind := CrNo | CrError | CrFreeze | CrMemoryOverflow | CrCrash.

(** What the operating system reports (the crate [sysinfo]) *)
Record System := mkSystem {
  os_disks : list (string * Z * Z);     (* mount point, total and available space *)
  os_total_memory : Z;
  os_used_memory : Z;
  os_load : f64 * f64 * f64
}.
(** The reply of [core.sysinfo] (eva/src/eapi.rs:1432-1438) *)
Record SysInfo := mkSysInfo {
  sf_ram_usage : option f64;
  sf_disk_usage : option f64;
  sf_load : f64 * f64 * f64
}.
End params.
Arguments ParamsAction {_} _.

(** The decoders of payloads and the conversions of their fields. *)
Class EapiExternals `{Ext : Externals, NExt : !NodeExternals, !ObjectMaps, LogLevels, SvcExternals}
    (Uuid : Type) := {
  up_id : list Z -> EResult string;
  up_uuid : list Z -> EResult Uuid;
  up_log_get : list Z -> EResult LogGetParams;
  up_dobj_push : list Z -> EResult DobjPush;
  up_dobj_error : list Z -> EResult (string * option Z);
  up_dobj_deploy : list Z -> EResult (list DataObject);
  up_dobj_undeploy : list Z -> EResult (list (string + DataObject));
  up_deploy : list Z -> EResult (list ItemConfigData);
  up_undeploy : list Z -> EResult (list OID);
  up_list : list Z -> EResult ParamsList;
  up_announce : list Z -> EResult ParamsAnnounce;
  up_state : list Z -> EResult ParamsState;
  up_action : list Z -> EResult (ParamsAction Uuid);
  up_toggle : list Z -> EResult (ParamsAction Uuid);
  up_run : list Z -> EResult (ParamsAction Uuid);
  up_seq : list Z -> EResult (Sequence (Uuid := Uuid));
  up_afilter : list Z -> EResult AFilter;
  up_lvar_set : list Z -> EResult ParamsSet;
  up_svc_deploy : list Z -> EResult (list (string * SvcMgr.Params));
  up_svc_ids : list Z -> EResult (list (string + string * SvcMgr.Params));
  up_flash : list Z -> EResult (string * Value);
  up_svc_list : list Z -> EResult (option string);
  up_publish : list Z -> EResult (string * Value);
  up_crash : list Z -> EResult CrashSimulatedKind;
  up_update : list Z -> EResult ParamsUpdate;
  up_raw : list Z -> EResult RawStateEvent;
  up_raw_bulk : list Z -> EResult (list (OID * RawStateEvent));
  up_action_event : list Z -> EResult (ActionEvent (Uuid := Uuid));
  up_repl : list Z -> EResult ReplicationStateEventExtended;
  up_repl_bulk : list Z -> EResult (list ReplicationStateEventExtended);
  up_repl_inventory : list Z -> EResult (list ReplicationInventoryItem);
  up_node_state : list Z -> EResult NodeStateEvent;
  (* ReplicationStateEventExtended::oid *)
  rse_oid : ReplicationStateEventExtended -> option OID;
  mask_parse : string -> EResult OIDMask;
  mask_matches : OIDMask -> OID -> bool;
  mask_list_any : OIDMaskList;
  mask_list_new : list OIDMask -> OIDMaskList;
  mask_list_of_oid : OID -> OIDMaskList;
  mask_list_of_value : Value -> EResult OIDMaskList;
  (* a value that is a list of texts *)
  value_as_strings : Value -> option (EResult (list string));
  value_as_string : Value -> option string;
  value_to_u64 : Value -> EResult Z;
  (* the bytes of a value that is a byte string or a list of numbers *)
  value_binary : Value -> option (EResult (list Z));
  regex_parse : string -> EResult Regex;
  lmacro_params : ActMgr.Params;
  DEFAULT_ACTION_PRIORITY : Z;
  DEFAULT_GET_RECORD_LIMIT : Z;
  LOCAL_NODE_ALIAS : string;
  REMOTE_ANY_NODE_ALIAS : string
}.

Section eapi.
Context `{Ext : Externals, NExt : !NodeExternals, !ObjectMaps, LogLevels, SvcExternals, !ParamsCodec}.
Context {Uuid : Type} `{Countable Uuid} `{!EapiExternals Uuid}.

(** ** State *)

Abbreviation CoreState := (nat * Node (Uuid := Uuid))%type.

Record Sys := mkSys {
  sy_seq : SeqSt (Uuid := Uuid) (S := CoreState);
  sy_svc : Mgr;
  sy_objects : Objects;
  sy_log : list LogRecord;
  sy_crash : CrashSimulatedKind;        (* CRASH_SIMULATED *)
  sy_running : bool;
  sy_published : list (string * Value); (* the latest first *)
  sy_commands : list string             (* shell commands, the latest first *)
}.

Definition sys_node (s : Sys) : Node := (ss_world (sy_seq s)).2.
Definition sys_world (s : Sys) : World := nd_world (sys_node s).
(** eva/src/core.rs:2199-2202 [Core::is_active] *)
Definition is_active (s : Sys) : bool := w_active (sys_world s).

Abbreviation SYM := (M Sys).

Definition on_seq {A} (m : M SeqSt A) : SYM A := fun s =>
  let '(r, q) := m (sy_seq s) in
  (r, mkSys q (sy_svc s) (sy_objects s) (sy_log s) (sy_crash s) (sy_running s) (sy_published s)
        (sy_commands s)).
Definition on_svc {A} (m : M Mgr A) : SYM A := fun s =>
  let '(r, v) := m (sy_svc s) in
  (r, mkSys (sy_seq s) v (sy_objects s) (sy_log s) (sy_crash s) (sy_running s) (sy_published s)
        (sy_commands s)).
Definition on_objects {A} (m : M Objects A) : SYM A := fun s =>
  let '(r, o) := m (sy_objects s) in
  (r, mkSys (sy_seq s) (sy_svc s) o (sy_log s) (sy_crash s) (sy_running s) (sy_published s)
        (sy_commands s)).
Definition on_node {A} (m : nat -> M (Node (Uuid := Uuid)) A) : SYM A := on_seq (fun q =>
  let '(r, n) := m (ss_world q).1 (ss_world q).2 in
  (r, mkSeqSt (ss_now q) (S (ss_world q).1, n) (ss_log q) (ss_futs q))).
Definition on_core {A} (m : M World A) : SYM A := on_node (fun _ => on_world m).

(** What comes from outside. *)
Record SysEnv := mkSysEnv {
  se_core : Env;
  se_cfg : CoreConfig;
  se_timeout : Duration;
  se_svc : MgrEnv;
  se_outside : nat -> Outside (Uuid := Uuid);
  se_cancel : option Cut;
  se_kill : string -> EResult unit;      (* the answer of a service to [kill] *)
  se_objects : nat -> EResult unit;      (* the registry, for data objects *)
  se_publish : EResult unit;
  se_spawn : EResult unit;
  se_reload : EResult unit;
  se_spoints : EResult (list string);
  se_now : Z;
  se_system : System
}.
Variable (env : SysEnv) (error_value : Error -> Value) (from_secs_f64 : f64 -> Z)
  (value_to_string : Value -> string) (info_sort : list Info -> list Info)
  (item_sort : list Item -> list Item) (action_sort : list (ActionInfo (Uuid := Uuid)) -> list (ActionInfo (Uuid := Uuid)))
  (ts_now : f64).
Context `{!ActionCore Uuid CoreState}
  (max_expected_duration abort_timeout : Sequence (Uuid := Uuid) -> Duration)
  (op_enough : Duration -> Duration -> Duration -> EResult unit)
  (sched : list (nat * SequenceAction) -> list (nat * SequenceAction)).

Abbreviation e := (se_core env).
Abbreviation cfg := (se_cfg env).

(** What a call returns, before it is packed. *)
Inductive Reply :=
  | RCore (w : World)
  | RLog (l : list LogRecord)
  | RLocalNode
  | RNode (d : NodeData)
  | RObjects (l : list (string * Z))
  | RObject (o : DataObject)
  | RNodes (l : list (string * option NodeData))
  | RSpoints (l : list string)
  | RStats (inv : Inventory)
  | RConfig (v : Value)
  | RItems (l : list ItemStateAndInfo)
  | RFullItems (l : list (ItemStateAndInfo * option Value * bool))
  | RAction (r : ActionLaunchResult (Uuid := Uuid))
  | RActionInfo (i : ActionInfo (Uuid := Uuid) + ActionInfoOwned (Uuid := Uuid))
  | RActions (l : list (ActionInfo (Uuid := Uuid)))
  | RValue (v : Value)
  | RParams (p : SvcMgr.Params)
  | RInit (i : Initial InitRest * string * Z)
  | RInfos (l : list Info)
  | RInfo (i : Info)
  | RSysInfo (i : SysInfo).

Abbreviation RM := (SYM (option Reply)).

(** A call with parameters, a call without. *)
Definition with_params (payload : list Z) (m : RM) : RM :=
  match payload with [] => raise EInvalidParams | _ => m end.
Definition no_params (payload : list Z) (m : RM) : RM :=
  match payload with [] => m | _ => raise EInvalidParams end.
Definition reply (r : Reply) : RM := mret (Some r).
Definition done : RM := mret None.

Definition oid_of (s : string) : EResult OID := ok_or (oid_parse s) EInvalidData.

(** ** The core *)

(** The call [test] (eva/src/eapi.rs:488-502) *)
Definition call_test (payload : list Z) : RM :=
  no_params payload (
    s ← get;
    match sy_crash s with
    | CrError => raise EFailed
    | CrFreeze => raise ENever
    | _ => reply (RCore (sys_world s))
    end).
(** The call [save] (eva/src/eapi.rs:503-511) *)
Definition call_save (payload : list Z) : RM :=
  no_params payload (_ ← on_core (log_ef (core_save e cfg)); done).
(** The call [log.purge] (eva/src/eapi.rs:512-520) *)
Definition call_log_purge (payload : list Z) : RM :=
  no_params payload (
    _ ← modify (fun s => mkSys (sy_seq s) (sy_svc s) (sy_objects s) (purge_log_records (sy_log s))
          (sy_crash s) (sy_running s) (sy_published s) (sy_commands s));
    done).
(** eva/src/logs.rs:478-486 [LogLevel::try_from] *)
Definition level_try_from (v : Value) : EResult Z :=
  match value_as_string v with
  | Some s => level_from_str s
  | None => match value_to_u64 v with Ok n => Ok (n mod 256)%Z | Err err => Err err end
  end.
(** The call [log.get] (eva/src/eapi.rs:521-564) *)
Definition call_log_get (payload : list Z) : RM :=
  p ← (match payload with
       | [] => mret (mkLogGet None None None None None None)
       | _ => lift (up_log_get payload)
       end);
  log_level ← match lg_level p with
              | Some lvl => Some <$> lift (level_try_from lvl)
              | None => mret None
              end;
  x ← match lg_rx p with
      | Some rx => Some <$> lift (regex_parse (to_lowercase rx))
      | None => mret None
      end;
  s ← get;
  reply (RLog (get_log_records
    (record_filter_new DEFAULT_GET_RECORD_LIMIT log_level (lg_module p) (lg_msg p) x (lg_time p)
       (lg_limit p) (se_now env)) (sy_log s))).
(** The call [node.get] (eva/src/eapi.rs:565-590) *)
Definition call_node_get (payload : list Z) : RM :=
  with_params payload (
    i ← lift (up_id payload);
    if String.eqb i (system_name cfg) then reply RLocalNode
    else
      s ← get;
      d ← lift (ok_or (w_nodes (sys_world s) !! i) ENotFound);
      reply (RNode d)).
(** The call [node.list] (eva/src/eapi.rs:716-759) *)
Definition call_node_list (payload : list Z) : RM :=
  no_params payload (
    s ← get;
    reply (RNodes (((fun nd => (nd.1, Some nd.2)) <$> map_to_list (w_nodes (sys_world s)))
      ++ [(system_name cfg, None)]))).
(** The call [spoint.list] (eva/src/eapi.rs:760-768) *)
Definition call_spoint_list (payload : list Z) : RM :=
  no_params payload (l ← lift (se_spoints env); reply (RSpoints l)).
(** The call [core.shutdown] (eva/src/eapi.rs:1419-1428) *)
Definition call_shutdown_core (payload : list Z) : RM :=
  no_params payload (
    _ ← log_ef (lift (se_reload env));
    _ ← modify (fun s => mkSys (sy_seq s) (sy_svc s) (sy_objects s) (sy_log s)
          (sy_crash s) false (sy_published s) (sy_commands s));
    done).
(** [Path::starts_with]: by components *)
Definition path_starts_with (path prefix : string) : bool :=
  Bool.eqb (path_absolute path) (path_absolute prefix)
  && bool_decide (take (length (path_components prefix)) (path_components path)
                  = path_components prefix).
(** The call [core.sysinfo] (eva/src/eapi.rs:1430-1482) *)
Definition call_sysinfo (payload : list Z) : RM :=
  no_params payload (
    let sys := se_system env in
    let hundred := f64_of_Z 100 in
    let disk_usage :=
      head (omap (fun '(mount, total, available) =>
        if path_starts_with get_eva_dir mount && (0 <? total)%Z
        then Some (f64_mul (f64_sub (f64_of_Z 1) (f64_div (f64_of_Z available) (f64_of_Z total))) hundred)
        else None) (os_disks sys)) in
    let ram_usage :=
      if (0 <? os_total_memory sys)%Z
      then Some (f64_mul (f64_div (f64_of_Z (os_used_memory sys)) (f64_of_Z (os_total_memory sys))) hundred)
      else None in
    reply (RSysInfo (mkSysInfo ram_usage disk_usage (os_load sys)))).
(** The call [bus.publish] (eva/src/eapi.rs:1483-1491) *)
Definition call_bus_publish (payload : list Z) : RM :=
  with_params payload (
    message ← lift (up_publish payload);
    _ ← lift (se_publish env);
    _ ← modify (fun s => mkSys (sy_seq s) (sy_svc s) (sy_objects s) (sy_log s)
          (sy_crash s) (sy_running s) (message :: sy_published s) (sy_commands s));
    done).
(** The call [simulate.crash] (eva/src/eapi.rs:1492-1528) *)
Definition call_simulate_crash (payload : list Z) : RM :=
  with_params payload (
    kind ← lift (up_crash payload);
    match kind with
    | CrCrash => raise ENever
    | CrMemoryOverflow => done
    | v =>
        _ ← modify (fun s => mkSys (sy_seq s) (sy_svc s) (sy_objects s) (sy_log s)
              v (sy_running s) (sy_published s) (sy_commands s));
        done
    end).

(** The shell command of an update (eva/src/eapi.rs:1553-1572) *)
Definition update_command (decimal : Z -> string) (dir_eva : string) (p : ParamsUpdate) : string :=
  let q := String (Ascii.ascii_of_nat 34) EmptyString in
  ("(sleep 1 && env " +:+ q +:+ "EVA_UPDATE_FORCE_VERSION=" +:+ pu_version p +:+ ":" +:+
   decimal (pu_build p) +:+ q +:+ " " +:+ q +:+ dir_eva +:+ "/bin/eva-cloud-manager" +:+ q +:+
   " node update --YES" +:+
   match pu_url p with Some url => " --repository-url " +:+ q +:+ url +:+ q | None => "" end +:+
   (if pu_test p then " --test" else "") +:+
   " >> " +:+ dir_eva +:+ "/log/update.log 2>&1)&")%string.
(** The call [update] (eva/src/eapi.rs:1529-1583) *)
Definition call_update (decimal : Z -> string) (payload : list Z) : RM :=
  with_params payload (
    p ← lift (up_update payload);
    if pu_yes p then
      _ ← lift (se_spawn env);
      _ ← modify (fun s => mkSys (sy_seq s) (sy_svc s) (sy_objects s) (sy_log s)
            (sy_crash s) (sy_running s) (sy_published s)
            (update_command decimal get_eva_dir p :: sy_commands s));
      done
    else raise EFailed).

(** ** Data objects *)

(** The call [dobj.push] (eva/src/eapi.rs:591-610) *)
Definition call_dobj_push (sender : string) (payload : list Z) : RM :=
  with_params payload (
    p ← lift (up_dobj_push payload);
    s ← get;
    _ ← on_core (dobj_push e cfg (ob_map (sy_objects s)) (dp_name p) (dp_data p) (dp_endianess p) sender);
    done).
(** The call [dobj.error] (eva/src/eapi.rs:611-628) *)
Definition call_dobj_error (sender : string) (payload : list Z) : RM :=
  with_params payload (
    p ← lift (up_dobj_error payload);
    s ← get;
    _ ← on_core (dobj_error e cfg (ob_map (sy_objects s)) p.1 p.2 sender);
    done).
(** The call [dobj.list] (eva/src/eapi.rs:629-646) *)
Definition call_dobj_list (payload : list Z) : RM :=
  no_params payload (s ← get; reply (RObjects (dobj_list (sy_objects s)))).
(** The call [dobj.get_config] (eva/src/eapi.rs:647-658) *)
Definition call_dobj_get_config (payload : list Z) : RM :=
  with_params payload (
    i ← lift (up_id payload);
    s ← get;
    dobj ← lift (ok_or (dobj_get i (sy_objects s)) ENotFound);
    reply (RObject dobj)).
(** The call [dobj.validate] (eva/src/eapi.rs:659-666) *)
Definition call_dobj_validate (payload : list Z) : RM :=
  no_params payload (s ← get; _ ← lift (dobj_validate (sy_objects s)); done).
(** The call [dobj.deploy] (eva/src/eapi.rs:667-680) *)
Definition call_dobj_deploy (payload : list Z) : RM :=
  with_params payload (
    objects ← lift (up_dobj_deploy payload);
    _ ← on_objects (dobj_insert (se_objects env) objects);
    done).
(** The call [dobj.undeploy] (eva/src/eapi.rs:681-715) *)
Definition call_dobj_undeploy (payload : list Z) : RM :=
  with_params payload (
    objects ← lift (up_dobj_undeploy payload);
    _ ← on_objects (dobj_remove (se_objects env)
          ((fun v => match v with inl n => n | inr o => dobj_name o end) <$> objects));
    done).

(** ** Items *)

(** The call [item.summary] (eva/src/eapi.rs:769-776) *)
Definition call_item_summary (payload : list Z) : RM :=
  no_params payload (s ← get; reply (RStats (w_inventory (sys_world s)))).
(** The call [item.create] (eva/src/eapi.rs:777-787) *)
Definition call_item_create (payload : list Z) : RM :=
  with_params payload (
    i ← lift (up_id payload);
    oid ← lift (oid_of i);
    _ ← on_core (create_local_item e cfg oid);
    done).
(** The call [item.destroy] (eva/src/eapi.rs:788-798) *)
Definition call_item_destroy (payload : list Z) : RM :=
  with_params payload (
    i ← lift (up_id payload);
    mask ← lift (mask_parse i);
    _ ← on_core (destroy_local_items e cfg mask);
    done).
(** The call [item.deploy] (eva/src/eapi.rs:799-814) *)
Definition call_item_deploy (payload : list Z) : RM :=
  with_params payload (
    items ← lift (up_deploy payload);
    _ ← on_core (deploy_local_items e cfg items true);
    done).
(** The call [item.undeploy] (eva/src/eapi.rs:815-830) *)
Definition call_item_undeploy (payload : list Z) : RM :=
  with_params payload (
    items ← lift (up_undeploy payload);
    _ ← on_core (undeploy_local_items e cfg items);
    done).
(** The call [item.get_config] (eva/src/eapi.rs:831-855) *)
Definition call_item_get_config (payload : list Z) : RM :=
  with_params payload (
    i ← lift (up_id payload);
    oid ← lift (oid_of i);
    s ← get;
    match list_items item_sort (mask_list_of_oid oid) None None (Some NodeLocal) None true
            (w_inventory (sys_world s)) with
    | [] => raise ENotFound
    | item :: _ => config ← on_core (item_config e item); reply (RConfig config)
    end).
(** The node filter of [item.list] (eva/src/eapi.rs:881-889) *)
Definition list_filter (v : string) : NodeFilter :=
  if String.eqb v LOCAL_NODE_ALIAS || String.eqb v (system_name cfg) then NodeLocal
  else if String.eqb v REMOTE_ANY_NODE_ALIAS then NodeRemoteAny
  else NodeRemote v.
Definition opt_regex (r : option string) : SYM (option Regex) :=
  match r with Some pat => Some <$> lift (regex_parse pat) | None => mret None end.
(** The call [item.list] (eva/src/eapi.rs:856-912) *)
Definition call_item_list (payload : list Z) : RM :=
  with_params payload (
    p ← lift (up_list payload);
    mask_list ← match pl_i p with
                | Some v => lift (mask_list_of_value v)
                | None => mret mask_list_any
                end;
    let node_filter := list_filter <$> pl_node p in
    regex ← opt_regex (pl_regex p);
    s ← get;
    let items := list_items item_sort mask_list (pl_include p) (pl_exclude p) node_filter regex true
                   (w_inventory (sys_world s)) in
    reply (RFullItems ((fun i => full_state_and_info (w_store (sys_world s)) i (system_name cfg)
      (pl_include_binary_values p)) <$> items))).
(** The call [item.announce] (eva/src/eapi.rs:913-948) *)
Definition call_item_announce (sender : string) (payload : list Z) : RM :=
  with_params payload (
    p ← lift (up_announce payload);
    let node_filter := (fun v =>
      if String.eqb v LOCAL_NODE_ALIAS || String.eqb v (system_name cfg) then NodeLocal
      else NodeRemote v) <$> pn_node p in
    let masks := match pn_i p with
                 | Some (inl v) => mask_list_new [v]
                 | Some (inr v) => mask_list_new v
                 | None => mask_list_any
                 end in
    _ ← on_core (if pn_broadcast p then force_announce_state e masks node_filter
                 else force_announce_state_for e masks node_filter sender);
    done).
(** The calls [item.enable] and [item.disable] (eva/src/eapi.rs:433-444) *)
Definition call_item_enable (value : bool) (payload : list Z) : RM :=
  with_params payload (
    i ← lift (up_id payload);
    mask ← lift (mask_parse i);
    _ ← on_core (set_local_items_enabled e mask value);
    done).
(** The masks of [item.state]: texts that are no masks are left out
    (eva/src/eapi.rs:978-996) *)
Definition state_masks (i : option Value) : EResult OIDMaskList :=
  match i with
  | Some v =>
      match value_as_strings v with
      | Some (Ok masks) =>
          Ok (mask_list_new (omap (fun m => match mask_parse m with Ok m => Some m | Err _ => None end) masks))
      | Some (Err err) => Err err
      | None => mask_list_of_value v
      end
  | None => Ok mask_list_any
  end.
(** The call [item.state] (eva/src/eapi.rs:957-1028) *)
Definition call_item_state (payload : list Z) : RM :=
  with_params payload (
    p ← lift (up_state payload);
    mask_list ← lift (state_masks (pt_i p));
    regex ← opt_regex (pt_regex p);
    s ← get;
    let items := list_items item_sort mask_list (pt_include p) (pt_exclude p) None regex false
                   (w_inventory (sys_world s)) in
    let σ := w_store (sys_world s) in
    let b := pt_include_binary_values p in
    reply (if pt_full p
           then RFullItems ((fun i => full_state_and_info σ i (system_name cfg) b) <$> items)
           else RItems ((fun i => state_and_info σ i (system_name cfg) b) <$> items))).

(** ** Actions and sequences *)

(** [action_op!] (eva/src/eapi.rs:464-485); the time to wait is converted
    before the action is launched *)
Definition action_op (p : ParamsAction Uuid) (params : option ActMgr.Params) : RM :=
  oid ← lift (oid_of (pc_i p));
  wait ← match pc_wait p with
         | Some w => Some <$> lift (duration_from_secs_f64 w)
         | None => mret None
         end;
  res ← on_node (fun k => action error_value e cfg (se_timeout env) from_secs_f64 (se_outside env k)
          (pc_u p) oid params (default DEFAULT_ACTION_PRIORITY (pc_priority p)) wait false);
  reply (RAction res).
(** The call [action] (eva/src/eapi.rs:1029-1049) *)
Definition call_action (payload : list Z) : RM :=
  with_params payload (p ← lift (up_action payload); action_op p (pc_params p)).
(** The call [action.toggle] (eva/src/eapi.rs:1050-1069) *)
Definition call_action_toggle (payload : list Z) : RM :=
  with_params payload (p ← lift (up_toggle payload); action_op p None).
(** The call [run] (eva/src/eapi.rs:1070-1096) *)
Definition call_run (payload : list Z) : RM :=
  with_params payload (
    p ← lift (up_run payload); action_op p (Some (default lmacro_params (pc_params p)))).
(** The call [seq] (eva/src/eapi.rs:1097-1105) *)
Definition call_seq (payload : list Z) : RM :=
  with_params payload (
    p ← lift (up_seq payload);
    _ ← on_seq (execute max_expected_duration abort_timeout op_enough sched (se_cancel env) p);
    done).
(** The call [seq.terminate] (eva/src/eapi.rs:1106-1115) *)
Definition call_seq_terminate (payload : list Z) : RM :=
  with_params payload (u ← lift (up_uuid payload); _ ← on_seq (terminate u); done).
(** The call [action.result] (eva/src/eapi.rs:1116-1125) *)
Definition call_action_result (payload : list Z) : RM :=
  with_params payload (
    u ← lift (up_uuid payload);
    info ← on_node (fun k => action_result cfg (se_outside env k) u);
    reply (RActionInfo info)).
(** The call [action.terminate] (eva/src/eapi.rs:1126-1135) *)
Definition call_action_terminate (payload : list Z) : RM :=
  with_params payload (
    u ← lift (up_uuid payload);
    _ ← on_node (fun k => terminate_action (se_outside env k) u);
    done).
(** The call [action.kill] (eva/src/eapi.rs:1136-1145) *)
Definition call_action_kill (payload : list Z) : RM :=
  with_params payload (
    i ← lift (up_id payload);
    oid ← lift (oid_of i);
    _ ← on_node (fun _ => kill_actions oid (se_kill env));
    done).
(** The call [action.list] (eva/src/eapi.rs:1146-1158) *)
Definition call_action_list (payload : list Z) : RM :=
  f ← match payload with
      | [] => mret (mkAFilter None None None None None)
      | _ => lift (up_afilter payload)
      end;
  s ← get;
  reply (RActions (get_actions_filtered mask_matches action_sort f (system_name cfg) ts_now (nd_mgr (sys_node s)))).

(** ** Lvars *)

(** The call [lvar.set] (eva/src/eapi.rs:1159-1186) *)
Definition call_lvar_set (method sender : string) (payload : list Z) : RM :=
  with_params payload (
    p ← lift (up_lvar_set payload);
    oid ← lift (oid_of (pe_i p));
    _ ← on_core (lvar_op e cfg oid (LvarSet (pe_status p) (pe_value p)) method sender);
    done).
(** [lvar_op!] (eva/src/eapi.rs:445-463) *)
Definition call_lvar_op (op : LvarOp) (method sender : string) (payload : list Z) : RM :=
  with_params payload (
    i ← lift (up_id payload);
    oid ← lift (oid_of i);
    v ← on_core (lvar_op e cfg oid op method sender);
    match v with Some value => reply (RValue value) | None => done end).

(** ** Services *)

Abbreviation svc_name := (system_name cfg).

(** The calls [svc.disable] and [svc.enable] (eva/src/eapi.rs:1207-1230) *)
Definition call_svc_enable (value : bool) (payload : list Z) : RM :=
  with_params payload (
    i ← lift (up_id payload);
    _ ← on_svc (set_service_enabled value_to_string (se_svc env) i value svc_name (se_timeout env));
    done).
(** The call [svc.deploy] (eva/src/eapi.rs:1231-1249) *)
Definition call_svc_deploy (payload : list Z) : RM :=
  with_params payload (
    svcs ← lift (up_svc_deploy payload);
    _ ← on_svc (for_each (fun svc =>
          deploy_service value_to_string (se_svc env) svc.1 svc.2 svc_name (se_timeout env)) svcs);
    done).
(** eva/src/eapi.rs:85-90 [SvcOrId::as_str] *)
Definition svc_or_id (v : string + string * SvcMgr.Params) : string :=
  match v with inl i => i | inr svc => svc.1 end.
(** The call [svc.undeploy] (eva/src/eapi.rs:1250-1272) *)
Definition call_svc_undeploy (payload : list Z) : RM :=
  with_params payload (
    svcs ← lift (up_svc_ids payload);
    _ ← on_svc (for_each (fun svc =>
          r ← attempt (undeploy_service value_to_string (se_svc env) (svc_or_id svc) svc_name
                         (se_timeout env));
          match r with
          | Ok _ | Err ENotFound => mret tt
          | Err err => raise err
          end) svcs);
    done).
(** The call [svc.restart] (eva/src/eapi.rs:1273-1284) *)
Definition call_svc_restart (payload : list Z) : RM :=
  with_params payload (
    i ← lift (up_id payload);
    _ ← on_svc (restart_service value_to_string (se_svc env) i svc_name (se_timeout env) None);
    done).
(** The call [svc.flash] (eva/src/eapi.rs:1285-1316) *)
Definition call_svc_flash (payload : list Z) : RM :=
  with_params payload (
    p ← lift (up_flash payload);
    binary ← match value_binary p.2 with
             | Some b => lift b
             | None => raise EInvalidParams
             end;
    _ ← on_svc (restart_service value_to_string (se_svc env) p.1 svc_name (se_timeout env) (Some binary));
    done).
(** The call [svc.purge] (eva/src/eapi.rs:1317-1330) *)
Definition call_svc_purge (payload : list Z) : RM :=
  with_params payload (
    svcs ← lift (up_svc_ids payload);
    _ ← on_svc (for_each (fun svc =>
          purge_service value_to_string (se_svc env) (svc_or_id svc) svc_name (se_timeout env)) svcs);
    done).
(** The call [svc.get_params] (eva/src/eapi.rs:1331-1340) *)
Definition call_svc_get_params (payload : list Z) : RM :=
  with_params payload (
    i ← lift (up_id payload); p ← on_svc (get_service_params i); reply (RParams p)).
(** The call [svc.get_init] (eva/src/eapi.rs:1341-1353) *)
Definition call_svc_get_init (payload : list Z) : RM :=
  with_params payload (
    i ← lift (up_id payload);
    r ← on_svc (get_service_init value_to_string (se_svc env) i svc_name (se_timeout env) true);
    reply (RInit r)).
(** The call [svc.list] (eva/src/eapi.rs:1354-1390) *)
Definition call_svc_list (payload : list Z) : RM :=
  params ← match payload with [] => mret None | _ => lift (up_svc_list payload) end;
  re ← opt_regex params;
  l ← on_svc (list_services info_sort (se_svc env));
  reply (RInfos (filter (fun v => match re with
                                  | Some r => regex_is_match r (inf_id v)
                                  | None => true
                                  end = true) l)).
(** The call [svc.get] (eva/src/eapi.rs:1391-1405) *)
Definition call_svc_get (payload : list Z) : RM :=
  with_params payload (
    i ← lift (up_id payload); info ← on_svc (get_service_info (se_svc env) i); reply (RInfo info)).
(** The call [svc.start_by_launcher] (eva/src/eapi.rs:1407-1418) *)
Definition call_svc_start_by_launcher (payload : list Z) : RM :=
  with_params payload (
    i ← lift (up_id payload);
    _ ← on_svc (start_by_launcher value_to_string (se_svc env) i svc_name (se_timeout env));
    done).

(** ** The dispatch of calls *)

(** The methods the core serves when it is not active too. *)
Definition open_methods : list string :=
  ["test"; "dobj.push"; "dobj.error"; "dobj.list"; "dobj.get_config"; "dobj.validate";
   "dobj.deploy"; "dobj.undeploy"; "svc.start_by_launcher"; "core.sysinfo"; "bus.publish";
   "simulate.crash"].

(** The arms of the match on the method (eva/src/eapi.rs:487-1584) *)
Definition methods (decimal : Z -> string) (method sender : string) : list (string * (list Z -> RM)) :=
  [("test", call_test); ("save", call_save); ("log.purge", call_log_purge); ("log.get", call_log_get);
   ("node.get", call_node_get); ("dobj.push", call_dobj_push sender);
   ("dobj.error", call_dobj_error sender); ("dobj.list", call_dobj_list);
   ("dobj.get_config", call_dobj_get_config); ("dobj.validate", call_dobj_validate);
   ("dobj.deploy", call_dobj_deploy); ("dobj.undeploy", call_dobj_undeploy);
   ("node.list", call_node_list); ("spoint.list", call_spoint_list);
   ("item.summary", call_item_summary); ("item.create", call_item_create);
   ("item.destroy", call_item_destroy); ("item.deploy", call_item_deploy);
   ("item.undeploy", call_item_undeploy); ("item.get_config", call_item_get_config);
   ("item.list", call_item_list); ("item.announce", call_item_announce sender);
   ("item.enable", call_item_enable true); ("item.disable", call_item_enable false);
   ("item.state", call_item_state); ("action", call_action); ("action.toggle", call_action_toggle);
   ("run", call_run); ("seq", call_seq); ("seq.terminate", call_seq_terminate);
   ("action.result", call_action_result); ("action.terminate", call_action_terminate);
   ("action.kill", call_action_kill); ("action.list", call_action_list);
   ("lvar.set", call_lvar_set method sender); ("lvar.reset", call_lvar_op LvarReset method sender);
   ("lvar.incr", call_lvar_op LvarIncrement method sender);
   ("lvar.decr", call_lvar_op LvarDecrement method sender);
   ("lvar.clear", call_lvar_op LvarClear method sender);
   ("lvar.toggle", call_lvar_op LvarToggle method sender);
   ("svc.disable", call_svc_enable false); ("svc.enable", call_svc_enable true);
   ("svc.deploy", call_svc_deploy); ("svc.undeploy", call_svc_undeploy);
   ("svc.restart", call_svc_restart); ("svc.flash", call_svc_flash); ("svc.purge", call_svc_purge);
   ("svc.get_params", call_svc_get_params); ("svc.get_init", call_svc_get_init);
   ("svc.list", call_svc_list); ("svc.get", call_svc_get);
   ("svc.start_by_launcher", call_svc_start_by_launcher); ("core.shutdown", call_shutdown_core); ("core.sysinfo", call_sysinfo);
   ("bus.publish", call_bus_publish); ("simulate.crash", call_simulate_crash);
   ("update", call_update decimal)].

(** [need_ready!] (eva/src/eapi.rs:420-431) *)
Definition need_ready (m : RM) : RM :=
  s ← get; if is_active s then m else raise EInternalRpc.

(** eva/src/eapi.rs:416-1586 [handle_call] *)
Definition handle_call (decimal : Z -> string) (method : string) (payload : list Z) (sender : string) : RM :=
  match find (fun arm => String.eqb method arm.1) (methods decimal method sender) with
  | Some (name, call) =>
      if existsb (String.eqb name) open_methods then call payload else need_ready (call payload)
  | None => raise EMethodNotFound
  end.

(** ** Frames *)

(** eva/src/eapi.rs:195-217 [handle_raw_state_event] *)
Definition handle_raw_state_event (subtopic : string) (payload : list Z) (sender : string) : SYM unit :=
  s ← get;
  if is_active s then
    match oid_from_path subtopic with
    | Ok oid =>
        match payload with
        | [] => on_core (auto_create_item_from_raw_empty e cfg oid sender)
        | _ =>
            match up_raw payload with
            | Ok raw => on_core (log_ef (update_state_from_raw e cfg oid raw sender))
            | Err _ => mret tt
            end
        end
    | Err _ => mret tt
    end
  else mret tt.
(** eva/src/eapi.rs:219-229 [handle_raw_state_event_bulk] *)
Definition handle_raw_state_event_bulk (payload : list Z) (sender : string) : SYM unit :=
  s ← get;
  if is_active s then
    match up_raw_bulk payload with
    | Ok raw => on_core (update_state_from_raw_bulk e cfg raw sender)
    | Err _ => mret tt
    end
  else mret tt.
(** eva/src/eapi.rs:231-250 [handle_action_state] *)
Definition handle_action_state (subtopic : string) (payload : list Z) : SYM unit :=
  s ← get;
  if is_active s then
    match oid_from_path subtopic with
    | Err _ => mret tt
    | Ok _ =>
        match up_action_event payload with
        | Ok event => on_node (fun _ => on_mgr (log_ef (process_event event ts_now)))
        | Err _ => mret tt
        end
    end
  else mret tt.
(** eva/src/eapi.rs:252-270 [replication_state_handler], one frame *)
Definition replication_state_handler (subtopic : string) (payload : list Z) (sender : string) : SYM unit :=
  s ← get;
  if is_active s then
    match oid_from_path subtopic with
    | Ok oid =>
        match up_repl payload with
        | Ok rpl => on_core (log_ef (update_state_from_repl e oid rpl sender))
        | Err _ => mret tt
        end
    | Err _ => mret tt
    end
  else mret tt.

(** The events of a bulk frame: states are processed at once, items are
    collected under the first node (eva/src/eapi.rs:282-308) *)
Fixpoint scan_bulk (rpl : list ReplicationStateEventExtended) (sender : string)
    (inv_map : gmap OID ReplicationInventoryItem) (source_id : option string)
    : M World (gmap OID ReplicationInventoryItem * option string) :=
  match rpl with
  | [] => mret (inv_map, source_id)
  | r :: rpl =>
      match rse_oid r with
      | None => scan_bulk rpl sender inv_map source_id
      | Some oid =>
          match r with
          | RseInventory node item =>
              scan_bulk rpl sender (<[oid := item]> inv_map)
                (match source_id with Some n => Some n | None => Some node end)
          | _ =>
              _ ← log_ef (update_state_from_repl e oid r sender);
              scan_bulk rpl sender inv_map source_id
          end
      end
  end.
(** eva/src/eapi.rs:272-321 [replication_bulk_state_handler], one frame *)
Definition replication_bulk_state_handler (payload : list Z) (sender : string) : SYM unit :=
  s ← get;
  if is_active s then
    on_core (
      r ← match up_repl_bulk payload with
          | Ok rpl => scan_bulk rpl sender ∅ None
          | Err _ => mret (∅, None)
          end;
      match r.2 with
      | Some source => log_ef (process_remote_inventory e r.1 source sender true)
      | None => mret tt
      end)
  else mret tt.
(** eva/src/eapi.rs:323-356 [replication_inventory_handler], one frame *)
Definition replication_inventory_handler (subtopic : string) (payload : list Z) (sender : string)
    : SYM unit :=
  s ← get;
  if is_active s then
    match up_repl_inventory payload with
    | Ok remote_items =>
        let remote_inv := foldl (fun m item => <[ri_oid item := item]> m) ∅ remote_items in
        on_core (log_ef (process_remote_inventory e remote_inv subtopic sender false))
    | Err _ => mret tt
    end
  else mret tt.
(** eva/src/eapi.rs:358-396 [replication_node_state_handler], one frame *)
Definition replication_node_state_handler (subtopic : string) (payload : list Z) (sender : string)
    : SYM unit :=
  s ← get;
  if is_active s then
    match up_node_state payload with
    | Ok nse =>
        on_core
          match ns_status nse with
          | NsOnline =>
              core_mark_source_online e cfg subtopic sender true (ns_info nse) (ns_timeout nse)
          | NsOffline => core_mark_source_online e cfg subtopic sender false None (ns_timeout nse)
          | NsRemoved => destroy_source subtopic
          end
    | Err _ => mret tt
    end
  else mret tt.
End eapi.
