(* ===== verification/EapiSpec.v ===== *)
(** * The bus interface: properties

    Events of the bus are calls and frames.  While the core is not active they
    are ignored, but for a few methods; and whatever arrives keeps the
    invariant of the core. *)
From S2P Require Import Prelude Duration EvaCommon ItemState ItemTree Inventory Core Replication CoreSpec CoreInvariant CoreBehaviour ActMgr CoreAction CoreLaunch CoreOps Seq Logs Launcher SvcMgr Eapi.

Section spec.
Context `{Ext : Externals, NExt : !NodeExternals, !ObjectMaps, LogLevels, SvcExternals, !ParamsCodec}.
Context {Uuid : Type} `{Countable Uuid} `{!EapiExternals Uuid}.
Abbreviation CoreState := (nat * Node (Uuid := Uuid))%type.
Context (env : SysEnv (Uuid := Uuid)) (error_value : Error -> Value) (from_secs_f64 : f64 -> Z)
  (value_to_string : Value -> string) (info_sort : list Info -> list Info)
  (item_sort : list Item -> list Item)
  (action_sort : list (ActionInfo (Uuid := Uuid)) -> list (ActionInfo (Uuid := Uuid)))
  (ts_now : f64) (decimal : Z -> string).
Context (max_expected_duration abort_timeout : Sequence (Uuid := Uuid) -> Duration)
  (op_enough : Duration -> Duration -> Duration -> EResult unit)
  (sched : list (nat * SequenceAction) -> list (nat * SequenceAction)) (took : nat -> Z).

(** The sequences act on the core of the node. *)
#[local] Instance seq_core : ActionCore Uuid CoreState :=
  core_actions error_value (se_core env) (se_cfg env) (se_timeout env) from_secs_f64
    DEFAULT_ACTION_PRIORITY (se_outside env) took.

Abbreviation call := (handle_call env error_value from_secs_f64 value_to_string info_sort item_sort
  action_sort ts_now max_expected_duration abort_timeout op_enough sched decimal).
Abbreviation e := (se_core env).
Abbreviation cfg := (se_cfg env).

Inductive bus_event :=
  | EvCall (method : string) (payload : list Z) (sender : string)
  | EvRaw (subtopic : string) (payload : list Z) (sender : string)
  | EvRawBulk (payload : list Z) (sender : string)
  | EvAction (subtopic : string) (payload : list Z)
  | EvRepl (subtopic : string) (payload : list Z) (sender : string)
  | EvReplBulk (payload : list Z) (sender : string)
  | EvReplInventory (subtopic : string) (payload : list Z) (sender : string)
  | EvNodeState (subtopic : string) (payload : list Z) (sender : string).

Definition no_reply (m : M (Sys (Uuid := Uuid)) unit) : M (Sys (Uuid := Uuid)) (option (Reply (Uuid := Uuid))) := _ ← m; mret None.

Definition bus_exec (ev : bus_event) : M (Sys (Uuid := Uuid)) (option (Reply (Uuid := Uuid))) :=
  match ev with
  | EvCall method payload sender => call method payload sender
  | EvRaw subtopic payload sender => no_reply (handle_raw_state_event env subtopic payload sender)
  | EvRawBulk payload sender => no_reply (handle_raw_state_event_bulk env payload sender)
  | EvAction subtopic payload => no_reply (handle_action_state ts_now subtopic payload)
  | EvRepl subtopic payload sender => no_reply (replication_state_handler env subtopic payload sender)
  | EvReplBulk payload sender => no_reply (replication_bulk_state_handler env payload sender)
  | EvReplInventory subtopic payload sender =>
      no_reply (replication_inventory_handler env subtopic payload sender)
  | EvNodeState subtopic payload sender =>
      no_reply (replication_node_state_handler env subtopic payload sender)
  end.

Implicit Types s : Sys (Uuid := Uuid).

Lemma handle_call_cases method payload sender s :
  (exists name m, existsb (String.eqb name) open_methods = true /\ name = method /\
     call method payload sender s = m payload s) \/
  (exists m, call method payload sender s = need_ready (m payload) s) \/
  call method payload sender s = (Err EMethodNotFound, s).
Proof.
  unfold handle_call. destruct (find _ _) as [[name m]|] eqn:E; [|by right; right].
  apply find_some in E as [_ ->%String.eqb_eq]. cbn [fst].
  destruct (existsb (String.eqb name) open_methods) eqn:Eo; [left; by exists name, m|right; left; by exists m].
Qed.


(** ** The invariant of the core *)

Context `{!IeidLaws, !OidLaws}.
Abbreviation good := (good_step e cfg).

Definition sys_good s s' : Prop := good (sys_world s) (sys_world s').
#[local] Instance sys_good_preorder : PreOrder sys_good.
Proof.
  split; [intros s; unfold sys_good; reflexivity|]. intros x y z ? ?. unfold sys_good. by etrans.
Qed.

Definition seq_good : relation CoreState := fun c c' => node_good e cfg c.2 c'.2.
#[local] Instance seq_good_preorder : PreOrder seq_good.
Proof.
  split; [intros c; unfold seq_good; reflexivity|]. intros x y z ? ?. unfold seq_good. by etrans.
Qed.

Lemma on_seq_good {A} (m : M (SeqSt (S := CoreState)) A) :
  keeps (world_rel seq_good) m -> keeps sys_good (on_seq m).
Proof. intros Hm s. specialize (Hm (sy_seq s)). unfold on_seq. by destruct (m (sy_seq s)). Qed.
Lemma on_node_good {A} (m : nat -> M (Node (Uuid := Uuid)) A) :
  (forall k, keeps (node_good e cfg) (m k)) -> keeps sys_good (on_node m).
Proof.
  intros Hm. apply on_seq_good. intros q. specialize (Hm (ss_world q).1 (ss_world q).2).
  by destruct (m (ss_world q).1 (ss_world q).2).
Qed.
Lemma on_core_good {A} (m : M World A) : keeps good m -> keeps sys_good (on_core m).
Proof. intros Hm. apply on_node_good. intros _. by apply on_world_good. Qed.
(** On one state of the core. *)
Lemma on_core_step {A} (m : M World A) s :
  good (sys_world s) (m (sys_world s)).2 -> sys_good s (on_core m s).2.
Proof.
  intros Hm. unfold sys_good, on_core, on_node, on_seq, on_world, sys_world, sys_node in *.
  by destruct (m (nd_world (ss_world (sy_seq s)).2)) as [r w].
Qed.
Lemma on_svc_good {A} (m : M Mgr A) : keeps sys_good (on_svc m).
Proof. intros s. unfold on_svc, sys_good. destruct (m (sy_svc s)). simpl. reflexivity. Qed.
Lemma on_objects_good {A} (m : M Objects A) : keeps sys_good (on_objects m).
Proof. intros s. unfold on_objects, sys_good. destruct (m (sy_objects s)). simpl. reflexivity. Qed.
Lemma modify_good f : (forall s, sy_seq (f s) = sy_seq s) -> keeps sys_good (modify f).
Proof.
  intros Hf. apply keeps_modify. intros s. unfold sys_good, sys_world, sys_node. by rewrite Hf.
Qed.
#[local] Hint Resolve on_svc_good on_objects_good : keeps.

Lemma execute_good cancel sq :
  keeps (world_rel seq_good)
    (execute max_expected_duration abort_timeout op_enough sched cancel sq).
Proof.
  apply execute_world; [apply _|]. intros a t [k n]. unfold seq_good. simpl.
  pose proof (action_good error_value e cfg (se_timeout env) from_secs_f64 (se_outside env k) None
    (sa_oid a) (sa_params a) DEFAULT_ACTION_PRIORITY (Some (sa_wait a)) true n) as Ha.
  by destruct (action _ _ _ _ _ _ _ _ _ _ _ _ n) as [r n'].
Qed.
Lemma reply_good r : keeps sys_good (reply r).
Proof. apply keeps_ret. Qed.
Lemma done_good : keeps sys_good done.
Proof. apply keeps_ret. Qed.
#[local] Hint Resolve reply_good done_good : keeps.
Lemma action_op_good p params :
  keeps sys_good (action_op env error_value from_secs_f64 p params).
Proof. unfold action_op. frame. apply on_node_good. intros k. apply action_good. Qed.

Lemma with_params_good payload m : keeps sys_good m -> keeps sys_good (with_params payload m).
Proof. unfold with_params. destruct payload; [frame|done]. Qed.
Lemma no_params_good payload m : keeps sys_good m -> keeps sys_good (no_params payload m).
Proof. unfold no_params. destruct payload; [done|frame]. Qed.
#[local] Hint Resolve action_op_good : keeps.

Lemma dobj_push_good map name buf en sender : keeps good (dobj_push e cfg map name buf en sender).
Proof. unfold dobj_push. frame; apply update_bulk_good. Qed.
Lemma dobj_error_good map name st sender : keeps good (dobj_error e cfg map name st sender).
Proof. unfold dobj_error. frame; apply update_bulk_good. Qed.
Lemma item_config_good item : keeps good (item_config e item).
Proof. frame. Qed.

Ltac call_frame :=
  repeat first
    [ apply with_params_good | apply no_params_good
    | solve [eauto 3 with keeps nocore]
    | apply on_core_good; solve [eauto 3 using core_save_good, dobj_push_good, dobj_error_good,
        create_local_item_good, destroy_local_items_good, undeploy_good, set_enabled_good, lvar_op_good,
        item_config_good, force_announce_state_good, force_announce_state_for_good, keeps_log_ef
        with nocore | case_match; eauto 3 using force_announce_state_good,
        force_announce_state_for_good with nocore]
    | apply on_seq_good; first [apply execute_good | by apply terminate_world, _]
    | apply on_node_good; intros ?; first [apply action_result_good | apply terminate_action_good |
        unfold kill_actions; frame]
    | by apply modify_good
    | frame_step ].

(** Every call but [item.deploy] keeps the invariant, whatever its payload. *)
Lemma methods_good method sender :
  Forall (fun arm : string * (list Z -> M (Sys (Uuid := Uuid)) (option (Reply (Uuid := Uuid)))) =>
      arm.1 = "item.deploy" \/ forall payload, keeps sys_good (arm.2 payload))
    (methods env error_value from_secs_f64 value_to_string info_sort item_sort action_sort ts_now
       max_expected_duration abort_timeout op_enough sched decimal method sender).
Proof.
  unfold methods. repeat (apply Forall_cons; split; [cbn [fst snd]; first [by left | right; intros payload]|]);
    [..|apply Forall_nil, I].
  all: try unfold call_test, call_save, call_log_purge, call_log_get, call_node_get, call_dobj_push,
    call_dobj_error, call_dobj_list, call_dobj_get_config, call_dobj_validate, call_dobj_deploy,
    call_dobj_undeploy, call_node_list, call_spoint_list, call_item_summary, call_item_create,
    call_item_destroy, call_item_undeploy, call_item_get_config, call_item_list, call_item_announce,
    call_item_enable, call_item_state, call_action, call_action_toggle, call_run, call_seq,
    call_seq_terminate, call_action_result, call_action_terminate, call_action_kill, call_action_list,
    call_lvar_set, call_lvar_op, call_svc_enable, call_svc_deploy, call_svc_undeploy,
    call_svc_restart, call_svc_flash, call_svc_purge, call_svc_get_params, call_svc_get_init,
    call_svc_list, call_svc_get, call_svc_start_by_launcher, call_shutdown_core, call_sysinfo,
    call_bus_publish, call_simulate_crash, call_update, opt_regex; call_frame.
Qed.

(** The items an event registers are not items of another node. *)
Definition takes_nothing_over (ev : bus_event) s : Prop :=
  let w := sys_world s in
  match ev with
  | EvCall method payload _ =>
      method = "item.deploy" -> forall configs, up_deploy payload = Ok configs -> clash_free (CoDeploy configs) w
  | EvRaw subtopic [] sender =>
      forall oid, oid_from_path subtopic = Ok oid -> clash_free (CoDeploy [config_blank oid sender]) w
  | EvRepl subtopic payload sender =>
      forall oid rpl, oid_from_path subtopic = Ok oid -> up_repl payload = Ok rpl ->
        clash_free (CoRepl oid rpl sender) w
  | EvReplBulk payload sender =>
      forall rpl r w1 source, up_repl_bulk payload = Ok rpl ->
        scan_bulk env rpl sender ∅ None w = (Ok r, w1) -> r.2 = Some source ->
        clash_free (CoRemoteInventory r.1 source sender) w1
  | EvReplInventory subtopic payload sender =>
      forall l, up_repl_inventory payload = Ok l ->
        clash_free (CoRemoteInventory (foldl (fun m item => <[ri_oid item := item]> m) ∅ l)
          subtopic sender) w
  | _ => True
  end.

Lemma scan_bulk_good rpl sender inv src : keeps good (scan_bulk env rpl sender inv src).
Proof.
  revert inv src. induction rpl as [|r rpl IH]; intros inv src; simpl; [frame|].
  destruct (rse_oid r) as [oid|]; [|apply IH]. destruct r as [rse|node item|oid' rse]; [|apply IH|].
  - apply keeps_bind; [apply keeps_log_ef, repl_event_good|intros _; apply IH].
  - apply keeps_bind; [apply keeps_log_ef; exact (repl_event_good e cfg oid rse sender)|intros _; apply IH].
Qed.

(** The state after the handler of a frame, which runs when the core is
    active. *)
Lemma when_active_good (m : M (Sys (Uuid := Uuid)) unit) s :
  sys_good s (m s).2 ->
  sys_good s ((no_reply (s ← get; if is_active s then m else mret tt)) s).2.
Proof.
  intros Hm. unfold no_reply. rewrite run_bind, run_bind. unfold get at 1.
  destruct (is_active s); [|unfold sys_good; reflexivity]. by destruct (m s) as [[] s'].
Qed.

Lemma core_step_good (op : core_op) {A} (m : M World A) s :
  clash_free op (sys_world s) ->
  (m (sys_world s)).2 = (core_exec e cfg op (sys_world s)).2 -> sys_good s (on_core m s).2.
Proof. intros Hc E. apply on_core_step. rewrite E. by apply core_exec_good. Qed.

Lemma bulk_good payload sender s :
  takes_nothing_over (EvReplBulk payload sender) s ->
  sys_good s (bus_exec (EvReplBulk payload sender) s).2.
Proof.
  intros Hc. apply when_active_good, on_core_step. rewrite run_bind. simpl in Hc.
  destruct (up_repl_bulk payload) as [rpl|]; [|unfold mret; simpl; reflexivity].
  pose proof (scan_bulk_good rpl sender ∅ None (sys_world s)) as Hg.
  destruct (scan_bulk env rpl sender ∅ None (sys_world s)) as [[r|] w1] eqn:E; [|exact Hg].
  destruct (r.2) as [source|] eqn:Es; [|exact Hg]. etrans; [exact Hg|].
  apply process_remote_inventory_good. by apply (Hc rpl r w1 source).
Qed.

Lemma deploy_arm sender m :
  In ("item.deploy", m) (methods env error_value from_secs_f64 value_to_string info_sort item_sort
    action_sort ts_now max_expected_duration abort_timeout op_enough sched decimal "item.deploy" sender) ->
  m = call_item_deploy env.
Proof.
  unfold methods. intros Hin.
  repeat (destruct Hin as [Hin|Hin]; [first [discriminate Hin | by injection Hin]|]). done.
Qed.

Lemma call_good method payload sender s :
  takes_nothing_over (EvCall method payload sender) s -> sys_good s (call method payload sender s).2.
Proof.
  intros Hc. unfold handle_call. destruct (find _ _) as [[name m]|] eqn:E; [|unfold sys_good; reflexivity].
  apply find_some in E as [Hin ->%String.eqb_eq]. cbn [fst] in *.
  assert (sys_good s (m payload s).2) as Hm.
  { pose proof (methods_good name sender) as Hall. rewrite Forall_forall in Hall.
    destruct (Hall (name, m)) as [Hname|Hk]; [by apply list_elem_of_In| |apply Hk].
    cbn [fst] in Hname. subst name. apply deploy_arm in Hin as ->.
    unfold call_item_deploy, with_params. destruct payload as [|b payload]; [unfold sys_good; reflexivity|].
    rewrite run_bind. unfold lift. destruct (up_deploy (b :: payload)) as [configs|] eqn:Eu;
      [|unfold sys_good; reflexivity]. rewrite run_bind.
    pose proof (core_step_good (CoDeploy configs) (deploy_local_items e cfg configs true) s) as Hd.
    specialize (Hd (Hc eq_refl configs Eu) eq_refl). by destruct (on_core _ s) as [[] s']. }
  destruct (existsb _ open_methods); [done|]. unfold need_ready. rewrite run_bind. unfold get at 1.
  destruct (is_active s); [done|unfold sys_good; reflexivity].
Qed.

Lemma bus_exec_good ev s : takes_nothing_over ev s -> sys_good s (bus_exec ev s).2.
Proof.
  intros Hc. destruct ev as [method payload sender|sub payload sender|payload sender|sub payload|
    sub payload sender|payload sender|sub payload sender|sub payload sender];
    [by apply call_good|..|by apply bulk_good| |].
  - apply when_active_good. simpl in Hc. destruct (oid_from_path sub) as [oid|]; [|unfold sys_good; reflexivity].
    destruct payload as [|b payload].
    + apply on_core_step. unfold auto_create_item_from_raw_empty.
      destruct (auto_create_allowed _ _); [|reflexivity]. unfold log_ef. simpl.
      apply (core_exec_good e cfg (CoDeploy [config_blank oid sender])). exact (Hc oid eq_refl).
    + destruct (up_raw _) as [raw|]; [|unfold sys_good; reflexivity].
      apply on_core_good, keeps_log_ef, update_state_from_raw_good.
  - apply when_active_good. destruct (up_raw_bulk payload); [|unfold sys_good; reflexivity].
    apply on_core_good, update_bulk_good.
  - apply when_active_good. destruct (oid_from_path sub); [|unfold sys_good; reflexivity].
    destruct (up_action_event payload); [|unfold sys_good; reflexivity].
    apply on_node_good. intros _. apply on_mgr_good.
  - apply when_active_good. simpl in Hc. destruct (oid_from_path sub) as [oid|]; [|unfold sys_good; reflexivity].
    destruct (up_repl payload) as [rpl|] eqn:Er; [|unfold sys_good; reflexivity].
    by apply (core_step_good (CoRepl oid rpl sender)); [exact (Hc oid rpl eq_refl eq_refl)|].
  - apply when_active_good. simpl in Hc.
    destruct (up_repl_inventory payload) as [l|]; [|unfold sys_good; reflexivity].
    set (inv := foldl _ _ _) in *.
    by apply (core_step_good (CoRemoteInventory inv sub sender)); [exact (Hc l eq_refl)|].
  - apply when_active_good. destruct (up_node_state payload) as [nse|]; [|unfold sys_good; reflexivity].
    apply on_core_good. destruct (ns_status nse); [apply core_mark_source_online_good..|].
    apply destroy_source_good.
Qed.

(** A run of the node on events of the bus. *)
Fixpoint bus_run (evs : list bus_event) s : Sys :=
  match evs with
  | [] => s
  | ev :: evs => bus_run evs (bus_exec ev s).2
  end.
Fixpoint nothing_taken_over (evs : list bus_event) s : Prop :=
  match evs with
  | [] => True
  | ev :: evs => takes_nothing_over ev s /\ nothing_taken_over evs (bus_exec ev s).2
  end.

End spec.

(** ** States of other nodes *)

Section states.
Context `{Ext : Externals, NExt : !NodeExternals, !ObjectMaps, LogLevels, SvcExternals, !ParamsCodec}.
Context {Uuid : Type} `{Countable Uuid} `{!EapiExternals Uuid} `{!IeidLaws, !OidLaws}.
Variable (env : SysEnv (Uuid := Uuid)).
Implicit Types (s : Sys (Uuid := Uuid)) (w : World).
Abbreviation e := (se_core env).
Abbreviation cfg := (se_cfg env).
Definition state_events (l : list (OID * ReplicationStateEvent)) : list ReplicationStateEventExtended :=
  (fun p => RseBasicItem p.1 p.2) <$> l.
(** The events of an item, in their order. *)
Definition events_of (o : OID) (l : list (OID * ReplicationStateEvent)) : list ReplicationStateEvent :=
  (filter (fun p => p.1 = o) l).*2.
(** The items that an event would create exist already. *)
Definition creates_none (l : list (OID * ReplicationStateEvent)) w : Prop :=
  forall p, p ∈ l -> rse_force_accept p.2 = true -> is_Some (get_item p.1 (w_inventory w)).

Hypothesis (rse_oid_item : forall o r, rse_oid (RseBasicItem o r) = Some o).
Lemma scan_states l sender w :
  inv_good (w_inv w) -> creates_none l w ->
  exists w', scan_bulk env (state_events l) sender ∅ None w = (Ok (∅, None), w') /\
    w_inventory w' = w_inventory w /\
    forall o item c, get_item o (w_inventory w) = Some item -> it_state item = Some c ->
      read_state (w_store w') c = foldl (replica o item) (read_state (w_store w) c) (events_of o l).
Proof.
  revert w. induction l as [|[o r] l IH]; intros w Hg Hc; [by exists w|].
  cbn [state_events fmap list_fmap scan_bulk fst snd]. rewrite rse_oid_item, run_bind. unfold log_ef at 1.
  destruct (state_event_effect e o r sender w Hg) as [Hi Hs]; [exact (Hc (o, r) ltac:(set_solver))|].
  change (update_state_from_repl e o (RseBasicItem o r) sender w) with (update_state_from_repl e o (RseBasic r) sender w).
  set (w1 := (update_state_from_repl e o (RseBasic r) sender w).2) in *.
  destruct (IH w1) as (w' & E & Hi' & Hs').
  - apply (repl_event_good e cfg o r sender w Hg).
  - intros p Hp. rewrite Hi. apply Hc. set_solver.
  - exists w'. split; [exact E|]. split; [congruence|]. intros o' item c Ho Hl.
    rewrite (Hs' o' item c); [|congruence|done]. rewrite (Hs o' item c) by done. unfold events_of.
    rewrite filter_cons. simpl. repeat case_decide; try done; congruence.
Qed.
Lemma bulk_states l payload sender s :
  up_repl_bulk payload = Ok (state_events l) -> is_active s = true ->
  inv_good (w_inv (sys_world s)) -> creates_none l (sys_world s) ->
  exists s', replication_bulk_state_handler env payload sender s = (Ok tt, s') /\
    w_inventory (sys_world s') = w_inventory (sys_world s) /\
    forall o item c, get_item o (w_inventory (sys_world s)) = Some item -> it_state item = Some c ->
      read_state (w_store (sys_world s')) c = foldl (replica o item) (read_state (w_store (sys_world s)) c) (events_of o l).
Proof.
  intros Hu Ha Hg Hc. unfold replication_bulk_state_handler. rewrite run_bind. simpl. rewrite Ha, Hu.
  destruct (scan_states l sender (sys_world s) Hg Hc) as (w' & E & Hi & Hs).
  unfold on_core, on_node, on_seq, on_world. change (nd_world (ss_world (sy_seq s)).2) with (sys_world s).
  rewrite run_bind, E. eexists. split; [reflexivity|]. by split.
Qed.
End states.
