(* ===== verification/EapiExamples.v ===== *)
(** * Examples of the bus interface

    A node whose payloads are single bytes, each of which stands for one
    decoded structure. *)
From S2P Require Import Prelude Duration EvaCommon ItemState ItemTree Inventory Core Replication CoreSpec CoreInvariant CoreExamples ActMgr CoreAction CoreLaunch CoreOps Seq Logs Launcher SvcMgr SvcMgrExamples Eapi EapiSpec.

Module EapiExamples.
Import Sample CoreExamples.
#[local] Existing Instances SvcMgrExamples.levels SvcMgrExamples.svc_externals SvcMgrExamples.codec.

#[local] Instance objects : ObjectMaps := {
  ObjectMap := unit; DataObject := string; Endianess := unit;
  dobj_name s := s; om_names _ := []; om_get _ _ := None; om_size_of _ _ := None;
  om_validate _ := Ok tt; om_extend _ m := m; om_remove_bulk _ m := m;
  om_parse_values _ _ _ _ := Ok []; om_mapped_oids _ _ := []; om_name s := Ok s }.

Definition bad {A} (p : list Z) : EResult A := Err EInvalidData.

(** A sensor with a range and a description. *)
Definition hall : OID := (Sensor, "hall").
Definition hall_config : ItemConfigData :=
  mkConfig hall (Some (SStr "hall")) true (Some (mkLogic (Some (mkRange None (Some (f64_of_Z 50)) false true : Range))))
    None (Some 1%Z) (Some (SNum 20)) None.

(** Three states of the lamp of another node. *)
Definition lamp_events : list ReplicationStateEventExtended :=
  [RseBasicItem lamp (lamp_event 6); RseBasicItem lamp (lamp_event 8); RseBasicItem lamp (lamp_event 7)].

#[local] Instance eapi_externals : EapiExternals positive := {
  up_id _ := Ok "lvar:b"; up_uuid := bad; up_log_get := bad; up_dobj_push := bad;
  up_dobj_error := bad; up_dobj_deploy := bad; up_dobj_undeploy := bad;
  up_deploy p := Ok [if decide (p = [1%Z]) then hall_config else config counter 5];
  up_undeploy := bad; up_list := bad; up_announce := bad; up_state := bad; up_action := bad;
  up_toggle := bad; up_run := bad; up_seq := bad; up_afilter := bad; up_lvar_set := bad;
  up_svc_deploy := bad; up_svc_ids := bad; up_flash := bad; up_svc_list := bad; up_publish := bad;
  up_crash := bad; up_update := bad; up_raw _ := Ok (raw 25); up_raw_bulk := bad;
  up_action_event := bad; up_repl := bad; up_repl_bulk _ := Ok lamp_events; up_repl_inventory := bad;
  up_node_state := bad; rse_oid r := match r with RseBasicItem o _ => Some o | _ => None end; mask_parse _ := Err EInvalidData; mask_matches _ _ := true;
  mask_list_any := []; mask_list_new l := l; mask_list_of_oid _ := []; mask_list_of_value _ := Ok [];
  value_as_strings _ := None; value_as_string _ := None; value_to_u64 _ := Err EInvalidData;
  value_binary _ := None; regex_parse s := Ok s; lmacro_params := ParamsLmacro SUnit;
  DEFAULT_ACTION_PRIORITY := 100; DEFAULT_GET_RECORD_LIMIT := 50; LOCAL_NODE_ALIAS := ".local";
  REMOTE_ANY_NODE_ALIAS := ".remote-any" }.

Definition manager : Manager (Uuid := positive) := mkManager ∅ ∅ 600.
Definition outside (k : nat) : Outside (Uuid := positive) :=
  mkOutside 9%positive 10 10 (Err EFailed) [] (Ok tt) (Err EFailed).
Definition sys_env : SysEnv (Uuid := positive) :=
  mkSysEnv env cfg 5000000000 (SvcMgrExamples.env []) outside None (fun _ => Ok tt) (fun _ => Ok tt)
    (Ok tt) (Ok tt) (Ok tt) (Ok []) 0 (mkSystem [] 0 0 (f64_zero, f64_zero, f64_zero)).
Definition sys (w : World) : Sys (Uuid := positive) :=
  mkSys (mkSeqSt 0 (0, mkNode w manager []) [] ∅) SvcMgrExamples.start (mkObjects tt ∅ 0) [] CrNo true [] [].

Definition error_value (err : Error) : Value := SUnit.
Definition exec := bus_exec (Uuid := positive) sys_env error_value (fun _ => 0%Z) SvcMgrExamples.show
  (fun l => l) (fun l => l) (fun l => l) f64_zero (fun _ => "0") (fun _ => 0%Z) (fun _ => 0%Z)
  (fun _ _ _ => Ok tt) (fun l => l) (fun _ => 0%Z).
Definition run := bus_run (Uuid := positive) sys_env error_value (fun _ => 0%Z) SvcMgrExamples.show
  (fun l => l) (fun l => l) (fun l => l) f64_zero (fun _ => "0") (fun _ => 0%Z) (fun _ => 0%Z)
  (fun _ _ _ => Ok tt) (fun l => l) (fun _ => 0%Z).

Definition sleeping : World :=
  mkWorld (mkInv store_empty inventory_new) ∅ ∅ ∅ true false false false 0 0 [] [].


Definition events : list bus_event :=
  [EvCall "item.deploy" [1%Z] "eva.cli.1"; EvCall "item.deploy" [2%Z] "eva.cli.1";
   EvRaw "sensor/hall" [3%Z] "eva.controller.1"; EvCall "lvar.incr" [4%Z] "eva.cli.1";
   EvCall "test" [] "eva.cli.1"; EvCall "no.such" [] "eva.cli.1"].

Definition hall_item (σ : World) : option (option Logic * option Value * bool * Value) :=
  i ← get_item hall (w_inventory σ); l ← it_state i;
  Some (it_logic i, it_meta i, item_is_enabled (w_store σ) i, st_value (read_state (w_store σ) l)).


(** An empty raw event for an item that exists, from a sender that may create
    items: the item is deployed again without its range and its description. *)
Lemma empty_raw_resets_item :
  hall_item (sys_world (run (take 1 events) (sys w0))) =
    Some (cf_logic hall_config, cf_meta hall_config, true, SNum 20) /\
  hall_item (sys_world (run (take 1 events ++ [EvRaw "sensor/hall" [] "eva.controller.1"]) (sys w0))) =
    Some (None, None, true, SNum 20).
Proof. split; vm_refl. Qed.
End EapiExamples.
