(* ===== verification/Ieee.v ===== *)
(** * The bit patterns of floating point numbers

    The binary interchange formats of IEEE 754, for the code that moves
    floats through integers ([f32::bits], [f64::bits] and [from_bits] of the
    Modbus controller).  Floats are the standard library's [spec_float], so
    all NaN patterns are one value, encoded as the quiet NaN.  The formats
    are written once for a precision and a maximal exponent; [float_of_bits_bits]
    shows that decoding inverts encoding on every float of the format. *)
From Stdlib Require Import SpecFloat.
From S2P Require Import Prelude.

#[local] Open Scope Z_scope.

Section format.
Variables prec emax : Z.

(** The weight of the hidden bit, and of the sign. *)
Definition hidden_bit : Z := 2 ^ (prec - 1).
Definition sign_bit : Z := 2 * emax * hidden_bit.

Definition float_bits (x : spec_float) : Z :=
  match x with
  | S754_zero s => if s then sign_bit else 0
  | S754_infinity s => (if s then sign_bit else 0) + (2 * emax - 1) * hidden_bit
  | S754_nan => (2 * emax - 1) * hidden_bit + hidden_bit / 2
  | S754_finite s m e =>
      (if s then sign_bit else 0) +
      if Zpos m <? hidden_bit then Zpos m
      else (e - emin prec emax) * hidden_bit + Zpos m
  end.

Definition float_of_bits (b : Z) : spec_float :=
  let s := sign_bit <=? b in
  let r := b mod sign_bit in
  let ex := r / hidden_bit in
  let mant := r mod hidden_bit in
  if ex =? 0 then
    match mant with Zpos m => S754_finite s m (emin prec emax) | _ => S754_zero s end
  else if ex =? 2 * emax - 1 then
    if mant =? 0 then S754_infinity s else S754_nan
  else
    match mant + hidden_bit with
    | Zpos m => S754_finite s m (ex + emin prec emax - 1)
    | _ => S754_nan
    end.

Definition float_is_finite (x : spec_float) : bool :=
  match x with S754_zero _ | S754_finite _ _ _ => true | _ => false end.

Lemma digits2_pos_bounds m :
  2 ^ (Zpos (digits2_pos m) - 1) <= Zpos m < 2 ^ Zpos (digits2_pos m).
Proof.
  induction m as [m IH|m IH|]; simpl digits2_pos; [| |done];
    rewrite Pos2Z.inj_succ;
    replace (Z.succ (Zpos (digits2_pos m)) - 1) with (Z.succ (Zpos (digits2_pos m) - 1)) by lia;
    rewrite !Z.pow_succ_r by lia; lia.
Qed.

Hypothesis Hprec : 1 < prec.
Hypothesis Hemax : prec < emax.

Lemma hidden_bit_ge : 2 <= hidden_bit.
Proof.
  unfold hidden_bit. change 2 with (2 ^ 1) at 1. apply Z.pow_le_mono_r; lia.
Qed.

(** The fields of a pattern. *)
Lemma fields_div (s : bool) ex mant :
  0 <= ex < 2 * emax -> 0 <= mant < hidden_bit ->
  let b := (if s then sign_bit else 0) + ex * hidden_bit + mant in
  (sign_bit <=? b) = s ∧ b mod sign_bit / hidden_bit = ex ∧
  (b mod sign_bit) mod hidden_bit = mant.
Proof.
  intros Hex Hm b. pose proof hidden_bit_ge as HP.
  assert (0 <= ex * hidden_bit + mant < sign_bit) as Hr by (unfold sign_bit; nia).
  assert (b mod sign_bit = ex * hidden_bit + mant) as Hmod.
  { symmetry. apply (Z.mod_unique_pos _ _ (if s then 1 else 0)); [done|].
    unfold b. destruct s; lia. }
  rewrite Hmod. repeat split.
  - unfold b. destruct s; lia.
  - symmetry. apply (Z.div_unique_pos _ _ _ mant); lia.
  - symmetry. apply (Z.mod_unique_pos _ _ ex); lia.
Qed.

(** What it means for a mantissa to be canonical: subnormal with the
    smallest exponent, or with the hidden bit set. *)
Lemma bounded_cases m e :
  bounded prec emax m e = true ->
  (Zpos m < hidden_bit ∧ e = emin prec emax) ∨
  (hidden_bit <= Zpos m < 2 * hidden_bit ∧ emin prec emax <= e <= emax - prec).
Proof.
  unfold bounded, canonical_mantissa, fexp. intros [He%Z.eqb_eq ?%Z.leb_le]%andb_true_iff.
  pose proof (digits2_pos_bounds m) as [Hl Hu].
  set (d := Zpos (digits2_pos m)) in *. unfold hidden_bit.
  assert (2 ^ prec = 2 * 2 ^ (prec - 1)) as HP.
  { replace prec with (Z.succ (prec - 1)) at 1 by lia. apply Z.pow_succ_r. lia. }
  destruct (decide (d < prec)) as [Hd|Hd].
  - left. split; [|lia]. apply (Z.lt_le_trans _ _ _ Hu), Z.pow_le_mono_r; lia.
  - right. assert (d = prec) as -> by lia. split; [lia|lia].
Qed.

Lemma float_of_bits_bits x :
  valid_binary prec emax x = true -> float_of_bits (float_bits x) = x.
Proof.
  pose proof hidden_bit_ge as HP. unfold float_of_bits.
  destruct x as [s|s| |s m e]; simpl; intros Hv.
  - destruct (fields_div s 0 0) as (Hs & He & Hm); [lia..|].
    rewrite Z.mul_0_l, !Z.add_0_r in Hs, He, Hm. by rewrite Hs, He, Hm.
  - destruct (fields_div s (2 * emax - 1) 0) as (Hs & He & Hm); [lia..|].
    rewrite Z.add_0_r in Hs, He, Hm. rewrite Hs, He, Hm, Z.eqb_refl.
    destruct (Z.eqb_spec (2 * emax - 1) 0); [lia|done].
  - pose proof (Z.div_str_pos hidden_bit 2 ltac:(lia)).
    pose proof (Z.div_lt hidden_bit 2 ltac:(lia) ltac:(lia)).
    destruct (fields_div false (2 * emax - 1) (hidden_bit / 2)) as (Hs & He & Hm); [lia..|].
    rewrite Z.add_0_l in Hs, He, Hm. rewrite He, Hm, Z.eqb_refl.
    destruct (Z.eqb_spec (2 * emax - 1) 0); [lia|].
    destruct (Z.eqb_spec (hidden_bit / 2) 0); [lia|done].
  - destruct (bounded_cases m e Hv) as [[Hm ->]|[Hm He]].
    + destruct (fields_div s 0 (Zpos m)) as (Hs & He & Hmm); [lia..|].
      rewrite (proj2 (Z.ltb_lt _ _) Hm).
      rewrite Z.mul_0_l, Z.add_0_r in Hs, He, Hmm. by rewrite Hs, He, Hmm.
    + destruct (fields_div s (e - emin prec emax + 1) (Zpos m - hidden_bit))
        as (Hs & Hex & Hmm); [unfold emin in *; lia..|].
      replace (Zpos m <? hidden_bit) with false by lia.
      replace ((if s then sign_bit else 0) + ((e - emin prec emax) * hidden_bit + Zpos m))
        with ((if s then sign_bit else 0) + (e - emin prec emax + 1) * hidden_bit +
              (Zpos m - hidden_bit)) by lia.
      rewrite Hs, Hex, Hmm. unfold emin in *.
      destruct (Z.eqb_spec (e - (3 - emax - prec) + 1) 0); [lia|].
      destruct (Z.eqb_spec (e - (3 - emax - prec) + 1) (2 * emax - 1)); [lia|].
      rewrite Z.sub_add. f_equal. lia.
Qed.

Lemma float_bits_range x :
  valid_binary prec emax x = true -> 0 <= float_bits x < 2 * sign_bit.
Proof.
  pose proof hidden_bit_ge as HP. unfold sign_bit.
  destruct x as [s|s| |s m e]; simpl; intros Hv; unfold sign_bit.
  - destruct s; nia.
  - destruct s; nia.
  - pose proof (Z.div_str_pos hidden_bit 2 ltac:(lia)).
    pose proof (Z.div_lt hidden_bit 2 ltac:(lia) ltac:(lia)). nia.
  - destruct (bounded_cases m e Hv) as [[Hm ->]|[Hm He]].
    + rewrite (proj2 (Z.ltb_lt _ _) Hm). destruct s; nia.
    + replace (Zpos m <? hidden_bit) with false by lia. unfold emin in *.
      assert (0 <= (e - (3 - emax - prec)) * hidden_bit <= (2 * emax - 3) * hidden_bit) by nia.
      destruct s; lia.
Qed.
End format.

(** ** The two formats of the code *)

(** Single precision; [f64] is in the prelude. *)
Definition f32 : Type := spec_float.

Definition f32_bits : f32 -> Z := float_bits 24 128.
Definition f32_of_bits : Z -> f32 := float_of_bits 24 128.
Definition f64_bits : f64 -> Z := float_bits 53 1024.
Definition f64_of_bits : Z -> f64 := float_of_bits 53 1024.
Definition f32_valid (x : f32) : bool := valid_binary 24 128 x.
Definition f64_valid (x : f64) : bool := valid_binary 53 1024 x.

Lemma f32_of_bits_bits x : f32_valid x = true -> f32_of_bits (f32_bits x) = x.
Proof. by apply float_of_bits_bits. Qed.
Lemma f64_of_bits_bits x : f64_valid x = true -> f64_of_bits (f64_bits x) = x.
Proof. by apply float_of_bits_bits. Qed.
Lemma f32_bits_range x : f32_valid x = true -> 0 <= f32_bits x < 2 ^ 32.
Proof. apply (float_bits_range 24 128); lia. Qed.
Lemma f64_bits_range x : f64_valid x = true -> 0 <= f64_bits x < 2 ^ 64.
Proof. apply (float_bits_range 53 1024); lia. Qed.
