(* ===== verification/ModbusTypes.v ===== *)
(** * The Modbus controller: types and configuration

    [svc/controller-modbus/src/types.rs] and [common.rs]: the data types of a
    register block, registers and offsets with their textual forms, and the
    checks of the pull and action maps when the service starts.

    [ModbusExternals] extends the interface to [eva_common] with the numeric
    constructors of [Value] and its conversions, and adds what the service
    uses of [eva_sdk]: bit access on a [u16] and value transformations. *)
From Stdlib Require Import SpecFloat Ascii.
From S2P Require Import Prelude EvaCommon Ieee.

#[local] Open Scope Z_scope.

(** ** External code *)

Class ModbusExternals `{Externals} := {
  (* constructors of Value *)
  VU16 : Z -> Value;
  VI16 : Z -> Value;
  VU32 : Z -> Value;
  VI32 : Z -> Value;
  VU64 : Z -> Value;
  VF32 : f32 -> Value;
  value_as_bool : Value -> option bool;
  value_as_string : Value -> option string;
  value_is_numeric : Value -> bool;
  (* TryFrom<Value> *)
  try_u8 : Value -> EResult Z;
  try_u16 : Value -> EResult Z;
  try_i16 : Value -> EResult Z;
  try_u32 : Value -> EResult Z;
  try_i32 : Value -> EResult Z;
  try_u64 : Value -> EResult Z;
  try_i64 : Value -> EResult Z;
  try_f32 : Value -> EResult f32;
  try_f64 : Value -> EResult f64;
  (* eva_sdk::bitman::BitMan for u16 *)
  get_bit : Z -> Z -> bool;
  with_bit : Z -> Z -> bool -> Z;
  (* From<TryFromIntError> for Error *)
  try_from_int_error : Error;
  (* eva_sdk::controller::transform *)
  Task : Type;
  transform : list Task -> OID -> f64 -> EResult f64
}.

(** Conversions give numbers of the type they convert to; reading a number
    back gives the number; equal numbers compare equal. *)
Class ModbusLaws `{ModbusExternals} : Prop := {
  try_u16_range v z : try_u16 v = Ok z -> 0 <= z < 2 ^ 16;
  try_i16_range v z : try_i16 v = Ok z -> - 2 ^ 15 <= z < 2 ^ 15;
  try_u32_range v z : try_u32 v = Ok z -> 0 <= z < 2 ^ 32;
  try_i32_range v z : try_i32 v = Ok z -> - 2 ^ 31 <= z < 2 ^ 31;
  try_u64_range v z : try_u64 v = Ok z -> 0 <= z < 2 ^ 64;
  try_i64_range v z : try_i64 v = Ok z -> - 2 ^ 63 <= z < 2 ^ 63;
  try_f32_valid v x : try_f32 v = Ok x -> f32_valid x = true;
  try_f64_valid v x : try_f64 v = Ok x -> f64_valid x = true;
  try_u16_u8 z : 0 <= z < 2 ^ 8 -> try_u16 (VU8 z) = Ok z;
  VU16_eqb z : value_eqb (VU16 z) (VU16 z) = true;
  VI16_eqb z : value_eqb (VI16 z) (VI16 z) = true;
  VU32_eqb z : value_eqb (VU32 z) (VU32 z) = true;
  VI32_eqb z : value_eqb (VI32 z) (VI32 z) = true;
  VU64_eqb z : value_eqb (VU64 z) (VU64 z) = true;
  VI64_eqb z : value_eqb (VI64 z) (VI64 z) = true;
  VF32_eqb x : float_is_finite x = true -> value_eqb (VF32 x) (VF32 x) = true;
  VF64_eqb x : float_is_finite x = true -> value_eqb (VF64 x) (VF64 x) = true;
  get_bit_spec n b : 0 <= b < 16 -> get_bit n b = Z.testbit n b;
  with_bit_spec n b (v : bool) :
    0 <= b < 16 -> with_bit n b v = if v then Z.setbit n b else Z.clearbit n b
}.

(** ** Decimal numbers in strings *)

Definition digit_char (d : Z) : Ascii.ascii := Ascii.ascii_of_N (Z.to_N (48 + d)).
Definition char_digit (c : Ascii.ascii) : option Z :=
  let n := Z.of_N (Ascii.N_of_ascii c) - 48 in
  if (0 <=? n) && (n <=? 9) then Some n else None.

Fixpoint parse_digits (acc : Z) (s : string) : option Z :=
  match s with
  | EmptyString => Some acc
  | String c s' => match char_digit c with
                   | Some d => parse_digits (10 * acc + d) s'
                   | None => None
                   end
  end.

(** [s.parse::<uN>()]: an optional plus sign, then at least one digit. *)
Definition parse_uint (max : Z) (s : string) : option Z :=
  let body := match s with
              | String c s' => if Ascii.eqb c "+"%char then s' else s
              | EmptyString => s
              end in
  match body with
  | EmptyString => None
  | _ => match parse_digits 0 body with
         | Some n => if n <=? max then Some n else None
         | None => None
         end
  end.
Definition u8_max : Z := 255.
Definition u16_max : Z := 65535.

(** The decimal form of a number; a [u16] has at most five digits. *)
Fixpoint print_digits (fuel : nat) (n : Z) (acc : string) : string :=
  match fuel with
  | O => acc
  | S fuel' =>
      let acc' := String (digit_char (n mod 10)) acc in
      if n / 10 =? 0 then acc' else print_digits fuel' (n / 10) acc'
  end.
Definition print_u16 (n : Z) : string := print_digits 5 n EmptyString.

(** ** Types *)

(** svc/controller-modbus/src/types.rs:6-14 [ProtocolKind] *)
Inductive ProtocolKind := PkTcp | PkUdp | PkRtu | PkAscii | PkNative.

(** [rmodbus::ModbusProto] *)
Inductive ModbusProto := TcpUdp | Rtu | Ascii.

#[export] Instance ModbusProto_eq_dec : EqDecision ModbusProto.
Proof. solve_decision. Defined.

(** svc/controller-modbus/src/types.rs:17-23 [from] *)
Definition proto_of_kind (kind : ProtocolKind) : ModbusProto :=
  match kind with
  | PkTcp | PkUdp => TcpUdp
  | PkRtu | PkNative => Rtu
  | PkAscii => Ascii
  end.

(** svc/controller-modbus/src/types.rs:26-58 [ModbusType] *)
Inductive ModbusType :=
  | MtBit
  | Uint16 | Int16
  | Uint32 | Int32
  | Uint64 | Int64
  | Uint32w | Int32w
  | Uint64w | Int64w
  | Real32 | Real64
  | Real32b | Real64b.

#[export] Instance ModbusType_eq_dec : EqDecision ModbusType.
Proof. solve_decision. Defined.

(** svc/controller-modbus/src/types.rs:61-77 [ModbusType::size] *)
Definition mt_size (tp : ModbusType) : Z :=
  match tp with
  | MtBit | Uint16 | Int16 => 1
  | Uint32 | Int32 | Uint32w | Int32w | Real32 | Real32b => 2
  | Uint64 | Int64 | Uint64w | Int64w | Real64 | Real64b => 4
  end.

(** svc/controller-modbus/src/types.rs:136-142 [RegisterKind] *)
Inductive RegisterKind := Coil | Discrete | Input | Holding.

#[export] Instance RegisterKind_eq_dec : EqDecision RegisterKind.
Proof. solve_decision. Defined.

(** svc/controller-modbus/src/types.rs:145-156 [RegisterKind::from_char] *)
Definition rk_from_char (ch : Ascii.ascii) : EResult RegisterKind :=
  if Ascii.eqb ch "c"%char then Ok Coil
  else if Ascii.eqb ch "d"%char then Ok Discrete
  else if Ascii.eqb ch "i"%char then Ok Input
  else if Ascii.eqb ch "h"%char then Ok Holding
  else Err EInvalidParams.

(** svc/controller-modbus/src/types.rs:157-164 [RegisterKind::as_char] *)
Definition rk_as_char (k : RegisterKind) : Ascii.ascii :=
  match k with Coil => "c" | Discrete => "d" | Holding => "h" | Input => "i" end%char.

(** svc/controller-modbus/src/types.rs:165-167 [RegisterKind::is_bit_reg] *)
Definition is_bit_reg (k : RegisterKind) : bool :=
  bool_decide (k = Coil) || bool_decide (k = Discrete).

(** svc/controller-modbus/src/types.rs:170-174 [Register] *)
Record Register := mkReg { reg_kind : RegisterKind; reg_number : Z }.

(** svc/controller-modbus/src/types.rs:188-190 [Register::fmt] *)
Definition reg_fmt (r : Register) : string :=
  String (rk_as_char (reg_kind r)) (print_u16 (reg_number r)).

(** svc/controller-modbus/src/types.rs:230-236 [Offset] *)
Record Offset := mkOff { off_offset : Z; off_bit : option Z; off_absolute : bool }.

(** svc/controller-modbus/src/common.rs:35-47 [ActionMap] *)
Record ActionMap `{ModbusExternals} := mkAMap {
  am_reg : Register;
  am_tp : ModbusType;
  am_bit : option Z;
  am_unit : Z;
  am_transform : list Task
}.

(** svc/controller-modbus/src/common.rs:214-227 [PullTask] *)
Record PullTask `{ModbusExternals} := mkTask {
  pt_offset : Offset;
  pt_oid : OID;
  pt_value_delta : option f64;
  pt_tp : ModbusType;
  pt_transform : list Task;
  pt_block_offset : Z
}.

(** svc/controller-modbus/src/common.rs:148-156 [PullReg] *)
Record PullReg `{ModbusExternals} := mkPull {
  pr_reg : Register;
  pr_count : Z;
  pr_unit : Z;
  pr_map : list PullTask
}.

Section modbus_types.
Context `{ModbusExternals}.

(** svc/controller-modbus/src/types.rs:78-91 [ModbusType::normalize_value] *)
Definition normalize_value (tp : ModbusType) (value : Value) : EResult Value :=
  match tp with
  | MtBit => v ← try_u8 value; Ok (VU8 v)
  | Uint16 => v ← try_u16 value; Ok (VU16 v)
  | Int16 => v ← try_i16 value; Ok (VI16 v)
  | Uint32 | Uint32w => v ← try_u32 value; Ok (VU32 v)
  | Int32 | Int32w => v ← try_i32 value; Ok (VI32 v)
  | Uint64 | Uint64w => v ← try_u64 value; Ok (VU64 v)
  | Int64 | Int64w => v ← try_i64 value; Ok (VI64 v)
  | Real32 | Real32b => v ← try_f32 value; Ok (VF32 v)
  | Real64 | Real64b => v ← try_f64 value; Ok (VF64 v)
  end.

(** svc/controller-modbus/src/types.rs:94-100 [RegisterValue] *)
Record RegisterValue := mkRv {
  rv_register : Register;
  rv_bit : option Z;
  rv_value : Value
}.

(** svc/controller-modbus/src/types.rs:103-110 [RegisterValue::new0] *)
Definition rv_new0 (kind : RegisterKind) (number : Z) (value : Value) : RegisterValue :=
  mkRv (mkReg kind number) None value.

(** svc/controller-modbus/src/types.rs:111-118 [RegisterValue::new] *)
Definition rv_new (kind : RegisterKind) (number bit : Z) (value : Value) : RegisterValue :=
  mkRv (mkReg kind number) (Some bit) value.

(** The errors of [deserialize] are all mapped by [serde::de::Error::custom];
    the service sees an invalid configuration.

    svc/controller-modbus/src/types.rs:203-227 [deserialize] *)
Definition register_deserialize (v : Value) : EResult Register :=
  match value_as_string v with
  | Some valstr =>
      match valstr with
      | EmptyString => Err EInvalidData
      | String ch rest =>
          match rk_from_char ch with
          | Err _ => Err EInvalidData
          | Ok kind =>
              match parse_uint u16_max rest with
              | Some number => Ok (mkReg kind number)
              | None => Err EInvalidData
              end
          end
      end
  | None => Err EInvalidData
  end.

(** The loop over the summands; the sum is a [u16]
    (svc/controller-modbus/src/types.rs:279-282) *)
Fixpoint offset_sum (offset : Z) (sp : list string) : EResult Z :=
  match sp with
  | [] => Ok offset
  | v :: sp' =>
      match parse_uint u16_max v with
      | Some rel_offset => offset_sum (wrap 16 (offset + rel_offset)) sp'
      | None => Err EInvalidData
      end
  end.

(** svc/controller-modbus/src/types.rs:258-296 [deserialize] *)
Definition offset_deserialize (v : Value) : EResult Offset :=
  match value_as_string v with
  | Some valstr =>
      let '(val, absolute) :=
        match strip_prefix "=" valstr with
        | Some val => (val, true)
        | None => (valstr, false)
        end in
      let sp_bit := split_on slash val in
      let s := default EmptyString (head sp_bit) in
      bit ← match sp_bit with
            | _ :: b :: _ => match parse_uint u8_max b with
                             | Some b => Ok (Some b)
                             | None => Err EInvalidData
                             end
            | _ => Ok None
            end;
      offset ← offset_sum 0 (split_on "+"%char s);
      Ok (mkOff offset bit absolute)
  | None =>
      match try_u16 v with
      | Ok offset => Ok (mkOff offset None false)
      | Err _ => Err EInvalidData
      end
  end.

(** svc/controller-modbus/src/common.rs:66-99 [ActionMap::init] *)
Definition action_map_init (default_unit : option Z) (m : ActionMap) : EResult ActionMap :=
  unit ← if am_unit m =? 0 then ok_or default_unit EInvalidParams else Ok (am_unit m);
  let m' := mkAMap _ _ (am_reg m) (am_tp m) (am_bit m) unit (am_transform m) in
  match reg_kind (am_reg m) with
  | Coil | Discrete =>
      if decide (am_tp m ≠ MtBit) then Err EInvalidData else Ok m'
  | Holding | Input =>
      if decide (am_tp m = MtBit) then
        if am_bit m is None then Err EInvalidData else Ok m'
      else if am_bit m is Some _ then Err EInvalidData else Ok m'
  end.

(** The body of the loop over the tasks of a block
    (svc/controller-modbus/src/common.rs:171-208) *)
Definition pull_task_init (reg : Register) (task : PullTask) : EResult PullTask :=
  let o := off_offset (pt_offset task) in
  let reg_no := reg_number reg in
  block_offset ← if off_absolute (pt_offset task) then
                   if o <? reg_no then Err EInvalidData else Ok (o - reg_no)
                 else Ok o;
  let task' := mkTask _ _ (pt_offset task) (pt_oid task) (pt_value_delta task) (pt_tp task)
                 (pt_transform task) block_offset in
  match reg_kind reg with
  | Coil | Discrete =>
      if bool_decide (pt_tp task ≠ MtBit) || bool_decide (is_Some (pt_value_delta task)) then
        Err EInvalidData
      else Ok task'
  | Holding | Input =>
      if decide (pt_tp task = MtBit) then
        if off_bit (pt_offset task) is None then Err EInvalidData else Ok task'
      else if off_bit (pt_offset task) is Some _ then Err EInvalidData else Ok task'
  end.

(** The loop (svc/controller-modbus/src/common.rs:170-209) *)
Fixpoint pull_tasks_init (reg : Register) (l : list PullTask) : EResult (list PullTask) :=
  match l with
  | [] => Ok []
  | t :: l' => t' ← pull_task_init reg t; ts ← pull_tasks_init reg l'; Ok (t' :: ts)
  end.

(** svc/controller-modbus/src/common.rs:163-211 [PullReg::init] *)
Definition pull_reg_init (default_unit : option Z) (p : PullReg) : EResult PullReg :=
  unit ← if pr_unit p =? 0 then ok_or default_unit EInvalidParams else Ok (pr_unit p);
  map ← pull_tasks_init (pr_reg p) (pr_map p);
  Ok (mkPull _ _ (pr_reg p) (pr_count p) unit map).
End modbus_types.

(** ** Registers round trip *)

Lemma char_digit_char d : 0 <= d <= 9 -> char_digit (digit_char d) = Some d.
Proof.
  intros Hd. unfold char_digit, digit_char. rewrite Ascii.N_ascii_embedding by lia.
  rewrite Z2N.id by lia. replace (48 + d - 48) with d by lia.
  by replace ((0 <=? d) && (d <=? 9)) with true by lia.
Qed.

(** Parsing the digits of [n] is what is left after [n] was parsed. *)
Lemma parse_print_digits fuel n acc :
  0 <= n < 10 ^ Z.of_nat fuel ->
  parse_digits 0 (print_digits fuel n acc) = parse_digits n acc.
Proof.
  revert n acc. induction fuel as [|fuel IH]; intros n acc Hn; simpl.
  { by replace n with 0 by (simpl in Hn; lia). }
  pose proof (Z.mod_pos_bound n 10 ltac:(lia)).
  pose proof (Z.div_mod n 10 ltac:(lia)) as Hdm.
  rewrite Nat2Z.inj_succ, Z.pow_succ_r in Hn by lia.
  destruct (Z.eqb_spec (n / 10) 0) as [E|E].
  - cbn [parse_digits]. rewrite char_digit_char by lia. f_equal. lia.
  - rewrite IH by (split; [apply Z.div_pos; lia|apply Z.div_lt_upper_bound; lia]).
    cbn [parse_digits]. rewrite char_digit_char by lia. f_equal. lia.
Qed.

Lemma print_digits_head fuel n acc :
  0 <= n -> (0 < fuel)%nat ->
  exists d s, print_digits fuel n acc = String (digit_char d) s ∧ 0 <= d <= 9.
Proof.
  revert n acc. induction fuel as [|fuel IH]; intros n acc Hn Hf; [lia|]. simpl.
  pose proof (Z.mod_pos_bound n 10 ltac:(lia)).
  destruct (n / 10 =? 0); [eauto with lia|].
  destruct fuel as [|fuel]; [simpl; eauto with lia|]. apply IH; [apply Z.div_pos; lia|lia].
Qed.

Lemma digit_char_plus d : 0 <= d <= 9 -> Ascii.eqb (digit_char d) "+"%char = false.
Proof.
  intros Hd. apply Ascii.eqb_neq. intros E%(f_equal char_digit).
  by rewrite char_digit_char in E.
Qed.

Lemma parse_print_u16 n : 0 <= n <= u16_max -> parse_uint u16_max (print_u16 n) = Some n.
Proof.
  intros Hn. unfold parse_uint, print_u16.
  pose proof (parse_print_digits 5 n EmptyString ltac:(simpl; unfold u16_max in Hn; lia)) as Hp.
  destruct (print_digits_head 5 n EmptyString) as (d & s & E & Hd); [lia..|].
  rewrite E in *. rewrite digit_char_plus by done. rewrite Hp. simpl.
  by replace (n <=? u16_max) with true by lia.
Qed.

Lemma rk_char_roundtrip k : rk_from_char (rk_as_char k) = Ok k.
Proof. by destruct k. Qed.

(** A register that is printed and read back is the same register. *)
Lemma register_roundtrip `{ModbusExternals} v r :
  value_as_string v = Some (reg_fmt r) -> 0 <= reg_number r <= u16_max ->
  register_deserialize v = Ok r.
Proof.
  intros Hv Hr. unfold register_deserialize. rewrite Hv. unfold reg_fmt.
  rewrite rk_char_roundtrip, parse_print_u16 by done. by destruct r.
Qed.
