(* ===== verification/ModbusCodec.v ===== *)
(** * The Modbus controller: values and registers

    How the controller writes a value into 16-bit registers and reads it back
    ([svc/controller-modbus/src/modbus.rs]): [encode_value] is the table of
    [set_reg] that turns a value into registers, [parse_block_value] the
    function that reads one out of a block.  [encode_parse_roundtrip] shows
    that reading inverts writing for each data type and at every position of
    a block. *)
From Stdlib Require Import SpecFloat.
From S2P Require Import Prelude EvaCommon Ieee ModbusTypes.

#[local] Open Scope Z_scope.

(** ** Bytes and registers *)

(** [to_be_bytes] of an integer of [k] bytes, and [from_be_bytes]. *)
Fixpoint le_bytes (k : nat) (n : Z) : list Z :=
  match k with O => [] | S k' => n mod 256 :: le_bytes k' (n / 256) end.
Definition be_bytes (k : nat) (n : Z) : list Z := reverse (le_bytes k n).
Definition from_be_bytes (bs : list Z) : Z := foldl (fun a b => a * 256 + b) 0 bs.

(** The signed number a pattern of [w] bits stands for. *)
Definition signed (w n : Z) : Z := if n <? 2 ^ (w - 1) then n else n - 2 ^ w.

(** [(u16::from(b[i]) << 8) + u16::from(b[i + 1])] *)
Definition word (b : list Z) (i : nat) : Z :=
  Z.shiftl (nth i b 0) 8 + nth (S i) b 0.
(** [(v >> 8) as u8] and [v as u8] *)
Definition hi (v : Z) : Z := wrap 8 (Z.shiftr v 8).
Definition lo (v : Z) : Z := wrap 8 v.

#[global] Arguments be_bytes : simpl never.
#[global] Arguments from_be_bytes : simpl never.
#[global] Arguments word : simpl never.
#[global] Arguments hi : simpl never.
#[global] Arguments lo : simpl never.

Section codec.
Context `{ModbusExternals}.

(** The registers of a value that is not a single bit
    (svc/controller-modbus/src/modbus.rs:158-277) *)
Definition encode_value (tp : ModbusType) (value : Value) : EResult (list Z) :=
  match tp with
  | MtBit => Err EInvalidParams
  | Uint16 => val ← try_u16 value; Ok [val]
  | Int16 => val ← try_i16 value; Ok [wrap 16 val]
  | Uint32 =>
      val ← try_u32 value;
      let b := be_bytes 4 val in Ok [word b 0; word b 2]
  | Int32 =>
      val ← try_i32 value;
      let b := be_bytes 4 val in Ok [word b 0; word b 2]
  | Uint64 =>
      val ← try_u64 value;
      let b := be_bytes 8 val in Ok [word b 0; word b 2; word b 4; word b 6]
  | Int64 =>
      val ← try_i64 value;
      let b := be_bytes 8 val in Ok [word b 0; word b 2; word b 4; word b 6]
  | Uint32w =>
      val ← try_u32 value;
      let b := be_bytes 4 val in Ok [word b 2; word b 0]
  | Int32w =>
      val ← try_i32 value;
      let b := be_bytes 4 val in Ok [word b 2; word b 0]
  | Uint64w =>
      val ← try_u64 value;
      let b := be_bytes 8 val in Ok [word b 6; word b 4; word b 2; word b 0]
  | Int64w =>
      val ← try_i64 value;
      let b := be_bytes 8 val in Ok [word b 6; word b 4; word b 2; word b 0]
  | Real32 =>
      val ← try_f32 value;
      let b := be_bytes 4 (f32_bits val) in Ok [word b 2; word b 0]
  | Real64 =>
      val ← try_f64 value;
      let b := be_bytes 8 (f64_bits val) in Ok [word b 6; word b 4; word b 2; word b 0]
  | Real32b =>
      val ← try_f32 value;
      let b := be_bytes 4 (f32_bits val) in Ok [word b 0; word b 2]
  | Real64b =>
      val ← try_f64 value;
      let b := be_bytes 8 (f64_bits val) in Ok [word b 0; word b 2; word b 4; word b 6]
  end.

(** The macro [get!]; an offset is a [u16]
    (svc/controller-modbus/src/modbus.rs:381-387) *)
Definition block_get (block : list Z) (o : Z) : EResult Z :=
  ok_or (block !! Z.to_nat (wrap 16 o)) EInvalidData.

(** A float has to be finite to be a value. *)
Definition finite_or_err (v : Value) (x : spec_float) : EResult Value :=
  if float_is_finite x then Ok v else Err EInvalidData.

(** svc/controller-modbus/src/modbus.rs:372-564 [parse_block_value] *)
Definition parse_block_value (block : list Z) (offset : Z) (tp : ModbusType) (bit : option Z)
    : EResult Value :=
  match tp with
  | MtBit =>
      reg_value ← block_get block offset;
      bit ← ok_or bit EInvalidParams;
      Ok (VU8 (Z.b2z (get_bit reg_value bit)))
  | Uint16 => v ← block_get block offset; Ok (VU16 v)
  | Int16 => v ← block_get block offset; Ok (VI16 (signed 16 v))
  | Uint32 =>
      v1 ← block_get block offset;
      v2 ← block_get block (offset + 1);
      Ok (VU32 (from_be_bytes [hi v1; lo v1; hi v2; lo v2]))
  | Int32 =>
      v1 ← block_get block offset;
      v2 ← block_get block (offset + 1);
      Ok (VI32 (signed 32 (from_be_bytes [hi v1; lo v1; hi v2; lo v2])))
  | Uint64 =>
      v1 ← block_get block offset;
      v2 ← block_get block (offset + 1);
      v3 ← block_get block (offset + 2);
      v4 ← block_get block (offset + 3);
      Ok (VU64 (from_be_bytes [hi v1; lo v1; hi v2; lo v2; hi v3; lo v3; hi v4; lo v4]))
  | Int64 =>
      v1 ← block_get block offset;
      v2 ← block_get block (offset + 1);
      v3 ← block_get block (offset + 2);
      v4 ← block_get block (offset + 3);
      Ok (VI64 (signed 64
            (from_be_bytes [hi v1; lo v1; hi v2; lo v2; hi v3; lo v3; hi v4; lo v4])))
  | Uint32w =>
      v1 ← block_get block offset;
      v2 ← block_get block (offset + 1);
      Ok (VU32 (from_be_bytes [hi v2; lo v2; hi v1; lo v1]))
  | Int32w =>
      v1 ← block_get block offset;
      v2 ← block_get block (offset + 1);
      Ok (VI32 (signed 32 (from_be_bytes [hi v2; lo v2; hi v1; lo v1])))
  | Uint64w =>
      v1 ← block_get block offset;
      v2 ← block_get block (offset + 1);
      v3 ← block_get block (offset + 2);
      v4 ← block_get block (offset + 3);
      Ok (VU64 (from_be_bytes [hi v4; lo v4; hi v3; lo v3; hi v2; lo v2; hi v1; lo v1]))
  | Int64w =>
      v1 ← block_get block offset;
      v2 ← block_get block (offset + 1);
      v3 ← block_get block (offset + 2);
      v4 ← block_get block (offset + 3);
      Ok (VI64 (signed 64
            (from_be_bytes [hi v4; lo v4; hi v3; lo v3; hi v2; lo v2; hi v1; lo v1])))
  | Real32 =>
      v1 ← block_get block offset;
      v2 ← block_get block (offset + 1);
      let val_f := f32_of_bits (from_be_bytes [hi v2; lo v2; hi v1; lo v1]) in
      finite_or_err (VF32 val_f) val_f
  | Real64 =>
      v1 ← block_get block offset;
      v2 ← block_get block (offset + 1);
      v3 ← block_get block (offset + 2);
      v4 ← block_get block (offset + 3);
      let val_f := f64_of_bits
        (from_be_bytes [hi v4; lo v4; hi v3; lo v3; hi v2; lo v2; hi v1; lo v1]) in
      finite_or_err (VF64 val_f) val_f
  | Real32b =>
      v1 ← block_get block (offset + 1);
      v2 ← block_get block offset;
      let val_f := f32_of_bits (from_be_bytes [hi v2; lo v2; hi v1; lo v1]) in
      finite_or_err (VF32 val_f) val_f
  | Real64b =>
      v1 ← block_get block (offset + 3);
      v2 ← block_get block (offset + 2);
      v3 ← block_get block (offset + 1);
      v4 ← block_get block offset;
      let val_f := f64_of_bits
        (from_be_bytes [hi v4; lo v4; hi v3; lo v3; hi v2; lo v2; hi v1; lo v1]) in
      finite_or_err (VF64 val_f) val_f
  end.

(** The floats that are not finite are written but not read. *)
Definition readable (tp : ModbusType) (value : Value) : bool :=
  match tp with
  | Real32 | Real32b => match try_f32 value with Ok x => float_is_finite x | Err _ => false end
  | Real64 | Real64b => match try_f64 value with Ok x => float_is_finite x | Err _ => false end
  | _ => true
  end.
End codec.

(** ** Bytes *)

Lemma le_bytes_length k n : length (le_bytes k n) = k.
Proof. revert n. induction k; intros; simpl; auto. Qed.
Lemma le_bytes_range k n : Forall (fun b => 0 <= b < 256) (le_bytes k n).
Proof.
  revert n. induction k; intros; simpl; constructor; auto. apply Z.mod_pos_bound. lia.
Qed.

Lemma from_be_be_bytes k n : from_be_bytes (be_bytes k n) = n mod 256 ^ Z.of_nat k.
Proof.
  unfold from_be_bytes, be_bytes.
  revert n. induction k as [|k IH]; intros n; simpl le_bytes.
  { by rewrite Z.mod_1_r. }
  rewrite reverse_cons, foldl_snoc, IH, Nat2Z.inj_succ, Z.pow_succ_r by lia.
  rewrite Z.rem_mul_r by lia. lia.
Qed.

Lemma hi_word a b : 0 <= a < 256 -> 0 <= b < 256 -> hi (Z.shiftl a 8 + b) = a.
Proof.
  intros. unfold hi, wrap. rewrite Z.shiftl_mul_pow2, Z.shiftr_div_pow2 by lia.
  change (2 ^ 8) with 256. rewrite Z.div_add_l, (Z.div_small b) by lia.
  rewrite Z.add_0_r. by apply Z.mod_small.
Qed.
Lemma lo_word a b : 0 <= b < 256 -> lo (Z.shiftl a 8 + b) = b.
Proof.
  intros. unfold lo, wrap. rewrite Z.shiftl_mul_pow2 by lia. change (2 ^ 8) with 256.
  rewrite Z.add_comm, Z.mod_add by lia. by apply Z.mod_small.
Qed.

Lemma word_range k n i : 0 <= word (be_bytes k n) i < 2 ^ 16.
Proof.
  assert (forall j, 0 <= nth j (be_bytes k n) 0 < 256) as Hb.
  { intros j. destruct (nth_in_or_default j (be_bytes k n) 0) as [Hin| ->]; [|lia].
    pose proof (Forall_reverse (fun b => 0 <= b < 256) (le_bytes k n)) as [_ Hr].
    specialize (Hr (le_bytes_range k n)). rewrite Forall_forall in Hr.
    by apply Hr, list_elem_of_In. }
  unfold word. rewrite Z.shiftl_mul_pow2 by lia.
  pose proof (Hb i). pose proof (Hb (S i)). lia.
Qed.

(** Reading the words of a number in the order they were taken. *)
Lemma words4 n :
  let b := be_bytes 4 n in
  from_be_bytes [hi (word b 0); lo (word b 0); hi (word b 2); lo (word b 2)] = n mod 2 ^ 32.
Proof.
  intros b. change (2 ^ 32) with (256 ^ Z.of_nat 4). rewrite <-from_be_be_bytes. fold b.
  assert (length b = 4%nat) as Hl by (unfold b, be_bytes; by rewrite length_reverse, le_bytes_length).
  assert (Forall (fun x => 0 <= x < 256) b) as Hr
    by (apply Forall_reverse, le_bytes_range).
  destruct b as [|b0 [|b1 [|b2 [|b3 []]]]]; try done.
  decompose_Forall_hyps. unfold word; cbn [nth]. by rewrite !hi_word, !lo_word.
Qed.

Lemma words8 n :
  let b := be_bytes 8 n in
  from_be_bytes [hi (word b 0); lo (word b 0); hi (word b 2); lo (word b 2);
                 hi (word b 4); lo (word b 4); hi (word b 6); lo (word b 6)] = n mod 2 ^ 64.
Proof.
  intros b. change (2 ^ 64) with (256 ^ Z.of_nat 8). rewrite <-from_be_be_bytes. fold b.
  assert (length b = 8%nat) as Hl by (unfold b, be_bytes; by rewrite length_reverse, le_bytes_length).
  assert (Forall (fun x => 0 <= x < 256) b) as Hr
    by (apply Forall_reverse, le_bytes_range).
  destruct b as [|b0 [|b1 [|b2 [|b3 [|b4 [|b5 [|b6 [|b7 []]]]]]]]]; try done.
  decompose_Forall_hyps. unfold word; cbn [nth]. by rewrite !hi_word, !lo_word.
Qed.

Lemma signed_wrap w z :
  0 < w -> - 2 ^ (w - 1) <= z < 2 ^ (w - 1) -> signed w (z mod 2 ^ w) = z.
Proof.
  intros Hw Hz. unfold signed.
  assert (2 ^ w = 2 * 2 ^ (w - 1)) as Hp.
  { replace w with (Z.succ (w - 1)) at 1 by lia. apply Z.pow_succ_r. lia. }
  destruct (decide (0 <= z)).
  - rewrite Z.mod_small by lia. by replace (z <? 2 ^ (w - 1)) with true by lia.
  - replace (z mod 2 ^ w) with (z + 2 ^ w)
      by (apply (Z.mod_unique_pos _ _ (-1)); lia).
    replace (z + 2 ^ w <? 2 ^ (w - 1)) with false by lia. lia.
Qed.

(** ** Blocks *)

Lemma block_get_app pre regs post (i : nat) o r :
  Z.of_nat (length pre) + o < 2 ^ 16 -> o = Z.of_nat i -> regs !! i = Some r ->
  block_get (pre ++ regs ++ post) (Z.of_nat (length pre) + o) = Ok r.
Proof.
  intros Hlt -> Hr. unfold block_get, wrap. rewrite Z.mod_small by lia.
  replace (Z.to_nat (Z.of_nat (length pre) + Z.of_nat i)) with (length pre + i)%nat by lia.
  rewrite lookup_app_r by lia. replace (length pre + i - length pre)%nat with i by lia.
  by rewrite (lookup_app_l_Some _ _ _ _ Hr).
Qed.

(** The registers of a value, read one by one. *)
Lemma block_get1 pre a post :
  let o := Z.of_nat (length pre) in
  o + 1 <= 2 ^ 16 -> block_get (pre ++ [a] ++ post) o = Ok a.
Proof.
  intros o Ho. rewrite <-(Z.add_0_r o). by apply (block_get_app _ _ _ 0); [lia|..].
Qed.
Lemma block_get2 pre a b post :
  let o := Z.of_nat (length pre) in
  o + 2 <= 2 ^ 16 ->
  block_get (pre ++ [a; b] ++ post) o = Ok a ∧
  block_get (pre ++ [a; b] ++ post) (o + 1) = Ok b.
Proof.
  intros o Ho. rewrite <-(Z.add_0_r o) at 1.
  split; [apply (block_get_app _ _ _ 0)|apply (block_get_app _ _ _ 1)]; done || lia.
Qed.
Lemma block_get4 pre a b c d post :
  let o := Z.of_nat (length pre) in
  o + 4 <= 2 ^ 16 ->
  block_get (pre ++ [a; b; c; d] ++ post) o = Ok a ∧
  block_get (pre ++ [a; b; c; d] ++ post) (o + 1) = Ok b ∧
  block_get (pre ++ [a; b; c; d] ++ post) (o + 2) = Ok c ∧
  block_get (pre ++ [a; b; c; d] ++ post) (o + 3) = Ok d.
Proof.
  intros o Ho. rewrite <-(Z.add_0_r o) at 1.
  repeat split; [apply (block_get_app _ _ _ 0)|apply (block_get_app _ _ _ 1)
    |apply (block_get_app _ _ _ 2)|apply (block_get_app _ _ _ 3)]; done || lia.
Qed.

Section roundtrip.
Context `{ModbusLaws}.
#[local] Opaque block_get f32_of_bits f64_of_bits f32_bits f64_bits Z.pow.

(** Read the registers, leaving the number they stand for. *)
Local Ltac read2 :=
  match goal with Ho : Z.of_nat (length ?pre) + 2 <= _ |- context [?pre ++ [?a; ?b] ++ ?post] =>
    destruct (block_get2 pre a b post Ho) as (-> & ->) end; simpl; rewrite words4.
Local Ltac read4 :=
  match goal with Ho : Z.of_nat (length ?pre) + 4 <= _ |- context [?pre ++ [?a; ?b; ?c; ?d] ++ ?post] =>
    destruct (block_get4 pre a b c d post Ho) as (-> & -> & -> & ->) end; simpl; rewrite words8.

(** What can be written can be normalized, and compares equal to itself
    when it can be read. *)
Lemma encode_normalize tp value regs :
  encode_value tp value = Ok regs ->
  exists n, normalize_value tp value = Ok n ∧ (readable tp value = true -> value_eqb n n = true).
Proof.
  intros He. destruct tp; [done|..];
    cbn [encode_value normalize_value readable] in *;
    lazymatch type of He with
    | (?r ≫= _) = _ => destruct r as [x|] eqn:Hv; [|done]
    end; (eexists; split; [done|]); intros Hx;
    first [apply VU16_eqb | apply VI16_eqb | apply VU32_eqb | apply VI32_eqb | apply VU64_eqb
          | apply VI64_eqb | by apply VF32_eqb | by apply VF64_eqb].
Qed.

(** A value takes the registers of its type, and each is a [u16]. *)
Lemma encode_value_regs tp value regs :
  encode_value tp value = Ok regs ->
  Z.of_nat (length regs) = mt_size tp ∧ Forall (fun v => 0 <= v < 2 ^ 16) regs.
Proof.
  intros He. destruct tp; [done|..]; cbn [encode_value] in He;
    lazymatch type of He with
    | (?r ≫= _) = _ => destruct r as [x|] eqn:Hv; [|done]
    end; cbn [mbind EResult_bind] in He; injection He as <-; (split; [done|]);
    repeat constructor; try apply word_range.
  all: first [apply (try_u16_range _ _ Hv) | apply Z.mod_pos_bound; lia].
Qed.

Lemma parse_encoded tp value regs pre post bit :
  encode_value tp value = Ok regs ->
  Z.of_nat (length pre) + mt_size tp <= 2 ^ 16 ->
  parse_block_value (pre ++ regs ++ post) (Z.of_nat (length pre)) tp bit =
    if readable tp value then normalize_value tp value else Err EInvalidData.
Proof.
  intros He Hlen.
  destruct tp; [done|..]; cbn [encode_value mt_size readable normalize_value] in *;
    lazymatch type of He with
    | (?r ≫= _) = _ => destruct r as [x|] eqn:Hv; [|done]
    end; cbn [mbind EResult_bind] in He; injection He as <-; cbn [parse_block_value].
  - by rewrite block_get1.
  - rewrite block_get1 by done. simpl. unfold wrap. by rewrite signed_wrap by (done || eauto using try_i16_range).
  - read2. rewrite Z.mod_small by eauto using try_u32_range. done.
  - read2. rewrite signed_wrap by (done || eauto using try_i32_range). done.
  - read4. rewrite Z.mod_small by eauto using try_u64_range. done.
  - read4. rewrite signed_wrap by (done || eauto using try_i64_range). done.
  - read2. rewrite Z.mod_small by eauto using try_u32_range. done.
  - read2. rewrite signed_wrap by (done || eauto using try_i32_range). done.
  - read4. rewrite Z.mod_small by eauto using try_u64_range. done.
  - read4. rewrite signed_wrap by (done || eauto using try_i64_range). done.
  - read2. rewrite Z.mod_small, f32_of_bits_bits by eauto using f32_bits_range, try_f32_valid. done.
  - read4. rewrite Z.mod_small, f64_of_bits_bits by eauto using f64_bits_range, try_f64_valid. done.
  - read2. rewrite Z.mod_small, f32_of_bits_bits by eauto using f32_bits_range, try_f32_valid. done.
  - read4. rewrite Z.mod_small, f64_of_bits_bits by eauto using f64_bits_range, try_f64_valid. done.
Qed.
(** C31: Reading inverts writing.  When the controller can write a value as
    registers of a type, reading the type at the position of a block where
    they are gives the value converted to the type, or an error if it is a
    float that is not finite. *)
Theorem encode_parse_roundtrip tp value regs pre post bit :
  encode_value tp value = Ok regs ->
  Z.of_nat (length pre) + mt_size tp <= 2 ^ 16 ->
  parse_block_value (pre ++ regs ++ post) (Z.of_nat (length pre)) tp bit =
    if readable tp value then normalize_value tp value else Err EInvalidData.
Proof. apply parse_encoded. Qed.
End roundtrip.
