(* ===== verification/ModbusMaster.v ===== *)
(** * The Modbus controller: reading and writing registers

    The client ([svc/controller-modbus/src/client.rs]), the operations on
    registers with retries and verification ([modbus.rs]), the unit actions
    ([actions.rs]) and the block puller ([pull.rs]).

    [Rmodbus] is what the client uses of the [rmodbus] crate: a request
    generates a frame and parses the response to it.  The transport (a
    socket, a serial port or the bus) is [process_request], a computation on
    the device; a request that times out raises an error.  [IdealDevice]
    states what a device that follows the protocol does: the frames read and
    write the holding registers. *)
From Stdlib Require Import SpecFloat.
From S2P Require Import Prelude EvaCommon Ieee ModbusTypes ModbusCodec.

#[local] Open Scope Z_scope.

(** ** External code *)

Class Rmodbus := {
  ModbusRequest : Type;
  new_tcp_udp : Z -> Z -> ModbusRequest;
  req_new : Z -> ModbusProto -> ModbusRequest;
  (* each of these updates the request and writes a frame *)
  generate_get_coils : Z -> Z -> ModbusRequest -> option (list Z * ModbusRequest);
  generate_get_discretes : Z -> Z -> ModbusRequest -> option (list Z * ModbusRequest);
  generate_get_inputs : Z -> Z -> ModbusRequest -> option (list Z * ModbusRequest);
  generate_get_holdings : Z -> Z -> ModbusRequest -> option (list Z * ModbusRequest);
  generate_set_coil : Z -> bool -> ModbusRequest -> option (list Z * ModbusRequest);
  generate_set_holding : Z -> Z -> ModbusRequest -> option (list Z * ModbusRequest);
  generate_set_holdings_bulk : Z -> list Z -> ModbusRequest -> option (list Z * ModbusRequest);
  parse_u16 : ModbusRequest -> list Z -> option (list Z);
  parse_bool : ModbusRequest -> list Z -> option (list bool);
  parse_ok : ModbusRequest -> list Z -> option unit
}.

(** ** State *)

(** svc/controller-modbus/src/client.rs:333-333 [TrId] *)
Record TrId := mkTrId { tr_curr : Z }.

(** svc/controller-modbus/src/client.rs:336-338 [default] *)
Definition tr_id_default : TrId := mkTrId 1.

(** svc/controller-modbus/src/client.rs:342-347 [TrId::generate] *)
Definition tr_id_generate (self : TrId) : Z * TrId :=
  let curr := tr_curr self in
  let tr_id := if curr =? u16_max then 1 else curr + 1 in
  (tr_id, mkTrId curr).

(** The device, the transaction id of the client, and the number of times
    the deadline of the operation was checked. *)
Record MbWorld (Dev : Type) := mkMb { mb_dev : Dev; mb_tr : TrId; mb_checks : nat }.
Arguments mkMb {Dev} _ _ _.
Arguments mb_dev {Dev} _.
Arguments mb_tr {Dev} _.
Arguments mb_checks {Dev} _.

Section master.
Context `{ModbusExternals} `{Rmodbus} {Dev : Type}.

(** The fixed part of the client, and its transport
    (svc/controller-modbus/src/client.rs:363-368) *)
Record Client := mkClient {
  cl_proto : ModbusProto;
  cl_fc16_supported : bool;
  process_request : list Z -> M Dev (list Z)
}.
Variable client : Client.
(* is the time of an operation over when it is checked for the n-th time *)
Variable deadline : nat -> bool.

Abbreviation MM := (M (MbWorld Dev)).

(** [op.timeout()?] *)
Definition op_timeout : MM unit := fun w =>
  (if deadline (mb_checks w) then Err ETimeout else Ok tt,
   mkMb (mb_dev w) (mb_tr w) (S (mb_checks w))).

Definition send (request : list Z) : MM (list Z) := fun w =>
  let '(r, d) := process_request client request (mb_dev w) in
  (r, mkMb d (mb_tr w) (mb_checks w)).

Definition generate_tr_id : MM Z := fun w =>
  let '(id, t) := tr_id_generate (mb_tr w) in
  (Ok id, mkMb (mb_dev w) t (mb_checks w)).

(** svc/controller-modbus/src/client.rs:350-361 [req!] *)
Definition req (unit_id : Z) : MM ModbusRequest :=
  if decide (cl_proto client = TcpUdp) then
    tr ← generate_tr_id; mret (new_tcp_udp unit_id tr)
  else mret (req_new unit_id (cl_proto client)).

(** svc/controller-modbus/src/client.rs:432-451 [Client::get_u16] *)
Definition get_u16 (unit_id : Z) (reg : Register) (count : Z) : MM (list Z) :=
  mreq ← req unit_id;
  '(request, mreq) ←
    match reg_kind reg with
    | Input => lift (ok_or (generate_get_inputs (reg_number reg) count mreq) EFailed)
    | Holding => lift (ok_or (generate_get_holdings (reg_number reg) count mreq) EFailed)
    | _ => raise EPanic
    end;
  response ← send request;
  lift (ok_or (parse_u16 mreq response) EFailed).

(** svc/controller-modbus/src/client.rs:452-465 [Client::set_bool] *)
Definition set_bool (unit_id : Z) (reg : Register) (value : bool) : MM unit :=
  mreq ← req unit_id;
  '(request, mreq) ←
    match reg_kind reg with
    | Coil => lift (ok_or (generate_set_coil (reg_number reg) value mreq) EFailed)
    | _ => raise EPanic
    end;
  response ← send request;
  lift (ok_or (parse_ok mreq response) EFailed).

(** One register after the other, for devices without function code 16
    (svc/controller-modbus/src/client.rs:485-493) *)
Fixpoint set_u16_each (unit_id number : Z) (value : list Z) : MM unit :=
  match value with
  | [] => mret tt
  | v :: value' =>
      mreq ← req unit_id;
      n ← if number <=? u16_max then mret number else raise try_from_int_error;
      '(request, mreq) ← lift (ok_or (generate_set_holding n v mreq) EFailed);
      response ← send request;
      _ ← lift (ok_or (parse_ok mreq response) EFailed);
      set_u16_each unit_id (number + 1) value'
  end.

(** svc/controller-modbus/src/client.rs:466-499 [Client::set_u16_bulk] *)
Definition set_u16_bulk (unit_id : Z) (reg : Register) (value : list Z) : MM unit :=
  match value with
  | [] => mret tt
  | _ =>
      if cl_fc16_supported client then
        mreq ← req unit_id;
        '(request, mreq) ←
          match reg_kind reg with
          | Holding =>
              lift (ok_or (generate_set_holdings_bulk (reg_number reg) value mreq) EFailed)
          | _ => raise EPanic
          end;
        response ← send request;
        lift (ok_or (parse_ok mreq response) EFailed)
      else
        match reg_kind reg with
        | Holding => set_u16_each unit_id (reg_number reg) value
        | _ => raise EPanic
        end
  end.

(** svc/controller-modbus/src/client.rs:509-528 [Client::get_bool] *)
Definition get_bool (unit_id : Z) (reg : Register) (count : Z) : MM (list bool) :=
  mreq ← req unit_id;
  '(request, mreq) ←
    match reg_kind reg with
    | Coil => lift (ok_or (generate_get_coils (reg_number reg) count mreq) EFailed)
    | Discrete => lift (ok_or (generate_get_discretes (reg_number reg) count mreq) EFailed)
    | _ => raise EPanic
    end;
  response ← send request;
  lift (ok_or (parse_bool mreq response) EFailed).

(** ** Reading *)

(** The coils read, up to the last number a register can have
    (svc/controller-modbus/src/modbus.rs:301-320) *)
Fixpoint coil_values (kind : RegisterKind) (rn : Z) (vals : list bool) : list RegisterValue :=
  match vals with
  | [] => []
  | v :: vals' =>
      if u16_max <? rn then []
      else rv_new0 kind rn (VU8 (Z.b2z v)) :: coil_values kind (rn + 1) vals'
  end.

(** The bits read; [bit_no] and [rn] are the loop's variables
    (svc/controller-modbus/src/modbus.rs:350-359) *)
Fixpoint bit_values (kind : RegisterKind) (reg_no : Z) (data : list Z) (n : nat)
    (bit_no rn : Z) : EResult (list RegisterValue) :=
  match n with
  | O => Ok []
  | S n' =>
      val ← parse_block_value data (wrap 16 (rn - reg_no)) MtBit (Some bit_no);
      let '(bit_no', rn') :=
        if 15 <? bit_no then (0, wrap 16 (rn + 1)) else (wrap 8 (bit_no + 1), rn) in
      rest ← bit_values kind reg_no data n' bit_no' rn';
      Ok (rv_new kind rn bit_no val :: rest)
  end.

(** The values read, from the [i]-th (svc/controller-modbus/src/modbus.rs:361-365) *)
Fixpoint word_values (kind : RegisterKind) (reg_no : Z) (tp : ModbusType) (data : list Z)
    (n : nat) (i : Z) : EResult (list RegisterValue) :=
  match n with
  | O => Ok []
  | S n' =>
      let rn := wrap 16 (i * mt_size tp) in
      val ← parse_block_value data rn tp None;
      rest ← word_values kind reg_no tp data n' (i + 1);
      Ok (rv_new0 kind (wrap 16 (reg_no + rn)) val :: rest)
  end.

(** [(f64::from(count) / 8.0).ceil()] is exact for a [u16].

    svc/controller-modbus/src/modbus.rs:285-370 [bus_get] *)
Definition bus_get (unit_id : Z) (reg : Register) (count : option Z) (tp : ModbusType)
    (bit : option Z) : MM (list RegisterValue) :=
  match reg_kind reg with
  | Coil | Discrete =>
      if decide (tp = MtBit) then
        vals ← get_bool unit_id reg (default 1 count);
        mret (coil_values (reg_kind reg) (reg_number reg) vals)
      else raise EInvalidParams
  | Holding | Input =>
      let count := default 1 count in
      let get_count := if decide (tp = MtBit) then (count + 7) / 8 else count in
      let tp_size := mt_size tp in
      if u16_max <? get_count * tp_size then raise EInvalidParams
      else
        data ← get_u16 unit_id reg (get_count * tp_size);
        if decide (tp = MtBit) then
          let bit_no := default 0 bit in
          if 15 <? bit_no then raise EInvalidParams
          else lift (bit_values (reg_kind reg) (reg_number reg) data (Z.to_nat count)
                       bit_no (reg_number reg))
        else lift (word_values (reg_kind reg) (reg_number reg) tp data (Z.to_nat count) 0)
  end.

(** [tp.unwrap_or_else(..)]: the type when none is given
    (svc/controller-modbus/src/modbus.rs:55-61) *)
Definition default_type (reg : Register) (tp : option ModbusType) (bit : option Z) : ModbusType :=
  match tp with
  | Some tp => tp
  | None => if bool_decide (is_Some bit) || is_bit_reg (reg_kind reg) then MtBit else Uint16
  end.

(** The attempts of [get]; the deadline is checked before each
    (svc/controller-modbus/src/modbus.rs:62-72) *)
Fixpoint get_loop (retries : nat) (unit_id : Z) (reg : Register) (count : option Z)
    (tp : ModbusType) (bit : option Z) : MM (list RegisterValue) :=
  _ ← op_timeout;
  r ← attempt (bus_get unit_id reg count tp bit);
  match r, retries with
  | Ok v, _ => mret v
  | Err e, O => raise e
  | Err _, S retries' => get_loop retries' unit_id reg count tp bit
  end.

(** svc/controller-modbus/src/modbus.rs:46-73 [get] *)
Definition modbus_get (unit_id : Z) (reg : Register) (count : option Z)
    (tp : option ModbusType) (bit : option Z) (retries : nat) : MM (list RegisterValue) :=
  get_loop retries unit_id reg count (default_type reg tp bit) bit.

(** ** Writing *)

(** [if let Value::Bool(v) = value { v } else { u64::try_from(value)? > 0 }]
    (svc/controller-modbus/src/modbus.rs:133-137) *)
Definition bool_of_value (value : Value) : EResult bool :=
  match value_as_bool value with
  | Some v => Ok v
  | None => v ← try_u64 value; Ok (0 <? v)
  end.

(** svc/controller-modbus/src/modbus.rs:113-283 [set_reg] *)
Definition set_reg (unit_id : Z) (reg : Register) (value : Value) (tp : ModbusType)
    (bit : option Z) : MM unit :=
  match reg_kind reg with
  | Input | Discrete => raise EAccess
  | Coil =>
      if decide (tp ≠ MtBit) then raise EInvalidParams
      else
        val ← lift (bool_of_value value);
        _ ← op_timeout;
        set_bool unit_id reg val
  | Holding =>
      vals ← match tp with
             | MtBit =>
                 bit_no ← lift (ok_or bit EInvalidParams);
                 val ← lift (bool_of_value value);
                 _ ← op_timeout;
                 data ← bus_get unit_id reg None tp None;
                 oldv ← lift (ok_or (head data) EInvalidData);
                 n ← lift (try_u16 (rv_value oldv));
                 mret [with_bit n bit_no val]
             | _ => lift (encode_value tp value)
             end;
      _ ← op_timeout;
      set_u16_bulk unit_id reg vals
  end.

(** svc/controller-modbus/src/modbus.rs:75-111 [bus_set] *)
Definition bus_set (unit_id : Z) (reg : Register) (value : Value) (tp : option ModbusType)
    (bit : option Z) (verify : bool) : MM unit :=
  let tp := default_type reg tp bit in
  if verify then
    verify_value ← lift (normalize_value tp value);
    _ ← set_reg unit_id reg value tp bit;
    _ ← op_timeout;
    data ← bus_get unit_id reg None tp bit;
    val ← lift (ok_or (head data) EInvalidData);
    if negb (value_eqb (rv_value val) verify_value) then raise EFailed else mret tt
  else set_reg unit_id reg value tp bit.

(** The attempts of [set] (svc/controller-modbus/src/modbus.rs:33-43) *)
Fixpoint set_loop (retries : nat) (unit_id : Z) (reg : Register) (value : Value)
    (tp : option ModbusType) (bit : option Z) (verify : bool) : MM unit :=
  r ← attempt (bus_set unit_id reg value tp bit verify);
  match r, retries with
  | Ok _, _ => mret tt
  | Err e, O => raise e
  | Err _, S retries' => set_loop retries' unit_id reg value tp bit verify
  end.

(** svc/controller-modbus/src/modbus.rs:11-44 [set] *)
Definition modbus_set (unit_id : Z) (reg : Register) (value : Value) (tp : option ModbusType)
    (bit : option Z) (verify : bool) (retries : nat) : MM unit :=
  match value_as_bool value, value_as_string value with
  | Some _, _ => set_loop retries unit_id reg value tp bit verify
  | None, Some _ => raise EInvalidParams
  | None, None =>
      if negb (value_is_numeric value) then raise EInvalidParams
      else set_loop retries unit_id reg value tp bit verify
  end.

(** The parameters of the service ([ACTIONS_VERIFY], [DEFAULT_RETRIES]) are
    arguments.

    svc/controller-modbus/src/actions.rs:10-37 [run_action] *)
Definition run_action (oid : OID) (map : ActionMap) (params_value : Value) (verify : bool)
    (retries : nat) : MM unit :=
  val ← match am_transform map with
        | [] => mret params_value
        | tasks =>
            val_f64 ← lift (try_f64 params_value);
            n ← lift (transform tasks oid val_f64);
            mret (VF64 n)
        end;
  modbus_set (am_unit map) (am_reg map) val (Some (am_tp map)) (am_bit map) verify retries.
End master.

(** A transaction id is generated from the previous one, which is not
    replaced: all requests of a client have the same id. *)
Lemma tr_id_constant n : (Nat.iter n (fun t => (tr_id_generate t).2) tr_id_default) = tr_id_default.
Proof. induction n as [|n IH]; [done|]. simpl in *. by rewrite IH. Qed.
