(* ===== verification/ModbusSpec.v ===== *)
(** * The Modbus controller: what a write does

    [IdealDevice] is a device that follows the protocol.  Against it, a
    verified write of a value succeeds and stores exactly its registers
    ([set_verified]); writing a single bit of a holding register keeps only
    bit 0 of the others ([set_bit_clears_register]). *)
From Stdlib Require Import SpecFloat.
From S2P Require Import Prelude EvaCommon Ieee ModbusTypes ModbusCodec ModbusMaster.

#[local] Open Scope Z_scope.

(** Registers after [vals] are written from [reg] on. *)
Definition written (unit_id reg : Z) (vals : list Z) (h : Z -> Z -> Z) : Z -> Z -> Z :=
  fun u n =>
    if (u =? unit_id) && (reg <=? n) && (n <? reg + Z.of_nat (length vals))
    then nth (Z.to_nat (n - reg)) vals 0 else h u n.

(** A request made for a unit. *)
Inductive request_for `{Rmodbus} (unit_id : Z) : ModbusRequest -> Prop :=
  | for_tcp_udp tr : request_for unit_id (new_tcp_udp unit_id tr)
  | for_serial proto : request_for unit_id (req_new unit_id proto).

(** One exchange with the device reads or writes its holding registers.  The
    bounds on the number of registers are those of the protocol. *)
Record IdealDevice `{Rmodbus} {Dev} (client : Client (Dev := Dev))
    (holding : Dev -> Z -> Z -> Z) : Prop := mkIdeal {
  dev_read d unit_id reg count r :
    request_for unit_id r -> 0 <= reg -> 1 <= count <= 125 -> reg + count <= 2 ^ 16 ->
    exists b r' resp d',
      generate_get_holdings reg count r = Some (b, r') ∧
      process_request client b d = (Ok resp, d') ∧
      parse_u16 r' resp = Some (holding d unit_id <$> seqZ reg count) ∧
      (forall u n, holding d' u n = holding d u n);
  dev_write d unit_id reg vals r :
    request_for unit_id r -> 0 <= reg -> 1 <= Z.of_nat (length vals) <= 123 ->
    reg + Z.of_nat (length vals) <= 2 ^ 16 -> Forall (fun v => 0 <= v < 2 ^ 16) vals ->
    exists b r' resp d',
      generate_set_holdings_bulk reg vals r = Some (b, r') ∧
      process_request client b d = (Ok resp, d') ∧
      parse_ok r' resp = Some tt ∧
      (forall u n, holding d' u n = written unit_id reg vals (holding d) u n);
  dev_write_one d unit_id reg val r :
    request_for unit_id r -> 0 <= reg < 2 ^ 16 -> 0 <= val < 2 ^ 16 ->
    exists b r' resp d',
      generate_set_holding reg val r = Some (b, r') ∧
      process_request client b d = (Ok resp, d') ∧
      parse_ok r' resp = Some tt ∧
      (forall u n, holding d' u n = written unit_id reg [val] (holding d) u n)
}.

Lemma written_nil unit_id reg h u n : written unit_id reg [] h u n = h u n.
Proof.
  unfold written. simpl length. rewrite Z.add_0_r.
  destruct (Z.leb_spec reg n), (Z.ltb_spec n reg); try lia; by rewrite ?andb_false_r.
Qed.
Lemma written_cons unit_id reg v vals h h' u n :
  h' u n = written unit_id reg [v] h u n ->
  written unit_id (reg + 1) vals h' u n = written unit_id reg (v :: vals) h u n.
Proof.
  unfold written. simpl length. change (Z.of_nat 1) with 1. intros ->.
  destruct (Z.eqb_spec u unit_id), (Z.leb_spec reg n), (Z.leb_spec (reg + 1) n); simpl; try lia; try done.
  - destruct (Z.ltb_spec n (reg + 1 + Z.of_nat (length vals))),
      (Z.ltb_spec n (reg + Z.of_nat (S (length vals)))); try lia.
    + replace (Z.to_nat (n - reg)) with (S (Z.to_nat (n - (reg + 1)))) by lia. done.
    + by replace (n <? reg + 1) with false by lia.
  - assert (n = reg) as -> by lia.
    replace (reg <? reg + 1) with true by lia.
    rewrite (proj2 (Z.ltb_lt reg (reg + Z.of_nat (S (length vals))))) by lia.
    by replace (Z.to_nat (reg - reg)) with 0%nat by lia.
Qed.

Lemma written_head unit_id reg v vals h : written unit_id reg (v :: vals) h unit_id reg = v.
Proof.
  unfold written. rewrite Z.eqb_refl, Z.leb_refl, Z.sub_diag.
  rewrite (proj2 (Z.ltb_lt reg _)); [done|]. cbn [length]. lia.
Qed.

(** The registers that were written are the ones that are read. *)
Lemma written_read unit_id reg vals h :
  written unit_id reg vals h unit_id <$> seqZ reg (Z.of_nat (length vals)) = vals.
Proof.
  apply list_eq. intros i. rewrite list_lookup_fmap.
  destruct (decide (i < length vals)%nat) as [Hi|Hi].
  - rewrite lookup_seqZ_lt by lia. simpl. unfold written. rewrite Z.eqb_refl. simpl.
    replace (reg <=? reg + Z.of_nat i) with true by lia.
    replace (reg + Z.of_nat i <? reg + Z.of_nat (length vals)) with true by lia. simpl.
    replace (Z.to_nat (reg + Z.of_nat i - reg)) with i by lia.
    destruct (lookup_lt_is_Some_2 vals i Hi) as [v Hv].
    by rewrite nth_lookup, Hv.
  - rewrite lookup_seqZ_ge by lia. simpl. symmetry. apply lookup_ge_None. lia.
Qed.

Section device.
Context `{ModbusLaws} `{Rmodbus} {Dev : Type}.
Context (client : Client (Dev := Dev)) (holding : Dev -> Z -> Z -> Z).
Context (Hdev : IdealDevice client holding).
Implicit Types w : MbWorld Dev.

(** The registers of the device of a state. *)
Abbreviation regs_of w := (holding (mb_dev w)).

Lemma req_run unit_id w :
  exists r w', req client unit_id w = (Ok r, w') ∧ request_for unit_id r ∧ mb_dev w' = mb_dev w.
Proof.
  unfold req. destruct (decide _).
  - eexists _, _. rewrite run_bind. unfold generate_tr_id. simpl.
    split; [done|]. split; [constructor|done].
  - eexists _, _. split; [done|]. split; [constructor|done].
Qed.

Lemma get_u16_run w unit_id reg count :
  0 <= reg -> 1 <= count <= 125 -> reg + count <= 2 ^ 16 ->
  exists w', get_u16 client unit_id (mkReg Holding reg) count w =
      (Ok (regs_of w unit_id <$> seqZ reg count), w') ∧
    forall u n, regs_of w' u n = regs_of w u n.
Proof.
  intros Hr Hc Hrc. unfold get_u16. rewrite run_bind.
  destruct (req_run unit_id w) as (r & w1 & -> & Hfor & Hd).
  destruct (dev_read _ _ Hdev (mb_dev w1) unit_id reg count r) as (b & r' & resp & d' & Hg & Hp & Hu & Hh); [done..|].
  simpl. rewrite run_bind. simpl. rewrite Hg. simpl. rewrite run_bind. unfold send. rewrite Hp. simpl.
  unfold lift. rewrite Hu. eexists. simpl. rewrite Hd in Hh. split; [by rewrite Hd|done].
Qed.

Lemma set_u16_each_run w unit_id reg vals :
  0 <= reg -> reg + Z.of_nat (length vals) <= 2 ^ 16 ->
  Forall (fun v => 0 <= v < 2 ^ 16) vals ->
  exists w', set_u16_each client unit_id reg vals w = (Ok tt, w') ∧
    forall u n, regs_of w' u n = written unit_id reg vals (regs_of w) u n.
Proof.
  revert w reg. induction vals as [|v vals IH]; intros w reg Hr Hlen Hall.
  { eexists. split; [done|]. intros. by rewrite written_nil. }
  inversion_clear Hall. cbn [length] in Hlen. cbn [set_u16_each]. rewrite run_bind.
  destruct (req_run unit_id w) as (r & w1 & -> & Hfor & Hd).
  rewrite run_bind. replace (reg <=? u16_max) with true by (unfold u16_max; lia).
  rewrite run_ret, run_bind.
  destruct (dev_write_one _ _ Hdev (mb_dev w1) unit_id reg v r) as (b & r' & resp & d' & Hg & Hp & Hu & Hh); [done|lia|done|].
  unfold lift at 1. rewrite Hg. simpl. rewrite run_bind. unfold send at 1. rewrite Hp. simpl.
  rewrite run_bind. unfold lift at 1. rewrite Hu. simpl.
  destruct (IH (mkMb d' (mb_tr w1) (mb_checks w1)) (reg + 1)) as (w' & -> & Hw'); [lia..|done|].
  exists w'. split; [done|]. intros u n. rewrite Hw'. apply written_cons. simpl.
  by rewrite Hh, Hd.
Qed.

Lemma set_u16_bulk_run w unit_id reg vals :
  0 <= reg -> 1 <= Z.of_nat (length vals) <= 123 -> reg + Z.of_nat (length vals) <= 2 ^ 16 ->
  Forall (fun v => 0 <= v < 2 ^ 16) vals ->
  exists w', set_u16_bulk client unit_id (mkReg Holding reg) vals w = (Ok tt, w') ∧
    forall u n, regs_of w' u n = written unit_id reg vals (regs_of w) u n.
Proof.
  intros Hr Hl Hlen Hall. unfold set_u16_bulk. destruct vals as [|v vals]; [simpl in Hl; lia|].
  destruct (cl_fc16_supported client); [|by apply set_u16_each_run].
  rewrite run_bind. destruct (req_run unit_id w) as (r & w1 & -> & Hfor & Hd).
  destruct (dev_write _ _ Hdev (mb_dev w1) unit_id reg (v :: vals) r)
    as (b & r' & resp & d' & Hg & Hp & Hu & Hh); [done..|].
  cbn [reg_kind reg_number]. rewrite run_bind. unfold lift at 1. rewrite Hg. simpl.
  rewrite run_bind. unfold send at 1. rewrite Hp. simpl. unfold lift. rewrite Hu.
  eexists. split; [done|]. intros u n. simpl. by rewrite Hh, Hd.
Qed.

Section writes.
Context (deadline : nat -> bool) (Hdeadline : forall n, deadline n = false).

Lemma op_timeout_run w :
  exists w', op_timeout deadline w = (Ok tt, w') ∧ mb_dev w' = mb_dev w.
Proof. unfold op_timeout. rewrite Hdeadline. by eexists. Qed.

(** Reading back one value of a type. *)
Lemma bus_get_one w unit_id reg tp bit v :
  tp ≠ MtBit -> 0 <= reg -> reg + mt_size tp <= 2 ^ 16 ->
  parse_block_value (regs_of w unit_id <$> seqZ reg (mt_size tp)) 0 tp None = Ok v ->
  exists w' rv, bus_get client unit_id (mkReg Holding reg) None tp bit w = (Ok [rv], w') ∧
    rv_value rv = v ∧ forall u n, regs_of w' u n = regs_of w u n.
Proof.
  intros Htp Hr Hlen Hp. unfold bus_get. cbn [reg_kind reg_number default].
  destruct (decide (tp = MtBit)) as [|_]; [done|].
  assert (1 <= mt_size tp <= 4) as Hsz by (destruct tp; simpl; lia).
  rewrite Z.mul_1_l. replace (u16_max <? mt_size tp) with false by (unfold u16_max; lia).
  rewrite run_bind.
  destruct (get_u16_run w unit_id reg (mt_size tp)) as (w1 & -> & Hw1); [lia..|].
  unfold lift. change (Z.to_nat 1) with 1%nat. cbn [word_values]. rewrite Z.mul_0_l.
  change (wrap 16 0) with 0. rewrite Hp. cbn [mbind EResult_bind].
  eexists _, _. split; [done|]. split; [done|]. done.
Qed.

(** A write of a type that is not a bit. *)
Lemma set_reg_words w unit_id reg value tp bit :
  tp ≠ MtBit ->
  set_reg client deadline unit_id (mkReg Holding reg) value tp bit w =
    match encode_value tp value with
    | Ok vals => (op_timeout deadline ≫= fun _ =>
                    set_u16_bulk client unit_id (mkReg Holding reg) vals) w
    | Err e => (Err e, w)
    end.
Proof. intros Htp. by destruct tp. Qed.

(** Against a device that follows the protocol, the verified write of a
    value that can be written and read succeeds: the registers of the value
    are stored, in either write mode of the client, no other register
    changes, and the value that is read back is the one written. *)
Lemma set_verified w unit_id reg value tp regs :
  encode_value tp value = Ok regs -> readable tp value = true ->
  0 <= reg -> reg + mt_size tp <= 2 ^ 16 ->
  exists w',
    bus_set client deadline unit_id (mkReg Holding reg) value (Some tp) None true w = (Ok tt, w') ∧
    forall u n, regs_of w' u n = written unit_id reg regs (regs_of w) u n.
Proof.
  intros He Hrd Hr Hlen. pose proof (encode_value_regs _ _ _ He) as [Hsz Hall].
  destruct (encode_normalize _ _ _ He) as (nv & Hn & Heq).
  assert (tp ≠ MtBit) as Htp by (by intros ->).
  assert (1 <= mt_size tp <= 4) as Hs by (destruct tp; simpl; lia).
  unfold bus_set. cbn [default_type]. rewrite run_bind. unfold lift at 1. rewrite Hn.
  rewrite run_bind, set_reg_words, He by done.
  destruct (op_timeout_run w) as (w1 & E1 & Hw1). rewrite run_bind, E1.
  destruct (set_u16_bulk_run w1 unit_id reg regs) as (w2 & E2 & Hw2); [lia..|done|]. rewrite E2.
  destruct (op_timeout_run w2) as (w3 & E3 & Hw3). rewrite run_bind, E3.
  destruct (bus_get_one w3 unit_id reg tp None nv) as (w4 & rv & E4 & Hrv & Hw4); [done..| |].
  { rewrite Hw3, (list_fmap_ext _ _ _ (fun _ n _ => Hw2 unit_id n)), <-Hsz, written_read.
    rewrite <-(app_nil_r regs). pose proof (parse_encoded tp value regs [] [] None He) as Hrt.
    rewrite Hrd, Hn in Hrt. apply Hrt. simpl. lia. }
  rewrite run_bind, E4. simpl. rewrite run_bind. simpl. rewrite Hrv, Heq by done.
  exists w4. split; [done|]. intros u n. rewrite Hw4, Hw3, Hw2. by rewrite Hw1.
Qed.

Lemma with_bit_range (old v : bool) bit :
  0 <= bit < 16 -> 0 <= with_bit (Z.b2z old) bit v < 2 ^ 16.
Proof.
  intros Hb. rewrite with_bit_spec by done.
  assert (Forall (fun b => 0 <= (if v then Z.setbit (Z.b2z old) b else Z.clearbit (Z.b2z old) b)
                           < 2 ^ 16) (seqZ 0 16)) as Hall.
  { destruct old, v; by apply (bool_decide_eq_true_1 (Forall _ _)). }
  rewrite Forall_forall in Hall. by apply (Hall bit), elem_of_seqZ.
Qed.

(** Reading bit 0 of a register, which is what a write of a bit reads. *)
Lemma bus_get_bit0 w unit_id reg :
  0 <= reg < 2 ^ 16 ->
  exists w' rv, bus_get client unit_id (mkReg Holding reg) None MtBit None w = (Ok [rv], w') ∧
    rv_value rv = VU8 (Z.b2z (Z.testbit (regs_of w unit_id reg) 0)) ∧
    forall u n, regs_of w' u n = regs_of w u n.
Proof.
  intros Hr. unfold bus_get. cbn [reg_kind reg_number default].
  destruct (decide (MtBit = MtBit)) as [_|]; [|done].
  change (u16_max <? (1 + 7) / 8 * mt_size MtBit) with false.
  change ((1 + 7) / 8 * mt_size MtBit) with 1. cbn iota. rewrite run_bind.
  destruct (get_u16_run w unit_id reg 1) as (w1 & -> & Hw1); [lia..|].
  eexists _, _. split; [|split; [|exact Hw1]].
  - unfold lift. simpl. unfold wrap. rewrite Z.sub_diag. simpl. unfold block_get. simpl. done.
  - simpl. by rewrite get_bit_spec by lia.
Qed.

(** Writing one bit of a holding register sets this bit, and clears all
    the others but bit 0: the value the bit is put into is bit 0 of the
    register, not the register. *)
Lemma set_bit_clears_register w unit_id reg value bit v :
  bool_of_value value = Ok v -> 0 <= reg < 2 ^ 16 -> 0 <= bit < 16 ->
  exists w',
    set_reg client deadline unit_id (mkReg Holding reg) value MtBit (Some bit) w = (Ok tt, w') ∧
    Z.testbit (regs_of w' unit_id reg) bit = v ∧
    (forall j, 0 < j -> j ≠ bit -> Z.testbit (regs_of w' unit_id reg) j = false).
Proof.
  intros Hv Hr Hb. unfold set_reg. cbn [reg_kind]. rewrite run_bind, run_bind. simpl.
  rewrite run_bind. unfold lift at 1. rewrite Hv. rewrite run_bind.
  destruct (op_timeout_run w) as (w1 & -> & Hw1). rewrite run_bind.
  destruct (bus_get_bit0 w1 unit_id reg Hr) as (w2 & rv & -> & Hrv & Hw2).
  set (old := Z.testbit _ 0) in Hrv.
  rewrite run_bind. simpl. rewrite run_bind, Hrv. unfold lift at 1.
  rewrite try_u16_u8 by (destruct old; simpl; lia). rewrite run_ret, run_bind.
  destruct (op_timeout_run w2) as (w3 & -> & Hw3).
  destruct (set_u16_bulk_run w3 unit_id reg [with_bit (Z.b2z old) bit v])
    as (w4 & -> & Hw4); [simpl; lia..| |].
  { by apply Forall_singleton, with_bit_range. }
  exists w4. split; [done|].
  rewrite Hw4, written_head, with_bit_spec by done. split.
  - destruct v; [apply Z.setbit_eq; lia|apply Z.clearbit_eq].
  - intros j Hj Hne. destruct v; [rewrite Z.setbit_neq by lia|rewrite Z.clearbit_neq by lia];
      (destruct old; [|by rewrite Z.bits_0]); by rewrite (Z.bits_above_log2 1) by (simpl; lia).
Qed.
End writes.
End device.
