(* ===== verification/ModbusPull.v ===== *)
(** * The Modbus controller: the block puller and the TCP transport

    [svc/controller-modbus/src/pull.rs]: every block of registers is read and
    the values of the items mapped to it are collected; the items that could
    not be read are reported with the error status.  [Tcp] is the transport
    of [client.rs] for TCP, with and without kept connections. *)
From Stdlib Require Import SpecFloat.
From S2P Require Import Prelude EvaCommon Ieee ModbusTypes ModbusCodec ModbusMaster.

#[local] Open Scope Z_scope.

Section pull.
Context `{ModbusExternals} `{Rmodbus} {Dev : Type}.
Variable client : Client (Dev := Dev).
(* [svc_is_terminating()] when a block failed *)
Variable terminating : MbWorld Dev -> bool.
Implicit Types w : MbWorld Dev.

Abbreviation MM := (M (MbWorld Dev)).

(** [RawStateEventPreparedOwned]: an event and the delta it is compared
    with. *)
Record Prepared := mkPrep { rp_state : RawStateEvent; rp_delta : option f64 }.

(** What a pull collects: [oids_failed] and [states_pulled]
    (svc/controller-modbus/src/pull.rs:27-28) *)
Record Pulled := mkPulled { pl_failed : gset OID; pl_states : gmap OID Prepared }.

(** [RawStateEventOwned::new] and [RawStateEventOwned::new0] *)
Definition rse_new (status : Z) (val : Value) : RawStateEvent :=
  raw_of status (Some val) ForceNone None.
Definition rse_new0 (status : Z) : RawStateEvent := raw_of status None ForceNone None.

Definition rse_set_value (val : Value) (r : RawStateEvent) : RawStateEvent :=
  mkRaw (raw_status r) (Some val) (raw_force r) (raw_t r) (raw_on_modified r)
    (raw_status_compare r) (raw_value_compare r) (raw_status_else r) (raw_value_else r).
Definition rse_set_status (status : Z) (r : RawStateEvent) : RawStateEvent :=
  mkRaw status (raw_value r) (raw_force r) (raw_t r) (raw_on_modified r)
    (raw_status_compare r) (raw_value_compare r) (raw_status_else r) (raw_value_else r).

(** svc/controller-modbus/src/pull.rs:29-42 [save_val!] *)
Definition save_val (task : PullTask) (val : Value) (p : Pulled) : Pulled :=
  let prep :=
    match pl_states p !! pt_oid task with
    | Some raw_state_prepared =>
        mkPrep (rse_set_value val (rp_state raw_state_prepared)) (rp_delta raw_state_prepared)
    | None => mkPrep (rse_new 1 val) (pt_value_delta task)
    end in
  mkPulled (pl_failed p) (<[pt_oid task := prep]> (pl_states p)).

(** svc/controller-modbus/src/pull.rs:63-67 [mark_task_failed!] *)
Definition mark_task_failed (task : PullTask) (p : Pulled) : Pulled :=
  mkPulled ({[pt_oid task]} ∪ pl_failed p) (pl_states p).

(** The tasks of a block that could not be read
    (svc/controller-modbus/src/pull.rs:46-62) *)
Definition mark_failed (tasks : list PullTask) (p : Pulled) : Pulled :=
  foldl (fun p task => mark_task_failed task p) p tasks.

(** A task of a block of coils or discretes
    (svc/controller-modbus/src/pull.rs:76-110) *)
Definition pull_bit (data : list bool) (p : Pulled) (task : PullTask) : Pulled :=
  match data !! Z.to_nat (pt_block_offset task) with
  | Some val =>
      let value := VU8 (Z.b2z val) in
      match pt_transform task with
      | [] => save_val task value p
      | tasks =>
          match try_f64 value with
          | Ok val =>
              match transform tasks (pt_oid task) val with
              | Ok n => save_val task (VF64 n) p
              | Err _ => mark_task_failed task p
              end
          | Err _ => mark_task_failed task p
          end
      end
  | None => mark_task_failed task p
  end.

(** A task of a block of inputs or holdings
    (svc/controller-modbus/src/pull.rs:121-154) *)
Definition pull_word (data : list Z) (p : Pulled) (task : PullTask) : Pulled :=
  match parse_block_value data (pt_block_offset task) (pt_tp task) (off_bit (pt_offset task)) with
  | Ok value =>
      match pt_transform task with
      | [] => save_val task value p
      | tasks =>
          match try_f64 value with
          | Ok val =>
              match transform tasks (pt_oid task) val with
              | Ok n => save_val task (VF64 n) p
              | Err _ => p
              end
          | Err _ => p
          end
      end
  | Err _ => mark_task_failed task p
  end.

(** The loop over the blocks; [None] stands for the early return when the
    service terminates (svc/controller-modbus/src/pull.rs:43-160) *)
Fixpoint pull_blocks (regs : list PullReg) (p : Pulled) : MM (option Pulled) :=
  match regs with
  | [] => mret (Some p)
  | pull_reg :: regs' =>
      match reg_kind (pr_reg pull_reg) with
      | Coil | Discrete =>
          r ← attempt (get_bool client (pr_unit pull_reg) (pr_reg pull_reg) (pr_count pull_reg));
          match r with
          | Ok data => pull_blocks regs' (foldl (pull_bit data) p (pr_map pull_reg))
          | Err _ =>
              w ← get;
              if terminating w then mret None
              else pull_blocks regs' (mark_failed (pr_map pull_reg) p)
          end
      | Input | Holding =>
          r ← attempt (get_u16 client (pr_unit pull_reg) (pr_reg pull_reg) (pr_count pull_reg));
          match r with
          | Ok data => pull_blocks regs' (foldl (pull_word data) p (pr_map pull_reg))
          | Err _ =>
              w ← get;
              if terminating w then mret None
              else pull_blocks regs' (mark_failed (pr_map pull_reg) p)
          end
      end
  end.

(** The failed items get the error status
    (svc/controller-modbus/src/pull.rs:161-173) *)
Definition apply_failed (oid : OID) (states : gmap OID Prepared) : gmap OID Prepared :=
  match states !! oid with
  | Some prep =>
      <[oid := mkPrep (rse_set_status ITEM_STATUS_ERROR (rp_state prep)) (rp_delta prep)]> states
  | None => <[oid := mkPrep (rse_new0 ITEM_STATUS_ERROR) None]> states
  end.

(** The states that are published, when [retain] keeps the modified ones
    ([RawStateCache::retain_map_modified]); errors of the queue they are
    sent to are only logged (svc/controller-modbus/src/pull.rs:20-195) *)
Definition pull (retain : gmap OID Prepared -> gmap OID Prepared) (regs : list PullReg)
    : MM (option (gmap OID Prepared)) :=
  p ← pull_blocks regs (mkPulled ∅ ∅);
  mret (match p with
        | Some p => Some (retain (set_fold apply_failed (pl_states p) (pl_failed p)))
        | None => None
        end).

(** ** What is reported *)

(** Could the block not be read? *)
Definition read_fails (p : PullReg) w : bool :=
  if is_bit_reg (reg_kind (pr_reg p)) then
    negb (is_ok (get_bool client (pr_unit p) (pr_reg p) (pr_count p) w).1)
  else negb (is_ok (get_u16 client (pr_unit p) (pr_reg p) (pr_count p) w).1).

(** Nothing collected is lost. *)
Record pulled_le (p q : Pulled) : Prop := mkPulledLe {
  le_failed : pl_failed p ⊆ pl_failed q;
  le_states : dom (pl_states p) ⊆ dom (pl_states q)
}.

#[local] Instance pulled_le_preorder : PreOrder pulled_le.
Proof.
  split; [by constructor|]. intros p q r [] []. constructor; etrans; done.
Qed.

(** The item of a task has a value or is failed. *)
Definition covered (task : PullTask) (p : Pulled) : Prop :=
  pt_oid task ∈ pl_failed p ∨ pt_oid task ∈ dom (pl_states p).

Lemma covered_mono task p q : pulled_le p q -> covered task p -> covered task q.
Proof. intros [Hf Hs] [Hc|Hc]; [left|right]; set_solver. Qed.

Lemma save_val_le task v p : pulled_le p (save_val task v p) ∧ covered task (save_val task v p).
Proof.
  unfold save_val. split; [constructor; simpl; rewrite ?dom_insert_L; set_solver|].
  right. simpl. rewrite dom_insert_L. set_solver.
Qed.
Lemma mark_task_failed_le task p :
  pulled_le p (mark_task_failed task p) ∧ pt_oid task ∈ pl_failed (mark_task_failed task p).
Proof. unfold mark_task_failed. split; [constructor; simpl|simpl]; set_solver. Qed.

Lemma pull_bit_le data p task :
  pulled_le p (pull_bit data p task) ∧ covered task (pull_bit data p task).
Proof.
  pose proof (mark_task_failed_le task p) as [Hle Hin].
  assert (covered task (mark_task_failed task p)) by (by left).
  unfold pull_bit. repeat case_match; auto using save_val_le.
Qed.
Lemma pull_word_le data p task :
  pulled_le p (pull_word data p task) ∧
  (pt_transform task = [] -> covered task (pull_word data p task)).
Proof.
  pose proof (mark_task_failed_le task p) as [Hle Hin].
  assert (covered task (mark_task_failed task p)) by (by left).
  unfold pull_word. repeat case_match; try (split; [|intros _]; by auto || apply save_val_le);
    (split; [reflexivity || apply save_val_le|done]).
Qed.

(** A loop over tasks keeps what is collected and covers each task. *)
Lemma fold_tasks (f : Pulled -> PullTask -> Pulled) (P : PullTask -> Pulled -> Prop) l p :
  (forall p task, pulled_le p (f p task)) ->
  (forall p task, task ∈ l -> P task (f p task)) ->
  (forall task p q, pulled_le p q -> P task p -> P task q) ->
  pulled_le p (foldl f p l) ∧ Forall (fun task => P task (foldl f p l)) l.
Proof.
  intros Hle. revert p. induction l as [|t l IH]; intros p HP Hmono; simpl; [by split|].
  destruct (IH (f p t)) as [IHle IHP]; [|done|].
  { intros. apply HP, list_elem_of_further. done. }
  split; [etrans; [apply Hle|done]|]. constructor; [|done].
  apply (Hmono _ (f p t)); [done|]. apply HP, list_elem_of_here.
Qed.

Lemma mark_failed_le tasks p :
  pulled_le p (mark_failed tasks p) ∧
  Forall (fun task => pt_oid task ∈ pl_failed (mark_failed tasks p)) tasks.
Proof.
  apply (fold_tasks _ (fun task p => pt_oid task ∈ pl_failed p)).
  - intros. apply mark_task_failed_le.
  - intros. apply mark_task_failed_le.
  - intros task q r [Hf _]. set_solver.
Qed.

(** The tasks whose item is always reported. *)
Definition reported (b : PullReg) (task : PullTask) : Prop :=
  is_bit_reg (reg_kind (pr_reg b)) = true ∨ pt_transform task = [].

(** What reading one block adds. *)
Record block_done (b : PullReg) (failed : bool) (p q : Pulled) : Prop := mkDone {
  done_le : pulled_le p q;
  done_covered : forall task, task ∈ pr_map b -> reported b task -> covered task q;
  done_failed : failed = true -> forall task, task ∈ pr_map b -> pt_oid task ∈ pl_failed q
}.

Lemma block_done_failed b failed p : block_done b failed p (mark_failed (pr_map b) p).
Proof.
  destruct (mark_failed_le (pr_map b) p) as [Hle Hall]. rewrite Forall_forall in Hall.
  constructor; [done| |by auto]. intros task Ht _. left. auto.
Qed.
Lemma block_done_bits b data p :
  block_done b false p (foldl (pull_bit data) p (pr_map b)).
Proof.
  destruct (fold_tasks (pull_bit data) covered (pr_map b) p) as [Hle Hall];
    [apply pull_bit_le|intros; apply pull_bit_le|apply covered_mono|].
  rewrite Forall_forall in Hall. constructor; auto; done.
Qed.
Lemma block_done_words b data p :
  is_bit_reg (reg_kind (pr_reg b)) = false ->
  block_done b false p (foldl (pull_word data) p (pr_map b)).
Proof.
  intros Hk.
  destruct (fold_tasks (pull_word data) (fun task p => pt_transform task = [] -> covered task p)
              (pr_map b) p) as [Hle Hall];
    [apply pull_word_le|intros; by apply pull_word_le|eauto using covered_mono|].
  rewrite Forall_forall in Hall. constructor; [done| |done].
  intros task Ht [Hr|Hr]; [congruence|auto].
Qed.

Lemma pull_blocks_cons b regs p w q w' :
  pull_blocks (b :: regs) p w = (Ok (Some q), w') ->
  exists p1 w1, pull_blocks regs p1 w1 = (Ok (Some q), w') ∧ block_done b (read_fails b w) p p1.
Proof.
  cbn [pull_blocks]. unfold read_fails.
  destruct (reg_kind (pr_reg b)) eqn:Hk; cbn [is_bit_reg]; rewrite ?bool_decide_eq_true_2, ?bool_decide_eq_false_2 by done;
    cbn [orb]; rewrite run_bind; unfold attempt;
    match goal with |- context [let '(r, s') := ?m w in _] => destruct (m w) as [[data|e] w1] eqn:Hg end;
    cbn [fst is_ok negb]; intros Hrun.
  all: try (rewrite run_bind in Hrun; unfold get in Hrun; destruct (terminating w1); [done|]).
  all: eexists _, _; (split; [exact Hrun|]).
  all: first [ apply block_done_failed | apply block_done_bits
             | apply block_done_words; by rewrite Hk ].
Qed.

Lemma pull_blocks_le regs p w q w' :
  pull_blocks regs p w = (Ok (Some q), w') -> pulled_le p q.
Proof.
  revert p w. induction regs as [|b regs IH]; intros p w Hrun.
  { simpl in Hrun. unfold mret, M_ret in Hrun. by simplify_eq. }
  apply pull_blocks_cons in Hrun as (p1 & w1 & Hrun & Hdone).
  etrans; [apply (done_le _ _ _ _ Hdone)|by eapply IH].
Qed.

Lemma pull_blocks_covered regs p w q w' b task :
  pull_blocks regs p w = (Ok (Some q), w') ->
  b ∈ regs -> task ∈ pr_map b -> reported b task -> covered task q.
Proof.
  revert p w. induction regs as [|b' regs IH]; intros p w Hrun Hb Ht Hr.
  { by apply not_elem_of_nil in Hb. }
  apply pull_blocks_cons in Hrun as (p1 & w1 & Hrun & Hdone).
  apply elem_of_cons in Hb as [-> |Hb]; [|by eapply IH].
  eapply covered_mono; [by eapply pull_blocks_le|]. by eapply done_covered.
Qed.

Lemma pull_blocks_app pre post p w :
  pull_blocks (pre ++ post) p w =
    match pull_blocks pre p w with
    | (Ok (Some p1), w1) => pull_blocks post p1 w1
    | r => r
    end.
Proof.
  revert p w. induction pre as [|b pre IH]; intros p w; [done|].
  cbn [app pull_blocks].
  destruct (reg_kind (pr_reg b)); rewrite !run_bind; unfold attempt;
    match goal with |- context [let '(r, s') := ?m w in _] => destruct (m w) as [[data|e] w1] end;
    cbn [fst]; try apply IH; rewrite !run_bind; unfold get; destruct (terminating w1); try done; apply IH.
Qed.

(** The failed items have the error status, the others are as pulled. *)
Definition final_state (states : gmap OID Prepared) (failed : gset OID) (oid : OID)
    : option Prepared :=
  if decide (oid ∈ failed) then
    Some match states !! oid with
         | Some prep => mkPrep (rse_set_status ITEM_STATUS_ERROR (rp_state prep)) (rp_delta prep)
         | None => mkPrep (rse_new0 ITEM_STATUS_ERROR) None
         end
  else states !! oid.

Lemma apply_failed_spec (failed : gset OID) states oid :
  set_fold apply_failed states failed !! oid = final_state states failed oid.
Proof.
  revert oid.
  apply (set_fold_ind_L (fun r X => forall oid, r !! oid = final_state states X oid));
    unfold final_state.
  { intros oid. by rewrite decide_False by set_solver. }
  intros x X r Hx IH oid. unfold apply_failed.
  pose proof (IH x) as Hrx. rewrite decide_False in Hrx by done. rewrite Hrx.
  destruct (decide (oid = x)) as [-> |Hne].
  - rewrite decide_True by set_solver. by destruct (states !! x); rewrite lookup_insert_eq.
  - rewrite (decide_ext (oid ∈ {[x]} ∪ X) (oid ∈ X)) by set_solver.
    rewrite <-IH. destruct (states !! x); by rewrite lookup_insert_ne.
Qed.

Lemma pull_run retain regs w states w' :
  pull retain regs w = (Ok (Some states), w') ->
  exists q, pull_blocks regs (mkPulled ∅ ∅) w = (Ok (Some q), w') ∧
    states = retain (set_fold apply_failed (pl_states q) (pl_failed q)).
Proof.
  unfold pull. rewrite run_bind. destruct (pull_blocks _ _ w) as [[[q|]|e] w1]; intros Hr;
    unfold mret, M_ret in Hr; simplify_eq. eauto.
Qed.

(** When a block of registers cannot be read, every item mapped to it is
    reported with the error status, whatever the blocks before and after it
    give. *)
Lemma pull_failed_block pre b post w q w1 states w' task :
  pull (fun m => m) (pre ++ b :: post) w = (Ok (Some states), w') ->
  pull_blocks pre (mkPulled ∅ ∅) w = (Ok (Some q), w1) ->
  read_fails b w1 = true -> task ∈ pr_map b ->
  exists prep, states !! pt_oid task = Some prep ∧
    raw_status (rp_state prep) = ITEM_STATUS_ERROR.
Proof.
  intros (q' & Hrun & ->)%pull_run Hpre Hfail Ht.
  rewrite pull_blocks_app, Hpre in Hrun.
  apply pull_blocks_cons in Hrun as (p1 & w2 & Hrun & Hdone). rewrite Hfail in Hdone.
  pose proof (done_failed _ _ _ _ Hdone eq_refl task Ht) as Hin.
  pose proof (le_failed _ _ (pull_blocks_le _ _ _ _ _ Hrun)) as Hsub.
  eexists. rewrite apply_failed_spec. unfold final_state. rewrite decide_True by set_solver. split; [done|].
  by destruct (pl_states q' !! pt_oid task).
Qed.

(** A pull that is not interrupted reports every item mapped to a block of
    coils or discretes, and every item mapped to a block of registers without
    a transformation.  (With one, an item is not reported when the
    transformation fails.) *)
Lemma pull_reports_all regs w states w' b task :
  pull (fun m => m) regs w = (Ok (Some states), w') ->
  b ∈ regs -> task ∈ pr_map b -> reported b task ->
  is_Some (states !! pt_oid task).
Proof.
  intros (q & Hrun & ->)%pull_run Hb Ht Hr.
  pose proof (pull_blocks_covered _ _ _ _ _ _ _ Hrun Hb Ht Hr) as Hc.
  rewrite apply_failed_spec. unfold final_state. destruct (decide _); [by eexists|].
  destruct Hc as [Hc|Hc]; [done|]. by apply elem_of_dom in Hc.
Qed.
End pull.

(** ** The TCP transport *)

Section tcp.
Context {Net Stream : Type}.
(* sockets, the pool of connections and the frame length of [rmodbus] *)
Variables (connect create_tcp_client pool_get : M Net Stream)
  (replace_resource : Stream -> M Net unit)
  (write_all : Stream -> list Z -> M Net unit)
  (read_exact : Stream -> nat -> M Net (list Z))
  (guess_response_frame_len : list Z -> option Z).

(** svc/controller-modbus/src/client.rs:281-295 [process_modbus_request!] *)
Definition process_modbus_request (client : Stream) (payload : list Z) : M Net (list Z) :=
  buf ← read_exact client 6;
  len ← lift (ok_or (guess_response_frame_len buf) EFailed);
  if 6 <? len then
    rest ← read_exact client (Z.to_nat (len - 6));
    mret (buf ++ rest)
  else mret buf.

(** svc/controller-modbus/src/client.rs:299-313 [process_request] *)
Definition tcp_process_request (keep_alive : bool) (payload : list Z) : M Net (list Z) :=
  if keep_alive then
    client ← pool_get;
    r ← attempt (write_all client payload);
    client ← match r with
             | Ok _ => mret client
             | Err _ =>
                 new_client ← connect;
                 _ ← write_all new_client payload;
                 _ ← replace_resource new_client;
                 mret new_client
             end;
    process_modbus_request client payload
  else
    client ← create_tcp_client;
    process_modbus_request client payload.

(** Without kept connections the request is never written to the socket:
    what the transport does is the same for any two requests. *)
Lemma tcp_request_not_sent payload payload' :
  tcp_process_request false payload = tcp_process_request false payload'.
Proof. done. Qed.
End tcp.
