(* ===== verification/ModbusExamples.v ===== *)
(** * The Modbus controller: concrete runs

    A sample of the external code (values from [Sample], frames that are
    lists of fields, a device that is its registers), and the theorems of
    the controller applied to it. *)
From Stdlib Require Import SpecFloat.
From S2P Require Import Prelude EvaCommon Ieee ModbusTypes ModbusCodec ModbusMaster ModbusSpec ModbusPull.
Import Sample.

#[local] Open Scope Z_scope.

Module ModbusExamples.
Definition in_range (lo hi : Z) (v : SValue) : EResult Z :=
  match v with
  | SNum z => if (lo <=? z) && (z <? hi) then Ok z else Err EInvalidData
  | _ => Err EInvalidData
  end.
Definition valid_float (valid : spec_float -> bool) (v : SValue) : EResult spec_float :=
  match v with
  | SF64 x => if valid x then Ok x else Err EInvalidData
  | SNum z => if valid (f64_of_Z z) then Ok (f64_of_Z z) else Err EInvalidData
  | _ => Err EInvalidData
  end.

Lemma in_range_spec lo hi v z : in_range lo hi v = Ok z -> lo <= z < hi.
Proof. destruct v; simpl; try done. destruct (_ && _) eqn:E; [|done]. intros [= <-]. lia. Qed.
Lemma valid_float_spec valid v x : valid_float valid v = Ok x -> valid x = true.
Proof.
  destruct v; simpl; try done; destruct (valid _) eqn:E; try done; by intros [= <-].
Qed.

#[export] Instance modbus_externals : ModbusExternals := {|
  VU16 := SNum; VI16 := SNum; VU32 := SNum; VI32 := SNum; VU64 := SNum; VF32 := SF64;
  value_as_bool _ := None;
  value_as_string v := match v with SStr s => Some s | _ => None end;
  value_is_numeric v := match v with SNum _ | SF64 _ => true | _ => false end;
  try_u8 := in_range 0 (2 ^ 8);
  try_u16 := in_range 0 (2 ^ 16);
  try_i16 := in_range (- 2 ^ 15) (2 ^ 15);
  try_u32 := in_range 0 (2 ^ 32);
  try_i32 := in_range (- 2 ^ 31) (2 ^ 31);
  try_u64 := in_range 0 (2 ^ 64);
  try_i64 := in_range (- 2 ^ 63) (2 ^ 63);
  try_f32 := valid_float f32_valid;
  try_f64 := valid_float f64_valid;
  get_bit := Z.testbit;
  with_bit n b v := if v then Z.setbit n b else Z.clearbit n b;
  try_from_int_error := EInvalidData;
  Task := f64;
  transform l _ x := Ok (foldl f64_mul x l)
|}.

#[export] Instance modbus_laws : ModbusLaws.
Proof.
  constructor; simpl; try (intros ??; apply in_range_spec);
    try (intros ??; apply valid_float_spec); try done;
    try (intros; by apply bool_decide_eq_true_2).
  intros z Hz. destruct (_ && _) eqn:E; [done|]. apply andb_false_iff in E. lia.
Qed.

(** Frames as lists of fields: the function code, the unit, the register. *)
#[export] Instance rmodbus : Rmodbus := {|
  ModbusRequest := Z;
  new_tcp_udp u _ := u;
  req_new u _ := u;
  generate_get_coils reg count u := Some ([1; u; reg; count], u);
  generate_get_discretes reg count u := Some ([2; u; reg; count], u);
  generate_get_inputs reg count u := Some ([4; u; reg; count], u);
  generate_get_holdings reg count u := Some ([3; u; reg; count], u);
  generate_set_coil reg v u := Some ([5; u; reg; Z.b2z v], u);
  generate_set_holding reg v u := Some ([6; u; reg; v], u);
  generate_set_holdings_bulk reg vals u := Some (16 :: u :: reg :: vals, u);
  parse_u16 _ resp := Some resp;
  parse_bool _ resp := Some (Z.eqb 1 <$> resp);
  parse_ok _ _ := Some tt
|}.

(** The registers of all units. *)
Definition Regs : Type := Z -> Z -> Z.

Definition serve (b : list Z) : M Regs (list Z) := fun d =>
  match b with
  | 16 :: u :: reg :: vals => (Ok [], written u reg vals d)
  | [6; u; reg; v] => (Ok [], written u reg [v] d)
  | [3; u; reg; count] => (Ok (d u <$> seqZ reg count), d)
  | _ => (Err EFailed, d)
  end.

Definition sample_client : Client (Dev := Regs) := mkClient TcpUdp true serve.

Lemma sample_ideal : IdealDevice sample_client (fun d => d).
Proof.
  constructor.
  - intros d u reg count r []; intros; eexists _, _, _, _; by repeat split.
  - intros d u reg vals r []; intros; eexists _, _, _, _; by repeat split.
  - intros d u reg val r []; intros; eexists _, _, _, _; by repeat split.
Qed.

Definition no_deadline : nat -> bool := fun _ => false.
Definition start : MbWorld Regs := mkMb (fun _ _ => 65280) tr_id_default 0.

(** ** The theorems at concrete inputs *)

(** 1.5 *)
Definition one_and_half : Value := SF64 (S754_finite false 12582912 (-23)).

Lemma encode_parse_roundtrip_witness :
  encode_value Real32 one_and_half = Ok [0; 16320] ∧
  parse_block_value ([7; 8] ++ [0; 16320] ++ [9]) (Z.of_nat (length [7; 8])) Real32 None =
    if readable Real32 one_and_half then normalize_value Real32 one_and_half else Err EInvalidData.
Proof.
  split; [vm_refl|]. apply (encode_parse_roundtrip Real32 one_and_half); [vm_refl|done].
Defined.

Definition minus_five : Value := SNum (-5).

Lemma set_verified_example :
  exists w', bus_set sample_client no_deadline 1 (mkReg Holding 10) minus_five (Some Int32w) None true start
      = (Ok tt, w') ∧
    forall u n, mb_dev w' u n = written 1 10 [65531; 65535] (mb_dev start) u n.
Proof.
  apply (set_verified sample_client (fun d => d) sample_ideal no_deadline (fun _ => eq_refl)
           start 1 10 minus_five Int32w [65531; 65535]); [vm_refl|done|lia|simpl; lia].
Defined.

Definition one : Value := SNum 1.

(** The register was 0xFF00; bit 3 is set and the upper bits are gone. *)
Lemma set_bit_clears_register_example :
  exists w', set_reg sample_client no_deadline 1 (mkReg Holding 10) one MtBit (Some 3) start
      = (Ok tt, w') ∧
    Z.testbit (mb_dev w' 1 10) 3 = true ∧
    (forall j, 0 < j -> j ≠ 3 -> Z.testbit (mb_dev w' 1 10) j = false).
Proof.
  apply (set_bit_clears_register sample_client (fun d => d) sample_ideal no_deadline
           (fun _ => eq_refl) start 1 10 one 3 true); [done|lia|lia].
Defined.

(** ** Pulling: the second block cannot be read *)

Definition temp : OID := (Sensor, "temp").
Definition door : OID := (Sensor, "door").
Definition block1 : PullReg :=
  mkPull _ _ (mkReg Holding 10) 2 1 [mkTask _ _ (mkOff 0 None false) temp None Uint16 [] 0].
Definition block2 : PullReg :=
  mkPull _ _ (mkReg Coil 0) 8 1 [mkTask _ _ (mkOff 0 None false) door None MtBit [] 0].
Definition door_task : PullTask := mkTask _ _ (mkOff 0 None false) door None MtBit [] 0.
Definition temp_task : PullTask := mkTask _ _ (mkOff 0 None false) temp None Uint16 [] 0.

Definition never_terminating : MbWorld Regs -> bool := fun _ => false.
Definition value_65280 : Value := SNum 65280.
Definition temp_prepared : Prepared := mkPrep (rse_new 1 value_65280) None.
Definition door_prepared : Prepared := mkPrep (rse_new0 (-1)) None.
Definition pulled_states : gmap OID Prepared :=
  <[door := door_prepared]> {[temp := temp_prepared]}.
Definition pulled_first : Pulled := mkPulled ∅ {[temp := temp_prepared]}.

Lemma pull_failed_block_example :
  exists prep, pulled_states !! pt_oid door_task = Some prep ∧
    raw_status (rp_state prep) = ITEM_STATUS_ERROR.
Proof.
  apply (pull_failed_block sample_client never_terminating [block1] block2 [] start pulled_first
           start pulled_states start door_task).
  - vm_refl.
  - vm_refl.
  - vm_refl.
  - apply list_elem_of_here.
Defined.

Lemma pull_reports_all_example : is_Some (pulled_states !! pt_oid temp_task).
Proof.
  apply (pull_reports_all sample_client never_terminating [block1; block2] start pulled_states
           start block1 temp_task).
  - vm_refl.
  - apply list_elem_of_here.
  - apply list_elem_of_here.
  - by right.
Defined.
End ModbusExamples.
