(* ===== verification/Acl.v ===== *)
(** * Access control lists

    The ACL service ([svc/aaa-acl/src/main.rs]): the table of lists with its
    copy in the registry, and [acl.format], which combines the lists of a user
    into the one their requests are checked against.  The theorems show that
    the combination grants exactly what its members grant, in whatever order
    they are named, and that [acl.format] combines only the lists asked for. *)
From stdpp Require Import sorting.
From S2P Require Import Prelude EvaCommon.

(** Values are the members of hash sets. *)
Class ValueHash `{Externals} := {
  value_eq_dec :: EqDecision Value;
  value_countable :: Countable Value;
  (* Value::String *)
  VString : string -> Value
}.

Section acl.
Context `{ValueHash}.

(** [Option<HashMap<String, HashSet<Value>>>]: the OIDs, paths and topics of
    a list, by kind. *)
Definition Rights : Type := option (gmap string (gset Value)).

(** svc/aaa-acl/src/main.rs:45-63 [Acl] *)
Record Acl := mkAcl {
  acl_id : string;
  acl_admin : bool;
  acl_read : Rights;
  acl_write : Rights;
  acl_deny_read : Rights;
  acl_deny_write : Rights;
  acl_ops : option (gset string);
  acl_meta : Rights
}.

(** svc/aaa-acl/src/main.rs:86-104 [AclData] *)
Record AclData := mkAclData {
  ad_id : string;
  ad_from : gset string;
  ad_admin : bool;
  ad_read : Rights;
  ad_write : Rights;
  ad_deny_read : Rights;
  ad_deny_write : Rights;
  ad_ops : option (gset string);
  ad_meta : Rights
}.

(** [AclData::default()] *)
Definition acl_data_default : AclData :=
  mkAclData EmptyString ∅ false None None None None None None.

(** The conversion of one list (svc/aaa-acl/src/main.rs:122-162) *)
Definition acl_data_of (acl : Acl) : AclData :=
  mkAclData (acl_id acl) {[ acl_id acl ]} (acl_admin acl) (acl_read acl) (acl_write acl)
    (acl_deny_read acl) (acl_deny_write acl) (acl_ops acl) (acl_meta acl).

(** The body of the loop over the keys of a field
    (svc/aaa-acl/src/main.rs:178-188) *)
Definition add_key (k : string) (v : gset Value) (f : gmap string (gset Value))
    : gmap string (gset Value) :=
  match f !! k with
  | Some set => <[k := v ∪ set]> f
  | None => <[k := v]> f
  end.

(** svc/aaa-acl/src/main.rs:173-200 [form_field!] *)
Definition form_field (src dst : Rights) : Rights :=
  match src with
  | Some r =>
      match dst with
      | Some f => Some (map_fold add_key f r)
      | None => Some r
      end
  | None => dst
  end.

(** The same for operations (svc/aaa-acl/src/main.rs:205-214) *)
Definition form_ops (src dst : option (gset string)) : option (gset string) :=
  match src with
  | Some ops => match dst with Some f => Some (ops ∪ f) | None => Some ops end
  | None => dst
  end.

(** The body of the loop over the lists
    (svc/aaa-acl/src/main.rs:168-216) *)
Definition add_acl (d : AclData) (acl : Acl) : AclData :=
  mkAclData (ad_id d) (ad_from d) (if acl_admin acl then true else ad_admin d)
    (form_field (acl_read acl) (ad_read d))
    (form_field (acl_write acl) (ad_write d))
    (form_field (acl_deny_read acl) (ad_deny_read d))
    (form_field (acl_deny_write acl) (ad_deny_write d))
    (form_ops (acl_ops acl) (ad_ops d))
    (form_field (acl_meta acl) (ad_meta d)).

(** The character that joins ids. *)
Definition plus : Ascii.ascii := Ascii.Ascii true true false true false true false false.

(** The conversion of several lists (svc/aaa-acl/src/main.rs:164-224) *)
Definition acl_data_of_list (acls : list Acl) : AclData :=
  let d := foldl add_acl acl_data_default acls in
  let ids := merge_sort String.le (acl_id <$> acls) in
  mkAclData (join_with plus ids) (list_to_set ids) (ad_admin d) (ad_read d) (ad_write d)
    (ad_deny_read d) (ad_deny_write d) (ad_ops d) (ad_meta d).

(** [IdOrList] *)
Inductive IdOrList :=
  | Single (i : string)
  | Multiple (ids : list string).

(** The lists found; with strict formatting all have to be
    (svc/aaa-acl/src/main.rs:435-442) *)
Fixpoint find_acls (strict : bool) (acls : gmap string Acl) (ids : list string)
    : EResult (list Acl) :=
  match ids with
  | [] => Ok []
  | i :: ids' =>
      match acls !! i with
      | Some acl => srcs ← find_acls strict acls ids'; Ok (acl :: srcs)
      | None => if strict then Err EAccess else find_acls strict acls ids'
      end
  end.

(** The data of the lists asked for (svc/aaa-acl/src/main.rs:424-445) *)
Definition format_start (strict : bool) (acls : gmap string Acl) (p : IdOrList)
    : EResult AclData :=
  match p with
  | Single i =>
      match acls !! i with
      | Some acl => Ok (acl_data_of acl)
      | None => if strict then Err EAccess else Ok acl_data_default
      end
  | Multiple ids => srcs ← find_acls strict acls ids; Ok (acl_data_of_list srcs)
  end.

(** The key of an API key is added to the meta data
    (svc/aaa-acl/src/main.rs:454-466) *)
Definition add_key_id (key_id : option string) (d : AclData) : AclData :=
  match key_id with
  | Some k =>
      mkAclData (ad_id d) (ad_from d) (ad_admin d) (ad_read d) (ad_write d) (ad_deny_read d)
        (ad_deny_write d) (ad_ops d)
        (Some (<["api_key_id" := {[ VString k ]}]> (default ∅ (ad_meta d))))
  | None => d
  end.

(** The method [acl.format] (svc/aaa-acl/src/main.rs:405-469) *)
Definition acl_format (strict forbid_empty : bool) (acls : gmap string Acl) (p : IdOrList)
    (key_id : option string) : EResult AclData :=
  acl_data ← format_start strict acls p;
  acl_data ← if decide (ad_from acl_data = ∅) then
               if forbid_empty then Err EAccess
               else Ok (mkAclData "none" (ad_from acl_data) (ad_admin acl_data)
                          (ad_read acl_data) (ad_write acl_data) (ad_deny_read acl_data)
                          (ad_deny_write acl_data) (ad_ops acl_data) (ad_meta acl_data))
             else Ok acl_data;
  Ok (add_key_id key_id acl_data).

(** ** The table of lists *)

(** The table in memory, the keys below [acl/] of the registry, and the
    changes announced; [aw_calls] counts the calls of the registry. *)
Record AclWorld := mkAw {
  aw_acls : gmap string Acl;
  aw_registry : gmap string Acl;
  aw_events : list (string * option Acl);
  aw_calls : nat
}.

(* does the n-th call of the registry succeed *)
Variable reg_io : nat -> EResult unit.

Abbreviation AM := (M AclWorld).

Definition set_acls (acls : gmap string Acl) : AM unit :=
  modify (fun w => mkAw acls (aw_registry w) (aw_events w) (aw_calls w)).
Definition reg_call (f : gmap string Acl -> gmap string Acl) : AM unit := fun w =>
  match reg_io (aw_calls w) with
  | Ok _ => (Ok tt, mkAw (aw_acls w) (f (aw_registry w)) (aw_events w) (S (aw_calls w)))
  | Err e => (Err e, mkAw (aw_acls w) (aw_registry w) (aw_events w) (S (aw_calls w)))
  end.
(** [self.tx.send(..).await.log_ef()] *)
Definition send_event (ev : string * option Acl) : AM unit :=
  modify (fun w => mkAw (aw_acls w) (aw_registry w) (aw_events w ++ [ev]) (aw_calls w)).

(** [char::is_alphanumeric] on ASCII, and the symbols of
    [ID_ALLOWED_SYMBOLS] with the slash
    (svc/aaa-acl/src/main.rs:289-291) *)
Definition id_char_ok (c : Ascii.ascii) : bool :=
  let n := Ascii.nat_of_ascii c in
  ((48 <=? n) && (n <=? 57) || (65 <=? n) && (n <=? 90) || (97 <=? n) && (n <=? 122))%nat
  || bool_decide (n ∈ [95; 46; 40; 41; 91; 93; 45; 92; 47]%nat).

(** All characters of an id (svc/aaa-acl/src/main.rs:288-299) *)
Fixpoint id_ok (s : string) : bool :=
  match s with EmptyString => true | String c s' => id_char_ok c && id_ok s' end.

(** The method [acl.deploy] (svc/aaa-acl/src/main.rs:273-317) *)
Definition acl_deploy (new_acls : list Acl) : AM unit :=
  if negb (forallb (fun acl => id_ok (acl_id acl)) new_acls) then raise EInvalidData
  else
    w ← get;
    _ ← set_acls (foldl (fun acls acl => <[acl_id acl := acl]> acls) (aw_acls w) new_acls);
    for_each (fun acl =>
      _ ← reg_call (<[acl_id acl := acl]>);
      send_event (acl_id acl, Some acl)) new_acls.

(** The lists that are removed, by the id they have
    (svc/aaa-acl/src/main.rs:332-337) *)
Fixpoint take_acls (ids : list string) (acls : gmap string Acl)
    : list string * gmap string Acl :=
  match ids with
  | [] => ([], acls)
  | i :: ids' =>
      match acls !! i with
      | Some acl => let '(l, acls') := take_acls ids' (delete i acls) in (acl_id acl :: l, acls')
      | None => take_acls ids' acls
      end
  end.

(** The method [acl.undeploy] (svc/aaa-acl/src/main.rs:318-348) *)
Definition acl_undeploy (ids : list string) : AM unit :=
  w ← get;
  let '(removed, acls) := take_acls ids (aw_acls w) in
  _ ← set_acls acls;
  for_each (fun id =>
    _ ← reg_call (delete id);
    send_event (id, None)) removed.

(** The method [acl.destroy] (svc/aaa-acl/src/main.rs:386-404) *)
Definition acl_destroy (i : string) : AM unit :=
  w ← get;
  match aw_acls w !! i with
  | Some _ =>
      _ ← set_acls (delete i (aw_acls w));
      _ ← reg_call (delete i);
      send_event (i, None)
  | None => raise ENotFound
  end.

(** The lists loaded from the registry at start; [deserialize] reads one
    (svc/aaa-acl/src/main.rs:550-557) *)
Definition acl_load {V} (deserialize : V -> EResult Acl) (reg_acls : list (string * V)) : AM unit :=
  for_each (fun '(k, v) =>
    acl ← lift (deserialize v);
    w ← get;
    set_acls (<[k := acl]> (aw_acls w))) reg_acls.

(** The method [acl.get_config] (svc/aaa-acl/src/main.rs:349-360) *)
Definition acl_get_config (i : string) : AM Acl :=
  w ← get;
  lift (ok_or (aw_acls w !! i) ENotFound).

(** ** What a combination grants *)

(** The right [v] of the kind [k] is in the field. *)
Definition grants (r : Rights) (k : string) (v : Value) : Prop :=
  exists m s, r = Some m ∧ m !! k = Some s ∧ v ∈ s.

Definition allows (r : option (gset string)) (op : string) : Prop :=
  exists s, r = Some s ∧ op ∈ s.

(** Adding the keys of [r] to [f] is their union. *)
Lemma add_keys_lookup f r k :
  map_fold add_key f r !! k = union_with (fun v s => Some (v ∪ s)) (r !! k) (f !! k).
Proof.
  revert k. apply (map_fold_weak_ind (fun g r => forall k, g !! k =
    union_with (fun v s => Some (v ∪ s)) (r !! k) (f !! k))).
  { intros k. by rewrite lookup_empty, (left_id_L None _). }
  intros i x m g Hi IH k. unfold add_key. pose proof (IH i) as Hg.
  rewrite Hi, (left_id_L None _) in Hg. rewrite Hg.
  destruct (decide (k = i)) as [-> |Hne].
  - rewrite lookup_insert_eq. by destruct (f !! i); rewrite lookup_insert_eq.
  - rewrite (lookup_insert_ne m) by done. rewrite <-IH.
    by destruct (f !! i); rewrite lookup_insert_ne.
Qed.

Lemma grants_form_field src dst k v :
  grants (form_field src dst) k v <-> grants src k v ∨ grants dst k v.
Proof.
  unfold grants, form_field. destruct src as [r|]; [|naive_solver].
  destruct dst as [f|]; [|naive_solver]. split.
  - intros (m & s & [= <-] & Hk & Hv). rewrite add_keys_lookup in Hk.
    destruct (r !! k) as [sr|] eqn:Hr, (f !! k) as [sf|] eqn:Hf; simplify_eq/=; [|by eauto 10..].
    apply elem_of_union in Hv as [Hv|Hv]; [left|right]; eauto 10.
  - pose proof (add_keys_lookup f r k) as Hl.
    intros [(m & s & [= <-] & Hk & Hv)|(m & s & [= <-] & Hk & Hv)]; rewrite Hk in Hl.
    + destruct (f !! k) as [sf|]; simpl in Hl; eexists _, _; (split; [done|]);
        (split; [exact Hl|]); set_solver.
    + destruct (r !! k) as [sr|]; simpl in Hl; eexists _, _; (split; [done|]);
        (split; [exact Hl|]); set_solver.
Qed.

Lemma allows_form_ops src dst op :
  allows (form_ops src dst) op <-> allows src op ∨ allows dst op.
Proof.
  unfold allows, form_ops. destruct src as [a|], dst as [b|]; [|naive_solver..].
  split; [intros (s & [= <-] & [Ho|Ho]%elem_of_union)|intros [(s & [= <-] & Ho)|(s & [= <-] & Ho)]].
  - left. eauto.
  - right. eauto.
  - eexists. split; [done|]. set_solver.
  - eexists. split; [done|]. set_solver.
Qed.

(** The loop over the lists. *)
Lemma fold_acls {A} (f : AclData -> A) (g : Acl -> A) (op : A -> A -> A) acls d :
  (forall d acl, f (add_acl d acl) = op (g acl) (f d)) ->
  f (foldl add_acl d acls) = foldl (fun a acl => op (g acl) a) (f d) acls.
Proof. intros Hf. revert d. induction acls as [|acl acls IH]; intros d; simpl; [done|]. by rewrite IH, Hf. Qed.

(** A property that a step joins holds of the result if it holds of the
    start or of a member. *)
Lemma fold_joins {A} (P : A -> Prop) (g : Acl -> A) (op : A -> A -> A) acls a :
  (forall x y, P (op x y) <-> P x ∨ P y) ->
  P (foldl (fun a acl => op (g acl) a) a acls) <-> P a ∨ exists acl, acl ∈ acls ∧ P (g acl).
Proof.
  intros HP. revert a. induction acls as [|acl acls IH]; intros a; simpl.
  { split; [by left|]. intros [?|(acl & Hin & _)]; [done|]. by apply not_elem_of_nil in Hin. }
  rewrite IH, HP. setoid_rewrite elem_of_cons. naive_solver.
Qed.

(** A combination grants what its members grant. *)
Record combines (acls : list Acl) (d : AclData) : Prop := mkCombines {
  combines_admin : ad_admin d = true <-> exists acl, acl ∈ acls ∧ acl_admin acl = true;
  combines_read k v : grants (ad_read d) k v <-> exists acl, acl ∈ acls ∧ grants (acl_read acl) k v;
  combines_write k v : grants (ad_write d) k v <-> exists acl, acl ∈ acls ∧ grants (acl_write acl) k v;
  combines_deny_read k v :
    grants (ad_deny_read d) k v <-> exists acl, acl ∈ acls ∧ grants (acl_deny_read acl) k v;
  combines_deny_write k v :
    grants (ad_deny_write d) k v <-> exists acl, acl ∈ acls ∧ grants (acl_deny_write acl) k v;
  combines_ops op : allows (ad_ops d) op <-> exists acl, acl ∈ acls ∧ allows (acl_ops acl) op;
  combines_from i : i ∈ ad_from d <-> exists acl, acl ∈ acls ∧ acl_id acl = i
}.

Lemma grants_none k v : ~ grants None k v.
Proof. by intros (m & s & ? & _). Qed.
Lemma allows_none op : ~ allows None op.
Proof. by intros (s & ? & _). Qed.

Lemma field_combines (f : AclData -> Rights) (g : Acl -> Rights) acls k v :
  (forall d acl, f (add_acl d acl) = form_field (g acl) (f d)) -> f acl_data_default = None ->
  grants (f (foldl add_acl acl_data_default acls)) k v <-> exists acl, acl ∈ acls ∧ grants (g acl) k v.
Proof.
  intros Hf Hd. rewrite (fold_acls f g form_field) by done.
  rewrite (fold_joins (fun r => grants r k v)) by (intros; apply grants_form_field).
  rewrite Hd. pose proof (grants_none k v). naive_solver.
Qed.

Lemma acl_data_of_list_combines acls : combines acls (acl_data_of_list acls).
Proof.
  unfold acl_data_of_list. constructor; simpl; intros.
  - rewrite (fold_acls ad_admin acl_admin orb) by (by intros d []).
    rewrite (fold_joins (fun b => b = true)) by apply orb_true_iff. naive_solver.
  - by apply field_combines.
  - by apply field_combines.
  - by apply field_combines.
  - by apply field_combines.
  - rewrite (fold_acls ad_ops acl_ops form_ops) by done.
    rewrite (fold_joins (fun r => allows r op)) by (intros; apply allows_form_ops).
    pose proof (allows_none op). naive_solver.
  - rewrite elem_of_list_to_set, merge_sort_Permutation, list_elem_of_fmap. naive_solver.
Qed.

(** ** Order *)

Lemma form_field_swap a b d : form_field a (form_field b d) = form_field b (form_field a d).
Proof.
  destruct a as [a|], b as [b|], d as [d|]; simpl; try done; f_equal; apply map_eq; intros k;
    rewrite !add_keys_lookup; destruct (a !! k), (b !! k); try destruct (d !! k); simpl;
    f_equal; set_solver.
Qed.
Lemma form_ops_swap a b d : form_ops a (form_ops b d) = form_ops b (form_ops a d).
Proof. destruct a, b, d; simpl; try done; f_equal; set_solver. Qed.

Lemma add_acl_swap d a b : add_acl (add_acl d a) b = add_acl (add_acl d b) a.
Proof.
  unfold add_acl. simpl. f_equal; auto using form_field_swap, form_ops_swap.
  by destruct (acl_admin a), (acl_admin b).
Qed.

Lemma add_acls_perm d acls acls' :
  acls ≡ₚ acls' -> foldl add_acl d acls = foldl add_acl d acls'.
Proof.
  intros Hp. revert d. induction Hp; intros d; simpl; [done|auto| |congruence].
  by rewrite add_acl_swap.
Qed.

(** The lists of a user can be named in any order: the combination, its
    id included, is the same. *)
Lemma acl_combine_order acls acls' :
  acls ≡ₚ acls' -> acl_data_of_list acls = acl_data_of_list acls'.
Proof.
  intros Hp. unfold acl_data_of_list.
  assert (merge_sort String.le (acl_id <$> acls) = merge_sort String.le (acl_id <$> acls')) as ->.
  { apply (Sorted_unique String.le); [apply Sorted_merge_sort; apply _..|].
    by rewrite !merge_sort_Permutation, Hp. }
  by rewrite (add_acls_perm _ _ _ Hp).
Qed.

(** ** Formatting *)

Lemma find_acls_spec strict acls ids srcs :
  find_acls strict acls ids = Ok srcs ->
  (forall acl, acl ∈ srcs <-> exists i, i ∈ ids ∧ acls !! i = Some acl) ∧
  (strict = true -> forall i, i ∈ ids -> is_Some (acls !! i)).
Proof.
  revert srcs. induction ids as [|i ids IH]; intros srcs; simpl.
  { intros [= <-]. split; [set_solver|]. intros _ i Hi. by apply not_elem_of_nil in Hi. }
  destruct (acls !! i) as [acl|] eqn:Hi.
  - destruct (find_acls strict acls ids) as [l|]; [|done]. intros [= <-].
    destruct (IH l eq_refl) as [Hl Hs]. split.
    + intros x. rewrite elem_of_cons, Hl. setoid_rewrite elem_of_cons. naive_solver.
    + intros Hst j [-> |Hj]%elem_of_cons; eauto.
  - destruct strict; [done|]. intros Hf. destruct (IH srcs Hf) as [Hl Hs]. split; [|done].
    intros x. rewrite Hl. setoid_rewrite elem_of_cons. naive_solver.
Qed.

Lemma acl_data_of_combines acl : combines [acl] (acl_data_of acl).
Proof. constructor; simpl; intros; setoid_rewrite list_elem_of_singleton; set_solver. Qed.

Lemma default_combines : combines [] acl_data_default.
Proof.
  constructor; simpl; intros; setoid_rewrite elem_of_nil;
    (split; [|by intros (acl & ? & _)]); try done; try (by intros ?%grants_none);
    try (by intros ?%allows_none).
Qed.

Definition ids_of (p : IdOrList) : list string :=
  match p with Single i => [i] | Multiple ids => ids end.

(** The change of the id and of the meta data does not change the rights. *)
Lemma combines_ext srcs d d' :
  combines srcs d -> ad_admin d' = ad_admin d -> ad_read d' = ad_read d ->
  ad_write d' = ad_write d -> ad_deny_read d' = ad_deny_read d ->
  ad_deny_write d' = ad_deny_write d -> ad_ops d' = ad_ops d -> ad_from d' = ad_from d ->
  combines srcs d'.
Proof.
  intros Hc E1 E2 E3 E4 E5 E6 E7. constructor; intros; rewrite ?E1, ?E2, ?E3, ?E4, ?E5, ?E6, ?E7;
    apply Hc.
Qed.

Lemma combines_empty srcs d : combines srcs d -> ad_from d = ∅ <-> srcs = [].
Proof.
  intros Hc. split.
  - intros He. destruct srcs as [|acl srcs]; [done|].
    assert (acl_id acl ∈ ad_from d) as Hin; [|set_solver].
    apply (combines_from _ _ Hc). exists acl. split; [apply list_elem_of_here|done].
  - intros ->. apply set_eq. intros i. rewrite (combines_from _ _ Hc). set_solver.
Qed.

(** The lists [acl.format] starts from. *)
Lemma format_sources strict acls p d :
  format_start strict acls p = Ok d ->
  exists srcs, combines srcs d ∧
    (forall acl, acl ∈ srcs <-> exists i, i ∈ ids_of p ∧ acls !! i = Some acl) ∧
    (strict = true -> forall i, i ∈ ids_of p -> is_Some (acls !! i)).
Proof.
  destruct p as [i|ids]; simpl.
  - destruct (acls !! i) as [acl|] eqn:Hi; [|destruct strict; [done|]]; intros [= <-].
    + exists [acl]. split; [apply acl_data_of_combines|]. split.
      * intros x. rewrite list_elem_of_singleton. setoid_rewrite list_elem_of_singleton. naive_solver.
      * intros _ j ->%list_elem_of_singleton. by eexists.
    + exists []. split; [apply default_combines|]. split; [|done].
      intros x. setoid_rewrite list_elem_of_singleton. rewrite elem_of_nil. naive_solver.
  - destruct (find_acls strict acls ids) as [srcs|] eqn:Hf; [|done]. intros [= <-].
    exists srcs. split; [apply acl_data_of_list_combines|]. by apply find_acls_spec.
Qed.

Lemma acl_format_sources strict forbid_empty acls p key_id d :
  acl_format strict forbid_empty acls p key_id = Ok d ->
  exists srcs, combines srcs d ∧
    (forall acl, acl ∈ srcs <-> exists i, i ∈ ids_of p ∧ acls !! i = Some acl) ∧
    (strict = true -> forall i, i ∈ ids_of p -> is_Some (acls !! i)) ∧
    (forbid_empty = true -> srcs ≠ []).
Proof.
  unfold acl_format. destruct (format_start strict acls p) as [d0|] eqn:Hs; [|done]. intros Hf.
  apply format_sources in Hs as (srcs & Hc & Hin & Hst). exists srcs. cbn [mbind EResult_bind] in Hf.
  pose proof (combines_empty _ _ Hc) as He.
  destruct (decide (ad_from d0 = ∅)) as [H0e|H0e]; [destruct forbid_empty; [done|]|];
    cbn [mbind EResult_bind] in Hf; injection Hf as <-;
    (split; [eapply combines_ext; [exact Hc|..]; by destruct key_id|]);
    (split; [done|]); (split; [done|]); naive_solver.
Qed.

(** C39: What [acl.format] returns grants and denies exactly what the deployed
    lists that were asked for grant and deny; with strict formatting all of
    them are deployed, and when empty lists are forbidden there is at least
    one. *)
Theorem acl_format_exact strict forbid_empty acls p key_id d :
  acl_format strict forbid_empty acls p key_id = Ok d ->
  exists srcs, combines srcs d ∧
    (forall acl, acl ∈ srcs <-> exists i, i ∈ ids_of p ∧ acls !! i = Some acl) ∧
    (strict = true -> forall i, i ∈ ids_of p -> is_Some (acls !! i)) ∧
    (forbid_empty = true -> srcs ≠ []).
Proof. apply acl_format_sources. Qed.
End acl.

(** ** Two lists *)

Module AclExamples.
Import Sample.

Definition svalue_code (v : SValue) : unit + Z + list Z + string + (bool + bool + unit + (bool * positive * Z)) :=
  match v with
  | SUnit => inl (inl (inl (inl tt)))
  | SNum z => inl (inl (inl (inr z)))
  | SBytes b => inl (inl (inr b))
  | SStr s => inl (inr s)
  | SF64 (SpecFloat.S754_zero b) => inr (inl (inl (inl b)))
  | SF64 (SpecFloat.S754_infinity b) => inr (inl (inl (inr b)))
  | SF64 SpecFloat.S754_nan => inr (inl (inr tt))
  | SF64 (SpecFloat.S754_finite b m e) => inr (inr (b, m, e))
  end.
#[export] Instance svalue_code_inj : Inj (=) (=) svalue_code.
Proof. intros [| |[]| |] [| |[]| |]; simpl; congruence. Qed.
#[export] Instance svalue_countable : Countable SValue := inj_countable' svalue_code
  (fun c => match c with
            | inl (inl (inl (inl _))) => SUnit
            | inl (inl (inl (inr z))) => SNum z
            | inl (inl (inr b)) => SBytes b
            | inl (inr s) => SStr s
            | inr (inl (inl (inl b))) => SF64 (SpecFloat.S754_zero b)
            | inr (inl (inl (inr b))) => SF64 (SpecFloat.S754_infinity b)
            | inr (inl (inr _)) => SF64 SpecFloat.S754_nan
            | inr (inr (b, m, e)) => SF64 (SpecFloat.S754_finite b m e)
            end) ltac:(by intros [| |[]| |]).

#[export] Instance value_hash : ValueHash := {|
  value_eq_dec := SValue_eq_dec;
  value_countable := svalue_countable;
  VString := SStr
|}.

Definition lamps : Value := SStr "unit:lamps/#".
Definition operators : Acl :=
  mkAcl "operators" false None (Some {["items" := {[lamps]}]}) None None None None.
Definition admins : Acl := mkAcl "admins" true None None None None None None.
Definition acls : gmap string Acl := {["operators" := operators; "admins" := admins]}.
Definition both : AclData :=
  mkAclData "admins+operators" {["operators"; "admins"]} true None
    (Some {["items" := {[lamps]}]}) None None None None.

Lemma acl_combine_order_example :
  [operators; admins] ≡ₚ [admins; operators] ∧
  acl_data_of_list [operators; admins] = acl_data_of_list [admins; operators].
Proof.
  assert ([operators; admins] ≡ₚ [admins; operators]) as Hp by constructor.
  split; [exact Hp|]. apply (acl_combine_order _ _ Hp).
Defined.

Definition asked : IdOrList := Multiple ["operators"; "admins"].

Lemma acl_format_exact_witness :
  exists srcs, combines srcs both ∧
    (forall acl, acl ∈ srcs <-> exists i, i ∈ ids_of asked ∧ acls !! i = Some acl) ∧
    (true = true -> forall i, i ∈ ids_of asked -> is_Some (acls !! i)) ∧
    (true = true -> srcs ≠ []).
Proof. apply (acl_format_exact true true acls asked None both). vm_refl. Defined.
End AclExamples.
