(* ===== verification/Password.v ===== *)
(** * Passwords (genpass-native/src/lib.rs)

    Password hashes, their texts and the password policy.  The hash functions
    and the random source are those of [openssl], the encodings those of the
    crates [hex] and [base64].  The delays that hide how long an operation
    takes are not modelled. *)
From Stdlib Require Import Ascii.
From S2P Require Import Prelude EvaCommon.

(** The text of a string as bytes. *)
Definition as_bytes (s : string) : list Z :=
  (fun a => Z.of_nat (nat_of_ascii a)) <$> String.list_ascii_of_string s.

Class HashExternals := {
  sha256 : list Z -> list Z;
  sha512 : list Z -> list Z;
  (* PBKDF2 with HMAC-SHA256: password, salt, number of iterations *)
  pbkdf2_hmac : list Z -> list Z -> Z -> EResult (list Z);
  hex_encode : list Z -> string;
  hex_decode : string -> option (list Z);
  base64_encode : list Z -> string;
  base64_decode : string -> option (list Z)
}.

(** [u8], and [[u8; n]] *)
Definition is_u8 (z : Z) : Prop := (0 <= z < 256)%Z.
Definition is_array (n : nat) (b : list Z) : Prop := length b = n /\ Forall is_u8 b.

(** Digests have the sizes of their algorithms, bytes are decoded from their
    encodings, and the texts of the encodings have no dollar sign. *)
Definition dollar : ascii := "$"%char.
Definition no_dollar (s : string) : Prop := dollar ∉ String.list_ascii_of_string s.
Class HashLaws `{HashExternals} : Prop := {
  sha256_size b : is_array 32 (sha256 b);
  sha512_size b : is_array 64 (sha512 b);
  pbkdf2_size p s n h : pbkdf2_hmac p s n = Ok h -> is_array 32 h;
  hex_decode_encode b : Forall is_u8 b -> hex_decode (hex_encode b) = Some b;
  hex_decode_bytes s b : hex_decode s = Some b -> Forall is_u8 b;
  hex_size b : String.length (hex_encode b) = 2 * length b;
  hex_no_dollar b : no_dollar (hex_encode b);
  base64_decode_encode b : Forall is_u8 b -> base64_decode (base64_encode b) = Some b;
  base64_decode_bytes s b : base64_decode s = Some b -> Forall is_u8 b;
  base64_no_dollar b : no_dollar (base64_encode b)
}.

Section password.
Context `{HashExternals}.

(** genpass-native/src/lib.rs:28-28 [PBKDF2_ITERS] *)
Definition PBKDF2_ITERS : Z := 100000.

(** genpass-native/src/lib.rs:67-72 [Password] *)
Inductive Password :=
  | Sha256 (hash : list Z)
  | Sha512 (hash : list Z)
  | Pbkdf2 (salt hash : list Z).

(** The types of the arrays. *)
Definition password_wf (p : Password) : Prop :=
  match p with
  | Sha256 hash => is_array 32 hash
  | Sha512 hash => is_array 64 hash
  | Pbkdf2 salt hash => is_array 16 salt /\ is_array 32 hash
  end.

(** [TryFrom<Vec<u8>> for [u8; n]] *)
Definition array (n : nat) (b : list Z) : EResult (list Z) :=
  if (length b =? n)%nat then Ok b else Err EInvalidData.
#[global] Arguments array : simpl never.

(** genpass-native/src/lib.rs:75-87 [fmt] *)
Definition password_to_string (p : Password) : string :=
  match p with
  | Sha256 hash => hex_encode hash
  | Sha512 hash => hex_encode hash
  | Pbkdf2 salt hash => ("$1$" +:+ base64_encode salt +:+ "$" +:+ base64_encode hash)%string
  end.

(** [s.splitn(2, '$')]: the text before the separator, and the rest *)
Fixpoint split_once (c : ascii) (s : string) : string * option string :=
  match s with
  | EmptyString => (EmptyString, None)
  | String a s' =>
      if Ascii.eqb a c then (EmptyString, Some s')
      else let '(x, r) := split_once c s' in (String a x, r)
  end.

(** genpass-native/src/lib.rs:93-125 [from_str] *)
Definition password_from_str (s : string) : EResult Password :=
  match strip_prefix "$1$" s with
  | Some pkcs_str =>
      let '(salt, hash) := split_once dollar pkcs_str in
      salt ← ok_or (base64_decode salt) EInvalidData;
      hash ← ok_or hash EInvalidData;
      hash ← ok_or (base64_decode hash) EInvalidData;
      salt ← array 16 salt;
      hash ← array 32 hash;
      Ok (Pbkdf2 salt hash)
  | None =>
      if (String.length s =? 64)%nat then
        b ← ok_or (hex_decode s) EInvalidData; b ← array 32 b; Ok (Sha256 b)
      else if (String.length s =? 128)%nat then
        b ← ok_or (hex_decode s) EInvalidData; b ← array 64 b; Ok (Sha512 b)
      else Err EInvalidData
  end.

(** genpass-native/src/lib.rs:157-160 [Password::new_sha256] *)
Definition new_sha256 (password : string) : Password := Sha256 (sha256 (as_bytes password)).
(** genpass-native/src/lib.rs:171-174 [Password::new_sha512] *)
Definition new_sha512 (password : string) : Password := Sha512 (sha512 (as_bytes password)).
(** genpass-native/src/lib.rs:179-193 (Password::new_hasher_pbkdf2); [salt] are
    the random bytes *)
Definition new_hasher_pbkdf2 (salt : EResult (list Z)) (password : string) : EResult (list Z * list Z) :=
  salt ← salt;
  hash ← pbkdf2_hmac (as_bytes password) salt PBKDF2_ITERS;
  Ok (salt, hash).
(** genpass-native/src/lib.rs:194-197 [Password::new_pbkdf2] *)
Definition new_pbkdf2 (salt : EResult (list Z)) (password : string) : EResult Password :=
  sh ← new_hasher_pbkdf2 salt password; Ok (Pbkdf2 sh.1 sh.2).

Definition bytes_eqb (a b : list Z) : bool := bool_decide (a = b).

(** genpass-native/src/lib.rs:202-227 [Password::verify_password] *)
Definition verify_password (p : Password) (password : string) : EResult bool :=
  match p with
  | Sha256 hash => Ok (bytes_eqb (sha256 (as_bytes password)) hash)
  | Sha512 hash => Ok (bytes_eqb (sha512 (as_bytes password)) hash)
  | Pbkdf2 salt hash =>
      password_hash ← pbkdf2_hmac (as_bytes password) salt PBKDF2_ITERS;
      Ok (bytes_eqb password_hash hash)
  end.

(** ** Random strings *)

(** Letters and digits, [char::is_alphanumeric] on ASCII *)
Definition is_upper (a : ascii) : bool := let n := nat_of_ascii a in (65 <=? n)%nat && (n <=? 90)%nat.
Definition is_lower (a : ascii) : bool := let n := nat_of_ascii a in (97 <=? n)%nat && (n <=? 122)%nat.
Definition is_digit (a : ascii) : bool := let n := nat_of_ascii a in (48 <=? n)%nat && (n <=? 57)%nat.
Definition is_alphabetic (a : ascii) : bool := is_upper a || is_lower a.
Definition is_alphanumeric (a : ascii) : bool := is_alphabetic a || is_digit a.

(** genpass-native/src/lib.rs:32-47 [random_string]; [rnd] are the blocks of
    random bytes, [rounds] how many are taken at most *)
Fixpoint random_loop (len : nat) (rnd : nat -> EResult (list Z)) (rounds k : nat) (acc : list ascii)
    : EResult (list ascii * nat) :=
  match rounds with
  | O => Err ENever
  | S rounds =>
      buf ← rnd k;
      let acc := acc ++ filter (fun c => is_alphanumeric c = true)
                          (String.list_ascii_of_string (base64_encode buf)) in
      if (0 <? len)%nat && (len <=? length acc)%nat then Ok (take len acc, S k)
      else random_loop len rnd rounds (S k) acc
  end.
Definition random_string (len : nat) (rnd : nat -> EResult (list Z)) (rounds k : nat)
    : EResult (string * nat) :=
  r ← random_loop len rnd rounds k []; Ok (String.string_of_list_ascii r.1, r.2).

(** ** The policy *)

(** genpass-native/src/lib.rs:259-269 [PasswordPolicy] *)
Record PasswordPolicy := mkPolicy {
  min_length : nat;
  required_letter : bool;
  required_mixed_case : bool;
  required_number : bool
}.

(** genpass-native/src/lib.rs:272-326 [PasswordPolicy::check]; the messages of
    the error are counted *)
Definition policy_check (pp : PasswordPolicy) (p : string) : EResult unit :=
  let chars := String.list_ascii_of_string p in
  let err := 0 in
  let err := if (length chars <? min_length pp)%nat then S err else err in
  let err := if required_letter pp then (if existsb is_alphabetic chars then err else S err) else err in
  let err := if required_number pp then (if existsb is_digit chars then err else S err) else err in
  let err :=
    if required_mixed_case pp then
      (if negb (existsb is_upper chars) || negb (existsb is_lower chars) then S err else err)
    else err in
  if (err =? 0)%nat then Ok tt else Err EInvalidParams.

(** ** Facts *)

Context `{!HashLaws}.

Lemma array_ok n b b' : array n b = Ok b' -> b' = b /\ length b = n.
Proof. unfold array. destruct (Nat.eqb_spec (length b) n); [by intros [= <-]|done]. Qed.
Lemma array_size n b : length b = n -> array n b = Ok b.
Proof. intros Hb. unfold array. by rewrite Hb, Nat.eqb_refl. Qed.

Lemma strip_prefix_app p s : strip_prefix p (p +:+ s)%string = Some s.
Proof. induction p as [|a p IH]; [done|].
  change (String a p +:+ s)%string with (String a (p +:+ s)%string). cbn [strip_prefix].
  by rewrite Ascii.eqb_refl, IH.
Qed.

Lemma strip_dollar_none s r : no_dollar s -> strip_prefix (String dollar r) s = None.
Proof.
  unfold no_dollar. destruct s as [|a s]; [done|]. cbn [strip_prefix String.list_ascii_of_string]. intros Hn.
  destruct (Ascii.eqb_spec dollar a) as [<-|]; [|done]. set_solver.
Qed.

Lemma split_once_app c s r :
  c ∉ String.list_ascii_of_string s -> split_once c (s +:+ String c r)%string = (s, Some r).
Proof.
  induction s as [|a s IH]; intros Hn;
    [change ("" +:+ String c r)%string with (String c r); cbn [split_once]; by rewrite Ascii.eqb_refl|].
  change (String a s +:+ String c r)%string with (String a (s +:+ String c r)%string).
  cbn [split_once String.list_ascii_of_string] in *.
  destruct (Ascii.eqb_spec a c) as [->|]; [set_solver|]. rewrite IH by set_solver. done.
Qed.

(** Password hashes survive their text.  Every well-formed hash, whatever
    its algorithm, is read back from the text that is stored for it. *)
Lemma from_str_to_string p :
  password_wf p -> password_from_str (password_to_string p) = Ok p.
Proof.
  unfold password_from_str. destruct p as [hash|hash|salt hash]; cbn [password_to_string password_wf].
  - intros [Hw Hb]. rewrite strip_dollar_none by apply hex_no_dollar. rewrite hex_size, Hw. simpl.
    rewrite hex_decode_encode by done. simpl. by rewrite array_size.
  - intros [Hw Hb]. rewrite strip_dollar_none by apply hex_no_dollar. rewrite hex_size, Hw. simpl.
    rewrite hex_decode_encode by done. simpl. by rewrite array_size.
  - intros [[Hs Hsb] [Hh Hhb]]. rewrite strip_prefix_app.
    change ("$" +:+ base64_encode hash)%string with (String dollar (base64_encode hash)).
    rewrite split_once_app by apply base64_no_dollar. rewrite !base64_decode_encode by done. simpl.
    rewrite (array_size 16 salt Hs). simpl. rewrite base64_decode_encode by done. simpl.
    by rewrite (array_size 32 hash Hh).
Qed.

Lemma from_str_wf s p : password_from_str s = Ok p -> password_wf p.
Proof.
  unfold password_from_str. destruct (strip_prefix _ s) as [r|].
  - destruct (split_once dollar r) as [salt hash].
    destruct (base64_decode salt) as [sb|] eqn:Eb; simpl; [|done]. destruct hash as [h|]; simpl; [|done].
    destruct (base64_decode h) as [hb|] eqn:Ebh; simpl; [|done].
    destruct (array 16 sb) as [sb'|] eqn:Es; simpl; [|done].
    destruct (array 32 hb) as [hb'|] eqn:Eh; simpl; [|done]. intros [= <-].
    apply array_ok in Es as [-> ?], Eh as [-> ?]. apply base64_decode_bytes in Eb, Ebh. done.
  - destruct (String.length s =? 64)%nat; [|destruct (String.length s =? 128)%nat; [|done]];
      (destruct (hex_decode s) as [b|] eqn:Eb; simpl; [|done]); apply hex_decode_bytes in Eb.
    + destruct (array 32 b) as [b'|] eqn:E; simpl; [|done]. intros [= <-]. by apply array_ok in E as [-> ?].
    + destruct (array 64 b) as [b'|] eqn:E; simpl; [|done]. intros [= <-]. by apply array_ok in E as [-> ?].
Qed.


(** A hash accepts the password it was made from. *)
Lemma new_sha256_verifies password : verify_password (new_sha256 password) password = Ok true.
Proof. simpl. unfold bytes_eqb. by rewrite bool_decide_eq_true_2. Qed.
Lemma new_sha512_verifies password : verify_password (new_sha512 password) password = Ok true.
Proof. simpl. unfold bytes_eqb. by rewrite bool_decide_eq_true_2. Qed.
Lemma new_pbkdf2_verifies salt password p :
  new_pbkdf2 salt password = Ok p -> verify_password p password = Ok true.
Proof.
  unfold new_pbkdf2, new_hasher_pbkdf2. destruct salt as [s|]; simpl; [|done].
  destruct (pbkdf2_hmac _ s _) as [h|] eqn:Eh; simpl; [|done]. intros [= <-]. simpl. rewrite Eh. simpl.
  unfold bytes_eqb. by rewrite bool_decide_eq_true_2.
Qed.

(** A password is accepted by the policy exactly when it meets each of its
    requirements. *)
Lemma policy_check_ok pp p :
  policy_check pp p = Ok tt <->
  min_length pp <= String.length p /\
  (required_letter pp = true -> exists c, c ∈ String.list_ascii_of_string p /\ is_alphabetic c = true) /\
  (required_number pp = true -> exists c, c ∈ String.list_ascii_of_string p /\ is_digit c = true) /\
  (required_mixed_case pp = true ->
     (exists c, c ∈ String.list_ascii_of_string p /\ is_upper c = true) /\
     (exists c, c ∈ String.list_ascii_of_string p /\ is_lower c = true)).
Proof.
  assert (forall f l, existsb f l = true <-> exists c : ascii, c ∈ l /\ f c = true) as He.
  { intros f l. rewrite existsb_exists. setoid_rewrite <-list_elem_of_In. done. }
  assert (length (String.list_ascii_of_string p) = String.length p) as Hl
    by (induction p; simpl; congruence).
  unfold policy_check. rewrite Hl, <-!He.
  destruct (Nat.ltb_spec (String.length p) (min_length pp)); destruct (required_letter pp),
    (required_number pp), (required_mixed_case pp); simpl;
    destruct (existsb is_alphabetic _), (existsb is_digit _), (existsb is_upper _),
      (existsb is_lower _); simpl; split; intros Hx; try done; try (split_and!; try done; lia);
    exfalso; naive_solver lia.
Qed.

(** A random string has the length that is asked for and consists of letters
    and digits. *)
Lemma random_loop_ok len rnd rounds k acc r k' :
  Forall (fun c => is_alphanumeric c = true) acc ->
  random_loop len rnd rounds k acc = Ok (r, k') ->
  length r = len /\ Forall (fun c => is_alphanumeric c = true) r.
Proof.
  revert k acc. induction rounds as [|rounds IH]; intros k acc Ha; simpl; [done|].
  destruct (rnd k) as [buf|]; simpl; [|done].
  set (acc' := acc ++ _).
  assert (Forall (fun c => is_alphanumeric c = true) acc') as Ha'.
  { apply Forall_app. split; [done|]. apply Forall_forall. by intros c [? _]%list_elem_of_filter. }
  destruct (Nat.leb_spec len (length acc')); [|rewrite andb_false_r; by apply IH].
  destruct (Nat.ltb_spec 0 len); cbn [andb]; [|by apply IH].
  intros [= <- <-]. split; [rewrite length_take; lia|by apply Forall_take].
Qed.
End password.
