(* ===== verification/LocalAuth.v ===== *)
(** * Local authentication (svc/aaa-localauth/src/main.rs)

    The service keeps the API keys, the users and the one-time users of a
    node, the former two with copies in the registry.  [auth.key] and
    [auth.user] verify who is calling and have the ACL service format the
    access lists of the caller. *)
From Stdlib Require Import Ascii.
From S2P Require Import Prelude Duration EvaCommon Acl Password.

(** svc/aaa-localauth/src/main.rs:164-172 [Key] *)
Record Key := mkKey { key_id : string; key_key : string; key_acls : gset string }.

(** svc/aaa-localauth/src/main.rs:117-122 [UserProfile] *)
Record UserProfile := mkProfile { up_email : option string; up_phone : option string }.
Definition profile_default : UserProfile := mkProfile None None.

(** svc/aaa-localauth/src/main.rs:40-45 [ProfileField] *)
Inductive ProfileField := Email | Phone.

(** svc/aaa-localauth/src/main.rs:90-100 [User] *)
Record User := mkUser {
  us_login : string;
  us_password : Password;
  us_acls : gset string;
  us_profile : UserProfile
}.

(** svc/aaa-localauth/src/main.rs:47-50 [OneTimeUser] *)
Record OneTimeUser := mkOneTime { ot_created : Z; ot_user : option User }.

(** A user in the registry: the password is a text. *)
Record StoredUser := mkStored {
  st_login : string;
  st_password : string;
  st_acls : gset string;
  st_profile : UserProfile
}.

(** ** The table of keys *)

(** svc/aaa-localauth/src/main.rs:236-240 [KeyDb] *)
Record KeyDb := mkKeyDb { keys_by_id : gmap string Key; keys_by_k : gmap string Key }.

(** svc/aaa-localauth/src/main.rs:247-259 [KeyDb::append] *)
Definition keydb_append (key : Key) (db : KeyDb) : EResult KeyDb :=
  match keys_by_k db !! key_key key with
  | Some k =>
      if String.eqb (key_id key) (key_id k)
      then Ok (mkKeyDb (<[key_id key := key]> (keys_by_id db)) (<[key_key key := key]> (keys_by_k db)))
      else Err EBusy
  | None =>
      Ok (mkKeyDb (<[key_id key := key]> (keys_by_id db)) (<[key_key key := key]> (keys_by_k db)))
  end.
(** svc/aaa-localauth/src/main.rs:268-276 [KeyDb::remove] *)
Definition keydb_remove (id : string) (db : KeyDb) : option Key * KeyDb :=
  match keys_by_id db !! id with
  | Some key => (Some key, mkKeyDb (delete id (keys_by_id db)) (delete (key_key key) (keys_by_k db)))
  | None => (None, db)
  end.

Lemma strip_prefix_Some p s r : strip_prefix p s = Some r -> s = (p +:+ r)%string.
Proof.
  revert s. induction p as [|a p IH]; intros s; [by intros [= ->]|]. destruct s as [|b s]; [done|].
  cbn [strip_prefix]. destruct (Ascii.eqb_spec a b) as [->|]; [|done]. intros ->%IH. done.
Qed.

Section auth.
Context `{HashExternals} {Value R : Type}.

(** svc/aaa-localauth/src/main.rs:125-130 [UserProfile::get_field] *)
Definition get_field (field : ProfileField) (p : UserProfile) : option string :=
  match field with Email => up_email p | Phone => up_phone p end.
(** svc/aaa-localauth/src/main.rs:131-148 [UserProfile::set_field]; the text of
    the value, nothing for the unit *)
Definition set_field (field : ProfileField) (value : option string) (p : UserProfile) : UserProfile :=
  match field with
  | Email => mkProfile value (up_phone p)
  | Phone => mkProfile (up_email p) value
  end.

Definition user_stored (u : User) : StoredUser :=
  mkStored (us_login u) (password_to_string (us_password u)) (us_acls u) (us_profile u).
Definition user_loaded (s : StoredUser) : EResult User :=
  p ← password_from_str (st_password s); Ok (mkUser (st_login s) p (st_acls s) (st_profile s)).

(** ** State *)

Record Auth := mkAuth {
  au_keys : KeyDb;
  au_users : gmap string User;
  au_one_time : gmap string OneTimeUser;
  au_reg_keys : gmap string Key;
  au_reg_users : gmap string StoredUser;
  au_events : list (string * bool);     (* announced, the latest first *)
  au_calls : nat;                       (* calls to the registry *)
  au_rnd : nat                          (* blocks of random bytes taken *)
}.

Definition set_keys (k : KeyDb) (s : Auth) : Auth :=
  mkAuth k (au_users s) (au_one_time s) (au_reg_keys s) (au_reg_users s) (au_events s) (au_calls s) (au_rnd s).
Definition set_users (u : gmap string User) (s : Auth) : Auth :=
  mkAuth (au_keys s) u (au_one_time s) (au_reg_keys s) (au_reg_users s) (au_events s) (au_calls s) (au_rnd s).
Definition set_one_time (o : gmap string OneTimeUser) (s : Auth) : Auth :=
  mkAuth (au_keys s) (au_users s) o (au_reg_keys s) (au_reg_users s) (au_events s) (au_calls s) (au_rnd s).
Definition set_registry (k : gmap string Key) (u : gmap string StoredUser) (s : Auth) : Auth :=
  mkAuth (au_keys s) (au_users s) (au_one_time s) k u (au_events s) (au_calls s) (au_rnd s).
Definition add_event (t : string) (b : bool) (s : Auth) : Auth :=
  mkAuth (au_keys s) (au_users s) (au_one_time s) (au_reg_keys s) (au_reg_users s) ((t, b) :: au_events s)
    (au_calls s) (au_rnd s).
Definition count_calls (s : Auth) : Auth :=
  mkAuth (au_keys s) (au_users s) (au_one_time s) (au_reg_keys s) (au_reg_users s) (au_events s)
    (S (au_calls s)) (au_rnd s).
Definition set_rnd (n : nat) (s : Auth) : Auth :=
  mkAuth (au_keys s) (au_users s) (au_one_time s) (au_reg_keys s) (au_reg_users s) (au_events s)
    (au_calls s) n.

(** The configuration, the registry, the random source, the clock and the
    other services. *)
Record AuthEnv := mkAuthEnv {
  ae_one_time : option Duration;                     (* one_time.expires *)
  ae_policy : PasswordPolicy;
  ae_io : nat -> EResult unit;
  ae_rnd : nat -> EResult (list Z);
  ae_rounds : nat;
  ae_now : Z;
  ae_acl : list string -> option string -> EResult R;        (* acl.format *)
  ae_otp : option (string -> option Value -> EResult unit);  (* otp.check *)
  ae_otp_destroy : string -> EResult unit
}.
Variable (e : AuthEnv).

Abbreviation AM := (M Auth).

Definition reg (f : Auth -> Auth) : AM unit := fun s =>
  match ae_io e (au_calls s) with
  | Ok _ => (Ok tt, f (count_calls s))
  | Err err => (Err err, count_calls s)
  end.
Definition reg_key_set (k : Key) : AM unit :=
  reg (fun s => set_registry (<[key_id k := k]> (au_reg_keys s)) (au_reg_users s) s).
Definition reg_key_delete (id : string) : AM unit :=
  reg (fun s => set_registry (delete id (au_reg_keys s)) (au_reg_users s) s).
Definition reg_user_set (login : string) (u : User) : AM unit :=
  reg (fun s => set_registry (au_reg_keys s) (<[login := user_stored u]> (au_reg_users s)) s).
Definition reg_user_delete (login : string) : AM unit :=
  reg (fun s => set_registry (au_reg_keys s) (delete login (au_reg_users s)) s).
Definition announce (topic : string) (present : bool) : AM unit := modify (add_event topic present).

Definition random (len : nat) : AM string :=
  s ← get;
  r ← lift (random_string len (ae_rnd e) (ae_rounds e) (au_rnd s));
  _ ← modify (set_rnd r.2);
  mret r.1.
Definition random_salt : AM (EResult (list Z)) :=
  s ← get; _ ← modify (set_rnd (S (au_rnd s))); mret (ae_rnd e (au_rnd s)).

(** ** API keys *)

Definition append_key (k : Key) : AM unit :=
  s ← get; db ← lift (keydb_append k (au_keys s)); modify (set_keys db).
Definition remove_key (id : string) : AM (option Key) :=
  s ← get;
  let '(k, db) := keydb_remove id (au_keys s) in
  _ ← modify (set_keys db);
  mret k.

(** [key.deploy] (svc/aaa-localauth/src/main.rs:340-385) *)
Definition key_deploy (keys : list Key) : AM unit :=
  if negb (forallb (fun k => id_ok (key_id k)) keys) then raise EInvalidData
  else
    _ ← for_each (fun k => _ ← remove_key (key_id k); append_key k) keys;
    for_each (fun k => _ ← reg_key_set k; announce (key_id k) true) keys.
(** [key.undeploy] (svc/aaa-localauth/src/main.rs:386-416) *)
Definition key_undeploy (ids : list string) : AM unit :=
  removed ← for_collect remove_key ids;
  for_each (fun k => _ ← reg_key_delete (key_id k); announce (key_id k) false) (omap id removed).
(** [key.destroy] (svc/aaa-localauth/src/main.rs:466-484) *)
Definition key_destroy (id : string) : AM unit :=
  r ← remove_key id;
  match r with
  | Some _ => _ ← reg_key_delete id; announce id false
  | None => raise ENotFound
  end.
(** [key.regenerate] (svc/aaa-localauth/src/main.rs:485-513) and
    svc/aaa-localauth/src/main.rs:182-188 [Key::regenerate] *)
Definition key_regenerate (id : string) : AM Key :=
  r ← remove_key id;
  match r with
  | Some key =>
      v ← random 32;
      let new_key := mkKey (key_id key) v (key_acls key) in
      _ ← append_key new_key;
      _ ← reg_key_set new_key;
      _ ← announce id true;
      mret new_key
  | None => raise ENotFound
  end.
(** [auth.key] (svc/aaa-localauth/src/main.rs:514-555) *)
Definition auth_key (k : string) : AM R :=
  s ← get;
  match keys_by_k (au_keys s) !! k with
  | Some key => lift (ae_acl e (elements (key_acls key)) (Some (key_id key)))
  | None => raise EAccess
  end.

(** ** Users *)

(** The checks of a login (svc/aaa-localauth/src/main.rs:624-645) *)
Definition login_ok (l : string) : bool := negb (String.prefix "." l) && id_ok l.
(** [user.deploy] (svc/aaa-localauth/src/main.rs:611-662) *)
Definition user_deploy (users : list User) : AM unit :=
  if negb (forallb (fun u => login_ok (us_login u)) users) then raise EInvalidData
  else
    _ ← modify (fun s => set_users (foldl (fun m u => <[us_login u := u]> m) (au_users s) users) s);
    for_each (fun u => _ ← reg_user_set (us_login u) u; announce (us_login u) true) users.
Definition remove_user (login : string) : AM (option User) :=
  s ← get;
  _ ← modify (set_users (delete login (au_users s)));
  mret (au_users s !! login).
(** [user.undeploy] (svc/aaa-localauth/src/main.rs:663-693) *)
Definition user_undeploy (logins : list string) : AM unit :=
  removed ← for_collect remove_user logins;
  for_each (fun u => _ ← reg_user_delete (us_login u); announce (us_login u) false) (omap id removed).
(** [user.destroy] (svc/aaa-localauth/src/main.rs:783-801) *)
Definition user_destroy (login : string) : AM unit :=
  r ← remove_user login;
  match r with
  | Some _ => _ ← reg_user_delete login; announce login false
  | None => raise ENotFound
  end.
(** [user.get_profile_field] (svc/aaa-localauth/src/main.rs:694-719) *)
Definition get_profile_field (login : string) (field : ProfileField) : AM (option string) :=
  s ← get; u ← lift (ok_or (au_users s !! login) ENotFound); mret (get_field field (us_profile u)).
(** [user.set_profile_field] (svc/aaa-localauth/src/main.rs:720-745) *)
Definition set_profile_field (login : string) (field : ProfileField) (value : option string) : AM unit :=
  s ← get;
  u ← lift (ok_or (au_users s !! login) ENotFound);
  let u := mkUser (us_login u) (us_password u) (us_acls u) (set_field field value (us_profile u)) in
  _ ← modify (fun s => set_users (<[login := u]> (au_users s)) s);
  reg_user_set login u.
(** [user.set_password] (svc/aaa-localauth/src/main.rs:802-832) *)
Definition set_password (login password : string) (check : bool) : AM unit :=
  if String.eqb password "" then raise EInvalidData
  else
    _ ← (if check then lift (policy_check (ae_policy e) password) else mret tt);
    s ← get;
    u ← lift (ok_or (au_users s !! login) ENotFound);
    salt ← random_salt;
    p ← lift (new_pbkdf2 salt password);
    let u := mkUser (us_login u) p (us_acls u) (us_profile u) in
    _ ← modify (fun s => set_users (<[login := u]> (au_users s)) s);
    _ ← reg_user_set login u;
    announce login true.

(** ** One-time users *)

(** svc/aaa-localauth/src/main.rs:83-86 [OneTimeUser::is_valid] *)
Definition is_valid (expires : Duration) (u : OneTimeUser) : bool :=
  (ae_now e - ot_created u <? expires)%Z && match ot_user u with Some _ => true | None => false end.
(** svc/aaa-localauth/src/main.rs:174-179 [clear_one_time_users] *)
Definition clear_one_time_users : AM unit :=
  match ae_one_time e with
  | Some expires => modify (fun s =>
      set_one_time (filter (fun lu => is_valid expires lu.2 = true) (au_one_time s)) s)
  | None => mret tt
  end.
(** The login of a new one-time user, a random one that is not taken
    (svc/aaa-localauth/src/main.rs:850-860) *)
Fixpoint free_login (tries : nat) (login : option string) : AM string :=
  match tries with
  | O => raise ENever
  | S tries =>
      rand_str ← random 16;
      let l := match login with Some l => (l +:+ "." +:+ rand_str)%string | None => rand_str end in
      s ← get;
      match au_one_time s !! l with
      | None => mret l
      | Some _ => free_login tries login
      end
  end.
(** [user.create_one_time] (svc/aaa-localauth/src/main.rs:833-875), with
    svc/aaa-localauth/src/main.rs:53-67 [OneTimeUser::create]: the login and
    the password that are returned *)
Definition create_one_time (tries : nat) (login : option string) (acls : gset string)
    : AM (string * string) :=
  match ae_one_time e with
  | Some _ =>
      l ← free_login tries login;
      password_plain ← random 16;
      let u := mkUser l (new_sha256 password_plain) acls profile_default in
      _ ← modify (fun s => set_one_time (<[l := mkOneTime (ae_now e) (Some u)]> (au_one_time s)) s);
      mret (("OT." +:+ l)%string, password_plain)
  | None => raise ENotImplemented
  end.
(** svc/aaa-localauth/src/main.rs:68-82 [OneTimeUser::get_acls]: the user is
    taken, whatever the password *)
Definition one_time_acls (u : OneTimeUser) (password : string) : EResult (gset string) * OneTimeUser :=
  match ot_user u with
  | Some user =>
      (match verify_password (us_password user) password with
       | Ok true => Ok (us_acls user)
       | Ok false => Err EAccess
       | Err err => Err err
       end, mkOneTime (ot_created u) None)
  | None => (Err EAccess, u)
  end.

(** ** Authentication of users *)

Definition verified (u : User) (password : string) : AM unit :=
  ok ← lift (verify_password (us_password u) password);
  if (ok : bool) then mret tt else raise EAccess.

(** Who is calling, and whether it is a one-time user
    (svc/aaa-localauth/src/main.rs:966-984) *)
Definition auth_login (login password : string) (externally_verified : bool) : AM (gset string * bool) :=
  s ← get;
  match strip_prefix "OT." login with
  | Some l =>
      match au_one_time s !! l with
      | Some u =>
          let '(r, u') := one_time_acls u password in
          _ ← modify (set_one_time (<[l := u']> (au_one_time s)));
          acls ← lift r;
          mret (acls, true)
      | None => raise EAccess
      end
  | None =>
      match au_users s !! login with
      | Some user =>
          _ ← (if externally_verified then mret tt else verified user password);
          mret (us_acls user, false)
      | None => raise EAccess
      end
  end.
(** [auth.user] (svc/aaa-localauth/src/main.rs:941-1019) *)
Definition auth_user (login password : string) (otp : option Value) (externally_verified : bool) : AM R :=
  '(acls, one_time) ← auth_login login password externally_verified;
  _ ← (if negb one_time && negb externally_verified then
         match ae_otp e with Some check => lift (check login otp) | None => mret tt end
       else mret tt);
  lift (ae_acl e (elements acls) None).
(** [reset.user] (svc/aaa-localauth/src/main.rs:876-940) *)
Definition reset_user (login password : string) (otp : option Value) : AM unit :=
  if String.prefix "OT." login then raise EAccess
  else
    s ← get;
    _ ← match au_users s !! login with
        | Some user => verified user password
        | None => raise EAccess
        end;
    match ae_otp e with
    | Some check =>
        _ ← lift (check login otp);
        match ae_otp_destroy e login with
        | Ok _ | Err ENotFound => mret tt
        | Err err => raise err
        end
    | None => mret tt
    end.

(** The tables are loaded (svc/aaa-localauth/src/main.rs:1143-1159) *)
Definition auth_load : AM unit :=
  s ← get;
  _ ← for_each (fun iv => append_key iv.2) (map_to_list (au_reg_keys s));
  for_each (fun iv =>
    u ← lift (user_loaded iv.2);
    modify (fun s => set_users (<[us_login u := u]> (au_users s)) s)) (map_to_list (au_reg_users s)).

(** ** The table of keys is consistent *)

Implicit Types s : Auth.

(** The two maps of the table are views of the same keys. *)
Record keydb_ok (db : KeyDb) : Prop := {
  keydb_id i k : keys_by_id db !! i = Some k -> key_id k = i /\ keys_by_k db !! key_key k = Some k;
  keydb_k v k : keys_by_k db !! v = Some k -> key_key k = v /\ keys_by_id db !! key_id k = Some k
}.

Lemma keydb_remove_ok id db :
  keydb_ok db -> keydb_ok (keydb_remove id db).2 /\ keys_by_id (keydb_remove id db).2 !! id = None.
Proof.
  intros [Hi Hk]. unfold keydb_remove. destruct (keys_by_id db !! id) as [key|] eqn:E; [|by split].
  destruct (Hi _ _ E) as [Hid Hkey]. simpl. split; [|apply lookup_delete_eq]. split; simpl.
  - intros i k [Hne H1]%lookup_delete_Some. destruct (Hi _ _ H1) as [? H2]. split; [done|].
    apply lookup_delete_Some. split; [|done]. intros Heq. rewrite <-Heq in H2. congruence.
  - intros v k [Hne H1]%lookup_delete_Some. destruct (Hk _ _ H1) as [? H2]. split; [done|].
    apply lookup_delete_Some. split; [|done]. intros Heq. rewrite <-Heq in H2. congruence.
Qed.

Lemma keydb_append_ok key db db' :
  keydb_ok db -> keys_by_id db !! key_id key = None -> keydb_append key db = Ok db' ->
  keydb_ok db' /\ db' = mkKeyDb (<[key_id key := key]> (keys_by_id db)) (<[key_key key := key]> (keys_by_k db)).
Proof.
  intros [Hi Hk] Hnone. unfold keydb_append.
  destruct (keys_by_k db !! key_key key) as [k|] eqn:E.
  - destruct (Hk _ _ E) as [_ H1]. destruct (String.eqb_spec (key_id key) (key_id k)); [congruence|done].
  - intros [= <-]. split; [|done]. split; simpl.
    + intros i k. rewrite lookup_insert. case_decide as Hd.
      * intros [= <-]. split; [done|]. apply lookup_insert_eq.
      * intros H1. destruct (Hi _ _ H1) as [? H2]. split; [done|].
        rewrite lookup_insert_ne; [done|]. congruence.
    + intros v k. rewrite lookup_insert. case_decide as Hd.
      * intros [= <-]. split; [done|]. apply lookup_insert_eq.
      * intros H1. destruct (Hk _ _ H1) as [? H2]. split; [done|].
        rewrite lookup_insert_ne; [done|]. congruence.
Qed.

Definition keys_kept s s' : Prop := keydb_ok (au_keys s) -> keydb_ok (au_keys s').
#[local] Instance keys_kept_preorder : PreOrder keys_kept.
Proof. split; [by intros s Hs|]. intros x y z ? ? ?. auto. Qed.
(** Steps that leave the keys alone. *)
Lemma modify_keys f : (forall s, au_keys (f s) = au_keys s) -> keeps keys_kept (modify f).
Proof. intros Hf. apply keeps_modify. intros s. unfold keys_kept. by rewrite Hf. Qed.
Lemma reg_keys f : (forall s, au_keys (f s) = au_keys s) -> keeps keys_kept (reg f).
Proof. intros Hf s. unfold reg, keys_kept. destruct (ae_io e (au_calls s)); simpl; by rewrite ?Hf. Qed.
Lemma announce_keys t b : keeps keys_kept (announce t b).
Proof. by apply modify_keys. Qed.
Lemma random_keys n : keeps keys_kept (random n).
Proof. unfold random. frame. by apply modify_keys. Qed.
#[local] Hint Resolve announce_keys random_keys : keeps.
Lemma remove_key_keys id : keeps keys_kept (remove_key id).
Proof.
  intros s Hs. unfold remove_key. rewrite run_bind. unfold get at 1.
  destruct (keydb_remove_ok id _ Hs) as [Hok _]. by destruct (keydb_remove id (au_keys s)) as [k db].
Qed.
#[local] Hint Resolve remove_key_keys : keeps.

Lemma append_key_keys k s :
  keydb_ok (au_keys s) -> keys_by_id (au_keys s) !! key_id k = None -> keydb_ok (au_keys (append_key k s).2).
Proof.
  intros Hs Hn. unfold append_key. rewrite run_bind. unfold get at 1. rewrite run_bind. unfold lift.
  destruct (keydb_append k (au_keys s)) as [db|] eqn:E; [|done].
  by destruct (keydb_append_ok _ _ _ Hs Hn E) as [? _].
Qed.

Lemma remove_key_run id s :
  remove_key id s = (Ok (keydb_remove id (au_keys s)).1, set_keys (keydb_remove id (au_keys s)).2 s).
Proof.
  unfold remove_key. rewrite run_bind. unfold get at 1. by destruct (keydb_remove id (au_keys s)).
Qed.
Lemma random_run n s : au_keys (random n s).2 = au_keys s.
Proof.
  unfold random. rewrite run_bind. unfold get at 1. rewrite run_bind. unfold lift.
  by destruct (random_string _ _ _ _).
Qed.

Lemma key_deploy_keys keys : keeps keys_kept (key_deploy keys).
Proof.
  unfold key_deploy. destruct (negb _); [frame|]. apply keeps_bind; [|intros _].
  - apply keeps_for_each. intros k _ s Hs. rewrite run_bind, remove_key_run.
    destruct (keydb_remove_ok (key_id k) _ Hs). by apply append_key_keys.
  - frame. by apply reg_keys.
Qed.
Lemma key_regenerate_keys id : keeps keys_kept (key_regenerate id).
Proof.
  intros s Hs. unfold key_regenerate. rewrite run_bind, remove_key_run.
  destruct (keydb_remove_ok id _ Hs) as [Hok Hn]. unfold keydb_remove in *.
  destruct (keys_by_id (au_keys s) !! id) as [key|] eqn:E; [|done]. simpl in Hok, Hn.
  destruct (keydb_id _ Hs _ _ E) as [Hid _]. cbn [fst snd]. set (s1 := set_keys _ s). rewrite run_bind.
  pose proof (random_run 32 s1) as Hr. destruct (random 32 s1) as [[v|] s2]; simpl in Hr; [|simpl; by rewrite Hr].
  set (nk := mkKey _ v _). rewrite run_bind.
  assert (keydb_ok (au_keys (append_key nk s2).2)) as Ha.
  { apply append_key_keys; rewrite Hr; simpl; [done|by rewrite Hid]. }
  destruct (append_key nk s2) as [[] s3]; [|done].
  assert (keeps keys_kept (_ ← reg_key_set nk; _ ← announce id true; mret nk)) as Hk
    by (frame; by apply reg_keys). by apply Hk.
Qed.

(** ** Sequences of operations *)

Inductive auth_op :=
  | AoKeyDeploy (keys : list Key)
  | AoKeyUndeploy (ids : list string)
  | AoKeyDestroy (id : string)
  | AoKeyRegenerate (id : string)
  | AoAuthKey (k : string)
  | AoUserDeploy (users : list User)
  | AoUserUndeploy (logins : list string)
  | AoUserDestroy (login : string)
  | AoSetProfile (login : string) (field : ProfileField) (value : option string)
  | AoSetPassword (login password : string) (check : bool)
  | AoCreateOneTime (tries : nat) (login : option string) (acls : gset string)
  | AoClear
  | AoAuthUser (login password : string) (otp : option Value) (ext : bool)
  | AoReset (login password : string) (otp : option Value).

Definition auth_exec (op : auth_op) : AM unit :=
  match op with
  | AoKeyDeploy keys => key_deploy keys
  | AoKeyUndeploy ids => key_undeploy ids
  | AoKeyDestroy id => key_destroy id
  | AoKeyRegenerate id => _ ← key_regenerate id; mret tt
  | AoAuthKey k => _ ← auth_key k; mret tt
  | AoUserDeploy users => user_deploy users
  | AoUserUndeploy logins => user_undeploy logins
  | AoUserDestroy login => user_destroy login
  | AoSetProfile login field value => set_profile_field login field value
  | AoSetPassword login password check => set_password login password check
  | AoCreateOneTime tries login acls => _ ← create_one_time tries login acls; mret tt
  | AoClear => clear_one_time_users
  | AoAuthUser login password otp ext => _ ← auth_user login password otp ext; mret tt
  | AoReset login password otp => reset_user login password otp
  end.
Definition auth_run (ops : list auth_op) s : Auth := foldl (fun s op => (auth_exec op s).2) s ops.

Lemma free_login_keys tries login : keeps keys_kept (free_login tries login).
Proof. induction tries; simpl; frame. Qed.
#[local] Hint Resolve free_login_keys key_deploy_keys key_regenerate_keys : keeps.

Lemma auth_exec_keys op : keeps keys_kept (auth_exec op).
Proof.
  destruct op; simpl; unfold key_undeploy, key_destroy, auth_key, user_deploy, user_undeploy, user_destroy,
    remove_user, set_profile_field, set_password, random_salt, create_one_time, clear_one_time_users,
    auth_user, auth_login, reset_user, verified;
    frame; first [by apply reg_keys | by apply modify_keys].
Qed.

(** API keys are what the table lists.  After any sequence of operations
    of the service, with any failures of the registry and of the random
    source, a caller is authenticated by a key exactly when that text is the
    current value of a key that is listed, and it gets the access lists of
    that key and no others; so a key that was destroyed, undeployed or
    regenerated is not accepted any more. *)
Lemma api_key_listed ops s k r :
  keydb_ok (au_keys s) ->
  let s' := auth_run ops s in
  auth_key k s' = (Ok r, s') <->
  exists key, keys_by_id (au_keys s') !! key_id key = Some key /\ key_key key = k /\
    ae_acl e (elements (key_acls key)) (Some (key_id key)) = Ok r.
Proof.
  intros Hs s'. assert (keydb_ok (au_keys s')) as [Hi Hk].
  { unfold s'. clear s' r k. revert s Hs. induction ops as [|op ops IH]; intros s Hs; simpl; [done|].
    apply IH. by apply auth_exec_keys. }
  unfold auth_key. rewrite run_bind. unfold get at 1. split.
  - destruct (keys_by_k (au_keys s') !! k) as [key|] eqn:E; [|done].
    destruct (Hk _ _ E) as [? ?]. unfold lift. intros [= ?]. by exists key.
  - intros (key & H1 & <- & Hr). destruct (Hi _ _ H1) as [_ ->]. unfold lift. by rewrite Hr.
Qed.

(** ** Users *)

Lemma auth_user_ok login password otp ext s r s' :
  auth_user login password otp ext s = (Ok r, s') ->
  exists u, ae_acl e (elements (us_acls u)) None = Ok r /\
  ((exists created l, login = ("OT." +:+ l)%string /\
      au_one_time s !! l = Some (mkOneTime created (Some u)) /\
      verify_password (us_password u) password = Ok true) \/
   (au_users s !! login = Some u /\ s' = s /\
      (ext = true \/
       verify_password (us_password u) password = Ok true /\
       forall check, ae_otp e = Some check -> check login otp = Ok tt))).
Proof.
  unfold auth_user, auth_login. rewrite run_bind, run_bind. unfold get at 1.
  destruct (strip_prefix "OT." login) as [l|] eqn:El.
  - destruct (au_one_time s !! l) as [[created [u|]]|] eqn:Eu; [|done|done]. simpl.
    destruct (verify_password (us_password u) password) as [[]|] eqn:Ev; [|done|done].
    intros E. exists u. injection E as Hr Hs'. split; [done|]. left. exists created, l.
    split_and!; [|done|done]. by apply strip_prefix_Some.
  - destruct (au_users s !! login) as [u|] eqn:Eu; [|done]. rewrite run_bind.
    destruct ext.
    + rewrite run_ret, run_ret, run_bind. simpl. intros [= Hr <-]. exists u. split; [done|]. right. auto.
    + unfold verified. rewrite run_bind. unfold lift at 1.
      destruct (verify_password (us_password u) password) as [[]|] eqn:Ev; [|done|done].
      rewrite !run_ret, run_bind. simpl. intros E. exists u.
      destruct (ae_otp e) as [check|].
      * unfold lift in E. destruct (check login otp) as [[]|] eqn:Ec; [|done]. injection E as Hr <-.
        split; [done|]. right. split_and!; [done|done|]. right. split; [done|]. by intros ? [= <-].
      * injection E as Hr <-. split; [done|]. right. split_and!; [done|done|]. right. done.
Qed.

(** Who is let in.  A login is accepted only if it is that of a registered
    user whose password was verified (by the service, or by the caller that
    says so) and, unless the caller has verified the user, whose one-time
    password was accepted when there is a service for it; or if it is that of
    a one-time user that was not used before, with its password.  In both
    cases the answer is what the ACL service makes of the access lists of that
    user. *)
Lemma login_sound login password otp ext s r s' :
  auth_user login password otp ext s = (Ok r, s') ->
  exists u, ae_acl e (elements (us_acls u)) None = Ok r /\
  ((exists created l, login = ("OT." +:+ l)%string /\
      au_one_time s !! l = Some (mkOneTime created (Some u)) /\
      verify_password (us_password u) password = Ok true) \/
   (au_users s !! login = Some u /\ s' = s /\
      (ext = true \/
       verify_password (us_password u) password = Ok true /\
       forall check, ae_otp e = Some check -> check login otp = Ok tt))).
Proof. apply auth_user_ok. Qed.

(** ** One-time users *)

(** There is no one-time user left to use under this login. *)
Definition spent s (l : string) : Prop :=
  forall u, au_one_time s !! l = Some u -> ot_user u = None.

Definition spent_kept (l : string) s s' : Prop := spent s l -> spent s' l.
#[local] Instance spent_kept_preorder l : PreOrder (spent_kept l).
Proof. split; [by intros s Hs|]. intros x y z ? ? ?. auto. Qed.
Lemma modify_spent l f : (forall s, au_one_time (f s) = au_one_time s) -> keeps (spent_kept l) (modify f).
Proof. intros Hf. apply keeps_modify. intros s. unfold spent_kept, spent. by rewrite Hf. Qed.
Lemma reg_spent l f : (forall s, au_one_time (f s) = au_one_time s) -> keeps (spent_kept l) (reg f).
Proof.
  intros Hf s. unfold reg, spent_kept, spent. destruct (ae_io e (au_calls s)); simpl; by rewrite ?Hf.
Qed.
Lemma announce_spent l t b : keeps (spent_kept l) (announce t b).
Proof. by apply modify_spent. Qed.
Lemma random_spent l n : keeps (spent_kept l) (random n).
Proof. unfold random. frame. by apply modify_spent. Qed.
Lemma remove_key_spent l id : keeps (spent_kept l) (remove_key id).
Proof. intros s Hs. by rewrite remove_key_run. Qed.
#[local] Hint Resolve announce_spent random_spent remove_key_spent : keeps.

(** Authentication uses up the one-time user it is about, and no others. *)
Lemma one_time_spends u password : ot_user (one_time_acls u password).2 = None.
Proof. unfold one_time_acls. destruct (ot_user u) eqn:E; [done|exact E]. Qed.

Lemma auth_login_spent l login password ext : keeps (spent_kept l) (auth_login login password ext).
Proof.
  unfold auth_login. apply keeps_get_bind. intros s. destruct (strip_prefix "OT." login) as [l'|].
  - destruct (au_one_time s !! l') as [u|]; [|by intros ?].
    pose proof (one_time_spends u password) as Hu. destruct (one_time_acls u password) as [r u'].
    simpl in Hu. rewrite run_bind. simpl. intros Hs.
    assert (spent (set_one_time (<[l' := u']> (au_one_time s)) s) l) as Hx.
    { intros v. simpl. rewrite lookup_insert. case_decide; [by intros [= <-]|apply Hs]. }
    by destruct r.
  - assert (keeps (spent_kept l) (match au_users s !! login with
      | Some user => _ ← (if ext then mret tt else verified user password); mret (us_acls user, false)
      | None => raise EAccess end)) as Hk by (unfold verified; frame). apply Hk.
Qed.

Lemma clear_spent l : keeps (spent_kept l) clear_one_time_users.
Proof.
  unfold clear_one_time_users. destruct (ae_one_time e); [|frame]. intros s Hs u. simpl.
  intros [Hu _]%map_lookup_filter_Some. by apply Hs.
Qed.

(** The operation does not create a one-time user with this login. *)
Definition not_created (l : string) (op : auth_op) s : Prop :=
  match op with
  | AoCreateOneTime tries login acls =>
      forall password s', create_one_time tries login acls s ≠ (Ok (("OT." +:+ l)%string, password), s')
  | _ => True
  end.
Fixpoint never_created (l : string) (ops : list auth_op) s : Prop :=
  match ops with
  | [] => True
  | op :: ops => not_created l op s /\ never_created l ops (auth_exec op s).2
  end.

Lemma free_login_spent l tries login : keeps (spent_kept l) (free_login tries login).
Proof. induction tries; simpl; frame. Qed.
#[local] Hint Resolve free_login_spent auth_login_spent clear_spent : keeps.

Lemma create_spent l tries login acls s :
  not_created l (AoCreateOneTime tries login acls) s -> spent_kept l s (create_one_time tries login acls s).2.
Proof.
  simpl. unfold create_one_time. destruct (ae_one_time e); [|by intros _ Hs]. rewrite run_bind.
  pose proof (free_login_spent l tries login s) as H1.
  destruct (free_login tries login s) as [[l'|] s1]; [|done]. rewrite run_bind.
  pose proof (random_spent l 16 s1) as H2. destruct (random 16 s1) as [[pw|] s2];
    [|intros _ Hs; by apply H2, H1]. rewrite run_bind. simpl. intros Hn Hs u.
  destruct (decide (l' = l)) as [->|Hne]; [by destruct (Hn pw (set_one_time
    (<[l := mkOneTime (ae_now e) (Some (mkUser l (new_sha256 pw) acls profile_default))]> (au_one_time s2)) s2))|].
  simpl. rewrite lookup_insert_ne by done. by apply H2, H1.
Qed.

Lemma auth_exec_spent l op s : not_created l op s -> spent_kept l s (auth_exec op s).2.
Proof.
  intros Hn. destruct op as [| | | | | | | | | |tries login acls| | |];
    try (match goal with |- spent_kept _ _ (auth_exec ?op s).2 =>
      assert (keeps (spent_kept l) (auth_exec op)) as Hk; [|apply Hk] end;
      simpl; unfold key_deploy, key_undeploy, key_destroy, key_regenerate, append_key, auth_key,
        user_deploy, user_undeploy, user_destroy, remove_user, set_profile_field, set_password,
        random_salt, auth_user, reset_user, verified; frame; first [by apply reg_spent | by apply modify_spent]).
  simpl. rewrite run_bind. pose proof (create_spent l tries login acls s Hn) as Hc.
  by destruct (create_one_time tries login acls s) as [[] s'].
Qed.

(** A one-time user is used at most once.  Once somebody has tried to log
    in as a one-time user, with whatever password, every later attempt is
    refused, whatever operations are done in between, unless the service has
    created a new one-time user with the same login. *)
Lemma one_time_single_use l password ops password' otp' ext' otp ext s :
  let s1 := (auth_user ("OT." +:+ l)%string password otp ext s).2 in
  never_created l ops s1 ->
  exists s', auth_user ("OT." +:+ l)%string password' otp' ext' (auth_run ops s1) = (Err EAccess, s').
Proof.
  intros s1 Hn. assert (spent s1 l) as Hs1.
  { unfold s1, auth_user, auth_login. rewrite run_bind, run_bind. unfold get at 1. rewrite strip_prefix_app.
    destruct (au_one_time s !! l) as [u|] eqn:E; [|intros u; simpl; by rewrite E].
    pose proof (one_time_spends u password) as Hu. destruct (one_time_acls u password) as [r u'].
    assert (spent (set_one_time (<[l := u']> (au_one_time s)) s) l) as Hx.
    { intros v. simpl. rewrite lookup_insert_eq. by intros [= <-]. }
    rewrite run_bind. simpl. destruct r; simpl; [|exact Hx].
    destruct (negb ext); exact Hx. }
  assert (spent (auth_run ops s1) l) as Hs.
  { revert Hn Hs1. generalize s1. induction ops as [|op ops IH]; intros s2; simpl; [done|].
    intros [Hop Hn] Hs2. apply IH; [done|]. by apply auth_exec_spent. }
  unfold auth_user, auth_login. rewrite run_bind, run_bind. unfold get at 1. rewrite strip_prefix_app.
  destruct (au_one_time _ !! l) as [[c u]|] eqn:E; [|by eexists].
  specialize (Hs _ E). simpl in Hs. subst u. by eexists.
Qed.

(** Whether a one-time user has expired is not looked at when it logs in: it
    is let in until the clean-up has removed it. *)
Lemma expired_one_time_accepted l u created password s r :
  au_one_time s !! l = Some (mkOneTime created (Some u)) ->
  verify_password (us_password u) password = Ok true ->
  ae_acl e (elements (us_acls u)) None = Ok r ->
  exists s', auth_user ("OT." +:+ l)%string password None false s = (Ok r, s').
Proof.
  intros Hu Hv Hr. unfold auth_user, auth_login. rewrite run_bind, run_bind. unfold get at 1.
  rewrite strip_prefix_app, Hu. simpl. rewrite Hv. simpl. unfold lift. rewrite Hr. by eexists.
Qed.

(** A user whose login starts as those of one-time users can be deployed, but
    is never let in. *)
Lemma prefixed_user_locked_out l password otp ext s :
  au_one_time s !! l = None ->
  auth_user ("OT." +:+ l)%string password otp ext s = (Err EAccess, s).
Proof.
  intros Hn. unfold auth_user, auth_login. rewrite run_bind, run_bind. unfold get at 1.
  by rewrite strip_prefix_app, Hn.
Qed.
End auth.
