(* ===== verification/LocalAuthStore.v ===== *)
(** * Local authentication: the registry and the access lists

    The tables of keys and users are those the registry has, so that the
    service has them again after a restart; and the rights of a user that logs
    in are those of their access lists.  With examples of the theorems about
    authentication. *)
From Stdlib Require Import Ascii.
From S2P Require Import Prelude Duration EvaCommon Acl Password LocalAuth.

Section store.
Context `{HashExternals, !HashLaws} {Value R : Type}.
Variable (e : AuthEnv (Value := Value) (R := R)).
Implicit Types s : Auth.

(** What is stored is what the tables have. *)
Record stored s : Prop := {
  stored_db : keydb_ok (au_keys s);
  stored_keys : au_reg_keys s = keys_by_id (au_keys s);
  stored_users : au_reg_users s = user_stored <$> au_users s;
  stored_login l u : au_users s !! l = Some u -> us_login u = l /\ password_wf (us_password u)
}.

(** The parts of the state this is about. *)
Definition same_stored s s' : Prop :=
  au_keys s' = au_keys s /\ au_users s' = au_users s /\ au_reg_keys s' = au_reg_keys s /\
  au_reg_users s' = au_reg_users s.
#[local] Instance same_stored_preorder : PreOrder same_stored.
Proof. split; [by intros s|]. intros x y z (?&?&?&?) (?&?&?&?). unfold same_stored. split_and!; congruence. Qed.
Lemma same_stored_stored s s' : same_stored s s' -> stored s -> stored s'.
Proof. intros (Hk & Hu & Hrk & Hru) [H1 H2 H3 H4]. split; rewrite ?Hk, ?Hu, ?Hrk, ?Hru; auto. Qed.

Lemma announce_same t b : keeps same_stored (announce t b).
Proof. by intros s. Qed.
Lemma random_same n : keeps same_stored (random e n).
Proof. unfold random. frame. by intros s. Qed.
Lemma set_one_time_same f : keeps same_stored (modify (fun s => set_one_time (f s) s)).
Proof. by intros s. Qed.
Lemma set_rnd_same f : keeps same_stored (modify (fun s => set_rnd (f s) s)).
Proof. by intros s. Qed.
#[local] Hint Resolve announce_same random_same set_one_time_same set_rnd_same : keeps.

(** The writes to the registry, when they succeed. *)
Lemma reg_ok f s s' :
  reg e f s = (Ok tt, s') -> s' = f (count_calls s).
Proof. unfold reg. destruct (ae_io e (au_calls s)) as [[]|]; [|done]. by intros [= <-]. Qed.

Lemma reg_keys_ok keys s s' :
  for_each (fun k => _ ← reg_key_set e k; announce (key_id k) true) keys s = (Ok tt, s') ->
  au_keys s' = au_keys s /\ au_users s' = au_users s /\ au_reg_users s' = au_reg_users s /\
  au_reg_keys s' = foldl (fun m k => <[key_id k := k]> m) (au_reg_keys s) keys.
Proof.
  revert s. induction keys as [|k keys IH]; intros s; cbn [for_each]; [by intros [= <-]|].
  rewrite run_bind, run_bind. destruct (reg_key_set e k s) as [[[]|] s1] eqn:E; [|done].
  apply reg_ok in E. subst s1. simpl. intros (-> & -> & -> & ->)%IH. done.
Qed.
Lemma reg_keys_deleted keys s s' :
  for_each (fun k => _ ← reg_key_delete e (key_id k); announce (key_id k) false) keys s = (Ok tt, s') ->
  au_keys s' = au_keys s /\ au_users s' = au_users s /\ au_reg_users s' = au_reg_users s /\
  au_reg_keys s' = foldl (fun m k => delete (key_id k) m) (au_reg_keys s) keys.
Proof.
  revert s. induction keys as [|k keys IH]; intros s; cbn [for_each]; [by intros [= <-]|].
  rewrite run_bind, run_bind. destruct (reg_key_delete e (key_id k) s) as [[[]|] s1] eqn:E; [|done].
  apply reg_ok in E. subst s1. simpl. intros (-> & -> & -> & ->)%IH. done.
Qed.
Lemma reg_users_ok users s s' :
  for_each (fun u => _ ← reg_user_set e (us_login u) u; announce (us_login u) true) users s = (Ok tt, s') ->
  au_keys s' = au_keys s /\ au_users s' = au_users s /\ au_reg_keys s' = au_reg_keys s /\
  au_reg_users s' = foldl (fun m u => <[us_login u := user_stored u]> m) (au_reg_users s) users.
Proof.
  revert s. induction users as [|u users IH]; intros s; cbn [for_each]; [by intros [= <-]|].
  rewrite run_bind, run_bind. destruct (reg_user_set e _ u s) as [[[]|] s1] eqn:E; [|done].
  apply reg_ok in E. subst s1. simpl. intros (-> & -> & -> & ->)%IH. done.
Qed.
Lemma reg_users_deleted users s s' :
  for_each (fun u => _ ← reg_user_delete e (us_login u); announce (us_login u) false) users s = (Ok tt, s') ->
  au_keys s' = au_keys s /\ au_users s' = au_users s /\ au_reg_keys s' = au_reg_keys s /\
  au_reg_users s' = foldl (fun m u => delete (us_login u) m) (au_reg_users s) users.
Proof.
  revert s. induction users as [|u users IH]; intros s; cbn [for_each]; [by intros [= <-]|].
  rewrite run_bind, run_bind. destruct (reg_user_delete e (us_login u) s) as [[[]|] s1] eqn:E; [|done].
  apply reg_ok in E. subst s1. simpl. intros (-> & -> & -> & ->)%IH. done.
Qed.

(** ** Keys *)

Lemma append_key_ok k s s' :
  keydb_ok (au_keys s) -> keys_by_id (au_keys s) !! key_id k = None -> append_key k s = (Ok tt, s') ->
  keydb_ok (au_keys s') /\ keys_by_id (au_keys s') = <[key_id k := k]> (keys_by_id (au_keys s)) /\
  au_users s' = au_users s /\ au_reg_keys s' = au_reg_keys s /\ au_reg_users s' = au_reg_users s.
Proof.
  intros Hs Hn. unfold append_key. rewrite run_bind. unfold get at 1. rewrite run_bind. unfold lift.
  destruct (keydb_append k (au_keys s)) as [db|] eqn:E; [|done]. intros [= <-]. simpl.
  destruct (keydb_append_ok _ _ _ Hs Hn E) as [? ->]. done.
Qed.

Lemma keys_replaced keys s s' :
  keydb_ok (au_keys s) ->
  for_each (fun k => _ ← remove_key (key_id k); append_key k) keys s = (Ok tt, s') ->
  keydb_ok (au_keys s') /\
  keys_by_id (au_keys s') = foldl (fun m k => <[key_id k := k]> m) (keys_by_id (au_keys s)) keys /\
  au_users s' = au_users s /\ au_reg_keys s' = au_reg_keys s /\ au_reg_users s' = au_reg_users s.
Proof.
  revert s. induction keys as [|k keys IH]; intros s Hs; cbn [for_each]; [by intros [= <-]|].
  rewrite run_bind, run_bind, remove_key_run. destruct (keydb_remove_ok (key_id k) _ Hs) as [Hok Hn].
  assert (forall k', <[key_id k := k']> (keys_by_id (keydb_remove (key_id k) (au_keys s)).2) =
    <[key_id k := k']> (keys_by_id (au_keys s))) as Hi.
  { intros k'. unfold keydb_remove. destruct (keys_by_id (au_keys s) !! key_id k); [|done]. simpl.
    apply insert_delete_eq. }
  destruct (append_key k _) as [[[]|] s1] eqn:E; [|done].
  apply append_key_ok in E as (Hok1 & Hids & Hu & Hk & Hru); [|done|done]. simpl in *.
  intros Hr. destruct (IH s1 Hok1 Hr) as (? & -> & -> & -> & ->). by rewrite Hids, Hi, Hu, Hk, Hru.
Qed.

Lemma keydb_removed id db :
  keydb_ok db -> keys_by_id (keydb_remove id db).2 = delete id (keys_by_id db) /\
    match (keydb_remove id db).1 with Some k => key_id k = id | None => keys_by_id db !! id = None end.
Proof.
  intros Hdb. unfold keydb_remove. destruct (keys_by_id db !! id) as [k|] eqn:E; simpl.
  - by destruct (keydb_id _ Hdb _ _ E).
  - split; [|done]. by rewrite delete_id.
Qed.

Lemma keys_removed ids s rs s' :
  keydb_ok (au_keys s) -> for_collect remove_key ids s = (Ok rs, s') ->
  keydb_ok (au_keys s') /\
  keys_by_id (au_keys s') = foldl (fun m k => delete (key_id k) m) (keys_by_id (au_keys s)) (omap id rs) /\
  au_users s' = au_users s /\ au_reg_keys s' = au_reg_keys s /\ au_reg_users s' = au_reg_users s.
Proof.
  revert s rs. induction ids as [|i ids IH]; intros s rs Hs; cbn [for_collect]; [by intros [= <- <-]|].
  rewrite run_bind, remove_key_run. destruct (keydb_remove_ok i _ Hs) as [Hok _].
  destruct (keydb_removed i _ Hs) as [Hd Hk]. rewrite run_bind.
  destruct (for_collect remove_key ids _) as [[rs1|] s1] eqn:E; [|done]. intros [= <- <-].
  destruct (IH (set_keys (keydb_remove i (au_keys s)).2 s) rs1 Hok E) as (? & Hids & ? & ? & ?). simpl in *.
  destruct (keydb_remove i (au_keys s)) as [[k|] db]; simpl in *; (split_and!; try done).
  - by rewrite Hids, Hd, Hk.
  - rewrite Hids, Hd. by rewrite delete_id.
Qed.

Lemma key_deploy_stored keys s s' : stored s -> key_deploy e keys s = (Ok tt, s') -> stored s'.
Proof.
  intros [Hdb Hk Hu Hl]. unfold key_deploy. destruct (negb _); [done|]. rewrite run_bind.
  destruct (for_each _ keys s) as [[[]|] s1] eqn:E1; [|done].
  apply keys_replaced in E1 as (Hdb1 & Hids & Hu1 & Hk1 & Hr1); [|done].
  intros (Hdb2 & Hu2 & Hr2 & Hk2)%reg_keys_ok.
  split; rewrite ?Hdb2, ?Hu2, ?Hu1, ?Hr2, ?Hr1, ?Hk2, ?Hk1; [done|by rewrite Hids, Hk|done|done].
Qed.
Lemma key_undeploy_stored ids s s' : stored s -> key_undeploy e ids s = (Ok tt, s') -> stored s'.
Proof.
  intros [Hdb Hk Hu Hl]. unfold key_undeploy. rewrite run_bind.
  destruct (for_collect remove_key ids s) as [[rs|] s1] eqn:E1; [|done].
  apply keys_removed in E1 as (Hdb1 & Hids & Hu1 & Hk1 & Hr1); [|done].
  intros (Hdb2 & Hu2 & Hr2 & Hk2)%reg_keys_deleted.
  split; rewrite ?Hdb2, ?Hu2, ?Hu1, ?Hr2, ?Hr1, ?Hk2, ?Hk1; [done|by rewrite Hids, Hk|done|done].
Qed.
Lemma key_destroy_stored i s s' : stored s -> key_destroy e i s = (Ok tt, s') -> stored s'.
Proof.
  intros [Hdb Hk Hu Hl]. unfold key_destroy. rewrite run_bind, remove_key_run.
  destruct (keydb_remove_ok i _ Hdb) as [Hok _]. destruct (keydb_removed i _ Hdb) as [Hd Hk1].
  destruct (keydb_remove i (au_keys s)) as [[k|] db]; simpl in *; [|done]. rewrite run_bind.
  destruct (reg_key_delete e i _) as [[[]|] s1] eqn:E; [|done]. apply reg_ok in E. subst s1.
  intros [= <-]. split; simpl; [done|by rewrite Hk, Hd|done|done].
Qed.
Lemma key_regenerate_stored i s k s' : stored s -> key_regenerate e i s = (Ok k, s') -> stored s'.
Proof.
  intros [Hdb Hk Hu Hl]. unfold key_regenerate. rewrite run_bind, remove_key_run.
  destruct (keydb_remove_ok i _ Hdb) as [Hok Hn]. destruct (keydb_removed i _ Hdb) as [Hd Hk1].
  destruct (keydb_remove i (au_keys s)) as [[key|] db]; simpl in *; [|done]. rewrite run_bind.
  pose proof (random_same 32 (set_keys db s)) as (Hk2 & Hu2 & Hrk2 & Hru2).
  destruct (random e 32 _) as [[v|] s2]; [|done]. simpl in *. rewrite run_bind.
  destruct (append_key _ s2) as [[[]|] s3] eqn:E3; [|done].
  apply append_key_ok in E3 as (Hdb3 & Hids3 & Hu3 & Hrk3 & Hru3);
    [|by rewrite Hk2|simpl; by rewrite Hk2, Hk1]. simpl in *.
  rewrite run_bind. destruct (reg_key_set e _ s3) as [[[]|] s4] eqn:E4; [|done]. apply reg_ok in E4. subst s4.
  intros [= <- <-]. split; simpl; [done| | |].
  - rewrite Hrk3, Hrk2, Hk, Hids3, Hk2. simpl. rewrite Hd, Hk1. by rewrite insert_delete_eq.
  - by rewrite Hru3, Hru2, Hu3, Hu2.
  - rewrite Hu3, Hu2. exact Hl.
Qed.

(** ** Users *)

Lemma stored_inserts (users : list User) (m : gmap string User) :
  foldl (fun m u => <[us_login u := user_stored u]> m) (user_stored <$> m) users =
  user_stored <$> foldl (fun m u => <[us_login u := u]> m) m users.
Proof. revert m. induction users as [|u users IH]; intros m; simpl; [done|]. by rewrite <-fmap_insert, IH. Qed.
Lemma inserts_login (users : list User) (m : gmap string User) :
  (forall l u, m !! l = Some u -> us_login u = l /\ password_wf (us_password u)) ->
  Forall (fun u => password_wf (us_password u)) users ->
  forall l u, foldl (fun m u => <[us_login u := u]> m) m users !! l = Some u ->
    us_login u = l /\ password_wf (us_password u).
Proof.
  revert m. induction users as [|u users IH]; intros m Hm; simpl; [done|]. inversion 1; subst.
  apply IH; [|done]. intros l v. rewrite lookup_insert. case_decide; [by intros [= <-]|apply Hm].
Qed.

Lemma user_deploy_stored users s s' :
  Forall (fun u => password_wf (us_password u)) users ->
  stored s -> user_deploy e users s = (Ok tt, s') -> stored s'.
Proof.
  intros Hw [Hdb Hk Hu Hl]. unfold user_deploy. destruct (negb _); [done|]. rewrite run_bind. simpl.
  intros (Hdb2 & Hu2 & Hk2 & Hr2)%reg_users_ok. simpl in *.
  split; rewrite ?Hdb2, ?Hu2, ?Hk2, ?Hr2; [done|done| |].
  - by rewrite Hu, stored_inserts.
  - by apply inserts_login.
Qed.

Lemma users_removed logins s rs s' :
  (forall l u, au_users s !! l = Some u -> us_login u = l /\ password_wf (us_password u)) ->
  for_collect remove_user logins s = (Ok rs, s') ->
  au_users s' = foldl (fun m u => delete (us_login u) m) (au_users s) (omap id rs) /\
  (forall l u, au_users s' !! l = Some u -> us_login u = l /\ password_wf (us_password u)) /\
  au_keys s' = au_keys s /\ au_reg_keys s' = au_reg_keys s /\ au_reg_users s' = au_reg_users s.
Proof.
  revert s rs. induction logins as [|l logins IH]; intros s rs Hl; cbn [for_collect]; [by intros [= <- <-]|].
  rewrite run_bind. unfold remove_user at 1. rewrite run_bind. unfold get at 1. rewrite run_bind. simpl.
  rewrite run_bind. set (s1 := set_users _ s).
  assert (forall l' u, au_users s1 !! l' = Some u -> us_login u = l' /\ password_wf (us_password u)) as Hl1.
  { intros l' u. unfold s1. simpl. intros [_ Hx]%lookup_delete_Some. by apply Hl. }
  destruct (for_collect remove_user logins s1) as [[rs1|] s2] eqn:E; [|done]. intros [= <- <-].
  destruct (IH s1 rs1 Hl1 E) as (Hu & ? & ? & ? & ?). simpl in *.
  destruct (au_users s !! l) as [u|] eqn:Eu; simpl; (split_and!; try done).
  - destruct (Hl _ _ Eu) as [-> _]. done.
  - rewrite Hu. by rewrite delete_id.
Qed.
Lemma stored_deletes (users : list User) (m : gmap string User) :
  foldl (fun m u => delete (us_login u) m) (user_stored <$> m) users =
  user_stored <$> foldl (fun m u => delete (us_login u) m) m users.
Proof. revert m. induction users as [|u users IH]; intros m; simpl; [done|]. by rewrite <-fmap_delete, IH. Qed.

Lemma user_undeploy_stored logins s s' : stored s -> user_undeploy e logins s = (Ok tt, s') -> stored s'.
Proof.
  intros [Hdb Hk Hu Hl]. unfold user_undeploy. rewrite run_bind.
  destruct (for_collect remove_user logins s) as [[rs|] s1] eqn:E1; [|done].
  apply users_removed in E1 as (Hu1 & Hl1 & Hk1 & Hrk1 & Hru1); [|done].
  intros (Hk2 & Hu2 & Hrk2 & Hru2)%reg_users_deleted.
  split; rewrite ?Hk2, ?Hk1, ?Hu2, ?Hrk2, ?Hrk1, ?Hru2, ?Hru1; [done|done| |exact Hl1].
  by rewrite Hu, Hu1, stored_deletes.
Qed.
Lemma user_destroy_stored l s s' : stored s -> user_destroy e l s = (Ok tt, s') -> stored s'.
Proof.
  intros [Hdb Hk Hu Hl]. unfold user_destroy. rewrite run_bind. unfold remove_user. rewrite run_bind.
  unfold get at 1. rewrite run_bind. simpl. destruct (au_users s !! l) as [u0|]; [|done]. rewrite run_bind.
  destruct (reg_user_delete e l _) as [[[]|] s1] eqn:E; [|done]. apply reg_ok in E. subst s1.
  intros [= <-]. split; simpl; [done|done|by rewrite Hu, fmap_delete|].
  intros l' u [_ Hx]%lookup_delete_Some. by apply Hl.
Qed.

(** A user that is changed and stored. *)
Lemma user_changed_stored l u u' s s' :
  stored s -> au_users s !! l = Some u -> us_login u' = us_login u -> password_wf (us_password u') ->
  same_stored (set_registry (au_reg_keys s) (<[l := user_stored u']> (au_reg_users s))
    (set_users (<[l := u']> (au_users s)) s)) s' ->
  stored s'.
Proof.
  intros [Hdb Hk Hu Hl] El Hlog Hw Hsame. eapply same_stored_stored; [exact Hsame|].
  split; simpl; [done|done|by rewrite Hu, fmap_insert|].
  intros l' v. rewrite lookup_insert. case_decide; [|apply Hl]. intros [= <-]. subst l'.
  split; [|done]. rewrite Hlog. by apply Hl.
Qed.

Lemma set_profile_stored l f v s s' : stored s -> set_profile_field e l f v s = (Ok tt, s') -> stored s'.
Proof.
  intros Hs. unfold set_profile_field. rewrite run_bind. unfold get at 1. rewrite run_bind. unfold lift.
  destruct (au_users s !! l) as [u|] eqn:El; [|done]. simpl. rewrite run_bind. intros E%reg_ok. subst s'.
  eapply (user_changed_stored l u (mkUser _ _ _ _) s _ Hs El); [done| |by split_and!].
  simpl. by apply (stored_login _ Hs _ _ El).
Qed.
Lemma set_password_stored l p c s s' :
  (forall k b, ae_rnd e k = Ok b -> is_array 16 b) ->
  stored s -> set_password e l p c s = (Ok tt, s') -> stored s'.
Proof.
  intros Hrnd Hs. unfold set_password. destruct (String.eqb _ _); [done|]. rewrite run_bind.
  set (mc := if c then _ else _). assert ((mc s).2 = s) as Hc by (unfold mc; by destruct c).
  destruct (mc s) as [[?|] s1]; [|done]. simpl in Hc. subst s1. clear mc.
  rewrite run_bind. unfold get at 1. rewrite run_bind. unfold lift at 1.
  destruct (au_users s !! l) as [u|] eqn:El; [|done]. simpl. rewrite run_bind. unfold random_salt.
  rewrite run_bind. unfold get at 1. rewrite run_bind. simpl. rewrite run_bind. unfold lift at 1.
  destruct (new_pbkdf2 _ p) as [pw|] eqn:Ep; [|done]. rewrite run_bind. simpl. rewrite run_bind.
  destruct (reg_user_set e l _ _) as [[[]|] s2] eqn:E; [|done]. apply reg_ok in E. subst s2. intros [= <-].
  eapply (user_changed_stored l u (mkUser _ _ _ _) s _ Hs El); [done| |by split_and!].
  simpl. unfold new_pbkdf2, new_hasher_pbkdf2 in Ep. destruct (ae_rnd e (au_rnd s)) as [b|] eqn:Eb; [|done].
  simpl in Ep. destruct (pbkdf2_hmac _ b _) as [h|] eqn:Eh; [|done]. injection Ep as <-. simpl.
  split; [by eapply Hrnd|by eapply pbkdf2_size].
Qed.

(** ** Every operation *)

(** Users are deployed with hashes of the right sizes, which is what their
    types say. *)
Definition op_wf (op : auth_op (Value := Value)) : Prop :=
  match op with
  | AoUserDeploy users => Forall (fun u => password_wf (us_password u)) users
  | _ => True
  end.

Lemma free_login_same tries login : keeps same_stored (free_login e tries login).
Proof. induction tries; simpl; frame. Qed.
Lemma auth_login_same login password ext : keeps same_stored (auth_login login password ext).
Proof.
  unfold auth_login, verified. frame; by intros s.
Qed.
#[local] Hint Resolve free_login_same auth_login_same : keeps.

(** The operation was done, or it was refused with nothing changed. *)
Definition settled (op : auth_op) s : Prop :=
  (auth_exec e op s).1 = Ok tt \/ same_stored s (auth_exec e op s).2.

Lemma auth_exec_stored op s :
  (forall k b, ae_rnd e k = Ok b -> is_array 16 b) ->
  op_wf op -> settled op s -> stored s -> stored (auth_exec e op s).2.
Proof.
  intros Hrnd Hw [Hok|Hsame] Hs; [|by eapply same_stored_stored].
  destruct (auth_exec e op s) as [r s'] eqn:E. simpl in Hok. subst r. simpl.
  assert (keeps same_stored (auth_exec e op) -> stored s') as Hread.
  { intros Hk. eapply same_stored_stored; [|exact Hs]. specialize (Hk s). by rewrite E in Hk. }
  destruct op; simpl in E.
  - by eapply key_deploy_stored.
  - by eapply key_undeploy_stored.
  - by eapply key_destroy_stored.
  - rewrite run_bind in E. destruct (key_regenerate e id s) as [[k|] s1] eqn:E1; [|done].
    injection E as <-. by eapply key_regenerate_stored.
  - apply Hread. simpl. unfold auth_key. frame.
  - by eapply user_deploy_stored.
  - by eapply user_undeploy_stored.
  - by eapply user_destroy_stored.
  - by eapply set_profile_stored.
  - by eapply set_password_stored.
  - apply Hread. simpl. unfold create_one_time. frame; by intros ?.
  - apply Hread. simpl. unfold clear_one_time_users. frame.
  - apply Hread. simpl. unfold auth_user. frame.
  - apply Hread. simpl. unfold reset_user, verified. frame.
Qed.

(** ** The service starts again *)

Definition auth_empty : Auth := mkAuth (mkKeyDb ∅ ∅) ∅ ∅ ∅ ∅ [] 0 0.
(** The process ends: what is left is the registry. *)
Definition restarted s : Auth :=
  mkAuth (mkKeyDb ∅ ∅) ∅ ∅ (au_reg_keys s) (au_reg_users s) [] (au_calls s) (au_rnd s).

Lemma keydb_ext db db' : keydb_ok db -> keydb_ok db' -> keys_by_id db = keys_by_id db' -> db = db'.
Proof.
  intros [Hi Hk] [Hi' Hk'] Hid. destruct db as [m mk], db' as [m' mk']. simpl in *. subst m'. f_equal.
  apply map_eq. intros v. apply option_eq. intros k. split.
  - intros Hv. destruct (Hk _ _ Hv) as [<- Hx]. by apply Hi' in Hx as [_ ->].
  - intros Hv. destruct (Hk' _ _ Hv) as [<- Hx]. by apply Hi in Hx as [_ ->].
Qed.

Lemma append_key_fits db0 k s :
  keydb_ok db0 -> keydb_ok (au_keys s) -> keys_by_id (au_keys s) ⊆ keys_by_id db0 ->
  keys_by_id db0 !! key_id k = Some k ->
  exists s', append_key k s = (Ok tt, s').
Proof.
  intros Hdb0 Hs Hsub Hk. unfold append_key. rewrite run_bind. unfold get at 1. rewrite run_bind. unfold lift.
  unfold keydb_append. destruct (keys_by_k (au_keys s) !! key_key k) as [k'|] eqn:E; [|by eexists].
  destruct (keydb_k _ Hs _ _ E) as [Hkk Hid]. apply (lookup_weaken _ _ _ _ Hid) in Hsub.
  destruct (keydb_id _ Hdb0 _ _ Hsub) as [_ H1]. destruct (keydb_id _ Hdb0 _ _ Hk) as [_ H2].
  rewrite Hkk in H1. rewrite H1 in H2. injection H2 as ->. rewrite String.eqb_refl. by eexists.
Qed.

Lemma load_keys db0 (l : list (string * Key)) s :
  keydb_ok db0 -> keydb_ok (au_keys s) -> keys_by_id (au_keys s) ⊆ keys_by_id db0 ->
  NoDup l.*1 -> (forall i k, (i, k) ∈ l -> keys_by_id db0 !! i = Some k /\ keys_by_id (au_keys s) !! i = None) ->
  exists s', for_each (fun iv => append_key iv.2) l s = (Ok tt, s') /\ keydb_ok (au_keys s') /\
    keys_by_id (au_keys s') = list_to_map l ∪ keys_by_id (au_keys s) /\
    au_users s' = au_users s /\ au_reg_keys s' = au_reg_keys s /\ au_reg_users s' = au_reg_users s.
Proof.
  intros Hdb0. revert s. induction l as [|[i k] l IH]; intros s Hs Hsub Hnd Hl; cbn [for_each].
  { exists s. split_and!; try done. simpl. by rewrite map_empty_union. }
  cbn [fmap list_fmap fst] in Hnd. apply NoDup_cons in Hnd as [Hni Hnd].
  destruct (Hl i k ltac:(by left)) as [Hi Hn]. destruct (keydb_id _ Hdb0 _ _ Hi) as [<- _].
  destruct (append_key_fits db0 k s) as [s1 E1]; try done. rewrite run_bind. cbn [snd]. rewrite E1.
  apply append_key_ok in E1 as (Hs1 & Hids1 & Hu1 & Hrk1 & Hru1); [|done|done].
  destruct (IH s1) as (s' & E & Hs' & Hids' & Hu' & Hrk' & Hru'); try done.
  - rewrite Hids1. by apply insert_subseteq_l.
  - intros j kj Hj. destruct (Hl j kj ltac:(by right)) as [? ?]. split; [done|]. rewrite Hids1.
    assert (j ∈ l.*1) as Hj1 by (apply list_elem_of_fmap; by exists (j, kj)).
    rewrite lookup_insert_ne; [done|]. intros <-. done.
  - exists s'. split_and!; try congruence. rewrite Hids', Hids1. simpl.
    rewrite <-insert_union_r by (by apply not_elem_of_list_to_map_1). by rewrite insert_union_l.
Qed.

Lemma load_users (users : gmap string User) (l : list (string * StoredUser)) s :
  NoDup l.*1 ->
  (forall i v, (i, v) ∈ l -> exists u, users !! i = Some u /\ us_login u = i /\ password_wf (us_password u) /\
    v = user_stored u) ->
  exists s', for_each (fun iv =>
      u ← lift (user_loaded iv.2);
      modify (fun s => set_users (<[us_login u := u]> (au_users s)) s)) l s = (Ok tt, s') /\
    au_keys s' = au_keys s /\
    (forall i, i ∈ l.*1 -> au_users s' !! i = users !! i) /\
    (forall i, i ∉ l.*1 -> au_users s' !! i = au_users s !! i).
Proof.
  revert s. induction l as [|[i v] l IH]; intros s Hnd Hl; cbn [for_each].
  { exists s. split_and!; try done. by intros ? []%not_elem_of_nil. }
  cbn [fmap list_fmap fst] in Hnd |- *. apply NoDup_cons in Hnd as [Hni Hnd].
  destruct (Hl i v ltac:(by left)) as (u & Hu & Hlog & Hw & ->).
  assert (user_loaded (user_stored u) = Ok u) as Hload.
  { unfold user_loaded, user_stored. cbn [st_password st_login st_acls st_profile].
    rewrite from_str_to_string by done. by destruct u. }
  rewrite run_bind, run_bind. cbn [snd]. rewrite Hload. unfold lift at 1. simpl.
  edestruct IH as (s' & E & Hk' & Hin & Hout);
    [done|intros j w Hj; apply Hl; by right|exists s'; split; [exact E|]].
  split_and!; [by rewrite Hk'| |].
  - intros j. rewrite elem_of_cons. intros [->|Hj]; [|by apply Hin]. rewrite (Hout i Hni). simpl.
    rewrite Hlog, lookup_insert_eq. done.
  - intros j. rewrite not_elem_of_cons. intros [Hj1 Hj2]. rewrite (Hout j Hj2). simpl.
    rewrite Hlog. by apply lookup_insert_ne.
Qed.

Lemma stored_load s :
  stored s -> exists s', auth_load (restarted s) = (Ok tt, s') /\
    au_keys s' = au_keys s /\ au_users s' = au_users s.
Proof.
  intros [Hdb Hk Hu Hl]. unfold auth_load. rewrite run_bind. unfold get at 1. rewrite run_bind.
  cbn [au_reg_keys au_reg_users restarted]. rewrite Hk, Hu.
  destruct (load_keys (au_keys s) (map_to_list (keys_by_id (au_keys s))) (restarted s))
    as (s1 & E1 & Hok1 & Hids1 & Hu1 & _); [done|done|simpl; apply map_empty_subseteq|apply NoDup_fst_map_to_list| |].
  { intros i k Hi%elem_of_map_to_list. by simpl. }
  rewrite E1. simpl in Hids1. rewrite map_union_empty, list_to_map_to_list in Hids1.
  edestruct (load_users (au_users s) (map_to_list (user_stored <$> au_users s)) s1)
    as (s' & E & Hk' & Hin & Hout); [apply NoDup_fst_map_to_list| |].
  { intros i v Hi%elem_of_map_to_list. rewrite lookup_fmap in Hi.
    destruct (au_users s !! i) as [u|] eqn:Eu; simpl in Hi; [|done]. injection Hi as <-.
    exists u. destruct (Hl _ _ Eu). done. }
  exists s'. split; [exact E|]. split.
  - rewrite Hk'. by apply keydb_ext.
  - apply map_eq. intros i. destruct (decide (i ∈ (map_to_list (user_stored <$> au_users s)).*1)) as [Hi|Hi];
      [by apply Hin|]. rewrite (Hout i Hi), Hu1. simpl. rewrite lookup_empty. symmetry.
    destruct (au_users s !! i) as [u|] eqn:Eu; [|done]. destruct Hi.
    apply list_elem_of_fmap. exists (i, user_stored u). split; [done|].
    apply elem_of_map_to_list. rewrite lookup_fmap, Eu. done.
Qed.

(** Each operation of a run was done, or refused with nothing changed. *)
Fixpoint all_settled (ops : list auth_op) s : Prop :=
  match ops with
  | [] => True
  | op :: ops => settled op s /\ all_settled ops (auth_exec e op s).2
  end.

Lemma auth_run_stored ops s :
  (forall k b, ae_rnd e k = Ok b -> is_array 16 b) ->
  Forall op_wf ops -> all_settled ops s -> stored s -> stored (auth_run e ops s).
Proof.
  intros Hrnd. revert s. induction ops as [|op ops IH]; intros s; [done|].
  inversion 1; subst. intros [Hop Hops] Hs. simpl. apply IH; [done|done|]. by apply auth_exec_stored.
Qed.

Lemma auth_empty_stored : stored auth_empty.
Proof. by split. Qed.

(** C32: Keys and users survive a restart.  After any sequence of operations
    each of which was done, or refused before it changed anything, the service
    that is started again reads from the registry exactly the keys and the
    users, with their passwords, that it had; no entry is refused. *)
Theorem auth_survives_restart ops :
  (forall k b, ae_rnd e k = Ok b -> is_array 16 b) ->
  Forall op_wf ops -> all_settled ops auth_empty ->
  let s := auth_run e ops auth_empty in
  exists s', auth_load (restarted s) = (Ok tt, s') /\
    au_keys s' = au_keys s /\ au_users s' = au_users s.
Proof. intros Hrnd Hw Hok s. apply stored_load. apply auth_run_stored; auto using auth_empty_stored. Qed.
End store.

(** ** The rights of a user *)

Section rights.
Context `{HashExternals, ValueHash}.
Variable (e : AuthEnv (Value := Value) (R := AclData)).
Variables (strict forbid_empty : bool) (acls : gmap string Acl).

(** C14: A login gives the rights of the access lists.  When the service that
    answers is the ACL service, what a user who is let in gets is the
    combination of exactly those of their access lists that exist: of the
    registered user with that login, or of the one-time user, who has proved
    the password. *)
Theorem login_rights login password otp s d s' :
  (forall ids key_id, ae_acl e ids key_id = acl_format strict forbid_empty acls (Multiple ids) key_id) ->
  auth_user e login password otp false s = (Ok d, s') ->
  exists u srcs,
    (au_users s !! login = Some u \/
     exists l created, login = ("OT." +:+ l)%string /\ au_one_time s !! l = Some (mkOneTime created (Some u))) /\
    verify_password (us_password u) password = Ok true /\
    combines srcs d /\ (forall acl, acl ∈ srcs <-> exists i, i ∈ us_acls u /\ acls !! i = Some acl) /\
    (strict = true -> forall i, i ∈ us_acls u -> is_Some (acls !! i)) /\
    (forbid_empty = true -> srcs ≠ []).
Proof.
  intros Hacl (u & Hr & Hu)%auth_user_ok. rewrite Hacl in Hr.
  apply acl_format_sources in Hr as (srcs & Hc & Hin & Hst & Hfe). simpl in Hin, Hst.
  setoid_rewrite elem_of_elements in Hin. setoid_rewrite elem_of_elements in Hst.
  exists u, srcs. split_and!; try done; destruct Hu as [(created & l & -> & Ho & Hv)|(Hl & _ & [?|[Hv _]])]; done || eauto 6.
Qed.
End rights.
