(* ===== verification/LocalAuthExamples.v ===== *)
(** * Local authentication: examples

    Concrete encodings and digests that satisfy what is assumed of the crates,
    and the theorems about passwords and authentication at concrete keys and
    users. *)
From Stdlib Require Import Ascii.
From S2P Require Import Prelude Duration EvaCommon Acl Password LocalAuth LocalAuthStore.

Module LocalAuthExamples.

(** ** Encodings and digests *)

(** A byte as two letters. *)
Definition nibble (n : nat) : ascii := ascii_of_nat (97 + n).
Definition of_nibble (a : ascii) : option nat :=
  let n := nat_of_ascii a in if (97 <=? n)%nat && (n <? 113)%nat then Some (n - 97) else None.
Fixpoint encode (b : list Z) : string :=
  match b with
  | [] => ""
  | z :: b =>
      let n := Z.to_nat (z mod 256) in
      String (nibble (n / 16)) (String (nibble (n mod 16)) (encode b))
  end.
Fixpoint decode (s : string) : option (list Z) :=
  match s with
  | EmptyString => Some []
  | String a (String c s) =>
      match of_nibble a, of_nibble c, decode s with
      | Some x, Some y, Some b => Some (Z.of_nat (16 * x + y) :: b)
      | _, _, _ => None
      end
  | String _ EmptyString => None
  end.

Lemma nibble_code n : n < 16 -> nat_of_ascii (nibble n) = 97 + n.
Proof. intros. unfold nibble. apply nat_ascii_embedding. lia. Qed.
Lemma of_nibble_nibble n : n < 16 -> of_nibble (nibble n) = Some n.
Proof.
  intros Hn. unfold of_nibble. rewrite nibble_code by done.
  destruct (Nat.leb_spec 97 (97 + n)); [|lia]. destruct (Nat.ltb_spec (97 + n) 113); [|lia].
  simpl. f_equal. lia.
Qed.
Lemma of_nibble_bound a n : of_nibble a = Some n -> n < 16.
Proof.
  unfold of_nibble. destruct (Nat.leb_spec 97 (nat_of_ascii a)); [|done].
  destruct (Nat.ltb_spec (nat_of_ascii a) 113); [|done]. intros [= <-]. lia.
Qed.
Lemma nibble_not_dollar n : n < 16 -> dollar ≠ nibble n.
Proof. intros Hn Hd. apply (f_equal nat_of_ascii) in Hd. rewrite nibble_code in Hd by done. vm_compute in Hd. lia. Qed.

Lemma nibbles z : Z.to_nat (z mod 256) / 16 < 16 /\ Z.to_nat (z mod 256) mod 16 < 16.
Proof.
  pose proof (Z.mod_pos_bound z 256). split; [apply Nat.Div0.div_lt_upper_bound; lia|].
  apply Nat.mod_upper_bound. lia.
Qed.

Lemma decode_encode b : Forall is_u8 b -> decode (encode b) = Some b.
Proof.
  induction 1 as [|z b Hz _ IH]; [done|]. destruct (nibbles z) as [H1 H2].
  cbn [encode decode]. rewrite !of_nibble_nibble, IH by done. do 2 f_equal.
  rewrite <-Nat.div_mod_eq, Z.mod_small by done. unfold is_u8 in Hz. lia.
Qed.
Lemma decode_bytes s b : decode s = Some b -> Forall is_u8 b.
Proof.
  remember (String.length s) as n eqn:Hn. revert s b Hn.
  induction n as [n IH] using lt_wf_ind. intros s b Hn. destruct s as [|a [|c s]]; cbn [decode]; [by intros [= <-]|done|].
  destruct (of_nibble a) as [x|] eqn:Ex; [|done]. destruct (of_nibble c) as [y|] eqn:Ey; [|done].
  destruct (decode s) as [b'|] eqn:Es; [|done]. intros [= <-].
  apply of_nibble_bound in Ex, Ey. constructor; [unfold is_u8; lia|].
  eapply (IH (String.length s)); [|done|exact Es]. subst n. simpl. lia.
Qed.
Lemma encode_size b : String.length (encode b) = 2 * length b.
Proof. induction b as [|z b IH]; [done|]. cbn [encode String.length length]. rewrite IH. lia. Qed.
Lemma encode_no_dollar b : no_dollar (encode b).
Proof.
  unfold no_dollar. induction b as [|z b IH]; [by apply not_elem_of_nil|].
  cbn [encode String.list_ascii_of_string]. destruct (nibbles z) as [H1 H2].
  rewrite !not_elem_of_cons. split_and!; [by apply nibble_not_dollar|by apply nibble_not_dollar|done].
Qed.

(** The first bytes, filled with zeros. *)
Definition digest (n : nat) (b : list Z) : list Z := take n (((fun z => z mod 256)%Z <$> b) ++ replicate n 0%Z).
Lemma digest_array n b : is_array n (digest n b).
Proof.
  unfold digest. split; [rewrite length_take, length_app, length_replicate; lia|].
  apply Forall_take, Forall_app. split.
  - apply Forall_fmap, Forall_true. intros z. unfold is_u8, compose. pose proof (Z.mod_pos_bound z 256). lia.
  - apply Forall_replicate. unfold is_u8. lia.
Qed.

#[export] Instance hashes : HashExternals := {|
  sha256 := digest 32;
  sha512 := digest 64;
  pbkdf2_hmac p s _ := Ok (digest 32 (s ++ p));
  hex_encode := encode;
  hex_decode := decode;
  base64_encode := encode;
  base64_decode := decode
|}.
#[export] Instance hash_laws : HashLaws.
Proof.
  split; [apply digest_array|apply digest_array| |apply decode_encode|apply decode_bytes|apply encode_size
    |apply encode_no_dollar|apply decode_encode|apply decode_bytes|apply encode_no_dollar].
  intros p s n h [= <-]. apply digest_array.
Qed.

Definition hash_of (p : string) : Password := new_sha256 p.
Lemma password_roundtrip_example :
  password_wf (hash_of "secret") /\
  password_from_str (password_to_string (hash_of "secret")) = Ok (hash_of "secret").
Proof.
  assert (password_wf (hash_of "secret")) as Hw by apply digest_array.
  split; [exact Hw|]. exact (from_str_to_string (hash_of "secret") Hw).
Defined.

Definition salt : list Z := replicate 16 7%Z.
Lemma salt_array : is_array 16 salt.
Proof. split; [done|]. apply Forall_replicate. unfold is_u8. lia. Qed.
Definition salted : Password := Pbkdf2 salt (digest 32 (salt ++ as_bytes "secret")).

(** ** Keys and users *)

Abbreviation Env := (AuthEnv (Value := unit) (R := list string)).
(** The answer of the ACL service are the lists that were asked for. *)
Definition env : Env := {|
  ae_one_time := Some 60%Z;
  ae_policy := mkPolicy 4 true false false;
  ae_io _ := Ok tt;
  ae_rnd _ := Ok salt;
  ae_rounds := 4;
  ae_now := 1000;
  ae_acl ids _ := Ok ids;
  ae_otp := None;
  ae_otp_destroy _ := Ok tt
|}.

Definition pump : Key := mkKey "pump" "abc" {["operators"]}.
Definition valve : Key := mkKey "valve" "abc" {["admins"]}.
Definition alice : User := mkUser "alice" (hash_of "secret") {["operators"]} profile_default.

Lemma empty_db : keydb_ok (au_keys auth_empty).
Proof. split; simpl; intros ? ?; by rewrite lookup_empty. Qed.

Lemma api_key_listed_example :
  auth_key env "abc" (auth_run env [AoKeyDeploy [pump]] auth_empty) =
    (Ok ["operators"], auth_run env [AoKeyDeploy [pump]] auth_empty).
Proof.
  apply (api_key_listed env [AoKeyDeploy [pump]] auth_empty "abc" ["operators"] empty_db).
  exists pump. split_and!; vm_refl.
Defined.

Definition with_alice : Auth := auth_run env [AoUserDeploy [alice]] auth_empty.

Lemma login_sound_example :
  exists u, ae_acl env (elements (us_acls u)) None = Ok ["operators"] /\
  ((exists created l, "alice" = ("OT." +:+ l)%string /\
      au_one_time with_alice !! l = Some (mkOneTime created (Some u)) /\
      verify_password (us_password u) "secret" = Ok true) \/
   (au_users with_alice !! "alice" = Some u /\ with_alice = with_alice /\
      (false = true \/
       verify_password (us_password u) "secret" = Ok true /\
       forall check, ae_otp env = Some check -> check "alice" None = Ok tt))).
Proof. apply (login_sound env "alice" "secret" None false with_alice). vm_refl. Defined.

Definition once : Auth := auth_run env [AoCreateOneTime 1 None {["operators"]}] auth_empty.
Definition once_login : string := "ahahahahahahahah".
Definition once_tried : Auth := (auth_user env ("OT." +:+ once_login)%string "wrong" None false once).2.
Lemma one_time_single_use_example :
  exists s', auth_user env ("OT." +:+ once_login)%string "ahahahahahahahah" None false
    (auth_run env [AoClear] once_tried) = (Err EAccess, s').
Proof.
  apply (one_time_single_use env once_login "wrong" [AoClear] "ahahahahahahahah" None false None false once).
  split; exact I.
Defined.
(** The first attempt with the password would have been let in. *)
Lemma once_accepted :
  (auth_user env ("OT." +:+ once_login)%string "ahahahahahahahah" None false once).1 = Ok ["operators"].
Proof. vm_refl. Qed.

Definition restart_ops : list (auth_op (Value := unit)) :=
  [AoKeyDeploy [pump]; AoUserDeploy [alice]; AoKeyRegenerate "pump"; AoSetPassword "alice" "secret2" true;
   AoKeyDestroy "valve"].
Lemma auth_survives_restart_witness :
  exists s', auth_load (restarted (auth_run env restart_ops auth_empty)) = (Ok tt, s') /\
    au_keys s' = au_keys (auth_run env restart_ops auth_empty) /\
    au_users s' = au_users (auth_run env restart_ops auth_empty).
Proof.
  apply (auth_survives_restart env restart_ops).
  - intros k b Hb. injection Hb as <-. apply salt_array.
  - constructor; [exact I|]. constructor; [constructor; [apply digest_array|constructor]|].
    do 3 (constructor; [exact I|]). constructor.
  - cbn [all_settled restart_ops]. split_and!; [left; vm_refl|left; vm_refl|left; vm_refl|left; vm_refl| |exact I].
    right. vm_compute. split_and!; reflexivity.
Defined.

(** A deployment that is refused because another key has that value has
    already removed the key it was to replace, from the table but not from the
    registry: the key comes back with a restart. *)
Definition two_keys : Auth := auth_run env [AoKeyDeploy [pump; mkKey "valve" "def" ∅]] auth_empty.
Lemma refused_deploy_removes_key :
  (key_deploy env [mkKey "pump" "def" {["operators"]}] two_keys).1 = Err EBusy /\
  keys_by_id (au_keys (key_deploy env [mkKey "pump" "def" {["operators"]}] two_keys).2) !! "pump" = None /\
  au_reg_keys (key_deploy env [mkKey "pump" "def" {["operators"]}] two_keys).2 !! "pump" = Some pump.
Proof. split_and!; vm_refl. Qed.

(** ** The rights of a user *)

Import Sample AclExamples.
Definition acl_env : AuthEnv (Value := Value) (R := AclData) := {|
  ae_one_time := None;
  ae_policy := mkPolicy 4 true false false;
  ae_io _ := Ok tt;
  ae_rnd _ := Ok salt;
  ae_rounds := 4;
  ae_now := 1000;
  ae_acl ids key_id := acl_format true true acls (Multiple ids) key_id;
  ae_otp := None;
  ae_otp_destroy _ := Ok tt
|}.
Definition with_alice' : Auth := auth_run acl_env [AoUserDeploy [alice]] auth_empty.
Definition alice_rights : AclData :=
  mkAclData "operators" {["operators"]} false None (Some {["items" := {[lamps]}]}) None None None None.
Lemma login_rights_witness :
  exists u srcs,
    (au_users with_alice' !! "alice" = Some u \/
     exists l created, "alice" = ("OT." +:+ l)%string /\
       au_one_time with_alice' !! l = Some (mkOneTime created (Some u))) /\
    verify_password (us_password u) "secret" = Ok true /\
    combines srcs alice_rights /\
    (forall acl, acl ∈ srcs <-> exists i, i ∈ us_acls u /\ acls !! i = Some acl) /\
    (true = true -> forall i, i ∈ us_acls u -> is_Some (acls !! i)) /\
    (true = true -> srcs ≠ []).
Proof.
  apply (login_rights acl_env true true acls "alice" "secret" None with_alice' alice_rights with_alice').
  - reflexivity.
  - vm_refl.
Defined.
End LocalAuthExamples.
