(* ===== verification/LmRule.v ===== *)
(** * The logic manager: rules

    [svc/controller-lm/src/rule.rs]: when a rule matches a state event, and
    the chill-out, a period after a run in which matching events are kept back
    and the last one of them is run at its end.  [process_state] of [main.rs]
    offers an event to the rules by priority.

    A run is what [rule.process] and the timers it starts do, in any order:
    an event may come at any time, and a timer may fire at any time after it
    was started. *)
From S2P Require Import Prelude EvaCommon.

(** What the rules use of [eva_common::logic::Range] and of values. *)
Class LmExternals `{Externals} := {
  range_matches_any : Range -> bool;
  range_matches_value : Range -> Value -> bool;
  value_to_u64 : Value -> option Z;
  u64_get_bit : Z -> Z -> bool
}.

(** [eva_sdk::types::StatePropExt] *)
Inductive StatePropExt := PropStatus | PropValue | PropAct.

(** svc/controller-lm/src/rule.rs:25-35 [InitialKind] *)
Inductive InitialKind := InitialProcess | InitialSkip | InitialOnly.

#[export] Instance InitialKind_eq_dec : EqDecision InitialKind.
Proof. solve_decision. Defined.

Section rule.
Context `{LmExternals}.

(** svc/controller-lm/src/common.rs:116-122 [StateX] *)
Record StateX := mkStateX { sx_status : Z; sx_value : Value; sx_act : option Z }.

(** svc/controller-lm/src/common.rs:145-152 [SourceOwned] *)
Record Source := mkSource { so_oid : OID; so_state : StateX }.

(** svc/controller-lm/src/rule.rs:37-41 [Chillout] *)
Record Chillout := mkChillout { ch_active : option Z; ch_event : option Source }.

(** The fields a decision depends on (svc/controller-lm/src/rule.rs:57-89) *)
Record Rule := mkRule {
  r_prop : StatePropExt;
  r_condition : Range;
  r_initial : InitialKind;
  r_bit : option Z;
  r_brk : bool;
  r_chillout_time : option Z;
  r_priority : nat
}.

(** The value of a bit, as the condition sees it. *)
Definition bit_f64 (b : bool) : f64 := if b then f64_of_Z 1 else f64_of_Z 0.

(** svc/controller-lm/src/rule.rs:250-274 [matches] *)
Definition rule_matches (rule : Rule) (state : StateX) : bool :=
  range_matches_any (r_condition rule) ||
  match r_prop rule with
  | PropStatus => range_matches (r_condition rule) (f64_of_Z (sx_status state))
  | PropValue =>
      match r_bit rule with
      | Some bit =>
          match value_to_u64 (sx_value state) with
          | Some v => range_matches (r_condition rule) (bit_f64 (u64_get_bit v bit))
          | None => false
          end
      | None => range_matches_value (r_condition rule) (sx_value state)
      end
  | PropAct =>
      match sx_act state with
      | Some act => range_matches (r_condition rule) (f64_of_Z act)
      | None => false
      end
  end.

(** svc/controller-lm/src/rule.rs:275-315 [need_process] *)
Definition need_process (rule : Rule) (state : StateX) (prev : option StateX) : bool :=
  match prev with
  | Some st_prev =>
      if decide (r_initial rule = InitialOnly) then false
      else
        range_matches_any (r_condition rule) ||
        match r_prop rule with
        | PropStatus =>
            negb (sx_status st_prev =? sx_status state)%Z &&
            negb (range_matches (r_condition rule) (f64_of_Z (sx_status st_prev)))
        | PropValue =>
            negb (value_eqb (sx_value st_prev) (sx_value state)) &&
            match r_bit rule with
            | Some bit =>
                match value_to_u64 (sx_value st_prev) with
                | Some v => negb (range_matches (r_condition rule) (bit_f64 (u64_get_bit v bit)))
                | None => true
                end
            | None => negb (range_matches_value (r_condition rule) (sx_value st_prev))
            end
        | PropAct =>
            bool_decide (sx_act st_prev ≠ sx_act state) &&
            match sx_act st_prev with
            | Some act => negb (range_matches (r_condition rule) (f64_of_Z act))
            | None => true
            end
        end
  | None => bool_decide (r_initial rule ≠ InitialSkip)
  end.

(** ** Processing *)

(** The chill-out of the rule, the timers that run, and the macros launched,
    each with the event it is given. *)
Record RuleWorld := mkRw {
  rw_chillout : Chillout;
  rw_timers : nat;
  rw_runs : list Source
}.

Definition chillout_default : Chillout := mkChillout None None.
Definition rule_world_new : RuleWorld := mkRw chillout_default 0 [].

(* are the parameters of a macro encoded ([to_value] and [pack]) *)
Variable encode : Source -> EResult unit.

Abbreviation RM := (M RuleWorld).

Definition set_chillout (c : Chillout) : RM unit :=
  modify (fun w => mkRw c (rw_timers w) (rw_runs w)).
(** [run(..)], waited for or spawned *)
Definition launch (ev : Source) : RM unit :=
  modify (fun w => mkRw (rw_chillout w) (rw_timers w) (rw_runs w ++ [ev])).
(** [tokio::spawn(process_chillout(..))] *)
Definition start_timer : RM unit :=
  modify (fun w => mkRw (rw_chillout w) (S (rw_timers w)) (rw_runs w)).

(** svc/controller-lm/src/rule.rs:191-249 [process] *)
Definition rule_process (rule : Rule) (oid : OID) (state : StateX) (prev : option StateX)
    (now : Z) : RM bool :=
  let source := mkSource oid state in
  if need_process rule state prev && rule_matches rule state then
    w ← get;
    let launch_now :=
      _ ← lift (encode source);
      _ ← launch source;
      _ ← match r_chillout_time rule with Some _ => start_timer | None => mret tt end;
      mret (negb (r_brk rule)) in
    match r_chillout_time rule with
    | Some _ =>
        match ch_active (rw_chillout w) with
        | Some a =>
            _ ← set_chillout (mkChillout (Some a) (Some source));
            mret (negb (r_brk rule))
        | None =>
            _ ← set_chillout (mkChillout (Some now) (ch_event (rw_chillout w)));
            launch_now
        end
    | None => launch_now
    end
  else mret true.

(** What a timer does when it fires.

    svc/controller-lm/src/rule.rs:110-145 [process_chillout] *)
Definition process_chillout : RM unit :=
  w ← get;
  _ ← set_chillout chillout_default;
  match ch_event (rw_chillout w) with
  | Some event => _ ← lift (encode event); launch event
  | None => mret tt
  end.

(** The loop over the rules; [processed] is the outcome of each
    (svc/controller-lm/src/main.rs:258-264) *)
Fixpoint process_rules {S} (rules : list (M S bool)) : M S unit :=
  match rules with
  | [] => mret tt
  | rule :: rules' =>
      r ← attempt rule;
      match r with
      | Ok true | Err _ => process_rules rules'
      | Ok false => mret tt
      end
  end.

(** ** Runs *)

Inductive rule_op :=
  | REvent (oid : OID) (state : StateX) (prev : option StateX) (now : Z)
  | RTimer.

(** Does the rule fire on the event? *)
Definition fires (rule : Rule) (state : StateX) (prev : option StateX) : bool :=
  need_process rule state prev && rule_matches rule state.

(** One event, or one timer. *)
Definition rule_exec (rule : Rule) (op : rule_op) (w : RuleWorld) : RuleWorld :=
  match op with
  | REvent oid state prev now => (rule_process rule oid state prev now w).2
  | RTimer =>
      match rw_timers w with
      | O => w
      | S n => (process_chillout (mkRw (rw_chillout w) n (rw_runs w))).2
      end
  end.

(** The event of the last step on which the rule fires. *)
Definition last_fired (rule : Rule) (op : rule_op) (last : option Source) : option Source :=
  match op with
  | REvent oid state prev _ => if fires rule state prev then Some (mkSource oid state) else last
  | RTimer => last
  end.

(** A run from the start, with the event the rule fired on last. *)
Definition rule_run (rule : Rule) (ops : list rule_op) : RuleWorld * option Source :=
  foldl (fun '(w, last) op => (rule_exec rule op w, last_fired rule op last))
    (rule_world_new, None) ops.

Definition is_timer (op : rule_op) : bool :=
  match op with RTimer => true | REvent _ _ _ _ => false end.

(** Did the property the rule watches change? *)
Definition changed (rule : Rule) (prev state : StateX) : bool :=
  match r_prop rule with
  | PropStatus => negb (sx_status prev =? sx_status state)%Z
  | PropValue => negb (value_eqb (sx_value prev) (sx_value state))
  | PropAct => bool_decide (sx_act prev ≠ sx_act state)
  end.

(** A rule fires on an edge: when the condition holds now, the property it
    watches changed, and the condition did not hold before.  A condition that
    any value meets is not checked; the first event of an item counts if the
    rule takes initial states, and a rule for initial states only takes no
    other. *)
Lemma rule_fires_on_edge rule state prev :
  fires rule state None = bool_decide (r_initial rule ≠ InitialSkip) && rule_matches rule state ∧
  fires rule state (Some prev) =
    bool_decide (r_initial rule ≠ InitialOnly) && rule_matches rule state &&
    (range_matches_any (r_condition rule) ||
     changed rule prev state && negb (rule_matches rule prev)).
Proof.
  split; [done|]. unfold fires, need_process, changed, rule_matches.
  destruct (decide (r_initial rule = InitialOnly)) as [E|E];
    [by rewrite (bool_decide_eq_false_2 (r_initial rule ≠ _)) by auto
    |rewrite (bool_decide_eq_true_2 (r_initial rule ≠ _)) by done].
  destruct (range_matches_any (r_condition rule)); [done|].
  rewrite !orb_false_l, andb_true_l, andb_comm. f_equal.
  destruct (r_prop rule); [done| |].
  - f_equal. destruct (r_bit rule); [|done]. by destruct (value_to_u64 (sx_value prev)).
  - f_equal. by destruct (sx_act prev).
Qed.

(** What holds after every step: a chill-out has one timer, an event is kept
    back only during a chill-out, and the last event the rule fired on is
    kept back or was run last.  [n] timers have fired. *)
Record chill_ok (w : RuleWorld) (last_ev : option Source) (n : nat) : Prop := mkChillOk {
  ok_timer : rw_timers w = match ch_active (rw_chillout w) with Some _ => 1 | None => 0 end;
  ok_event : ch_event (rw_chillout w) <> None -> ch_active (rw_chillout w) <> None;
  ok_last : last_ev =
    match ch_event (rw_chillout w) with Some e => Some e | None => last (rw_runs w) end;
  ok_runs : length (rw_runs w) <= 2 * n + rw_timers w
}.

Lemma chill_ok_step rule t op w last_ev n :
  r_chillout_time rule = Some t -> (forall s, encode s = Ok tt) -> chill_ok w last_ev n ->
  chill_ok (rule_exec rule op w) (last_fired rule op last_ev) (if is_timer op then S n else n).
Proof.
  intros Ht He [H1 H2 H3 H4]. destruct w as [[act ev] tm runs]. simpl in *.
  destruct op as [oid state prev now|]; simpl.
  - unfold rule_process, fires. destruct (need_process _ _ _ && _); [|by constructor].
    rewrite Ht. unfold set_chillout, launch, start_timer. unfold_m. simpl.
    destruct act as [a|]; simpl.
    + constructor; simpl in *; try done; lia.
    + destruct ev; [by destruct H2|]. rewrite He.
      constructor; simpl in *; [lia|done|by rewrite last_snoc|rewrite length_app; simpl; lia].
  - destruct tm as [|tm]; [constructor; simpl in *; [done..|lia]|].
    unfold process_chillout, set_chillout, launch. unfold_m. simpl. destruct act as [a|]; [|done].
    destruct ev as [e|]; simpl; [rewrite He|].
    + constructor; simpl in *; [lia|done|by rewrite last_snoc|rewrite length_app; simpl; lia].
    + constructor; simpl in *; [lia|done|done|lia].
Qed.

Lemma rule_run_ok rule t ops :
  r_chillout_time rule = Some t -> (forall s, encode s = Ok tt) ->
  chill_ok (rule_run rule ops).1 (rule_run rule ops).2 (length (filter is_timer ops)).
Proof.
  intros Ht He. unfold rule_run.
  induction ops as [|op ops IH] using rev_ind; [by constructor|].
  rewrite foldl_app, filter_app, length_app. simpl.
  destruct (foldl _ _ ops) as [w last_ev]. simpl in *.
  pose proof (chill_ok_step rule t op w last_ev _ Ht He IH) as Hs.
  destruct op; simpl in *; rewrite ?filter_cons, ?filter_nil; simpl; rewrite ?Nat.add_0_r, ?Nat.add_1_r; done.
Qed.


(** When the parameters of the macro cannot be encoded the chill-out starts
    without a timer, and the rule never runs again. *)
Lemma rule_encode_error_stuck rule t oid state prev now w :
  r_chillout_time rule = Some t -> fires rule state prev = true ->
  ch_active (rw_chillout w) = None -> rw_timers w = 0 ->
  (exists e, encode (mkSource oid state) = Err e) ->
  let w' := rule_exec rule (REvent oid state prev now) w in
  ch_active (rw_chillout w') = Some now ∧ rw_timers w' = 0 ∧ rw_runs w' = rw_runs w.
Proof.
  intros Ht Hf Ha Htm [e He]. simpl. unfold rule_process, fires in *. rewrite Hf, Ht.
  destruct w as [[act ev] tm runs]. simpl in *. subst.
  unfold set_chillout, launch, start_timer. unfold_m. simpl. by rewrite He.
Qed.
End rule.

(** ** A run *)

Module LmRuleExamples.
Import Sample.

#[export] Instance lm_externals : LmExternals := {|
  range_matches_any r :=
    match r_min r, r_max r with None, None => true | _, _ => false end;
  range_matches_value r v :=
    match value_to_f64 v with Some x => srange_matches r x | None => false end;
  value_to_u64 v := match v with SNum z => Some z | _ => None end;
  u64_get_bit := Z.testbit
|}.

Definition above_20 : Range := mkRange (Some (f64_of_Z 20)) None false false.
Definition alarm : Rule := mkRule PropValue above_20 InitialProcess None false (Some 5%Z) 0.
Definition temp : OID := (Sensor, "temp").
Definition at_temp (z : Z) : StateX := mkStateX 1 (SNum z) None.
Definition encode_ok : LmRule.Source -> EResult unit := fun _ => Ok tt.

(** Two edges during one chill-out: the second is run when it ends. *)
Definition ops : list rule_op :=
  [REvent temp (at_temp 25) (Some (at_temp 10)) 0;
   REvent temp (at_temp 15) (Some (at_temp 25)) 1;
   REvent temp (at_temp 30) (Some (at_temp 15)) 2; RTimer].

End LmRuleExamples.
