(* ===== verification/LmCycle.v ===== *)
(** * The logic manager: cycles

    [svc/controller-lm/src/cycle.rs]: a cycle runs a macro at an interval
    between [start] and [stop].  Its only shared state is an atomic status, so
    the model is a step relation whose steps are the loads and stores of the
    status by the calls of [start], the calls of [stop] and the loops, in any
    interleaving.  The theorems show that one loop runs at a time when calls
    of [start] do not overlap, and what the tests before the stores miss. *)
From S2P Require Import Prelude.

(** svc/controller-lm/src/cycle.rs:11-18 [CycleStatus] *)
Inductive CycleStatus := Stopped | Starting | Running | Stopping.

#[export] Instance CycleStatus_eq_dec : EqDecision CycleStatus.
Proof. solve_decision. Defined.

(** [CycleStatus as u8] *)
Definition status_u8 (s : CycleStatus) : Z :=
  match s with Stopped => 0 | Starting => 1 | Running => 255 | Stopping => 2 end.

(** svc/controller-lm/src/cycle.rs:21-28 [CycleStatus::from_u8] *)
Definition from_u8 (s : Z) : CycleStatus :=
  if (s =? 1)%Z then Starting
  else if (s =? 255)%Z then Running
  else if (s =? 2)%Z then Stopping
  else Stopped.

Lemma from_status_u8 s : from_u8 (status_u8 s) = s.
Proof. by destruct s. Qed.

(** Where a task is: before its next access to the status. *)
Inductive task :=
  | StartStore (* [start] has seen the status stopped *)
  | StopStore (* [stop] has seen a status other than stopped *)
  | RunEnter (* the loop is spawned *)
  | RunTest (* before the test of the loop *)
  | RunBody (* the macro runs *)
  | RunExit (* the loop has ended *).

#[export] Instance task_eq_dec : EqDecision task.
Proof. solve_decision. Defined.

Record Cycles := mkCycles { cy_status : CycleStatus; cy_tasks : list task }.

(** The tasks between the spawn of a loop and its end. *)
Definition is_loop (t : task) : bool :=
  match t with StartStore | StopStore => false | _ => true end.
Definition loops (c : Cycles) : nat := length (filter is_loop (cy_tasks c)).

(** A task at its access to the status: the status it leaves, and where the
    task is then (svc/controller-lm/src/cycle.rs:81-131) *)
Definition task_step (s : CycleStatus) (t : task) : CycleStatus * option task :=
  match t with
  | StartStore => (Starting, Some RunEnter)
  | StopStore => (Stopping, None)
  | RunEnter => (Running, Some RunTest)
  | RunTest => (s, Some (if decide (s = Running) then RunBody else RunExit))
  | RunBody => (s, Some RunTest)
  | RunExit => (Stopped, None)
  end.

(** svc/controller-lm/src/cycle.rs:139-152 [start] *)
Definition start_load (s : CycleStatus) : EResult task :=
  if decide (s = Stopped) then Ok StartStore else Err EBusy.

(** svc/controller-lm/src/cycle.rs:153-160 [stop] *)
Definition stop_load (s : CycleStatus) : option task :=
  if decide (s ≠ Stopped) then Some StopStore else None.

(** ** Interleavings *)

Inductive cycle_step : Cycles -> Cycles -> Prop :=
  | step_start c t :
      start_load (cy_status c) = Ok t ->
      cycle_step c (mkCycles (cy_status c) (t :: cy_tasks c))
  | step_stop c t :
      stop_load (cy_status c) = Some t ->
      cycle_step c (mkCycles (cy_status c) (t :: cy_tasks c))
  | step_task s l1 t l2 :
      cycle_step (mkCycles s (l1 ++ t :: l2))
        (mkCycles (task_step s t).1 (l1 ++ option_list (task_step s t).2 ++ l2)).

(** No call of [start] is between its load and its store when another one
    loads. *)
Inductive serial_step : Cycles -> Cycles -> Prop :=
  | serial c c' :
      cycle_step c c' -> (StartStore ∈ cy_tasks c -> cy_tasks c' ≠ StartStore :: cy_tasks c) ->
      serial_step c c'.

Definition idle : Cycles := mkCycles Stopped [].

(** Tasks that run a loop or are about to. *)
Definition is_live (t : task) : bool := match t with StopStore => false | _ => true end.
Definition live (c : Cycles) : nat := length (filter is_live (cy_tasks c)).

Lemma count_app (f : task -> bool) l1 l2 :
  length (filter f (l1 ++ l2)) = length (filter f l1) + length (filter f l2).
Proof. by rewrite filter_app, length_app. Qed.
Lemma count_cons (f : task -> bool) t l :
  length (filter f (t :: l)) = (if f t then 1 else 0) + length (filter f l).
Proof. rewrite filter_cons. by destruct (f t). Qed.
Lemma loops_le_live c : loops c <= live c.
Proof.
  unfold loops, live. induction (cy_tasks c) as [|t l IH]; [done|].
  rewrite !count_cons. destruct t; simpl; lia.
Qed.
Lemma live_no_start c : ~ StartStore ∈ cy_tasks c -> live c = loops c.
Proof.
  unfold loops, live. induction (cy_tasks c) as [|t l IH]; [done|]. intros Hn.
  rewrite !count_cons, IH by set_solver. destruct t; try done. set_solver.
Qed.

Record cycle_ok (c : Cycles) : Prop := mkCycleOk {
  ok_live : live c <= 1;
  ok_stopped : cy_status c = Stopped -> loops c = 0
}.

Lemma task_step_ok s l1 t l2 :
  cycle_ok (mkCycles s (l1 ++ t :: l2)) ->
  cycle_ok (mkCycles (task_step s t).1 (l1 ++ option_list (task_step s t).2 ++ l2)).
Proof.
  intros [Hl Hs]. unfold live, loops in *. simpl in *. rewrite !count_app, !count_cons in *.
  constructor; unfold live, loops; simpl;
    destruct t, s; simpl in *; rewrite ?count_app, ?count_cons; simpl;
    try (intros ?; try done); try (specialize (Hs eq_refl)); try lia.
  all: pose proof (loops_le_live (mkCycles Stopped (l1 ++ l2))) as Hle; unfold loops, live in Hle;
    simpl in Hle; rewrite !count_app in Hle; lia.
Qed.

Lemma serial_step_ok c c' : serial_step c c' -> cycle_ok c -> cycle_ok c'.
Proof.
  intros [c0 c1 [d t Ht|d t Ht|s l1 t l2] Hser] Hok; [| |by apply task_step_ok].
  - unfold start_load in Ht. destruct (decide _) as [Hs|]; [|done]. injection Ht as <-.
    assert (~ StartStore ∈ cy_tasks d) as Hn by (intros Hin; by apply Hser).
    pose proof (live_no_start d Hn) as Hl. pose proof (ok_stopped _ Hok Hs) as Hz.
    constructor; unfold live, loops in *; cbn [cy_tasks cy_status]; rewrite count_cons;
      simpl; [lia|done].
  - unfold stop_load in Ht. destruct (decide _) as [Hs|]; [|done]. injection Ht as <-.
    destruct Hok as [Hl _]. constructor; unfold live, loops in *; cbn [cy_tasks cy_status]; rewrite count_cons;
      simpl; [lia|done].
Qed.

Lemma serial_run_ok c c' : rtc serial_step c c' -> cycle_ok c -> cycle_ok c'.
Proof. induction 1; eauto using serial_step_ok. Qed.

(** When calls of [start] do not overlap, at most one loop of a cycle runs
    at any time, and none when the status is stopped, however calls of [stop]
    and the loop are interleaved. *)
Lemma cycle_one_loop c :
  rtc serial_step idle c -> loops c <= 1 ∧ (cy_status c = Stopped -> loops c = 0).
Proof.
  intros Hr. assert (cycle_ok c) as [Hl Hs].
  { apply (serial_run_ok _ _ Hr). constructor; [unfold live; simpl; lia|done]. }
  pose proof (loops_le_live c). split; [lia|done].
Qed.

(** ** Races *)

(** From here the cycle never runs again: the status is not stopped and
    nothing will store it. *)
Definition stuck (c : Cycles) : Prop :=
  cy_status c = Stopping ∧ Forall (fun t => t = StopStore) (cy_tasks c).

Lemma stuck_step c c' : cycle_step c c' -> stuck c -> stuck c'.
Proof.
  unfold stuck. intros [d t Ht|d t Ht|s l1 t l2] [Hs Hall]; simpl in *.
  - unfold start_load in Ht. by rewrite decide_False in Ht by (by rewrite Hs).
  - unfold stop_load in Ht. destruct (decide _); [|done]. injection Ht as <-.
    split; [done|by constructor].
  - apply Forall_app in Hall as [H1 H2]. inversion_clear H2 as [|? ? Ht Hl2]. subst t. simpl.
    split; [done|]. by apply Forall_app.
Qed.

(** A schedule: which call is made or which task goes on. *)
Inductive act := AStart | AStop | ATask (i : nat).

Definition sched_step (a : act) (c : Cycles) : option Cycles :=
  match a with
  | AStart =>
      match start_load (cy_status c) with
      | Ok t => Some (mkCycles (cy_status c) (t :: cy_tasks c))
      | Err _ => None
      end
  | AStop =>
      t ← stop_load (cy_status c); Some (mkCycles (cy_status c) (t :: cy_tasks c))
  | ATask i =>
      t ← cy_tasks c !! i;
      Some (mkCycles (task_step (cy_status c) t).1
              (take i (cy_tasks c) ++ option_list (task_step (cy_status c) t).2
                 ++ drop (S i) (cy_tasks c)))
  end.
Definition overlaps (a : act) (c : Cycles) : bool :=
  match a with AStart => bool_decide (StartStore ∈ cy_tasks c) | _ => false end.

Fixpoint sched (serial_only : bool) (l : list act) (c : Cycles) : option Cycles :=
  match l with
  | [] => Some c
  | a :: l' =>
      if serial_only && overlaps a c then None else c' ← sched_step a c; sched serial_only l' c'
  end.

Lemma sched_step_sound a c c' : sched_step a c = Some c' -> cycle_step c c'.
Proof.
  destruct a as [| |i]; simpl.
  - destruct (start_load _) eqn:E; [|done]. intros [= <-]. by constructor.
  - destruct (stop_load _) eqn:E; [|done]. intros [= <-]. by constructor.
  - destruct (cy_tasks c !! i) as [t|] eqn:E; [|done]. intros [= <-].
    destruct c as [s l]. simpl in *. rewrite <-(take_drop_middle l i t E) at 1.
    apply step_task.
Qed.

Lemma sched_step_serial a c c' :
  sched_step a c = Some c' -> overlaps a c = false -> serial_step c c'.
Proof.
  intros Hs Ho. constructor; [by eapply sched_step_sound|]. intros Hin Heq.
  destruct a as [| |i]; simpl in *.
  - by apply bool_decide_eq_false_1 in Ho.
  - destruct (stop_load (cy_status c)) as [t|] eqn:E; [|done]. simplify_eq/=.
    unfold stop_load in E. by destruct (decide _); simplify_eq.
  - destruct (cy_tasks c !! i) as [t|] eqn:E; [|done]. simplify_eq/=.
    apply (f_equal length) in Heq. rewrite !length_app, length_take, length_drop in Heq.
    apply lookup_lt_Some in E. destruct (task_step _ t) as [? []]; simpl in *; lia.
Qed.

Lemma sched_sound b l c c' : sched b l c = Some c' -> rtc cycle_step c c'.
Proof.
  revert c. induction l as [|a l IH]; intros c; simpl; [by intros [= <-]|].
  destruct (_ && _); [done|]. destruct (sched_step a c) as [d|] eqn:E; [|done]. intros Hl.
  eapply rtc_l; [by eapply sched_step_sound|by apply IH].
Qed.
Lemma sched_serial l c c' : sched true l c = Some c' -> rtc serial_step c c'.
Proof.
  revert c. induction l as [|a l IH]; intros c; simpl; [by intros [= <-]|].
  destruct (overlaps a c) eqn:Ho; [done|].
  destruct (sched_step a c) as [d|] eqn:E; [|done]. intros Hl.
  eapply rtc_l; [by eapply sched_step_serial|by apply IH].
Qed.

Lemma stuck_stays c c' : rtc cycle_step c c' -> stuck c -> stuck c'.
Proof. induction 1; [done|]. eauto using stuck_step. Qed.
Lemma stuck_no_loops c : stuck c -> loops c = 0 ∧ start_load (cy_status c) = Err EBusy.
Proof.
  intros [Hs Hall]. rewrite Hs. split; [|done]. unfold loops.
  induction Hall as [|t l -> _ IH]; [done|]. by rewrite count_cons.
Qed.

(** The status is tested and stored in two steps, so a call of [stop] that
    meets the end of the loop leaves the status at stopping, from where no
    call of [start] ever succeeds; a call of [stop] before the loop has
    stored its status is lost; and two calls of [start] that overlap run two
    loops. *)
Lemma cycle_races :
  (exists c, rtc serial_step idle c ∧
     forall c', rtc cycle_step c c' -> loops c' = 0 ∧ start_load (cy_status c') = Err EBusy) ∧
  (exists c, rtc serial_step idle c ∧ cy_tasks c = [StopStore; RunEnter] ∧
     rtc cycle_step c (mkCycles Running [RunTest])) ∧
  rtc cycle_step idle (mkCycles Running [RunTest; RunTest]).
Proof.
  split; [|split].
  - exists (mkCycles Stopping []). split.
    + by apply (sched_serial [AStart; ATask 0; ATask 0; AStop; ATask 0; AStop; ATask 1; ATask 1; ATask 0]).
    + intros c' Hr. apply stuck_no_loops, (stuck_stays _ _ Hr). by split.
  - exists (mkCycles Starting [StopStore; RunEnter]). split; [|split; [done|]].
    + by apply (sched_serial [AStart; ATask 0; AStop]).
    + by apply (sched_sound false [ATask 0; ATask 0]).
  - by apply (sched_sound false [AStart; AStart; ATask 0; ATask 1; ATask 0; ATask 1]).
Qed.

(** ** A run *)

Module LmCycleExamples.
Definition running : Cycles := mkCycles Running [RunBody].

Lemma running_reached : rtc serial_step idle running.
Proof. by apply (sched_serial [AStart; ATask 0; ATask 0; ATask 0]). Qed.

Lemma cycle_one_loop_example :
  loops running <= 1 ∧ (cy_status running = Stopped -> loops running = 0).
Proof. apply (cycle_one_loop running running_reached). Defined.
End LmCycleExamples.
