(* ===== verification/LmMain.v ===== *)
(** * The logic manager: states, parsers, jobs and calls

    [svc/controller-lm/src/main.rs], [parser.rs], [job.rs] and the macros of
    [common.rs].  A state event goes to the rules that are subscribed to its item,
    by priority, with the state the item had before, and to the parsers, which look
    up parts of its value and publish them as raw events of other items.

    [Lm] is the state: the states known before, the chill-outs of the rules, and the
    messages that are queued for publication.  The subscription map of the rules,
    JSON paths, transformations and encodings are those of other crates. *)
From stdpp Require Import sorting.
From S2P Require Import Prelude Duration EvaCommon ActMgr Seq Opener OpenerRun LmRule LmCycle.

(** ** The crates *)

Class LmMainExternals `{Ext : Externals, LExt : !LmExternals} := {
  (* does a subscription, a mask as a path, get the events of a path ([submap]) *)
  subscribes : string -> string -> bool;
  jp_lookup : Value -> string -> EResult (option Value);
  value_string : Value -> string;
  TransformTask : Type;
  transform : list TransformTask -> OID -> f64 -> EResult f64;
  pack_raw : RawStateEvent -> EResult (list Z);
  un_statex : list Z -> EResult StateX;
  (* the status and the value of each state *)
  un_states : list Z -> EResult (list (Z * option Value));
  RAW_STATE_TOPIC : string;
  (* the error and the exit code of a macro *)
  un_macro_result : list Z -> EResult (Value * option Z);
  val_str : string -> Value;
  val_i16 : Z -> Value;
  error_text : Error -> string
}.

Section lm.
Context `{Ext : Externals, NExt : !NodeExternals, LExt : !LmExternals, MExt : !LmMainExternals}.

(** ** Parsers (svc/controller-lm/src/parser.rs) *)

(** svc/controller-lm/src/parser.rs:53-63 [ParserMapEntry] *)
Record ParserMapEntry := mkMapEntry {
  pm_path : string;
  pm_target : OID;
  pm_value_map : gmap string Value;
  pm_transform : list TransformTask
}.
(** svc/controller-lm/src/parser.rs:45-51 [ParserItem] *)
Record ParserItem := mkParserItem { pi_oid : OID; pi_map : list ParserMapEntry }.
(** svc/controller-lm/src/parser.rs:65-69 [ParserGroupRun] *)
Record ParserGroup := mkParserGroup {
  pg_ignore_events : bool;
  pg_interval : option Duration;
  pg_items : list ParserItem
}.
(** svc/controller-lm/src/parser.rs:71-74 [ParserEngine] *)
Record ParserEngine := mkEngine { pe_groups : list ParserGroup; pe_index : gmap OID (list (nat * nat)) }.

Definition index_add (oid : OID) (slot : nat * nat) (index : gmap OID (list (nat * nat))) : gmap OID (list (nat * nat)) :=
  <[oid := default [] (index !! oid) ++ [slot]]> index.
Fixpoint index_items (gi ii : nat) (items : list ParserItem) (index : gmap OID (list (nat * nat)))
    : gmap OID (list (nat * nat)) :=
  match items with
  | [] => index
  | item :: items => index_items gi (S ii) items (index_add (pi_oid item) (gi, ii) index)
  end.
Fixpoint index_groups (gi : nat) (groups : list ParserGroup) (index : gmap OID (list (nat * nat)))
    : gmap OID (list (nat * nat)) :=
  match groups with
  | [] => index
  | g :: groups => index_groups (S gi) groups (index_items gi 0 (pg_items g) index)
  end.
(** svc/controller-lm/src/parser.rs:77-95 [ParserEngine::new] *)
Definition parser_engine_new (groups : list ParserGroup) : ParserEngine :=
  mkEngine groups (index_groups 0 groups ∅).

(** svc/controller-lm/src/parser.rs:98-113 [ParserEngine::event_subscription_masks]; a
    mask is that of one item *)
Definition event_subscription_masks (e : ParserEngine) : gset OID :=
  dom (filter (fun p => existsb (fun slot =>
    match pe_groups e !! slot.1 with Some g => negb (pg_ignore_events g) | None => false end) p.2 = true) (pe_index e)).

(** The value of an entry, if there is one (svc/controller-lm/src/parser.rs:217-241) *)
Definition entry_value (m : ParserMapEntry) (v : Value) : option Value :=
  match jp_lookup v (pm_path m) with
  | Ok (Some v) =>
      let v :=
        if decide (pm_value_map m = ∅) then v
        else match pm_value_map m !! value_string v with Some v_mapped => v_mapped | None => v end in
      match pm_transform m with
      | [] => Some v
      | _ :: _ =>
          match value_to_f64 v with
          | None => None
          | Some f => match transform (pm_transform m) (pm_target m) f with Ok n => Some (VF64 n) | Err _ => None end
          end
      end
  | _ => None
  end.
(** [RawStateEventOwned::new] *)
Definition raw_new (status : Z) (v : Value) : RawStateEvent := raw_of status (Some v) ForceNone None.
(** The message of an entry (svc/controller-lm/src/parser.rs:242-251) *)
Definition entry_message (m : ParserMapEntry) (state : StateX) : option (string * list Z) :=
  match entry_value m (sx_value state) with
  | Some v =>
      match pack_raw (raw_new (sx_status state) v) with
      | Ok payload => Some (RAW_STATE_TOPIC +:+ oid_as_path (pm_target m), payload)
      | Err _ => None
      end
  | None => None
  end.

(** ** Rules and states *)

(** A rule, with what [Rule] needs besides its decisions; the identifiers of rules are
    different
    (svc/controller-lm/src/rule.rs:60-90) *)
Record RuleConf := mkRuleConf {
  rc_id : string;
  rc_mask_path : string;
  rc_run : OID;
  rc_rule : Rule
}.
(** svc/controller-lm/src/rule.rs:160-163 [Rule::set_priority] *)
Definition set_priority (p : nat) (r : RuleConf) : RuleConf :=
  let u := rc_rule r in
  mkRuleConf (rc_id r) (rc_mask_path r) (rc_run r)
    (mkRule (r_prop u) (r_condition u) (r_initial u) (r_bit u) (r_brk u) (r_chillout_time u) p).

Record Lm := mkLm {
  lm_prev : gmap OID StateX;          (* PREV_STATES *)
  lm_worlds : list RuleWorld;         (* the chill-outs of the rules *)
  lm_tx : list (string * list Z);     (* RAW_PUB_TX, in order *)
  lm_n : nat                          (* calls of the core so far *)
}.
Definition set_prev (x : gmap OID StateX) (s : Lm) : Lm := mkLm x (lm_worlds s) (lm_tx s) (lm_n s).
Definition set_worlds (x : list RuleWorld) (s : Lm) : Lm := mkLm (lm_prev s) x (lm_tx s) (lm_n s).
Definition send_raw (m : string * list Z) (s : Lm) : Lm := mkLm (lm_prev s) (lm_worlds s) (lm_tx s ++ [m]) (lm_n s).
Definition set_lm_n (x : nat) (s : Lm) : Lm := mkLm (lm_prev s) (lm_worlds s) (lm_tx s) x.

(** The rules and parsers, how the parameters of the macro of a rule are encoded, and
    the answers of the core to [item.state]. *)
Record LmEnv := mkLmEnv {
  le_rules : list RuleConf;
  le_engine : ParserEngine;
  le_encode : RuleConf -> Source -> EResult unit;
  le_pull : nat -> OID -> EResult (list Z)
}.
Variable (e : LmEnv).
Abbreviation LM := (M Lm).
Implicit Types (s : Lm).

(** The rules get their priorities when the service starts
    (svc/controller-lm/src/main.rs:313-321) *)
Definition rules : list RuleConf := imap set_priority (le_rules e).
Definition lm_init : Lm := mkLm ∅ (const rule_world_new <$> rules) [] 0.

(** svc/controller-lm/src/parser.rs:208-257 [process_item_maps] *)
Definition process_item_maps (item : ParserItem) (state : StateX) : LM unit :=
  match pi_map item with
  | [] => mret tt
  | _ :: _ =>
      for_each (fun m => match entry_message m state with Some msg => modify (send_raw msg) | None => mret tt end)
        (pi_map item)
  end.
(** One slot of the index (svc/controller-lm/src/parser.rs:125-129) *)
Definition on_slot (state : StateX) (slot : nat * nat) : LM unit :=
  g ← lift (ok_or (pe_groups (le_engine e) !! slot.1) EPanic);
  if pg_ignore_events g then mret tt
  else
    item ← lift (ok_or (pg_items g !! slot.2) EPanic);
    process_item_maps item state.
(** svc/controller-lm/src/parser.rs:115-131 [ParserEngine::on_state_event] *)
Definition on_state_event (oid : OID) (state : StateX) : LM unit :=
  match pe_index (le_engine e) !! oid with
  | None => mret tt
  | Some slots => for_each (on_slot state) slots
  end.
(** svc/controller-lm/src/parser.rs:185-206 [pull_item_state] *)
Definition pull_item_state (oid : OID) : LM StateX :=
  s ← get;
  _ ← modify (set_lm_n (S (lm_n s)));
  data ← lift (le_pull e (lm_n s) oid);
  states ← lift (un_states data);
  '(status, value) ← lift (ok_or (head states) ENotFound);
  mret (mkStateX status (default value_default value) None).
(** svc/controller-lm/src/parser.rs:133-149 [ParserEngine::tick_group_interval] *)
Definition tick_group_interval (group_idx : nat) : LM unit :=
  match pe_groups (le_engine e) !! group_idx with
  | None => mret tt
  | Some g =>
      for_each (fun item =>
        r ← attempt (pull_item_state (pi_oid item));
        match r with Ok st => process_item_maps item st | Err _ => mret tt end) (pg_items g)
  end.

(** What a rule does changes its own chill-out. *)
Definition on_rule {A} (i : nat) (m : M RuleWorld A) : LM A := fun s =>
  match lm_worlds s !! i with
  | Some w => let '(r, w') := m w in (r, set_worlds (<[i := w']> (lm_worlds s)) s)
  | None => (Err EPanic, s)
  end.
(** [sort_by_key(|a| a.priority)] *)
Definition by_priority (a b : nat * RuleConf) : Prop := r_priority (rc_rule a.2) <= r_priority (rc_rule b.2).
#[export] Instance by_priority_dec a b : Decision (by_priority a b).
Proof. unfold by_priority. apply _. Defined.
Definition subscribers (path : string) : list (nat * RuleConf) :=
  filter (fun r => subscribes (rc_mask_path r.2) path = true) (imap pair rules).
(** svc/controller-lm/src/main.rs:245-277 [process_state] *)
Definition process_state (path : string) (payload : list Z) (now : Z) : LM unit :=
  match oid_from_path path with
  | Ok oid =>
      match un_statex payload with
      | Ok state =>
          let rs := merge_sort by_priority (subscribers path) in
          s ← get;
          let prev := lm_prev s !! oid in
          _ ← process_rules ((fun r => on_rule r.1 (rule_process (le_encode e r.2) (rc_rule r.2) oid state prev now)) <$> rs);
          _ ← on_state_event oid state;
          modify (fun s => set_prev (<[oid := state]> (lm_prev s)) s)
      | Err _ => mret tt
      end
  | Err _ => mret tt
  end.

(** ** Macros (svc/controller-lm/src/common.rs) *)

(** What comes of a call: it is answered, refused with a code, or not in time. *)
Inductive RpcOutcome := RpcReply (payload : list Z) | RpcFailed (code : Z) | RpcTimeout.
Definition MacroErr : Type := string * option Value.
(** svc/controller-lm/src/common.rs:52-82 [safe_run_macro]; [call] is what comes of
    the call of [run] *)
Definition safe_run_macro (params : EResult (list Z)) (call : list Z -> RpcOutcome) : MacroErr + unit :=
  match params with
  | Err e => inl (error_text e, None)
  | Ok payload =>
      match call payload with
      | RpcReply b =>
          match un_macro_result b with
          | Err e => inl (error_text e, None)
          | Ok (err, exitcode) =>
              match exitcode with
              | Some code => if (code =? 0)%Z then inr tt else inl ("lmacro"%string, Some err)
              | None => inl ("lmacro"%string, Some (val_str "timeout"))
              end
          end
      | RpcTimeout => inl ("lmacro"%string, Some (val_str "timeout"))
      | RpcFailed code => inl ("exec"%string, Some (val_i16 code))
      end
  end.
(** svc/controller-lm/src/common.rs:84-114 [run_err_macro]; [call] is what comes of the
    call for the arguments *)
Definition run_err_macro (call : list Value -> EResult (list Z)) (err : MacroErr) : EResult unit :=
  let args := [val_str err.1; default value_default err.2] in
  b ← call args;
  '(_, exitcode) ← un_macro_result b;
  match exitcode with
  | Some code => if (code =? 0)%Z then Ok tt else Err EFailed
  | None => Err ETimeout
  end.

(** ** Jobs (svc/controller-lm/src/job.rs) *)

(** The clock, the time of the next launch, and the times that were launched, with
    the clock at that moment. *)
Record JobSt := mkJobSt { js_clock : Z; js_next : option Z; js_runs : list (Z * Z) }.
(** How much too long the [n]-th sleep takes, how long its macro, and whether the
    service terminates then. *)
Record JobEnv := mkJobEnv { je_late : nat -> Z; je_macro : nat -> Z; je_terminating : nat -> bool }.
(** svc/controller-lm/src/job.rs:45-73 [Job::scheduler] for the times that come up;
    [n] launches were made before *)
Fixpoint scheduler (j : JobEnv) (n : nat) (upcoming : list Z) (s : JobSt) : JobSt :=
  match upcoming with
  | [] => s
  | next_launch :: upcoming =>
      if (js_clock s <? next_launch)%Z then
        let woken := (next_launch + je_late j n)%Z in
        if je_terminating j n then mkJobSt woken (Some next_launch) (js_runs s)
        else
          scheduler j (S n) upcoming
            (mkJobSt (woken + je_macro j n) (Some next_launch) (js_runs s ++ [(next_launch, woken)]))
      else scheduler j n upcoming s
  end.
(** The task of a job (svc/controller-lm/src/main.rs:421-424) *)
Definition job_task (j : JobEnv) (upcoming : list Z) (s : JobSt) : JobSt :=
  let s := scheduler j 0 upcoming s in mkJobSt (js_clock s) None (js_runs s).

(** ** Cycles: one turn of the loop *)

(** The counters of a cycle (svc/controller-lm/src/cycle.rs:59-64); they wrap around. *)
Record Counters := mkCounters { cn_ok : Z; cn_timed_out : Z; cn_err : Z }.
Definition fetch_add (n : Z) : Z := wrap 64 (n + 1).
(** One turn (svc/controller-lm/src/cycle.rs:100-126): the time of the tick, that of the
    one before, and what comes of the macro; returns the errors that the macro for
    errors is run with, if there is one *)
Definition cycle_turn (interval : Duration) (t : Z) (last_ticked : option Z) (res : MacroErr + unit) (c : Counters)
    : list MacroErr * Counters :=
  let late := match last_ticked with Some prev => (interval <? t - prev)%Z | None => false end in
  let c := if late then mkCounters (cn_ok c) (fetch_add (cn_timed_out c)) (cn_err c) else c in
  let e1 := if late then [("cycle"%string, Some (val_str "timeout"))] else [] in
  match res with
  | inl err => (e1 ++ [err], mkCounters (cn_ok c) (cn_timed_out c) (fetch_add (cn_err c)))
  | inr _ => (e1, mkCounters (fetch_add (cn_ok c)) (cn_timed_out c) (cn_err c))
  end.
(** svc/controller-lm/src/cycle.rs:132-136 [Cycle::reset] *)
Definition cycle_reset (c : Counters) : Counters := mkCounters 0 0 0.
End lm.

(** ** Calls *)

(** The table of pending actions ([eva_sdk::controller::actt]), and the decoders of
    the parameters. *)
Class LmCallExternals `{Ext : Externals} (Uuid : Type) := {
  Actt : Type;
  actt_append : OID -> Uuid -> Actt -> EResult Actt;
  actt_remove : OID -> Uuid -> Actt -> EResult Actt;
  actt_mark_terminated : Uuid -> Actt -> EResult Actt;
  actt_mark_killed : OID -> Actt -> EResult Actt;
  un_id : list Z -> EResult string;
  un_action : list Z -> EResult (OID * Uuid);
  un_uuid : list Z -> EResult Uuid;
  un_oid : list Z -> EResult OID;
  action_topic : OID -> string
}.

Section calls.
Context `{Ext : Externals, NExt : !NodeExternals, LExt : !LmExternals, MExt : !LmMainExternals}.
Context {Uuid : Type} `{Countable Uuid} `{CExt : !LmCallExternals Uuid}.

(** svc/controller-lm/src/rule.rs:43-55 [Info] *)
Record RuleInfo := mkRuleInfo {
  ri_id : string;
  ri_run : OID;
  ri_chillout_time : option Duration;
  ri_chillout_remaining : option Duration;
  ri_chillout_event_pending : bool;
  ri_priority : nat
}.
(** svc/controller-lm/src/rule.rs:164-190 [Rule::info] *)
Definition rule_info (now : Z) (r : RuleConf) (w : RuleWorld) : RuleInfo :=
  let '(remaining, pending) :=
    match r_chillout_time (rc_rule r) with
    | Some t =>
        match ch_active (rw_chillout w) with
        | Some a =>
            let elapsed := (now - a)%Z in
            (Some (if (elapsed <? t)%Z then (t - elapsed)%Z else 0%Z),
             match ch_event (rw_chillout w) with Some _ => true | None => false end)
        | None => (None, false)
        end
    | None => (None, false)
    end in
  mkRuleInfo (rc_id r) (rc_run r) (r_chillout_time (rc_rule r)) remaining pending (r_priority (rc_rule r)).

(** The state of the service as calls see it: rules, jobs, cycles with their counters,
    the pending actions, the queue of each opener, and the openers that run. *)
Record LmSvc := mkLmSvc {
  ls_lm : Lm;
  ls_jobs : gmap string (OID * JobSt);
  ls_cycles : gmap string (Cycles * Counters);
  ls_actt : Actt;
  ls_queues : gmap OID (list Uuid);
  ls_active : ActiveOpeners (Uuid := Uuid);
  ls_terminated : list Uuid          (* the sequences that were terminated, the latest first *)
}.
Record LmSvcEnv := mkLmSvcEnv {
  sv_env : LmEnv;
  sv_now : Z;
  sv_queue_open : OID -> bool;       (* the task of the opener runs *)
  sv_tx_open : bool;                 (* the task that publishes runs *)
  sv_event_pending : OID -> Uuid -> EResult (list Z);
  sv_seq_terminate : Uuid -> EResult unit
}.
Variable (v : LmSvcEnv).
Abbreviation SV := (M LmSvc).
Inductive LmReply :=
  | LrNone
  | LrRules (l : list RuleInfo)
  | LrRule (r : RuleInfo)
  | LrJobs (l : list (string * OID * option Z))
  | LrJob (j : string * OID * option Z)
  | LrCycles (l : list (string * CycleStatus * Counters))
  | LrCycle (c : string * CycleStatus * Counters).

Definition set_lm (x : Lm) (s : LmSvc) : LmSvc :=
  mkLmSvc x (ls_jobs s) (ls_cycles s) (ls_actt s) (ls_queues s) (ls_active s) (ls_terminated s).
Definition set_cycle (id : string) (x : Cycles * Counters) (s : LmSvc) : LmSvc :=
  mkLmSvc (ls_lm s) (ls_jobs s) (<[id := x]> (ls_cycles s)) (ls_actt s) (ls_queues s) (ls_active s) (ls_terminated s).
Definition set_actt (x : Actt) (s : LmSvc) : LmSvc :=
  mkLmSvc (ls_lm s) (ls_jobs s) (ls_cycles s) x (ls_queues s) (ls_active s) (ls_terminated s).
Definition set_queue (oid : OID) (x : list Uuid) (s : LmSvc) : LmSvc :=
  mkLmSvc (ls_lm s) (ls_jobs s) (ls_cycles s) (ls_actt s) (<[oid := x]> (ls_queues s)) (ls_active s) (ls_terminated s).
Definition add_terminated (u : Uuid) (s : LmSvc) : LmSvc :=
  mkLmSvc (ls_lm s) (ls_jobs s) (ls_cycles s) (ls_actt s) (ls_queues s) (ls_active s) (u :: ls_terminated s).

Definition on_actt (f : Actt -> EResult Actt) : SV unit :=
  s ← get; a ← lift (f (ls_actt s)); modify (set_actt a).
(** svc/controller-lm/src/opener.rs:416-429 [terminate_seq] *)
Definition terminate_seq (u : Uuid) : SV unit :=
  _ ← modify (add_terminated u); lift (sv_seq_terminate v u).
Definition rule_infos (s : LmSvc) : list RuleInfo :=
  zip_with (rule_info (sv_now v)) (rules (sv_env v)) (lm_worlds (ls_lm s)).
Definition prio_le (a b : RuleInfo) : Prop := ri_priority a <= ri_priority b.
#[local] Instance prio_le_dec a b : Decision (prio_le a b).
Proof. unfold prio_le. apply _. Defined.
Definition id_le {A} (f : A -> string) (a b : A) : Prop := String.le (f a) (f b).
#[local] Instance id_le_dec {A} (f : A -> string) a b : Decision (id_le f a b).
Proof. unfold id_le. apply _. Defined.

Definition no_params {A} (payload : list Z) (m : SV A) : SV A :=
  match payload with [] => m | _ :: _ => raise EInvalidParams end.
Definition with_params {A} (payload : list Z) (m : SV A) : SV A :=
  match payload with [] => raise EInvalidParams | _ :: _ => m end.
Definition with_cycle {A} (payload : list Z) (f : string -> Cycles -> Counters -> SV A) : SV A :=
  with_params payload (
    id ← lift (un_id payload);
    s ← get;
    '(c, n) ← lift (ok_or (ls_cycles s !! id) ENotFound);
    f id c n).
(** [action] (svc/controller-lm/src/main.rs:171-200) *)
Definition call_action (payload : list Z) : SV LmReply :=
  with_params payload (
    '(oid, u) ← lift (un_action payload);
    pending ← lift (sv_event_pending v oid u);
    s ← get;
    match ls_queues s !! oid with
    | Some q =>
        _ ← on_actt (actt_append oid u);
        if negb (sv_queue_open v oid) then _ ← on_actt (actt_remove oid u); raise ECore
        else
          _ ← modify (set_queue oid (q ++ [u]));
          if negb (sv_tx_open v) then _ ← on_actt (actt_remove oid u); raise EIo
          else
            _ ← modify (fun s => set_lm (send_raw (action_topic oid, pending) (ls_lm s)) s);
            mret LrNone
    | None => raise ENotFound
    end).
(** [terminate] (svc/controller-lm/src/main.rs:201-211) *)
Definition call_terminate (payload : list Z) : SV LmReply :=
  with_params payload (
    u ← lift (un_uuid payload);
    r ← attempt (on_actt (actt_mark_terminated u));
    match r with
    | Ok _ => mret LrNone
    | Err _ =>
        s ← get;
        q ← lift (opener_terminate u (ls_active s));
        _ ← terminate_seq q;
        mret LrNone
    end).
(** [kill] (svc/controller-lm/src/main.rs:212-225) *)
Definition call_kill (payload : list Z) : SV LmReply :=
  with_params payload (
    oid ← lift (un_oid payload);
    _ ← log_ef (on_actt (actt_mark_killed oid));
    s ← get;
    r ← attempt (q ← lift (opener_kill oid (ls_active s)); terminate_seq q);
    match r with
    | Ok _ | Err ENotFound => mret LrNone
    | Err err => raise err
    end).
(** svc/controller-lm/src/main.rs:61-228 [handle_call], once the service is ready; the methods
    all services have are those of the SDK *)
Definition lm_handle_call (method : string) (payload : list Z) : SV LmReply :=
  if String.eqb method "rule.list" then
    no_params payload (s ← get; mret (LrRules (merge_sort prio_le (rule_infos s))))
  else if String.eqb method "rule.get" then
    with_params payload (
      id ← lift (un_id payload);
      s ← get;
      r ← lift (ok_or (List.find (fun r => String.eqb (ri_id r) id) (rule_infos s)) ENotFound);
      mret (LrRule r))
  else if String.eqb method "job.list" then
    no_params payload (
      s ← get;
      mret (LrJobs (merge_sort (id_le (fun j : string * OID * option Z => j.1.1))
        ((fun p => (p.1, p.2.1, js_next p.2.2)) <$> map_to_list (ls_jobs s)))))
  else if String.eqb method "job.get" then
    with_params payload (
      id ← lift (un_id payload);
      s ← get;
      '(run, j) ← lift (ok_or (ls_jobs s !! id) ENotFound);
      mret (LrJob (id, run, js_next j)))
  else if String.eqb method "cycle.list" then
    no_params payload (
      s ← get;
      mret (LrCycles (merge_sort (id_le (fun c : string * CycleStatus * Counters => c.1.1))
        ((fun p => (p.1, cy_status p.2.1, p.2.2)) <$> map_to_list (ls_cycles s)))))
  else if String.eqb method "cycle.get" then
    with_cycle payload (fun id c n => mret (LrCycle (id, cy_status c, n)))
  else if String.eqb method "cycle.start" then
    with_cycle payload (fun id c n =>
      t ← lift (start_load (cy_status c));
      _ ← modify (set_cycle id (mkCycles (cy_status c) (t :: cy_tasks c), n));
      mret LrNone)
  else if String.eqb method "cycle.stop" then
    with_cycle payload (fun id c n =>
      _ ← match stop_load (cy_status c) with
          | Some t => modify (set_cycle id (mkCycles (cy_status c) (t :: cy_tasks c), n))
          | None => mret tt
          end;
      mret LrNone)
  else if String.eqb method "cycle.reset" then
    with_cycle payload (fun id c n => _ ← modify (set_cycle id (c, cycle_reset n)); mret LrNone)
  else if String.eqb method "action" then call_action payload
  else if String.eqb method "terminate" then call_terminate payload
  else if String.eqb method "kill" then call_kill payload
  else raise EMethodNotFound.
End calls.
