(* ===== verification/LmSpec.v ===== *)
(** * The logic manager: properties

    The service as a whole does what each rule and each parser does on its own: a
    rule gets the events of the items it is subscribed to, with the state the item
    had before, unless a rule of a higher priority keeps them from it; and a parser
    publishes for each event what its entries say. *)
From stdpp Require Import sorting.
From S2P Require Import Prelude Duration EvaCommon LmRule LmMain.

Section spec.
Context `{Ext : Externals, NExt : !NodeExternals, LExt : !LmExternals, MExt : !LmMainExternals}.
Variable (e : LmEnv).
Implicit Types (s : Lm) (ws : list RuleWorld).

(** ** Runs *)

Inductive LmOp :=
  | LoState (path : string) (payload : list Z) (now : Z)
  | LoTimer (rule : nat)
  | LoTick (group : nat).
(** The timer of a rule fires. *)
Definition fire_timer (i : nat) s : Lm :=
  match rules e !! i with
  | Some r => set_worlds (alter (rule_exec (le_encode e r) (rc_rule r) RTimer) i (lm_worlds s)) s
  | None => s
  end.
Definition lm_step s (op : LmOp) : Lm :=
  match op with
  | LoState path payload now => (process_state e path payload now s).2
  | LoTimer i => fire_timer i s
  | LoTick gi => (tick_group_interval e gi s).2
  end.
Definition lm_run (ops : list LmOp) : Lm := foldl lm_step (lm_init e) ops.

(** ** What is expected *)

Definition event_of (path : string) (payload : list Z) : option (OID * StateX) :=
  match oid_from_path path, un_statex payload with Ok oid, Ok state => Some (oid, state) | _, _ => None end.
(** The states of the items after an operation. *)
Definition states_after (prev : gmap OID StateX) (op : LmOp) : gmap OID StateX :=
  match op with
  | LoState path payload _ =>
      match event_of path payload with Some (oid, state) => <[oid := state]> prev | None => prev end
  | _ => prev
  end.
(** An event is offered to a rule that is subscribed to its item, unless a rule before
    it fires and breaks. *)
Definition offered (j : nat) (path : string) (state : StateX) (prev : option StateX) : bool :=
  match rules e !! j with
  | Some r =>
      subscribes (rc_mask_path r) path &&
      forallb (fun r' => negb (subscribes (rc_mask_path r') path && r_brk (rc_rule r') && fires (rc_rule r') state prev))
        (take j (rules e))
  | None => false
  end.
Definition rule_op_of (j : nat) (prev : gmap OID StateX) (op : LmOp) : list rule_op :=
  match op with
  | LoState path payload now =>
      match event_of path payload with
      | Some (oid, state) => if offered j path state (prev !! oid) then [REvent oid state (prev !! oid) now] else []
      | None => []
      end
  | LoTimer i => if decide (i = j) then [RTimer] else []
  | LoTick _ => []
  end.
Fixpoint rule_ops (j : nat) (prev : gmap OID StateX) (ops : list LmOp) : list rule_op :=
  match ops with
  | [] => []
  | op :: ops => rule_op_of j prev op ++ rule_ops j (states_after prev op) ops
  end.

Definition item_messages (state : StateX) (item : ParserItem) : list (string * list Z) :=
  omap (fun m => entry_message m state) (pi_map item).
(** What the parsers publish for a state: all entries of all items with that OID, group
    by group, but for the groups that ignore events. *)
Definition event_messages (oid : OID) (state : StateX) : list (string * list Z) :=
  g ← pe_groups (le_engine e);
  if pg_ignore_events g then [] else
    item ← pg_items g; if decide (pi_oid item = oid) then item_messages state item else [].
(** What the core answers to the [n]-th call. *)
Definition pulled (n : nat) (oid : OID) : EResult StateX :=
  data ← le_pull e n oid;
  states ← un_states data;
  '(status, value) ← ok_or (head states) ENotFound;
  Ok (mkStateX status (default value_default value) None).
Fixpoint tick_messages (n : nat) (items : list ParserItem) : list (string * list Z) :=
  match items with
  | [] => []
  | item :: items =>
      match pulled n (pi_oid item) with Ok st => item_messages st item | Err _ => [] end ++ tick_messages (S n) items
  end.
Definition group_items (gi : nat) : list ParserItem :=
  match pe_groups (le_engine e) !! gi with Some g => pg_items g | None => [] end.
Fixpoint messages (n : nat) (ops : list LmOp) : list (string * list Z) :=
  match ops with
  | [] => []
  | LoState path payload _ :: ops =>
      match event_of path payload with Some (oid, state) => event_messages oid state | None => [] end ++ messages n ops
  | LoTimer _ :: ops => messages n ops
  | LoTick gi :: ops => tick_messages n (group_items gi) ++ messages (n + length (group_items gi)) ops
  end.

(** ** Parsers *)

Lemma maps_run item state s :
  process_item_maps item state s = (Ok tt, mkLm (lm_prev s) (lm_worlds s) (lm_tx s ++ item_messages state item) (lm_n s)).
Proof.
  unfold process_item_maps, item_messages. destruct (pi_map item) as [|m l]; [by destruct s; rewrite app_nil_r|].
  generalize (m :: l). clear m l. intros l. revert s. induction l as [|m l IH]; intros s; simpl; [by destruct s; rewrite app_nil_r|].
  rewrite run_bind. destruct (entry_message m state) as [msg|]; simpl; rewrite IH; simpl; [|done].
  by rewrite <-app_assoc.
Qed.
(** The slots of an item in the index are its places in the groups. *)
Fixpoint item_slots (gi : nat) (oid : OID) (ii : nat) (items : list ParserItem) : list (nat * nat) :=
  match items with
  | [] => []
  | item :: items => (if decide (pi_oid item = oid) then [(gi, ii)] else []) ++ item_slots gi oid (S ii) items
  end.
Fixpoint group_slots (gi : nat) (oid : OID) (groups : list ParserGroup) : list (nat * nat) :=
  match groups with
  | [] => []
  | g :: groups => item_slots gi oid 0 (pg_items g) ++ group_slots (S gi) oid groups
  end.
Lemma index_items_lookup gi oid items : forall ii index,
  default [] (index_items gi ii items index !! oid) = default [] (index !! oid) ++ item_slots gi oid ii items.
Proof.
  induction items as [|item items IH]; intros ii index; simpl; [by rewrite app_nil_r|].
  rewrite IH. unfold index_add. rewrite lookup_insert. case_decide; simpl; [subst; by rewrite <-app_assoc|done].
Qed.
Lemma index_groups_lookup oid groups : forall gi index,
  default [] (index_groups gi groups index !! oid) = default [] (index !! oid) ++ group_slots gi oid groups.
Proof.
  induction groups as [|g groups IH]; intros gi index; simpl; [by rewrite app_nil_r|].
  by rewrite IH, index_items_lookup, app_assoc.
Qed.

Hypothesis (engine_new : le_engine e = parser_engine_new (pe_groups (le_engine e))).
Definition add_messages (l : list (string * list Z)) s : Lm := mkLm (lm_prev s) (lm_worlds s) (lm_tx s ++ l) (lm_n s).
Lemma add_messages_nil s : add_messages [] s = s.
Proof. unfold add_messages. rewrite app_nil_r. by destruct s. Qed.
Lemma add_messages_app l l' s : add_messages l' (add_messages l s) = add_messages (l ++ l') s.
Proof. unfold add_messages. simpl. by rewrite app_assoc. Qed.
Abbreviation groups := (pe_groups (le_engine e)).
Definition slot_messages (state : StateX) (slot : nat * nat) : list (string * list Z) :=
  match groups !! slot.1 with
  | Some g =>
      if pg_ignore_events g then []
      else match pg_items g !! slot.2 with Some item => item_messages state item | None => [] end
  | None => []
  end.
Definition slot_ok (slot : nat * nat) : Prop :=
  exists g item, groups !! slot.1 = Some g /\ pg_items g !! slot.2 = Some item.
Lemma slots_run state slots s :
  Forall slot_ok slots -> for_each (on_slot e state) slots s = (Ok tt, add_messages (slots ≫= slot_messages state) s).
Proof.
  intros Hs. revert s. induction Hs as [|[gi ii] slots (g & item & Hg & Hi) _ IH]; intros s; simpl.
  { by rewrite add_messages_nil. }
  rewrite run_bind. unfold on_slot at 1. rewrite run_bind. simpl in *. rewrite Hg. simpl.
  unfold slot_messages at 1. simpl. rewrite Hg, Hi. destruct (pg_ignore_events g); simpl.
  - apply IH.
  - rewrite run_bind. simpl. rewrite maps_run. rewrite IH. f_equal. apply add_messages_app.
Qed.
Lemma item_slots_spec gi g oid state items : forall ii,
  groups !! gi = Some g -> drop ii (pg_items g) = items ->
  Forall slot_ok (item_slots gi oid ii items) /\
  item_slots gi oid ii items ≫= slot_messages state =
    if pg_ignore_events g then []
    else item ← items; if decide (pi_oid item = oid) then item_messages state item else [].
Proof.
  induction items as [|item items IH]; intros ii Hg Hd; cbn [item_slots]; [by destruct (pg_ignore_events g)|].
  assert (pg_items g !! ii = Some item) as Hi by (by rewrite <-(Nat.add_0_r ii), <-lookup_drop, Hd).
  assert (drop (S ii) (pg_items g) = items) as Hd' by (by rewrite <-Nat.add_1_r, <-drop_drop, Hd).
  destruct (IH (S ii) Hg Hd') as [Hok He].
  rewrite bind_app, He. split; [apply Forall_app; split; [|done]; case_decide; [|done]; apply Forall_singleton; by exists g, item|].
  rewrite bind_cons. case_decide; [|by destruct (pg_ignore_events g)]. rewrite bind_cons. unfold slot_messages at 1. simpl.
  rewrite Hg, Hi. by destruct (pg_ignore_events g); rewrite ?app_nil_r.
Qed.
Lemma group_slots_spec oid state gs : forall gi,
  drop gi groups = gs ->
  Forall slot_ok (group_slots gi oid gs) /\
  group_slots gi oid gs ≫= slot_messages state =
    g ← gs; if pg_ignore_events g then [] else
      item ← pg_items g; if decide (pi_oid item = oid) then item_messages state item else [].
Proof.
  induction gs as [|g gs IH]; intros gi Hd; cbn [group_slots]; [done|].
  assert (groups !! gi = Some g) as Hg by (by rewrite <-(Nat.add_0_r gi), <-lookup_drop, Hd).
  assert (drop (S gi) groups = gs) as Hd' by (by rewrite <-Nat.add_1_r, <-drop_drop, Hd).
  destruct (IH (S gi) Hd') as [Hok He]. destruct (item_slots_spec gi g oid state (pg_items g) 0 Hg eq_refl) as [Hok0 He0].
  split; [by apply Forall_app|]. by rewrite bind_app, He0, He, bind_cons.
Qed.
(** The index gives what a search through all groups would. *)
Lemma on_state_event_run oid state s : on_state_event e oid state s = (Ok tt, add_messages (event_messages oid state) s).
Proof.
  assert (on_state_event e oid state s = for_each (on_slot e state) (group_slots 0 oid groups) s) as ->.
  { unfold on_state_event. pose proof (index_groups_lookup oid groups 0 ∅) as Hi.
    rewrite lookup_empty in Hi. simpl in Hi. rewrite <-Hi.
    assert (pe_index (le_engine e) = index_groups 0 groups ∅) as -> by (by rewrite engine_new at 1).
    by destruct (index_groups 0 groups ∅ !! oid). }
  destruct (group_slots_spec oid state groups 0 eq_refl) as [Hok He]. by rewrite slots_run, He.
Qed.
Lemma tick_run items : forall s,
  for_each (fun item => r ← attempt (pull_item_state e (pi_oid item));
    match r with Ok st => process_item_maps item st | Err _ => mret tt end) items s =
  (Ok tt, set_lm_n (lm_n s + length items) (add_messages (tick_messages (lm_n s) items) s)).
Proof.
  induction items as [|item items IH]; intros s; cbn [for_each tick_messages].
  { rewrite add_messages_nil, Nat.add_0_r. by destruct s. }
  assert (pull_item_state e (pi_oid item) s = (pulled (lm_n s) (pi_oid item), set_lm_n (S (lm_n s)) s)) as Hp.
  { unfold pull_item_state, pulled. unfold_m. simpl. destruct (le_pull e (lm_n s) (pi_oid item)) as [d|]; [|done]. simpl.
    destruct (un_states d) as [l|]; [|done]. simpl. by destruct (head l) as [[st v]|]. }
  rewrite run_bind, run_bind. unfold attempt at 1. rewrite Hp.
  destruct (pulled (lm_n s) (pi_oid item)) as [st|]; [rewrite maps_run|rewrite run_ret]; rewrite IH; f_equal; unfold add_messages; simpl.
  - rewrite <-app_assoc. unfold set_lm_n. simpl. f_equal. lia.
  - unfold set_lm_n. simpl. f_equal. lia.
Qed.

(** ** Rules *)

Hypothesis (encodes : forall r src, le_encode e r src = Ok tt).
Section event.
Variables (oid : OID) (state : StateX) (prev : option StateX) (now : Z).
Abbreviation event := (REvent oid state prev now).
Definition rule_body (r : nat * RuleConf) : M Lm bool :=
  on_rule r.1 (rule_process (le_encode e r.2) (rc_rule r.2) oid state prev now).
Definition exec_rule (r : RuleConf) (w : RuleWorld) : RuleWorld := rule_exec (le_encode e r) (rc_rule r) event w.
Definition breaks (r : RuleConf) : bool := r_brk (rc_rule r) && fires (rc_rule r) state prev.
Lemma rule_process_result r w :
  rule_process (le_encode e r) (rc_rule r) oid state prev now w = (Ok (negb (breaks r)), exec_rule r w).
Proof.
  unfold exec_rule, breaks. cbn [rule_exec]. unfold rule_process, fires.
  destruct (need_process _ _ _ && rule_matches _ _); [|by rewrite andb_false_r]. rewrite andb_true_r.
  destruct (r_chillout_time (rc_rule r)), w as [[[]] ]; unfold set_chillout, launch, start_timer; unfold_m; simpl; rewrite ?encodes; done.
Qed.
Fixpoint step_rules (rs : list (nat * RuleConf)) ws : list RuleWorld :=
  match rs with
  | [] => ws
  | r :: rs =>
      let ws := alter (exec_rule r.2) r.1 ws in
      if breaks r.2 then ws else step_rules rs ws
  end.
Lemma process_rules_run rs : forall s,
  Forall (fun r => r.1 < length (lm_worlds s)) rs ->
  process_rules (rule_body <$> rs) s = (Ok tt, set_worlds (step_rules rs (lm_worlds s)) s).
Proof.
  induction rs as [|[i r] rs IH]; intros s Hl; [by destruct s|]. apply Forall_cons in Hl as [Hi Hl]. simpl in Hi.
  destruct (lookup_lt_is_Some_2 _ _ Hi) as [w Hw].
  cbn [fmap list_fmap process_rules step_rules]. rewrite run_bind. unfold attempt, rule_body at 1, on_rule. cbn [fst snd].
  rewrite Hw, rule_process_result. set (s1 := set_worlds _ s).
  assert (s1 = set_worlds (alter (exec_rule r) i (lm_worlds s)) s) as Es.
  { unfold s1. f_equal. rewrite list_insert_alter. by apply list_eq; intros k; rewrite !list_lookup_alter; case_decide; [subst; rewrite Hw|]. }
  destruct (breaks r); simpl; [by rewrite Es|]. rewrite IH, Es; [done|].
  rewrite Es. simpl. by rewrite length_alter.
Qed.
(** The rules that are reached before one breaks. *)
Fixpoint reached (rs : list (nat * RuleConf)) (j : nat) : bool :=
  match rs with
  | [] => false
  | r :: rs => bool_decide (r.1 = j) || negb (breaks r.2) && reached rs j
  end.
Lemma step_rules_lookup rs j r : forall ws,
  NoDup rs.*1 -> (forall i r', (i, r') ∈ rs -> i = j -> r' = r) ->
  step_rules rs ws !! j = (if reached rs j then exec_rule r else id) <$> ws !! j.
Proof.
  induction rs as [|[i r'] rs IH]; intros ws Hnd Hr; simpl; [by destruct (ws !! j)|].
  apply NoDup_cons in Hnd as [Hi Hnd]. assert (forall i r', (i, r') ∈ rs -> i = j -> r' = r) as Hr' by (intros; eapply Hr; [by right|done]).
  case_bool_decide as Ej; simpl.
  - subst i. rewrite (Hr j r' ltac:(left) eq_refl). destruct (breaks r); [by rewrite list_lookup_alter_eq|].
    rewrite IH, list_lookup_alter_eq by done. assert (reached rs j = false) as ->.
    { clear -Hi. induction rs as [|[k q] rs IH]; [done|]. simpl in *. rewrite bool_decide_false by set_solver. simpl.
      rewrite IH by set_solver. apply andb_false_r. }
    by destruct (ws !! j).
  - destruct (breaks r'); simpl; [by rewrite list_lookup_alter_ne; destruct (ws !! j)|].
    by rewrite IH, list_lookup_alter_ne.
Qed.

(** The rules with their numbers. *)
Fixpoint number {A} (k : nat) (l : list A) : list (nat * A) :=
  match l with [] => [] | x :: l => (k, x) :: number (S k) l end.
Lemma number_imap {A} (l : list A) : imap pair l = number 0 l.
Proof.
  assert (forall k, imap (fun i => pair (k + i)) l = number k l) as Hk; [|by rewrite <-(Hk 0)].
  induction l as [|x l IH]; intros k; [done|]. simpl. rewrite Nat.add_0_r, <-IH. f_equal. apply imap_ext. intros i y _.
  simpl. f_equal. lia.
Qed.
Lemma number_elem {A} (l : list A) k i x : (i, x) ∈ number k l <-> k <= i /\ l !! (i - k) = Some x.
Proof.
  revert k. induction l as [|y l IH]; intros k; cbn [number].
  - rewrite elem_of_nil, lookup_nil. naive_solver.
  - rewrite elem_of_cons, IH. destruct (decide (i = k)) as [->|Hne].
    + rewrite Nat.sub_diag. simpl. split; [intros [[= ->]|[? _]]; [done|lia]|]. intros [_ [= ->]]. by left.
    + split.
      * intros [[= -> ->]|[Hl Hx]]; [done|]. replace (i - k) with (S (i - S k)) by lia. split; [lia|done].
      * intros [Hl Hx]. right. replace (i - k) with (S (i - S k)) in Hx by lia. split; [lia|done].
Qed.
Abbreviation subs path := (fun r : nat * RuleConf => subscribes (rc_mask_path r.2) path = true).
Lemma reached_below path k l j : j < k -> reached (filter (subs path) (number k l)) j = false.
Proof.
  revert k. induction l as [|r l IH]; intros k Hj; [done|]. cbn [number]. rewrite filter_cons. simpl. case_decide; [|apply IH; lia].
  simpl. rewrite bool_decide_false by lia. simpl. rewrite IH by lia. apply andb_false_r.
Qed.
Lemma reached_number path l : forall k j,
  reached (filter (subs path) (number k l)) (k + j) =
  match l !! j with
  | Some r => subscribes (rc_mask_path r) path &&
      forallb (fun r' => negb (subscribes (rc_mask_path r') path && r_brk (rc_rule r') && fires (rc_rule r') state prev)) (take j l)
  | None => false
  end.
Proof.
  induction l as [|r l IH]; intros k j; [done|]. cbn [number]. rewrite filter_cons. simpl.
  destruct (decide (subscribes (rc_mask_path r) path = true)) as [Hs|Hs]; destruct j as [|j]; simpl.
  - rewrite bool_decide_true by lia. by rewrite Hs.
  - rewrite bool_decide_false by lia. replace (k + S j) with (S k + j) by lia. rewrite IH, Hs. simpl. unfold breaks.
    destruct (l !! j) as [r'|]; [|apply andb_false_r].
    destruct (subscribes (rc_mask_path r') path), (r_brk (rc_rule r) && fires (rc_rule r) state prev); done.
  - rewrite Nat.add_0_r, reached_below by lia. by apply not_true_is_false in Hs as ->.
  - replace (k + S j) with (S k + j) by lia. rewrite IH. destruct (l !! j); [|done].
    apply not_true_is_false in Hs as ->. done.
Qed.
End event.

Lemma rules_priority i r : rules e !! i = Some r -> r_priority (rc_rule r) = i.
Proof. unfold rules. rewrite list_lookup_imap. destruct (le_rules e !! i); [|done]. by intros [= <-]. Qed.
Lemma subscribers_elem path i r :
  (i, r) ∈ subscribers e path <-> rules e !! i = Some r /\ subscribes (rc_mask_path r) path = true.
Proof.
  unfold subscribers. rewrite list_elem_of_filter, number_imap, number_elem, Nat.sub_0_r. simpl. split; [naive_solver|].
  intros [? ?]. split_and!; [done|lia|done].
Qed.
Lemma number_sorted {A} (l : list A) k : StronglySorted (fun a b => a.1 < b.1) (number k l).
Proof.
  revert k. induction l as [|x l IH]; intros k; simpl; constructor; [apply IH|]. apply Forall_forall.
  intros [i y] Hy. apply number_elem in Hy as [Hi _]. simpl. lia.
Qed.
Lemma filter_sorted {A} (R : relation A) (P : A -> Prop) `{!forall x, Decision (P x)} l :
  StronglySorted R l -> StronglySorted R (filter P l).
Proof.
  induction 1 as [|x l Hs IH Hf]; [constructor|]. rewrite filter_cons. case_decide; [|done]. constructor; [done|].
  apply Forall_forall. intros y [_ Hy]%list_elem_of_filter. by eapply Forall_forall in Hf.
Qed.
Lemma subscribers_sorted path : StronglySorted (fun a b => a.1 < b.1) (subscribers e path).
Proof. unfold subscribers. rewrite number_imap. apply filter_sorted, number_sorted. Qed.
Lemma subscribers_nodup path : NoDup (subscribers e path).*1.
Proof.
  pose proof (subscribers_sorted path) as Hs. induction Hs as [|[i r] l Hs IH Hf]; simpl; constructor; [|done].
  intros ([j r'] & -> & Hj)%list_elem_of_fmap. eapply Forall_forall in Hf; [|exact Hj]. simpl in Hf. lia.
Qed.
#[local] Instance by_priority_trans : Transitive by_priority.
Proof. intros a b c. unfold by_priority. lia. Qed.
#[local] Instance by_priority_total : Total by_priority.
Proof. intros a b. unfold by_priority. lia. Qed.
Lemma sort_subscribers path : merge_sort by_priority (subscribers e path) = subscribers e path.
Proof.
  apply (StronglySorted_unique_strong by_priority).
  - intros [i r] [j r'] Hi Hj. rewrite merge_sort_Permutation in Hi. apply subscribers_elem in Hi as [Hi _], Hj as [Hj _].
    unfold by_priority. simpl. rewrite (rules_priority _ _ Hi), (rules_priority _ _ Hj). intros ? ?.
    assert (i = j) as -> by lia. congruence.
  - apply StronglySorted_merge_sort; apply _.
  - assert (Forall (fun p => r_priority (rc_rule p.2) = p.1) (subscribers e path)) as Hp.
    { apply Forall_forall. intros [i r] [Hi _]%subscribers_elem. by apply rules_priority. }
    pose proof (subscribers_sorted path) as Hs. induction Hs as [|a l Hs IH Hf]; [constructor|].
    apply Forall_cons in Hp as [Ha Hp]. constructor; [by apply IH|].
    apply Forall_forall. intros b Hb. eapply Forall_forall in Hf; [|exact Hb]. eapply Forall_forall in Hp; [|exact Hb].
    unfold by_priority. rewrite Ha, Hp. lia.
  - apply merge_sort_Permutation.
Qed.

(** ** The whole service *)

Lemma rule_run_snoc enc rule ops ops' :
  (rule_run enc rule (ops ++ ops')).1 = foldl (fun w op => rule_exec enc rule op w) (rule_run enc rule ops).1 ops'.
Proof.
  unfold rule_run. rewrite foldl_app. generalize (foldl (fun '(w, last) op => (rule_exec enc rule op w, last_fired rule op last))
    (rule_world_new, None) ops). induction ops' as [|op ops' IH]; intros [w l]; [done|]. simpl. apply IH.
Qed.
Lemma rule_ops_snoc j ops op : forall prev,
  rule_ops j prev (ops ++ [op]) = rule_ops j prev ops ++ rule_op_of j (foldl states_after prev ops) op.
Proof.
  induction ops as [|o ops IH]; intros prev; simpl; [apply app_nil_r|]. by rewrite IH, app_assoc.
Qed.
(** The calls of the core that are made. *)
Definition pulls (op : LmOp) : nat := match op with LoTick gi => length (group_items gi) | _ => 0 end.
Definition pulls_of (ops : list LmOp) : nat := list_sum (pulls <$> ops).
Lemma messages_snoc ops op : forall n,
  messages n (ops ++ [op]) = messages n ops ++ messages (n + pulls_of ops) [op].
Proof.
  unfold pulls_of. induction ops as [|o ops IH]; intros n; [by rewrite Nat.add_0_r|].
  destruct o; cbn [app messages]; rewrite IH, ?app_assoc; [done|done|].
  change (list_sum (pulls <$> LoTick group :: ops)) with (length (group_items group) + list_sum (pulls <$> ops)).
  by rewrite Nat.add_assoc.
Qed.
Lemma process_state_run path payload now s :
  length (lm_worlds s) = length (rules e) ->
  (process_state e path payload now s).2 =
  match event_of path payload with
  | Some (oid, state) =>
      mkLm (<[oid := state]> (lm_prev s)) (step_rules oid state (lm_prev s !! oid) now (subscribers e path) (lm_worlds s))
        (lm_tx s ++ event_messages oid state) (lm_n s)
  | None => s
  end.
Proof.
  intros Hl. unfold process_state, event_of. destruct (oid_from_path path) as [oid|]; [|done].
  destruct (un_statex payload) as [state|]; [|done]. rewrite run_bind. simpl. rewrite run_bind, sort_subscribers.
  pose proof (process_rules_run oid state (lm_prev s !! oid) now (subscribers e path) s) as Hr. unfold rule_body in Hr.
  rewrite Hr; [|apply Forall_forall; intros [i r] [Hi _]%subscribers_elem; simpl; rewrite Hl; by eapply lookup_lt_Some].
  rewrite run_bind, on_state_event_run. done.
Qed.
Lemma lm_step_worlds s op : length (lm_worlds s) = length (rules e) -> length (lm_worlds (lm_step s op)) = length (rules e).
Proof.
  intros Hl. destruct op as [path payload now|i|gi]; simpl.
  - rewrite process_state_run by done. destruct (event_of path payload) as [[oid state]|]; [|done]. simpl. rewrite <-Hl.
    generalize (subscribers e path) (lm_worlds s). induction l as [|r l IH]; intros ws; [done|]. simpl.
    destruct (breaks _ _ _); [|rewrite IH]; apply length_alter.
  - unfold fire_timer. destruct (rules e !! i); [|done]. simpl. by rewrite length_alter.
  - unfold tick_group_interval. destruct (groups !! gi); [|done]. by rewrite tick_run.
Qed.

Lemma world_step s op j r :
  length (lm_worlds s) = length (rules e) -> rules e !! j = Some r ->
  lm_worlds (lm_step s op) !! j =
  (fun w => foldl (fun w op => rule_exec (le_encode e r) (rc_rule r) op w) w (rule_op_of j (lm_prev s) op)) <$> lm_worlds s !! j.
Proof.
  intros Hl Hj. assert (forall o : option RuleWorld, o = id <$> o) as Hid by (by intros []).
  destruct op as [path payload now|i|gi]; cbn [lm_step rule_op_of].
  - rewrite process_state_run by done. destruct (event_of path payload) as [[oid state]|]; [|apply Hid]. simpl.
    rewrite (step_rules_lookup _ _ _ _ _ _ r); [|apply subscribers_nodup|].
    2:{ intros i r' [Hi _]%subscribers_elem ->. congruence. }
    unfold subscribers. rewrite number_imap, (reached_number _ _ _ _ 0 j). unfold offered. rewrite Hj.
    by destruct (_ && forallb _ _).
  - unfold fire_timer. case_decide as Hd; [subst; rewrite Hj; simpl; by rewrite list_lookup_alter_eq|].
    destruct (rules e !! i); simpl; [rewrite list_lookup_alter_ne by done|]; apply Hid.
  - unfold tick_group_interval. destruct (groups !! gi); [rewrite tick_run|]; apply Hid.
Qed.

End spec.

(** ** Jobs *)

(** When every launch, with what the sleep takes too long and the run of the macro, is
    over before the next time, every time is launched, in order. *)
Lemma job_none_skipped `{LmExternals} (j : JobEnv) d upcoming : forall n s,
  (forall k, 0 <= je_late j k + je_macro j k <= d)%Z -> (forall k, je_terminating j k = false) ->
  match upcoming with t :: _ => (js_clock s < t)%Z | [] => True end ->
  Sorted (fun a b => a + d < b)%Z upcoming ->
  (js_runs (scheduler j n upcoming s)).*1 = (js_runs s).*1 ++ upcoming.
Proof.
  induction upcoming as [|t l IH]; intros n s Hd Ht Hc Hs; simpl; [by rewrite app_nil_r|].
  apply Sorted_inv in Hs as [Hs Hh]. rewrite (proj2 (Z.ltb_lt _ _) Hc), Ht, IH; [|done..| |done].
  - simpl. by rewrite fmap_app, <-app_assoc.
  - destruct l as [|t' l]; [done|]. simpl. inversion_clear Hh. specialize (Hd n). lia.
Qed.

(** ** A run *)

Module LmExamples.
Import Sample LmRuleExamples.

#[export] Instance lm_main_externals : LmMainExternals := {|
  subscribes m p := String.eqb m "#" || String.eqb m p;
  jp_lookup v p := if String.eqb p "$." then Ok (Some v) else Ok None;
  value_string v := match v with SNum 1 => "on"%string | _ => "?"%string end;
  TransformTask := f64;
  transform l _ f := Ok (match l with x :: _ => x | [] => f end);
  pack_raw r := match raw_value r with Some (SNum z) => Ok [raw_status r; z] | _ => Err EInvalidData end;
  un_statex b := match b with [st; z] => Ok (mkStateX st (SNum z) None) | _ => Err EInvalidData end;
  un_states b := match b with [st; z] => Ok [(st, Some (SNum z))] | _ => Err EInvalidData end;
  RAW_STATE_TOPIC := "RAW/"%string;
  un_macro_result _ := Ok (SUnit, Some 0%Z);
  val_str := SStr;
  val_i16 := SNum;
  error_text _ := "error"%string |}.

(** A parser copies the temperature; the same group has an entry that finds nothing. *)
Definition engine : ParserEngine :=
  parser_engine_new [mkParserGroup false None
    [mkParserItem temp [mkMapEntry "$.x" (Sensor, "y"%string) ∅ []; mkMapEntry "$." (Sensor, "copy"%string) ∅ []]]].
Definition lm_env : LmEnv :=
  mkLmEnv [mkRuleConf "r1" "sensor/temp" temp alarm; mkRuleConf "r2" "#" temp alarm] engine (fun _ _ => Ok tt)
    (fun _ _ => Err EFailed).
Definition lm_ops : list LmOp :=
  [LoState "sensor/temp" [1; 10]%Z 0; LoState "sensor/temp" [1; 25]%Z 1; LoState "sensor/bad" [] 2;
   LoState "sensor/temp" [1; 30]%Z 3; LoTimer 0; LoTick 0].
End LmExamples.
