(* ===== verification/HmiTokens.v ===== *)
(** * The HMI service: sessions (svc/hmi/src/aaa.rs, svc/hmi/src/db.rs)

    Tokens, the tables of the database of the service, and authentication of
    the callers of its API.  A statement of SQL is the change of the tables it
    makes; each can fail.  What the service sends to other services is recorded
    with the replies. *)
From Stdlib Require Import Ascii.
From stdpp Require Import sorting.
From S2P Require Import Prelude Duration EvaCommon Password.

(** ** The crates *)

(** [eva_common::acl::Op] *)
Inductive AclOp := OpLog | OpDeveloper | OpModerator.

(** [eva_common::acl::Acl], and the parts of [Value], [IpAddr], [Uuid] and the
    decoders the service uses. *)
Class HmiExternals `{Externals} (Uuid : Type) := {
  UserAcl : Type;
  acl_get_id : UserAcl -> string;
  acl_from : UserAcl -> list string;
  acl_get_meta : UserAcl -> option Value;
  check_admin : UserAcl -> bool;
  check_op : UserAcl -> AclOp -> bool;
  check_item_read : UserAcl -> OID -> bool;
  check_item_write : UserAcl -> OID -> bool;
  acl_check_pvt_read : UserAcl -> string -> bool;
  acl_check_pvt_write : UserAcl -> string -> bool;
  require_admin : UserAcl -> EResult unit;
  require_op : UserAcl -> AclOp -> EResult unit;
  require_item_read : UserAcl -> OID -> EResult unit;
  require_item_write : UserAcl -> OID -> EResult unit;
  require_item_mask_read : UserAcl -> OIDMask -> EResult unit;
  get_items_allow_deny_reading : UserAcl -> list string * list string;
  acl_to_json : UserAcl -> EResult string;
  acl_of_json : string -> EResult UserAcl;
  (* a value that is a map, a list, a text *)
  as_map_get : Value -> string -> option Value;  (* nothing also for a value that is no map *)
  as_seq : Value -> option (list Value);
  as_string : Value -> option string;
  IpAddr : Type;
  ip_eq_dec :: EqDecision IpAddr;
  ip_to_string : IpAddr -> string;
  ip_parse : string -> option IpAddr;
  uuid_as_bytes : Uuid -> list Z;
  uuid_from_slice : list Z -> option Uuid;
  (* eva_sdk::types::{Fill, StateProp}, the parameters of [log.get] *)
  Fill : Type;
  StateProp : Type;
  LogQuery : Type
}.

(** What is written is read back. *)
Class HmiLaws `{HmiExternals Uuid} : Prop := {
  uuid_bytes u : is_array 16 (uuid_as_bytes u);
  uuid_of_bytes u : uuid_from_slice (uuid_as_bytes u) = Some u;
  acl_json a j : acl_to_json a = Ok j -> acl_of_json j = Ok a;
  ip_parse_to_string i : ip_parse (ip_to_string i) = Some i
}.

(** The payload of the reply, or an error, and whether its message starts with
    a bar. *)
Abbreviation BusReply := (list Z + Error * bool)%type.

Section tokens.
Context {Uuid : Type} `{Countable Uuid} `{Ext : Externals, HExt : !HmiExternals Uuid, HashExternals}.

(** ** Tokens *)

(** svc/hmi/src/aaa.rs:251-255 [TokenId] *)
Record TokenId := mkTokenId { ti_u : Uuid; ti_salt : string }.
#[global] Instance TokenId_eq_dec : EqDecision TokenId.
Proof. solve_decision. Defined.
#[global] Instance TokenId_countable : Countable TokenId :=
  inj_countable' (fun t => (ti_u t, ti_salt t)) (fun p => mkTokenId p.1 p.2) ltac:(by intros []).

(** svc/hmi/src/aaa.rs:264-267 [TokenId::to_short_string] *)
Definition to_short_string (t : TokenId) : string := (hex_encode (uuid_as_bytes (ti_u t)) +:+ ti_salt t)%string.
(** [TokenId::fmt] *)
Definition token_id_to_string (t : TokenId) : string := ("token:" +:+ to_short_string t)%string.

(** [&s[..n]] and [&s[n..]] panic inside a character of several bytes. *)
Definition char_boundary (s : string) (n : nat) : bool :=
  match String.get n s with
  | Some a => negb ((128 <=? nat_of_ascii a)%nat && (nat_of_ascii a <? 192)%nat)
  | None => true
  end.
Definition str_take (n : nat) (s : string) : string := String.substring 0 n s.
Definition str_drop (n : nat) (s : string) : string := String.substring n (String.length s - n) s.

(** svc/hmi/src/aaa.rs:284-296 (TokenId::try_from for [&str]) *)
Definition token_id_of_str (s : string) : EResult TokenId :=
  if (String.length s <? 48)%nat then Err EInvalidData
  else if negb (char_boundary s 32) then Err EPanic
  else
    b ← ok_or (hex_decode (str_take 32 s)) EInvalidData;
    u ← ok_or (uuid_from_slice b) EInvalidData;
    Ok (mkTokenId u (str_drop 32 s)).
(** svc/hmi/src/aaa.rs:299-310 (TokenId::try_from for [String]) *)
Definition token_id_of_string (v : string) : EResult TokenId :=
  match strip_prefix "token:" v with
  | Some stripped =>
      match token_id_of_str stripped with
      | Err EPanic => Err EPanic
      | Err _ => Err EInvalidData
      | Ok t => Ok t
      end
  | None => Err EInvalidData
  end.

Definition TOKEN_MODE_NORMAL : Z := 1.
Definition TOKEN_MODE_READONLY : Z := 2.

(** svc/hmi/src/aaa.rs:408-419 [Token] *)
Record Token := mkToken {
  tk_id : TokenId;
  tk_mode : Z;
  tk_t : Z;
  tk_user : string;
  tk_acl : UserAcl;
  tk_auth_svc : string;
  tk_ip : option IpAddr
}.
Definition token_set_t (t : Z) (k : Token) : Token :=
  mkToken (tk_id k) (tk_mode k) t (tk_user k) (tk_acl k) (tk_auth_svc k) (tk_ip k).
Definition token_set_mode (m : Z) (k : Token) : Token :=
  mkToken (tk_id k) m (tk_t k) (tk_user k) (tk_acl k) (tk_auth_svc k) (tk_ip k).
Definition is_readonly (k : Token) : bool := (tk_mode k =? TOKEN_MODE_READONLY)%Z.

(** svc/hmi/src/aaa.rs:123-130 [Auth] *)
Inductive Auth :=
  | AToken (token : Token)
  | AKey (key_id : string) (acl : UserAcl)
  | ALogin (login : string) (acl_id : option string)
  | ALoginKey (key_id acl_id : option string)
  | ANo.

(** svc/hmi/src/aaa.rs:147-156 [Auth::acl] *)
Definition auth_acl (a : Auth) : EResult UserAcl :=
  match a with
  | AToken token => Ok (tk_acl token)
  | AKey _ acl => Ok acl
  | ALogin _ _ | ALoginKey _ _ | ANo => Err EPanic
  end.
(** svc/hmi/src/aaa.rs:157-167 [Auth::acl_id] *)
Definition auth_acl_id (a : Auth) : string :=
  match a with
  | AToken token => acl_get_id (tk_acl token)
  | AKey _ acl => acl_get_id acl
  | ALogin _ acl_id | ALoginKey _ acl_id => default ""%string acl_id
  | ANo => ""
  end.
(** svc/hmi/src/aaa.rs:168-176 [Auth::as_str] *)
Definition auth_as_str (a : Auth) : string :=
  match a with
  | AToken _ => "token"
  | AKey _ _ => "key"
  | ALogin _ _ | ALoginKey _ _ => "login"
  | ANo => "unauthorized"
  end.
Definition auth_token (a : Auth) : option Token :=
  match a with AToken token => Some token | _ => None end.
(** svc/hmi/src/aaa.rs:191-200 [Auth::user] *)
Definition auth_user_of (a : Auth) : option string :=
  match a with
  | AToken token => Some (tk_user token)
  | ALogin login _ => Some login
  | AKey key_id _ => Some key_id
  | ALoginKey key_id _ => key_id
  | ANo => None
  end.

(** svc/hmi/src/main.rs:23-33 (ApiKeyId for Acl) *)
Definition api_key_id (acl : UserAcl) : option string :=
  meta ← acl_get_meta acl;
  v ← as_map_get meta "api_key_id";
  s ← as_seq v;
  x ← head s;
  as_string x.

(** ** What the service sends *)

Abbreviation XOpts := (gmap string Value).

Record HistoryQuery := mkHistory {
  hq_i : OIDMask;
  hq_t_start : f64;
  hq_t_end : f64;
  hq_fill : option Fill;
  hq_precision : option Z;
  hq_limit : option Z;
  hq_prop : option StateProp;
  hq_xopts : XOpts
}.

(** The payloads of calls, before they are packed. *)
Inductive HPayload :=
  | PEmpty
  | PAuthKey (key source : string)
  | PAuthUser (login password : string) (xopts : option XOpts) (source : string) (externally_verified : bool)
  | PResetUser (login password : string) (xopts : option XOpts)
  | PCheckPassword (login password source : string)
  | PSetPassword (i password : string) (check_policy : bool)
  | PProfileGet (i field : string)
  | PProfileSet (i field : string) (value : Value)
  | PState (i : Value) (regex : option string) (include exclude : list string) (full : bool)
  | PStates (i : list OIDMask) (include exclude : list string)
  | PHistory (q : HistoryQuery)
  | PStateLog (i : OIDMask) (t_start t_end : option f64) (limit : option Z) (xopts : XOpts)
  | PCombined (i : OIDMask + list OIDMask) (t_start t_end : f64) (fill : Fill) (precision : option Z)
      (xopts : XOpts)
  | PLogGet (q : LogQuery)
  | PAction (i : OID) (value : Value) (priority : option Z) (wait : option f64)
  | PRun (i : OID) (args : list Value) (kwargs : XOpts) (priority : option Z) (wait : option f64)
  | PToggle (i : OID) (priority : option Z) (wait : option f64)
  | PUuid (u : Uuid)
  | PKill (i : OID)
  | PLvarSet (i : OID) (status : option Z) (value : option Value)
  | PLvar (i : OID)
  | PFilterMacro (i : OID) (api_call_method : string) (api_call_params : Value) (auth : Auth) (source : string)
  | PBus (params : Value)
  | PX (x_method : string) (params : Value) (auth : Auth) (source : string)
  | PSvcList (filter : string)
  | PDobj (i : option string)
  | PNodeGet (i : string)
  | PRpvt (i node : string).

Record BusCall := mkBusCall { bc_target : string; bc_method : string; bc_payload : HPayload }.

(** ** State *)

Record TokenRow := mkTokenRow {
  tr_md : Z;
  tr_t : Z;
  tr_login : string;
  tr_acl : string;
  tr_auth_svc : string;
  tr_ip : option string
}.
Inductive LogVal :=
  | LvOid (i : OID)
  | LvValue (v : option Value)
  | LvStatus (s : option Z)
  | LvStr (s : string).
Record LogRow := mkLogRow {
  lr_t : Z;
  lr_login : option string;
  lr_auth : string;
  lr_acl : string;
  lr_source : string;
  lr_method : string;
  lr_params : option (gmap string LogVal);
  lr_oid : option OID;
  lr_note : option string;
  lr_code : option (option Error)       (* the result, when it is known *)
}.
(** The configuration that is stored for a panel. *)
Record AppPayload := mkApp { ap_token : string; ap_api_version : Z; ap_config : XOpts }.
Record EhmiRow := mkEhmi { eh_token_id : string; eh_config : AppPayload; eh_t : Z }.

Record Db := mkDb {
  db_tokens : gmap string TokenRow;
  db_token_acls : gset (string * string);
  db_ehmi : gmap string EhmiRow;
  db_user_data : gmap (string * string) string;
  db_api_log : gmap Uuid LogRow
}.
Definition db_empty : Db := mkDb ∅ ∅ ∅ ∅ ∅.

(** [eva_sdk::eapi_bus::AccountingEvent] *)
Record Accounting := mkAccounting {
  ac_u : option string;
  ac_src : option string;
  ac_subj : string;
  ac_oid : option OID;
  ac_data : option (gmap string LogVal);
  ac_note : option string;
  ac_err : option Error
}.

Record Hmi := mkHmi {
  hm_db : Db;
  hm_ws : gmap TokenId (gset Uuid);            (* TOKEN_WEBSOCKETS *)
  hm_closed : gset Uuid;                       (* websockets that are terminated *)
  hm_calls : list (BusCall * BusReply);        (* the latest first *)
  hm_events : list Accounting;                 (* the latest first *)
  hm_files : gmap string string;
  hm_n : nat                                   (* uses of the environment *)
}.
Definition hmi_start : Hmi := mkHmi db_empty ∅ ∅ [] [] ∅ 0.

Definition set_db (d : Db) (s : Hmi) : Hmi :=
  mkHmi d (hm_ws s) (hm_closed s) (hm_calls s) (hm_events s) (hm_files s) (hm_n s).
Definition set_ws (w : gmap TokenId (gset Uuid)) (c : gset Uuid) (s : Hmi) : Hmi :=
  mkHmi (hm_db s) w c (hm_calls s) (hm_events s) (hm_files s) (hm_n s).
Definition add_call (c : BusCall * BusReply) (s : Hmi) : Hmi :=
  mkHmi (hm_db s) (hm_ws s) (hm_closed s) (c :: hm_calls s) (hm_events s) (hm_files s) (hm_n s).
Definition add_event (ev : Accounting) (s : Hmi) : Hmi :=
  mkHmi (hm_db s) (hm_ws s) (hm_closed s) (hm_calls s) (ev :: hm_events s) (hm_files s) (hm_n s).
Definition set_files (f : gmap string string) (s : Hmi) : Hmi :=
  mkHmi (hm_db s) (hm_ws s) (hm_closed s) (hm_calls s) (hm_events s) f (hm_n s).
Definition set_n (n : nat) (s : Hmi) : Hmi :=
  mkHmi (hm_db s) (hm_ws s) (hm_closed s) (hm_calls s) (hm_events s) (hm_files s) n.

Definition set_tokens (t : gmap string TokenRow) (d : Db) : Db :=
  mkDb t (db_token_acls d) (db_ehmi d) (db_user_data d) (db_api_log d).
Definition set_token_acls (t : gset (string * string)) (d : Db) : Db :=
  mkDb (db_tokens d) t (db_ehmi d) (db_user_data d) (db_api_log d).
Definition set_ehmi (t : gmap string EhmiRow) (d : Db) : Db :=
  mkDb (db_tokens d) (db_token_acls d) t (db_user_data d) (db_api_log d).
Definition set_user_data_table (t : gmap (string * string) string) (d : Db) : Db :=
  mkDb (db_tokens d) (db_token_acls d) (db_ehmi d) t (db_api_log d).
Definition set_api_log (t : gmap Uuid LogRow) (d : Db) : Db :=
  mkDb (db_tokens d) (db_token_acls d) (db_ehmi d) (db_user_data d) t.

(** The configuration, and what comes from outside: [n] counts the uses. *)
Record HmiEnv := mkHmiEnv {
  he_sql : nat -> EResult unit;
  he_db_error : Error;                         (* a refusal by the database *)
  he_now : nat -> Z;                           (* seconds *)
  he_bus : nat -> BusCall -> BusReply;
  he_un_acl : list Z -> EResult UserAcl;
  he_uuid : nat -> Uuid;
  he_rnd : nat -> nat -> EResult (list Z);
  he_rounds : nat;
  he_fs : nat -> EResult unit;
  hc_session_timeout : option Duration;
  hc_prolong : bool;
  hc_stick_ip : bool;
  hc_allow_list_neighbors : bool;
  hc_allow_concurrent : bool;
  hc_auth_svcs : list string;
  hc_api_log : bool
}.
Variable (e : HmiEnv).

Abbreviation HM := (M Hmi).

Definition tick : HM nat := fun s => (Ok (hm_n s), set_n (S (hm_n s)) s).
Definition now : HM Z := n ← tick; mret (he_now e n).
Definition i64_of (z : Z) : EResult Z := if (z <=? i64_max)%Z then Ok z else Err EFailed.
(** A statement that changes the tables, and a query. *)
Definition sql (f : Db -> Db) : HM unit :=
  n ← tick; _ ← lift (he_sql e n); modify (fun s => set_db (f (hm_db s)) s).
Definition query {A} (f : Db -> A) : HM A :=
  n ← tick; _ ← lift (he_sql e n); s ← get; mret (f (hm_db s)).
(** [eapi_bus::call] *)
Definition bus_try (target method : string) (payload : HPayload) : HM BusReply :=
  n ← tick;
  let c := mkBusCall target method payload in
  let r := he_bus e n c in
  _ ← modify (add_call (c, r));
  mret r.
Definition bus_call (target method : string) (payload : HPayload) : HM (list Z) :=
  r ← bus_try target method payload;
  match r with inl b => mret b | inr err => raise err.1 end.

(** ** The tables of the database *)

(** The rows of [tokens] that are deleted, and with each the configurations
    that refer to it (ON DELETE CASCADE). *)
Definition delete_tokens (P : string -> TokenRow -> bool) (d : Db) : Db :=
  set_ehmi (filter (fun kv =>
      match db_tokens d !! eh_token_id kv.2 with Some r => P (eh_token_id kv.2) r | None => false end = false)
    (db_ehmi d))
  (set_tokens (filter (fun kv => P kv.1 kv.2 = false) (db_tokens d)) d).

(** An insertion, with the check of the primary key. *)
Definition sql_insert (free : Db -> bool) (f : Db -> Db) : HM unit :=
  n ← tick;
  _ ← lift (he_sql e n);
  s ← get;
  if free (hm_db s) then modify (fun s => set_db (f (hm_db s)) s) else raise (he_db_error e).

(** svc/hmi/src/db.rs:255-274 [clear_idle_tokens]; an underflow of the time
    does not fit an [i64] *)
Definition clear_idle_tokens (expiration : Duration) : HM unit :=
  t ← now;
  let secs := (expiration / NANOS_PER_SEC)%Z in
  if (t <? secs)%Z then raise EFailed
  else
    t ← lift (i64_of (t - secs));
    sql (delete_tokens (fun _ r => (tr_t r <? t)%Z)).
(** svc/hmi/src/db.rs:276-287 [clear_token_acls] *)
Definition clear_token_acls : HM unit :=
  sql (fun d => set_token_acls (filter (fun ta => is_Some (db_tokens d !! ta.1)) (db_token_acls d)) d).
(** svc/hmi/src/db.rs:289-307 [clear_tokens_by_user] *)
Definition db_clear_tokens_by_user (user : string) : HM unit :=
  sql (delete_tokens (fun _ r => String.eqb (tr_login r) user)).
(** svc/hmi/src/db.rs:567-589 [clear_tokens_by_acl_id] *)
Definition db_clear_tokens_by_acl_id (acl_id : string) : HM unit :=
  sql (fun d => delete_tokens (fun id _ => bool_decide ((id, acl_id) ∈ db_token_acls d)) d).
(** svc/hmi/src/db.rs:309-336 [delete_token] *)
Definition delete_token (token_id : TokenId) : HM unit :=
  let token_id := to_short_string token_id in
  _ ← sql (delete_tokens (fun id _ => String.eqb id token_id));
  sql (fun d => set_token_acls (filter (fun ta => ta.1 ≠ token_id) (db_token_acls d)) d).
(** svc/hmi/src/db.rs:338-359 [set_token_time] *)
Definition set_token_time (token_id : TokenId) (t : Z) : HM unit :=
  sql (fun d => set_tokens (alter (fun r =>
    mkTokenRow (tr_md r) t (tr_login r) (tr_acl r) (tr_auth_svc r) (tr_ip r))
    (to_short_string token_id) (db_tokens d)) d).
(** svc/hmi/src/db.rs:361-382 [set_token_mode] *)
Definition set_token_mode (token_id : TokenId) (mode : Z) : HM unit :=
  sql (fun d => set_tokens (alter (fun r =>
    mkTokenRow mode (tr_t r) (tr_login r) (tr_acl r) (tr_auth_svc r) (tr_ip r))
    (to_short_string token_id) (db_tokens d)) d).
(** svc/hmi/src/db.rs:384-410 [parse_token] *)
Definition parse_token (row : TokenRow) (id : EResult TokenId) : EResult Token :=
  id ← id;
  acl ← acl_of_json (tr_acl row);
  ip ← match tr_ip row with
       | Some i => ip ← ok_or (ip_parse i) EInvalidData; Ok (Some ip)
       | None => Ok None
       end;
  mode ← (if ((0 <=? tr_md row) && (tr_md row <? 256))%Z then Ok (tr_md row) else Err EInvalidData);
  Ok (mkToken id mode (tr_t row) (tr_login row) acl (tr_auth_svc row) ip).
(** svc/hmi/src/db.rs:418-435 [is_active_session_for] *)
Definition is_active_session_for (login : string) : HM bool :=
  query (fun d => existsb (fun kv => String.eqb (tr_login kv.2) login) (map_to_list (db_tokens d))).
(** ORDER BY t DESC *)
Definition later (a b : string * TokenRow) : Prop := (tr_t b.2 <= tr_t a.2)%Z.
#[global] Instance later_dec : RelDecision later.
Proof. intros a b. unfold later. apply _. Defined.
(** svc/hmi/src/db.rs:437-454 [load_all_tokens] *)
Definition load_all_tokens : HM (list Token) :=
  query (fun d =>
    omap (fun kv => ok (parse_token kv.2 (token_id_of_str kv.1)))
      (merge_sort later (map_to_list (db_tokens d)))).
(** svc/hmi/src/db.rs:456-470 [load_token_ids] *)
Definition load_token_ids : HM (list TokenId) :=
  query (fun d => omap (fun kv => ok (token_id_of_str kv.1)) (map_to_list (db_tokens d))).
(** svc/hmi/src/db.rs:472-493 [load_token] *)
Definition load_token (token_id : TokenId) : HM (option Token) :=
  row ← query (fun d => db_tokens d !! to_short_string token_id);
  match row with
  | Some row => t ← lift (parse_token row (Ok token_id)); mret (Some t)
  | None => mret None
  end.
(** svc/hmi/src/db.rs:495-565 [save_token] *)
Definition save_token (token : Token) : HM unit :=
  let token_id := to_short_string (tk_id token) in
  token_acl ← lift (acl_to_json (tk_acl token));
  let row := mkTokenRow (tk_mode token) (tk_t token) (tk_user token) token_acl (tk_auth_svc token)
               (ip_to_string <$> tk_ip token) in
  _ ← sql_insert (fun d => bool_decide (db_tokens d !! token_id = None))
        (fun d => set_tokens (<[token_id := row]> (db_tokens d)) d);
  for_each (fun acl_id =>
    sql_insert (fun d => bool_decide ((token_id, acl_id) ∉ db_token_acls d))
      (fun d => set_token_acls ({[(token_id, acl_id)]} ∪ db_token_acls d) d)) (acl_from (tk_acl token)).

(** ** Sessions *)

(** svc/hmi/src/aaa.rs:318-328 [check_token_ip] *)
Definition check_token_ip (token : Token) (ip : option IpAddr) : EResult unit :=
  match tk_ip token with
  | Some token_ip =>
      if hc_stick_ip e then if decide (ip = Some token_ip) then Ok tt else Err EAccess else Ok tt
  | None => Ok tt
  end.
(** svc/hmi/src/aaa.rs:345-352 [get_expiration] *)
Definition get_expiration : EResult Duration := ok_or (hc_session_timeout e) EAccess.
(** svc/hmi/src/aaa.rs:473-481 [Token::touch] *)
Definition touch (token : Token) : HM Token :=
  if hc_prolong e then
    t ← now;
    let t := if (t <=? i64_max)%Z then t else 0%Z in
    _ ← set_token_time (tk_id token) t;
    mret (token_set_t t token)
  else mret token.
(** svc/hmi/src/aaa.rs:482-488 [Token::is_expired] *)
Definition is_expired (token : Token) : HM bool :=
  exp ← lift get_expiration;
  secs ← lift (i64_of (exp / NANOS_PER_SEC));
  let expires_at := (tk_t token + secs)%Z in
  t ← now;
  t ← lift (i64_of t);
  mret (expires_at <? t)%Z.
(** svc/hmi/src/aaa.rs:330-343 [get_token] *)
Definition get_token (token_id : TokenId) (ip : option IpAddr) : HM Token :=
  token ← load_token token_id;
  match token with
  | Some token =>
      _ ← lift (check_token_ip token ip);
      expired ← is_expired token;
      if (expired : bool) then raise EAccess else touch token
  | None => raise EAccess
  end.
(** svc/hmi/src/aaa.rs:258-263 [TokenId::create] *)
Definition token_id_create : HM TokenId :=
  n ← tick;
  m ← tick;
  r ← lift (random_string 16 (he_rnd e m) (he_rounds e) 0);
  mret (mkTokenId (he_uuid e n) r.1).
(** svc/hmi/src/aaa.rs:359-382 [create_token] *)
Definition create_token (user : string) (acl : UserAcl) (auth_svc : string) (ip : option IpAddr) : HM Token :=
  match hc_session_timeout e with
  | Some _ =>
      id ← token_id_create;
      t ← now;
      let t := if (t <=? i64_max)%Z then t else 0%Z in
      let token := mkToken id TOKEN_MODE_NORMAL t user acl auth_svc ip in
      _ ← save_token token;
      mret token
  | None => raise EAccess
  end.
(** svc/hmi/src/aaa.rs:384-406 [destroy_token] *)
Definition destroy_token (token_id : TokenId) : HM unit :=
  r ← attempt (load_token token_id);
  _ ← match r with
      | Ok (Some token) =>
          modify (add_event (mkAccounting (Some (tk_user token)) (ip_to_string <$> tk_ip token) "logout"
            None None None None))
      | _ => mret tt
      end;
  _ ← delete_token token_id;
  modify (fun s => set_ws (delete token_id (hm_ws s))
    (hm_closed s ∪ default ∅ (hm_ws s !! token_id)) s).
(** svc/hmi/src/aaa.rs:522-532 (Token::set_normal, Token::set_readonly) *)
Definition token_change_mode (mode : Z) (token : Token) : HM Token :=
  _ ← set_token_mode (tk_id token) mode;
  mret (token_set_mode mode token).
(** svc/hmi/src/aaa.rs:533-543 [Token::register_websocket] *)
Definition register_websocket (token : Token) (ws : Uuid) : HM unit :=
  modify (fun s => set_ws (<[tk_id token := {[ws]} ∪ default ∅ (hm_ws s !! tk_id token)]> (hm_ws s))
    (hm_closed s) s).
(** svc/hmi/src/aaa.rs:544-550 [Token::unregister_websocket] *)
Definition unregister_websocket (token : Token) (ws : Uuid) : HM unit :=
  modify (fun s =>
    if decide (ws ∈ default ∅ (hm_ws s !! tk_id token))
    then set_ws (hm_ws s) ({[ws]} ∪ hm_closed s) s else s).
(** svc/hmi/src/aaa.rs:553-559 [clear_tokens] *)
Definition clear_tokens : HM unit :=
  exp ← lift (ok_or (hc_session_timeout e) EPanic);
  _ ← log_ef (clear_idle_tokens exp);
  log_ef clear_token_acls.
(** svc/hmi/src/aaa.rs:561-583 [clear_token_websockets] *)
Definition clear_token_websockets : HM unit :=
  r ← attempt load_token_ids;
  match r with
  | Ok ids => modify (fun s =>
      let gone := filter (fun kv => kv.1 ∉ ids) (hm_ws s) in
      set_ws (filter (fun kv => kv.1 ∈ ids) (hm_ws s)) (hm_closed s ∪ ⋃ (map_to_list gone).*2) s)
  | Err _ => mret tt
  end.
(** svc/hmi/src/aaa.rs:585-591 [clear_tokens_by_user] *)
Definition clear_tokens_by_user (user : string) : HM unit := log_ef (db_clear_tokens_by_user user).
(** svc/hmi/src/aaa.rs:593-599 [clear_tokens_by_key_id] *)
Definition clear_tokens_by_key_id (key_id : string) : HM unit :=
  log_ef (db_clear_tokens_by_user ("." +:+ key_id)%string).
(** svc/hmi/src/aaa.rs:601-607 [clear_tokens_by_acl_id] *)
Definition clear_tokens_by_acl_id (acl_id : string) : HM unit := log_ef (db_clear_tokens_by_acl_id acl_id).
(** svc/hmi/src/aaa.rs:270-276 [list_neighbors] *)
Definition list_neighbors : HM (list Token) :=
  if hc_allow_list_neighbors e then load_all_tokens else raise EAccess.

(** ** Authentication of callers *)

(** svc/hmi/src/aaa.rs:210-233 [auth_key] *)
Fixpoint auth_key_at (svcs : list string) (key source : string) : HM (option (UserAcl * string)) :=
  match svcs with
  | [] => mret None
  | svc :: svcs =>
      r ← bus_try svc "auth.key" (PAuthKey key source);
      match r with
      | inl b => acl ← lift (he_un_acl e b); mret (Some (acl, svc))
      | inr _ => auth_key_at svcs key source
      end
  end.
Definition hmi_auth_key (key : string) (ip : option IpAddr) : HM (option (UserAcl * string)) :=
  auth_key_at (hc_auth_svcs e) key (match ip with Some i => ip_to_string i | None => "" end).

(** svc/hmi/src/aaa.rs:235-249 [authenticate] *)
Definition authenticate (key : string) (ip : option IpAddr) : HM Auth :=
  match strip_prefix "token:" key with
  | Some token_str =>
      id ← lift (token_id_of_str token_str);
      token ← get_token id ip;
      mret (AToken token)
  | None =>
      r ← hmi_auth_key key ip;
      match r with
      | Some (acl, _) =>
          key_id ← lift (ok_or (api_key_id acl) ECore);
          mret (AKey ("." +:+ key_id)%string acl)
      | None => raise EAccess
      end
  end.
End tokens.
Arguments TokenId : clear implicits.
Arguments mkTokenId {_} _ _.
