(* ===== verification/HmiApi.v ===== *)
(** * The HMI service: the API (svc/hmi/src/api.rs, svc/hmi/src/aci.rs)

    Every method of the API with its checks, in the order the code makes them:
    the log of the call, the mode of the session, the rights of the caller, the
    filter macro, then the call to another service, the database or the file
    system.  The decoders of parameters and replies are parameters. *)
From Stdlib Require Import Ascii SpecFloat.
From S2P Require Import Prelude Duration EvaCommon Password Launcher HmiTokens.

(** ** The crates *)

(** svc/hmi/src/db.rs:47-59 [ApiLogFilter] *)
Record ApiLogFilter {Value OID : Type} := mkLogFilter {
  af_t_start : option Value;
  af_t_end : option Value;
  af_user : option string;
  af_acl : option string;
  af_method : option string;
  af_oid : option OID;
  af_note : option string;
  af_source : option string;
  af_code : option Z;
  af_success : option bool
}.
Arguments ApiLogFilter : clear implicits.
Arguments mkLogFilter {_ _}.

(** [eva_sdk::types::CompactStateHistory] *)
Record CompactHistory {Value : Type} := mkCompact {
  ch_set_time : list f64;
  ch_status : option (list Value);
  ch_value : option (list Value)
}.
Arguments CompactHistory : clear implicits.
Arguments mkCompact {_}.

Inductive Lang := LangC | LangRust.
Inductive PvtOp := PvtOpList | PvtOpRead | PvtOpWrite.

Section types.
Context {Uuid : Type} `{Countable Uuid} `{Ext : Externals, HExt : !HmiExternals Uuid}.

Record HistoryParams := mkHistoryParams {
  hp_i : OIDMask + list OIDMask;
  hp_t_start : option Value;
  hp_t_end : option Value;
  hp_fill : option string;
  hp_limit : option Z;
  hp_prop : option StateProp;
  hp_xopts : gmap string Value;
  hp_database : option string;
  hp_dict : bool
}.
Record StateLogParams := mkStateLogParams {
  sp_i : OIDMask;
  sp_t_start : option Value;
  sp_t_end : option Value;
  sp_limit : option Z;
  sp_xopts : gmap string Value;
  sp_database : option string
}.
Record CombinedParams := mkCombinedParams {
  cp_i : OIDMask + list OIDMask;
  cp_t_start : option Value;
  cp_t_end : option Value;
  cp_fill : string;
  cp_xopts : gmap string Value;
  cp_database : option string
}.
Record ActionParams := mkActionParams {
  ap_i : OID;
  ap_status : option Z;
  ap_value : Value;
  ap_priority : option Z;
  ap_wait : option f64;
  ap_note : option string
}.
(** svc/hmi/src/api.rs:1429-1443 [ParamsRun] *)
Record ParamsRun := mkParamsRun {
  rn_i : OID;
  rn_args : list Value;
  rn_kwargs : gmap string Value;
  rn_priority : option Z;
  rn_wait : option f64;
  rn_note : option string
}.
Record PvtListParams := mkPvtList {
  pl_path : string;
  pl_masks : option (list string);
  pl_dirs : bool;
  pl_recursive : bool
}.
(** The parameters of [login] (svc/hmi/src/api.rs:427-465) *)
Inductive ParamsLogin :=
  | TokenSetNormal (user password token : string) (xopts : option (gmap string Value))
  | UserAuth (user password : string) (xopts : option (gmap string Value))
  | KeyAuth (k : string)
  | TokenInfo (token : string)
  | LoginEmpty.
(** [rjrpc::JsonRpcRequestMeta] *)
Record Meta := mkMeta {
  me_key : option string;
  me_credentials : option (string * string);
  me_external_token : option string;
  me_agent : option string;
  me_ip : option IpAddr
}.
End types.

(** Decoders, conversions of values, and what is read of replies. *)
Class ApiExternals {Uuid} `{Ext : Externals, HExt : !HmiExternals Uuid} := {
  dec_empty : Value -> EResult unit;
  dec_reset_user : Value -> EResult (string * option (gmap string Value));
  dec_set_password : Value -> EResult (string * string);
  dec_profile_get : Value -> EResult string;
  dec_profile_set : Value -> EResult (string * Value);
  dec_state : Value -> EResult (Value * bool * option string);
  dec_ids : Value -> EResult (list string);
  dec_history : Value -> EResult HistoryParams;
  dec_state_log : Value -> EResult StateLogParams;
  dec_combined : Value -> EResult CombinedParams;
  dec_log_filter : Value -> EResult (ApiLogFilter Value OID);
  dec_log_get : Value -> EResult LogQuery;
  dec_action : Value -> EResult ActionParams;
  dec_run : Value -> EResult ParamsRun;
  dec_toggle : Value -> EResult (OID * option Z * option f64 * option string);
  dec_result : Value -> EResult string;
  dec_terminate : Value -> EResult (string * option string);
  dec_kill : Value -> EResult (OID * option string);
  dec_lvar_set : Value -> EResult (OID * option Z * option Value * option string);
  dec_lvar : Value -> EResult (OID * option string);
  dec_key : Value -> EResult string;
  dec_key_value : Value -> EResult (string * Value);
  dec_pvt_put : Value -> EResult (string * string);
  dec_pvt_path : Value -> EResult string;
  dec_pvt_list : Value -> EResult PvtListParams;
  dec_id : Value -> EResult string;
  dec_struct_code : Value -> EResult (list string * Lang * Value);
  dec_login : Value -> EResult ParamsLogin;
  dec_logout : Value -> EResult string;
  dec_call : Value -> EResult (string * option string);
  dec_ehmi : Value -> EResult (gmap string Value);
  dec_ck : Value -> EResult string;
  dec_string : Value -> EResult string;
  dec_uuid : Value -> EResult Uuid;
  dec_compact : Value -> EResult (CompactHistory Value);
  un_value : list Z -> EResult Value;
  un_acl_params : list Z -> EResult (option string * option string * UserAcl);
  un_filter : list Z -> EResult (option Z);
  un_compact : list Z -> EResult (CompactHistory Value);
  un_svcs : list Z -> EResult (list (string * bool));
  un_map : list Z -> EResult (gmap string Value);
  DataObject : Type;
  un_dobj : list Z -> EResult DataObject;
  dobj_without_oids : DataObject -> DataObject;
  TestInfo : Type;
  un_test : list Z -> EResult TestInfo;
  (* dobj_codegen *)
  code_gen : Lang -> Value -> EResult (DataObject -> EResult string);
  (* a map without a key, and what the key had; nothing for other values *)
  map_remove : Value -> string -> option (option Value * Value);
  map_insert : Value -> string -> Value -> Value;
  map_empty : Value -> bool;
  is_map : Value -> bool;
  VMap : gmap string Value -> Value;
  as_map : Value -> option (gmap string Value);
  VSeq : list Value -> Value;
  into_seq_flatten : Value -> Value;
  VString : string -> Value;
  value_parse : string -> EResult Value;
  value_display : Value -> string;
  value_json : Value -> EResult string;
  value_of_json : string -> EResult Value;
  as_timestamp : Value -> EResult f64;
  auth_value : Auth -> string -> Value;     (* the access info, with the source *)
  acl_value : UserAcl -> Value;
  app_value : AppPayload -> Value;
  pack_value : Value -> list Z;
  uuid_parse : string -> EResult Uuid;
  uuid_to_string : Uuid -> string;
  oid_parse_str : string -> EResult OID;
  fill_parse : string -> EResult Fill;
  fill_seconds : Z -> Fill;
  u32_parse : string -> EResult Z;
  to_wildcard_oid : OIDMask -> EResult OID;
  shlex_split : string -> option (list string);
  (* urlencoding::decode *)
  url_decode : string -> option string
}.

Section api.
Context {Uuid : Type} `{Countable Uuid} `{Ext : Externals, HExt : !HmiExternals Uuid, HashExternals, AExt : !ApiExternals}.

Abbreviation XOpts := (gmap string Value).

(** ** The call parser *)

Definition has_char (c : ascii) (s : string) : bool := existsb (Ascii.eqb c) (String.list_ascii_of_string s).

(** svc/hmi/src/call_parser.rs:4-30 [parse_val]; [fuel] is more than the
    length of the text *)
Fixpoint parse_val (fuel : nat) (s : string) : EResult Value :=
  match fuel with
  | O => Err ENever
  | S fuel =>
      if has_char "=" s then
        m ← foldl (fun acc chunk =>
              m ← acc;
              let '(key, value) := split_once "="%char chunk in
              if String.eqb key "" then Ok m
              else
                value ← ok_or value EInvalidParams;
                val ← parse_val fuel value;
                Ok (<[key := val]> m)) (Ok ∅) (split_on ";" s);
        Ok (VMap m)
      else if has_char "," s then
        l ← foldl (fun acc chunk =>
              l ← acc;
              if String.eqb chunk "" then Ok l
              else val ← parse_val fuel chunk; Ok (l ++ [val])) (Ok []) (split_on "," s);
        Ok (VSeq l)
      else value_parse s
  end.
Definition parse_value (s : string) : EResult Value := parse_val (S (String.length s)) s.

(** svc/hmi/src/call_parser.rs:32-74 [parse_param] *)
Definition parse_param (param : string) (result : XOpts) (dflt : option string) : EResult XOpts :=
  let '(key, value) := split_once "="%char param in
  match value with
  | Some value =>
      let '(key, n) := split_once "."%char key in
      val ← parse_value value;
      match n with
      | Some n =>
          match result !! key with
          | Some v =>
              m ← ok_or (as_map v) EInvalidParams;
              Ok (<[key := VMap (<[n := val]> m)]> result)
          | None => Ok (<[key := VMap {[n := val]}]> result)
          end
      | None =>
          match result !! key with
          | None => Ok (<[key := val]> result)
          | Some prev => Ok (<[key := into_seq_flatten (VSeq [prev; val])]> result)
          end
      end
  | None =>
      match dflt with
      | Some d => val ← parse_value key; Ok (<[d := val]> result)
      | None => Err EInvalidParams
      end
  end.
(** svc/hmi/src/call_parser.rs:76-92 [parse_call_str] *)
Definition parse_call_str (s : string) : EResult (string * XOpts) :=
  sp ← ok_or (shlex_split s) EInvalidParams;
  match sp with
  | [] => Err EInvalidParams
  | meth :: sp =>
      params ← match sp with p :: _ => parse_param p ∅ (Some "i") | [] => Ok ∅ end;
      params ← foldl (fun acc p => params ← acc; parse_param p params None) (Ok params) (tail sp);
      Ok (meth, params)
  end.

(** ** The access info of a call *)

Inductive Level := LvError | LvWarn | LvInfo | LvDebug | LvTrace.
(** [level <= log::Level::Info] *)
Definition up_to_info (l : Level) : bool :=
  match l with LvError | LvWarn | LvInfo => true | LvDebug | LvTrace => false end.

(** svc/hmi/src/aci.rs:166-179 [ACI] *)
Record ACI := mkACI {
  ai_id : Uuid;
  ai_auth : Auth;
  ai_source : string;
  ai_method : string;
  ai_params : option (gmap string LogVal);
  ai_oid : option OID;
  ai_note : option string;
  ai_level : Level
}.

(** The configuration. *)
Record ApiConfig := mkApiConfig {
  cf_api_filter : option OID;
  cf_pvt_path : option string;
  cf_user_dirs : option string;
  cf_demo : bool;
  cf_public_api_log : bool;
  cf_default_db : string;
  cf_oidc : option (string -> EResult string);
  cf_timeout : Duration;
  cf_max_records : Z;
  cf_max_len : Z;
  cf_list : string -> list string -> bool -> bool -> EResult (list string);  (* eva_sdk::fs::list *)
  cf_ts : nat -> f64
}.
Variable (e : HmiEnv (Uuid := Uuid)) (cfg : ApiConfig) (error_code : option Error -> Z).

Abbreviation HM := (M (Hmi (Uuid := Uuid))).

(** svc/hmi/src/aci.rs:191-205 [ACI::new] *)
Definition aci_new (auth : Auth) (method source : string) : HM ACI :=
  n ← tick;
  mret (mkACI (he_uuid e n) auth source method None None None LvInfo).

(** svc/hmi/src/db.rs:142-205 [api_log_insert] *)
Definition api_log_insert (aci : ACI) : HM unit :=
  t ← now e;
  t ← lift (i64_of t);
  let row := mkLogRow t (auth_user_of (ai_auth aci)) (auth_as_str (ai_auth aci)) (auth_acl_id (ai_auth aci))
               (ai_source aci) (ai_method aci) (ai_params aci) (ai_oid aci) (ai_note aci) None in
  sql_insert e (fun d => bool_decide (db_api_log d !! ai_id aci = None))
    (fun d => set_api_log (<[ai_id aci := row]> (db_api_log d)) d).
(** svc/hmi/src/db.rs:207-253 (api_log_mark_success, api_log_mark_error) *)
Definition api_log_mark (id : Uuid) (err : option Error) : HM unit :=
  sql e (fun d => set_api_log (alter (fun r => mkLogRow (lr_t r) (lr_login r) (lr_auth r) (lr_acl r)
    (lr_source r) (lr_method r) (lr_params r) (lr_oid r) (lr_note r) (Some err)) id (db_api_log d)) d).
(** svc/hmi/src/aci.rs:393-408 [ACI::do_accounting] *)
Definition do_accounting (aci : ACI) (err : option Error) : HM unit :=
  modify (add_event (mkAccounting (auth_user_of (ai_auth aci)) (Some (ai_source aci)) (ai_method aci)
    (ai_oid aci) (ai_params aci) (ai_note aci) err)).
(** svc/hmi/src/aci.rs:362-392 (ACI::log_success, ACI::log_error) *)
Definition log_outcome (aci : ACI) (err : option Error) : HM unit :=
  if up_to_info (ai_level aci) then
    _ ← do_accounting aci err;
    if hc_api_log e then log_ef (api_log_mark (ai_id aci) err) else mret tt
  else mret tt.
(** svc/hmi/src/aci.rs:335-361 [ACI::log_request] *)
Definition log_request_of (level : Level) (aci : ACI) : HM unit :=
  if hc_api_log e && up_to_info level then log_ef (api_log_insert aci) else mret tt.
Definition with_level (level : Level) (a : ACI) : ACI :=
  mkACI (ai_id a) (ai_auth a) (ai_source a) (ai_method a) (ai_params a) (ai_oid a) (ai_note a) level.
Definition with_auth (auth : Auth) (a : ACI) : ACI :=
  mkACI (ai_id a) auth (ai_source a) (ai_method a) (ai_params a) (ai_oid a) (ai_note a) (ai_level a).
(** svc/hmi/src/aci.rs:322-334 [ACI::log_param] *)
Definition with_param (name : string) (v : LogVal) (a : ACI) : ACI :=
  mkACI (ai_id a) (ai_auth a) (ai_source a) (ai_method a) (Some (<[name := v]> (default ∅ (ai_params a))))
    (ai_oid a) (ai_note a) (ai_level a).
Definition with_note (note : string) (a : ACI) : ACI :=
  with_param "note" (LvStr note)
    (mkACI (ai_id a) (ai_auth a) (ai_source a) (ai_method a) (ai_params a) (ai_oid a) (Some note) (ai_level a)).
Definition with_oid (i : OID) (a : ACI) : ACI :=
  mkACI (ai_id a) (ai_auth a) (ai_source a) (ai_method a) (ai_params a) (Some i) (ai_note a) (ai_level a).

(** svc/hmi/src/aci.rs:107-117 [log_unauthorized] *)
Definition log_unauthorized (method source : string) : HM unit :=
  aci ← aci_new ANo method source;
  let aci := with_level LvError aci in
  _ ← log_request_of LvError aci;
  log_outcome aci (Some EAccess).

(** svc/hmi/src/aci.rs:297-312 (ACI::writable, ACI::check_write) *)
Definition writable (a : Auth) : bool :=
  match a with AToken token => negb (is_readonly token) | _ => true end.
Definition check_write (a : Auth) : EResult unit := if writable a then Ok tt else Err EAccess.

(** svc/hmi/src/aci.rs:220-224 [ACI::user_pvt_path] *)
Definition user_pvt_path (a : Auth) : option string :=
  user_dirs ← cf_user_dirs cfg;
  user ← match a with AToken _ | AKey _ _ => auth_user_of a | _ => None end;
  Some (user_dirs +:+ "/" +:+ user)%string.
Definition own_pvt_path (a : Auth) (s : string) : bool :=
  match user_pvt_path a with
  | Some user_path =>
      String.eqb s user_path
      || match strip_prefix user_path s with Some x => String.prefix "/" x | None => false end
  | None => false
  end.
(** svc/hmi/src/aci.rs:225-237 [ACI::check_pvt_read] *)
Definition check_pvt_read (a : Auth) (s : string) : EResult bool :=
  if own_pvt_path a s then Ok true else acl ← auth_acl a; Ok (acl_check_pvt_read acl s).
(** svc/hmi/src/aci.rs:238-250 [ACI::check_pvt_write] *)
Definition check_pvt_write (a : Auth) (s : string) : EResult bool :=
  if own_pvt_path a s then Ok true else acl ← auth_acl a; Ok (acl_check_pvt_write acl s).

(** ** The methods

    A method runs with the access info of its call. *)

Abbreviation AM := (M (Hmi (Uuid := Uuid) * ACI)).

Definition on_hmi {A} (m : HM A) : AM A := fun s => let '(r, h) := m s.1 in (r, (h, s.2)).
Definition on_aci (f : ACI -> ACI) : AM unit := modify (fun s => (s.1, f s.2)).
Definition log_request (level : Level) : AM unit :=
  _ ← on_aci (with_level level); s ← get; on_hmi (log_request_of level s.2).
Definition log_param (name : string) (v : LogVal) : AM unit := on_aci (with_param name v).
Definition log_opt_note (note : option string) : AM unit :=
  match note with Some n => on_aci (with_note n) | None => mret tt end.
Definition my_auth : AM Auth := s ← get; mret (ai_auth s.2).
Definition my_acl : AM UserAcl := a ← my_auth; lift (auth_acl a).
Definition my_token : AM Token := a ← my_auth; lift (ok_or (auth_token a) EAccess).
Definition writing : AM unit := a ← my_auth; lift (check_write a).
Definition item_write (i : OID) : AM unit := acl ← my_acl; lift (require_item_write acl i).
Definition call_core (method : string) (p : HPayload) : AM (list Z) := on_hmi (bus_call e "eva.core" method p).

(** What a method returns, before it is made a value. *)
Inductive Res :=
  | RVal (v : Value)
  | ROk
  | RUnit
  | RMap (m : XOpts)
  | RToken (t : Token)
  | RTokens (l : list Token)
  | RTest (i : TestInfo) (auth : Auth) (acl : UserAcl) (admin : bool)
  | RAccess (l : list (OID * (bool * bool)))
  | RDict (h : CompactHistory Value)
  | RFrame (t : list f64) (data : gmap string (list Value))
  | RApiLog
  | RAppUrl (url : string)
  | RIds (l : list string)
  | RDbs (l : list (string * bool))
  | RContent (s : string)
  | REntries (l : list string)
  | RObject (d : DataObject)
  | RCode (s : string).

(** svc/hmi/src/api.rs:186-242 (run_api_filter) *)
Definition api_filter (api_call_method : string) (params : Value) : AM unit :=
  match cf_api_filter cfg with
  | Some i =>
      _ ← my_acl;
      s ← get;
      b ← call_core "run" (PFilterMacro i api_call_method params (ai_auth s.2) (ai_source s.2));
      exitcode ← lift (un_filter b);
      match exitcode with
      | Some code => if (code =? 0)%Z then mret tt else raise EAccess
      | None => raise EAccess
      end
  | None => mret tt
  end.
Definition demo_mode_abort : AM unit := if cf_demo cfg then raise EUnsupported else mret tt.
(** The time to wait is added to the timeout. *)
Definition extra_wait (wait : option f64) : EResult unit :=
  match wait with
  | Some w => d ← duration_from_secs_f64 w; _ ← duration_add (cf_timeout cfg) d; Ok tt
  | None => Ok tt
  end.
(** The UUID of an action as a text. *)
Definition uuid_text (result : Value) : EResult Value :=
  match map_remove result "uuid" with
  | Some (Some u, m) => u ← dec_uuid u; Ok (map_insert m "uuid" (VString (uuid_to_string u)))
  | _ => Ok result
  end.

(** svc/hmi/src/api.rs:690-700 [method_session_list_neighbors] *)
Definition method_session_list_neighbors (params : Value) : AM Res :=
  _ ← log_request LvDebug;
  _ ← lift (dec_empty params);
  tokens ← on_hmi (list_neighbors e);
  a ← my_auth;
  mret (RTokens (filter (fun v => tk_id <$> auth_token a ≠ Some (tk_id v)) tokens)).
(** svc/hmi/src/api.rs:702-742 [method_test] *)
Definition method_test (params : Value) : AM Res :=
  _ ← log_request LvDebug;
  _ ← lift (dec_empty params);
  b ← call_core "test" PEmpty;
  info ← lift (un_test b);
  acl ← my_acl;
  a ← my_auth;
  mret (RTest info a acl (check_admin acl)).
(** svc/hmi/src/api.rs:744-748 [method_ping] *)
Definition method_ping (params : Value) : AM Res :=
  _ ← log_request LvDebug;
  _ ← lift (dec_empty params);
  mret RUnit.
(** svc/hmi/src/api.rs:750-779 [method_reset_user] *)
Definition method_reset_user (params : Value) : AM Res :=
  _ ← log_request LvWarn;
  _ ← demo_mode_abort;
  token ← my_token;
  _ ← writing;
  p ← lift (dec_reset_user params);
  _ ← on_hmi (bus_call e (tk_auth_svc token) "reset.user" (PResetUser (tk_user token) p.1 p.2));
  mret ROk.
(** svc/hmi/src/api.rs:781-830 [method_set_password] *)
Definition method_set_password (params : Value) : AM Res :=
  _ ← log_request LvWarn;
  _ ← demo_mode_abort;
  token ← my_token;
  _ ← writing;
  p ← lift (dec_set_password params);
  s ← get;
  _ ← on_hmi (bus_call e (tk_auth_svc token) "auth.user" (PCheckPassword (tk_user token) p.1 (ai_source s.2)));
  _ ← on_hmi (bus_call e (tk_auth_svc token) "user.set_password" (PSetPassword (tk_user token) p.2 true));
  mret ROk.
(** svc/hmi/src/api.rs:832-857 [method_get_profile_field] *)
Definition method_get_profile_field (params : Value) : AM Res :=
  _ ← log_request LvTrace;
  token ← my_token;
  field ← lift (dec_profile_get params);
  b ← on_hmi (bus_call e (tk_auth_svc token) "user.get_profile_field" (PProfileGet (tk_user token) field));
  v ← lift (un_value b);
  mret (RVal v).
(** svc/hmi/src/api.rs:859-884 [method_set_profile_field] *)
Definition method_set_profile_field (params : Value) : AM Res :=
  _ ← log_request LvInfo;
  _ ← demo_mode_abort;
  token ← my_token;
  _ ← writing;
  p ← lift (dec_profile_set params);
  _ ← on_hmi (bus_call e (tk_auth_svc token) "user.set_profile_field" (PProfileSet (tk_user token) p.1 p.2));
  mret ROk.
(** svc/hmi/src/api.rs:886-919 [method_item_state] *)
Definition method_item_state (params : Value) : AM Res :=
  _ ← log_request LvDebug;
  p ← lift (dec_state params);
  acl ← my_acl;
  let '(allow, deny) := get_items_allow_deny_reading acl in
  b ← call_core "item.state" (PState p.1.1 p.2 allow deny p.1.2);
  v ← lift (un_value b);
  mret (RVal v).
(** svc/hmi/src/api.rs:921-942 [method_item_check_access] *)
Definition method_item_check_access (params : Value) : AM Res :=
  _ ← log_request LvDebug;
  ids ← lift (dec_ids params);
  oids ← for_collect (fun i => lift (oid_parse_str i)) ids;
  acl ← my_acl;
  mret (RAccess ((fun oid => (oid, (check_item_read acl oid, check_item_write acl oid))) <$> oids)).

(** ** The history of items *)

(** [f.round() as u32] *)
Definition f64_round_u32 (f : f64) : Z :=
  match f with
  | S754_finite false m ex =>
      let n := if (0 <=? ex)%Z then Z.shiftl (Z.pos m) ex
               else Z.shiftr (Z.pos m + Z.shiftl 1 (- ex - 1)) (- ex) in
      Z.min n (2 ^ 32 - 1)
  | S754_infinity false => (2 ^ 32 - 1)%Z
  | _ => 0%Z
  end.
Fixpoint strip_suffix_char (c : ascii) (s : string) : option string :=
  match s with
  | EmptyString => None
  | String a EmptyString => if Ascii.eqb a c then Some EmptyString else None
  | String a s => String a <$> strip_suffix_char c s
  end.
Definition parse_ts (t : option Value) : EResult (option f64) :=
  match t with Some t => t ← as_timestamp t; Ok (Some t) | None => Ok None end.
(** The fill and the precision (svc/hmi/src/api.rs:1011-1040) *)
Definition parse_fill (t_start t_end : f64) (fill : string) : EResult (Fill * option Z) :=
  let '(fill_str, precs) := split_once ":"%char fill in
  f ← match strip_suffix_char "A" fill_str with
      | Some x =>
          points ← u32_parse x;
          if (10000 <? points)%Z then Err EInvalidParams
          else if (points <? 2)%Z then Err EInvalidParams
          else
            let period := f64_div (f64_sub t_end t_start) (f64_of_Z (points - 1)) in
            let period := if f64_ltb period (f64_of_Z 1) then f64_of_Z 1 else period in
            Ok (fill_seconds (f64_round_u32 period))
      | None => fill_parse fill_str
      end;
  precs ← match precs with Some p => p ← u32_parse p; Ok (Some p) | None => Ok None end;
  Ok (f, precs).
(** The period that is asked for (svc/hmi/src/api.rs:1005-1010) *)
Definition history_period (t_start t_end : option Value) : AM (f64 * f64) :=
  n ← on_hmi tick;
  let ts_now := cf_ts cfg n in
  ts ← lift (parse_ts t_start);
  te ← lift (parse_ts t_end);
  let t_start := default (f64_sub ts_now (f64_of_Z 86400)) ts in
  let t_end := default ts_now te in
  if f64_ltb t_end t_start then raise EInvalidParams else mret (t_start, t_end).
Definition db_svc (database : option string) : string := ("eva.db." +:+ default (cf_default_db cfg) database)%string.

(** The series of one item joins the frame
    (svc/hmi/src/api.rs:1106-1147) *)
Definition join_series (acc : option (list f64) * gmap string (list Value)) (oid : string)
    (result : CompactHistory Value) : EResult (option (list f64) * gmap string (list Value)) :=
  let '(times, data) := acc in
  r ← match times with
      | Some ts =>
          match ch_set_time result with
          | [] => Ok (times, ch_status result, ch_value result)
          | set_time =>
              let n := length ts in
              if (length set_time <? n)%nat then Err EInvalidData
              else
                let cut {A} (l : option (list A)) :=
                  if (n <? length set_time)%nat then take n <$> l else l in
                if forallb (fun p => f64_eqb p.1 p.2) (zip ts (take n set_time))
                then Ok (times, cut (ch_status result), cut (ch_value result))
                else Err EInvalidData
          end
      | None => Ok (Some (ch_set_time result), ch_status result, ch_value result)
      end;
  let '(times, status, value) := r in
  let data := match status with Some s => <[(oid +:+ "/status")%string := s]> data | None => data end in
  let data := match value with Some v => <[(oid +:+ "/value")%string := v]> data | None => data end in
  Ok (times, data).

Variable (mask_to_string : OIDMask -> string).

Fixpoint history_frame (call : OIDMask -> AM (CompactHistory Value)) (oids : list OIDMask)
    (acc : option (list f64) * gmap string (list Value)) : AM (option (list f64) * gmap string (list Value)) :=
  match oids with
  | [] => mret acc
  | oid :: oids =>
      result ← call oid;
      acc ← lift (join_series acc (mask_to_string oid) result);
      history_frame call oids acc
  end.

(** svc/hmi/src/api.rs:956-1158 [method_item_state_history] *)
Definition method_item_state_history (params : Value) : AM Res :=
  _ ← log_request LvDebug;
  p ← lift (dec_history params);
  '(t_start, t_end) ← history_period (hp_t_start p) (hp_t_end p);
  '(fill, precision) ← match hp_fill p with
                       | Some fill => fp ← lift (parse_fill t_start t_end fill); mret (Some fp.1, fp.2)
                       | None => mret (None, None)
                       end;
  acl ← my_acl;
  let payload (i : OIDMask) := PHistory (mkHistory i t_start t_end fill precision (hp_limit p) (hp_prop p) (hp_xopts p)) in
  match hp_i p with
  | inl oid =>
      _ ← lift (require_item_mask_read acl oid);
      b ← on_hmi (bus_call e (db_svc (hp_database p)) "state_history" (payload oid));
      v ← lift (un_value b);
      if hp_dict p then h ← lift (dec_compact v); mret (RDict h) else mret (RVal v)
  | inr oids =>
      if hp_dict p then raise EInvalidParams
      else match fill with
      | Some _ =>
          _ ← for_each (fun oid => lift (require_item_mask_read acl oid)) oids;
          r ← history_frame (fun oid =>
              b ← on_hmi (bus_call e (db_svc (hp_database p)) "state_history" (payload oid));
              lift (un_compact b)) oids (None, ∅);
          mret (RFrame (default [] r.1) r.2)
      | None => raise EInvalidParams
      end
  end.
(** svc/hmi/src/api.rs:1160-1204 [method_item_state_log] *)
Definition method_item_state_log (params : Value) : AM Res :=
  _ ← log_request LvDebug;
  p ← lift (dec_state_log params);
  acl ← my_acl;
  oid ← lift (to_wildcard_oid (sp_i p));
  _ ← lift (require_item_read acl oid);
  t_start ← lift (parse_ts (sp_t_start p));
  t_end ← lift (parse_ts (sp_t_end p));
  b ← on_hmi (bus_call e (db_svc (sp_database p)) "state_log"
        (PStateLog (sp_i p) t_start t_end (sp_limit p) (sp_xopts p)));
  v ← lift (un_value b);
  mret (RVal v).
(** svc/hmi/src/api.rs:1206-1296 [method_item_state_history_combined] *)
Definition method_item_state_history_combined (params : Value) : AM Res :=
  _ ← log_request LvDebug;
  p ← lift (dec_combined params);
  '(t_start, t_end) ← history_period (cp_t_start p) (cp_t_end p);
  '(fill, precision) ← lift (parse_fill t_start t_end (cp_fill p));
  acl ← my_acl;
  _ ← for_each (fun oid => lift (require_item_mask_read acl oid))
        (match cp_i p with inl oid => [oid] | inr oids => oids end);
  b ← on_hmi (bus_call e (db_svc (cp_database p)) "state_history_combined"
        (PCombined (cp_i p) t_start t_end fill precision (cp_xopts p)));
  v ← lift (un_value b);
  mret (RVal v).

(** ** Logs *)

(** svc/hmi/src/db.rs:61-68 [quoted_sql_str] *)
Definition quoted_sql_str (s : string) : EResult unit :=
  if has_char "'" s then Err EInvalidData else Ok tt.
Definition opt_matches {A} (eqb : A -> A -> bool) (f : option A) (v : A) : bool :=
  match f with Some x => eqb x v | None => true end.
(** svc/hmi/src/db.rs:71-108 [ApiLogFilter::condition]: the rows it selects *)
Definition condition (f : ApiLogFilter Value OID) : EResult (LogRow -> bool) :=
  t_start ← parse_ts (af_t_start f);
  t_end ← parse_ts (af_t_end f);
  let quoted (o : option string) := match o with Some s => quoted_sql_str s | None => Ok tt end in
  _ ← quoted (af_user f);
  _ ← quoted (af_acl f);
  _ ← quoted (af_method f);
  _ ← quoted (oid_as_str <$> af_oid f);
  _ ← quoted (af_note f);
  _ ← quoted (af_source f);
  Ok (fun r =>
    match t_start with Some t => f64_leb t (f64_of_Z (lr_t r)) | None => true end
    && match t_end with Some t => f64_leb (f64_of_Z (lr_t r)) t | None => true end
    && match af_user f with Some u => bool_decide (lr_login r = Some u) | None => true end
    && opt_matches String.eqb (af_acl f) (lr_acl r)
    && opt_matches String.eqb (af_method f) (lr_method r)
    && match af_oid f with Some i => bool_decide (lr_oid r = Some i) | None => true end
    && match af_note f with Some n => bool_decide (lr_note r = Some n) | None => true end
    && opt_matches String.eqb (af_source f) (lr_source r)
    && match af_code f with Some c => match lr_code r with Some err => (c =? error_code err)%Z | None => false end
       | None => true end
    && match af_success f with
       | Some b => match lr_code r with Some err => Bool.eqb b (error_code err =? 0)%Z | None => false end
       | None => true end).
(** svc/hmi/src/aci.rs:47-92 [log_get]: a row has no column [auth_svc], which
    is read of each *)
Definition log_get (f : ApiLogFilter Value OID) : HM Res :=
  if hc_api_log e then
    cond ← lift (condition f);
    rows ← query e (fun d => filter (fun kv => cond kv.2 = true) (map_to_list (db_api_log d)));
    match rows with [] => mret RApiLog | _ => raise (he_db_error e) end
  else raise ENotReady.
(** svc/hmi/src/api.rs:1298-1321 [method_api_log_get] *)
Definition method_api_log_get (params : Value) : AM Res :=
  _ ← log_request LvDebug;
  f ← lift (if value_eqb params VUnit then Ok (mkLogFilter None None None None None None None None None None)
            else dec_log_filter params);
  acl ← my_acl;
  f ← (if negb (cf_public_api_log cfg) && negb (check_op acl OpModerator) then
         token ← my_token;
         match af_user f with
         | Some u => if String.eqb (tk_user token) u then mret f else raise EAccess
         | None => mret (mkLogFilter (af_t_start f) (af_t_end f) (Some (tk_user token)) (af_acl f) (af_method f)
                           (af_oid f) (af_note f) (af_source f) (af_code f) (af_success f))
         end
       else mret f);
  on_hmi (log_get f).
(** svc/hmi/src/api.rs:1323-1350 [method_log_get] *)
Definition method_log_get (params : Value) : AM Res :=
  _ ← log_request LvDebug;
  acl ← my_acl;
  _ ← lift (require_op acl OpLog);
  p ← lift (dec_log_get params);
  b ← call_core "log.get" (PLogGet p);
  v ← lift (un_value b);
  mret (RVal v).

(** ** Actions *)

(** svc/hmi/src/api.rs:1352-1427 [method_action] *)
Definition method_action (params : Value) : AM Res :=
  p ← lift (dec_action params);
  _ ← log_param "i" (LvOid (ap_i p));
  _ ← match ap_status p with Some st => log_param "status" (LvStatus (Some st)) | None => mret tt end;
  _ ← log_param "value" (LvValue (Some (ap_value p)));
  _ ← log_opt_note (ap_note p);
  _ ← on_aci (with_oid (ap_i p));
  _ ← log_request LvInfo;
  _ ← writing;
  _ ← item_write (ap_i p);
  _ ← api_filter "action" params;
  _ ← lift (extra_wait (ap_wait p));
  b ← call_core "action" (PAction (ap_i p) (ap_value p) (ap_priority p) (ap_wait p));
  v ← lift (un_value b);
  v ← lift (uuid_text v);
  mret (RVal v).
(** svc/hmi/src/api.rs:1445-1496 [method_run] *)
Definition method_run (params : Value) : AM Res :=
  p ← lift (dec_run params);
  acl ← my_acl;
  s ← get;
  let kwargs := <["acl" := acl_value acl]> (<["aci" := auth_value (ai_auth s.2) (ai_source s.2)]> (rn_kwargs p)) in
  _ ← log_param "i" (LvOid (rn_i p));
  _ ← log_opt_note (rn_note p);
  _ ← on_aci (with_oid (rn_i p));
  _ ← log_request LvInfo;
  _ ← writing;
  _ ← item_write (rn_i p);
  _ ← api_filter "run" params;
  _ ← lift (extra_wait (rn_wait p));
  b ← call_core "run" (PRun (rn_i p) (rn_args p) kwargs (rn_priority p) (rn_wait p));
  v ← lift (un_value b);
  v ← lift (uuid_text v);
  mret (RVal v).
(** svc/hmi/src/api.rs:1498-1538 [method_action_toggle] *)
Definition method_action_toggle (params : Value) : AM Res :=
  '(i, priority, wait, note) ← lift (dec_toggle params);
  _ ← log_param "i" (LvOid i);
  _ ← log_opt_note note;
  _ ← on_aci (with_oid i);
  _ ← log_request LvInfo;
  _ ← writing;
  _ ← item_write i;
  _ ← api_filter "action.toggle" params;
  _ ← lift (extra_wait wait);
  b ← call_core "action.toggle" (PToggle i priority wait);
  v ← lift (un_value b);
  v ← lift (uuid_text v);
  mret (RVal v).
(** svc/hmi/src/api.rs:1540-1573 [method_action_result] *)
Definition method_action_result (params : Value) : AM Res :=
  _ ← log_request LvDebug;
  u ← lift (dec_result params);
  u ← lift (uuid_parse u);
  b ← call_core "action.result" (PUuid u);
  result ← lift (un_map b);
  result ← lift (match result !! "uuid" with
                 | Some u => u ← dec_uuid u; Ok (<["uuid" := VString (uuid_to_string u)]> result)
                 | None => Ok result
                 end);
  oid_c ← lift (ok_or (result !! "oid") EInvalidData);
  o ← lift (ok_or (as_string oid_c) EInvalidData);
  oid ← lift (oid_parse_str o);
  acl ← my_acl;
  _ ← lift (require_item_read acl oid);
  mret (RMap result).
(** svc/hmi/src/api.rs:1575-1614 [method_action_terminate] *)
Definition method_action_terminate (params : Value) : AM Res :=
  p ← lift (dec_terminate params);
  _ ← log_param "u" (LvStr p.1);
  _ ← log_opt_note p.2;
  _ ← log_request LvWarn;
  _ ← writing;
  _ ← api_filter "action.terminate" params;
  u ← lift (uuid_parse p.1);
  b ← call_core "action.result" (PUuid u);
  info ← lift (un_value b);
  _ ← (if is_map info then
         oid_c ← lift (ok_or (as_map_get info "oid") EInvalidData);
         o ← lift (ok_or (as_string oid_c) EInvalidData);
         oid ← lift (oid_parse_str o);
         item_write oid
       else mret tt);
  _ ← call_core "action.terminate" (PUuid u);
  mret ROk.
(** svc/hmi/src/api.rs:1616-1637 [method_action_kill] *)
Definition method_action_kill (params : Value) : AM Res :=
  '(i, note) ← lift (dec_kill params);
  _ ← log_param "i" (LvOid i);
  _ ← log_opt_note note;
  _ ← on_aci (with_oid i);
  _ ← log_request LvWarn;
  _ ← writing;
  _ ← item_write i;
  _ ← api_filter "action.kill" params;
  _ ← call_core "action.kill" (PKill i);
  mret ROk.

(** ** Logical variables *)

(** svc/hmi/src/api.rs:1639-1670 [method_lvar_set] *)
Definition method_lvar_set (params : Value) : AM Res :=
  '(i, status, value, note) ← lift (dec_lvar_set params);
  _ ← log_param "i" (LvOid i);
  _ ← log_param "status" (LvStatus status);
  _ ← log_param "value" (LvValue value);
  _ ← log_opt_note note;
  _ ← on_aci (with_oid i);
  _ ← log_request LvInfo;
  _ ← writing;
  _ ← item_write i;
  _ ← api_filter "lvar.set" params;
  _ ← call_core "lvar.set" (PLvarSet i status value);
  mret ROk.

Inductive LvarMethod := LmReset | LmClear | LmToggle | LmIncr | LmDecr.
Definition lvar_method (m : LvarMethod) : string :=
  match m with
  | LmReset => "lvar.reset" | LmClear => "lvar.clear" | LmToggle => "lvar.toggle"
  | LmIncr => "lvar.incr" | LmDecr => "lvar.decr"
  end.
(** svc/hmi/src/api.rs:1672-1793 (method_lvar_reset, method_lvar_clear,
    method_lvar_toggle, method_lvar_incr, method_lvar_decr): the last one runs
    the filter before it checks the rights *)
Definition method_lvar (m : LvarMethod) (params : Value) : AM Res :=
  '(i, note) ← lift (dec_lvar params);
  _ ← log_param "i" (LvOid i);
  _ ← log_opt_note note;
  _ ← on_aci (with_oid i);
  _ ← log_request LvInfo;
  _ ← writing;
  _ ← match m with
      | LmDecr => _ ← api_filter (lvar_method m) params; item_write i
      | _ => _ ← item_write i; api_filter (lvar_method m) params
      end;
  b ← call_core (lvar_method m) (PLvar i);
  match m with
  | LmIncr | LmDecr => v ← lift (un_value b); mret (RVal v)
  | _ => mret ROk
  end.

(** ** Calls to other services *)

Definition unpack_reply (b : list Z) : EResult Res :=
  match b with [] => Ok RUnit | _ => v ← un_value b; Ok (RVal v) end.
(** svc/hmi/src/api.rs:1795-1822 [method_bus_call] *)
Definition method_bus_call (target method : string) (params : Value) : AM Res :=
  _ ← log_request LvDebug;
  _ ← writing;
  acl ← my_acl;
  _ ← lift (require_admin acl);
  _ ← api_filter ("bus::" +:+ target +:+ "::" +:+ method)%string params;
  b ← on_hmi (bus_call e target method (if is_map params && map_empty params then PEmpty else PBus params));
  lift (unpack_reply b).
(** svc/hmi/src/api.rs:1824-1848 [method_x_call] *)
Definition method_x_call (target method : string) (params : Value) : AM Res :=
  _ ← log_request LvDebug;
  _ ← api_filter ("x::" +:+ target +:+ "::" +:+ method)%string params;
  _ ← my_acl;
  s ← get;
  b ← on_hmi (bus_call e target "x" (PX method params (ai_auth s.2) (ai_source s.2)));
  lift (unpack_reply b).
(** svc/hmi/src/api.rs:1850-1859 [method_session_set_readonly] *)
Definition method_session_set_readonly (params : Value) : AM Res :=
  _ ← log_request LvDebug;
  _ ← lift (dec_empty params);
  a ← my_auth;
  token ← lift (ok_or (auth_token a) EFailed);
  token ← on_hmi (token_change_mode e TOKEN_MODE_READONLY token);
  mret (RToken token).

(** ** Data of users *)

(** svc/hmi/src/db.rs:658-672 [get_user_data] *)
Definition get_user_data (login key : string) : HM Value :=
  row ← query e (fun d => db_user_data d !! (login, key));
  s ← lift (ok_or row ENotFound);
  lift (value_of_json s).
(** svc/hmi/src/db.rs:674-683 [delete_user_data] *)
Definition delete_user_data (login key : string) : HM unit :=
  sql e (fun d => set_user_data_table (delete (login, key) (db_user_data d)) d).
(** svc/hmi/src/db.rs:685-737 [set_user_data]; the change is made by the
    commit *)
Definition set_user_data (login key : string) (value : Value) : HM unit :=
  _ ← query e (fun _ => tt);
  count ← query e (fun d => length (filter (fun kv => kv.1.1 = login) (map_to_list (db_user_data d))));
  if (cf_max_records cfg <=? Z.of_nat count)%Z then raise EAccess
  else
    data_str ← lift (value_json value);
    if (cf_max_len cfg <? Z.of_nat (String.length data_str))%Z then raise EAccess
    else
      _ ← query e (fun _ => tt);
      sql e (fun d => set_user_data_table (<[(login, key) := data_str]> (db_user_data d)) d).
(** svc/hmi/src/api.rs:1946-1964 [method_user_data_get] *)
Definition method_user_data_get (params : Value) : AM Res :=
  _ ← log_request LvTrace;
  key ← lift (dec_key params);
  token ← my_token;
  v ← on_hmi (get_user_data (tk_user token) key);
  mret (RVal v).
(** svc/hmi/src/api.rs:1966-1980 [method_user_data_set] *)
Definition method_user_data_set (params : Value) : AM Res :=
  _ ← log_request LvTrace;
  p ← lift (dec_key_value params);
  token ← my_token;
  _ ← on_hmi (set_user_data (tk_user token) p.1 p.2);
  mret ROk.
(** svc/hmi/src/api.rs:1982-1995 [method_user_data_delete] *)
Definition method_user_data_delete (params : Value) : AM Res :=
  _ ← log_request LvTrace;
  key ← lift (dec_key params);
  token ← my_token;
  _ ← on_hmi (delete_user_data (tk_user token) key);
  mret ROk.

(** ** Lists of services *)

(** svc/hmi/src/api.rs:1997-2036 [method_llc_list] *)
Definition method_llc_list (params : Value) : AM Res :=
  _ ← log_request LvDebug;
  _ ← lift (dec_empty params);
  b ← call_core "svc.list" (PSvcList "^.*\.llc\..*$");
  svcs ← lift (un_svcs b);
  mret (RIds (filter (fun svc => svc.2 = true) svcs).*1).
(** svc/hmi/src/api.rs:2038-2082 [method_db_list] *)
Definition method_db_list (params : Value) : AM Res :=
  _ ← log_request LvDebug;
  _ ← lift (dec_empty params);
  b ← call_core "svc.list" (PSvcList "^eva\.db\..*$");
  svcs ← lift (un_svcs b);
  mret (RDbs (omap (fun svc : string * bool =>
    if svc.2 then (fun i => (i, String.eqb i (cf_default_db cfg))) <$> strip_prefix "eva.db." svc.1 else None) svcs)).

(** ** Private files *)

Fixpoint str_contains (sub s : string) : bool :=
  String.prefix sub s || match s with EmptyString => false | String _ s => str_contains sub s end.
Fixpoint ends_with (sub s : string) : bool :=
  String.eqb sub s || match s with EmptyString => false | String _ s => ends_with sub s end.
(** svc/hmi/src/main.rs:138-147 [path_contains_traversal] *)
Definition path_contains_traversal (path : string) : bool :=
  match url_decode path with
  | None => true
  | Some decoded =>
      str_contains "/../" decoded || ends_with "/.." decoded || String.prefix "../" decoded
      || String.eqb decoded ".."
  end.

(** The components of a relative path; [.] counts only as the first. *)
Definition rel_components (s : string) : list string :=
  match path_components s with
  | c :: l => c :: filter (fun c => c ≠ ".") l
  | [] => []
  end.
(** [path.extend(..)], for a path that does not end with a slash *)
Definition path_extend (base : string) (l : list string) : string := foldl path_join base l.

(** svc/hmi/src/api.rs:114-145 [format_and_check_path] *)
Definition format_and_check_path (s : string) (a : Auth) (op : PvtOp) : EResult string :=
  let check_acl (path : string) :=
    match op with
    | PvtOpRead => r ← check_pvt_read a path; if (r : bool) then Ok tt else Err EAccess
    | PvtOpWrite => r ← check_pvt_write a path; if (r : bool) then Ok tt else Err EAccess
    | PvtOpList => Ok tt
    end in
  pvt_path ← ok_or (cf_pvt_path cfg) EUnsupported;
  if String.eqb s "/" then _ ← check_acl ""; Ok pvt_path
  else if path_absolute s then Err EAccess
  else if path_contains_traversal s then Err EAccess
  else _ ← check_acl s; Ok (path_extend pvt_path (rel_components s)).

Definition fs_call : HM unit := n ← tick; lift (he_fs e n).
(** svc/hmi/src/api.rs:2084-2112 [method_pvt_put] *)
Definition method_pvt_put (params : Value) : AM Res :=
  p ← lift (dec_pvt_put params);
  _ ← log_param "path" (LvStr p.1);
  _ ← log_request LvInfo;
  _ ← writing;
  _ ← api_filter "pvt.put" params;
  a ← my_auth;
  path ← lift (format_and_check_path p.1 a PvtOpWrite);
  _ ← match path_parent path with Some _ => on_hmi fs_call | None => mret tt end;
  _ ← on_hmi fs_call;
  _ ← on_hmi (modify (fun s => set_files (<[path := ""]> (hm_files s)) s));
  _ ← on_hmi fs_call;
  _ ← on_hmi (modify (fun s => set_files (<[path := p.2]> (hm_files s)) s));
  _ ← on_hmi fs_call;
  mret ROk.
(** svc/hmi/src/api.rs:2114-2134 [method_pvt_get] *)
Definition method_pvt_get (params : Value) : AM Res :=
  _ ← log_request LvDebug;
  i ← lift (dec_pvt_path params);
  a ← my_auth;
  path ← lift (format_and_check_path i a PvtOpRead);
  _ ← on_hmi fs_call;
  s ← get;
  content ← lift (ok_or (hm_files s.1 !! path) ENotFound);
  mret (RContent content).
(** svc/hmi/src/api.rs:2136-2157 [method_pvt_unlink] *)
Definition method_pvt_unlink (params : Value) : AM Res :=
  i ← lift (dec_pvt_path params);
  _ ← log_param "path" (LvStr i);
  _ ← log_request LvInfo;
  _ ← writing;
  _ ← api_filter "pvt.unlink" params;
  a ← my_auth;
  path ← lift (format_and_check_path i a PvtOpWrite);
  _ ← on_hmi fs_call;
  s ← get;
  _ ← lift (ok_or (hm_files s.1 !! path) ENotFound);
  _ ← on_hmi (modify (fun s => set_files (delete path (hm_files s)) s));
  mret ROk.
(** svc/hmi/src/api.rs:2159-2214 [method_pvt_list] *)
Definition method_pvt_list (params : Value) : AM Res :=
  _ ← log_request LvDebug;
  p ← lift (dec_pvt_list params);
  a ← my_auth;
  path ← lift (format_and_check_path (pl_path p) a PvtOpList);
  entries ← lift (cf_list cfg path (default ["*"%string] (pl_masks p)) (pl_dirs p) (pl_recursive p));
  let plen := match cf_pvt_path cfg with Some v => String.length v + 1 | None => 0 end in
  shown ← for_collect (fun r =>
      if (plen <? String.length r)%nat then
        ok ← lift (check_pvt_read a (str_drop plen r));
        mret (if (ok : bool) && (String.length path + 1 <? String.length r)%nat
              then Some (str_drop (String.length path + 1) r) else None)
      else mret None) entries;
  mret (REntries (omap id shown)).

(** ** Data objects *)

(** svc/hmi/src/api.rs:2216-2221 [method_dobj_list] *)
Definition method_dobj_list (params : Value) : AM Res :=
  _ ← log_request LvDebug;
  acl ← my_acl;
  _ ← lift (require_op acl OpDeveloper);
  _ ← lift (dec_empty params);
  b ← call_core "dobj.list" (PDobj None);
  v ← lift (un_value b);
  mret (RVal v).
Definition dobj_config (i : string) : AM DataObject :=
  b ← call_core "dobj.get_config" (PDobj (Some i)); lift (un_dobj b).
(** svc/hmi/src/api.rs:2223-2240 [method_dobj_get_struct] *)
Definition method_dobj_get_struct (params : Value) : AM Res :=
  _ ← log_request LvDebug;
  acl ← my_acl;
  _ ← lift (require_op acl OpDeveloper);
  i ← lift (dec_id params);
  d ← dobj_config i;
  mret (RObject (dobj_without_oids d)).
(** svc/hmi/src/api.rs:2242-2293 [method_dobj_get_struct_code] *)
Definition method_dobj_get_struct_code (params : Value) : AM Res :=
  _ ← log_request LvDebug;
  acl ← my_acl;
  _ ← lift (require_op acl OpDeveloper);
  '(ids, lang, config) ← lift (dec_struct_code params);
  gen ← lift (code_gen lang config);
  codes ← for_collect (fun i => d ← dobj_config i; lift (gen d)) ids;
  mret (RCode (String.concat "
" ((fun c => c +:+ "
")%string <$> codes))).

(** ** Logins *)

(** svc/hmi/src/api.rs:245-271 [login_key] *)
Definition login_key (key : string) (ip : option IpAddr) (source : string) : HM Token :=
  aci ← aci_new (ALoginKey None None) "login" source;
  r ← hmi_auth_key e key ip;
  match r with
  | Some (acl, svc) =>
      match api_key_id acl with
      | Some id =>
          let login := ("." +:+ id)%string in
          let aci := with_auth (ALoginKey (Some login) (Some (acl_get_id acl))) aci in
          token ← create_token e login acl svc ip;
          _ ← log_request_of LvInfo aci;
          _ ← log_outcome aci None;
          mret token
      | None => raise EFailed
      end
  | None =>
      _ ← log_request_of LvInfo aci;
      _ ← log_outcome aci (Some EAccess);
      raise EAccess
  end.

(** A service has verified the user (svc/hmi/src/api.rs:317-344) *)
Definition login_verified (login : string) (token_id : option string) (ip : option IpAddr) (svc : string)
    (r : option string * option string * UserAcl) (aci : ACI) : HM Token :=
  let '(login', note, acl) := r in
  _ ← (if negb (check_admin acl) && negb (hc_allow_concurrent e) then
         active ← is_active_session_for e login;
         if (active : bool) then raise EAccess else mret tt
       else mret tt);
  let login := default login login' in
  match token_id with
  | Some ti =>
      id ← lift (token_id_of_string ti);
      token ← get_token e id ip;
      if negb (String.eqb (tk_user token) login) then raise EAccess
      else if is_readonly token then token_change_mode e TOKEN_MODE_NORMAL token
      else mret token
  | None =>
      let aci := with_auth (ALogin login (Some (acl_get_id acl))) aci in
      let aci := match note with Some n => with_note n aci | None => aci end in
      token ← create_token e login acl svc ip;
      _ ← log_request_of LvInfo aci;
      _ ← log_outcome aci None;
      mret token
  end.
(** The services are asked one after the other. *)
Fixpoint login_at (svcs : list string) (payload : HPayload) (login : string) (token_id : option string)
    (ip : option IpAddr) (aci : ACI) : HM Token :=
  match svcs with
  | [] =>
      let aci := with_param "login" (LvStr login) aci in
      _ ← log_request_of LvInfo aci;
      _ ← log_outcome aci (Some EAccess);
      raise EAccess
  | svc :: svcs =>
      r ← bus_try e svc "auth.user" payload;
      match r with
      | inl b => r ← lift (un_acl_params b); login_verified login token_id ip svc r aci
      | inr (EAccess, true) => raise EAccess
      | inr (EMoreData, _) => raise EMoreData
      | inr _ => login_at svcs payload login token_id ip aci
      end
  end.
(** svc/hmi/src/api.rs:273-374 [login] *)
Definition login_user (login password : string) (xopts : option XOpts) (token_id : option string)
    (ip : option IpAddr) (source : string) (externally_verified : bool) : HM Token :=
  aci ← aci_new (ALogin login None) "login" source;
  login_at (hc_auth_svcs e) (PAuthUser login password xopts source externally_verified) login token_id ip aci.

Definition gen_source (ip : option IpAddr) : string :=
  match ip with Some v => ip_to_string v | None => "-" end.
(** svc/hmi/src/api.rs:73-106 [login_meta] *)
Definition login_meta (meta : Meta) (ip : option IpAddr) : HM Token :=
  match me_key meta, me_credentials meta with
  | Some key, _ => login_key key ip (gen_source ip)
  | None, Some creds => login_user creds.1 creds.2 None None ip (gen_source ip) false
  | None, None =>
      r ← match me_external_token meta, cf_oidc cfg with
          | Some token, Some verify =>
              match verify token with
              | Ok sub => attempt (login_user sub "" None None ip (gen_source ip) true)
              | Err _ => mret (Err EAccess)
              end
          | _, _ => mret (Err EAccess)
          end;
      match r with
      | Ok token => mret token
      | Err EPanic => raise EPanic
      | Err _ =>
          match me_agent meta with
          | Some agent => if String.prefix "evaHI " agent then raise EAuthRequired else raise EAccess
          | None => raise EAccess
          end
      end
  end.

(** ** Panels *)

Definition sha256_text (l : list Z) : string := base64_encode (sha256 l).
(** svc/hmi/src/db.rs:591-619 [insert_ehmi_config] *)
Definition insert_ehmi_config (token_id config_key : string) (payload : AppPayload) : HM unit :=
  t ← now e;
  t ← lift (i64_of t);
  sql_insert e (fun d => bool_decide (db_ehmi d !! config_key = None /\ is_Some (db_tokens d !! token_id)))
    (fun d => set_ehmi (<[config_key := mkEhmi token_id payload t]> (db_ehmi d)) d).
Fixpoint trim_end_slash (l : list ascii) : list ascii :=
  match l with a :: l' => if Ascii.eqb a slash then trim_end_slash l' else l | [] => [] end.
(** [s.trim_end_matches('/')] *)
Definition trim_end_matches (s : string) : string :=
  String.string_of_list_ascii (reverse (trim_end_slash (reverse (String.list_ascii_of_string s)))).
(** svc/hmi/src/api.rs:1861-1934 [method_ehmi_create_config] *)
Definition method_ehmi_create_config (key source : string) (params : Value) : AM Res :=
  _ ← log_request LvDebug;
  let config_key := sha256_text (as_bytes source ++ as_bytes key ++ pack_value params) in
  config ← lift (dec_ehmi params);
  let app_id := match config !! "app" with Some v => value_display v | None => "ec" end in
  let config := delete "uid" (delete "app" config) in
  v ← lift (ok_or (config !! "hmi_url") EInvalidParams);
  hmi_url ← lift (ok_or (as_string v) EInvalidParams);
  let config := delete "hmi_url" config in
  stored ← on_hmi (query e (fun d => eh_token_id <$> db_ehmi d !! config_key));
  found ← match stored with
          | Some ti =>
              id ← lift (token_id_of_str ti);
              r ← on_hmi (attempt (get_token e id None));
              match r with
              | Ok _ => mret (Some ti)
              | Err EPanic => raise EPanic
              | Err _ => mret None
              end
          | None => mret None
          end;
  ti ← match found with
       | Some ti => mret ti
       | None =>
           token ← (if String.prefix "token:" key then
                      a ← on_hmi (authenticate e key None);
                      lift (ok_or (auth_token a) ECore)
                    else on_hmi (login_key key None source));
           let ti := to_short_string (tk_id token) in
           _ ← on_hmi (insert_ehmi_config ti config_key (mkApp (token_id_to_string (tk_id token)) 4 config));
           mret ti
       end;
  mret (RAppUrl (trim_end_matches hmi_url +:+ "/ui/ehmi/" +:+ app_id +:+ "/?ck=" +:+ config_key
    +:+ "&uid=" +:+ sha256_text (as_bytes ti))%string).
(** svc/hmi/src/api.rs:1936-1944 [method_ehmi_get_config] *)
Definition method_ehmi_get_config (params : Value) : HM Res :=
  ck ← lift (dec_ck params);
  row ← query e (fun d => db_ehmi d !! ck);
  row ← lift (ok_or row ENotFound);
  mret (RVal (app_value (eh_config row))).

(** ** Dispatch *)

(** The methods by name (svc/hmi/src/api.rs:588-653) *)
Definition api_methods (key source : string) : list (list string * (Value -> AM Res)) := [
  (["test"], method_test);
  (["ping"], method_ping);
  (["set_password"], method_set_password);
  (["user.reset"], method_reset_user);
  (["profile.get_field"], method_get_profile_field);
  (["profile.set_field"], method_set_profile_field);
  (["item.state"; "state"], method_item_state);
  (["item.check_access"; "check_item_access"], method_item_check_access);
  (["item.state_history"; "state_history"], method_item_state_history);
  (["item.state_log"; "state_log"], method_item_state_log);
  (["item.state_history_combined"], method_item_state_history_combined);
  (["log.get"; "log_get"], method_log_get);
  (["api_log.get"], method_api_log_get);
  (["action"], method_action);
  (["action.toggle"; "action_toggle"], method_action_toggle);
  (["action.result"; "result"], method_action_result);
  (["action.kill"; "kill"], method_action_kill);
  (["action.terminate"; "terminate"], method_action_terminate);
  (["run"], method_run);
  (["lvar.set"; "set"], method_lvar_set);
  (["lvar.reset"; "reset"], method_lvar LmReset);
  (["lvar.clear"; "clear"], method_lvar LmClear);
  (["lvar.toggle"; "toggle"], method_lvar LmToggle);
  (["lvar.incr"; "increment"], method_lvar LmIncr);
  (["lvar.decr"; "decrement"], method_lvar LmDecr);
  (["session.list_neighbors"; "get_neighbor_clients"], method_session_list_neighbors);
  (["session.set_readonly"; "set_token_readonly"], method_session_set_readonly);
  (["ehmi.create_config"], method_ehmi_create_config key source);
  (["user_data.get"], method_user_data_get);
  (["user_data.set"], method_user_data_set);
  (["user_data.delete"], method_user_data_delete);
  (["db.list"], method_db_list);
  (["llc.list"], method_llc_list);
  (["pvt.put"], method_pvt_put);
  (["pvt.get"], method_pvt_get);
  (["pvt.unlink"], method_pvt_unlink);
  (["pvt.list"], method_pvt_list);
  (["dobj.list"], method_dobj_list);
  (["dobj.get_struct"], method_dobj_get_struct);
  (["dobj.generate_struct_code"], method_dobj_get_struct_code)
]%string.

(** [s.splitn(2, "::")] *)
Fixpoint split_colons (s : string) : string * option string :=
  match s with
  | EmptyString => (EmptyString, None)
  | String a s' =>
      if Ascii.eqb a ":" then
        match s' with
        | String b r => if Ascii.eqb b ":" then (EmptyString, Some r)
                        else let '(x, y) := split_colons s' in (String a x, y)
        | EmptyString => (s, None)
        end
      else let '(x, y) := split_colons s' in (String a x, y)
  end.
(** The method with its target, if it is one of another service
    (svc/hmi/src/api.rs:569-587) *)
Definition find_method (method key source : string) : EResult (Value -> AM Res) :=
  match strip_prefix "bus::" method with
  | Some bus_call =>
      let '(target, rest) := split_colons bus_call in
      bus_method ← ok_or rest EInvalidParams;
      Ok (method_bus_call target bus_method)
  | None =>
      match strip_prefix "x::" method with
      | Some x_call =>
          let '(target, rest) := split_colons x_call in
          rest ← ok_or rest EInvalidParams;
          Ok (method_x_call target (split_colons rest).1)
      | None =>
          m ← ok_or (list_find (fun m => method ∈ m.1) (api_methods key source)) EMethodNotFound;
          Ok m.2.2
      end
  end.

(** The method with the access info of the call; its outcome is logged. *)
Definition run_method (m : AM Res) (aci : ACI) : HM Res := fun s =>
  let '(r, (h, aci)) := m (s, aci) in
  match r with
  | Err EPanic => (r, h)
  | Err err => (r, (log_outcome aci (Some err) h).2)
  | Ok _ => (r, (log_outcome aci None h).2)
  end.
(** A method that needs authentication (svc/hmi/src/api.rs:519-664) *)
Definition call_authed (method : string) (params : option Value) (meta : Meta) : HM Res :=
  let ip := me_ip meta in
  let source := gen_source ip in
  params ← lift (ok_or params EInvalidParams);
  '(k, params) ← lift (ok_or (map_remove params "k") EAccess);
  key ← match k, me_key meta with
        | Some v, _ => lift (dec_string v)
        | None, Some key => mret key
        | None, None => _ ← log_ef (log_unauthorized method source); raise EAccess
        end;
  r ← attempt (authenticate e key ip);
  auth ← match r with
         | Ok v => mret v
         | Err EPanic => raise EPanic
         | Err err => _ ← log_ef (log_unauthorized method source); raise err
         end;
  aci ← aci_new auth method source;
  m ← lift (find_method method key source);
  run_method (m params) aci.

(** svc/hmi/src/api.rs:417-518 (call), for all methods but [call] *)
Definition call_method (method : string) (params : option Value) (meta : Meta) : HM Res :=
  let ip := me_ip meta in
  let source := gen_source ip in
  let token (m : HM Token) : HM Res := t ← m; mret (RToken t) in
  if String.eqb method "login" then
    match params with
    | Some params =>
        p ← lift (dec_login params);
        match p with
        | UserAuth user password xopts => token (login_user user password xopts None ip source false)
        | KeyAuth k => token (login_key k ip source)
        | TokenInfo t => token (id ← lift (token_id_of_string t); get_token e id ip)
        | TokenSetNormal user password t xopts =>
            token (login_user user password xopts (Some t) ip source false)
        | LoginEmpty => token (login_meta meta ip)
        end
    | None => token (login_meta meta ip)
    end
  else if String.eqb method "logout" then
    params ← lift (ok_or params EInvalidParams);
    t ← lift (dec_logout params);
    id ← lift (token_id_of_string t);
    _ ← log_ef (destroy_token e id);
    mret ROk
  else if String.eqb method "ehmi.get_config" then method_ehmi_get_config (default value_default params)
  else call_authed method params meta.

(** svc/hmi/src/api.rs:376-401 [method_call]: the method and the parameters a
    text stands for *)
Definition call_target (params : Value) : EResult (string * Value) :=
  p ← dec_call params;
  r ← parse_call_str p.1;
  let '(call_name, call_params) := r in
  let call_params := match p.2, call_params !! "k" with
                     | Some key, None => <["k" := VString key]> call_params
                     | _, _ => call_params
                     end in
  if String.eqb call_name "call" then Err EMethodNotFound
  else
    let name := if String.eqb call_name "s" then "item.state"
                else if String.eqb call_name "h" then "item.state_history"
                else if String.eqb call_name "ehmi" then "ehmi.create_config"
                else call_name in
    Ok (name, VMap call_params).
Definition method_call (params : Value) (meta : Meta) : HM Res :=
  '(name, params) ← lift (call_target params);
  call_method name (Some params) meta.
Definition call (method : string) (params : option Value) (meta : Meta) : HM Res :=
  if String.eqb method "call" then method_call (default value_default params) meta
  else call_method method params meta.
End api.
