(* ===== verification/HmiSpec.v ===== *)
(** * The HMI service: who may do what

    The calls an API request makes to other services are those the rights of
    an authenticated caller permit; a caller is authenticated only through a
    session that a login has opened, or by a key; private files stay below
    their directory. *)
From Stdlib Require Import Ascii.
From S2P Require Import Prelude Duration EvaCommon Password Launcher HmiTokens HmiApi.

Section spec.
Context {Uuid : Type} `{Countable Uuid} `{Ext : Externals, HExt : !HmiExternals Uuid, HashExternals, AExt : !ApiExternals}.
Variable (e : HmiEnv (Uuid := Uuid)) (cfg : ApiConfig) (error_code : option Error -> Z)
  (mask_to_string : OIDMask -> string).

Abbreviation St := (Hmi (Uuid := Uuid)).
Abbreviation Log := (list (BusCall (Uuid := Uuid) * BusReply)).
Abbreviation HM := (M St).
Abbreviation AM := (M (St * ACI)).
Implicit Types (s : St) (a : Auth) (l : Log).

(** ** What a caller may have done *)

(** The last call was to the filter macro, which has accepted. *)
Definition filter_passed a l : Prop :=
  match cf_api_filter cfg with
  | Some i => exists t m name params src b l',
      l = (mkBusCall t m (PFilterMacro i name params a src), inl b) :: l' /\ un_filter b = Ok (Some 0%Z)
  | None => True
  end.

(** The item of an action the core has told about is one the caller may
    control. *)
Definition action_known a l (u : Uuid) : Prop :=
  exists b info l', l = (mkBusCall "eva.core" "action.result" (PUuid u), inl b) :: l' /\
    un_value b = Ok info /\ filter_passed a l' /\
    (is_map info = true -> exists v o oid acl, as_map_get info "oid" = Some v /\ as_string v = Some o /\
       oid_parse_str o = Ok oid /\ auth_acl a = Ok acl /\ require_item_write acl oid = Ok tt).

Definition own_account a (c : BusCall (Uuid := Uuid)) (login : string) : Prop :=
  exists t, a = AToken t /\ login = tk_user t /\ bc_target c = tk_auth_svc t.

(** A call the caller [a] may have made, after the calls [l]. *)
Definition permitted a l (c : BusCall) : Prop :=
  exists acl, auth_acl a = Ok acl /\
  match bc_payload c with
  | PAction i _ _ _ | PRun i _ _ _ _ | PToggle i _ _ | PKill i | PLvarSet i _ _ | PLvar i =>
      bc_target c = "eva.core" /\ writable a = true /\ require_item_write acl i = Ok tt /\ filter_passed a l
  | PUuid u =>
      bc_target c = "eva.core" /\
      (bc_method c = "action.result" \/
       bc_method c = "action.terminate" /\ writable a = true /\ action_known a l u)
  | PBus _ => writable a = true /\ require_admin acl = Ok tt /\ filter_passed a l
  | PEmpty =>
      bc_target c = "eva.core" /\ bc_method c = "test" \/
      writable a = true /\ require_admin acl = Ok tt /\ filter_passed a l
  | PX _ _ a' _ => a' = a /\ filter_passed a l
  | PState _ _ include exclude _ =>
      bc_target c = "eva.core" /\ bc_method c = "item.state" /\
      get_items_allow_deny_reading acl = (include, exclude)
  | PHistory q => require_item_mask_read acl (hq_i q) = Ok tt
  | PStateLog i _ _ _ _ => exists oid, to_wildcard_oid i = Ok oid /\ require_item_read acl oid = Ok tt
  | PCombined i _ _ _ _ _ =>
      Forall (fun m => require_item_mask_read acl m = Ok tt) (match i with inl m => [m] | inr ms => ms end)
  | PLogGet _ => require_op acl OpLog = Ok tt
  | PDobj _ => require_op acl OpDeveloper = Ok tt
  | PSvcList _ => bc_target c = "eva.core" /\ bc_method c = "svc.list"
  | PFilterMacro i _ _ a' _ => cf_api_filter cfg = Some i /\ a' = a
  | PProfileGet login _ => own_account a c login
  | PProfileSet login _ _ | PResetUser login _ _ | PCheckPassword login _ _ | PSetPassword login _ _ =>
      own_account a c login /\ writable a = true /\ cf_demo cfg = false
  | PAuthKey _ _ | PAuthUser _ _ _ _ _ | PStates _ _ _ | PNodeGet _ | PRpvt _ _ => False
  end.

(** A call that asks an authentication service. *)
Definition asks_auth (c : BusCall (Uuid := Uuid)) : Prop :=
  bc_target c ∈ hc_auth_svcs e /\
  match bc_payload c with
  | PAuthKey _ _ => bc_method c = "auth.key"
  | PAuthUser _ _ _ _ _ => bc_method c = "auth.user"
  | _ => False
  end.

(** A log that has grown by calls with a property. *)
Inductive grows (P : Log -> BusCall (Uuid := Uuid) -> Prop) : relation Log :=
  | grows_refl l : grows P l l
  | grows_call l l' c r : grows P l l' -> P l' c -> grows P l ((c, r) :: l').

#[local] Instance grows_preorder P : PreOrder (grows P).
Proof.
  split; [constructor|]. intros x y z H1 H2. induction H2 as [|y z c r H2 IH Hc]; [done|].
  constructor; auto.
Qed.
Lemma grows_sub (P Q : Log -> BusCall (Uuid := Uuid) -> Prop) l l' :
  (forall l c, P l c -> Q l c) -> grows P l l' -> grows Q l l'.
Proof. intros HPQ. induction 1; [constructor|]. constructor; auto. Qed.

(** ** Operations that only ask authentication services *)

Definition asking s s' : Prop := grows (fun _ => asks_auth) (hm_calls s) (hm_calls s').
#[local] Instance asking_preorder : PreOrder asking.
Proof. split; [intros s; apply grows_refl|]. intros x y z. unfold asking. apply transitivity. Qed.

(** Operations that call nobody. *)
Definition quiet s s' : Prop := hm_calls s' = hm_calls s.
#[local] Instance quiet_preorder : PreOrder quiet.
Proof. split; [by intros s|]. unfold quiet. intros x y z. congruence. Qed.
Lemma quiet_asking : subrelation quiet asking.
Proof. intros s s' Hq. unfold asking. rewrite Hq. constructor. Qed.

Lemma tick_quiet : keeps quiet tick.
Proof. by intros s. Qed.
Lemma set_db_quiet f : keeps quiet (modify (fun s => set_db (f (hm_db s)) s)).
Proof. by intros s. Qed.
Lemma set_ws_quiet f g : keeps quiet (modify (fun s => set_ws (f s) (g s) s)).
Proof. by intros s. Qed.
Lemma set_files_quiet f : keeps quiet (modify (fun s => set_files (f s) s)).
Proof. by intros s. Qed.
Lemma add_event_quiet ev : keeps quiet (modify (add_event ev)).
Proof. by intros s. Qed.
#[local] Hint Resolve tick_quiet set_db_quiet set_ws_quiet set_files_quiet add_event_quiet : keeps.
Lemma now_quiet : keeps quiet (now e).
Proof. unfold now. frame. Qed.
Lemma sql_quiet f : keeps quiet (sql e f).
Proof. unfold sql. frame. Qed.
Lemma query_quiet {A} (f : Db -> A) : keeps quiet (query e f).
Proof. unfold query. frame. Qed.
Lemma sql_insert_quiet P f : keeps quiet (sql_insert e P f).
Proof. unfold sql_insert. frame. Qed.
#[local] Hint Resolve now_quiet sql_quiet sql_insert_quiet : keeps.
#[local] Hint Extern 1 (keeps quiet (query _ _)) => apply query_quiet : keeps.

Lemma load_token_quiet id : keeps quiet (load_token e id).
Proof. unfold load_token. frame. Qed.
Lemma get_token_quiet id ip : keeps quiet (get_token e id ip).
Proof. unfold get_token, load_token, is_expired, touch, set_token_time. frame. Qed.
Lemma create_token_quiet u acl svc ip : keeps quiet (create_token e u acl svc ip).
Proof. unfold create_token, token_id_create, save_token. frame. Qed.
Lemma token_change_mode_quiet m t : keeps quiet (token_change_mode e m t).
Proof. unfold token_change_mode, set_token_mode. frame. Qed.
Lemma destroy_token_quiet id : keeps quiet (destroy_token e id).
Proof. unfold destroy_token, load_token, delete_token. frame. Qed.
Lemma is_active_quiet login : keeps quiet (is_active_session_for e login).
Proof. apply query_quiet. Qed.
Lemma list_neighbors_quiet : keeps quiet (list_neighbors e).
Proof. unfold list_neighbors, load_all_tokens. frame. Qed.
Lemma aci_new_quiet a m src : keeps quiet (aci_new e a m src).
Proof. unfold aci_new. frame. Qed.
Lemma log_request_of_quiet lv aci : keeps quiet (log_request_of e lv aci).
Proof. unfold log_request_of, api_log_insert. frame. Qed.
Lemma log_outcome_quiet aci err : keeps quiet (log_outcome e aci err).
Proof. unfold log_outcome, do_accounting, api_log_mark. frame. Qed.
#[local] Hint Resolve load_token_quiet get_token_quiet create_token_quiet token_change_mode_quiet
  destroy_token_quiet is_active_quiet list_neighbors_quiet aci_new_quiet log_request_of_quiet log_outcome_quiet : keeps.
Lemma log_get_quiet f : keeps quiet (log_get e error_code f).
Proof. unfold log_get. frame. Qed.
Lemma get_user_data_quiet login key : keeps quiet (get_user_data e login key).
Proof. unfold get_user_data. frame. Qed.
Lemma set_user_data_quiet login key v : keeps quiet (set_user_data e cfg login key v).
Proof. unfold set_user_data. frame. Qed.
Lemma delete_user_data_quiet login key : keeps quiet (delete_user_data e login key).
Proof. unfold delete_user_data. frame. Qed.
Lemma fs_call_quiet : keeps quiet (fs_call e).
Proof. unfold fs_call. frame. Qed.
Lemma insert_ehmi_quiet ti ck p : keeps quiet (insert_ehmi_config e ti ck p).
Proof. unfold insert_ehmi_config. frame. Qed.
#[local] Hint Resolve log_get_quiet get_user_data_quiet set_user_data_quiet delete_user_data_quiet fs_call_quiet
  insert_ehmi_quiet : keeps.
Lemma log_unauthorized_quiet m src : keeps quiet (log_unauthorized e m src).
Proof. unfold log_unauthorized. frame. Qed.
#[local] Hint Resolve log_unauthorized_quiet : keeps.
#[local] Hint Extern 3 (keeps asking _) => apply (keeps_sub quiet asking _ quiet_asking); solve [eauto 2 with keeps nocore] : keeps.

Lemma bus_try_asking t m p : asks_auth (mkBusCall t m p) -> keeps asking (bus_try e t m p).
Proof.
  intros Hc s. unfold asking, bus_try. rewrite run_bind. simpl. constructor; [constructor|done].
Qed.
Lemma auth_key_at_asking svcs key src : svcs ⊆ hc_auth_svcs e -> keeps asking (auth_key_at e svcs key src).
Proof.
  induction svcs as [|svc svcs IH]; intros Hs; simpl; [frame|].
  apply keeps_bind; [apply bus_try_asking; split; [set_solver|done]|].
  intros [b|]; [frame|]. apply IH. set_solver.
Qed.
Lemma hmi_auth_key_asking key ip : keeps asking (hmi_auth_key e key ip).
Proof. by apply auth_key_at_asking. Qed.
#[local] Hint Resolve hmi_auth_key_asking : keeps.
Lemma authenticate_asking key ip : keeps asking (authenticate e key ip).
Proof. unfold authenticate. frame. Qed.
Lemma login_key_asking key ip src : keeps asking (login_key e key ip src).
Proof. unfold login_key. frame. Qed.
Lemma login_verified_asking login ti ip svc r aci : keeps asking (login_verified e login ti ip svc r aci).
Proof. unfold login_verified. frame. Qed.
#[local] Hint Resolve authenticate_asking login_key_asking login_verified_asking : keeps.
Lemma login_at_asking svcs login pw xo src ext ti ip aci :
  svcs ⊆ hc_auth_svcs e -> keeps asking (login_at e svcs (PAuthUser login pw xo src ext) login ti ip aci).
Proof.
  induction svcs as [|svc svcs IH]; intros Hs; simpl; [frame|].
  apply keeps_bind; [apply bus_try_asking; split; [set_solver|done]|].
  assert (keeps asking (login_at e svcs (PAuthUser login pw xo src ext) login ti ip aci)) by (apply IH; set_solver).
  intros [b|[err bar]]; [frame|]. destruct err; try done; destruct bar; try done; frame.
Qed.
Lemma login_user_asking login pw xo ti ip src ext : keeps asking (login_user e login pw xo ti ip src ext).
Proof. unfold login_user. apply keeps_bind; [frame|]. intros aci. by apply login_at_asking. Qed.
#[local] Hint Resolve login_user_asking : keeps.
Lemma login_meta_asking meta ip : keeps asking (login_meta e cfg meta ip).
Proof. unfold login_meta. frame. Qed.
#[local] Hint Resolve login_meta_asking : keeps.

(** ** What a method sends

    [sends a P m]: run by the caller [a], after calls with [P], the calls [m]
    makes are those that caller may make, or ask an authentication service. *)

Definition allowed a l c : Prop := asks_auth c \/ permitted a l c.
Definition sends {A} a (P : Log -> Prop) (m : AM A) : Prop := forall sa,
  ai_auth sa.2 = a -> P (hm_calls sa.1) ->
  ai_auth (m sa).2.2 = a /\ grows (allowed a) (hm_calls sa.1) (hm_calls (m sa).2.1).
Definition any : Log -> Prop := fun _ => True.

Section sends.
Context (a : Auth).
Implicit Types P Q : Log -> Prop.

Lemma sends_weaken {A} P Q (m : AM A) : (forall l, P l -> Q l) -> sends a Q m -> sends a P m.
Proof. intros HPQ Hm sa Ha HP. apply Hm; auto. Qed.
Lemma sends_any {A} P (m : AM A) : sends a any m -> sends a P m.
Proof. by apply sends_weaken. Qed.
Lemma sends_ret {A} P (x : A) : sends a P (mret x).
Proof. intros sa Ha _. split; [done|constructor]. Qed.
Lemma sends_raise {A} P err : sends a P (raise (A := A) err).
Proof. intros sa Ha _. split; [done|constructor]. Qed.
Lemma sends_lift {A} P (r : EResult A) : sends a P (lift r).
Proof. intros sa Ha _. split; [done|constructor]. Qed.
Lemma sends_bind {A B} P (m : AM A) (k : A -> AM B) :
  sends a P m -> (forall x, sends a any (k x)) -> sends a P (m ≫= k).
Proof.
  intros Hm Hk sa Ha HP. rewrite run_bind. destruct (Hm sa Ha HP) as [Ha' Hg].
  destruct (m sa) as [[x|err] sa'] eqn:E; [|done]. destruct (Hk x sa' Ha' I) as [Ha'' Hg'].
  split; [done|]. simpl in Hg. by etrans.
Qed.
Lemma sends_assoc {A B C} P (m : AM A) (f : A -> AM B) (k : B -> AM C) :
  sends a P (m ≫= fun x => f x ≫= k) -> sends a P ((m ≫= f) ≫= k).
Proof.
  intros Hs sa Ha HP. specialize (Hs sa Ha HP). revert Hs. rewrite !run_bind. by destruct (m sa) as [[]].
Qed.
(** A computation that changes nothing but the access info. *)
Definition still {A} (m : AM A) : Prop := forall sa,
  ai_auth (m sa).2.2 = ai_auth sa.2 /\ hm_calls (m sa).2.1 = hm_calls sa.1.
Lemma sends_still {A B} P (m : AM A) (k : A -> AM B) :
  still m -> (forall x, sends a P (k x)) -> sends a P (m ≫= k).
Proof.
  intros Hm Hk sa Ha HP. rewrite run_bind. destruct (Hm sa) as [Ha' Hc].
  destruct (m sa) as [[x|err] sa'] eqn:E; simpl in *.
  - rewrite <-Hc. apply Hk; congruence.
  - split; [congruence|]. rewrite Hc. constructor.
Qed.
Lemma still_quiet {A} (m : HM A) : keeps quiet m -> still (on_hmi m).
Proof. intros Hm sa. unfold on_hmi. specialize (Hm sa.1). destruct (m sa.1). done. Qed.
Lemma still_aci f : (forall x, ai_auth (f x) = ai_auth x) -> still (on_aci f).
Proof. intros Hf sa. simpl. auto. Qed.
Lemma still_log_param n v : still (log_param n v).
Proof. by apply still_aci. Qed.
Lemma still_log_opt_note n : still (log_opt_note n).
Proof. destruct n; [by apply still_aci|by intros sa]. Qed.
Lemma still_log_request lv : still (log_request e lv).
Proof.
  intros sa. unfold log_request. rewrite run_bind. simpl. rewrite run_bind. simpl. unfold on_hmi. simpl.
  pose proof (log_request_of_quiet lv (with_level lv sa.2) sa.1) as Hq.
  destruct (log_request_of e lv (with_level lv sa.2) sa.1). done.
Qed.
Lemma still_period ts te : still (history_period cfg ts te).
Proof.
  intros sa. unfold history_period. rewrite run_bind. simpl. rewrite run_bind. unfold lift at 1.
  destruct (parse_ts ts); simpl; [|done]. rewrite run_bind. unfold lift at 1.
  destruct (parse_ts te); simpl; [|done]. by case_match.
Qed.

Lemma sends_lift_bind {A B} P (r : EResult A) (k : A -> AM B) :
  (forall x, r = Ok x -> sends a P (k x)) -> sends a P (lift r ≫= k).
Proof.
  intros Hk sa Ha HP. rewrite run_bind. unfold lift. destruct r as [x|err]; [by apply Hk|].
  split; [done|constructor].
Qed.
Lemma sends_get_bind {B} P (k : St * ACI -> AM B) :
  (forall sa, ai_auth sa.2 = a -> sends a P (k sa)) -> sends a P (get ≫= k).
Proof. intros Hk sa Ha HP. rewrite run_bind. simpl. by apply Hk. Qed.
Lemma sends_run {A B} P (m : AM A) (r : Auth -> EResult A) (k : A -> AM B) :
  (forall sa, m sa = (r (ai_auth sa.2), sa)) -> (forall x, r a = Ok x -> sends a P (k x)) -> sends a P (m ≫= k).
Proof.
  intros Hm Hk sa Ha HP. rewrite run_bind, Hm, Ha. destruct (r a) as [x|] eqn:E; [by apply Hk|].
  split; [done|constructor].
Qed.
Lemma sends_auth_bind {B} P (k : Auth -> AM B) : sends a P (k a) -> sends a P (my_auth ≫= k).
Proof. intros Hk. apply (sends_run _ _ Ok); [done|]. by intros x [= <-]. Qed.
Lemma sends_acl_bind {B} P (k : UserAcl -> AM B) :
  (forall acl, auth_acl a = Ok acl -> sends a P (k acl)) -> sends a P (my_acl ≫= k).
Proof. intros Hk. by apply (sends_run _ _ auth_acl). Qed.
Lemma sends_token_bind {B} P (k : Token -> AM B) :
  (forall t, a = AToken t -> sends a P (k t)) -> sends a P (my_token ≫= k).
Proof.
  intros Hk. apply (sends_run _ _ (fun a => ok_or (auth_token a) EAccess)); [done|].
  intros t Ht. apply Hk. by destruct a; simplify_eq/=.
Qed.
Lemma sends_writing_bind {B} P (k : unit -> AM B) :
  (writable a = true -> sends a P (k tt)) -> sends a P (writing ≫= k).
Proof.
  intros Hk. apply (sends_run _ _ check_write); [done|]. intros [] Hw. apply Hk. unfold check_write in Hw.
  by destruct (writable a).
Qed.
Lemma sends_item_write_bind {B} P i (k : unit -> AM B) :
  (forall acl, auth_acl a = Ok acl -> require_item_write acl i = Ok tt -> sends a P (k tt)) ->
  sends a P (item_write i ≫= k).
Proof.
  intros Hk. apply (sends_run _ _ (fun a => acl ← auth_acl a; require_item_write acl i)).
  - intros sa. unfold item_write. rewrite run_bind. change (my_acl sa) with (auth_acl (ai_auth sa.2), sa).
    by destruct (auth_acl (ai_auth sa.2)).
  - intros [] Hr. destruct (auth_acl a) as [acl|] eqn:E; [|done]. by apply (Hk acl).
Qed.

Lemma sends_ret_bind {A B} P (x : A) (k : A -> AM B) : sends a P (k x) -> sends a P (mret x ≫= k).
Proof. intros Hk sa. rewrite run_bind, run_ret. apply Hk. Qed.
Lemma sends_raise_bind {A B} P err (k : A -> AM B) : sends a P (raise err ≫= k).
Proof. intros sa Ha _. split; [done|constructor]. Qed.
(** A call to another service. *)
Lemma sends_call_bind {B} P t m p (k : list Z -> AM B) :
  (forall l, P l -> permitted a l (mkBusCall t m p)) ->
  (forall b, sends a (fun l => exists l', P l' /\ l = (mkBusCall t m p, inl b) :: l') (k b)) ->
  sends a P (on_hmi (bus_call e t m p) ≫= k).
Proof.
  intros Hc Hk [s aci] Ha HP. rewrite run_bind. unfold on_hmi, bus_call. simpl in *. rewrite run_bind.
  unfold bus_try. rewrite run_bind. simpl. set (c := mkBusCall t m p).
  set (s' := add_call _ _).
  assert (grows (allowed a) (hm_calls s) (hm_calls s')) as Hg by (constructor; [constructor|right; by apply Hc]).
  destruct (he_bus e (hm_n s) c) as [b|err] eqn:E; simpl; [|done].
  destruct (Hk b (s', aci) Ha) as [Ha' Hg']; [by exists (hm_calls s)|].
  split; [done|]. by etrans.
Qed.
Lemma sends_call {B} P t m p (k : list Z -> AM B) :
  (forall l, P l -> permitted a l (mkBusCall t m p)) ->
  (forall b, sends a any (k b)) -> sends a P (on_hmi (bus_call e t m p) ≫= k).
Proof. intros Hc Hk. apply sends_call_bind; [done|]. intros b. by apply sends_any. Qed.

Lemma sends_filter_bind {B} P name params (k : unit -> AM B) :
  (forall acl, auth_acl a = Ok acl -> sends a (filter_passed a) (k tt)) ->
  (cf_api_filter cfg = None -> sends a (filter_passed a) (k tt)) ->
  sends a P (api_filter e cfg name params ≫= k).
Proof.
  intros Hk Hk0. unfold api_filter. destruct (cf_api_filter cfg) as [i|] eqn:Ei.
  - intros sa Ha HP.
    assert (sends a P (_ ← my_acl; s ← get;
      b ← call_core e "run" (PFilterMacro i name params (ai_auth s.2) (ai_source s.2));
      exitcode ← lift (un_filter b);
      _ ← match exitcode with
          | Some code => if (code =? 0)%Z then mret tt else raise EAccess
          | None => raise EAccess
          end; k tt)) as Hs.
    { apply sends_acl_bind. intros acl Hacl. apply sends_get_bind. intros [s1 aci] Hs1. simpl in *. rewrite Hs1.
      apply sends_call_bind; [intros l _; exists acl; split; [done|]; simpl; auto|]. intros b.
      apply sends_lift_bind. intros [code|] Hb; [|intros ? ? ?; split; [done|constructor]].
      destruct (Z.eqb_spec code 0) as [->|]; [|intros ? ? ?; split; [done|constructor]].
      intros sa' Ha' (l' & _ & Hl). rewrite run_bind, run_ret. apply (Hk acl Hacl); [done|].
      unfold filter_passed. rewrite Ei. by exists "eva.core"%string, "run"%string, name, params, (ai_source aci), b, l'. }
    specialize (Hs sa Ha HP). revert Hs. rewrite !run_bind. destruct (my_acl sa) as [[acl|] s1]; [|done].
    rewrite !run_bind. simpl. rewrite !run_bind.
    destruct (call_core e "run" _ s1) as [[b|] s2]; [|done]. rewrite !run_bind.
    destruct (un_filter b) as [[code|]|]; simpl; [|done|done]. rewrite run_bind.
    destruct (code =? 0)%Z; done.
  - intros sa Ha HP. rewrite run_bind, run_ret. apply Hk0; [done|done|]. unfold filter_passed. by rewrite Ei.
Qed.
Lemma sends_filter {B} P name params (k : unit -> AM B) :
  sends a (filter_passed a) (k tt) -> sends a P (api_filter e cfg name params ≫= k).
Proof. intros Hk. by apply sends_filter_bind. Qed.
Lemma sends_demo_bind {B} P (k : unit -> AM B) :
  (cf_demo cfg = false -> sends a P (k tt)) -> sends a P (demo_mode_abort cfg ≫= k).
Proof.
  intros Hk sa Ha HP. rewrite run_bind. unfold demo_mode_abort. destruct (cf_demo cfg); [|by apply Hk].
  split; [done|constructor].
Qed.
Lemma sends_still_last {A} P (m : AM A) : still m -> sends a P m.
Proof. intros Hm sa Ha _. destruct (Hm sa) as [? ->]. split; [congruence|constructor]. Qed.
Lemma sends_for_each {A} (body : A -> AM unit) xs :
  (forall x, sends a any (body x)) -> sends a any (for_each body xs).
Proof. intros Hb. induction xs; simpl; [apply sends_ret|]. apply sends_bind; auto. Qed.
Lemma sends_for_collect {A B} (body : A -> AM B) xs :
  (forall x, sends a any (body x)) -> sends a any (for_collect body xs).
Proof.
  intros Hb. induction xs; simpl; [apply sends_ret|]. apply sends_bind; [done|]. intros y.
  apply sends_bind; [done|]. intros ys. apply sends_ret.
Qed.

(** ** The methods *)

Context (acl : UserAcl) (Hacl : auth_acl a = Ok acl).

Lemma acl_same acl' : auth_acl a = Ok acl' -> acl' = acl.
Proof. rewrite Hacl. congruence. Qed.

Ltac permit := intros ? ?; exists acl; (split; [exact Hacl|]); simpl in *;
  repeat match goal with
  | Hx : auth_acl a = Ok ?x |- _ => first [constr_eq x acl; fail 1 | apply acl_same in Hx; subst x]
  end; try solve [split_and!; eauto | left; split_and!; eauto | right; split_and!; eauto | unfold own_account; naive_solver].
Ltac still_solve := first
  [ apply still_log_param | apply still_log_opt_note | apply still_log_request
  | apply still_period | apply still_aci; done
  | apply still_quiet; solve [eauto 3 with keeps nocore] ].
Ltac send_step :=
  match goal with
  | |- sends _ _ (mret _) => apply sends_ret
  | |- sends _ _ (raise _) => apply sends_raise
  | |- sends _ _ (lift _) => apply sends_lift
  | |- sends _ _ (get ≫= _) => apply sends_get_bind; intros [? ?] ?; simpl in *
  | |- sends _ _ (my_auth ≫= _) => apply sends_auth_bind
  | |- sends _ _ (my_acl ≫= _) => apply sends_acl_bind; intros ? ?
  | |- sends _ _ (my_token ≫= _) => apply sends_token_bind; intros ? ?
  | |- sends _ _ (demo_mode_abort _ ≫= _) => apply sends_demo_bind; intros ?
  | |- sends _ _ (writing ≫= _) => apply sends_writing_bind; intros ?
  | |- sends _ _ (item_write _ ≫= _) => apply sends_item_write_bind; intros ? ? ?
  | |- sends _ _ (lift _ ≫= _) => apply sends_lift_bind; intros ? ?;
      repeat match goal with x : unit |- _ => destruct x end
  | |- sends _ _ (api_filter _ _ _ _ ≫= _) => apply sends_filter
  | |- sends _ _ (call_core _ _ _ ≫= _) => unfold call_core
  | |- sends _ _ (on_hmi (bus_call _ _ _ _) ≫= _) => apply sends_call; [permit|intros ?]
  | |- sends _ _ (match ?x with _ => _ end) => destruct x eqn:?
  | |- sends _ _ (match ?x with _ => _ end ≫= _) => destruct x eqn:?
  | |- sends _ _ ((mret _) ≫= _) => apply sends_ret_bind
  | |- sends _ _ ((raise _) ≫= _) => apply sends_raise_bind
  | |- sends _ _ ((_ ≫= _) ≫= _) => apply sends_assoc
  | |- sends _ _ (_ ≫= _) => apply sends_still; [solve [still_solve]|intros ?]
  | |- sends _ _ _ => apply sends_still_last; solve [still_solve]
  end.
Ltac send := repeat send_step.

Lemma list_neighbors_sends params : sends a any (method_session_list_neighbors e params).
Proof. unfold method_session_list_neighbors. send. Qed.
Lemma test_sends params : sends a any (method_test e params).
Proof. unfold method_test. send. Qed.
Lemma ping_sends params : sends a any (method_ping e params).
Proof. unfold method_ping. send. Qed.
Lemma reset_user_sends params : sends a any (method_reset_user e cfg params).
Proof. unfold method_reset_user. send. Qed.
Lemma set_password_sends params : sends a any (method_set_password e cfg params).
Proof. unfold method_set_password. send. Qed.
Lemma get_profile_sends params : sends a any (method_get_profile_field e params).
Proof. unfold method_get_profile_field. send. Qed.
Lemma set_profile_sends params : sends a any (method_set_profile_field e cfg params).
Proof. unfold method_set_profile_field. send. Qed.
Lemma item_state_sends params : sends a any (method_item_state e params).
Proof. unfold method_item_state. send. Qed.
Lemma check_access_sends params : sends a any (method_item_check_access e params).
Proof.
  unfold method_item_check_access. send. apply sends_bind; [|intros; send].
  apply sends_for_collect. intros. send.
Qed.
Lemma state_log_sends params : sends a any (method_item_state_log e cfg params).
Proof. unfold method_item_state_log. send. Qed.
Lemma api_log_get_sends params : sends a any (method_api_log_get e cfg error_code params).
Proof. unfold method_api_log_get. send. Qed.
Lemma log_get_sends params : sends a any (method_log_get e params).
Proof. unfold method_log_get. send. Qed.
Lemma action_sends params : sends a any (method_action e cfg params).
Proof. unfold method_action. send. Qed.
Lemma run_sends params : sends a any (method_run e cfg params).
Proof. unfold method_run. send. Qed.
Lemma toggle_sends params : sends a any (method_action_toggle e cfg params).
Proof. unfold method_action_toggle. send. Qed.
Lemma result_sends params : sends a any (method_action_result e params).
Proof. unfold method_action_result. send. Qed.
Lemma kill_sends params : sends a any (method_action_kill e cfg params).
Proof. unfold method_action_kill. send. Qed.
Lemma lvar_set_sends params : sends a any (method_lvar_set e cfg params).
Proof. unfold method_lvar_set. send. Qed.
Lemma lvar_sends m params : sends a any (method_lvar e cfg m params).
Proof. unfold method_lvar. send. Qed.
Lemma bus_call_sends target name params : sends a any (method_bus_call e cfg target name params).
Proof. unfold method_bus_call. destruct (is_map params && map_empty params); send. Qed.
Lemma x_call_sends target name params : sends a any (method_x_call e cfg target name params).
Proof. unfold method_x_call. send. Qed.
Lemma set_readonly_sends params : sends a any (method_session_set_readonly e params).
Proof. unfold method_session_set_readonly. send. Qed.
Lemma user_data_get_sends params : sends a any (method_user_data_get e params).
Proof. unfold method_user_data_get. send. Qed.
Lemma user_data_set_sends params : sends a any (method_user_data_set e cfg params).
Proof. unfold method_user_data_set. send. Qed.
Lemma user_data_delete_sends params : sends a any (method_user_data_delete e params).
Proof. unfold method_user_data_delete. send. Qed.
Lemma llc_list_sends params : sends a any (method_llc_list e params).
Proof. unfold method_llc_list. send. Qed.
Lemma db_list_sends params : sends a any (method_db_list e cfg params).
Proof. unfold method_db_list. send. Qed.
Lemma pvt_put_sends params : sends a any (method_pvt_put e cfg params).
Proof. unfold method_pvt_put. send. Qed.
Lemma pvt_get_sends params : sends a any (method_pvt_get e cfg params).
Proof. unfold method_pvt_get. send. Qed.
Lemma pvt_unlink_sends params : sends a any (method_pvt_unlink e cfg params).
Proof. unfold method_pvt_unlink. send. Qed.
Lemma pvt_list_sends params : sends a any (method_pvt_list e cfg params).
Proof.
  unfold method_pvt_list. send. apply sends_bind; [|intros; send]. apply sends_for_collect. intros. send.
Qed.
Lemma dobj_list_sends params : sends a any (method_dobj_list e params).
Proof. unfold method_dobj_list. send. Qed.
Lemma dobj_struct_sends params : sends a any (method_dobj_get_struct e params).
Proof. unfold method_dobj_get_struct, dobj_config. send. Qed.
Lemma dobj_code_sends params : sends a any (method_dobj_get_struct_code e params).
Proof.
  unfold method_dobj_get_struct_code, dobj_config. send. apply sends_bind; [|intros; send].
  apply sends_for_collect. intros. send.
Qed.
Lemma terminate_sends params : sends a any (method_action_terminate e cfg params).
Proof.
  unfold method_action_terminate. do 6 send_step. apply sends_lift_bind. intros u Hu. unfold call_core.
  apply sends_call_bind; [permit|]. intros b. apply sends_lift_bind. intros info Hi.
  assert (forall P, (forall l, P l -> action_known a l u) ->
    sends a P (_ ← on_hmi (bus_call e "eva.core" "action.terminate" (PUuid u)); mret ROk)) as Hlast.
  { intros P HP. apply sends_call; [|intros; apply sends_ret]. intros l Hl. exists acl. split; [done|]. simpl. auto 6. }
  destruct (is_map info) eqn:Em.
  - apply sends_assoc, sends_lift_bind. intros v Hv. apply sends_assoc, sends_lift_bind. intros o Ho.
    apply sends_assoc, sends_lift_bind. intros oid Hoid. apply sends_item_write_bind. intros acl' Hacl' Hw.
    apply Hlast. intros l (l' & Hl' & ->). exists b, info, l'. split_and!; try done.
    intros _. exists v, o, oid, acl'. split_and!; try done.
    + by destruct (as_map_get info "oid"); simplify_eq/=.
    + by destruct (as_string v); simplify_eq/=.
  - apply sends_ret_bind. apply Hlast. intros l (l' & Hl' & ->). exists b, info, l'.
    split_and!; try done. by rewrite Em.
Qed.

(** The rights to read each of several items. *)
Lemma sends_masks_bind {B} P acl' masks (k : unit -> AM B) :
  (Forall (fun m => require_item_mask_read acl' m = Ok tt) masks -> sends a P (k tt)) ->
  sends a P (for_each (fun m => lift (require_item_mask_read acl' m)) masks ≫= k).
Proof.
  revert k. induction masks as [|m masks IH]; intros k Hk; cbn [for_each].
  - apply sends_ret_bind. by apply Hk.
  - apply sends_assoc, sends_lift_bind. intros [] Hm. apply IH. intros Hms. apply Hk. by constructor.
Qed.
Lemma history_frame_sends call oids acc :
  (forall m, m ∈ oids -> sends a any (call m)) -> sends a any (history_frame mask_to_string call oids acc).
Proof.
  revert acc. induction oids as [|m oids IH]; intros acc Hc; simpl; [apply sends_ret|].
  apply sends_bind; [apply Hc; by left|]. intros r. apply sends_lift_bind. intros acc' _.
  apply IH. intros m' Hm'. apply Hc. by right.
Qed.
Lemma history_sends params : sends a any (method_item_state_history e cfg mask_to_string params).
Proof.
  unfold method_item_state_history. apply sends_still; [still_solve|]. intros _.
  apply sends_lift_bind. intros x _. apply sends_still; [apply still_period|]. intros [ts te].
  set (q := match hp_fill _ with Some _ => _ | None => _ end).
  assert (still q) as Hq.
  { intros sa. unfold q. destruct (hp_fill _) as [f|]; [|done]. rewrite run_bind. unfold lift.
    by destruct (parse_fill ts te f). }
  apply sends_still; [exact Hq|]. clear Hq q. intros [fill precision].
  apply sends_acl_bind. intros acl' Hacl'. apply acl_same in Hacl'. subst acl'. destruct (hp_i x) as [m|ms].
  - send.
  - send. apply sends_masks_bind. intros Hms. apply sends_bind; [|intros; send]. apply history_frame_sends.
    intros m Hm. apply sends_call; [|intros; send]. intros l _. exists acl. split; [done|]. simpl.
    by eapply Forall_forall in Hms.
Qed.
Lemma combined_sends params : sends a any (method_item_state_history_combined e cfg params).
Proof.
  unfold method_item_state_history_combined. apply sends_still; [still_solve|]. intros _.
  apply sends_lift_bind. intros x _. apply sends_still; [apply still_period|]. intros [ts te].
  apply sends_lift_bind. intros [fill precision] _. apply sends_acl_bind. intros acl' Hacl'.
  apply acl_same in Hacl'. subst acl'. apply sends_masks_bind. intros Hms. send.
Qed.

(** A method that only asks authentication services. *)
Lemma sends_asking {A} P (m : HM A) : keeps asking m -> sends a P (on_hmi m).
Proof.
  intros Hm sa Ha _. unfold on_hmi. specialize (Hm sa.1). destruct (m sa.1) as [r s]. simpl in *. split; [done|].
  eapply grows_sub; [|exact Hm]. intros l c Hc. by left.
Qed.
Lemma ehmi_sends key src params : sends a any (method_ehmi_create_config e key src params).
Proof.
  unfold method_ehmi_create_config. apply sends_still; [still_solve|]. intros _.
  do 3 (apply sends_lift_bind; intros ? _). apply sends_still; [apply still_quiet, query_quiet|]. intros stored.
  apply sends_bind.
  - destruct stored as [ti|]; [|apply sends_ret]. apply sends_lift_bind. intros id _.
    apply sends_still; [apply still_quiet; frame|].
    intros [t|err]; [apply sends_ret|destruct err; first [apply sends_ret|apply sends_raise]].
  - intros found. apply sends_bind; [|intros; apply sends_ret]. destruct found as [ti|]; [apply sends_ret|].
    apply sends_bind.
    + destruct (String.prefix "token:" key).
      * apply sends_bind; [apply sends_asking; frame|]. intros. apply sends_lift.
      * apply sends_asking. frame.
    + intros t. apply sends_still; [apply still_quiet; frame|]. intros. apply sends_ret.
Qed.
#[local] Hint Resolve list_neighbors_sends test_sends ping_sends reset_user_sends set_password_sends
  get_profile_sends set_profile_sends item_state_sends check_access_sends state_log_sends api_log_get_sends
  log_get_sends action_sends run_sends toggle_sends result_sends kill_sends lvar_set_sends lvar_sends
  set_readonly_sends user_data_get_sends user_data_set_sends user_data_delete_sends llc_list_sends db_list_sends
  pvt_put_sends pvt_get_sends pvt_unlink_sends pvt_list_sends dobj_list_sends dobj_struct_sends dobj_code_sends
  terminate_sends history_sends combined_sends ehmi_sends : core.

Lemma api_methods_send key src :
  Forall (fun m => forall params, sends a any (m.2 params)) (api_methods e cfg error_code mask_to_string key src).
Proof. unfold api_methods. repeat (apply Forall_cons; split; [simpl; auto|]). constructor. Qed.

Lemma find_method_sends name key src m params :
  find_method e cfg error_code mask_to_string name key src = Ok m -> sends a any (m params).
Proof.
  unfold find_method. destruct (strip_prefix "bus::" name).
  - destruct (split_colons s) as [target [rest|]]; simpl; [|done]. intros [= <-]. apply bus_call_sends.
  - destruct (strip_prefix "x::" name).
    + destruct (split_colons s) as [target [rest|]]; simpl; [|done]. intros [= <-]. apply x_call_sends.
    + destruct (list_find _ _) as [[i [names f]]|] eqn:E; simpl; [|done]. intros [= <-].
      apply list_find_Some in E as (Hi & _ & _). apply list_elem_of_lookup_2 in Hi.
      pose proof (api_methods_send key src) as Hall. rewrite Forall_forall in Hall. apply (Hall _ Hi params).
Qed.
End sends.

(** ** Requests *)

(** The key or the token a request carries. *)
Definition presented (params : option Value) (meta : Meta) (key : string) : Prop :=
  exists p k rest, params = Some p /\ map_remove p "k" = Some (k, rest) /\
    match k with Some v => dec_string v = Ok key | None => me_key meta = Some key end.
Definition presented_by (method : string) (params : option Value) (meta : Meta) (key : string) : Prop :=
  if String.eqb method "call" then
    exists name p, call_target (default value_default params) = Ok (name, p) /\ presented (Some p) meta key
  else presented params meta key.

(** ** Requests

    A relation between the states before and after a request holds, if it holds
    for the parts of a request: logins, logouts, the check of the caller, and a
    method that runs for whom the key of the request authenticates. *)
Section requests.
Context (R : relation St) `{!PreOrder R}.
Hypothesis (R_unauthorized : forall m src, keeps R (log_unauthorized e m src)).
Hypothesis (R_authenticate : forall key ip, keeps R (authenticate e key ip)).
Hypothesis (R_aci : forall a m src, keeps R (aci_new e a m src)).
#[local] Hint Resolve R_unauthorized R_authenticate R_aci : keeps.

Lemma call_authed_rel method params meta s :
  (forall key a m p aci s1, presented params meta key -> (authenticate e key (me_ip meta) s).1 = Ok a ->
     ai_auth aci = a -> find_method e cfg error_code mask_to_string method key (gen_source (me_ip meta)) = Ok m ->
     R s1 (run_method e (m p) aci s1).2) ->
  R s (call_authed e cfg error_code mask_to_string method params meta s).2.
Proof.
  intros Hm. unfold call_authed. apply run_bind_rel; [by apply keeps_lift|]. intros p s1 Hp.
  destruct params as [p0|]; [|done]. injection Hp as -> <-.
  apply run_bind_rel; [by apply keeps_lift|]. intros [k rest] s1 Hk. injection Hk as Hk <-.
  destruct (map_remove p "k") as [[k0 rest0]|] eqn:Ek; [|done]. injection Hk as -> ->.
  apply run_bind_rel; [lazymatch goal with |- R s (?m s).2 => assert (keeps R m) as Hf by frame; apply Hf end|].
  intros key s1 Hkey. assert (s1 = s /\ presented (Some p) meta key) as [-> Hpres].
  { destruct k as [v|].
    - injection Hkey as Hv <-. split; [done|]. by exists p, (Some v), rest.
    - destruct (me_key meta) as [key'|] eqn:Em; [|done]. injection Hkey as -> <-. split; [done|].
      by exists p, None, rest. }
  apply run_bind_rel; [apply keeps_attempt, R_authenticate|]. intros r s1 Hr.
  assert ((authenticate e key (me_ip meta) s).1 = r) as Ha.
  { unfold attempt in Hr. destruct (authenticate e key _ s). by injection Hr. }
  apply run_bind_rel; [lazymatch goal with |- R s1 (?m s1).2 => assert (keeps R m) as Hf by frame; apply Hf end|].
  intros auth s2 Hauth. assert (r = Ok auth) as -> by (destruct r as [|[]]; [by injection Hauth as -> _|done..]).
  apply run_bind_rel; [apply R_aci|]. intros aci s3 Haci.
  assert (ai_auth aci = auth) as Hai by (by injection Haci as <- _).
  apply run_bind_rel; [by apply keeps_lift|]. intros m s4 Hf. injection Hf as Hf <-. by eapply Hm.
Qed.

Hypothesis (R_login : forall login pw xo ti ip src ext, keeps R (login_user e login pw xo ti ip src ext)).
Hypothesis (R_login_key : forall key ip src, keeps R (login_key e key ip src)).
Hypothesis (R_login_meta : forall meta ip, keeps R (login_meta e cfg meta ip)).
Hypothesis (R_get_token : forall id ip, keeps R (get_token e id ip)).
Hypothesis (R_destroy : forall id, keeps R (destroy_token e id)).
Hypothesis (R_config : forall p, keeps R (method_ehmi_get_config e p)).
#[local] Hint Resolve R_login R_login_key R_login_meta R_get_token R_destroy R_config : keeps.

Lemma call_method_rel method params meta s :
  (forall key a m p aci s1, presented params meta key -> (authenticate e key (me_ip meta) s).1 = Ok a ->
     ai_auth aci = a -> find_method e cfg error_code mask_to_string method key (gen_source (me_ip meta)) = Ok m ->
     R s1 (run_method e (m p) aci s1).2) ->
  R s (call_method e cfg error_code mask_to_string method params meta s).2.
Proof.
  intros Hm. unfold call_method. destruct (String.eqb method "login"); [|destruct (String.eqb method "logout");
    [|destruct (String.eqb method "ehmi.get_config"); [apply R_config|by apply call_authed_rel]]];
    (lazymatch goal with |- R s (?m s).2 => assert (keeps R m) as Hf by frame; apply Hf end).
Qed.

Lemma call_rel method params meta s :
  (forall key a name m p aci s1, presented_by method params meta key ->
     (authenticate e key (me_ip meta) s).1 = Ok a -> ai_auth aci = a ->
     find_method e cfg error_code mask_to_string name key (gen_source (me_ip meta)) = Ok m ->
     R s1 (run_method e (m p) aci s1).2) ->
  R s (call e cfg error_code mask_to_string method params meta s).2.
Proof.
  intros Hm. unfold call. unfold presented_by in Hm. destruct (String.eqb method "call"); [|apply call_method_rel; eauto].
  unfold method_call. rewrite run_bind. unfold lift.
  destruct (call_target _) as [[name p]|] eqn:E; [|simpl; reflexivity].
  apply call_method_rel. intros key a m p0 aci s1 Hp. apply Hm. by exists name, p.
Qed.
End requests.

(** A call that is made for a request: one that asks an authentication
    service, or one that a caller may make whom the key of the request
    authenticates. *)
Definition on_behalf (pres : string -> Prop) (meta : Meta) s l c : Prop :=
  asks_auth c \/
  exists key a, pres key /\ (authenticate e key (me_ip meta) s).1 = Ok a /\ permitted a l c.

Lemma asking_grows pres meta s0 s s' :
  asking s s' -> grows (on_behalf pres meta s0) (hm_calls s) (hm_calls s').
Proof. apply grows_sub. intros l c Hc. by left. Qed.
Lemma quiet_grows pres meta s0 s s' :
  quiet s s' -> grows (on_behalf pres meta s0) (hm_calls s) (hm_calls s').
Proof. intros ->. constructor. Qed.

Lemma authenticate_acl key ip s a : (authenticate e key ip s).1 = Ok a -> exists acl, auth_acl a = Ok acl.
Proof.
  unfold authenticate. destruct (strip_prefix _ key) as [t|].
  - rewrite run_bind. unfold lift at 1. destruct (token_id_of_str t) as [id|]; [|done]. rewrite run_bind.
    destruct (get_token e id ip s) as [[tk|] s1]; [|done]. intros [= <-]. by eexists.
  - rewrite run_bind. destruct (hmi_auth_key e key ip s) as [[[[acl svc]|]|] s1]; [|done|done].
    rewrite run_bind. unfold lift. destruct (ok_or _ _) as [kid|]; [|done]. intros [= <-]. by eexists.
Qed.

Lemma run_method_grows pres meta s0 (m : AM Res) aci s key :
  pres key -> (authenticate e key (me_ip meta) s0).1 = Ok (ai_auth aci) -> sends (ai_auth aci) any m ->
  grows (on_behalf pres meta s0) (hm_calls s) (hm_calls (run_method e m aci s).2).
Proof.
  intros Hk Ha Hm. destruct (Hm (s, aci) eq_refl I) as [_ Hg]. unfold run_method.
  assert (grows (on_behalf pres meta s0) (hm_calls s) (hm_calls (m (s, aci)).2.1)) as Hg'.
  { eapply grows_sub; [|exact Hg]. intros l c [Hc|Hc]; [by left|right]. by exists key, (ai_auth aci). }
  destruct (m (s, aci)) as [r [h aci']]. simpl in Hg'.
  assert (forall err, hm_calls (log_outcome e aci' err h).2 = hm_calls h) as Hq by (intros; apply log_outcome_quiet).
  destruct r as [r|err]; [|destruct err]; cbn [snd]; rewrite ?Hq; done.
Qed.

Definition grown P s s' : Prop := grows P (hm_calls s) (hm_calls s').
#[local] Instance grown_preorder P : PreOrder (grown P).
Proof. split; [intros s; unfold grown; reflexivity|intros x y z; unfold grown; apply transitivity]. Qed.
Lemma keeps_asking_grows {A} pres meta s0 (m : HM A) :
  keeps asking m -> keeps (grown (on_behalf pres meta s0)) m.
Proof. intros Hm s. apply asking_grows, Hm. Qed.
Lemma ehmi_get_config_asking p : keeps asking (method_ehmi_get_config e p).
Proof. unfold method_ehmi_get_config. frame. Qed.
#[local] Hint Resolve ehmi_get_config_asking : keeps.

(** C3: Nobody acts beyond their rights.  Whatever request arrives, with
    whatever parameters, the service makes no call to another service but those
    that ask an authentication service, and those a caller is allowed to make
    whom the key or the token of that very request authenticates: units, macros
    and variables are controlled only with the right to write to the item, in a
    session that is not read-only, after the filter macro (if there is one) has
    accepted the request; an action is terminated only if its item is one the
    caller may control; states are asked for with the masks of the rights of the
    caller, histories only of items the caller may read; other services are
    called only for administrators; the password and the profile that are
    changed are those of the account of the caller. *)
Theorem api_calls_authorized method params meta s :
  grows (on_behalf (presented_by method params meta) meta s) (hm_calls s)
    (hm_calls (call e cfg error_code mask_to_string method params meta s).2).
Proof.
  apply (call_rel (grown (on_behalf (presented_by method params meta) meta s))).
  all: try (intros; eapply keeps_asking_grows; solve [eauto with keeps]).
  intros key a name m p aci s1 Hp Ha Hai Hf. destruct (authenticate_acl key (me_ip meta) s a Ha) as [acl Hacl].
  apply (run_method_grows _ _ _ _ _ _ key); [done|by rewrite Hai|]. rewrite Hai. by eapply find_method_sends.
Qed.
End spec.
