(* ===== verification/HmiSessions.v ===== *)
(** * The HMI service: sessions are opened by logins

    Along every run of requests and of the jobs that clean up, a session in the
    data base is one an authentication service has answered for; so a caller
    is authenticated only as somebody a service has verified. *)
From Stdlib Require Import Ascii.
From S2P Require Import Prelude Duration EvaCommon Password Launcher HmiTokens HmiApi.

Section sessions.
Context {Uuid : Type} `{Countable Uuid} `{Ext : Externals, HExt : !HmiExternals Uuid, HashExternals, AExt : !ApiExternals}.
Variable (e : HmiEnv (Uuid := Uuid)) (cfg : ApiConfig) (error_code : option Error -> Z)
  (mask_to_string : OIDMask -> string).

Abbreviation St := (Hmi (Uuid := Uuid)).
Abbreviation Log := (list (BusCall (Uuid := Uuid) * BusReply)).
Abbreviation Tables := (Db (Uuid := Uuid)).
Abbreviation HM := (M St).
Abbreviation AM := (M (St * ACI)).
Implicit Types (s : St) (l : Log) (row : TokenRow).

(** ** What a session rests on *)

(** A service has answered with these rights for this login: it has verified
    a user, or it knows a key. *)
Definition answered l (login : string) (acl : UserAcl) (svc : string) : Prop :=
  svc ∈ hc_auth_svcs e /\
  ((exists login0 password xopts src ext login' note b,
     (mkBusCall svc "auth.user" (PAuthUser login0 password xopts src ext), inl b) ∈ l /\
     un_acl_params b = Ok (login', note, acl) /\ login = default login0 login') \/
  (exists key src id b,
     (mkBusCall svc "auth.key" (PAuthKey key src), inl b) ∈ l /\
     he_un_acl e b = Ok acl /\ api_key_id acl = Some id /\ login = ("." +:+ id)%string)).

Definition issued l row : Prop :=
  exists acl, acl_to_json acl = Ok (tr_acl row) /\ answered l (tr_login row) acl (tr_auth_svc row).

Definition same_owner row row' : Prop :=
  tr_login row' = tr_login row /\ tr_acl row' = tr_acl row /\ tr_auth_svc row' = tr_auth_svc row /\
  tr_ip row' = tr_ip row.

(** A session that is granted: to a login, with rights, by a service. *)
Definition granted (g : option (string * UserAcl * string)) row : Prop :=
  match g with
  | Some (login, acl, svc) => tr_login row = login /\ acl_to_json acl = Ok (tr_acl row) /\ tr_auth_svc row = svc
  | None => False
  end.

(** Sessions are kept, ended, prolonged, changed in their mode, issued, or the
    one that is granted. *)
Definition sessions (g : option (string * UserAcl * string)) s s' : Prop :=
  (forall c, c ∈ hm_calls s -> c ∈ hm_calls s') /\
  forall id row', db_tokens (hm_db s') !! id = Some row' ->
    (exists row, db_tokens (hm_db s) !! id = Some row /\ same_owner row row') \/
    issued (hm_calls s') row' \/ granted g row'.

Lemma answered_mono l l' login acl svc :
  (forall c, c ∈ l -> c ∈ l') -> answered l login acl svc -> answered l' login acl svc.
Proof.
  intros Hl [Hsvc [(l0 & pw & xo & src & ext & l1 & note & b & Hin & Hu & Hlog)|(key & src & id & b & Hin & Hu & Hid & Hlog)]]; (split; [done|]).
  - left. exists l0, pw, xo, src, ext, l1, note, b. auto.
  - right. exists key, src, id, b. auto.
Qed.
Lemma issued_mono l l' row : (forall c, c ∈ l -> c ∈ l') -> issued l row -> issued l' row.
Proof. intros Hl (acl & Hj & Ha). exists acl. split; [done|]. by eapply answered_mono. Qed.
Lemma same_owner_issued l row row' : same_owner row row' -> issued l row -> issued l row'.
Proof. intros (H1 & H2 & H3 & _) (acl & Hj & Ha). exists acl. by rewrite H1, H2, H3. Qed.

Lemma same_owner_granted g row row' : same_owner row row' -> granted g row -> granted g row'.
Proof. intros (H1 & H2 & H3 & _). destruct g as [[[? ?] ?]|]; simpl; [|done]. by rewrite H1, H2, H3. Qed.

(** A statement that issues no session. *)
Definition issues_none (f : Tables -> Tables) : Prop := forall d id row',
  db_tokens (f d) !! id = Some row' -> exists row, db_tokens d !! id = Some row /\ same_owner row row'.
Lemma same_tokens_none f : (forall d, db_tokens (f d) = db_tokens d) -> issues_none f.
Proof. intros Hf d id row. rewrite Hf. intros Hr. by exists row. Qed.
Lemma delete_tokens_none P : issues_none (delete_tokens P).
Proof.
  intros d id row Hr. unfold delete_tokens in Hr. simpl in Hr. apply map_lookup_filter_Some in Hr as [Hr _].
  by exists row.
Qed.
Lemma alter_token_none f i :
  (forall row, same_owner row (f row)) -> issues_none (fun d => set_tokens (alter f i (db_tokens d)) d).
Proof.
  intros Hf d id row'. simpl. destruct (decide (i = id)) as [->|Hne].
  - rewrite lookup_alter_eq. destruct (db_tokens d !! id) as [row|] eqn:E; simpl; [|done]. intros [= <-].
    by exists row.
  - rewrite lookup_alter_ne by done. intros Hr. by exists row'.
Qed.

Ltac none := first [ apply delete_tokens_none | apply alter_token_none; done | apply same_tokens_none; done ].

Section frames.
Variable (g : option (string * UserAcl * string)).
Abbreviation sessions := (sessions g).

#[local] Instance sessions_preorder : PreOrder sessions.
Proof.
  split.
  - intros s. split; [done|]. intros id row Hr. left. by exists row.
  - intros x y z [Hc1 H1] [Hc2 H2]. split; [auto|]. intros id row'' Hr.
    destruct (H2 _ _ Hr) as [(row' & Hr' & Hsame)|?]; [|by right].
    destruct (H1 _ _ Hr') as [(row & Hr0 & Hsame')|[Hi|Hg]].
    + left. exists row. split; [done|]. destruct Hsame as (?&?&?&?), Hsame' as (?&?&?&?).
      unfold same_owner. split_and!; congruence.
    + right; left. eapply same_owner_issued; [exact Hsame|]. by eapply issued_mono.
    + right; right. by eapply same_owner_granted.
Qed.

(** ** Operations *)

(** The sessions are not touched. *)
Definition untouched s s' : Prop := hm_calls s' = hm_calls s /\ db_tokens (hm_db s') = db_tokens (hm_db s).
Lemma untouched_sessions s s' : untouched s s' -> sessions s s'.
Proof. intros [Hc Ht]. split; rewrite ?Hc, ?Ht; [done|]. intros id row Hr. left. by exists row. Qed.

Lemma modify_sessions f : (forall s, untouched s (f s)) -> keeps sessions (modify f).
Proof. intros Hf. apply keeps_modify. intros s. by apply untouched_sessions. Qed.
Lemma tick_sessions : keeps sessions tick.
Proof. intros s. by apply untouched_sessions. Qed.
#[local] Hint Resolve tick_sessions : keeps.
Lemma set_ws_sessions f h : keeps sessions (modify (fun s => set_ws (f s) (h s) s)).
Proof. by apply modify_sessions. Qed.
Lemma set_files_sessions f : keeps sessions (modify (fun s => set_files (f s) s)).
Proof. by apply modify_sessions. Qed.
Lemma add_event_sessions ev : keeps sessions (modify (add_event ev)).
Proof. by apply modify_sessions. Qed.
Lemma now_sessions : keeps sessions (now e).
Proof. unfold now. frame. Qed.
Lemma query_sessions {A} (f : Tables -> A) : keeps sessions (query e f).
Proof. unfold query. frame. Qed.
#[local] Hint Resolve set_ws_sessions set_files_sessions add_event_sessions now_sessions : keeps.
#[local] Hint Extern 1 (keeps sessions (query _ _)) => apply query_sessions : keeps.

Lemma set_db_sessions f : issues_none f -> keeps sessions (modify (fun s => set_db (f (hm_db s)) s)).
Proof. intros Hf. apply keeps_modify. intros s. split; [done|]. simpl. intros id row Hr. left. by apply Hf. Qed.
Lemma sql_sessions f : issues_none f -> keeps sessions (sql e f).
Proof. intros Hf. unfold sql. frame. by apply set_db_sessions. Qed.
Lemma sql_insert_sessions P f : issues_none f -> keeps sessions (sql_insert e P f).
Proof. intros Hf. unfold sql_insert. frame. by apply set_db_sessions. Qed.
#[local] Hint Extern 2 (keeps sessions (sql _ _)) => apply sql_sessions; none : keeps.
#[local] Hint Extern 2 (keeps sessions (sql_insert _ _ _)) => apply sql_insert_sessions; none : keeps.

Lemma load_token_sessions id : keeps sessions (load_token e id).
Proof. unfold load_token. frame. Qed.
Lemma get_token_sessions id ip : keeps sessions (get_token e id ip).
Proof. unfold get_token, load_token, is_expired, touch, set_token_time. frame. Qed.
Lemma change_mode_sessions m t : keeps sessions (token_change_mode e m t).
Proof. unfold token_change_mode, set_token_mode. frame. Qed.
Lemma destroy_token_sessions id : keeps sessions (destroy_token e id).
Proof. unfold destroy_token, load_token, delete_token. frame. Qed.
Lemma is_active_sessions login : keeps sessions (is_active_session_for e login).
Proof. apply query_sessions. Qed.
Lemma list_neighbors_sessions : keeps sessions (list_neighbors e).
Proof. unfold list_neighbors, load_all_tokens. frame. Qed.
Lemma aci_new_sessions a m src : keeps sessions (aci_new e a m src).
Proof. unfold aci_new. frame. Qed.
Lemma log_request_of_sessions lv aci : keeps sessions (log_request_of e lv aci).
Proof. unfold log_request_of, api_log_insert. frame. Qed.
Lemma log_outcome_sessions aci err : keeps sessions (log_outcome e aci err).
Proof. unfold log_outcome, do_accounting, api_log_mark. frame. Qed.
Lemma insert_ehmi_sessions ti ck p : keeps sessions (insert_ehmi_config e ti ck p).
Proof. unfold insert_ehmi_config. frame. Qed.
Lemma log_get_sessions f : keeps sessions (log_get e error_code f).
Proof. unfold log_get. frame. Qed.
Lemma get_user_data_sessions login key : keeps sessions (get_user_data e login key).
Proof. unfold get_user_data. frame. Qed.
Lemma set_user_data_sessions login key v : keeps sessions (set_user_data e cfg login key v).
Proof. unfold set_user_data. frame. Qed.
Lemma delete_user_data_sessions login key : keeps sessions (delete_user_data e login key).
Proof. unfold delete_user_data. frame. Qed.
Lemma fs_call_sessions : keeps sessions (fs_call e).
Proof. unfold fs_call. frame. Qed.
#[local] Hint Resolve load_token_sessions get_token_sessions change_mode_sessions destroy_token_sessions
  is_active_sessions list_neighbors_sessions aci_new_sessions log_request_of_sessions log_outcome_sessions
  insert_ehmi_sessions log_get_sessions get_user_data_sessions set_user_data_sessions delete_user_data_sessions
  fs_call_sessions : keeps.
Lemma log_unauthorized_sessions m src : keeps sessions (log_unauthorized e m src).
Proof. unfold log_unauthorized. frame. Qed.
Lemma bus_try_sessions t m p : keeps sessions (bus_try e t m p).
Proof.
  unfold bus_try. frame. apply keeps_modify. intros s. split.
  - simpl. intros c Hc. by right.
  - simpl. intros id row Hr. left. by exists row.
Qed.
#[local] Hint Resolve log_unauthorized_sessions bus_try_sessions : keeps.
Lemma bus_call_sessions t m p : keeps sessions (bus_call e t m p).
Proof. unfold bus_call. frame. Qed.
Lemma auth_key_at_sessions svcs key src : keeps sessions (auth_key_at e svcs key src).
Proof. induction svcs; simpl; frame. Qed.
Lemma hmi_auth_key_sessions key ip : keeps sessions (hmi_auth_key e key ip).
Proof. apply auth_key_at_sessions. Qed.
#[local] Hint Resolve bus_call_sessions hmi_auth_key_sessions : keeps.
Lemma authenticate_sessions key ip : keeps sessions (authenticate e key ip).
Proof. unfold authenticate. frame. Qed.
#[local] Hint Resolve authenticate_sessions : keeps.

(** ** Logins *)

Lemma bus_try_logged t m p s r s' :
  bus_try e t m p s = (Ok r, s') -> (mkBusCall t m p, r) ∈ hm_calls s'.
Proof. unfold bus_try. cbn. intros [= <- <-]. left. Qed.

(** A key is accepted: a configured service has answered for it. *)
Lemma auth_key_at_answered svcs key src s acl svc s' :
  auth_key_at e svcs key src s = (Ok (Some (acl, svc)), s') ->
  exists b, svc ∈ svcs /\ (mkBusCall svc "auth.key" (PAuthKey key src), inl b) ∈ hm_calls s' /\ he_un_acl e b = Ok acl.
Proof.
  revert s. induction svcs as [|svc0 svcs IH]; intros s; [done|]. simpl. rewrite run_bind.
  destruct (bus_try _ _ _ _ s) as [[[b|err]|] s1] eqn:Eb; [| |done].
  - rewrite run_bind. unfold lift. destruct (he_un_acl e b) as [acl0|] eqn:Eu; [|done]. intros [= <- <- <-].
    exists b. split_and!; [left| |done]. by eapply bus_try_logged.
  - intros Hr. destruct (IH _ Hr) as (b & Hin & Hl & Hu). exists b. split_and!; [by right|done|done].
Qed.

Lemma token_id_create_sessions : keeps sessions (token_id_create e).
Proof. unfold token_id_create. frame. Qed.
#[local] Hint Resolve token_id_create_sessions : keeps.
(** A session is created for the one it is granted to. *)
Lemma create_token_granted user acl svc ip :
  g = Some (user, acl, svc) -> keeps sessions (create_token e user acl svc ip).
Proof.
  intros Hg. unfold create_token, save_token. destruct (hc_session_timeout e); [|apply keeps_raise].
  apply keeps_bind; [frame|]. intros id. apply keeps_bind; [frame|]. intros t.
  apply keeps_bind; [|intros; apply keeps_ret]. apply keeps_lift_bind. intros j Hj.
  apply keeps_bind; [|intros; frame]. unfold sql_insert. frame. apply keeps_modify. intros s. split; [done|].
  simpl. intros i row. destruct (decide (i = to_short_string id)) as [->|Hne].
  - rewrite lookup_insert_eq. intros [= <-]. right; right. by subst g.
  - rewrite lookup_insert_ne by done. intros Hr. left. by exists row.
Qed.
End frames.

Lemma granted_answered login acl svc g s s' :
  answered (hm_calls s) login acl svc -> sessions (Some (login, acl, svc)) s s' -> sessions g s s'.
Proof.
  intros Ha [Hc Hr]. split; [done|]. intros id row Hrow.
  destruct (Hr id row Hrow) as [?|[?|(Hl & Hj & Hs)]]; [by left|by right; left|]. right; left. exists acl.
  split; [done|]. rewrite Hl, Hs. by eapply answered_mono.
Qed.

(** From here on, nothing is granted but what a service has answered for. *)
Abbreviation sessions0 := (sessions None).
#[local] Existing Instance sessions_preorder.
#[local] Hint Resolve tick_sessions set_files_sessions add_event_sessions now_sessions load_token_sessions
  get_token_sessions change_mode_sessions destroy_token_sessions is_active_sessions list_neighbors_sessions
  aci_new_sessions log_request_of_sessions log_outcome_sessions insert_ehmi_sessions log_get_sessions
  get_user_data_sessions set_user_data_sessions delete_user_data_sessions fs_call_sessions
  log_unauthorized_sessions bus_try_sessions bus_call_sessions hmi_auth_key_sessions authenticate_sessions : keeps.
#[local] Hint Extern 1 (keeps (sessions _) (query _ _)) => apply query_sessions : keeps.

Ltac by_frame :=
  lazymatch goal with |- sessions _ ?s (?m ?s).2 => 
    let Hk := fresh in assert (keeps sessions0 m) as Hk by frame; apply Hk end.

(** What follows an answer. *)
Lemma answered_login login acl svc ip {A} (k : Token -> HM A) s :
  answered (hm_calls s) login acl svc -> (forall t, keeps sessions0 (k t)) ->
  sessions0 s ((create_token e login acl svc ip ≫= k) s).2.
Proof.
  intros Ha Hk. apply run_bind_rel; [|intros t s' _; apply Hk].
  eapply granted_answered; [exact Ha|]. by apply create_token_granted.
Qed.

Lemma login_key_sessions key ip source : keeps sessions0 (login_key e key ip source).
Proof.
  unfold login_key. apply keeps_bind; [frame|]. intros aci s. apply run_bind_rel; [apply hmi_auth_key_sessions|].
  intros [[acl svc]|] s' Hr.
  2:{ by_frame. }
  destruct (api_key_id acl) as [id|] eqn:Eid; [|by apply keeps_raise].
  destruct (auth_key_at_answered _ _ _ _ _ _ _ Hr) as (b & Hsvc & Hin & Hu).
  apply answered_login; [|intros; frame]. split; [done|right]. by repeat eexists.
Qed.

Lemma login_verified_sessions login token_id ip svc login' note acl aci s :
  answered (hm_calls s) (default login login') acl svc ->
  sessions0 s (login_verified e login token_id ip svc (login', note, acl) aci s).2.
Proof.
  intros Ha. unfold login_verified.
  apply run_bind_rel; [by_frame|].
  intros u s' Hr. destruct token_id as [ti|].
  { by_frame. }
  apply answered_login; [|intros; frame]. eapply answered_mono; [|exact Ha].
  intros c. enough (sessions0 s s') as [Hc _] by apply Hc.
  match type of Hr with ?m s = _ => assert (keeps sessions0 m) as Hk by frame; specialize (Hk s); by rewrite Hr in Hk end.
Qed.

Lemma login_at_sessions svcs login password xopts src ext token_id ip aci :
  svcs ⊆ hc_auth_svcs e ->
  keeps sessions0 (login_at e svcs (PAuthUser login password xopts src ext) login token_id ip aci).
Proof.
  induction svcs as [|svc svcs IH]; simpl; [intros _; frame|]. intros Hsub.
  assert (svc ∈ hc_auth_svcs e) as Hsvc by (apply Hsub; left).
  specialize (IH ltac:(intros x Hx; apply Hsub; by right)). intros s. apply run_bind_rel; [apply bus_try_sessions|].
  intros [b|[err bar]] s' Hr.
  2:{ match goal with |- sessions0 s' (?m s').2 => assert (keeps sessions0 m) as Hk by (destruct err, bar; frame); apply Hk end. }
  apply run_bind_rel; [by apply keeps_lift|]. intros [[login' note] acl] s2 Hl.
  unfold lift in Hl. simplify_eq.
  apply login_verified_sessions. split; [done|left]. exists login, password, xopts, src, ext, login', note, b.
  split_and!; [|done|done]. by eapply bus_try_logged.
Qed.
Lemma login_user_sessions login password xopts ti ip source ext :
  keeps sessions0 (login_user e login password xopts ti ip source ext).
Proof. unfold login_user. apply keeps_bind; [frame|]. intros aci. by apply login_at_sessions. Qed.
#[local] Hint Resolve login_key_sessions login_user_sessions : keeps.
Lemma login_meta_sessions meta ip : keeps sessions0 (login_meta e cfg meta ip).
Proof. unfold login_meta. frame. Qed.
#[local] Hint Resolve login_meta_sessions : keeps.

(** ** Methods *)

Definition sessions_api (x y : St * ACI) : Prop := sessions0 x.1 y.1.
#[local] Instance sessions_api_preorder : PreOrder sessions_api.
Proof. split; [intros x; unfold sessions_api; reflexivity|intros x y z; unfold sessions_api; apply transitivity]. Qed.
Lemma on_hmi_sessions {A} (m : HM A) : keeps sessions0 m -> keeps sessions_api (on_hmi m).
Proof. intros Hm [s aci]. unfold on_hmi, sessions_api. simpl. specialize (Hm s). by destruct (m s). Qed.
Lemma on_aci_sessions f : keeps sessions_api (on_aci f).
Proof. apply keeps_modify. intros s. unfold sessions_api. reflexivity. Qed.
#[local] Hint Resolve on_aci_sessions : keeps.
#[local] Hint Extern 2 (keeps sessions_api (on_hmi _)) => apply on_hmi_sessions; solve [frame] : keeps.
Lemma log_request_sessions lv : keeps sessions_api (log_request e lv).
Proof. unfold log_request. frame. Qed.
Lemma log_param_sessions n v : keeps sessions_api (log_param n v).
Proof. apply on_aci_sessions. Qed.
Lemma log_opt_note_sessions n : keeps sessions_api (log_opt_note n).
Proof. unfold log_opt_note. frame. Qed.
Lemma my_auth_sessions : keeps sessions_api my_auth.
Proof. unfold my_auth. frame. Qed.
#[local] Hint Resolve log_request_sessions log_param_sessions log_opt_note_sessions my_auth_sessions : keeps.
Lemma my_acl_sessions : keeps sessions_api my_acl.
Proof. unfold my_acl. frame. Qed.
Lemma my_token_sessions : keeps sessions_api my_token.
Proof. unfold my_token. frame. Qed.
Lemma writing_sessions : keeps sessions_api writing.
Proof. unfold writing. frame. Qed.
#[local] Hint Resolve my_acl_sessions my_token_sessions writing_sessions : keeps.
Lemma item_write_sessions i : keeps sessions_api (item_write i).
Proof. unfold item_write. frame. Qed.
Lemma call_core_sessions m p : keeps sessions_api (call_core e m p).
Proof. apply on_hmi_sessions, bus_call_sessions. Qed.
#[local] Hint Resolve item_write_sessions call_core_sessions : keeps.
Lemma api_filter_sessions m p : keeps sessions_api (api_filter e cfg m p).
Proof. unfold api_filter. frame. Qed.
Lemma demo_mode_sessions : keeps sessions_api (demo_mode_abort cfg).
Proof. unfold demo_mode_abort. frame. Qed.
Lemma history_period_sessions t0 t1 : keeps sessions_api (history_period cfg t0 t1).
Proof. unfold history_period. frame. Qed.
Lemma history_frame_sessions c oids acc :
  (forall i, keeps sessions_api (c i)) -> keeps sessions_api (history_frame mask_to_string c oids acc).
Proof. intros Hc. revert acc. induction oids; intros; simpl; frame. Qed.
#[local] Hint Resolve api_filter_sessions demo_mode_sessions history_period_sessions : keeps.

Create HintDb api_methods.
#[local] Hint Unfold method_test method_ping method_set_password method_reset_user method_get_profile_field
  method_set_profile_field method_item_state method_item_check_access method_item_state_history
  method_item_state_log method_item_state_history_combined method_log_get method_api_log_get method_action
  method_action_toggle method_action_result method_action_kill method_action_terminate method_run method_lvar_set
  method_lvar method_session_list_neighbors method_session_set_readonly method_ehmi_create_config
  method_user_data_get method_user_data_set method_user_data_delete method_db_list method_llc_list method_pvt_put
  method_pvt_get method_pvt_unlink method_pvt_list method_dobj_list method_dobj_get_struct
  method_dobj_get_struct_code dobj_config : api_methods.
Lemma api_methods_sessions key source :
  Forall (fun m => forall p, keeps sessions_api (m.2 p)) (api_methods e cfg error_code mask_to_string key source).
Proof.
  unfold api_methods.
  repeat (constructor; [intros p; cbn [snd]; autounfold with api_methods; frame; apply history_frame_sessions; intros; frame|]).
  constructor.
Qed.
Lemma find_method_sessions method key source m p :
  find_method e cfg error_code mask_to_string method key source = Ok m -> keeps sessions_api (m p).
Proof.
  unfold find_method. destruct (strip_prefix "bus::" method) as [b|].
  { destruct (split_colons b) as [t [r|]]; [|done]. intros [= <-]. unfold method_bus_call. frame. }
  destruct (strip_prefix "x::" method) as [b|].
  { destruct (split_colons b) as [t [r|]]; [|done]. intros [= <-]. unfold method_x_call. frame. }
  destruct (list_find _ _) as [[i x]|] eqn:E; [|done]. intros [= <-].
  apply list_find_Some in E as (Hx & _ & _).
  exact (proj1 (Forall_lookup _ _) (api_methods_sessions key source) _ _ Hx p).
Qed.
Lemma run_method_sessions (m : AM Res) aci : keeps sessions_api m -> keeps sessions0 (run_method e m aci).
Proof.
  intros Hm s. specialize (Hm (s, aci)). unfold run_method, sessions_api in *.
  destruct (m (s, aci)) as [r [h aci']]. simpl in Hm.
  assert (forall err, sessions0 s (log_outcome e aci' err h).2) as Hl.
  { intros err. etrans; [exact Hm|]. apply log_outcome_sessions. }
  by destruct r as [r|[]]; simpl.
Qed.
Lemma call_authed_sessions method params meta :
  keeps sessions0 (call_authed e cfg error_code mask_to_string method params meta).
Proof.
  unfold call_authed. apply keeps_bind; [frame|]. intros p. apply keeps_bind; [frame|]. intros [k rest].
  apply keeps_bind; [frame|]. intros key. apply keeps_bind; [frame|]. intros r.
  apply keeps_bind; [frame|]. intros auth. apply keeps_bind; [frame|]. intros aci. apply keeps_lift_bind.
  intros m Hm. apply run_method_sessions. by eapply find_method_sessions.
Qed.
#[local] Hint Resolve call_authed_sessions : keeps.
Lemma call_method_sessions method params meta :
  keeps sessions0 (call_method e cfg error_code mask_to_string method params meta).
Proof. unfold call_method, method_ehmi_get_config. frame. Qed.
#[local] Hint Resolve call_method_sessions : keeps.
Lemma call_sessions method params meta : keeps sessions0 (call e cfg error_code mask_to_string method params meta).
Proof. unfold call, method_call. frame. Qed.
#[local] Hint Resolve call_sessions : keeps.

(** ** Runs *)

(** What happens to the service: a request, the periodic jobs, the events of
    removed users, keys and access lists, and websockets. *)
Inductive HmiOp :=
  | HoCall (method : string) (params : option Value) (meta : Meta)
  | HoClearTokens
  | HoClearWebsockets
  | HoUserGone (user : string)
  | HoKeyGone (key_id : string)
  | HoAclGone (acl_id : string)
  | HoRegister (t : Token (Uuid := Uuid)) (ws : Uuid)
  | HoUnregister (t : Token (Uuid := Uuid)) (ws : Uuid).
Definition hmi_step (op : HmiOp) : HM unit :=
  match op with
  | HoCall method params meta => log_ef (call e cfg error_code mask_to_string method params meta)
  | HoClearTokens => log_ef (clear_tokens e)
  | HoClearWebsockets => clear_token_websockets e
  | HoUserGone user => clear_tokens_by_user e user
  | HoKeyGone key_id => clear_tokens_by_key_id e key_id
  | HoAclGone acl_id => clear_tokens_by_acl_id e acl_id
  | HoRegister t ws => register_websocket t ws
  | HoUnregister t ws => unregister_websocket t ws
  end.
Definition hmi_run (ops : list HmiOp) s : St := foldl (fun s op => (hmi_step op s).2) s ops.

Lemma hmi_step_sessions op : keeps sessions0 (hmi_step op).
Proof.
  destruct op; simpl; [frame|..].
  - unfold clear_tokens, clear_idle_tokens, clear_token_acls. frame; apply sql_sessions; none.
  - unfold clear_token_websockets, load_token_ids. frame.
  - unfold clear_tokens_by_user, db_clear_tokens_by_user. frame. apply sql_sessions; none.
  - unfold clear_tokens_by_key_id, db_clear_tokens_by_user. frame. apply sql_sessions; none.
  - unfold clear_tokens_by_acl_id, db_clear_tokens_by_acl_id. frame. apply sql_sessions.
    intros d id row. apply delete_tokens_none.
  - by apply modify_sessions.
  - apply modify_sessions. intros s. by case_decide.
Qed.
Lemma hmi_run_sessions ops s : sessions0 s (hmi_run ops s).
Proof.
  revert s. induction ops as [|op ops IH]; intros s; simpl; [reflexivity|]. etrans; [apply hmi_step_sessions|apply IH].
Qed.

(** Every session in the data base has been issued. *)
Definition authentic s : Prop := forall id row, db_tokens (hm_db s) !! id = Some row -> issued (hm_calls s) row.
Lemma sessions_authentic s s' : sessions0 s s' -> authentic s -> authentic s'.
Proof.
  intros [Hc Hr] Ha id row Hrow. destruct (Hr id row Hrow) as [(row0 & Hrow0 & Hs)|[?|[]]]; [|done].
  eapply same_owner_issued; [exact Hs|]. eapply issued_mono; [exact Hc|]. by eapply Ha.
Qed.

(** ** Who is let in *)

Lemma load_token_row id s tk s1 :
  load_token e id s = (Ok (Some tk), s1) -> exists row, db_tokens (hm_db s) !! to_short_string id = Some row /\
    parse_token row (Ok id) = Ok tk /\ s1 = set_n (S (hm_n s)) s.
Proof.
  unfold load_token. rewrite run_bind. unfold query. rewrite run_bind. unfold tick at 1. rewrite run_bind.
  unfold lift at 1. destruct (he_sql e (hm_n s)); [|done]. rewrite run_bind. unfold get at 1. rewrite run_ret.
  cbn [hm_db set_n]. destruct (db_tokens _ !! _) as [row|] eqn:Er; [|done]. rewrite run_bind. unfold lift.
  destruct (parse_token row (Ok id)) as [t|] eqn:Ep; [|done]. intros [= <- <-]. by exists row.
Qed.
Lemma parse_token_fields row id tk :
  parse_token row (Ok id) = Ok tk -> tk_id tk = id /\ tk_user tk = tr_login row /\ tk_auth_svc tk = tr_auth_svc row /\
    acl_of_json (tr_acl row) = Ok (tk_acl tk) /\ tk_mode tk = tr_md row /\ tk_t tk = tr_t row /\
    match tr_ip row with Some i => exists ip', ip_parse i = Some ip' /\ tk_ip tk = Some ip' | None => tk_ip tk = None end.
Proof.
  unfold parse_token. simpl. destruct (acl_of_json (tr_acl row)) as [acl|]; [|done]. simpl.
  destruct (tr_ip row) as [i|]; simpl.
  - destruct (ip_parse i) as [ip'|]; [|done]. simpl. destruct (_ && _)%Z; [|done]. simpl. intros [= <-].
    split_and!; try done. by exists ip'.
  - destruct (_ && _)%Z; [|done]. simpl. intros [= <-]. by split_and!.
Qed.
Lemma is_expired_false tk s s' :
  is_expired e tk s = (Ok false, s') -> exists T, hc_session_timeout e = Some T /\ s' = set_n (S (hm_n s)) s /\
    (he_now e (hm_n s) <= tk_t tk + T / NANOS_PER_SEC)%Z.
Proof.
  unfold is_expired, get_expiration. rewrite run_bind. unfold lift at 1.
  destruct (hc_session_timeout e) as [T|]; [|done]. simpl. rewrite run_bind. unfold lift at 1, i64_of at 1.
  destruct (T / NANOS_PER_SEC <=? i64_max)%Z; [|done]. rewrite run_bind. unfold now at 1. rewrite run_bind.
  unfold tick at 1. rewrite run_ret, run_bind. unfold lift, i64_of.
  destruct (he_now e (hm_n s) <=? i64_max)%Z; [|done]. rewrite run_ret. intros [= Hle <-]. exists T.
  split_and!; [done|done|]. lia.
Qed.
Lemma touch_same tk s t s' :
  touch e tk s = (Ok t, s') -> tk_user t = tk_user tk /\ tk_auth_svc t = tk_auth_svc tk /\ tk_acl t = tk_acl tk /\
    tk_mode t = tk_mode tk /\ tk_id t = tk_id tk /\ (hm_n s <= hm_n s')%nat.
Proof.
  unfold touch. destruct (hc_prolong e); [|intros [= <- <-]; by split_and!].
  rewrite run_bind. unfold now. rewrite run_bind. unfold tick at 1. rewrite run_ret. rewrite run_bind.
  unfold set_token_time, sql. rewrite run_bind. unfold tick at 1. rewrite run_bind. unfold lift.
  destruct (he_sql e _); [|done]. unfold modify. rewrite run_ret. intros [= <- <-]. split_and!; try done. simpl. lia.
Qed.

(** The session of a token that is accepted. *)
Lemma get_token_row id ip s t s' :
  get_token e id ip s = (Ok t, s') -> exists row, db_tokens (hm_db s) !! to_short_string id = Some row /\
    tk_user t = tr_login row /\ tk_auth_svc t = tr_auth_svc row /\ acl_of_json (tr_acl row) = Ok (tk_acl t) /\
    tk_id t = id /\
    (hc_stick_ip e = true -> forall i, tr_ip row = Some i -> exists ip', ip_parse i = Some ip' /\ ip = Some ip') /\
    exists T n, hc_session_timeout e = Some T /\ (hm_n s <= n < hm_n s')%nat /\
      (he_now e n <= tr_t row + T / NANOS_PER_SEC)%Z.
Proof.
  unfold get_token. rewrite run_bind. destruct (load_token e id s) as [[[tk|]|] s1] eqn:El; [|done|done].
  destruct (load_token_row _ _ _ _ El) as (row & Hrow & Hp & Hn).
  rewrite run_bind. unfold lift at 1. destruct (check_token_ip e tk ip) eqn:Eip; [|done].
  rewrite run_bind. destruct (is_expired e tk s1) as [[[]|] s2] eqn:Ee; [done| |done].
  destruct (parse_token_fields _ _ _ Hp) as (Hid & Hu & Hsvc & Hacl & Hm & Htm & Hipr).
  destruct (is_expired_false _ _ _ Ee) as (T & HT & Hs2 & Hle). intros Ht.
  destruct (touch_same _ _ _ _ Ht) as (Hu' & Hsvc' & Hacl' & Hm' & Hid' & Hn').
  exists row. rewrite Hu', Hsvc', Hacl', Hid'. split_and!; [done..| |].
  - intros Hst i Hi. rewrite Hi in Hipr. destruct Hipr as (ip' & Hpi & Htk). exists ip'. split; [done|].
    revert Eip. unfold check_token_ip. rewrite Htk, Hst. by case_decide.
  - exists T, (hm_n s1). rewrite <- Htm. subst s1 s2. simpl in *. split_and!; [done|lia|lia|done].
Qed.

(** C4: Nobody enters without an authentication service having vouched for
    them.  Take any history of the service: requests of all kinds, logins,
    logouts, the jobs that clean up, removed users, keys and access lists, errors
    of the data base at any point.  Whoever is then authenticated, by a token or
    by a key, is a user one of the configured authentication services has
    verified, or a key it knows, and acts with exactly the rights that service
    has answered with; a token is accepted only while its session has not timed
    out and, when sessions are bound to addresses, only from the address it was
    issued to. *)
Theorem session_authentic `{!HmiLaws} ops s0 key ip a s' :
  authentic s0 ->
  authenticate e key ip (hmi_run ops s0) = (Ok a, s') ->
  exists login acl svc,
    auth_user_of a = Some login /\ auth_acl a = Ok acl /\ answered (hm_calls s') login acl svc /\
    forall t, a = AToken t -> tk_auth_svc t = svc /\
      exists row, db_tokens (hm_db (hmi_run ops s0)) !! to_short_string (tk_id t) = Some row /\
        (hc_stick_ip e = true -> forall i, tr_ip row = Some i -> exists ip', ip_parse i = Some ip' /\ ip = Some ip') /\
        exists T n, hc_session_timeout e = Some T /\ (hm_n (hmi_run ops s0) <= n < hm_n s')%nat /\
          (he_now e n <= tr_t row + T / NANOS_PER_SEC)%Z.
Proof.
  intros Ha0 Hauth. pose proof (sessions_authentic _ _ (hmi_run_sessions ops s0) Ha0) as Ha.
  set (s := hmi_run ops s0) in *. clearbody s. pose proof (authenticate_sessions None key ip s) as [Hc _].
  rewrite Hauth in Hc. simpl in Hc. revert Hauth. unfold authenticate.
  destruct (strip_prefix "token:" key) as [t|].
  - rewrite run_bind. unfold lift at 1. destruct (token_id_of_str t) as [id|]; [|done]. rewrite run_bind.
    destruct (get_token e id ip s) as [[tk|] s1] eqn:Eg; [|done]. intros [= <- <-].
    destruct (get_token_row _ _ _ _ _ Eg) as (row & Hrow & Hu & Hsvc & Hacl & Hid & Hip & Hexp).
    destruct (Ha _ _ Hrow) as (acl & Hj & Hans). apply acl_json in Hj. rewrite Hacl in Hj. injection Hj as Hj.
    exists (tr_login row), acl, (tr_auth_svc row). simpl. rewrite Hu, Hj. split_and!; [done|done| |].
    + by eapply answered_mono.
    + intros t0 [= <-]. split; [done|]. exists row. by rewrite Hid.
  - rewrite run_bind. destruct (hmi_auth_key e key ip s) as [[[[acl svc]|]|] s1] eqn:Ek; [|done|done].
    rewrite run_bind. unfold lift. destruct (api_key_id acl) as [kid|] eqn:Ei; [|done]. simpl. intros [= <- <-].
    destruct (auth_key_at_answered _ _ _ _ _ _ _ Ek) as (b & Hsvc & Hin & Hun).
    exists ("." +:+ kid)%string, acl, svc. split_and!; [done|done| |done].
    split; [done|right]. by eexists _, _, kid, b.
Qed.
End sessions.
