(* ===== verification/HmiFiles.v ===== *)
(** * The HMI service: private files stay in their directory

    A path that is accepted names a file below the directory of private files,
    and a request changes a file there only for a caller who may write it. *)
From Stdlib Require Import Ascii.
From S2P Require Import Prelude Duration EvaCommon Password Launcher HmiTokens HmiApi HmiSpec.

(** ** Paths *)

(** Percent decoding works between slashes, and changes no text without a
    percent sign ([urlencoding::decode]). *)
Class UrlLaws `{ApiExternals} : Prop := {
  url_decode_slash a b : url_decode (a +:+ String slash b)%string =
    x ← url_decode a; y ← url_decode b; Some (x +:+ String slash y)%string;
  url_decode_dots : url_decode ".." = Some ".."%string
}.

Lemma prefix_app (p s : string) : String.prefix p (p +:+ s)%string = true.
Proof. induction p as [|x p IH]; simpl; [by destruct s|]. by destruct (ascii_dec x x). Qed.
Lemma str_contains_app sub a b : str_contains sub (a +:+ sub +:+ b)%string = true.
Proof.
  induction a as [|x a IH]; simpl.
  - pose proof (prefix_app sub b) as Hp. destruct (sub +:+ b)%string; simpl in *; by rewrite Hp.
  - apply orb_true_iff. by right.
Qed.
Lemma ends_with_app sub a : HmiApi.ends_with sub (a +:+ sub)%string = true.
Proof.
  induction a as [|x a IH]; simpl.
  - destruct sub; simpl; [done|]. by rewrite String.eqb_refl, Ascii.eqb_refl.
  - apply orb_true_iff. by right.
Qed.

(** A chunk of a text, with what is before and after it. *)
Inductive chunk_at (c : string) : string -> Prop :=
  | chunk_all : chunk_at c c
  | chunk_first b : chunk_at c (c +:+ String slash b)%string
  | chunk_last a : chunk_at c (a +:+ String slash c)%string
  | chunk_mid a b : chunk_at c (a +:+ String slash (c +:+ String slash b))%string.
Lemma chunk_after c x s : chunk_at c s -> chunk_at c (x +:+ String slash s)%string.
Proof.
  intros [|b|a|a b].
  - constructor.
  - apply (chunk_mid c x b).
  - change (String slash (a +:+ String slash c)) with (String slash a +:+ String slash c)%string.
    rewrite app_string_assoc. constructor.
  - change (String slash (a +:+ ?t)) with (String slash a +:+ t)%string.
    rewrite app_string_assoc. constructor.
Qed.
Lemma split_chunk c s : c ∈ split_on slash s -> chunk_at c s.
Proof.
  rewrite <- (join_split slash s) at 2. generalize (split_on slash s). intros l.
  induction l as [|x l IH]; intros Hc; [by apply not_elem_of_nil in Hc|].
  apply elem_of_cons in Hc as [->|Hc].
  - destruct l as [|y l]; simpl; constructor.
  - destruct l as [|y l]; [by apply not_elem_of_nil in Hc|]. by apply chunk_after, IH.
Qed.
Lemma split_no_slash s : Forall (fun c => slash ∉ String.list_ascii_of_string c) (split_on slash s).
Proof.
  induction s as [|a s IH]; simpl; [repeat constructor; apply not_elem_of_nil|].
  destruct (Ascii.eqb_spec a slash) as [->|Hne]; [constructor; [apply not_elem_of_nil|done]|].
  assert (forall x, slash ∉ String.list_ascii_of_string x -> slash ∉ String.list_ascii_of_string (String a x)) as Ha.
  { intros x Hx. simpl. intros [?|?]%elem_of_cons; congruence. }
  destruct (split_on slash s) as [|x xs]; [constructor; [apply Ha, not_elem_of_nil|done]|].
  inversion_clear IH. constructor; [by apply Ha|done].
Qed.

Section paths.
Context {Uuid : Type} `{Countable Uuid} `{Ext : Externals, HExt : !HmiExternals Uuid, HashExternals, AExt : !ApiExternals, !UrlLaws}.
Variable (cfg : ApiConfig).

(** A text with a component that leads up is refused. *)
Lemma dots_traversal s : ".."%string ∈ split_on slash s -> path_contains_traversal s = true.
Proof.
  intros Hc%split_chunk. unfold path_contains_traversal.
  destruct Hc as [|b|a|a b].
  - by rewrite url_decode_dots.
  - rewrite url_decode_slash, url_decode_dots. simpl. destruct (url_decode b) as [y|]; [|done]. simpl.
    rewrite !orb_true_iff. left; right. change (String "." ?t) with (String "." t). apply (prefix_app "../" y).
  - rewrite url_decode_slash, url_decode_dots. destruct (url_decode a) as [x|]; [|done]. simpl.
    rewrite !orb_true_iff. left; left; right. apply (ends_with_app "/.." x).
  - rewrite !url_decode_slash, url_decode_dots. destruct (url_decode a) as [x|]; [|done]. simpl.
    destruct (url_decode b) as [y|]; [|done]. simpl. rewrite !orb_true_iff. left; left; left.
    apply (str_contains_app "/../" x y).
Qed.

(** One step down. *)
Definition plain (c : string) : Prop :=
  c ≠ ""%string /\ c ≠ ".."%string /\ slash ∉ String.list_ascii_of_string c.
Lemma rel_components_plain s : path_contains_traversal s = false -> Forall plain (rel_components s).
Proof.
  intros Ht. assert (Forall plain (path_components s)) as Hp.
  { apply Forall_forall. unfold path_components. intros c [Hne Hc]%list_elem_of_filter. split_and!; [done| |].
    - intros ->. by rewrite (dots_traversal s Hc) in Ht.
    - exact (proj1 (Forall_forall _ _) (split_no_slash s) c Hc). }
  unfold rel_components. destruct (path_components s) as [|c l]; [done|]. inversion_clear Hp as [|? ? Hc Hl].
  constructor; [done|]. apply Forall_forall. intros x [_ Hx]%list_elem_of_filter. by eapply Forall_forall in Hl.
Qed.

(** What a path that is accepted stands for, and the rights that are asked. *)
Definition below (pvt path : string) : Prop := exists l, Forall plain l /\ path = path_extend pvt l.
Lemma format_and_check_path_below s a op path :
  format_and_check_path cfg s a op = Ok path ->
  exists pvt, cf_pvt_path cfg = Some pvt /\ below pvt path /\
    (op = PvtOpWrite -> exists p, check_pvt_write cfg a p = Ok true /\
       (s = "/"%string /\ p = ""%string /\ path = pvt \/ p = s /\ path = path_extend pvt (rel_components s))).
Proof.
  unfold format_and_check_path. destruct (cf_pvt_path cfg) as [pvt|]; [|done]. simpl.
  destruct (String.eqb_spec s "/") as [->|Hs].
  - intros Hr. exists pvt. split; [done|].
    assert (path = pvt) as ->.
    { by destruct op; simpl in Hr; [|destruct (check_pvt_read cfg a "") as [[]|]|destruct (check_pvt_write cfg a "") as [[]|]];
        simpl in Hr; simplify_eq. }
    split; [by exists []|]. intros ->. exists ""%string. split; [|by left].
    destruct (check_pvt_write cfg a "") as [[]|]; done.
  - destruct (path_absolute s); [done|]. destruct (path_contains_traversal s) eqn:Et; [done|]. intros Hr.
    exists pvt. split; [done|].
    assert (path = path_extend pvt (rel_components s)) as ->.
    { by destruct op; simpl in Hr; [|destruct (check_pvt_read cfg a s) as [[]|]|destruct (check_pvt_write cfg a s) as [[]|]];
        simpl in Hr; simplify_eq. }
    split; [exists (rel_components s); split; [by apply rel_components_plain|done]|]. intros ->. exists s.
    split; [|by right]. destruct (check_pvt_write cfg a s) as [[]|]; done.
Qed.
End paths.

(** ** Requests *)

Section files.
Context {Uuid : Type} `{Countable Uuid} `{Ext : Externals, HExt : !HmiExternals Uuid, HashExternals, AExt : !ApiExternals}.
Variable (e : HmiEnv (Uuid := Uuid)) (cfg : ApiConfig) (error_code : option Error -> Z)
  (mask_to_string : OIDMask -> string).

Abbreviation St := (Hmi (Uuid := Uuid)).
Abbreviation HM := (M St).
Abbreviation AM := (M (St * ACI)).
Implicit Types (s : St) (a : Auth).

(** The files that differ have a property. *)
Definition changes (W : string -> Prop) s s' : Prop :=
  forall f, hm_files s' !! f ≠ hm_files s !! f -> W f.
#[local] Instance changes_preorder W : PreOrder (changes W).
Proof.
  split; [by intros s f Hf|]. intros x y z Hxy Hyz f Hf.
  destruct (decide (hm_files y !! f = hm_files x !! f)) as [Heq|]; [|by apply Hxy]. apply Hyz. by rewrite Heq.
Qed.
Lemma changes_sub W W' s s' : (forall f, W f -> W' f) -> changes W s s' -> changes W' s s'.
Proof. intros HW Hc f Hf. apply HW, Hc, Hf. Qed.

Section frames.
Variable (W : string -> Prop).

Lemma same_files m : (forall s, hm_files (m s) = hm_files s) -> keeps (changes W) (modify m).
Proof. intros Hm. apply keeps_modify. intros s f. by rewrite Hm. Qed.
Lemma tick_files : keeps (changes W) tick.
Proof. by intros s f. Qed.
#[local] Hint Resolve tick_files : keeps.
#[local] Hint Extern 2 (keeps (changes _) (modify _)) => apply same_files; intros ?; reflexivity : keeps.
Create HintDb hmi_ops.
#[local] Hint Unfold now sql query sql_insert bus_try bus_call load_token get_token is_expired touch set_token_time
  token_id_create save_token create_token set_token_mode token_change_mode delete_token destroy_token
  is_active_session_for load_all_tokens list_neighbors aci_new api_log_insert api_log_mark do_accounting
  log_outcome log_request_of log_unauthorized log_get get_user_data set_user_data delete_user_data fs_call
  insert_ehmi_config method_ehmi_get_config : hmi_ops.
Ltac quiet_op := autounfold with hmi_ops; frame.

Lemma query_files {A} (f : Db -> A) : keeps (changes W) (query e f).
Proof. quiet_op. Qed.
Lemma get_token_files id ip : keeps (changes W) (get_token e id ip).
Proof. quiet_op. Qed.
Lemma create_token_files u acl svc ip : keeps (changes W) (create_token e u acl svc ip).
Proof. quiet_op. Qed.
Lemma change_mode_files md t : keeps (changes W) (token_change_mode e md t).
Proof. quiet_op. Qed.
Lemma destroy_token_files id : keeps (changes W) (destroy_token e id).
Proof. quiet_op. Qed.
Lemma is_active_files login : keeps (changes W) (is_active_session_for e login).
Proof. quiet_op. Qed.
Lemma list_neighbors_files : keeps (changes W) (list_neighbors e).
Proof. quiet_op. Qed.
Lemma aci_new_files a m src : keeps (changes W) (aci_new e a m src).
Proof. quiet_op. Qed.
Lemma log_request_of_files lv aci : keeps (changes W) (log_request_of e lv aci).
Proof. quiet_op. Qed.
Lemma log_outcome_files aci err : keeps (changes W) (log_outcome e aci err).
Proof. quiet_op. Qed.
Lemma log_unauthorized_files m src : keeps (changes W) (log_unauthorized e m src).
Proof. quiet_op. Qed.
Lemma log_get_files f : keeps (changes W) (log_get e error_code f).
Proof. quiet_op. Qed.
Lemma get_user_data_files login key : keeps (changes W) (get_user_data e login key).
Proof. quiet_op. Qed.
Lemma set_user_data_files login key v : keeps (changes W) (set_user_data e cfg login key v).
Proof. quiet_op. Qed.
Lemma delete_user_data_files login key : keeps (changes W) (delete_user_data e login key).
Proof. quiet_op. Qed.
Lemma fs_call_keeps_files : keeps (changes W) (fs_call e).
Proof. quiet_op. Qed.
Lemma insert_ehmi_files ti ck p : keeps (changes W) (insert_ehmi_config e ti ck p).
Proof. quiet_op. Qed.
Lemma bus_try_files t m p : keeps (changes W) (bus_try e t m p).
Proof. quiet_op. Qed.
Lemma bus_call_files t m p : keeps (changes W) (bus_call e t m p).
Proof. quiet_op. Qed.
Lemma ehmi_get_config_files p : keeps (changes W) (method_ehmi_get_config e p).
Proof. quiet_op. Qed.
#[local] Hint Resolve get_token_files create_token_files change_mode_files destroy_token_files is_active_files
  aci_new_files log_request_of_files log_outcome_files bus_try_files : keeps.
Lemma auth_key_at_files svcs key src : keeps (changes W) (auth_key_at e svcs key src).
Proof. induction svcs; simpl; frame. Qed.
Lemma hmi_auth_key_files key ip : keeps (changes W) (hmi_auth_key e key ip).
Proof. apply auth_key_at_files. Qed.
#[local] Hint Resolve hmi_auth_key_files : keeps.
Lemma authenticate_files key ip : keeps (changes W) (authenticate e key ip).
Proof. unfold authenticate. frame. Qed.
Lemma login_key_files key ip src : keeps (changes W) (login_key e key ip src).
Proof. unfold login_key. frame. Qed.
Lemma login_at_files svcs p login ti ip aci : keeps (changes W) (login_at e svcs p login ti ip aci).
Proof. induction svcs; simpl; unfold login_verified; frame. Qed.
Lemma login_user_files login pw xo ti ip src ext : keeps (changes W) (login_user e login pw xo ti ip src ext).
Proof. unfold login_user. apply keeps_bind; [frame|]. intros aci. apply login_at_files. Qed.
#[local] Hint Resolve login_key_files login_user_files : keeps.
Lemma login_meta_files meta ip : keeps (changes W) (login_meta e cfg meta ip).
Proof. unfold login_meta. frame. Qed.
End frames.

#[local] Hint Resolve tick_files query_files get_token_files change_mode_files destroy_token_files is_active_files
  list_neighbors_files aci_new_files log_request_of_files log_outcome_files log_unauthorized_files log_get_files
  get_user_data_files set_user_data_files delete_user_data_files fs_call_keeps_files insert_ehmi_files bus_call_files
  ehmi_get_config_files authenticate_files login_key_files login_user_files login_meta_files : keeps.

(** A file a caller may write, below the directory. *)
Definition may_write a (f : string) : Prop :=
  writable a = true /\ exists p, format_and_check_path cfg p a PvtOpWrite = Ok f.

(** A method of the caller [a]. *)
Section methods.
Variable (a : Auth).
Definition changes_of (x y : St * ACI) : Prop :=
  ai_auth x.2 = a -> ai_auth y.2 = a /\ changes (may_write a) x.1 y.1.
#[local] Instance changes_of_preorder : PreOrder changes_of.
Proof.
  split; [intros x Hx; split; [done|reflexivity]|]. intros x y z Hxy Hyz Hx. destruct (Hxy Hx) as [Hy Hc].
  destruct (Hyz Hy) as [Hz Hc']. split; [done|]. by etrans.
Qed.
Lemma on_hmi_files {A} (m : HM A) : keeps (changes (may_write a)) m -> keeps changes_of (on_hmi m).
Proof. intros Hm [s aci] Ha. unfold on_hmi. simpl. specialize (Hm s). by destruct (m s). Qed.
#[local] Hint Extern 2 (keeps changes_of (on_hmi _)) => apply on_hmi_files; solve [frame] : keeps.
Lemma on_aci_files f : (forall x, ai_auth (f x) = ai_auth x) -> keeps changes_of (on_aci f).
Proof. intros Hf. apply keeps_modify. intros x Hx. simpl. rewrite Hf. split; [done|reflexivity]. Qed.
#[local] Hint Extern 2 (keeps changes_of (on_aci _)) => apply on_aci_files; done : keeps.
Create HintDb api_ops.
#[local] Hint Unfold log_request log_param log_opt_note my_acl my_token my_auth writing item_write call_core
  api_filter demo_mode_abort history_period dobj_config : api_ops.
#[local] Hint Unfold method_test method_ping method_set_password method_reset_user method_get_profile_field
  method_set_profile_field method_item_state method_item_check_access method_item_state_history
  method_item_state_log method_item_state_history_combined method_log_get method_api_log_get method_action
  method_action_toggle method_action_result method_action_kill method_action_terminate method_run method_lvar_set
  method_lvar method_session_list_neighbors method_session_set_readonly method_ehmi_create_config
  method_user_data_get method_user_data_set method_user_data_delete method_db_list method_llc_list
  method_pvt_get method_pvt_list method_dobj_list method_dobj_get_struct
  method_dobj_get_struct_code method_bus_call method_x_call : api_ops.
Ltac quiet_method := autounfold with api_ops; frame.

Lemma history_frame_files c oids acc :
  (forall i, keeps changes_of (c i)) -> keeps changes_of (history_frame mask_to_string c oids acc).
Proof. intros Hc. revert acc. induction oids; intros; simpl; frame. Qed.

Lemma writing_bind {B} (k : unit -> AM B) :
  (writable a = true -> keeps changes_of (k tt)) -> keeps changes_of (writing ≫= k).
Proof.
  intros Hk x Hx. rewrite run_bind. unfold writing, my_auth. rewrite !run_bind. unfold get. rewrite run_ret.
  unfold lift, check_write. rewrite Hx. destruct (writable a); [by apply Hk|]. split; [done|reflexivity].
Qed.
Lemma my_auth_bind {B} (k : Auth -> AM B) : keeps changes_of (k a) -> keeps changes_of (my_auth ≫= k).
Proof. intros Hk x Hx. rewrite run_bind. unfold my_auth. rewrite run_bind. unfold get. rewrite run_ret, Hx. by apply Hk. Qed.
Lemma set_file_files g path :
  may_write a path -> (forall m f, f ≠ path -> g m !! f = m !! f) ->
  keeps changes_of (on_hmi (modify (fun s => set_files (g (hm_files s)) s))).
Proof.
  intros Hw Hg. apply on_hmi_files, keeps_modify. intros s f Hf. simpl in Hf.
  destruct (decide (f = path)) as [->|Hne]; [done|]. by rewrite Hg in Hf.
Qed.
Lemma pvt_put_files p : keeps changes_of (method_pvt_put e cfg p).
Proof.
  unfold method_pvt_put. do 3 (apply keeps_bind; [quiet_method|intros ?]). apply writing_bind. intros Hw.
  apply keeps_bind; [quiet_method|]. intros _. apply my_auth_bind, keeps_lift_bind. intros path Hpath.
  assert (may_write a path) as Hmw by (split; [done|by eexists]).
  apply keeps_bind; [frame|]. intros _. apply keeps_bind; [frame|]. intros _.
  apply keeps_bind; [apply (set_file_files (fun m => <[path := ""%string]> m) path); [done|]; intros; by apply lookup_insert_ne|].
  intros _. apply keeps_bind; [frame|]. intros _.
  apply keeps_bind; [apply (set_file_files (fun m => <[path := _]> m) path); [done|]; intros; by apply lookup_insert_ne|].
  intros _. frame.
Qed.
Lemma pvt_unlink_files p : keeps changes_of (method_pvt_unlink e cfg p).
Proof.
  unfold method_pvt_unlink. do 3 (apply keeps_bind; [quiet_method|intros ?]). apply writing_bind. intros Hw.
  apply keeps_bind; [quiet_method|]. intros _. apply my_auth_bind, keeps_lift_bind. intros path Hpath.
  do 3 (apply keeps_bind; [frame|intros ?]).
  apply keeps_bind; [|intros; frame]. apply (set_file_files (delete path) path); [split; [done|by eexists]|].
  intros. by apply lookup_delete_ne.
Qed.
#[local] Hint Resolve pvt_put_files pvt_unlink_files : keeps.

Lemma api_methods_files key source :
  Forall (fun m => forall p, keeps changes_of (m.2 p)) (api_methods e cfg error_code mask_to_string key source).
Proof.
  unfold api_methods.
  repeat (constructor; [intros p; cbn [snd]; quiet_method; apply history_frame_files; intros; quiet_method|]).
  constructor.
Qed.
Lemma find_method_files method key source m p :
  find_method e cfg error_code mask_to_string method key source = Ok m -> keeps changes_of (m p).
Proof.
  unfold find_method. destruct (strip_prefix "bus::" method) as [b|].
  { destruct (split_colons b) as [t [r|]]; [|done]. intros [= <-]. quiet_method. }
  destruct (strip_prefix "x::" method) as [b|].
  { destruct (split_colons b) as [t [r|]]; [|done]. intros [= <-]. quiet_method. }
  destruct (list_find _ _) as [[i x]|] eqn:E; [|done]. intros [= <-].
  apply list_find_Some in E as (Hx & _ & _).
  exact (proj1 (Forall_lookup _ _) (api_methods_files key source) _ _ Hx p).
Qed.
Lemma run_method_files (m : AM Res) aci s :
  keeps changes_of m -> ai_auth aci = a -> changes (may_write a) s (run_method e m aci s).2.
Proof.
  intros Hm Ha. destruct (Hm (s, aci) Ha) as [_ Hc]. unfold run_method.
  destruct (m (s, aci)) as [r [h aci']]. simpl in Hc.
  assert (forall err, changes (may_write a) s (log_outcome e aci' err h).2) as Hl.
  { intros err. etrans; [exact Hc|]. apply log_outcome_files. }
  by destruct r as [r|[]]; simpl.
Qed.
End methods.

(** C23: Private files are written only where and by whom they may be.  Whatever
    request arrives, a file that it creates, changes or removes is below the
    directory of private files (the path to it goes only down: no component is
    empty, leads up or contains a slash), and the caller whom the key or token of
    the request authenticates has the right to write there, in a session that is
    not read-only. *)
Theorem private_files_confined `{!UrlLaws} method params meta s f :
  hm_files (call e cfg error_code mask_to_string method params meta s).2 !! f ≠ hm_files s !! f ->
  exists key a pvt path, presented_by method params meta key /\ (authenticate e key (me_ip meta) s).1 = Ok a /\
    cf_pvt_path cfg = Some pvt /\ below pvt f /\ writable a = true /\ check_pvt_write cfg a path = Ok true /\
    (f = pvt /\ path = ""%string \/ f = path_extend pvt (rel_components path)).
Proof.
  set (W f := exists key a, presented_by method params meta key /\ (authenticate e key (me_ip meta) s).1 = Ok a /\
    may_write a f). intros Hf.
  assert (W f) as (key & a & Hp & Ha & Hw & path & Hpath).
  { revert f Hf. apply (call_rel e cfg error_code mask_to_string (changes W)); try (intros; solve [eauto with keeps]).
    intros key a name m p aci s1 Hp Ha Hai Hfm. eapply changes_sub; [|by apply (run_method_files a); [eapply find_method_files|]].
    intros f Hw. by exists key, a. }
  destruct (format_and_check_path_below _ _ _ _ _ Hpath) as (pvt & Hpvt & Hb & Hr).
  destruct (Hr eq_refl) as (q & Hq & Hcase). exists key, a, pvt, q. split_and!; try done.
  destruct Hcase as [(-> & -> & ->)|[-> ->]]; [by left|by right].
Qed.
End files.
