(* ===== verification/HmiWs.v ===== *)
(** * The HMI service: web sockets (svc/hmi/src/handler.rs)

    A web socket has a queue of frames, which its sender task empties, and a
    handler task for the messages of the client.  The maps of subscriptions are
    those of the crate [submap].  What the code starts with [tokio::spawn] is a
    pending task: tasks run in any order, between the other steps. *)
From Stdlib Require Import Ascii.
From S2P Require Import Prelude Duration EvaCommon Password HmiTokens HmiApi.

(** ** The crates *)

(** [submap::SubMap]: clients are registered, and subscribe to topics. *)
Class SubMaps (C : Type) := {
  SubMap : Type;
  sub_new : SubMap;
  sub_register : C -> SubMap -> SubMap;
  sub_unregister : C -> SubMap -> SubMap;
  sub_subscribe : string -> C -> SubMap -> SubMap;
  sub_unsubscribe : string -> C -> SubMap -> SubMap;
  sub_unsubscribe_all : C -> SubMap -> SubMap;
  sub_get : string -> SubMap -> list C;        (* get_subscribers *)
  sub_clients : SubMap -> list C               (* list_clients *)
}.
(** Only a registered client is a subscriber, and only [register_client] and
    [unregister_client] change who is registered. *)
Class SubMapLaws (C : Type) `{SubMaps C} : Prop := {
  sub_new_clients : sub_clients sub_new = [];
  sub_register_clients c d m : d ∈ sub_clients (sub_register c m) <-> d = c \/ d ∈ sub_clients m;
  sub_unregister_clients c d m : d ∈ sub_clients (sub_unregister c m) <-> d ≠ c /\ d ∈ sub_clients m;
  sub_subscribe_clients t c m : sub_clients (sub_subscribe t c m) = sub_clients m;
  sub_unsubscribe_clients t c m : sub_clients (sub_unsubscribe t c m) = sub_clients m;
  sub_unsubscribe_all_clients c m : sub_clients (sub_unsubscribe_all c m) = sub_clients m;
  sub_get_registered t c m : c ∈ sub_get t m -> c ∈ sub_clients m
}.

(** Parsers and decoders, [FullRemoteItemState], and the constants of
    [eva_common]. *)
Class WsExternals `{Externals} := {
  FullState : Type;
  fs_oid : FullState -> OID;
  fs_ieid : FullState -> IEID;
  state_value : FullState -> EResult Value;
  un_local_state : list Z -> OID -> EResult FullState;
  un_remote_state : list Z -> OID -> EResult FullState;
  un_states : list Z -> EResult (list FullState);
  un_blob : list Z -> EResult Value;
  un_log : list Z -> EResult Value;
  oid_from_path : string -> EResult OID;
  ws_mask_parse : string -> option OIDMask;
  mask_as_path : OIDMask -> string;
  f64_parse : string -> option f64;
  ws_command : string -> EResult (string * option Value);
  dec_stream : Value -> EResult OID;
  dec_masks : Value -> EResult (list string);
  dec_u8 : Value -> EResult Z;
  val_string : string -> Value;
  LOCAL_STATE_TOPIC : string;
  REMOTE_STATE_TOPIC : string;
  LOG_EVENT_TOPIC : string;
  AAA_ACL_TOPIC : string;
  AAA_KEY_TOPIC : string;
  AAA_USER_TOPIC : string;
  LOG_LEVEL_INFO : Z;
  LOG_LEVEL_WARN : Z;
  LOG_LEVEL_ERROR : Z
}.
Section ws.
Context {Uuid : Type} `{Countable Uuid} `{Ext : Externals, HExt : !HmiExternals Uuid, HashExternals, WExt : !WsExternals, !SubMaps Uuid}.

(** ** Frames *)

(** svc/hmi/src/handler.rs:32-42 [Topic] *)
Inductive Topic := TState | TLog | TPong | TReload | TServer | TStream | TBye.
#[global] Instance Topic_eq_dec : EqDecision Topic.
Proof. solve_decision. Defined.

(** The data of a frame: a state with the value made of it, or another value. *)
Inductive WsData :=
  | WdState (st : FullState) (v : Value)
  | WdValue (v : Value).
(** svc/hmi/src/handler.rs:197-208 (WsFrame, WsTextFrame); a binary frame is
    kept with the item it is of *)
Inductive WsFrame :=
  | WText (s : Topic) (d : option WsData)
  | WBinary (oid : OID) (data : list Z).
Definition new_log (d : Value) : WsFrame := WText TLog (Some (WdValue d)).
Definition new_bye : WsFrame := WText TBye None.
Definition new_pong : WsFrame := WText TPong None.
Definition new_reload : WsFrame := WText TReload (Some (WdValue (val_string "asap"))).
Definition new_server_event (event : Value) : WsFrame := WText TServer (Some (WdValue event)).
Definition new_stream (s : string) : WsFrame := WText TStream (Some (WdValue (val_string s))).
(** [WsFrame::is_data], [WsFrame::is_bye] *)
Definition is_data (f : WsFrame) : bool := match f with WText s _ => bool_decide (s = TState) | WBinary _ _ => false end.
Definition is_bye (f : WsFrame) : bool := match f with WText s _ => bool_decide (s = TBye) | WBinary _ _ => false end.

(** ** State *)

(** [WsTx], with the tasks of the socket. *)
Record WsTx := mkWsTx {
  wx_auth : Auth (Uuid := Uuid);
  wx_sent : list WsFrame;                (* all frames that were queued *)
  wx_taken : nat;                        (* of these, how many the sender has taken *)
  wx_closed : bool;                      (* the queue is closed *)
  wx_repl : gmap OID IEID;
  wx_alive : bool                        (* the handler runs *)
}.
Definition WS_QUEUE : nat := Z.to_nat 32768.
Definition set_sent (l : list WsFrame) (x : WsTx) : WsTx :=
  mkWsTx (wx_auth x) l (wx_taken x) (wx_closed x) (wx_repl x) (wx_alive x).
Definition set_taken (n : nat) (x : WsTx) : WsTx :=
  mkWsTx (wx_auth x) (wx_sent x) n (wx_closed x) (wx_repl x) (wx_alive x).
Definition set_closed (x : WsTx) : WsTx :=
  mkWsTx (wx_auth x) (wx_sent x) (wx_taken x) true (wx_repl x) (wx_alive x).
Definition set_repl (r : gmap OID IEID) (x : WsTx) : WsTx :=
  mkWsTx (wx_auth x) (wx_sent x) (wx_taken x) (wx_closed x) r (wx_alive x).
Definition set_dead (x : WsTx) : WsTx :=
  mkWsTx (wx_auth x) (wx_sent x) (wx_taken x) (wx_closed x) (wx_repl x) false.

Inductive Task :=
  | TAbort (id : Uuid)                                    (* abort_web_socket_standalone *)
  | TClose (id : Uuid)                                    (* the end of WebSocket::terminate *)
  | TInitial (id : Uuid) (oids : option (list OIDMask))   (* send_initial *)
  | TServe (id : Uuid) (oids : option (list OIDMask)).    (* the start of serve_websocket *)

Record Web := mkWeb {
  wb_hmi : Hmi (Uuid := Uuid);
  wb_tx : gmap Uuid WsTx;
  wb_sub : SubMap;                       (* WS_SUB *)
  wb_sub_log : SubMap;                   (* WS_SUB_LOG *)
  wb_standalone : gset Uuid;             (* WS_STANDALONE *)
  wb_streams : gmap OID (gset Uuid);     (* WS_STREAMS *)
  wb_stream_queue : list (OID * Uuid);   (* WS_STREAM_HANDLER_TX *)
  wb_topics : gset string;               (* what the stream client is subscribed to on the bus *)
  wb_tasks : list Task;
  wb_n : nat                             (* sockets that were opened *)
}.
Definition web_start (h : Hmi) : Web := mkWeb h ∅ sub_new sub_new ∅ ∅ [] ∅ [] 0.

Abbreviation WM := (M Web).
Definition set_hmi h (w : Web) : Web :=
  mkWeb h (wb_tx w) (wb_sub w) (wb_sub_log w) (wb_standalone w) (wb_streams w) (wb_stream_queue w) (wb_topics w) (wb_tasks w) (wb_n w).
Definition set_tx x (w : Web) : Web :=
  mkWeb (wb_hmi w) x (wb_sub w) (wb_sub_log w) (wb_standalone w) (wb_streams w) (wb_stream_queue w) (wb_topics w) (wb_tasks w) (wb_n w).
Definition set_sub x (w : Web) : Web :=
  mkWeb (wb_hmi w) (wb_tx w) x (wb_sub_log w) (wb_standalone w) (wb_streams w) (wb_stream_queue w) (wb_topics w) (wb_tasks w) (wb_n w).
Definition set_sub_log x (w : Web) : Web :=
  mkWeb (wb_hmi w) (wb_tx w) (wb_sub w) x (wb_standalone w) (wb_streams w) (wb_stream_queue w) (wb_topics w) (wb_tasks w) (wb_n w).
Definition set_standalone x (w : Web) : Web :=
  mkWeb (wb_hmi w) (wb_tx w) (wb_sub w) (wb_sub_log w) x (wb_streams w) (wb_stream_queue w) (wb_topics w) (wb_tasks w) (wb_n w).
Definition set_streams x (w : Web) : Web :=
  mkWeb (wb_hmi w) (wb_tx w) (wb_sub w) (wb_sub_log w) (wb_standalone w) x (wb_stream_queue w) (wb_topics w) (wb_tasks w) (wb_n w).
Definition set_stream_queue x (w : Web) : Web :=
  mkWeb (wb_hmi w) (wb_tx w) (wb_sub w) (wb_sub_log w) (wb_standalone w) (wb_streams w) x (wb_topics w) (wb_tasks w) (wb_n w).
Definition set_topics x (w : Web) : Web :=
  mkWeb (wb_hmi w) (wb_tx w) (wb_sub w) (wb_sub_log w) (wb_standalone w) (wb_streams w) (wb_stream_queue w) x (wb_tasks w) (wb_n w).
Definition set_tasks x (w : Web) : Web :=
  mkWeb (wb_hmi w) (wb_tx w) (wb_sub w) (wb_sub_log w) (wb_standalone w) (wb_streams w) (wb_stream_queue w) (wb_topics w) x (wb_n w).
Definition set_wb_n x (w : Web) : Web :=
  mkWeb (wb_hmi w) (wb_tx w) (wb_sub w) (wb_sub_log w) (wb_standalone w) (wb_streams w) (wb_stream_queue w) (wb_topics w) (wb_tasks w) x.

(** The environment of the sessions, and [Uuid::new_v4] for the sockets. *)
Variable (e : HmiEnv (Uuid := Uuid)) (ws_uuid : nat -> Uuid).

Definition on_tx (id : Uuid) (f : WsTx -> WsTx) : WM unit := modify (fun w => set_tx (alter f id (wb_tx w)) w).
Definition spawn (t : Task) : WM unit := modify (fun w => set_tasks (wb_tasks w ++ [t]) w).
Definition on_sub (f : SubMap -> SubMap) : WM unit := modify (fun w => set_sub (f (wb_sub w)) w).
Definition on_sub_log (f : SubMap -> SubMap) : WM unit := modify (fun w => set_sub_log (f (wb_sub_log w)) w).
Definition of_hmi {A} (m : M (Hmi (Uuid := Uuid)) A) : WM A :=
  fun w => let '(r, h) := m (wb_hmi w) in (r, set_hmi h w).
Definition get_tx (id : Uuid) : WM (option WsTx) := w ← get; mret (wb_tx w !! id).

(** [Sender::try_send]: whether the frame was queued *)
Definition try_send (id : Uuid) (f : WsFrame) : WM bool :=
  x ← get_tx id;
  match x with
  | Some x =>
      if wx_closed x || (WS_QUEUE <=? length (wx_sent x) - wx_taken x)%nat then mret false
      else _ ← on_tx id (fun x => set_sent (wx_sent x ++ [f]) x); mret true
  | None => mret false
  end.
(** [Sender::send]: a send that waits for room is done when there is some *)
Definition send (id : Uuid) (f : WsFrame) : WM bool :=
  x ← get_tx id;
  match x with
  | Some x =>
      if wx_closed x then mret false
      else _ ← on_tx id (fun x => set_sent (wx_sent x ++ [f]) x); mret true
  | None => mret false
  end.

(** ** The end of a socket *)

(** svc/hmi/src/handler.rs:711-714 [unsubscribe_web_socket] *)
Definition unsubscribe_web_socket (id : Uuid) : WM unit :=
  _ ← on_sub (sub_unregister id); on_sub_log (sub_unregister id).
(** svc/hmi/src/handler.rs:733-741 [WebSocket::terminate] *)
Definition terminate (id : Uuid) : WM unit :=
  _ ← on_tx id set_dead;
  _ ← spawn (TClose id);
  unsubscribe_web_socket id.
(** svc/hmi/src/handler.rs:716-720 [abort_web_socket_standalone] *)
Definition abort_web_socket_standalone (id : Uuid) : WM unit :=
  w ← get;
  if decide (id ∈ wb_standalone w) then
    _ ← modify (fun w => set_standalone (wb_standalone w ∖ {[id]}) w); terminate id
  else mret tt.
(** svc/hmi/src/handler.rs:313-323 [WsTx::ask_terminate] *)
Definition ask_terminate (id : Uuid) : WM unit :=
  x ← get_tx id;
  match x ≫= fun x => auth_token (wx_auth x) with
  | Some token =>
      w ← get;
      _ ← (if decide (id ∈ default ∅ (hm_ws (wb_hmi w) !! tk_id token)) then terminate id else mret tt);
      _ ← of_hmi (unregister_websocket token id);
      on_tx id set_closed
  | None => spawn (TAbort id)
  end.

(** ** Notifications *)

(** svc/hmi/src/handler.rs:324-341 [WsTx::try_send_state_frame] *)
Definition try_send_state_frame (id : Uuid) (f : WsFrame) (oid : OID) (ieid : IEID) : WM bool :=
  x ← get_tx id;
  match x with
  | Some x =>
      match wx_repl x !! oid with
      | Some prev =>
          if ieid_gtb prev ieid then mret true
          else _ ← on_tx id (fun x => set_repl (<[oid := ieid]> (wx_repl x)) x); try_send id f
      | None => _ ← on_tx id (fun x => set_repl (<[oid := ieid]> (wx_repl x)) x); try_send id f
      end
  | None => mret false
  end.
(** svc/hmi/src/handler.rs:138-152 [notify_ws] *)
Definition notify_ws (id : Uuid) (f : WsFrame) (repl : option (OID * IEID)) : WM unit :=
  sent ← match repl with
         | Some (oid, ieid) => try_send_state_frame id f oid ieid
         | None => try_send id f
         end;
  if (sent : bool) then mret tt else _ ← ask_terminate id; raise EFailed.
(** svc/hmi/src/handler.rs:154-158 [notify_ws_list] *)
Definition notify_ws_list (ids : list Uuid) (f : WsFrame) (repl : option (OID * IEID)) : WM unit :=
  for_each (fun id => log_ef (notify_ws id f repl)) ids.
(** svc/hmi/src/handler.rs:160-166 [notify_server_event] *)
Definition notify_server_event (event : Value) : WM unit :=
  w ← get; notify_ws_list (sub_clients (wb_sub w)) (new_server_event event) None.
(** svc/hmi/src/handler.rs:168-174 [notify_need_reload] *)
Definition notify_need_reload : WM unit :=
  w ← get; notify_ws_list (sub_clients (wb_sub w)) new_reload None.
Definition can_read (x : WsTx) (oid : OID) : bool :=
  match auth_acl (wx_auth x) with Ok acl => check_item_read acl oid | Err _ => false end.
Definition readers (w : Web) (oid : OID) (ids : list Uuid) : list Uuid :=
  filter (fun id => match wb_tx w !! id with Some x => can_read x oid | None => false end = true) ids.
(** svc/hmi/src/handler.rs:176-186 [notify_state] *)
Definition notify_state (st : FullState) : WM unit :=
  w ← get;
  let clients := readers w (fs_oid st) (sub_get (oid_as_path (fs_oid st)) (wb_sub w)) in
  if bool_decide (clients = []) then mret tt
  else
    v ← lift (state_value st);
    notify_ws_list clients (WText TState (Some (WdState st v))) (Some (fs_oid st, fs_ieid st)).
(** svc/hmi/src/handler.rs:188-195 [notify_log] *)
Definition notify_log (topic : string) (record : Value) : WM unit :=
  w ← get; notify_ws_list (sub_get topic (wb_sub_log w)) (new_log record) None.

(** The states are sent until one fails. *)
Fixpoint send_states (id : Uuid) (states : list FullState) : WM unit :=
  match states with
  | [] => mret tt
  | st :: states =>
      v ← lift (state_value st);
      r ← attempt (notify_ws id (WText TState (Some (WdState st v))) (Some (fs_oid st, fs_ieid st)));
      match r with Ok _ => send_states id states | Err _ => mret tt end
  end.
(** svc/hmi/src/handler.rs:342-370 [WsTx::send_initial] *)
Definition send_initial (id : Uuid) (oids : option (list OIDMask)) : WM unit :=
  match oids with
  | Some oids =>
      x ← get_tx id;
      x ← lift (ok_or x ENever);
      acl ← lift (auth_acl (wx_auth x));
      let '(allow, deny) := get_items_allow_deny_reading acl in
      b ← of_hmi (bus_call e "eva.core" "item.state" (PStates oids allow deny));
      states ← lift (un_states b);
      send_states id states
  | None => mret tt
  end.

(** ** Messages of clients *)

(** svc/hmi/src/handler.rs:511-523 [get_log_topics] *)
Definition get_log_topics (level : Z) : list string :=
  (if (level <=? LOG_LEVEL_INFO)%Z then ["info"%string] else []) ++
  (if (level <=? LOG_LEVEL_WARN)%Z then ["warn"%string] else []) ++
  (if (level <=? LOG_LEVEL_ERROR)%Z then ["error"%string] else []).

Inductive WsMsg := MsgError | MsgEnd | MsgText (s : string) | MsgOther.
Inductive Flow := FContinue | FBreak.
Definition subscribe_masks (id : Uuid) (masks : list OIDMask) : WM unit :=
  for_each (fun m => on_sub (sub_subscribe (mask_as_path m) id)) masks.
(** The masks of a request; those that are no masks are skipped. *)
Definition parse_masks (p : option Value) : option (list OIDMask) :=
  match p with
  | Some v => match dec_masks v with Ok l => Some (omap ws_mask_parse l) | Err _ => None end
  | None => None
  end.

(** A stream is asked for (svc/hmi/src/handler.rs:577-617) *)
Definition stream_start (id : Uuid) (x : WsTx) (params : option Value) : WM Flow :=
  match params with
  | None => mret FContinue
  | Some p =>
      match dec_stream p with
      | Err _ => mret FContinue
      | Ok i =>
          if can_read x i then
            r ← attempt (notify_ws id (new_stream "start") None);
            match r with
            | Ok _ => _ ← modify (fun w => set_stream_queue (wb_stream_queue w ++ [(i, id)]) w); mret FContinue
            | Err _ => mret FBreak
            end
          else
            r ← attempt (notify_ws id (new_stream "forbidden") None);
            match r with Ok _ => mret FContinue | Err _ => mret FBreak end
      end
  end.
(** A command of the client (svc/hmi/src/handler.rs:573-702) *)
Definition ws_process (id : Uuid) (x : WsTx) (s : string) : WM Flow :=
  cmd ← lift (ws_command s);
  let '(method, params) := cmd in
  if String.eqb method "stream.start" then stream_start id x params
  else if String.eqb method "subscribe.state" then
    match parse_masks params with
    | Some masks => _ ← subscribe_masks id masks; mret FContinue
    | None => mret FContinue
    end
  else if String.eqb method "unsubscribe.state" then
    _ ← on_sub (sub_unsubscribe_all id); mret FContinue
  else if String.eqb method "subscribe.state_initial" then
    match parse_masks params with
    | Some masks => _ ← subscribe_masks id masks; _ ← spawn (TInitial id (Some masks)); mret FContinue
    | None => mret FContinue
    end
  else if String.eqb method "subscribe.log" then
    match params ≫= fun p => ok (dec_u8 p) with
    | Some level =>
        _ ← for_each (fun t => on_sub_log (sub_unsubscribe t id)) (get_log_topics 0);
        _ ← for_each (fun t => on_sub_log (sub_subscribe t id)) (get_log_topics level);
        mret FContinue
    | None => mret FContinue
    end
  else if String.eqb method "ping" then
    sent ← send id new_pong; if (sent : bool) then mret FContinue else raise EIo
  else mret FBreak.
(** The end of the loop: the sender is aborted, which closes the queue. *)
Definition loop_end (id : Uuid) : WM unit := on_tx id set_closed.
(** What the task of the handler does after [serve_websocket]. *)
Definition handler_end (id : Uuid) : WM unit := _ ← on_tx id set_dead; ask_terminate id.
(** A message of the client (svc/hmi/src/handler.rs:559-707) *)
Definition ws_message (id : Uuid) (m : WsMsg) : WM unit :=
  x ← get_tx id;
  match x with
  | Some x =>
      if wx_alive x then
        match m with
        | MsgError | MsgEnd => _ ← loop_end id; handler_end id
        | MsgText s =>
            if String.eqb s "" then mret tt
            else
              r ← attempt (ws_process id x s);
              match r with
              | Ok FContinue => mret tt
              | Ok FBreak => _ ← loop_end id; handler_end id
              | Err _ => handler_end id
              end
        | MsgOther => mret tt
        end
      else mret tt
  | None => mret tt
  end.

(** ** Tasks *)

Definition run_task (t : Task) : WM unit :=
  match t with
  | TAbort id => abort_web_socket_standalone id
  | TClose id => _ ← send id new_bye; on_tx id set_closed
  | TInitial id oids => log_ef (send_initial id oids)
  | TServe id oids =>
      x ← get_tx id;
      match x with
      | Some x => if wx_alive x then subscribe_masks id (default [] oids) else mret tt
      | None => mret tt
      end
  end.

(** ** Connections *)

Inductive Response := RespUpgrade | RespStatus (code : Z).
Fixpoint parse_all (l : list string) : option (list OIDMask) :=
  match l with
  | [] => Some []
  | s :: l => m ← ws_mask_parse s; ms ← parse_all l; Some (m :: ms)
  end.
(** A new socket (svc/hmi/src/handler.rs:898-942) *)
Definition ws_register (auth : Auth) (oids : option (list OIDMask)) (initial : bool) : WM unit :=
  w ← get;
  let id := ws_uuid (wb_n w) in
  _ ← modify (set_wb_n (S (wb_n w)));
  acl ← lift (auth_acl auth);
  _ ← modify (fun w => set_tx (<[id := mkWsTx auth [] 0 false ∅ true]> (wb_tx w)) w);
  _ ← on_sub (sub_register id);
  _ ← (if check_op acl OpLog then on_sub_log (sub_register id) else mret tt);
  _ ← spawn (TServe id oids);
  _ ← match auth_token auth with
      | Some token => of_hmi (register_websocket token id)
      | None => modify (fun w => set_standalone ({[id]} ∪ wb_standalone w) w)
      end;
  if initial then spawn (TInitial id oids) else mret tt.
(** A request to open a web socket (svc/hmi/src/handler.rs:840-950) *)
Definition ws_connect (params : option (gmap string string)) (header : option string) (ip : IpAddr)
    (upgrade : bool) : WM Response :=
  let param k := params ≫= fun p => p !! k in
  match (match param "k" with Some k => Some k | None => header end) with
  | Some k =>
      auth ← attempt (of_hmi (authenticate e k (Some ip)));
      match auth with
      | Ok auth =>
          if negb upgrade then mret (RespStatus 400)
          else
            match (match param "state" with Some o => Some <$> parse_all (split_on "," o) | None => Some None end) with
            | Some oids =>
                let initial := match param "initial" with
                               | Some v => String.eqb v "1" || String.eqb v "true"
                               | None => false
                               end in
                _ ← ws_register auth oids initial;
                mret RespUpgrade
            | None => mret (RespStatus 400)
            end
      | Err EPanic => raise EPanic
      | Err _ => mret (RespStatus 403)
      end
  | None => mret (RespStatus 403)
  end.

(** ** Removed keys and access lists *)

(** svc/hmi/src/handler.rs:742-750 [WebSocket::acl_modified_keep] *)
Definition acl_modified_keep (acl_id : string) (x : WsTx) : bool :=
  match wx_auth x with AKey _ acl => negb (String.eqb (acl_get_id acl) acl_id) | _ => true end.
(** svc/hmi/src/handler.rs:751-760 [WebSocket::key_modified_keep] *)
Definition key_modified_keep (key_id : string) (x : WsTx) : bool :=
  match wx_auth x with AKey id _ => negb (String.eqb id ("." +:+ key_id)%string) | _ => true end.
(** [WS_STANDALONE.retain(..)] *)
Definition retain_standalone (keep : WsTx -> bool) : WM unit :=
  w ← get;
  for_each (fun id =>
    match wb_tx w !! id with
    | Some x =>
        if keep x then mret tt
        else _ ← terminate id; modify (fun w => set_standalone (wb_standalone w ∖ {[id]}) w)
    | None => mret tt
    end) (elements (wb_standalone w)).
(** svc/hmi/src/handler.rs:525-530 [remove_websocket_by_acl_id] *)
Definition remove_websocket_by_acl_id (acl_id : string) : WM unit := retain_standalone (acl_modified_keep acl_id).
(** svc/hmi/src/handler.rs:532-537 [remove_websocket_by_key_id] *)
Definition remove_websocket_by_key_id (key_id : string) : WM unit := retain_standalone (key_modified_keep key_id).

(** ** Streams *)

(** svc/hmi/src/handler.rs:1139-1142 [push_oid_state_topic] *)
Definition oid_state_topics (oid : OID) : list string :=
  [(LOCAL_STATE_TOPIC +:+ oid_as_path oid)%string; (REMOTE_STATE_TOPIC +:+ oid_as_path oid)%string].
Definition is_open (w : Web) (id : Uuid) : bool :=
  match wb_tx w !! id with Some x => negb (wx_closed x) | None => false end.
(** The cleanup (svc/hmi/src/handler.rs:1151-1186) *)
Definition streams_clean (ok : bool) : WM unit :=
  modify (fun w =>
    let live := (fun ids : gset Uuid =>
      filter (fun id => is_open w id = true) ids) <$> wb_streams w in
    let gone := filter (fun kv : OID * gset Uuid => kv.2 = ∅) (map_to_list live) in
    let w := set_streams (filter (fun kv : OID * gset Uuid => kv.2 ≠ ∅) live) w in
    if ok then set_topics (wb_topics w ∖ list_to_set (concat ((fun kv => oid_state_topics kv.1) <$> gone))) w else w).
(** A new client (svc/hmi/src/handler.rs:1187-1210) *)
Definition streams_accept (ok : bool) : WM unit :=
  modify (fun w =>
    match wb_stream_queue w with
    | (oid, id) :: q =>
        let w := set_stream_queue q w in
        let w := set_streams (<[oid := {[id]} ∪ default ∅ (wb_streams w !! oid)]> (wb_streams w)) w in
        if ok then set_topics (list_to_set (oid_state_topics oid) ∪ wb_topics w) w else w
    | [] => w
    end).
Definition topic_oid (topic : string) : option OID :=
  match strip_prefix LOCAL_STATE_TOPIC topic with
  | Some t => ok (oid_from_path t)
  | None => t ← strip_prefix REMOTE_STATE_TOPIC topic; ok (oid_from_path t)
  end.
(** An event of a stream (svc/hmi/src/handler.rs:1211-1271) *)
Definition stream_event (topic : string) (payload : list Z) : WM unit :=
  match topic_oid topic, ok (un_blob payload) with
  | Some oid, Some value =>
      w ← get;
      match wb_streams w !! oid with
      | Some clients =>
          _ ← (if value_eqb value VUnit
               then for_each (fun id => _ ← send id (new_stream "eos"); mret tt) (elements clients) else mret tt);
          match value_as_bytes value with
          | Some v =>
              for_each (fun id =>
                sent ← send id (WBinary oid v);
                if (sent : bool) then mret tt else ask_terminate id) (elements clients)
          | None => mret tt
          end
      | None => mret tt
      end
  | _, _ => mret tt
  end.

(** ** Events of the bus *)

(** svc/hmi/src/eapi.rs:209-241 [process_state] *)
Definition process_state (path : string) (payload : list Z) (local : bool) : WM unit :=
  match oid_from_path path with
  | Ok oid =>
      match (if local then un_local_state payload oid else un_remote_state payload oid) with
      | Ok st => notify_state st
      | Err _ => mret tt
      end
  | Err _ => mret tt
  end.
(** svc/hmi/src/eapi.rs:243-252 [process_log] *)
Definition process_log (path : string) (payload : list Z) : WM unit :=
  match un_log payload with Ok v => notify_log path v | Err _ => mret tt end.
(** [Handlers::handle_frame], for a publication (svc/hmi/src/eapi.rs:183-206) *)
Definition handle_frame (topic : string) (payload : list Z) : WM unit :=
  match strip_prefix LOCAL_STATE_TOPIC topic with
  | Some o => log_ef (process_state o payload true)
  | None =>
  match strip_prefix REMOTE_STATE_TOPIC topic with
  | Some o => log_ef (process_state o payload false)
  | None =>
  match strip_prefix LOG_EVENT_TOPIC topic with
  | Some o => process_log o payload
  | None =>
  match strip_prefix AAA_ACL_TOPIC topic with
  | Some acl_id => _ ← of_hmi (clear_tokens_by_acl_id e acl_id); remove_websocket_by_acl_id acl_id
  | None =>
  match strip_prefix AAA_KEY_TOPIC topic with
  | Some key_id => _ ← remove_websocket_by_key_id key_id; of_hmi (clear_tokens_by_key_id e key_id)
  | None =>
  match strip_prefix AAA_USER_TOPIC topic with
  | Some user => of_hmi (clear_tokens_by_user e user)
  | None => mret tt
  end end end end end end.

(** ** The sender *)

(** What goes to the client. *)
Inductive Out :=
  | OText (s : Topic) (d : option WsData)
  | OBinary (data : list Z)
  | OBulk (s : Topic) (d : list WsData).
Record Sender := mkSender {
  sd_buf : option (list (Topic * list WsData));   (* the buffer, when there is one *)
  sd_out : list Out;
  sd_end : bool
}.
(** What the task receives, and whether it can be sent on. *)
Inductive SEvent :=
  | SFrame (f : WsFrame) (ok : bool)
  | SClosed                                        (* the queue is closed and empty *)
  | STick (ok : Topic -> bool).
(** The buffer of a client (svc/hmi/src/handler.rs:865-875) *)
Definition parse_buf_ttl (params : option (gmap string string)) : option f64 :=
  match params ≫= fun p => p !! "buf_ttl"%string with
  | Some b => let t := default f64_zero (f64_parse b) in if f64_ltb f64_zero t then Some t else None
  | None => None
  end.
(** svc/hmi/src/handler.rs:444-447 (the start of serve_websocket_sender): the
    period must not be zero. *)
Definition sender_start (buf_ttl : option f64) : EResult Sender :=
  match buf_ttl with
  | Some t =>
      d ← duration_from_secs_f64 t;
      if (d =? 0)%Z then Err EPanic else Ok (mkSender (Some []) [] false)
  | None => Ok (mkSender None [] false)
  end.
Definition as_out (f : WsFrame) : Out := match f with WText s d => OText s d | WBinary _ b => OBinary b end.
(** [send!], [send_binary!] *)
Definition send_out (o : Out) (ok : bool) (st : Sender) : Sender :=
  if ok then mkSender (sd_buf st) (sd_out st ++ [o]) (sd_end st) else mkSender (sd_buf st) (sd_out st) true.
Fixpoint buf_push (t : Topic) (d : WsData) (buf : list (Topic * list WsData)) : list (Topic * list WsData) :=
  match buf with
  | [] => [(t, [d])]
  | (t', l) :: buf => if decide (t' = t) then (t', l ++ [d]) :: buf else (t', l) :: buf_push t d buf
  end.
(** Each topic that has values is sent as one frame; the values are taken out
    of the buffer first. *)
Fixpoint buf_flush (ok : Topic -> bool) (buf : list (Topic * list WsData))
    : list Out * list (Topic * list WsData) * bool :=
  match buf with
  | [] => ([], [], false)
  | (t, []) :: buf => let '(o, b, x) := buf_flush ok buf in (o, (t, []) :: b, x)
  | (t, l) :: buf =>
      if ok t then let '(o, b, x) := buf_flush ok buf in (OBulk t l :: o, (t, []) :: b, x)
      else ([], (t, []) :: buf, true)
  end.
(** svc/hmi/src/handler.rs:422-509 [serve_websocket_sender] *)
Definition sender_step (ev : SEvent) (st : Sender) : Sender :=
  if sd_end st then st
  else match sd_buf st with
  | Some buf =>
      match ev with
      | SFrame f ok =>
          if is_data f then
            match f with
            | WText s (Some d) => mkSender (Some (buf_push s d buf)) (sd_out st) false
            | _ => st
            end
          else if is_bye f then
            let st := send_out (as_out f) ok st in mkSender (sd_buf st) (sd_out st) true
          else send_out (as_out f) ok st
      | SClosed => mkSender (sd_buf st) (sd_out st) true
      | STick ok => let '(o, b, x) := buf_flush ok buf in mkSender (Some b) (sd_out st ++ o) x
      end
  | None =>
      match ev with
      | SFrame f ok =>
          let st := send_out (as_out f) ok st in
          if is_bye f then mkSender (sd_buf st) (sd_out st) true else st
      | SClosed => mkSender (sd_buf st) (sd_out st) true
      | STick _ => st
      end
  end.
Definition sender_run (evs : list SEvent) (st : Sender) : Sender := foldl (fun st ev => sender_step ev st) st evs.
End ws.
