(* ===== verification/HmiWsSpec.v ===== *)
(** * The HMI service: what web sockets receive

    Along every run, the frames that are queued for a web socket are those its
    rights permit, and the states of an item are queued in their order; the
    sender passes on what it takes from the queue, also when it collects states
    before it sends them. *)
From Stdlib Require Import Ascii.
From S2P Require Import Prelude Duration EvaCommon Password Launcher HmiTokens HmiApi HmiSessions HmiWs.

(** IEIDs are a total order: the boot id, then the time. *)
Class IeidTotal `{Externals} : Prop := {
  ieid_gtb_connex a b : ieid_gtb a b = false -> ieid_gtb b a = false -> a = b
}.
Lemma ieid_not_gtb_trans `{IeidLaws} `{!IeidTotal} a b c :
  ieid_gtb a b = false -> ieid_gtb b c = false -> ieid_gtb a c = false.
Proof.
  intros Hab Hbc. destruct (ieid_gtb a c) eqn:Hac; [|done]. destruct (ieid_gtb b a) eqn:Hba.
  - by rewrite (ieid_gtb_trans b a c) in Hbc.
  - by rewrite (ieid_gtb_connex a b), Hbc in Hac.
Qed.

Section spec.
Context {Uuid : Type} `{Countable Uuid} `{Ext : Externals, HExt : !HmiExternals Uuid, HashExternals, AExt : !ApiExternals, WExt : !WsExternals, !SubMaps Uuid}.
Variable (e : HmiEnv (Uuid := Uuid)) (ws_uuid : nat -> Uuid) (cfg : ApiConfig) (error_code : option Error -> Z)
  (mask_to_string : OIDMask -> string).

Abbreviation World := (Web (Uuid := Uuid)).
Abbreviation Log := (list (BusCall (Uuid := Uuid) * BusReply)).
Abbreviation WM := (M World).
Implicit Types (w : World) (x : WsTx (Uuid := Uuid)) (id : Uuid) (l : Log).

(** ** Runs *)

(** What happens: requests of the API, jobs and events of the session store;
    connections, messages of clients, events of the bus, tasks, and the work of
    senders and of streams. *)
Inductive WebOp :=
  | WoApi (op : HmiOp (Uuid := Uuid))
  | WoConnect (params : option (gmap string string)) (header : option string) (ip : IpAddr) (upgrade : bool)
  | WoMessage (id : Uuid) (m : WsMsg)
  | WoFrame (topic : string) (payload : list Z)
  | WoServerEvent (event : Value)
  | WoReload
  | WoTask (i : nat)
  | WoTake (id : Uuid)
  | WoStreamAccept (ok : bool)
  | WoStreamClean (ok : bool)
  | WoStreamEvent (topic : string) (payload : list Z).

(** The sockets of sessions that are gone are terminated. *)
Definition sockets (m : gmap (TokenId Uuid) (gset Uuid)) : gset Uuid := ⋃ (map_to_list m).*2.
Definition of_sessions (m : M (Hmi (Uuid := Uuid)) unit) : WM unit :=
  w ← get;
  _ ← of_hmi m;
  w' ← get;
  for_each terminate (elements (sockets (hm_ws (wb_hmi w)) ∖ sockets (hm_ws (wb_hmi w')))).
Definition take_task (i : nat) : WM unit :=
  w ← get;
  match wb_tasks w !! i with
  | Some t => _ ← modify (fun w => set_tasks (delete i (wb_tasks w)) w); run_task e t
  | None => mret tt
  end.
Definition web_step (op : WebOp) : WM unit :=
  match op with
  | WoApi op => of_sessions (hmi_step e cfg error_code mask_to_string op)
  | WoConnect params header ip upgrade => log_ef (ws_connect e ws_uuid params header ip upgrade)
  | WoMessage id m => ws_message id m
  | WoFrame topic payload => handle_frame e topic payload
  | WoServerEvent event => notify_server_event event
  | WoReload => notify_need_reload
  | WoTask i => take_task i
  | WoTake id => on_tx id (fun x => if (wx_taken x <? length (wx_sent x))%nat then set_taken (S (wx_taken x)) x else x)
  | WoStreamAccept ok => streams_accept ok
  | WoStreamClean ok => streams_clean ok
  | WoStreamEvent topic payload => stream_event topic payload
  end.
Definition web_run (ops : list WebOp) w : World := foldl (fun w op => (web_step op w).2) w ops.

(** ** What a socket may receive *)

Definition can_log x : bool := match auth_acl (wx_auth x) with Ok acl => check_op acl OpLog | Err _ => false end.

(** A state the core has answered with, when it was asked for the states that the
    rights of the client permit. *)
Definition initial l x (st : FullState) : Prop :=
  exists acl oids allow deny b states, auth_acl (wx_auth x) = Ok acl /\
    get_items_allow_deny_reading acl = (allow, deny) /\
    (mkBusCall "eva.core" "item.state" (PStates oids allow deny), inl b) ∈ l /\
    un_states b = Ok states /\ st ∈ states.

Definition frame_allowed l x f : Prop :=
  match f with
  | WText TState d => exists st v, d = Some (WdState st v) /\ (can_read x (fs_oid st) = true \/ initial l x st)
  | WText TLog _ => can_log x = true
  | WBinary oid _ => can_read x oid = true
  | _ => True
  end.

Definition state_of f : option FullState :=
  match f with WText TState (Some (WdState st _)) => Some st | _ => None end.
(** A later state of an item is not older. *)
Definition states_ordered (fs : list WsFrame) : Prop :=
  forall i j f g st st', (i < j)%nat -> fs !! i = Some f -> fs !! j = Some g ->
    state_of f = Some st -> state_of g = Some st' -> fs_oid st = fs_oid st' ->
    ieid_gtb (fs_ieid st) (fs_ieid st') = false.
(** The latest event id of an item is known. *)
Definition states_known x : Prop :=
  forall f st, f ∈ wx_sent x -> state_of f = Some st ->
    exists r, wx_repl x !! fs_oid st = Some r /\ ieid_gtb (fs_ieid st) r = false.

Definition tx_ok l x : Prop :=
  Forall (frame_allowed l x) (wx_sent x) /\ states_ordered (wx_sent x) /\ states_known x.

Definition has w id (P : WsTx (Uuid := Uuid) -> Prop) : Prop := exists x, wb_tx w !! id = Some x /\ P x.

Record web_ok w : Prop := mkWebOk {
  wo_tx : forall id x, wb_tx w !! id = Some x -> tx_ok (hm_calls (wb_hmi w)) x;
  wo_log : forall id, id ∈ sub_clients (wb_sub_log w) -> has w id (fun x => can_log x = true);
  wo_streams : forall oid ids id, wb_streams w !! oid = Some ids -> id ∈ ids -> has w id (fun x => can_read x oid = true);
  wo_queue : forall oid id, (oid, id) ∈ wb_stream_queue w -> has w id (fun x => can_read x oid = true);
  wo_fresh : forall id, is_Some (wb_tx w !! id) -> exists k, (k < wb_n w)%nat /\ id = ws_uuid k
}.

(** Sockets stay, with whom they belong to; the log of calls grows. *)
Record extends w w' : Prop := mkExtends {
  ex_tx : forall id x, wb_tx w !! id = Some x -> has w' id (fun x' => wx_auth x' = wx_auth x);
  ex_calls : forall c, c ∈ hm_calls (wb_hmi w) -> c ∈ hm_calls (wb_hmi w');
  ex_n : (wb_n w <= wb_n w')%nat
}.
#[local] Instance extends_preorder : PreOrder extends.
Proof.
  split.
  - intros w. split; [|done|done]. intros id x Hx. by exists x.
  - intros x y z [H1 H2 H3] [H4 H5 H6]. split; [|auto|lia]. intros id a Ha.
    destruct (H1 _ _ Ha) as (b & Hb & Hab). destruct (H4 _ _ Hb) as (c & Hc & Hbc). exists c. split; [done|]. congruence.
Qed.
Lemma has_extends w w' id (P : WsTx -> Prop) :
  (forall x y, wx_auth y = wx_auth x -> P x -> P y) -> extends w w' -> has w id P -> has w' id P.
Proof. intros HP Hex (x & Hx & Px). destruct (ex_tx _ _ Hex _ _ Hx) as (y & Hy & Hxy). exists y. eauto. Qed.
Lemma can_read_auth oid x y : wx_auth y = wx_auth x -> can_read x oid = true -> can_read y oid = true.
Proof. unfold can_read. by intros ->. Qed.
Lemma can_log_auth x y : wx_auth y = wx_auth x -> can_log x = true -> can_log y = true.
Proof. unfold can_log. by intros ->. Qed.
#[local] Hint Resolve can_read_auth can_log_auth : core.
Lemma frame_allowed_mono l l' x y f :
  (forall c, c ∈ l -> c ∈ l') -> wx_auth y = wx_auth x -> frame_allowed l x f -> frame_allowed l' y f.
Proof.
  intros Hl Ha. destruct f as [[] d|oid b]; simpl; eauto.
  intros (st & v & -> & [Hr|Hi]); exists st, v; (split; [done|]); [eauto|]. right.
  destruct Hi as (acl & oids & allow & deny & b & states & Hacl & Hm & Hin & Hu & Hst).
  exists acl, oids, allow, deny, b, states. rewrite Ha. auto.
Qed.
Lemma tx_ok_calls l l' x : (forall c, c ∈ l -> c ∈ l') -> tx_ok l x -> tx_ok l' x.
Proof.
  intros Hl (Hf & Ho & Hk). split_and!; [|done|done]. eapply Forall_impl; [exact Hf|]. intros f.
  by apply frame_allowed_mono.
Qed.

(** ** Frames of the operations *)

Context `{!IeidLaws, !IeidTotal, !SubMapLaws Uuid}.
Hypothesis ws_uuid_unique : forall n m, ws_uuid n = ws_uuid m -> n = m.

Section stays.
(** A fact that stays true. *)
Variable (Q : World -> Prop).
Hypothesis (Q_stable : forall w w', extends w w' -> Q w -> Q w').

Definition stays w w' : Prop := web_ok w -> Q w -> web_ok w' /\ extends w w'.
#[local] Instance stays_preorder : PreOrder stays.
Proof.
  split; [intros w Hw HQ; split; [done|reflexivity]|]. intros x y z Hxy Hyz Hx HQ.
  destruct (Hxy Hx HQ) as [Hy Hex]. destruct (Hyz Hy) as [Hz Hex']; [eauto|]. split; [done|by etrans].
Qed.

(** A change of other parts. *)
Definition aside w w' : Prop :=
  wb_hmi w' = wb_hmi w /\ wb_tx w' = wb_tx w /\ wb_n w' = wb_n w /\
  (forall id, id ∈ sub_clients (wb_sub_log w') -> id ∈ sub_clients (wb_sub_log w)) /\
  wb_streams w' = wb_streams w /\ wb_stream_queue w' = wb_stream_queue w.
Lemma aside_stays w w' : aside w w' -> stays w w'.
Proof.
  destruct w, w'. unfold aside. simpl. intros (-> & -> & -> & Hl & -> & ->) [W1 W2 W3 W4 W5] HQ. split.
  - split; simpl in *; auto. intros id Hid. destruct (W2 id (Hl id Hid)) as (x & Hx & Px). by exists x.
  - split; simpl; auto. intros id x Hx. by exists x.
Qed.
Lemma modify_aside f : (forall w, aside w (f w)) -> keeps stays (modify f).
Proof. intros Hf. apply keeps_modify. intros w. apply aside_stays, Hf. Qed.
Lemma on_sub_stays f : keeps stays (on_sub f).
Proof. apply modify_aside. intros w. unfold aside. split_and!; auto. Qed.
Lemma spawn_stays t : keeps stays (spawn t).
Proof. apply modify_aside. intros w. unfold aside. split_and!; auto. Qed.
Lemma set_standalone_stays f : keeps stays (modify (fun w => set_standalone (f w) w)).
Proof. apply modify_aside. intros w. unfold aside. split_and!; auto. Qed.
Lemma set_tasks_stays f : keeps stays (modify (fun w => set_tasks (f w) w)).
Proof. apply modify_aside. intros w. unfold aside. split_and!; auto. Qed.
Lemma unregister_log_stays id : keeps stays (on_sub_log (sub_unregister id)).
Proof.
  apply modify_aside. intros w. unfold aside. split_and!; auto. intros d Hd. by apply sub_unregister_clients in Hd as [_ ?].
Qed.
Lemma subscribe_log_stays t id : keeps stays (on_sub_log (sub_subscribe t id)).
Proof. apply modify_aside. intros w. unfold aside. split_and!; auto. simpl. intros d. by rewrite sub_subscribe_clients. Qed.
Lemma unsubscribe_log_stays t id : keeps stays (on_sub_log (sub_unsubscribe t id)).
Proof. apply modify_aside. intros w. unfold aside. split_and!; auto. simpl. intros d. by rewrite sub_unsubscribe_clients. Qed.
Lemma run_get_tx id w : get_tx id w = (Ok (wb_tx w !! id), w).
Proof. done. Qed.
Lemma run_on_tx id f w : on_tx id f w = (Ok tt, set_tx (alter f id (wb_tx w)) w).
Proof. done. Qed.
Lemma get_tx_stays id : keeps stays (get_tx id).
Proof. unfold get_tx. frame. Qed.
#[local] Hint Resolve on_sub_stays spawn_stays set_standalone_stays set_tasks_stays unregister_log_stays
  subscribe_log_stays unsubscribe_log_stays get_tx_stays : keeps.

(** A change of one socket. *)
Lemma on_tx_at id f w :
  web_ok w -> (forall x, wb_tx w !! id = Some x -> wx_auth (f x) = wx_auth x /\ tx_ok (hm_calls (wb_hmi w)) (f x)) ->
  web_ok (on_tx id f w).2 /\ extends w (on_tx id f w).2.
Proof.
  intros Hw Hf. unfold on_tx, modify. cbn [snd]. assert (extends w (set_tx (alter f id (wb_tx w)) w)) as Hex.
  { split; [|done|done]. intros i x Hx. unfold has. simpl. destruct (decide (i = id)) as [->|Hne].
    - rewrite lookup_alter_eq, Hx. exists (f x). split; [done|]. by destruct (Hf x Hx).
    - rewrite lookup_alter_ne by done. by exists x. }
  split; [|done]. pose proof Hw as [W1 W2 W3 W4 W5]. split; simpl.
  - intros i x. destruct (decide (i = id)) as [->|Hne]; [|rewrite lookup_alter_ne by done; apply W1].
    rewrite lookup_alter_eq. destruct (wb_tx w !! id) as [y|] eqn:Ey; [|done]. intros [= <-].
    by destruct (Hf y).
  - intros i Hi. eapply has_extends; [apply can_log_auth|exact Hex|]. by apply W2.
  - intros oid ids i Ho Hi. eapply has_extends; [apply can_read_auth|exact Hex|]. by eapply W3.
  - intros oid i Hi. eapply has_extends; [apply can_read_auth|exact Hex|]. by eapply W4.
  - intros i [x Hx]. apply W5. destruct (decide (i = id)) as [->|Hne].
    + rewrite lookup_alter_eq in Hx. by destruct (wb_tx w !! id).
    + rewrite lookup_alter_ne in Hx by done. by eexists.
Qed.
Lemma on_tx_stays id f :
  (forall w x, web_ok w -> Q w -> wb_tx w !! id = Some x ->
     wx_auth (f x) = wx_auth x /\ tx_ok (hm_calls (wb_hmi w)) (f x)) ->
  keeps stays (on_tx id f).
Proof. intros Hf w Hw HQ. apply on_tx_at; auto. Qed.
Lemma on_tx_same id f :
  (forall x, wx_auth (f x) = wx_auth x /\ wx_sent (f x) = wx_sent x /\ wx_repl (f x) = wx_repl x) ->
  keeps stays (on_tx id f).
Proof.
  intros Hf. apply on_tx_stays. intros w x Hw HQ Hx. destruct (Hf x) as (Ha & Hs & Hr). split; [done|].
  destruct (wo_tx _ Hw _ _ Hx) as (Hfr & Ho & Hk). unfold tx_ok, states_known. rewrite Hs, Hr. split_and!; [|done|done].
  eapply Forall_impl; [exact Hfr|]. intros g. by apply frame_allowed_mono.
Qed.
Lemma set_dead_stays id : keeps stays (on_tx id set_dead).
Proof. by apply on_tx_same. Qed.
Lemma set_closed_stays id : keeps stays (on_tx id set_closed).
Proof. by apply on_tx_same. Qed.
#[local] Hint Resolve set_dead_stays set_closed_stays : keeps.

(** The store of sessions. *)
Lemma of_hmi_stays {A} (m : M (Hmi (Uuid := Uuid)) A) :
  (forall h c, c ∈ hm_calls h -> c ∈ hm_calls (m h).2) -> keeps stays (of_hmi m).
Proof.
  intros Hm w Hw HQ. unfold of_hmi. specialize (Hm (wb_hmi w)). destruct (m (wb_hmi w)) as [r h]. simpl in *.
  destruct Hw as [W1 W2 W3 W4 W5]. split; [|split; simpl; auto; intros id x Hx; by exists x].
  split; simpl; auto. intros id x Hx. eapply tx_ok_calls; [exact Hm|]. by apply W1 with id.
Qed.

(** A frame that is no state is queued. *)
Lemma push_ok l x f :
  state_of f = None -> frame_allowed l x f -> tx_ok l x -> tx_ok l (set_sent (wx_sent x ++ [f]) x).
Proof.
  intros Hst Ha (Hf & Ho & Hk). split_and!.
  - apply Forall_app. split; [exact Hf|]. by constructor.
  - intros i j g g' st st' Hij Hi Hj Hg Hg'. simpl in Hi, Hj.
    apply lookup_app_Some in Hj as [Hj|[_ Hj]].
    + apply lookup_app_Some in Hi as [Hi|[Hi _]]; [by eapply Ho|]. apply lookup_lt_Some in Hj. lia.
    + apply list_lookup_singleton_Some in Hj as [_ ->]. congruence.
  - intros g st [Hg|Hg]%elem_of_app Hs; [by eapply Hk|]. apply list_elem_of_singleton in Hg as ->. congruence.
Qed.
(** A state is queued, when its event id is the one that is remembered. *)
Lemma push_state_ok l x st v :
  wx_repl x !! fs_oid st = Some (fs_ieid st) -> frame_allowed l x (WText TState (Some (WdState st v))) -> tx_ok l x ->
  tx_ok l (set_sent (wx_sent x ++ [WText TState (Some (WdState st v))]) x).
Proof.
  intros Hr Ha (Hf & Ho & Hk). split_and!.
  - apply Forall_app. split; [exact Hf|]. by constructor.
  - intros i j g g' st1 st2 Hij Hi Hj Hg Hg' Heq. simpl in Hi, Hj.
    apply lookup_app_Some in Hj as [Hj|[Hle Hj]].
    + apply lookup_app_Some in Hi as [Hi|[Hi _]]; [by eapply Ho|]. apply lookup_lt_Some in Hj. lia.
    + apply list_lookup_singleton_Some in Hj as [Hz <-]. simpl in Hg'. injection Hg' as <-.
      apply lookup_app_Some in Hi as [Hi|[Hi _]]; [|lia].
      destruct (Hk g st1) as (r & Hr1 & Hgt); [by eapply list_elem_of_lookup_2|done|]. rewrite Heq, Hr in Hr1.
      by injection Hr1 as <-.
  - intros g st1 [Hg|Hg]%elem_of_app Hs; [by eapply Hk|]. apply list_elem_of_singleton in Hg as ->.
    simpl in Hs. injection Hs as <-. exists (fs_ieid st). split; [done|apply ieid_gtb_irrefl].
Qed.
(** The event id of a state that is not older is remembered. *)
Lemma remember_ok l x oid ieid :
  (forall prev, wx_repl x !! oid = Some prev -> ieid_gtb prev ieid = false) -> tx_ok l x ->
  tx_ok l (set_repl (<[oid := ieid]> (wx_repl x)) x).
Proof.
  intros Hp (Hf & Ho & Hk). split_and!; [exact Hf|exact Ho|]. intros g st Hg Hs. simpl in *.
  destruct (Hk g st Hg Hs) as (r & Hr & Hgt). destruct (decide (oid = fs_oid st)) as [->|Hne].
  - exists ieid. rewrite lookup_insert_eq. split; [done|]. eapply ieid_not_gtb_trans; [exact Hgt|]. by apply Hp.
  - exists r. by rewrite lookup_insert_ne.
Qed.

Lemma try_send_stays id f :
  state_of f = None ->
  (forall w x, web_ok w -> Q w -> wb_tx w !! id = Some x -> frame_allowed (hm_calls (wb_hmi w)) x f) ->
  keeps stays (try_send id f).
Proof.
  intros Hs Hf. unfold try_send. frame. apply on_tx_stays. intros w' x' Hw HQ Hx. split; [done|].
  apply push_ok; [done|by apply Hf|]. by eapply wo_tx.
Qed.
Lemma send_stays id f :
  state_of f = None ->
  (forall w x, web_ok w -> Q w -> wb_tx w !! id = Some x -> frame_allowed (hm_calls (wb_hmi w)) x f) ->
  keeps stays (send id f).
Proof.
  intros Hs Hf. unfold send. frame. apply on_tx_stays. intros w' x' Hw HQ Hx. split; [done|].
  apply push_ok; [done|by apply Hf|]. by eapply wo_tx.
Qed.
Lemma try_send_state_stays id st v :
  (forall w x, web_ok w -> Q w -> wb_tx w !! id = Some x ->
     frame_allowed (hm_calls (wb_hmi w)) x (WText TState (Some (WdState st v)))) ->
  keeps stays (try_send_state_frame id (WText TState (Some (WdState st v))) (fs_oid st) (fs_ieid st)).
Proof.
  intros Hf w Hw HQ. unfold try_send_state_frame. rewrite run_bind, run_get_tx.
  destruct (wb_tx w !! id) as [x|] eqn:Ex; [|split; [done|reflexivity]].
  set (f := WText TState _). set (g := fun x => set_repl (<[fs_oid st := fs_ieid st]> (wx_repl x)) x).
  assert ((forall prev, wx_repl x !! fs_oid st = Some prev -> ieid_gtb prev (fs_ieid st) = false) ->
    web_ok ((_ ← on_tx id g; try_send id f) w).2 /\ extends w ((_ ← on_tx id g; try_send id f) w).2) as Hmain.
  { intros Hp. rewrite run_bind. destruct (on_tx_at id g w Hw) as [Hw1 Hex1].
    { intros y Hy. rewrite Ex in Hy. injection Hy as <-. split; [done|]. apply remember_ok; [done|]. by eapply wo_tx. }
    assert (wb_tx (on_tx id g w).2 !! id = Some (g x)) as Hx1 by (simpl; by rewrite lookup_alter_eq, Ex).
    rewrite run_on_tx in *. cbn [snd] in *. set (w1 := set_tx _ w) in *. clearbody w1.
    unfold try_send. rewrite run_bind, run_get_tx, Hx1.
    destruct (_ || _); [by split|]. rewrite run_bind.
    destruct (on_tx_at id (fun x => set_sent (wx_sent x ++ [f]) x) w1 Hw1) as [Hw2 Hex2].
    { intros y Hy. rewrite Hx1 in Hy. injection Hy as <-. split; [done|]. apply push_state_ok.
      - simpl. apply lookup_insert_eq.
      - apply Hf; [done|by eapply Q_stable|done].
      - by eapply wo_tx. }
    split; [exact Hw2|]. by etrans. }
  destruct (wx_repl x !! fs_oid st) as [prev|] eqn:Er; [|by apply Hmain].
  destruct (ieid_gtb prev (fs_ieid st)) eqn:Eg; [split; [done|reflexivity]|]. apply Hmain. by intros ? [= <-].
Qed.

Lemma unregister_stays token id : keeps stays (of_hmi (unregister_websocket token id)).
Proof. apply of_hmi_stays. intros h c. unfold unregister_websocket, modify. simpl. by case_decide. Qed.
Lemma register_stays token id : keeps stays (of_hmi (register_websocket token id)).
Proof. by apply of_hmi_stays. Qed.
#[local] Hint Resolve unregister_stays register_stays : keeps.
Lemma terminate_stays id : keeps stays (terminate id).
Proof. unfold terminate, unsubscribe_web_socket. frame. Qed.
#[local] Hint Resolve terminate_stays : keeps.
Lemma abort_stays id : keeps stays (abort_web_socket_standalone id).
Proof. unfold abort_web_socket_standalone. frame. Qed.
Lemma ask_terminate_stays id : keeps stays (ask_terminate id).
Proof. unfold ask_terminate. frame. Qed.
#[local] Hint Resolve ask_terminate_stays : keeps.
Lemma notify_ws_stays id f :
  state_of f = None ->
  (forall w x, web_ok w -> Q w -> wb_tx w !! id = Some x -> frame_allowed (hm_calls (wb_hmi w)) x f) ->
  keeps stays (notify_ws id f None).
Proof. intros Hs Hf. unfold notify_ws. apply keeps_bind; [by apply try_send_stays|]. intros []; frame. Qed.
Lemma notify_ws_state_stays id st v :
  (forall w x, web_ok w -> Q w -> wb_tx w !! id = Some x ->
     frame_allowed (hm_calls (wb_hmi w)) x (WText TState (Some (WdState st v)))) ->
  keeps stays (notify_ws id (WText TState (Some (WdState st v))) (Some (fs_oid st, fs_ieid st))).
Proof. intros Hf. unfold notify_ws. apply keeps_bind; [by apply try_send_state_stays|]. intros []; frame. Qed.
Lemma notify_list_stays ids f :
  state_of f = None ->
  (forall w x id, id ∈ ids -> web_ok w -> Q w -> wb_tx w !! id = Some x -> frame_allowed (hm_calls (wb_hmi w)) x f) ->
  keeps stays (notify_ws_list ids f None).
Proof. intros Hs Hf. unfold notify_ws_list. frame. apply notify_ws_stays; eauto. Qed.
Lemma notify_list_state_stays ids st v :
  (forall w x id, id ∈ ids -> web_ok w -> Q w -> wb_tx w !! id = Some x ->
     frame_allowed (hm_calls (wb_hmi w)) x (WText TState (Some (WdState st v)))) ->
  keeps stays (notify_ws_list ids (WText TState (Some (WdState st v))) (Some (fs_oid st, fs_ieid st))).
Proof. intros Hf. unfold notify_ws_list. frame. apply notify_ws_state_stays; eauto. Qed.
Lemma send_states_stays id states :
  (forall w x st v, st ∈ states -> web_ok w -> Q w -> wb_tx w !! id = Some x ->
     frame_allowed (hm_calls (wb_hmi w)) x (WText TState (Some (WdState st v)))) ->
  keeps stays (send_states id states).
Proof.
  induction states as [|st states IH]; intros Hf; simpl; [frame|]. apply keeps_bind; [frame|]. intros v.
  apply keeps_bind; [apply keeps_attempt, notify_ws_state_stays; intros; eapply Hf; eauto; left|].
  intros []; [|frame]. apply IH. intros. eapply Hf; eauto. by right.
Qed.
Lemma handler_end_stays id : keeps stays (handler_end id).
Proof. unfold handler_end. frame. Qed.
Lemma subscribe_masks_stays id masks : keeps stays (subscribe_masks id masks).
Proof. unfold subscribe_masks. frame. Qed.
End stays.

(** ** Steps *)

Abbreviation steady := (stays (fun _ => True)).
Lemma stays_steady Q w w' : (web_ok w -> Q w) -> stays Q w w' -> steady w w'.
Proof. intros HQ Hs Hw _. auto. Qed.
#[local] Instance steady_preorder : PreOrder steady.
Proof. by apply stays_preorder. Qed.
#[local] Hint Resolve on_sub_stays spawn_stays set_standalone_stays set_tasks_stays unregister_log_stays
  subscribe_log_stays unsubscribe_log_stays get_tx_stays set_dead_stays set_closed_stays terminate_stays abort_stays
  ask_terminate_stays handler_end_stays subscribe_masks_stays register_stays unregister_stays : keeps.
Lemma has_stable (P : WsTx -> Prop) id w w' :
  (forall x y, wx_auth y = wx_auth x -> P x -> P y) -> extends w w' -> has w id P -> has w' id P.
Proof. apply has_extends. Qed.

Lemma server_event_steady event : keeps steady (notify_server_event event).
Proof. unfold notify_server_event. frame. by apply notify_list_stays. Qed.
Lemma reload_steady : keeps steady notify_need_reload.
Proof. unfold notify_need_reload. frame. by apply notify_list_stays. Qed.
Lemma notify_state_steady st : keeps steady (notify_state st).
Proof.
  unfold notify_state. apply keeps_get_bind. intros w. set (ids := readers _ _ _). case_bool_decide; [by apply keeps_ret|].
  set (Q w' := forall id, id ∈ ids -> has w' id (fun x => can_read x (fs_oid st) = true)).
  apply (stays_steady Q).
  { intros Hw id Hid. unfold ids, readers in Hid. apply list_elem_of_filter in Hid as [Hr _].
    destruct (wb_tx w !! id) as [x|] eqn:Ex; [|done]. by exists x. }
  assert (forall w1 w2, extends w1 w2 -> Q w1 -> Q w2) as HQ.
  { intros w1 w2 Hex HQ id Hid. eapply has_stable; [apply can_read_auth|exact Hex|]. by apply HQ. }
  pose proof (stays_preorder Q HQ) as Hpre. apply keeps_bind; [apply keeps_lift|]. intros v.
  apply notify_list_state_stays; [exact HQ|]. intros w' x id Hid Hw HQ' Hx. exists st, v. split; [done|left].
  destruct (HQ' id Hid) as (y & Hy & Hr). congruence.
Qed.
Lemma notify_log_steady topic v : keeps steady (notify_log topic v).
Proof.
  unfold notify_log. apply keeps_get_bind. intros w. set (ids := sub_get _ _).
  set (Q w' := forall id, id ∈ ids -> has w' id (fun x => can_log x = true)).
  apply (stays_steady Q).
  { intros Hw id Hid. apply wo_log; [done|]. by eapply sub_get_registered. }
  apply notify_list_stays; [|done|].
  { intros w1 w2 Hex HQ id Hid. eapply has_stable; [apply can_log_auth|exact Hex|]. by apply HQ. }
  intros w' x id Hid Hw HQ' Hx. destruct (HQ' id Hid) as (y & Hy & Hr). simpl. congruence.
Qed.
Lemma bus_call_logged t m p h b h' : bus_call e t m p h = (Ok b, h') -> (mkBusCall t m p, inl b) ∈ hm_calls h'.
Proof.
  unfold bus_call. rewrite run_bind. destruct (bus_try e t m p h) as [[[b'|err]|] h1] eqn:E; [|done|done].
  intros [= <- <-]. by eapply bus_try_logged.
Qed.
Lemma bus_call_calls t m p h c : c ∈ hm_calls h -> c ∈ hm_calls (bus_call e t m p h).2.
Proof. destruct (bus_call_sessions e None t m p h) as [Hc _]. apply Hc. Qed.
Lemma send_initial_steady id oids : keeps steady (send_initial e id oids).
Proof.
  unfold send_initial. destruct oids as [oids|]; [|frame]. intros w. apply run_bind_rel; [by apply get_tx_stays|].
  intros x0 w0 Hx0. rewrite run_get_tx in Hx0. injection Hx0 as Hx <-. apply run_bind_rel; [by apply keeps_lift|].
  intros x w0 Hx0. unfold lift in Hx0. injection Hx0 as Hok <-. destruct x0 as [x1|]; [|done]. injection Hok as ->.
  apply run_bind_rel; [by apply keeps_lift|]. intros acl w0 Hacl. unfold lift in Hacl. injection Hacl as Hacl <-.
  destruct (get_items_allow_deny_reading acl) as [allow deny] eqn:Em.
  apply run_bind_rel; [apply of_hmi_stays; intros; by apply bus_call_calls|]. intros b w1 Hb.
  apply run_bind_rel; [by apply keeps_lift|]. intros states w2 Hst. unfold lift in Hst. injection Hst as Hst <-.
  set (c := (mkBusCall "eva.core" "item.state" (PStates oids allow deny), inl b) : BusCall (Uuid := Uuid) * BusReply).
  set (Q w' := has w' id (fun y => wx_auth y = wx_auth x) /\ c ∈ hm_calls (wb_hmi w')).
  unfold of_hmi in Hb. destruct (bus_call e _ _ _ (wb_hmi w)) as [r h] eqn:Eb. injection Hb as -> <-.
  apply (stays_steady Q).
  { intros _. split; [by exists x|]. simpl. by eapply bus_call_logged. }
  apply send_states_stays.
  { intros w1 w2 Hex [Ha Hc]. split; [|by eapply ex_calls]. eapply has_stable; [|exact Hex|exact Ha]. congruence. }
  intros w' y st v Hin Hw [(z & Hz & Ha) Hc] Hy. exists st, v. split; [done|right].
  exists acl, oids, allow, deny, b, states. rewrite Hz in Hy. injection Hy as ->. rewrite Ha. auto.
Qed.
#[local] Hint Resolve send_initial_steady : keeps.

Definition reads i id w : Prop := has w id (fun x => can_read x i = true).
Lemma reads_stable i id w w' : extends w w' -> reads i id w -> reads i id w'.
Proof. apply has_stable, can_read_auth. Qed.
Lemma push_queue_stays i id :
  keeps (stays (reads i id)) (modify (fun w => set_stream_queue (wb_stream_queue w ++ [(i, id)]) w)).
Proof.
  apply keeps_modify. intros w [W1 W2 W3 W4 W5] Hr. split; [|split; simpl; auto; intros ? x Hx; by exists x].
  split; simpl; auto. intros oid j [Hj|Hj]%elem_of_app; [by apply W4|].
  apply list_elem_of_singleton in Hj as [= -> ->]. exact Hr.
Qed.
Lemma stream_start_steady id x params w : wb_tx w !! id = Some x -> steady w (stream_start id x params w).2.
Proof.
  intros Hx. unfold stream_start. destruct params as [p|]; [|by apply keeps_ret].
  destruct (dec_stream p) as [i|]; [|by apply keeps_ret]. destruct (can_read x i) eqn:Er.
  - apply (stays_steady (reads i id)); [intros _; by exists x|].
    pose proof (stays_preorder _ (reads_stable i id)). revert w Hx. intros w _.
    apply keeps_bind; [apply keeps_attempt, notify_ws_stays; [apply reads_stable|done|done]|].
    intros [r|err]; [|apply keeps_ret]. apply keeps_bind; [apply push_queue_stays|]. intros; apply keeps_ret.
  - apply keeps_bind; [apply keeps_attempt, notify_ws_stays; by intros|]. intros []; frame.
Qed.
Lemma ws_process_steady id x s w : wb_tx w !! id = Some x -> steady w (ws_process id x s w).2.
Proof.
  intros Hx. unfold ws_process. apply run_bind_rel; [by apply keeps_lift|]. intros [method params] w' Hc.
  unfold lift in Hc. injection Hc as _ <-. destruct (String.eqb method "stream.start"); [by apply stream_start_steady|].
  lazymatch goal with |- stays _ _ (?m w).2 => assert (keeps steady m) as Hk; [|apply Hk] end.
  frame. by apply send_stays.
Qed.
Lemma ws_message_steady id m : keeps steady (ws_message id m).
Proof.
  unfold ws_message. intros w. apply run_bind_rel; [by apply get_tx_stays|]. intros x w' Hx.
  rewrite run_get_tx in Hx. injection Hx as <- <-. destruct (wb_tx w !! id) as [x|] eqn:Ex; [|by apply keeps_ret].
  destruct (wx_alive x); [|by apply keeps_ret]. unfold loop_end.
  destruct m as [| |s|]; [lazymatch goal with |- stays _ _ (?m w).2 => assert (keeps steady m) as Hk by frame; apply Hk end..| |by apply keeps_ret].
  destruct (String.eqb s ""); [by apply keeps_ret|].
  apply run_bind_rel; [by unfold attempt; pose proof (ws_process_steady id x s w Ex); destruct (ws_process id x s w)|].
  intros r w' _. lazymatch goal with |- stays _ _ (?m w').2 => assert (keeps steady m) as Hk by frame; apply Hk end.
Qed.
Lemma run_task_steady t : keeps steady (run_task e t).
Proof.
  destruct t; simpl; [frame| |frame|frame]. apply keeps_bind; [by apply send_stays|]. intros; frame.
Qed.
Lemma take_task_steady i : keeps steady (take_task i).
Proof. unfold take_task. apply keeps_bind; [frame|]. intros w. destruct (wb_tasks w !! i); [|frame].
  apply keeps_bind; [frame|]. intros _. apply run_task_steady. Qed.
Lemma retain_steady keep : keeps steady (retain_standalone keep).
Proof. unfold retain_standalone. frame. Qed.

(** A new socket has an id that is not in use. *)
Lemma new_tx_ok w auth :
  web_ok w -> let id := ws_uuid (wb_n w) in
  let w' := set_tx (<[id := mkWsTx auth [] 0 false ∅ true]> (wb_tx w)) (set_wb_n (S (wb_n w)) w) in
  web_ok w' /\ extends w w'.
Proof.
  intros Hw id w'. assert (wb_tx w !! id = None) as Hfresh.
  { destruct (wb_tx w !! id) as [x|] eqn:Ex; [|done]. destruct (wo_fresh _ Hw id) as (k & Hk & Hid); [by eexists|].
    apply ws_uuid_unique in Hid. lia. }
  assert (extends w w') as Hex.
  { split; simpl; [|done|lia]. intros i x Hx. exists x. split; [|done]. simpl. rewrite lookup_insert_ne; [done|]. congruence. }
  split; [|done]. pose proof Hw as [W1 W2 W3 W4 W5]. split; simpl.
  - intros i x. destruct (decide (i = id)) as [->|Hne]; [|rewrite lookup_insert_ne by done; apply W1].
    rewrite lookup_insert_eq. intros [= <-]. split_and!; simpl; [constructor|done|].
    intros ? ? Hin. by apply not_elem_of_nil in Hin.
  - intros i Hi. eapply has_extends; [apply can_log_auth|exact Hex|]. by apply W2.
  - intros oid ids i Ho Hi. eapply has_extends; [apply can_read_auth|exact Hex|]. by eapply W3.
  - intros oid i Hi. eapply has_extends; [apply can_read_auth|exact Hex|]. by eapply W4.
  - intros i [x Hx]. destruct (decide (i = id)) as [->|Hne]; [exists (wb_n w); split; [lia|done]|].
    rewrite lookup_insert_ne in Hx by done. destruct (W5 i) as (k & Hk & Hid); [by eexists|]. exists k. split; [lia|done].
Qed.
Lemma register_log_stays id :
  keeps (stays (fun w => has w id (fun x => can_log x = true))) (on_sub_log (sub_register id)).
Proof.
  apply keeps_modify. intros w [W1 W2 W3 W4 W5] Hr. split; [|split; simpl; auto; intros ? x Hx; by exists x].
  split; simpl; auto. intros i [->|Hi]%sub_register_clients; [exact Hr|by apply W2].
Qed.
Lemma ws_register_steady auth oids initial : keeps steady (ws_register ws_uuid auth oids initial).
Proof.
  intros w Hw _. destruct (ws_register ws_uuid auth oids initial w) as [r w'] eqn:E. cbn [snd]. revert E.
  unfold ws_register. rewrite run_bind. unfold get at 1. rewrite run_bind. unfold modify at 1.
  rewrite run_bind. unfold lift. destruct (auth_acl auth) as [acl|] eqn:Ea.
  2:{ intros [= _ <-]. split; [|by split; simpl; auto; intros ? x Hx; exists x]. destruct Hw as [W1 W2 W3 W4 W5]. split; simpl; auto.
      intros i Hi. destruct (W5 i Hi) as (k & Hk & Hid). exists k. split; [lia|done]. }
  rewrite run_bind. unfold modify at 1. destruct (new_tx_ok w auth Hw) as [Hw1 Hex1].
  set (id := ws_uuid (wb_n w)) in *. set (w1 := set_tx _ _) in *.
  assert (has w1 id (fun x => wx_auth x = auth)) as Hid by (eexists; split; [apply lookup_insert_eq|done]).
  clearbody w1 id. set (Q w := has w id (fun x => wx_auth x = auth)).
  assert (forall w1 w2, extends w1 w2 -> Q w1 -> Q w2) as HQ by (intros; eapply has_stable; [|done|done]; congruence).
  pose proof (stays_preorder Q HQ) as Hpre.
  enough (forall m : WM unit, keeps (stays Q) m -> m w1 = (r, w') -> web_ok w' /\ extends w w') as Hk.
  { apply Hk. apply keeps_bind; [by apply on_sub_stays|]. intros _. apply keeps_bind.
    { destruct (check_op acl OpLog) eqn:El; [|apply keeps_ret]. intros v Hv HQ'. apply register_log_stays; [done|].
      destruct HQ' as (x & Hx & Hax). exists x. split; [done|]. unfold can_log. by rewrite Hax, Ea. }
    intros _. frame. }
  intros m Hm E. destruct (Hm w1 Hw1 Hid) as [Hw2 Hex2]. rewrite E in Hw2, Hex2. split; [done|]. by etrans.
Qed.
Lemma connect_steady params header ip upgrade : keeps steady (ws_connect e ws_uuid params header ip upgrade).
Proof.
  assert (forall k, keeps steady (of_hmi (authenticate e k (Some ip)))) as Ha.
  { intros k. apply of_hmi_stays. intros h. destruct (authenticate_sessions e None k (Some ip) h) as [Hc _]. apply Hc. }
  pose proof ws_register_steady. unfold ws_connect. frame.
Qed.

Lemma streams_stays f :
  (forall w, wb_hmi (f w) = wb_hmi w /\ wb_tx (f w) = wb_tx w /\ wb_n (f w) = wb_n w /\ wb_sub_log (f w) = wb_sub_log w) ->
  (forall w oid id, web_ok w -> (forall ids, wb_streams (f w) !! oid = Some ids -> id ∈ ids -> reads oid id w) /\
     ((oid, id) ∈ wb_stream_queue (f w) -> reads oid id w)) ->
  keeps steady (modify f).
Proof.
  intros Hf Hs. apply keeps_modify. intros w Hw _. destruct (Hf w) as (Hh & Ht & Hn & Hl).
  assert (extends w (f w)) as Hex.
  { split; rewrite ?Hh, ?Hn; [|done|done]. intros i x Hx. exists x. by rewrite Ht. }
  split; [|done]. pose proof Hw as [W1 W2 W3 W4 W5]. split; rewrite ?Hh, ?Ht, ?Hn, ?Hl; auto.
  - intros i Hi. eapply has_extends; [apply can_log_auth|exact Hex|]. by apply W2.
  - intros oid ids id Ho Hi. eapply reads_stable; [exact Hex|]. destruct (Hs w oid id Hw) as [Hs1 _]. by eapply Hs1.
  - intros oid id Hi. eapply reads_stable; [exact Hex|]. destruct (Hs w oid id Hw) as [_ Hs2]. by apply Hs2.
Qed.
Lemma streams_accept_steady ok : keeps steady (streams_accept ok).
Proof.
  apply streams_stays.
  - intros w. destruct (wb_stream_queue w) as [|[] ?]; [done|]. by destruct ok.
  - intros w oid id Hw. destruct (wb_stream_queue w) as [|[oid' id'] q] eqn:Eq.
    + split; [intros ids; by apply wo_streams|]. rewrite Eq. by intros ?%not_elem_of_nil.
    + assert (forall oid id, (oid, id) ∈ (oid', id') :: q -> reads oid id w) as Hq by (rewrite <- Eq; apply wo_queue, Hw).
      split; [|destruct ok; intros Hi; apply Hq; by right].
      assert (forall ids, <[oid' := {[id']} ∪ default ∅ (wb_streams w !! oid')]> (wb_streams w) !! oid = Some ids ->
        id ∈ ids -> reads oid id w) as Hm; [|by destruct ok].
      intros ids. destruct (decide (oid = oid')) as [->|Hne].
      * rewrite lookup_insert_eq. intros [= <-] [Hi|Hi]%elem_of_union; [apply Hq; apply elem_of_singleton in Hi as ->; left|].
        destruct (wb_streams w !! oid') as [ids|] eqn:Es; [by eapply wo_streams|by apply not_elem_of_empty in Hi].
      * rewrite lookup_insert_ne by done. by apply wo_streams.
Qed.
Lemma streams_clean_steady ok : keeps steady (streams_clean ok).
Proof.
  apply streams_stays; [by intros w; destruct ok|].
  intros w oid id Hw. split; [|destruct ok; exact (wo_queue w Hw oid id)].
  intros ids Hs Hi. assert (filter (fun kv : OID * gset Uuid => kv.2 ≠ ∅)
    ((fun ids : gset Uuid => filter (fun id => is_open w id = true) ids) <$> wb_streams w) !! oid = Some ids) as Hs' by by destruct ok.
  apply map_lookup_filter_Some in Hs' as [Hs' _]. rewrite lookup_fmap in Hs'.
  destruct (wb_streams w !! oid) as [ids0|] eqn:E0; [|done]. injection Hs' as <-.
  apply elem_of_filter in Hi as [_ Hi]. by eapply wo_streams.
Qed.
Lemma stream_event_steady topic payload : keeps steady (stream_event topic payload).
Proof.
  unfold stream_event. destruct (topic_oid topic) as [oid|]; [|frame]. destruct (ok (un_blob payload)) as [value|]; [|frame].
  apply keeps_get_bind. intros w. destruct (wb_streams w !! oid) as [ids|] eqn:Es; [|by apply keeps_ret].
  set (Q w' := forall id, id ∈ ids -> reads oid id w'). apply (stays_steady Q).
  { intros Hw id Hid. by eapply wo_streams. }
  assert (forall w1 w2, extends w1 w2 -> Q w1 -> Q w2) as HQ by (intros w1 w2 Hex Hq id Hid; eapply reads_stable; eauto).
  pose proof (stays_preorder Q HQ) as Hpre. lazymatch goal with |- stays _ _ (?m w).2 => assert (keeps (stays Q) m) as Hk; [|apply Hk] end.
  frame; [by apply send_stays|].
  apply send_stays; [done|done|]. intros w' y0 Hw HQ' Hx. destruct (HQ' x) as (y & Hy & Hr); [by apply elem_of_elements|].
  simpl. congruence.
Qed.
Lemma handle_frame_steady topic payload : keeps steady (handle_frame e topic payload).
Proof.
  assert (forall m : M (Hmi (Uuid := Uuid)) unit, keeps (sessions e None) m -> keeps steady (of_hmi m)) as Hs.
  { intros m Hm. apply of_hmi_stays. intros h. destruct (Hm h) as [Hc _]. apply Hc. }
  pose proof (fun st => notify_state_steady st). pose proof notify_log_steady. pose proof retain_steady.
  unfold handle_frame, process_state, process_log, remove_websocket_by_acl_id, remove_websocket_by_key_id. frame.
  - apply Hs, (hmi_step_sessions e cfg error_code mask_to_string (HoAclGone _)).
  - apply Hs, (hmi_step_sessions e cfg error_code mask_to_string (HoKeyGone _)).
  - apply Hs, (hmi_step_sessions e cfg error_code mask_to_string (HoUserGone _)).
Qed.
Lemma of_sessions_steady op : keeps steady (of_sessions (hmi_step e cfg error_code mask_to_string op)).
Proof.
  unfold of_sessions. frame. apply of_hmi_stays. intros h.
  destruct (hmi_step_sessions e cfg error_code mask_to_string op h) as [Hc _]. apply Hc.
Qed.
Lemma web_step_steady op : keeps steady (web_step op).
Proof.
  destruct op; simpl; eauto using of_sessions_steady, ws_message_steady, handle_frame_steady, server_event_steady,
    reload_steady, take_task_steady, streams_accept_steady, streams_clean_steady, stream_event_steady.
  - apply keeps_log_ef, connect_steady.
  - apply on_tx_same. intros x. by destruct (_ <? _)%nat.
Qed.
Lemma web_run_steady ops w : steady w (web_run ops w).
Proof.
  revert w. induction ops as [|op ops IH]; intros w; simpl; [reflexivity|]. etrans; [apply web_step_steady|apply IH].
Qed.
Lemma web_start_ok h : web_ok (web_start h).
Proof.
  split; simpl.
  - intros id x Hx. by rewrite lookup_empty in Hx.
  - intros id Hid. rewrite sub_new_clients in Hid. by apply not_elem_of_nil in Hid.
  - intros oid ids id Ho. by rewrite lookup_empty in Ho.
  - intros oid id Hi. by apply not_elem_of_nil in Hi.
  - intros id [x Hx]. by rewrite lookup_empty in Hx.
Qed.

End spec.

(** ** The sender *)

Section sender.
Context `{WExt : WsExternals}.
Implicit Types (fs : list WsFrame) (st : Sender).

(** The states that are taken from the queue and those that are sent; the other
    frames. *)
Definition data_in fs : list WsData := omap (fun f => match f with WText TState d => d | _ => None end) fs.
Definition others_in fs : list Out := as_out <$> filter (fun f => is_data f = false) fs.
Definition out_data (o : Out) : list WsData :=
  match o with OText TState (Some d) => [d] | OBulk _ l => l | _ => [] end.
Definition data_out (l : list Out) : list WsData := l ≫= out_data.
Definition is_other (o : Out) : bool := match o with OText s _ => negb (bool_decide (s = TState)) | OBulk _ _ => false | OBinary _ => true end.
Definition others_out (l : list Out) : list Out := filter (fun o => is_other o = true) l.
Definition buffered st : list WsData := match sd_buf st with Some b => concat b.*2 | None => [] end.
Definition taken (evs : list SEvent) : list WsFrame :=
  omap (fun ev => match ev with SFrame f _ => Some f | _ => None end) evs.

Definition only_states st : Prop :=
  match sd_buf st with Some b => b = [] \/ exists l, b = [(TState, l)] | None => True end.
Definition sender_inv fs st : Prop :=
  only_states st /\ data_out (sd_out st) `prefix_of` data_in fs /\ others_out (sd_out st) `prefix_of` others_in fs /\
  (sd_end st = false ->
     data_out (sd_out st) ++ buffered st = data_in fs /\ others_out (sd_out st) = others_in fs).

Lemma data_in_app fs fs' : data_in (fs ++ fs') = data_in fs ++ data_in fs'.
Proof. apply omap_app. Qed.
Lemma others_in_app fs fs' : others_in (fs ++ fs') = others_in fs ++ others_in fs'.
Proof. unfold others_in. by rewrite filter_app, fmap_app. Qed.
Lemma data_out_app l l' : data_out (l ++ l') = data_out l ++ data_out l'.
Proof. apply bind_app. Qed.
Lemma others_out_app l l' : others_out (l ++ l') = others_out l ++ others_out l'.
Proof. apply filter_app. Qed.

(** What was sent stays a part of what was taken. *)
Lemma sender_inv_more fs fs' st : sd_end st = true -> sender_inv fs st -> sender_inv (fs ++ fs') st.
Proof.
  intros He (Hs & Hd & Ho & _). split_and!; [done| | |congruence].
  - rewrite data_in_app. by apply prefix_app_r.
  - rewrite others_in_app. by apply prefix_app_r.
Qed.
(** The end changes nothing that was sent. *)
Lemma sender_inv_end fs st buf : only_states (mkSender buf (sd_out st) true) -> sender_inv fs st -> sender_inv fs (mkSender buf (sd_out st) true).
Proof. intros Hb (Hs & Hd & Ho & _). by split_and!. Qed.

Lemma other_in f : is_data f = false -> data_in [f] = [] /\ others_in [f] = [as_out f].
Proof. unfold others_in. destruct f as [[] d|]; simpl; try done; intros; by rewrite filter_cons. Qed.
Lemma data_frame_in d : others_in [WText TState d] = [] /\ data_in [WText TState d] = option_list d.
Proof. by destruct d. Qed.
Lemma other_out f : is_data f = false -> data_out [as_out f] = [] /\ others_out [as_out f] = [as_out f].
Proof. by destruct f as [[] d|]. Qed.

(** A frame is sent on at once. *)
Lemma send_frame fs st f ok :
  sd_end st = false -> (is_data f = true -> sd_buf st = None) -> sender_inv fs st ->
  sender_inv (fs ++ [f]) (send_out (as_out f) ok st).
Proof.
  intros He Hb (Hs & Hd & Ho & Hne). destruct (Hne He) as [Hd' Ho']. unfold send_out. destruct ok.
  2:{ apply sender_inv_more; [done|]. by split_and!. }
  destruct (is_data f) eqn:Ef.
  - specialize (Hb eq_refl). unfold buffered in Hd'. rewrite Hb, app_nil_r in Hd'.
    destruct f as [[] d|]; try done. destruct (data_frame_in d) as [Hoi Hdi].
    assert (data_out (sd_out st ++ [as_out (WText TState d)]) = data_in (fs ++ [WText TState d])) as HD.
    { rewrite data_out_app, data_in_app, Hd', Hdi. by destruct d. }
    assert (others_out (sd_out st ++ [as_out (WText TState d)]) = others_in (fs ++ [WText TState d])) as HO.
    { rewrite others_out_app, others_in_app, Ho', Hoi. by destruct d. }
    unfold sender_inv, only_states, buffered. cbn [sd_buf sd_out sd_end]. rewrite HD, HO, Hb, app_nil_r. by split_and!.
  - destruct (other_in f Ef) as [Hdi Hoi]. destruct (other_out f Ef) as [Hdo Hoo].
    assert (data_out (sd_out st ++ [as_out f]) = data_out (sd_out st)) as HD by (by rewrite data_out_app, Hdo, app_nil_r).
    assert (others_out (sd_out st ++ [as_out f]) = others_in (fs ++ [f])) as HO.
    { by rewrite others_out_app, others_in_app, Ho', Hoi, Hoo. }
    unfold sender_inv, buffered in *. cbn [sd_buf sd_out sd_end]. rewrite HD, HO, data_in_app, Hdi, app_nil_r. by split_and!.
Qed.
(** A state is put into the buffer. *)
Lemma buffer_frame fs st buf d :
  sd_end st = false -> sd_buf st = Some buf -> sender_inv fs st ->
  sender_inv (fs ++ [WText TState (Some d)]) (mkSender (Some (buf_push TState d buf)) (sd_out st) false).
Proof.
  intros He Hb (Hs & Hd & Ho & Hne). destruct (Hne He) as [Hd' Ho']. destruct (data_frame_in (Some d)) as [Hoi Hdi].
  unfold only_states, buffered in *. rewrite Hb in *.
  unfold sender_inv, only_states, buffered. cbn [sd_buf sd_out sd_end]. rewrite data_in_app, others_in_app, Hoi, Hdi, app_nil_r.
  assert (concat (buf_push TState d buf).*2 = concat buf.*2 ++ [d] /\ exists l, buf_push TState d buf = [(TState, l)]) as [Hc Hl].
  { destruct Hs as [->|[l ->]]; simpl; rewrite ?app_nil_r; eauto. }
  split_and!; [by right|by apply prefix_app_r|done|]. intros _. by rewrite Hc, app_assoc, Hd'.
Qed.
(** The buffer is sent. *)
Lemma flush_frame fs st buf ok :
  sd_end st = false -> sd_buf st = Some buf -> sender_inv fs st ->
  sender_inv fs (let '(o, b, x) := buf_flush ok buf in mkSender (Some b) (sd_out st ++ o) x).
Proof.
  intros He Hb (Hs & Hd & Ho & Hne). destruct (Hne He) as [Hd' Ho']. unfold only_states, buffered in *. rewrite Hb in *.
  unfold sender_inv, only_states, buffered. destruct Hs as [->|[[|d l] ->]]; simpl.
  - rewrite !app_nil_r in *. split_and!; [by left|done..].
  - rewrite !app_nil_r in *. split_and!; [by right; exists []|done..].
  - simpl in Hd'. rewrite app_nil_r in Hd'. destruct (ok TState); simpl; rewrite ?app_nil_r.
    + rewrite data_out_app, others_out_app. simpl. rewrite !app_nil_r. rewrite <- Hd'.
      split_and!; [by right; exists []|done..].
    + split_and!; [by right; exists []|done..].
Qed.

Lemma sender_step_inv fs st ev :
  sender_inv fs st -> sender_inv (fs ++ taken [ev]) (sender_step ev st).
Proof.
  intros Hi. unfold sender_step. destruct (sd_end st) eqn:He; [by apply sender_inv_more|].
  destruct (sd_buf st) as [buf|] eqn:Hb.
  - destruct ev as [f ok| |ok]; simpl; [|rewrite app_nil_r..].
    + destruct (is_data f) eqn:Ef.
      * destruct f as [[] [d|]|]; try done; [by apply buffer_frame|].
        destruct (data_frame_in None) as [Hoi Hdi]. destruct Hi as (Hs & Hd & Ho & Hne).
        unfold sender_inv. rewrite data_in_app, others_in_app, Hoi, Hdi, !app_nil_r. by split_and!.
      * assert (sender_inv (fs ++ [f]) (send_out (as_out f) ok st)) as Hf by (apply send_frame; congruence).
        destruct (is_bye f); [|done]. apply sender_inv_end; [|done]. exact (proj1 Hf).
    + apply sender_inv_end; [|done]. destruct Hi as [Hs _]. unfold only_states in *. by rewrite Hb in Hs.
    + by apply flush_frame.
  - destruct ev as [f ok| |ok]; simpl; [|rewrite app_nil_r..|by rewrite app_nil_r].
    + assert (sender_inv (fs ++ [f]) (send_out (as_out f) ok st)) as Hf by (by apply send_frame).
      destruct (is_bye f); [|done]. apply sender_inv_end; [|done]. exact (proj1 Hf).
    + apply sender_inv_end; [|done]. destruct Hi as [Hs _]. unfold only_states in *. by rewrite Hb in Hs.
Qed.
Lemma sender_run_inv evs fs st : sender_inv fs st -> sender_inv (fs ++ taken evs) (sender_run evs st).
Proof.
  revert fs st. induction evs as [|ev evs IH]; intros fs st Hi; [by rewrite app_nil_r|].
  assert (taken (ev :: evs) = taken [ev] ++ taken evs) as -> by (unfold taken; simpl; by destruct ev).
  rewrite app_assoc. by apply IH, sender_step_inv.
Qed.

End sender.
