(* ===== verification/HmiWeb.v ===== *)
(** * The HMI service: HTTP requests (svc/hmi/src/handler.rs, svc/hmi/src/serve.rs)

    The routes of a request, the files and keys that are served, uploads, the
    conversion of data, and the calls of the service on the bus.  The file system
    is a parameter, as are the templates and the HTTP client. *)
From Stdlib Require Import Ascii.
From stdpp Require Import sorting.
From S2P Require Import Prelude Duration EvaCommon Password Launcher HmiTokens HmiApi HmiWs.

(** ** The crates and the system *)

Class WebExternals {Uuid} `{Ext : Externals, HExt : !HmiExternals Uuid} := {
  acl_check_rpvt_read : UserAcl -> string -> bool;
  acl_require_pvt_read : UserAcl -> string -> EResult unit;
  (* serde_json, serde_yaml *)
  json_vec : Value -> EResult (list Z);
  yaml_vec : Value -> EResult (list Z);
  json_value : list Z -> EResult Value;
  yaml_value : list Z -> EResult Value;
  bytes_of_str : string -> list Z;
  utf8 : list Z -> EResult string;
  macro_of_str : string -> EResult OID;
  wait_of_str : string -> EResult f64;
  priority_of_str : string -> EResult Z;
  run_params : OID -> gmap string Value -> option Z -> option f64 -> EResult Value;
  upload_value : Value -> option string -> option string -> gmap string string -> string -> EResult Value;
  bytes_value : list Z -> Value;
  (* cookie::Cookie::parse: the name and the value *)
  cookie_parse : string -> option (string * string);
  un_node_svc : list Z -> EResult (option string);
  un_http : list Z -> EResult (list Z);
  acl_pack : UserAcl -> list Z;
  un_id : list Z -> EResult string;
  un_login_key : list Z -> EResult (string * string);
  un_auth_info : list Z -> EResult (string * option string);
  un_log_filter : list Z -> EResult (ApiLogFilter Value OID)
}.

Inductive TplDirKind := TplUi | TplPvt | TplNo.
Definition tpl_allowed (k : TplDirKind) : bool := match k with TplNo => false | _ => true end.

(** The file system: whether a path is there and a directory, and contents. *)
Record Files := mkFiles {
  fl_meta : string -> EResult (option bool);
  fl_exists : string -> bool;
  fl_read : string -> EResult (list Z)
}.

Section web.
Context {Uuid : Type} `{Countable Uuid} `{Ext : Externals, HExt : !HmiExternals Uuid, HashExternals, AExt : !ApiExternals, WeExt : !WebExternals}.

Record WebEnv := mkWebEnv {
  we_files : Files;
  we_mime : gmap string string;                                       (* MIME_TYPES *)
  we_default : string -> option (list Z * string);                    (* DEFAULT_UI_FILES *)
  we_render : TplDirKind -> string -> EResult (list Z);               (* a template, for this request *)
  we_i18n : string -> Value -> string -> EResult Value;               (* I18N *)
  we_registry : string -> EResult Value;                              (* key_userdata_get *)
  we_http : string -> EResult (list Z);                               (* HTTP_CLIENT *)
  we_system_name : string;
  we_ui_path : option string;
  we_va_path : option string;                                         (* VENDORED_APPS_PATH *)
  we_ui_not_found_to_base : bool;
  we_ws_uri : option string
}.
Variable (e : HmiEnv (Uuid := Uuid)) (cfg : ApiConfig) (error_code : option Error -> Z) (we : WebEnv).

Abbreviation HM := (M (Hmi (Uuid := Uuid))).
Abbreviation Query := (option (gmap string string)).

(** [eva_common::hyper_tools::HContent] *)
Inductive HContent :=
  | HcData (data : list Z) (mime : option string)
  | HcRedirect (uri : string)
  | HcFile (data : list Z) (mime : option string)       (* hyper_static::serve::static_file *)
  | HcResponse (data : list Z)                          (* the response of another server *)
  | HcValue (v : Res)
  | HcNotOk.

(** ** Conversion of data (svc/hmi/src/convert.rs) *)

Inductive Js := JsVar (v : string) | JsFunc (f : string).
Inductive Format := FJson | FYaml | FJs (js : Js).
(** svc/hmi/src/convert.rs:15-19 [Convert] *)
Record Convert := mkConvert { cv_uri : string; cv_format : Format; cv_lang : option string }.
Definition convert_new0 (uri : string) : Convert := mkConvert uri FJson None.
(** svc/hmi/src/convert.rs:31-68 [payload] *)
Definition convert_payload (data : Value) (c : Convert) : EResult (list Z * option string) :=
  data ← match cv_lang c with Some lang => we_i18n we (cv_uri c) data lang | None => Ok data end;
  match cv_format c with
  | FJson => buf ← json_vec data; Ok (buf, we_mime we !! "json"%string)
  | FYaml => buf ← yaml_vec data; Ok (buf, we_mime we !! "yaml"%string)
  | FJs js =>
      s ← json_vec data;
      let buf := match js with
                 | JsVar v => bytes_of_str ("var " +:+ v +:+ "=")%string ++ s ++ bytes_of_str ";"
                 | JsFunc f => bytes_of_str ("function " +:+ f +:+ "(){return ")%string ++ s ++ bytes_of_str ";}"
                 end in
      Ok (buf, we_mime we !! "js"%string)
  end.
(** svc/hmi/src/convert.rs:70-98 [parse_convert_to] *)
Definition parse_convert_to (uri : string) (params : Query) : EResult (option Convert) :=
  match params with
  | Some q =>
      match q !! "as"%string with
      | Some a =>
          format ← (if String.eqb a "yaml" || String.eqb a "yml" then Ok FYaml
                    else if String.eqb a "json" then Ok FJson
                    else if String.eqb a "js" then
                      match q !! "var"%string, q !! "func"%string with
                      | Some v, _ => Ok (FJs (JsVar v))
                      | None, Some f => Ok (FJs (JsFunc f))
                      | None, None => Err EInvalidParams
                      end
                    else Err EInvalidParams);
          Ok (Some (mkConvert uri format (q !! "lang"%string)))
      | None => Ok None
      end
  | None => Ok None
  end.

(** ** Texts in other languages (svc/hmi/src/lang.rs) *)

Definition is_white (a : ascii) : bool :=
  let n := nat_of_ascii a in (n =? 32)%nat || ((9 <=? n)%nat && (n <=? 13)%nat).
Fixpoint drop_white (l : list ascii) : list ascii :=
  match l with a :: l' => if is_white a then drop_white l' else l | [] => [] end.
Definition trim_left (s : string) : string :=
  String.string_of_list_ascii (drop_white (String.list_ascii_of_string s)).
Definition trim_right (s : string) : string :=
  String.string_of_list_ascii (reverse (drop_white (reverse (String.list_ascii_of_string s)))).
Definition newline : ascii := ascii_of_nat 10.
Definition carriage_return : ascii := ascii_of_nat 13.
(** svc/hmi/src/lang.rs:92-120 [Converter::convert_str], for texts of ASCII
    characters *)
Definition convert_str (gettext : string -> string) (s : string) : string :=
  let s := String.string_of_list_ascii
             (filter (fun c => c ≠ carriage_return) (String.list_ascii_of_string s)) in
  join_with newline ((fun line =>
    if String.eqb line "" then ""%string
    else
      let ls := String.length (trim_left line) in
      let rs := String.length (trim_right line) in
      let n := String.length line in
      let left_side := if (ls =? n)%nat then ""%string else str_take (n - ls) line in
      let right_side := if (rs =? n)%nat then ""%string else str_drop (n - rs) line in
      (left_side +:+ gettext (trim_right (trim_left line)) +:+ right_side)%string) <$> split_on newline s).

(** ** Files (svc/hmi/src/serve.rs) *)

(** svc/hmi/src/serve.rs:61-68 [serve_ui_default] *)
Definition serve_ui_default (allow : bool) (path : string) : option HContent :=
  if allow then
    (fun f : list Z * string => HcData f.1 (Some f.2)) <$> we_default we (if String.eqb path "" then "index.html" else path)
  else None.
(** [Path::extension], the empty text if there is none *)
Definition path_extension (p : string) : string :=
  match last (path_components p) with
  | Some name =>
      match reverse (split_on "." name) with
      | ext :: (b :: r) => if String.eqb (join_with "." (reverse (b :: r))) "" then "" else ext
      | _ => ""
      end
  | None => ""
  end.

(** A file or a directory that is there (svc/hmi/src/serve.rs:110-186) *)
Definition read_found (uri base path : string) (allow_default : bool) (convert_to : option Convert)
    (tpl : TplDirKind) (allow_ui_default : bool) (is_dir : bool) : EResult HContent :=
  let file_path := (base +:+ "/" +:+ path)%string in
  if is_dir && negb (HmiApi.ends_with "/" file_path) then Ok (HcRedirect (uri +:+ "/")%string)
  else
    let index := fl_exists (we_files we) (file_path +:+ "index.j2")%string in
    let '(name, is_tpl) :=
      if is_dir && allow_default then
        if index then ((path +:+ "index.j2")%string, tpl_allowed tpl)
        else ((path +:+ "index.html")%string, false)
      else (path, tpl_allowed tpl && HmiApi.ends_with ".j2" file_path) in
    let target := (base +:+ "/" +:+ name)%string in
    let mime := we_mime we !! path_extension target in
    let finish buf :=
      match convert_to with
      | Some c =>
          match mime with
          | Some mt =>
              data ← (if String.eqb mt "application/json" then json_value buf
                      else if String.eqb mt "application/x-yaml" then yaml_value buf
                      else Err EInvalidParams);
              r ← convert_payload data c;
              Ok (HcData r.1 r.2)
          | None => Err EInvalidParams
          end
      | None => Ok (HcData buf mime)
      end in
    if is_tpl then buf ← we_render we tpl name; finish buf
    else match convert_to with
    | None =>
        if fl_exists (we_files we) target then buf ← fl_read (we_files we) target; Ok (HcFile buf mime)
        else match serve_ui_default allow_ui_default path with Some c => Ok c | None => Err ENotFound end
    | Some _ => buf ← fl_read (we_files we) target; finish buf
    end.
Definition read_file_or (fallback : EResult HContent) (uri base path : string) (allow_default : bool)
    (convert_to : option Convert) (tpl : TplDirKind) (allow_ui_default : bool) : EResult HContent :=
  attr ← fl_meta (we_files we) (base +:+ "/" +:+ path)%string;
  match attr with
  | Some is_dir => read_found uri base path allow_default convert_to tpl allow_ui_default is_dir
  | None =>
      match serve_ui_default allow_ui_default path with
      | Some c => Ok c
      | None => fallback
      end
  end.
(** svc/hmi/src/serve.rs:70-187 [read_file] *)
Definition read_file (uri base : string) (not_found_to_base : bool) (path : string) (allow_default : bool)
    (convert_to : option Convert) (tpl : TplDirKind) (allow_ui_default : bool) : EResult HContent :=
  read_file_or
    (if not_found_to_base
     then read_file_or (Err ENotFound) uri base "" allow_default convert_to tpl allow_ui_default
     else Err ENotFound)
    uri base path allow_default convert_to tpl allow_ui_default.
(** svc/hmi/src/serve.rs:189-224 [file] *)
Definition serve_file (uri base : string) (not_found_to_base : bool) (path : string) (params : Query)
    (allow_default : bool) (tpl : TplDirKind) (allow_ui_default : bool) : EResult HContent :=
  if path_contains_traversal uri || path_contains_traversal path then Err EFailed
  else
    match parse_convert_to uri params with
    | Ok convert_to => read_file uri base not_found_to_base path allow_default convert_to tpl allow_ui_default
    | Err _ => Err EInvalidParams
    end.

(** Who asks (svc/hmi/src/aaa.rs:71-93 [parse_auth]); the text of the cookie
    header, if there is one *)
Fixpoint find_cookie (l : list string) : option string :=
  match l with
  | [] => None
  | c :: l => match cookie_parse c with
              | Some (name, value) => if String.eqb name "auth" then Some value else find_cookie l
              | None => find_cookie l
              end
  end.
Definition parse_auth (params : Query) (cookies : option string) : option string :=
  match params ≫= fun q => q !! "k"%string with
  | Some k => Some k
  | None => cookies ≫= fun ch => find_cookie (split_on ";" ch)
  end.
(** The caller, if the key is valid. *)
Definition caller (params : Query) (cookies : option string) (ip : IpAddr) : HM (option Auth) :=
  match parse_auth params cookies with
  | Some k =>
      r ← attempt (authenticate e k (Some ip));
      match r with Ok a => mret (Some a) | Err EPanic => raise EPanic | Err _ => mret None end
  | None => mret None
  end.

(** svc/hmi/src/serve.rs:226-262 [pvt] *)
Definition serve_pvt (uri pvt_file : string) (params : Query) (cookies : option string) (ip : IpAddr) : HM HContent :=
  if str_contains "/../" pvt_file || str_contains "/." pvt_file || String.prefix "../" pvt_file then raise EAccess
  else if String.eqb pvt_file "" then raise EAccess
  else
    match cf_pvt_path cfg with
    | Some pvt_path =>
        a ← caller params cookies ip;
        match a with
        | Some a =>
            acl ← lift (auth_acl a);
            if acl_check_pvt_read acl pvt_file
            then lift (serve_file uri pvt_path false pvt_file params false TplPvt false)
            else raise EAccess
        | None => raise EAccess
        end
    | None => raise EAccess
    end.
(** svc/hmi/src/serve.rs:264-338 [remote_pvt] *)
Definition serve_remote_pvt (rpvt_file : string) (params : Query) (cookies : option string) (ip : IpAddr) : HM HContent :=
  target ← lift (ok_or (url_decode rpvt_file) EInvalidData);
  if String.eqb target "" then raise EAccess
  else
    a ← caller params cookies ip;
    match a with
    | Some a =>
        acl ← lift (auth_acl a);
        if acl_check_rpvt_read acl target then
          let '(node, uri) := split_once "/"%char target in
          uri ← lift (ok_or uri EInvalidData);
          let local := (r ← lift (we_http we uri); mret (HcResponse r)) : HM HContent in
          if String.eqb node ".local" || String.eqb node (we_system_name we) then local
          else
            b ← bus_call e "eva.core" "node.get" (PNodeGet node);
            svc ← lift (un_node_svc b);
            match svc with
            | Some svc =>
                b ← bus_call e svc "rpvt" (PRpvt (".local/" +:+ uri)%string node);
                r ← lift (un_http b);
                mret (HcResponse r)
            | None => local
            end
        else raise EAccess
    | None => raise EAccess
    end.
Definition serve_key (uri key : string) (params : Query) : EResult HContent :=
  data ← we_registry we key;
  convert_to ← parse_convert_to uri params;
  r ← convert_payload data (default (convert_new0 uri) convert_to);
  Ok (HcData r.1 r.2).
(** svc/hmi/src/serve.rs:340-351 [pub_key] *)
Definition serve_pub_key (uri key : string) (params : Query) : HM HContent :=
  lift (serve_key uri ("pub/" +:+ key)%string params).
(** svc/hmi/src/serve.rs:353-381 [pvt_key] *)
Definition serve_pvt_key (uri key : string) (params : Query) (cookies : option string) (ip : IpAddr) : HM HContent :=
  a ← caller params cookies ip;
  match a with
  | Some a =>
      acl ← lift (auth_acl a);
      match acl_require_pvt_read acl ("%/" +:+ key)%string with
      | Ok _ => lift (serve_key uri ("pvt/" +:+ key)%string params)
      | Err _ => raise EAccess
      end
  | None => raise EAccess
  end.

(** ** Uploads (svc/hmi/src/upload.rs) *)

(** A field of the form; its data can be cut off. *)
Record Field := mkField {
  fd_name : option string;
  fd_data : EResult (list Z);
  fd_content_type : option string;
  fd_file_name : option string
}.
Record Form := mkForm {
  fm_macro : option OID;
  fm_rdr : option string;
  fm_form : gmap string string;
  fm_params : gmap string string;
  fm_wait : option f64;
  fm_priority : option Z;
  fm_file : option (list Z * option string * option string)
}.
Definition form_empty : Form := mkForm None None ∅ ∅ None None None.
(** One field (svc/hmi/src/upload.rs:55-85) *)
Definition form_field (m : Form) (f : Field) : EResult Form :=
  match fd_name f with
  | None => Ok m
  | Some name =>
      data ← fd_data f;
      if String.eqb name "process_macro_id" then
        s ← utf8 data; i ← macro_of_str s;
        Ok (mkForm (Some i) (fm_rdr m) (fm_form m) (fm_params m) (fm_wait m) (fm_priority m) (fm_file m))
      else if String.eqb name "ufile" || String.eqb name "upload_file" then
        Ok (mkForm (fm_macro m) (fm_rdr m) (fm_form m) (fm_params m) (fm_wait m) (fm_priority m)
          (Some (data, fd_content_type f, fd_file_name f)))
      else if String.eqb name "rdr" || String.eqb name "redirect" then
        s ← utf8 data;
        Ok (mkForm (fm_macro m) (Some s) (fm_form m) (fm_params m) (fm_wait m) (fm_priority m) (fm_file m))
      else if String.eqb name "k" then
        s ← utf8 data;
        Ok (mkForm (fm_macro m) (fm_rdr m) (fm_form m) (<[name := s]> (fm_params m)) (fm_wait m) (fm_priority m) (fm_file m))
      else if String.eqb name "w" || String.eqb name "wait" then
        s ← utf8 data; w ← wait_of_str s;
        Ok (mkForm (fm_macro m) (fm_rdr m) (fm_form m) (fm_params m) (Some w) (fm_priority m) (fm_file m))
      else if String.eqb name "p" || String.eqb name "priority" then
        s ← utf8 data; p ← priority_of_str s;
        Ok (mkForm (fm_macro m) (fm_rdr m) (fm_form m) (fm_params m) (fm_wait m) (Some p) (fm_file m))
      else
        s ← utf8 data;
        Ok (mkForm (fm_macro m) (fm_rdr m) (<[name := s]> (fm_form m)) (fm_params m) (fm_wait m) (fm_priority m) (fm_file m))
  end.
(** A method of the API with the access info of the request. *)
Definition with_aci {A} (aci : ACI) (m : M (Hmi (Uuid := Uuid) * ACI) A) : HM A :=
  fun s => let '(r, (h, _)) := m (s, aci) in (r, h).
(** svc/hmi/src/upload.rs:41-126 [process]; [fields] are those of the form, and
    an error if it breaks off *)
Definition upload_process (fields : list Field) (broken : bool) (cookies : option string) (ip : IpAddr) : HM HContent :=
  m ← lift (foldl (fun acc f => m ← acc; form_field m f) (Ok form_empty) fields);
  if broken then raise EInvalidData
  else
    match fm_file m, fm_macro m with
    | Some (content, content_type, file_name), Some macro_id =>
        a ← caller (Some (fm_params m)) cookies ip;
        match a with
        | Some auth =>
            let source := ip_to_string ip in
            aci ← aci_new e auth "upload" source;
            data ← lift (upload_value (auth_value auth source) content_type file_name (fm_form m)
                           (hex_encode (sha256 content)));
            let kwargs := <["data"%string := data]> {["content"%string := bytes_value content]} in
            p ← lift (run_params macro_id kwargs (fm_priority m) (fm_wait m));
            result ← with_aci aci (method_run e cfg p);
            match fm_rdr m with
            | Some uri => mret (HcRedirect uri)
            | None => mret (HcValue result)
            end
        | None => raise EAccess
        end
    | _, _ => match fm_rdr m with Some uri => mret (HcRedirect uri) | None => mret HcNotOk end
    end.

(** ** Routes *)

Inductive HMethod := MGet | MPost | MOptions | MOther.
Inductive Route :=
  | RtRedirect (location : string)
  | RtFile (base : string) (not_found_to_base : bool) (path : string) (params : Query) (allow_default : bool)
      (tpl : TplDirKind) (allow_ui_default : bool)
  | RtPvt (f : string)
  | RtRpvt (f : string)
  | RtPvtKey (k : string)
  | RtPubKey (k : string)
  | RtUpload
  | RtStatus (code : Z).
(** A GET request (svc/hmi/src/handler.rs:958-1115) *)
Definition route_get (uri : string) (params : Query) : Route :=
  let param k := params ≫= fun q => q !! k in
  if String.eqb uri "/" || String.eqb uri "/ui" then RtRedirect "/ui/"
  else
  let va := we_va_path we in
  match (if String.eqb uri "/va" || String.eqb uri "/va/" then va else None) with
  | Some _ => RtRedirect "/ui/vendored-apps/"
  | None =>
  match strip_prefix "/va/" uri, va with
  | Some app, Some _ => RtRedirect ("/ui/vendored-apps/" +:+ app)%string
  | _, _ =>
  match (if String.eqb uri "/favicon.ico" then we_ui_path we else None) with
  | Some ui_path => RtFile ui_path false (str_drop 1 uri) None false TplNo true
  | None =>
  match (if negb (String.eqb uri "/favicon.ico") && String.prefix "/.evahi/" uri then we_ui_path we else None) with
  | Some ui_path => RtFile ui_path false (str_drop 1 uri) None false TplNo false
  | None =>
  match strip_prefix "/ui/vendored-apps/" uri, va with
  | Some va_file, Some va_path => RtFile va_path false va_file params true TplNo false
  | _, _ =>
  match strip_prefix "/ui/" uri, we_ui_path we with
  | Some ui_file, Some ui_path => RtFile ui_path (we_ui_not_found_to_base we) ui_file params true TplUi true
  | _, _ =>
  if String.eqb uri "/pvt" then match param "f"%string with Some f => RtPvt f | None => RtStatus 400 end
  else
  match strip_prefix "/pvt/" uri with
  | Some f => RtPvt f
  | None =>
  if String.eqb uri "/rpvt" then match param "f"%string with Some f => RtRpvt f | None => RtStatus 400 end
  else
  match strip_prefix "/rpvt/" uri with
  | Some f => RtRpvt f
  | None =>
  match strip_prefix "/:pvt/" uri with
  | Some k => RtPvtKey k
  | None =>
  match strip_prefix "/:pub/" uri with
  | Some k => RtPubKey k
  | None => RtStatus 404
  end end end end end end end end end end.
(** svc/hmi/src/handler.rs:951-1136 (handle_web_request, without web sockets and
    the JSON RPC) *)
Definition route (method : HMethod) (uri : string) (params : Query) (multipart : bool) : Route :=
  match method with
  | MGet => route_get uri params
  | MPost => if String.eqb uri "/upload" && multipart then RtUpload else RtStatus 404
  | MOptions => RtStatus 204
  | MOther => RtStatus 405
  end.
Definition serve_route (r : Route) (uri : string) (params : Query) (cookies : option string) (ip : IpAddr)
    (fields : list Field) (broken : bool) : HM (HContent + Z) :=
  match r with
  | RtRedirect l => mret (inl (HcRedirect l))
  | RtFile base nf path params allow tpl ui => c ← lift (serve_file uri base nf path params allow tpl ui); mret (inl c)
  | RtPvt f => c ← serve_pvt uri f params cookies ip; mret (inl c)
  | RtRpvt f => c ← serve_remote_pvt f params cookies ip; mret (inl c)
  | RtPvtKey k => c ← serve_pvt_key uri k params cookies ip; mret (inl c)
  | RtPubKey k => c ← serve_pub_key uri k params; mret (inl c)
  | RtUpload => c ← upload_process fields broken cookies ip; mret (inl c)
  | RtStatus n => mret (inr n)
  end.

(** ** Calls on the bus (svc/hmi/src/eapi.rs) *)

Record SessionInfo := mkSessionInfo {
  si_id : string;
  si_mode : string;
  si_user : string;
  si_source : option string;
  si_auth_svc : string;
  si_expires_in : Duration
}.
(** svc/hmi/src/aaa.rs:489-497 [Token::expires_in] *)
Definition expires_in (token : Token) : HM Duration :=
  exp ← lift (get_expiration e);
  secs ← lift (i64_of (exp / NANOS_PER_SEC));
  t ← now e;
  t ← lift (i64_of t);
  mret (Z.max 0 (tk_t token + secs - t) * NANOS_PER_SEC)%Z.
Definition session_info (t : Token) : HM SessionInfo :=
  r ← attempt (expires_in t);
  mret (mkSessionInfo (token_id_to_string (tk_id t)) (if is_readonly t then "readonly" else "normal") (tk_user t)
    (ip_to_string <$> tk_ip t) (tk_auth_svc t) (match r with Ok d => d | Err _ => 0%Z end)).
Definition expires_later (a b : SessionInfo) : Prop := (si_expires_in b <= si_expires_in a)%Z.
#[global] Instance expires_later_dec : RelDecision expires_later.
Proof. intros a b. unfold expires_later. apply _. Defined.

Inductive BusRes :=
  | BrNone
  | BrSessions (l : list SessionInfo)
  | BrLog (r : Res)
  | BrValue (v : Value)
  | BrAcl (b : list Z)
  | BrReload                 (* notify_need_reload *)
  | BrRestart                (* notify_server_event *)
  | BrTemplates
  | BrPurge
  | BrStats
  | BrStreams.
Definition no_payload {A} (payload : list Z) (m : HM A) : HM A :=
  match payload with [] => m | _ => raise EInvalidParams end.
Definition some_payload {A} (payload : list Z) (m : HM A) : HM A :=
  match payload with [] => raise EInvalidParams | _ => m end.
(** svc/hmi/src/eapi.rs:26-181 [Handlers::handle_call]; [ready] is
    [svc_rpc_need_ready!], and the effects outside the sessions are named in the
    result *)
Definition handle_call (ready : bool) (method : string) (payload : list Z) : HM BusRes :=
  if negb ready then raise ENotReady
  else if String.eqb method "tpl.reload" then no_payload payload (mret BrTemplates)
  else if String.eqb method "i18n.cache_purge" then no_payload payload (mret BrPurge)
  else if String.eqb method "api_log.get" then
    f ← lift (match payload with
              | [] => Ok (mkLogFilter None None None None None None None None None None)
              | _ => un_log_filter payload
              end);
    r ← log_get e error_code f;
    mret (BrLog r)
  else if String.eqb method "ws.stats" then no_payload payload (mret BrStats)
  else if String.eqb method "session.broadcast.reload" then no_payload payload (mret BrReload)
  else if String.eqb method "session.broadcast.restart" then no_payload payload (mret BrRestart)
  else if String.eqb method "session.list" then
    no_payload payload (
      tokens ← load_all_tokens e;
      l ← for_collect session_info tokens;
      mret (BrSessions (merge_sort expires_later l)))
  else if String.eqb method "session.destroy" then
    some_payload payload (
      i ← lift (un_id payload);
      id ← lift (token_id_of_string i);
      _ ← destroy_token e id;
      mret BrNone)
  else if String.eqb method "stream.list" then no_payload payload (mret BrStreams)
  else if String.eqb method "user_data.get" then
    some_payload payload (
      p ← lift (un_login_key payload);
      v ← get_user_data e p.1 p.2;
      mret (BrValue v))
  else if String.eqb method "authenticate" then
    some_payload payload (
      p ← lift (un_auth_info payload);
      ip ← lift (match p.2 with
                 | Some s => i ← ok_or (ip_parse s) EInvalidParams; Ok (Some i)
                 | None => Ok None
                 end);
      auth ← authenticate e p.1 ip;
      acl ← lift (auth_acl auth);
      mret (BrAcl (acl_pack acl)))
  else raise EMethodNotFound.
End web.
