(* ===== verification/HmiWebSpec.v ===== *)
(** * The HMI service: what HTTP requests can see

    The answer to a request depends on no files but those of the user interface
    and the vendored apps, and the private files the caller may read. *)
From Stdlib Require Import Ascii.
From S2P Require Import Prelude Duration EvaCommon Password Launcher HmiTokens HmiApi HmiSpec HmiFiles HmiWs HmiWeb.

(** ** Paths *)

(** A text without slashes at the end makes the last chunk longer. *)
Fixpoint app_last (l : list string) (t : string) : list string :=
  match l with
  | [] => [t]
  | [x] => [(x +:+ t)%string]
  | x :: l => x :: app_last l t
  end.
Lemma app_last_elem l t c : c ∈ app_last l t -> c ∈ l \/ exists c', c = (c' +:+ t)%string.
Proof.
  induction l as [|x l IH]; simpl.
  - intros ->%list_elem_of_singleton. right. by exists ""%string.
  - destruct l as [|y l]; [intros ->%list_elem_of_singleton; right; by exists x|].
    intros [->|Hc]%elem_of_cons; [left; left|]. destruct (IH Hc); [left; by right|by right].
Qed.
Lemma no_slash t : has_char slash t = false -> slash ∉ String.list_ascii_of_string t.
Proof.
  unfold has_char. generalize slash. intros c. induction (String.list_ascii_of_string t) as [|a l IH].
  - by intros _ ?%not_elem_of_nil.
  - cbn [existsb]. intros [Ha Hl]%orb_false_iff [<-|Hin]%elem_of_cons; [by rewrite Ascii.eqb_refl in Ha|]. by apply IH.
Qed.
Lemma split_on_plain t : slash ∉ String.list_ascii_of_string t -> split_on slash t = [t].
Proof.
  induction t as [|b t IH]; simpl; [done|]. intros Ht. destruct (Ascii.eqb_spec b slash) as [->|_]; [set_solver|].
  rewrite IH; [done|set_solver].
Qed.
Lemma split_on_app t p :
  slash ∉ String.list_ascii_of_string t -> split_on slash (p +:+ t)%string = app_last (split_on slash p) t.
Proof.
  intros Ht. induction p as [|a p IH]; [by apply split_on_plain|].
  change (split_on slash (String a p +:+ t)%string) with (split_on slash (String a (p +:+ t)%string)). cbn [split_on].
  rewrite IH. pose proof (split_on_nonempty slash p) as Hne. destruct (Ascii.eqb a slash).
  - by destruct (split_on slash p).
  - by destruct (split_on slash p) as [|y [|z l]].
Qed.

Lemma string_app_length (a b : string) : String.length (a +:+ b)%string = (String.length a + String.length b)%nat.
Proof. induction a as [|x a IH]; [done|]. exact (f_equal S IH). Qed.

(** A path that never leads up. *)
Definition downward (p : string) : Prop := ".."%string ∉ split_on slash p.
Lemma downward_app p t :
  slash ∉ String.list_ascii_of_string t -> (2 < String.length t)%nat -> downward p -> downward (p +:+ t)%string.
Proof.
  intros Ht Hl Hp Hin. rewrite split_on_app in Hin by done. apply app_last_elem in Hin as [?|[c Hc]]; [done|].
  apply (f_equal String.length) in Hc. rewrite string_app_length in Hc. simpl in Hc. lia.
Qed.

Section spec.
Context {Uuid : Type} `{Countable Uuid} `{Ext : Externals, HExt : !HmiExternals Uuid, HashExternals, AExt : !ApiExternals, WeExt : !WebExternals, !UrlLaws}.
Variable (e : HmiEnv (Uuid := Uuid)) (cfg : ApiConfig).
Implicit Types (we : WebEnv) (f g : Files).

Definition with_files g we : WebEnv :=
  mkWebEnv g (we_mime we) (we_default we) (we_render we) (we_i18n we) (we_registry we) (we_http we)
    (we_system_name we) (we_ui_path we) (we_va_path we) (we_ui_not_found_to_base we) (we_ws_uri we).

(** The file systems agree on a path, and on all paths below a directory. *)
Definition same_file f g (p : string) : Prop :=
  fl_meta g p = fl_meta f p /\ fl_exists g p = fl_exists f p /\ fl_read g p = fl_read f p.
Definition same_below f g (base : string) : Prop :=
  forall p, downward p -> same_file f g (base +:+ "/" +:+ p)%string.

Lemma no_traversal_downward p : path_contains_traversal p = false -> downward p.
Proof. intros Ht Hd. by rewrite (dots_traversal p Hd) in Ht. Qed.

(** One file, without the default file of a directory. *)
Lemma read_found_file we g uri base path c tpl ui is_dir :
  same_file (we_files we) g (base +:+ "/" +:+ path)%string ->
  read_found (with_files g we) uri base path false c tpl ui is_dir = read_found we uri base path false c tpl ui is_dir.
Proof.
  intros (Hm & Hx & Hr). unfold read_found. rewrite andb_false_r. simpl. rewrite Hx, Hr.
  destruct (is_dir && _); [done|]. by destruct (_ && _).
Qed.
(** A file below a directory. *)
Lemma read_found_below we g uri base path allow c tpl ui is_dir :
  same_below (we_files we) g base -> downward path ->
  read_found (with_files g we) uri base path allow c tpl ui is_dir = read_found we uri base path allow c tpl ui is_dir.
Proof.
  intros Hs Hd.
  assert (forall t, slash ∉ String.list_ascii_of_string t -> (2 < String.length t)%nat ->
    same_file (we_files we) g (base +:+ "/" +:+ (path +:+ t))%string) as Hi by (intros; by apply Hs, downward_app).
  destruct (Hi "index.j2"%string) as (_ & Hx2 & Hr2); [by apply no_slash|simpl; lia|].
  destruct (Hi "index.html"%string) as (_ & Hx1 & Hr1); [by apply no_slash|simpl; lia|].
  destruct (Hs path Hd) as (_ & Hx & Hr). unfold read_found. cbn [we_files with_files].
  assert (fl_exists g ((base +:+ "/" +:+ path) +:+ "index.j2") = fl_exists (we_files we) ((base +:+ "/" +:+ path) +:+ "index.j2"))
    as -> by (by rewrite <- !app_string_assoc).
  destruct (is_dir && negb _); [done|]. destruct (is_dir && allow); cbv beta iota zeta.
  - destruct (fl_exists (we_files we) ((base +:+ "/" +:+ path) +:+ "index.j2")%string); cbv beta iota zeta; [by rewrite Hx2, Hr2|by rewrite Hx1, Hr1].
  - by rewrite Hx, Hr.
Qed.
Lemma serve_file_below we g uri base nf path params allow tpl ui :
  same_below (we_files we) g base ->
  serve_file (with_files g we) uri base nf path params allow tpl ui = serve_file we uri base nf path params allow tpl ui.
Proof.
  intros Hs. unfold serve_file. destruct (path_contains_traversal uri); [done|]. simpl.
  destruct (path_contains_traversal path) eqn:Et; [done|]. apply no_traversal_downward in Et.
  destruct (parse_convert_to uri params) as [c|]; [|done].
  assert (forall fb p, downward p -> read_file_or (with_files g we) fb uri base p allow c tpl ui =
    read_file_or we fb uri base p allow c tpl ui) as Hf.
  { intros fb p Hp. unfold read_file_or. destruct (Hs p Hp) as (Hm & _ & _). cbn [we_files with_files]. rewrite Hm.
    destruct (fl_meta (we_files we) _) as [[d|]|]; [|done|done]. by apply read_found_below. }
  unfold read_file. rewrite Hf by done. rewrite (Hf _ ""%string); [done|]. unfold downward. simpl. set_solver.
Qed.
Lemma serve_file_one we g uri base path params tpl :
  same_file (we_files we) g (base +:+ "/" +:+ path)%string ->
  serve_file (with_files g we) uri base false path params false tpl false = serve_file we uri base false path params false tpl false.
Proof.
  intros Hs. unfold serve_file. destruct (_ || _); [done|]. destruct (parse_convert_to uri params) as [c|]; [|done].
  unfold read_file, read_file_or. cbn [we_files with_files]. pose proof Hs as (Hm & _). rewrite Hm.
  destruct (fl_meta (we_files we) _) as [[d|]|]; [|done|done]. by apply read_found_file.
Qed.

(** The private files a caller may read: those their rights permit. *)
Definition same_readable f g (params : option (gmap string string)) (cookies : option string) (ip : IpAddr)
    (s : Hmi (Uuid := Uuid)) : Prop :=
  forall pvt key a acl p, cf_pvt_path cfg = Some pvt -> parse_auth params cookies = Some key ->
    (authenticate e key (Some ip) s).1 = Ok a -> auth_acl a = Ok acl -> acl_check_pvt_read acl p = true ->
    same_file f g (pvt +:+ "/" +:+ p)%string.

Lemma serve_pvt_same we g uri p params cookies ip s :
  same_readable (we_files we) g params cookies ip s ->
  serve_pvt e cfg (with_files g we) uri p params cookies ip s = serve_pvt e cfg we uri p params cookies ip s.
Proof.
  intros Hs. unfold serve_pvt. destruct (_ || _); [done|]. destruct (String.eqb p ""); [done|].
  destruct (cf_pvt_path cfg) as [pvt|] eqn:Ep; [|done]. rewrite !run_bind. unfold caller.
  destruct (parse_auth params cookies) as [key|] eqn:Ek; [|done]. rewrite !run_bind. unfold attempt.
  destruct (authenticate e key (Some ip) s) as [[a|err] s1] eqn:Ea; [|by destruct err]. rewrite !run_ret, !run_bind.
  unfold lift. destruct (auth_acl a) as [acl|] eqn:Eacl; [|done].
  destruct (acl_check_pvt_read acl p) eqn:Ec; [|done]. rewrite serve_file_one; [done|].
  eapply Hs; eauto. by rewrite Ea.
Qed.

End spec.
