(* ===== verification/HmiExamples.v ===== *)
(** * The HMI service: examples

    A service with one user and one key, for which the theorems about sessions,
    rights and private files are used at concrete requests. *)
From Stdlib Require Import Ascii.
From S2P Require Import Prelude Duration EvaCommon Password LocalAuth LocalAuthExamples Launcher HmiTokens HmiApi HmiSpec HmiSessions HmiFiles HmiWs HmiWsSpec HmiWeb HmiWebSpec.

Module HmiExamples.
Import Sample.
#[local] Existing Instance LocalAuthExamples.hashes.

Definition no {A} (v : SValue) : EResult A := Err EInvalidParams.
Definition str (v : SValue) : EResult string := match v with SStr s => Ok s | _ => Err EInvalidParams end.
Definition none {A} (b : list Z) : EResult A := Err EInvalidData.

(** A list of rights is its id; administrators have the id [admin]. *)
Definition admin (acl : string) : bool := String.eqb acl "admin".
Definition need (b : bool) : EResult unit := if b then Ok tt else Err EAccess.

Section sample.
Variables (U : Type) (as_bytes : U -> list Z) (from_slice : list Z -> option U).
#[local] Instance sample_hmi : HmiExternals U := {|
  UserAcl := string; acl_get_id a := a; acl_from a := [a]; acl_get_meta a := Some (SStr a);
  check_admin := admin; check_op a _ := admin a; check_item_read _ _ := true; check_item_write a _ := admin a;
  acl_check_pvt_read a _ := admin a; acl_check_pvt_write a p := admin a || String.prefix "shared/" p;
  require_admin a := need (admin a); require_op a _ := need (admin a); require_item_read _ _ := Ok tt;
  require_item_write a _ := need (admin a); require_item_mask_read _ _ := Ok tt;
  get_items_allow_deny_reading _ := (["#"%string], []);
  acl_to_json a := Ok a; acl_of_json j := Ok j;
  as_map_get v _ := Some v; as_seq v := Some [v];
  as_string v := match v with SStr s => Some s | _ => None end;
  IpAddr := string; ip_to_string i := i; ip_parse s := Some s;
  uuid_as_bytes := as_bytes; uuid_from_slice := from_slice;
  Fill := unit; StateProp := unit; LogQuery := unit
|}.
Definition sample_api : ApiExternals (Uuid := U) := {|
  dec_empty _ := Ok tt; dec_reset_user := no; dec_set_password := no; dec_profile_get := no; dec_profile_set := no;
  dec_state := no; dec_ids := no; dec_history := no; dec_state_log := no; dec_combined := no; dec_log_filter := no;
  dec_log_get := no; dec_action := no; dec_run := no; dec_toggle := no; dec_result := no; dec_terminate := no;
  dec_kill := no; dec_lvar_set := no; dec_lvar _ := Ok ((Lvar, "a"%string), None); dec_key := no; dec_key_value := no;
  dec_pvt_put v := p ← str v; Ok (p, "text"%string); dec_pvt_path := str; dec_pvt_list := no; dec_id := no;
  dec_struct_code := no; dec_login v := Ok (UserAuth "operator" "secret" None); dec_logout := no; dec_call := no;
  dec_ehmi := no; dec_ck := no; dec_string := str; dec_uuid := no; dec_compact := no; un_value := none;
  un_acl_params b := match b with [1%Z] => Ok (None, None, "operators"%string) | _ => Err EInvalidData end;
  un_filter := none; un_compact := none; un_svcs := none; un_map := none; DataObject := unit; un_dobj := none;
  dobj_without_oids d := d; TestInfo := unit; un_test := none; code_gen _ _ := Err EUnsupported;
  map_remove v _ := Some (None, v); map_insert v _ _ := v; map_empty _ := false; is_map _ := false;
  VMap _ := SUnit; as_map _ := None; VSeq _ := SUnit; into_seq_flatten v := v; VString := SStr;
  value_parse s := Ok (SStr s); value_display _ := ""%string; value_json _ := Ok ""%string; value_of_json _ := Ok SUnit;
  as_timestamp _ := Err EInvalidParams; auth_value _ _ := SUnit; acl_value := SStr; app_value _ := SUnit;
  pack_value _ := []; uuid_parse _ := Err EInvalidParams; uuid_to_string _ := ""%string;
  oid_parse_str _ := Err EInvalidParams; fill_parse _ := Ok tt; fill_seconds _ := tt; u32_parse _ := Err EInvalidParams;
  to_wildcard_oid _ := Err EInvalidParams; shlex_split _ := None; url_decode s := Some s
|}.
End sample.

#[local] Instance hmi_externals : HmiExternals bool :=
  sample_hmi bool (fun b => replicate 15 0%Z ++ [if b : bool then 1%Z else 0%Z])
    (fun l => match nth_error l 15 with Some z => Some (z =? 1)%Z | None => None end).
#[local] Instance hmi_laws : HmiLaws (Uuid := bool).
Proof.
  split.
  - intros []; (split; [done|]); repeat constructor; unfold is_u8; lia.
  - by intros [].
  - by intros a j [= <-].
  - done.
Qed.
#[local] Instance api_externals : ApiExternals (Uuid := bool) := sample_api bool _ _.
#[local] Instance url_laws : UrlLaws (Uuid := bool).
Proof. by split. Qed.

(** The service that authenticates knows the user, and the key [k1] of an
    administrator. *)
Definition bus (n : nat) (c : BusCall (Uuid := bool)) : BusReply :=
  match bc_payload c with
  | PAuthUser "operator" "secret" _ _ _ => inl [1%Z]
  | PAuthKey "k1" _ => inl [2%Z]
  | PLvar _ => inl []
  | _ => inr (EAccess, false)
  end.
Definition env : HmiEnv (Uuid := bool) :=
  mkHmiEnv (fun _ => Ok tt) EFailed (fun n => 1000 + Z.of_nat n)%Z bus
    (fun b => match b with [2%Z] => Ok "admin"%string | _ => Err EInvalidData end)
    (fun n => Nat.even n) (fun _ _ => Ok (replicate 16 97%Z)) 1 (fun _ => Ok tt)
    (Some (60 * NANOS_PER_SEC)%Z) true true true true ["eva.aaa.localauth"%string] true.
Definition cfg : ApiConfig :=
  mkApiConfig None (Some "/opt/eva4/pvt"%string) None false false "default" None 5000000000%Z 10 100
    (fun _ _ _ _ => Ok []) (fun _ => f64_zero).
Definition code (err : option Error) : Z := 0.
Definition show (m : OIDMask) : string := "".
Definition address : string := "10.0.0.1".
Definition login_request : HmiOp (Uuid := bool) :=
  HoCall "login" (Some SUnit) (mkMeta None None None None (Some address)).
Definition logged_in : Hmi (Uuid := bool) := hmi_run env cfg code show [login_request] hmi_start.
Definition token : string :=
  match map_to_list (db_tokens (hm_db logged_in)) with (id, _) :: _ => ("token:" +:+ id)%string | [] => "" end.
Definition admitted_as (user : string) : bool :=
  match (authenticate env token (Some address) logged_in).1 with
  | Ok a => match auth_user_of a with Some login => String.eqb login user | None => false end
  | Err _ => false
  end.
Lemma operator_admitted : (admitted_as "operator") = true.
Proof. vm_refl. Qed.

(** The operator, who has logged in with the password. *)
Lemma session_authentic_witness :
  exists a s' acl svc, authenticate env token (Some address) logged_in = (Ok a, s') /\
    auth_user_of a = Some "operator"%string /\ auth_acl a = Ok acl /\ answered env (hm_calls s') "operator" acl svc.
Proof.
  assert (authentic env (hmi_start (Uuid := bool))) as H0 by (intros id row Hr; cbn in Hr; by rewrite lookup_empty in Hr).
  pose proof operator_admitted as Ho. unfold admitted_as in Ho.
  destruct (authenticate env token (Some address) logged_in) as [[a|] s'] eqn:Ha; [|done].
  simpl in Ho. destruct (auth_user_of a) as [login|] eqn:Hl; [apply String.eqb_eq in Ho; subst login|done].
  unfold logged_in in Ha. pose proof (session_authentic env cfg code show [login_request] hmi_start token (Some address) a s' H0 Ha)
    as (login & acl & svc & Hu & Hacl & Hans & _).
  rewrite Hl in Hu. injection Hu as <-. exists a, s', acl, svc. exact (conj eq_refl (conj Hl (conj Hacl Hans))).
Defined.

(** From another address the token is refused. *)
Lemma session_bound_to_address :
  (authenticate env token (Some "10.0.0.2"%string) logged_in).1 = Err EAccess.
Proof. vm_refl. Qed.

(** An administrator may write variables, the operator may not. *)
Definition with_key (k : string) : Meta (Uuid := bool) := mkMeta (Some k) None None None (Some address).
Definition reset_by (k : string) := call env cfg code show "lvar.reset" (Some SUnit) (with_key k) logged_in.
Lemma reset_refused : (reset_by token).1 = Err EAccess /\ hm_calls (reset_by token).2 = hm_calls logged_in.
Proof. split; vm_refl. Qed.
Lemma reset_done : (reset_by "k1").1 = Ok ROk /\
  head (hm_calls (reset_by "k1").2) = Some (mkBusCall "eva.core" "lvar.reset" (PLvar (Lvar, "a"%string)), inl []).
Proof. split; vm_refl. Qed.

(** The operator stores a file in the shared directory; a path that leads out of
    the directory is refused, also for the administrator. *)
Definition put_by (k path : string) := call env cfg code show "pvt.put" (Some (SStr path)) (with_key k) logged_in.
Lemma private_files_confined_witness :
  hm_files (put_by token "shared/plan.txt").2 !! "/opt/eva4/pvt/shared/plan.txt"%string = Some "text"%string /\
  exists key a pvt path, presented_by "pvt.put" (Some (SStr "shared/plan.txt")) (with_key token) key /\
    (authenticate env key (me_ip (with_key token)) logged_in).1 = Ok a /\ cf_pvt_path cfg = Some pvt /\
    below pvt "/opt/eva4/pvt/shared/plan.txt" /\ writable a = true /\ check_pvt_write cfg a path = Ok true /\
    ("/opt/eva4/pvt/shared/plan.txt"%string = pvt /\ path = ""%string \/
     "/opt/eva4/pvt/shared/plan.txt"%string = path_extend pvt (rel_components path)).
Proof.
  assert (hm_files (put_by token "shared/plan.txt").2 !! "/opt/eva4/pvt/shared/plan.txt"%string = Some "text"%string)
    as Hput by vm_refl.
  split; [exact Hput|].
  apply (private_files_confined env cfg code show "pvt.put" (Some (SStr "shared/plan.txt")) (with_key token) logged_in
    "/opt/eva4/pvt/shared/plan.txt").
  change (hm_files (put_by token "shared/plan.txt").2 !! "/opt/eva4/pvt/shared/plan.txt"%string
    ≠ hm_files logged_in !! "/opt/eva4/pvt/shared/plan.txt"%string). rewrite Hput.
  assert (hm_files logged_in !! "/opt/eva4/pvt/shared/plan.txt"%string = None) as -> by vm_refl. done.
Defined.
Lemma traversal_refused : (put_by "k1" "../plan.txt").1 = Err EAccess.
Proof. vm_refl. Qed.

(** ** HTTP requests *)

#[local] Instance web_externals : WebExternals (Uuid := bool) := {|
  acl_check_rpvt_read a _ := admin a; acl_require_pvt_read a _ := need (admin a);
  json_vec _ := Ok []; yaml_vec _ := Ok []; json_value _ := Ok SUnit; yaml_value _ := Ok SUnit;
  bytes_of_str s := Z.of_nat ∘ nat_of_ascii <$> String.list_ascii_of_string s; utf8 _ := Ok ""%string;
  macro_of_str _ := Err EInvalidParams; wait_of_str _ := Err EInvalidParams; priority_of_str _ := Err EInvalidParams;
  run_params _ _ _ _ := Ok SUnit; upload_value _ _ _ _ _ := Ok SUnit; bytes_value := SBytes;
  cookie_parse _ := None; un_node_svc _ := Ok None; un_http b := Ok b; acl_pack _ := []; un_id := none;
  un_login_key := none; un_auth_info := none; un_log_filter := none
|}.
(** Two file systems: they differ in one file. *)
Definition files (secret : string) : Files :=
  mkFiles (fun _ => Ok (Some false)) (fun _ => true)
    (fun p => Ok (bytes_of_str (if String.eqb p "/etc/shadow" then secret else p))).
Definition web_env (secret : string) : WebEnv :=
  mkWebEnv (files secret) ∅ (fun _ => None) (fun _ _ => Err ENotFound) (fun _ v _ => Ok v) (fun _ => Err ENotFound)
    (fun _ => Err ENotFound) "plant" None None false None.
Definition get_private (secret path : string) :=
  serve_route env cfg (web_env secret) (route (web_env secret) MGet ("/pvt/" +:+ path)%string (Some {["k"%string := "k1"%string]}) false)
    ("/pvt/" +:+ path)%string (Some {["k"%string := "k1"%string]}) None address [] false hmi_start.
Lemma get_traversal_refused : (get_private "a" "../../../etc/shadow").1 = Err EAccess.
Proof. vm_refl. Qed.

(** Spaces at the end of a text are not kept: a part of the text is repeated
    before them. *)
Lemma convert_str_trailing : convert_str id "hello  " = "hellollo  "%string.
Proof. vm_refl. Qed.

(** ** Web sockets *)

(** A map of subscriptions: the clients, and who has subscribed to what. *)
#[local] Instance sub_lists : SubMaps positive := {|
  SubMap := list positive * list (string * positive);
  sub_new := ([], []);
  sub_register c m := (c :: m.1, m.2);
  sub_unregister c m := (filter (fun d => d ≠ c) m.1, filter (fun p => p.2 ≠ c) m.2);
  sub_subscribe t c m := (m.1, (t, c) :: m.2);
  sub_unsubscribe t c m := (m.1, filter (fun p => p ≠ (t, c)) m.2);
  sub_unsubscribe_all c m := (m.1, filter (fun p => p.2 ≠ c) m.2);
  sub_get t m := filter (fun c => (t, c) ∈ m.2) m.1;
  sub_clients m := m.1
|}.
#[local] Instance sub_list_laws : SubMapLaws positive.
Proof.
  split; simpl; [done| | |done..|].
  - intros c d m. apply elem_of_cons.
  - intros c d m. rewrite list_elem_of_filter. done.
  - intros t c m Hc. by apply list_elem_of_filter in Hc as [_ Hc].
Qed.
#[local] Instance ieid_total : IeidTotal.
Proof.
  split. simpl. unfold sieid_gtb. intros [a b] [c d]. simpl. intros H1 H2.
  apply orb_false_iff in H1 as [H1 H1'], H2 as [H2 H2']. apply Z.ltb_ge in H1, H2. assert (a = c) as -> by lia.
  rewrite Z.eqb_refl in *. simpl in *. apply Z.ltb_ge in H1', H2'. f_equal. lia.
Qed.
#[local] Instance ws_externals : WsExternals := {|
  FullState := OID * IEID; fs_oid st := st.1; fs_ieid st := st.2; state_value st := Ok (SStr st.1.2);
  un_local_state b i := match b with [t] => Ok (i, (1%Z, t)) | _ => Err EInvalidData end;
  un_remote_state b i := Err EInvalidData; un_states _ := Ok [((Sensor, "hall"%string), (1%Z, 4%Z))];
  un_blob _ := Err EInvalidData; un_log _ := Ok SUnit;
  oid_from_path p := Ok (Sensor, p); ws_mask_parse _ := Some (None, None); mask_as_path _ := "sensor/hall"%string;
  f64_parse _ := Some (f64_of_Z 1);
  ws_command s := Ok (s, Some SUnit); dec_stream _ := Err EInvalidParams; dec_masks _ := Ok ["#"%string];
  dec_u8 _ := Ok 0%Z; val_string := SStr; LOCAL_STATE_TOPIC := "ST/LOC/"; REMOTE_STATE_TOPIC := "ST/REM/";
  LOG_EVENT_TOPIC := "LOG/EV/"; AAA_ACL_TOPIC := "AAA/ACL/"; AAA_KEY_TOPIC := "AAA/KEY/"; AAA_USER_TOPIC := "AAA/USER/";
  LOG_LEVEL_INFO := 20; LOG_LEVEL_WARN := 30; LOG_LEVEL_ERROR := 40
|}.
#[local] Instance hmi_pos : HmiExternals positive := sample_hmi positive (fun _ => []) (fun _ => None).
#[local] Instance api_pos : ApiExternals (Uuid := positive) := sample_api positive (fun _ => []) (fun _ => None).
Definition ws_bus (n : nat) (c : BusCall (Uuid := positive)) : BusReply :=
  match bc_payload c with PAuthKey "k2" _ => inl [2%Z] | PStates _ _ _ => inl [] | _ => inr (EAccess, false) end.
Definition ws_env : HmiEnv (Uuid := positive) :=
  mkHmiEnv (fun _ => Ok tt) EFailed (fun n => 1000%Z) ws_bus
    (fun b => match b with [2%Z] => Ok "operators"%string | _ => Err EInvalidData end)
    (fun n => Pos.of_succ_nat n) (fun _ _ => Ok []) 1 (fun _ => Ok tt)
    (Some (60 * NANOS_PER_SEC)%Z) true true true true ["eva.aaa.localauth"%string] true.
Definition ws_cfg : ApiConfig :=
  mkApiConfig None None None false false "default" None 5000000000%Z 10 100 (fun _ _ _ _ => Ok []) (fun _ => f64_zero).

(** A client connects, asks for the states of a sensor and for the log; then come
    three events of the sensor, the last one late, and a log record. *)
Definition ws_ops : list (WebOp (Uuid := positive)) :=
  [WoConnect (Some {["k"%string := "k2"%string]}) None address true; WoTask 0;
   WoMessage 1%positive (MsgText "subscribe.state_initial"); WoMessage 1%positive (MsgText "subscribe.log");
   WoFrame "ST/LOC/hall" [5%Z]; WoFrame "ST/LOC/hall" [7%Z]; WoFrame "ST/LOC/hall" [6%Z];
   WoFrame "LOG/EV/info" []; WoTask 0].
Definition ws_world : Web (Uuid := positive) :=
  web_run ws_env Pos.of_succ_nat ws_cfg code show ws_ops (web_start hmi_start).
Definition ws_client : WsTx (Uuid := positive) := default (mkWsTx ANo [] 0 false ∅ true) (wb_tx ws_world !! 1%positive).

(** Three states and a pong through a sender with a buffer. *)
Definition hall_at (t : Z) : WsFrame := WText TState (Some (WdState ((Sensor, "hall"%string), (1%Z, t)) SUnit)).
Definition sender_evs : list SEvent :=
  [SFrame (hall_at 1) true; SFrame (hall_at 2) true; SFrame new_pong true; STick (fun _ => true); SFrame (hall_at 3) true].
End HmiExamples.
