(* ===== verification/Bytes.v ===== *)
(** * Bytes and texts

    What the code uses of the standard library on byte arrays: integers as
    little-endian bytes, texts as UTF-8, and splitting at a byte. *)
From Stdlib Require Import Ascii.
From S2P Require Import Prelude Password.
Open Scope Z_scope.

(** ** Integers *)

(** [to_le_bytes] of an integer of [k] bytes, and [from_le_bytes] *)
Fixpoint to_le_bytes (k : nat) (n : Z) : list Z :=
  match k with O => [] | S k' => n mod 256 :: to_le_bytes k' (n / 256) end.
Fixpoint from_le_bytes (bs : list Z) : Z :=
  match bs with [] => 0 | b :: bs' => b + 256 * from_le_bytes bs' end.
(** [i16::from_le_bytes] *)
Definition as_i16 (n : Z) : Z := if n <? 2 ^ 15 then n else n - 2 ^ 16.

Lemma to_le_bytes_length k n : length (to_le_bytes k n) = k.
Proof. revert n. by induction k as [|k IH]; intros n; simpl; f_equal. Qed.
Lemma to_le_bytes_u8 k n : Forall is_u8 (to_le_bytes k n).
Proof.
  revert n. induction k as [|k IH]; intros n; simpl; constructor; [|done].
  unfold is_u8. apply Z.mod_pos_bound. lia.
Qed.
Lemma from_to_le_bytes k n : from_le_bytes (to_le_bytes k n) = n mod 256 ^ Z.of_nat k.
Proof.
  revert n. induction k as [|k IH]; intros n; cbn [to_le_bytes from_le_bytes].
  - by rewrite Z.mod_1_r.
  - rewrite IH, Nat2Z.inj_succ, Z.pow_succ_r, Z.rem_mul_r by lia. lia.
Qed.
Lemma as_i16_bytes n : - 2 ^ 15 <= n < 2 ^ 15 -> as_i16 (from_le_bytes (to_le_bytes 2 n)) = n.
Proof.
  intros Hn. rewrite from_to_le_bytes. change (256 ^ Z.of_nat 2) with 65536. unfold as_i16.
  destruct (Z.ltb_spec n 0).
  - rewrite <-(Z.mod_unique n 65536 (-1) (n + 65536)) by lia.
    destruct (Z.ltb_spec (n + 65536) (2 ^ 15)); lia.
  - rewrite Z.mod_small by lia. destruct (Z.ltb_spec n (2 ^ 15)); lia.
Qed.

(** ** Texts *)

(** The bytes of a text are [as_bytes]; [str::from_utf8] accepts those that are
    UTF-8. *)
Definition string_of_bytes (b : list Z) : string :=
  String.string_of_list_ascii ((fun z => ascii_of_nat (Z.to_nat z)) <$> b).
Definition between (a b : Z) (x : Z) : bool := (a <=? x) && (x <=? b).
Definition continuation : Z -> bool := between 128 191.
Definition utf8_three (a b c : Z) : bool :=
  (between 224 239 a && (if a =? 224 then between 160 191 b else if a =? 237 then between 128 159 b else continuation b)
   && continuation c).
Definition utf8_four (a b c d : Z) : bool :=
  (between 240 244 a && (if a =? 240 then between 144 191 b else if a =? 244 then between 128 143 b else continuation b)
   && continuation c && continuation d).
Fixpoint utf8_valid (l : list Z) : bool :=
  match l with
  | [] => true
  | a :: l1 =>
      if between 0 127 a then utf8_valid l1
      else
        match l1 with
        | [] => false
        | b :: l2 =>
            if between 194 223 a && continuation b then utf8_valid l2
            else
              match l2 with
              | [] => false
              | c :: l3 =>
                  if utf8_three a b c then utf8_valid l3
                  else match l3 with [] => false | d :: l4 => utf8_four a b c d && utf8_valid l4 end
              end
        end
  end.
Definition from_utf8 (b : list Z) : EResult string :=
  if utf8_valid b then Ok (string_of_bytes b) else Err EInvalidData.

(** A Rust text: UTF-8, and (as names, identifiers and methods that are sent) without
    the zero byte. *)
Definition is_text (s : string) : Prop := utf8_valid (as_bytes s) = true.
Definition no_zero (b : list Z) : Prop := 0 ∉ b.
Definition is_word (s : string) : Prop := is_text s /\ no_zero (as_bytes s).
#[export] Instance is_text_dec s : Decision (is_text s).
Proof. unfold is_text. apply _. Defined.
#[export] Instance is_word_dec s : Decision (is_word s).
Proof. unfold is_word, no_zero. apply _. Defined.

Lemma string_of_as_bytes s : string_of_bytes (as_bytes s) = s.
Proof.
  unfold string_of_bytes, as_bytes. rewrite <-list_fmap_compose.
  rewrite (list_fmap_ext _ id); [by rewrite list_fmap_id, String.string_of_list_ascii_of_string|].
  intros i a _. simpl. by rewrite Nat2Z.id, ascii_nat_embedding.
Qed.
Lemma from_utf8_text s : is_text s -> from_utf8 (as_bytes s) = Ok s.
Proof. intros Hs. unfold from_utf8. by rewrite Hs, string_of_as_bytes. Qed.
Lemma as_bytes_length s : length (as_bytes s) = String.length s.
Proof. unfold as_bytes. rewrite length_fmap. by induction s; simpl; f_equal. Qed.
Lemma as_bytes_app s t : as_bytes (s +:+ t) = as_bytes s ++ as_bytes t.
Proof. unfold as_bytes. rewrite <- fmap_app. f_equal. induction s as [|c s IH]; [done|]. simpl. by f_equal. Qed.
Lemma as_bytes_nil s : as_bytes s = [] -> s = EmptyString.
Proof. by destruct s. Qed.

(** ** Splitting *)

(** [b.splitn(2, |v| *v == 0)]: what is before the first zero byte, and the rest *)
Fixpoint split_zero (b : list Z) : list Z * option (list Z) :=
  match b with
  | [] => ([], None)
  | x :: b' => if x =? 0 then ([], Some b') else let '(l, r) := split_zero b' in (x :: l, r)
  end.
Lemma split_zero_app a b : no_zero a -> split_zero (a ++ 0 :: b) = (a, Some b).
Proof.
  unfold no_zero. induction a as [|x a IH]; intros Ha; simpl; [done|].
  apply not_elem_of_cons in Ha as [Hx Ha]. rewrite IH by done.
  by destruct (Z.eqb_spec x 0) as [->|].
Qed.
Lemma split_zero_spec b l r :
  split_zero b = (l, r) ->
  no_zero l /\ match r with Some r => b = l ++ 0 :: r | None => b = l end.
Proof.
  unfold no_zero. revert l r. induction b as [|x b IH]; intros l r; simpl.
  - intros [= <- <-]. split; [apply not_elem_of_nil|done].
  - destruct (Z.eqb_spec x 0) as [->|Hx].
    + intros [= <- <-]. split; [apply not_elem_of_nil|done].
    + destruct (split_zero b) as [l' r'] eqn:E. intros [= <- <-].
      destruct (IH _ _ eq_refl) as [Hl Hr]. split; [by apply not_elem_of_cons|]. by destruct r' as [r'|]; simpl; f_equal.
Qed.
