(* ===== verification/Numbers.v ===== *)
(** * Numbers and texts

    What the code uses of the standard library to read numbers from text and
    to convert floats: [parse::<u64>], [parse::<i64>], [parse::<f64>], which
    rounds the decimal to the nearest float, and [as u64]. *)
From Stdlib Require Import SpecFloat.
From S2P Require Import Prelude Password Bytes.
Open Scope Z_scope.

(** [parse::<u64>] *)
Fixpoint parse_dec (acc : Z) (t : list Z) : option Z :=
  match t with
  | [] => Some acc
  | c :: t' =>
      if between 48 57 c then
        let acc := 10 * acc + (c - 48) in
        if acc <? 2 ^ 64 then parse_dec acc t' else None
      else None
  end.
Definition parse_u64 (t : list Z) : option Z :=
  match t with [] => None | 43 :: t' => match t' with [] => None | _ => parse_dec 0 t' end | _ => parse_dec 0 t end.

(** Digits in front of a text, as a number and how many *)
Fixpoint take_digits (acc : Z) (k : nat) (t : list Z) : Z * nat * list Z :=
  match t with
  | c :: t' => if between 48 57 c then take_digits (10 * acc + (c - 48)) (S k) t' else (acc, k, t)
  | [] => (acc, k, t)
  end.
(** [parse::<i64>] *)
Definition parse_i64 (t : list Z) : option Z :=
  let '(neg, t) := match t with 45 :: t' => (true, t') | 43 :: t' => (false, t') | _ => (false, t) end in
  match take_digits 0 0 t with
  | (n, S _, []) =>
      let n := if neg : bool then - n else n in
      if (i64_min <=? n) && (n <=? i64_max) then Some n else None
  | _ => None
  end.

(** The float nearest to [m * 10 ^ e] *)
Definition f64_of_decimal (neg : bool) (m e : Z) : f64 :=
  match m with
  | Z.pos p =>
      if 0 <=? e then binary_normalize 53 1024 ((if neg then -1 else 1) * m * 10 ^ e) 0 neg
      else SFdiv 53 1024 (S754_finite neg p 0) (S754_finite false (Z.to_pos (10 ^ (- e))) 0)
  | _ => S754_zero neg
  end.
Definition lower (c : Z) : Z := if between 65 90 c then c + 32 else c.
Definition parse_exponent (t : list Z) : option Z :=
  match t with
  | [] => Some 0
  | c :: t =>
      if lower c =? 101 then
        let '(neg, t) := match t with 45 :: t' => (true, t') | 43 :: t' => (false, t') | _ => (false, t) end in
        match take_digits 0 0 t with (n, S _, []) => Some (if neg : bool then - n else n) | _ => None end
      else None
  end.
(** [parse::<f64>] *)
Definition parse_f64 (t : list Z) : option f64 :=
  let '(neg, t) := match t with 45 :: t' => (true, t') | 43 :: t' => (false, t') | _ => (false, t) end in
  let name := lower <$> t in
  if bool_decide (name = as_bytes "inf") || bool_decide (name = as_bytes "infinity") then Some (S754_infinity neg)
  else if bool_decide (name = as_bytes "nan") then Some S754_nan
  else
    let '(n, k, t) := take_digits 0 0 t in
    let '(m, j, t) := match t with 46 :: t' => take_digits n 0 t' | _ => (n, O, t) end in
    match (k + j)%nat with
    | O => None
    | _ => e ← parse_exponent t; Some (f64_of_decimal neg m (e - Z.of_nat j))
    end.

(** [as u64] of a float: towards zero, and saturating *)
Definition f64_as_u64 (f : f64) : Z :=
  match f with
  | S754_finite false m e => Z.min (2 ^ 64 - 1) (Z.shiftl (Z.pos m) e)
  | S754_infinity false => 2 ^ 64 - 1
  | _ => 0
  end.

Example parse_f64_cases :
  parse_f64 (as_bytes "2.5") = Some (f64_div (f64_of_Z 5) (f64_of_Z 2)) /\
  parse_f64 (as_bytes "-1e3") = Some (f64_of_Z (-1000)) /\ parse_f64 (as_bytes ".5") = Some (f64_div (f64_of_Z 1) (f64_of_Z 2)) /\
  parse_f64 (as_bytes ".") = None /\ parse_f64 (as_bytes "1e") = None /\ parse_f64 (as_bytes "-INF") = Some (S754_infinity true) /\
  parse_f64 (as_bytes "0.1") = Some (f64_div (f64_of_Z 1) (f64_of_Z 10)).
Proof. split_and!; vm_refl. Qed.
