(* ===== verification/Psrpc.v ===== *)
(** * Remote calls over pub/sub (psrpc/src)

    Nodes call each other by messages of a pub/sub server (PSRT or MQTT).  A
    request and its reply have a header, and a payload that may be compressed and
    encrypted.  [RpcHandlers] is what a program that uses the crate provides; the
    compression, the ciphers and the encoding of values are those of other
    crates. *)
From S2P Require Import Prelude EvaCommon Password Bytes.
Open Scope Z_scope.

Inductive Cipher := Aes128GcmCipher | Aes256GcmCipher.
Definition cipher_key_size (c : Cipher) : nat := match c with Aes128GcmCipher => 16 | Aes256GcmCipher => 32 end.

Class PsrpcExternals `{Externals} (Uuid : Type) := {
  bzip2_encode : list Z -> EResult (list Z);
  bzip2_decode : list Z -> EResult (list Z);
  (* openssl::symm: the cipher, key, nonce and data; the digest is a [[u8; 16]] *)
  encrypt_aead : Cipher -> list Z -> list Z -> list Z -> EResult (list Z * list Z);
  decrypt_aead : Cipher -> list Z -> list Z -> list Z -> list Z -> EResult (list Z);
  (* eva_common::payload *)
  pack : Value -> EResult (list Z);
  unpack : list Z -> EResult Value;
  uuid_as_u128 : Uuid -> Z;
  uuid_from_u128 : Z -> Uuid;
  (* ErrorKind as i16, ErrorKind::from *)
  kind_code : Error -> Z;
  kind_of_code : Z -> Error
}.

(** What is sent can be read: decompression and decryption are the inverses, and
    encoded values, identifiers and errors are decoded again. *)
Class PsrpcLaws `{PsrpcExternals Uuid} : Prop := {
  bzip2_decode_encode b c : bzip2_encode b = Ok c -> bzip2_decode c = Ok b;
  decrypt_encrypt c k iv p x d : encrypt_aead c k iv p = Ok (x, d) -> decrypt_aead c k iv x d = Ok p;
  digest_size c k iv p x d : encrypt_aead c k iv p = Ok (x, d) -> length d = 16%nat;
  unpack_pack v b : pack v = Ok b -> unpack b = Ok v;
  pack_nonempty v b : pack v = Ok b -> b ≠ [];
  uuid_u128 u : 0 <= uuid_as_u128 u < 2 ^ 128;
  uuid_from_as u : uuid_from_u128 (uuid_as_u128 u) = u;
  kind_code_i16 k : - 2 ^ 15 <= kind_code k < 2 ^ 15;
  kind_of_kind_code k : k ≠ EPanic -> k ≠ ENever -> kind_of_code (kind_code k) = k
}.

Section psrpc.
Context `{Ext : Externals} `{Hash : HashExternals} {Uuid : Type} `{Countable Uuid} `{PExt : !PsrpcExternals Uuid}.

(** psrpc/src/lib.rs:16-18 (RPC_REQUEST, RPC_REPLY, RPC_ERROR) *)
Definition RPC_REQUEST : Z := 1.
Definition RPC_REPLY : Z := 17.
Definition RPC_ERROR : Z := 18.
(** psrpc/src/lib.rs:20-20 [PROTO_VERSION] *)
Definition PROTO_VERSION : Z := 1.

(** ** Options (psrpc/src/options.rs) *)

(** psrpc/src/options.rs:16-22 [Encryption] *)
Inductive Encryption := EncNo | Aes128Gcm | Aes256Gcm.
(** psrpc/src/options.rs:49-55 [Compression] *)
Inductive Compression := ComprNo | Bzip2.
#[export] Instance Encryption_eq_dec : EqDecision Encryption.
Proof. solve_decision. Defined.
#[export] Instance Compression_eq_dec : EqDecision Compression.
Proof. solve_decision. Defined.

(** psrpc/src/options.rs:25-31 [Encryption::code] *)
Definition encryption_code (e : Encryption) : Z := match e with EncNo => 0 | Aes128Gcm => 1 | Aes256Gcm => 2 end.
(** psrpc/src/options.rs:34-47 (TryFrom for Encryption) *)
Definition encryption_of (code : Z) : EResult Encryption :=
  if code =? 0 then Ok EncNo else if code =? 1 then Ok Aes128Gcm else if code =? 2 then Ok Aes256Gcm else Err EInvalidData.
Definition compression_code (c : Compression) : Z := match c with ComprNo => 0 | Bzip2 => 1 end.
(** psrpc/src/options.rs:57-69 (TryFrom for Compression) *)
Definition compression_of (code : Z) : EResult Compression :=
  if code =? 0 then Ok ComprNo else if code =? 1 then Ok Bzip2 else Err EInvalidData.
(** psrpc/src/options.rs:10-14 [parse_flags] *)
Definition parse_flags (flags : Z) : EResult (Encryption * Compression) :=
  encryption ← encryption_of (Z.land flags 15);
  compression ← compression_of (Z.land (Z.shiftr flags 4) 3);
  Ok (encryption, compression).

(** psrpc/src/options.rs:83-89 [Options] *)
Record Options := mkOptions {
  op_encryption : Encryption;
  op_compression : Compression;
  op_key_id : option string;
  op_key_hash : option (list Z)
}.
(** psrpc/src/options.rs:92-95 [Options::new] *)
Definition options_new : Options := mkOptions EncNo ComprNo None None.
(** psrpc/src/options.rs:96-117 [Options::encryption] *)
Definition with_encryption (encryption : Encryption) (id value : string) (o : Options) : Options :=
  let '(key_hash, key_id) :=
    match encryption with
    | EncNo => (None, None)
    | Aes128Gcm => (Some (take 16 (sha256 (as_bytes value))), Some id)
    | Aes256Gcm => (Some (sha256 (as_bytes value)), Some id)
    end in
  mkOptions encryption (op_compression o) key_id key_hash.
(** psrpc/src/options.rs:118-122 [Options::compression] *)
Definition with_compression (c : Compression) (o : Options) : Options :=
  mkOptions (op_encryption o) c (op_key_id o) (op_key_hash o).
(** psrpc/src/options.rs:123-126 [Options::flags] *)
Definition options_flags (o : Options) : Z :=
  Z.shiftl (compression_code (op_compression o)) 4 + encryption_code (op_encryption o).

(** genpass-native/src/lib.rs:52-54 [aes_gcm_nonce]: the nanoseconds of the clock,
    and eight random bytes *)
Definition aes_gcm_nonce (ns : Z) (rnd : EResult (list Z)) : EResult (list Z) :=
  buf ← rnd; Ok (to_le_bytes 4 (wrap 32 ns) ++ buf).

Definition encrypt (cip : Cipher) (key_hash : option (list Z)) (nonce : EResult (list Z)) (data : list Z)
    : EResult (list Z) :=
  key_hash ← ok_or key_hash EPanic;
  iv ← nonce;
  match encrypt_aead cip key_hash iv data with
  | Ok (buf, digest) => Ok (buf ++ digest ++ iv)
  | Err _ => Err EIo
  end.
(** psrpc/src/options.rs:134-193 [Options::pack_payload]; [nonce] is what
    [aes_gcm_nonce] gives *)
Definition pack_payload (o : Options) (nonce : EResult (list Z)) (payload : list Z) : EResult (list Z) :=
  data ← match op_compression o with ComprNo => Ok payload | Bzip2 => bzip2_encode payload end;
  match op_encryption o with
  | EncNo => Ok data
  | Aes128Gcm => encrypt Aes128GcmCipher (op_key_hash o) nonce data
  | Aes256Gcm => encrypt Aes256GcmCipher (op_key_hash o) nonce data
  end.

Definition decrypt (cip : Cipher) (key_hash : option (list Z)) (payload : list Z) : EResult (list Z) :=
  key_hash ← ok_or key_hash EPanic;
  let len := length payload in
  if (len <? 28)%nat then Err EInvalidData
  else
    let iv := drop (len - 12) payload in
    let encpl := take (len - 28) payload in
    let digest := take 16 (drop (len - 28) payload) in
    match decrypt_aead cip key_hash iv encpl digest with Ok d => Ok d | Err _ => Err EIo end.
(** psrpc/src/options.rs:197-258 [Options::unpack_payload] *)
Definition unpack_payload (o : Options) (message : list Z) (payload_pos : nat) : EResult (list Z) :=
  if (length message <? payload_pos)%nat then Err EInvalidData
  else
    let payload := drop payload_pos message in
    data ← match op_encryption o with
           | EncNo => Ok payload
           | Aes128Gcm => decrypt Aes128GcmCipher (op_key_hash o) payload
           | Aes256Gcm => decrypt Aes256GcmCipher (op_key_hash o) payload
           end;
    match op_compression o with ComprNo => Ok data | Bzip2 => bzip2_decode data end.

(** ** Messages *)

(** psrpc/src/pubsub.rs:3-6 [Message] *)
Record Message := mkMessage { ms_topic : string; ms_data : list Z }.

(** The result of a call, with the text of an error. *)
Inductive Outcome :=
  | Done (v : Value)
  | Failed (kind : Error) (message : option string).

(** psrpc/src/lib.rs:43-53 [RpcHandlers]; a handler that does not come to a result
    (it panics or is never answered) raises *)
Record RpcHandlers (St : Type) := mkHandlers {
  rh_message : Message -> M St unit;
  rh_call : option string -> string -> option Value -> M St Outcome;
  rh_key : string -> M St string
}.
#[global] Arguments mkHandlers {St} _ _ _.
#[global] Arguments rh_message {St} _.
#[global] Arguments rh_call {St} _.
#[global] Arguments rh_key {St} _.

(** *** The server *)

Definition reply_header (op : Z) (call_id : Uuid) : list Z :=
  [PROTO_VERSION; op; 0; 0] ++ to_le_bytes 16 (uuid_as_u128 call_id).
Definition reply_error (kind : Error) (message : option string) : list Z :=
  to_le_bytes 2 (kind_code kind) ++ match message with Some m => as_bytes m | None => [] end.
Definition reply_data (o : Options) (nonce : EResult (list Z)) (call_id : Uuid) (r : Outcome) : EResult (list Z) :=
  match r with
  | Done v =>
      b ← match pack v with Ok b => Ok b | Err _ => Err EInvalidData end;
      p ← pack_payload o nonce b;
      Ok (reply_header RPC_REPLY call_id ++ p)
  | Failed kind message =>
      p ← pack_payload o nonce (reply_error kind message);
      Ok (reply_header RPC_ERROR call_id ++ p)
  end.

(** The sender, the identifier of the key, and where the payload is
    (psrpc/src/lib.rs:142-162) *)
Definition parse_request (data : list Z) : EResult (string * list Z * nat) :=
  let '(s, rest) := split_zero (drop 5 data) in
  sender ← from_utf8 s;
  rest ← ok_or rest EInvalidData;
  let '(key_id, payload) := split_zero rest in
  _ ← ok_or payload EInvalidData;
  Ok (sender, key_id, (String.length sender + length key_id + 7)%nat).
(** The identifier of the call, the method and the parameters
    (psrpc/src/lib.rs:164-177) *)
Definition parse_call (payload : list Z) : EResult (Uuid * string * option Value) :=
  if (length payload <? 17)%nat then Err EInvalidData
  else
    let call_id := uuid_from_u128 (from_le_bytes (take 16 payload)) in
    let '(m, rest) := split_zero (drop 16 payload) in
    method ← from_utf8 m;
    params ← ok_or rest EInvalidData;
    match params with
    | [] => Ok (call_id, method, None)
    | _ :: _ =>
        match unpack params with Ok v => Ok (call_id, method, Some v) | Err _ => Err EInvalidData end
    end.

Section server.
Context {St : Type}.
Variable (h : RpcHandlers St).

(** psrpc/src/lib.rs:129-216 [handle_call]; returns the message that is published *)
Definition handle_call (nonce : EResult (list Z)) (node_rpc_topic : string) (message : Message) : M St Message :=
  let data := ms_data message in
  flags ← lift (ok_or (data !! 2%nat) EPanic);
  '(encryption, compression) ← lift (parse_flags flags);
  let opts := with_compression compression options_new in
  '(sender, key_id_payload, payload_pos) ← lift (parse_request data);
  '(opts, key_id) ←
    match encryption with
    | EncNo => mret (opts, None)
    | _ =>
        key_id ← lift (from_utf8 key_id_payload);
        key_value ← rh_key h key_id;
        mret (with_encryption encryption key_id key_value opts, Some key_id)
    end;
  payload ← lift (unpack_payload opts data payload_pos);
  '(call_id, method, params) ← lift (parse_call payload);
  r ← rh_call h key_id method params;
  reply ← lift (reply_data opts nonce call_id r);
  mret (mkMessage (node_rpc_topic +:+ sender) reply).
End server.

(** *** The client *)

(** psrpc/src/lib.rs:75-84 (ReplyKind, Reply) *)
Inductive ReplyKind := Success | ErrorReply.
Record Reply := mkReply { re_kind : ReplyKind; re_message : Message }.

(** The message of a request (psrpc/src/lib.rs:433-449) *)
Definition call_message (name : string) (o : Options) (nonce : EResult (list Z)) (node_rpc_topic target : string)
    (call_id : Uuid) (method : string) (params : option Value) : EResult Message :=
  let head := [PROTO_VERSION; RPC_REQUEST; options_flags o; 0; 0] ++ as_bytes name ++ [0] ++
    match op_key_id o with Some k => as_bytes k | None => [] end ++ [0] in
  p ← match params with
      | Some v => match pack v with Ok b => Ok b | Err _ => Err EInvalidData end
      | None => Ok []
      end;
  body ← pack_payload o nonce (to_le_bytes 16 (uuid_as_u128 call_id) ++ as_bytes method ++ [0] ++ p);
  Ok (mkMessage (node_rpc_topic +:+ target) (head ++ body)).
(** The reply (psrpc/src/lib.rs:468-488) *)
Definition call_reply (o : Options) (r : Reply) : EResult Outcome :=
  payload ← unpack_payload o (ms_data (re_message r)) 20;
  match re_kind r with
  | Success => match unpack payload with Ok v => Ok (Done v) | Err _ => Err EInvalidData end
  | ErrorReply =>
      if (length payload <? 2)%nat then Err EInvalidData
      else
        let kind := kind_of_code (as_i16 (from_le_bytes (take 2 payload))) in
        if (2 <? length payload)%nat then m ← from_utf8 (drop 2 payload); Ok (Failed kind (Some m))
        else Ok (Failed kind None)
  end.

(** ** The processor *)

(** The state of a client: the calls that wait, the replies they were sent, the
    topic the tester is armed with, and the state of the handlers. *)
Record Peer (St : Type) := mkPeer {
  pr_calls : gset Uuid;
  pr_replies : gmap Uuid Reply;
  pr_tester : option string;
  pr_state : St
}.
#[global] Arguments mkPeer {St} _ _ _ _.
#[global] Arguments pr_calls {St} _.
#[global] Arguments pr_replies {St} _.
#[global] Arguments pr_tester {St} _.
#[global] Arguments pr_state {St} _.

Section peer.
Context {St : Type}.
Variable (h : RpcHandlers St).
Implicit Types p : Peer St.

(** psrpc/src/lib.rs:95-110 [Tester::fire] *)
Definition tester_fire (topic : string) (payload : list Z) p : bool * Peer St :=
  if bool_decide (payload = [43]) && bool_decide (pr_tester p = Some topic)
  then (true, mkPeer (pr_calls p) (pr_replies p) None (pr_state p))
  else (false, p).
(** psrpc/src/lib.rs:111-115 [Tester::arm] *)
Definition tester_arm (topic : string) p : Peer St :=
  mkPeer (pr_calls p) (pr_replies p) (Some topic) (pr_state p).

Definition on_state {A} (m : M St A) : M (Peer St) A := fun p =>
  let '(r, s) := m (pr_state p) in (r, mkPeer (pr_calls p) (pr_replies p) (pr_tester p) s).

(** A call registers for its reply (psrpc/src/lib.rs:450-451) *)
Definition call_register (call_id : Uuid) p : Peer St :=
  mkPeer ({[ call_id ]} ∪ pr_calls p) (pr_replies p) (pr_tester p) (pr_state p).
(** A message that could not be sent (psrpc/src/lib.rs:452-467) *)
Definition call_cancel (call_id : Uuid) p : Peer St :=
  mkPeer (pr_calls p ∖ {[ call_id ]}) (pr_replies p) (pr_tester p) (pr_state p).

(** A reply (psrpc/src/lib.rs:260-280) *)
Definition process_reply (op : Z) (message : Message) : M (Peer St) unit :=
  let payload := ms_data message in
  if (length payload <? 22)%nat then mret tt
  else
    let call_id := uuid_from_u128 (from_le_bytes (take 16 (drop 4 payload))) in
    modify (fun p =>
      if bool_decide (call_id ∈ pr_calls p) then
        mkPeer (pr_calls p ∖ {[ call_id ]})
          (<[call_id := mkReply (if op =? RPC_REPLY then Success else ErrorReply) message]> (pr_replies p))
          (pr_tester p) (pr_state p)
      else p).
(** psrpc/src/lib.rs:218-288 [processor], one message; returns the reply that is
    published, if there is one.  The task of a request is run to its end. *)
Definition process (nonce : EResult (list Z)) (node_rpc_topic my_rpc_topic : string) (message : Message)
    : M (Peer St) (option Message) :=
  let payload := ms_data message in
  if String.eqb (ms_topic message) my_rpc_topic then
    match payload with
    | version :: op :: _ :: _ :: _ :: _ =>
        if negb (version =? PROTO_VERSION) then mret None
        else if op =? RPC_REQUEST then
          r ← attempt (on_state (handle_call h nonce node_rpc_topic message));
          mret (match r with Ok reply => Some reply | Err _ => None end)
        else if (op =? RPC_REPLY) || (op =? RPC_ERROR) then
          _ ← process_reply op message; mret None
        else mret None
    | _ => mret None
    end
  else
    fired ← (fun p => let '(b, p) := tester_fire (ms_topic message) payload p in (Ok b, p));
    if (fired : bool) then mret None
    else _ ← on_state (rh_message h message); mret None.
End peer.

(** ** The topic broker (psrpc/src/tools.rs) *)

(** psrpc/src/tools.rs:8-11 [Publication] *)
Record Publication := mkPublication { pb_subtopic_pos : nat; pb_message : Message }.
(** psrpc/src/tools.rs:25-28 [Publication::subtopic] *)
Definition subtopic (p : Publication) : string :=
  let t := ms_topic (pb_message p) in String.substring (pb_subtopic_pos p) (String.length t - pb_subtopic_pos p) t.

(** psrpc/src/tools.rs:40-44 [TopicBroker]; a channel is a number, and the prefixes
    are in the order of the map *)
Record TopicBroker := mkBroker { tb_prefixes : list (string * nat); tb_topics : gmap string nat }.
Definition broker_new : TopicBroker := mkBroker [] ∅.
(** psrpc/src/tools.rs:63-71 [TopicBroker::register_topic_tx] *)
Definition register_topic (topic : string) (tx : nat) (b : TopicBroker) : EResult TopicBroker :=
  match tb_topics b !! topic with
  | Some _ => Err EBusy
  | None => Ok (mkBroker (tb_prefixes b) (<[topic := tx]> (tb_topics b)))
  end.
Fixpoint insert_sorted (k : string) (v : nat) (l : list (string * nat)) : list (string * nat) :=
  match l with
  | [] => [(k, v)]
  | (k', v') :: l' => if String.ltb k k' then (k, v) :: l else (k', v') :: insert_sorted k v l'
  end.
(** psrpc/src/tools.rs:84-92 [TopicBroker::register_prefix_tx] *)
Definition register_prefix (prefix : string) (tx : nat) (b : TopicBroker) : EResult TopicBroker :=
  if bool_decide (prefix ∈ (tb_prefixes b).*1) then Err EBusy
  else Ok (mkBroker (insert_sorted prefix tx (tb_prefixes b)) (tb_topics b)).
(** psrpc/src/tools.rs:94-121 [TopicBroker::process]: the channel and what it is sent,
    or [None] when the message is returned *)
Definition broker_process (message : Message) (b : TopicBroker) : option (nat * Publication) :=
  let topic := ms_topic message in
  match tb_topics b !! topic with
  | Some tx => Some (tx, mkPublication 0 message)
  | None =>
      match list_find (fun pt : string * nat => String.prefix pt.1 topic = true) (tb_prefixes b) with
      | Some (_, (pfx, tx)) => Some (tx, mkPublication (String.length pfx) message)
      | None => None
      end
  end.
End psrpc.
#[global] Arguments Peer {Uuid _ _} St.
