(* ===== verification/PsrpcSpec.v ===== *)
(** * Remote calls over pub/sub: properties

    Payloads are read as they were packed, and a call gets the answer the handlers
    of the node it was sent to have given to that call, whatever the network loses,
    repeats or reorders. *)
From S2P Require Import Prelude EvaCommon Password Bytes Psrpc.
Open Scope Z_scope.

Section spec.
Context `{Ext : Externals} `{Hash : HashExternals} {Uuid : Type} `{Countable Uuid} `{PExt : !PsrpcExternals Uuid}.
Context `{Laws : !PsrpcLaws}.
Implicit Types (o : Options) (u : Uuid) (b : list Z).

(** ** Payloads *)

Lemma parse_flags_flags o : parse_flags (options_flags o) = Ok (op_encryption o, op_compression o).
Proof. by destruct o as [[] []]. Qed.

(** A nonce is a [[u8; 12]]. *)
Definition nonce_ok (nonce : EResult (list Z)) : Prop := forall iv, nonce = Ok iv -> length iv = 12%nat.
Lemma aes_gcm_nonce_ok ns rnd :
  (forall r, rnd = Ok r -> length r = 8%nat) -> nonce_ok (aes_gcm_nonce ns rnd).
Proof.
  intros Hr iv. unfold aes_gcm_nonce. destruct rnd as [r|] eqn:E; [|done]. intros [= <-].
  simpl. by rewrite (Hr r).
Qed.

Lemma decrypt_encrypt_payload cip kh nonce b c :
  nonce_ok nonce -> encrypt cip kh nonce b = Ok c -> decrypt cip kh c = Ok b.
Proof.
  intros Hn. unfold encrypt, decrypt. destruct kh as [k|]; [|done]. simpl.
  destruct nonce as [iv|]; [|done]. simpl. pose proof (Hn iv eq_refl) as Hiv.
  destruct (encrypt_aead cip k iv b) as [[x d]|] eqn:E; [|done]. intros [= <-].
  pose proof (digest_size _ _ _ _ _ _ E) as Hd.
  assert (length (x ++ d ++ iv) = length x + 28)%nat as Hl by (rewrite !length_app; lia).
  rewrite Hl, (proj2 (Nat.ltb_ge _ _)) by lia.
  replace (length x + 28 - 12)%nat with (length (x ++ d)) by (rewrite length_app; lia).
  replace (length x + 28 - 28)%nat with (length x) by lia.
  rewrite take_app_length, drop_app_length, <-Hd, take_app_length, app_assoc, drop_app_length.
  by rewrite (decrypt_encrypt _ _ _ _ _ _ E).
Qed.

(** What is packed is unpacked again, after any header. *)
Lemma unpack_pack_payload o nonce pre b c :
  nonce_ok nonce -> pack_payload o nonce b = Ok c -> unpack_payload o (pre ++ c) (length pre) = Ok b.
Proof.
  intros Hn. unfold pack_payload, unpack_payload.
  rewrite (proj2 (Nat.ltb_ge _ _)) by (rewrite length_app; lia). rewrite drop_app_length.
  destruct (match op_compression o with ComprNo => Ok b | Bzip2 => bzip2_encode b end) as [d|] eqn:Ec; [|done]. simpl.
  assert (match op_compression o with ComprNo => Ok d | Bzip2 => bzip2_decode d end = Ok b) as Hdc.
  { destruct (op_compression o); [congruence|]. by apply bzip2_decode_encode. }
  destruct (op_encryption o); [intros [= <-]; exact Hdc|..]; intros He;
    by rewrite (decrypt_encrypt_payload _ _ _ _ _ Hn He).
Qed.

(** ** A request at the server *)

(** The options of a call: those of a key of [keys], or none. *)
Definition opts_of (keys : string -> string) (o : Options) : Prop :=
  exists enc c id, o = with_encryption enc id (keys id) (with_compression c options_new) /\ is_word id.

Lemma opts_of_key keys o : opts_of keys o ->
  match op_key_id o with
  | Some id => is_word id /\ op_encryption o ≠ EncNo /\
      o = with_encryption (op_encryption o) id (keys id) (with_compression (op_compression o) options_new)
  | None => op_encryption o = EncNo /\ o = with_compression (op_compression o) options_new
  end.
Proof. by intros ([] & c & id & -> & Hid). Qed.

Definition key_bytes o : list Z := match op_key_id o with Some k => as_bytes k | None => [] end.
Definition request_head (name : string) o : list Z :=
  [PROTO_VERSION; RPC_REQUEST; options_flags o; 0; 0] ++ as_bytes name ++ [0] ++ key_bytes o ++ [0].
Lemma parse_request_head name o keys b :
  is_word name -> opts_of keys o ->
  parse_request (request_head name o ++ b) = Ok (name, key_bytes o, length (request_head name o)).
Proof.
  intros [Ht Hz] Ho%opts_of_key. unfold parse_request.
  assert (no_zero (key_bytes o)) as Hk.
  { unfold key_bytes. destruct (op_key_id o) as [id|]; [by destruct Ho as [[]]|]. apply not_elem_of_nil. }
  assert (drop 5 (request_head name o ++ b) = as_bytes name ++ 0 :: key_bytes o ++ 0 :: b) as ->.
  { unfold request_head. by rewrite <-!app_assoc. }
  rewrite split_zero_app, from_utf8_text by done. cbn -[split_zero]. rewrite split_zero_app by done. simpl.
  do 2 f_equal. unfold request_head. rewrite !length_app, as_bytes_length. cbn [length]. rewrite length_app. cbn [length]. lia.
Qed.

Definition call_payload u (method : string) (params : list Z) : list Z :=
  to_le_bytes 16 (uuid_as_u128 u) ++ as_bytes method ++ [0] ++ params.
Lemma uuid_of_bytes u : uuid_from_u128 (from_le_bytes (to_le_bytes 16 (uuid_as_u128 u))) = u.
Proof.
  rewrite from_to_le_bytes, Z.mod_small; [apply uuid_from_as|]. apply uuid_u128.
Qed.
Lemma parse_call_payload u method params p :
  is_word method ->
  match params with Some v => pack v = Ok p | None => p = [] end ->
  parse_call (call_payload u method p) = Ok (u, method, params).
Proof.
  intros [Ht Hz] Hp. unfold parse_call, call_payload.
  rewrite (proj2 (Nat.ltb_ge _ _)) by (rewrite !length_app, to_le_bytes_length; simpl; lia).
  assert (length (to_le_bytes 16 (uuid_as_u128 u)) = 16%nat) as Hl by apply to_le_bytes_length.
  rewrite take_app_length', uuid_of_bytes, drop_app_length' by done. cbn -[split_zero].
  rewrite split_zero_app by done. rewrite from_utf8_text by done. simpl.
  destruct params as [v|]; [|by subst]. destruct p as [|x p]; [by pose proof (pack_nonempty _ _ Hp)|].
  by rewrite (unpack_pack _ _ Hp).
Qed.

Section server.
Context {St : Type}.
Variables (h : RpcHandlers St) (keys : string -> string).
Implicit Types s : St.

(** The state in which the handlers are called, after the key was looked up. *)
Definition key_state (key_id : option string) s : St :=
  match key_id with Some id => (rh_key h id s).2 | None => s end.

(** The server does what the caller has asked for, and packs the answer with the
    options of the caller. *)
Definition serve_call (o : Options) (nonce' : EResult (list Z)) (reply_topic : string) u method params : M St Message :=
  _ ← match op_key_id o with Some id => rh_key h id | None => mret ""%string end;
  r ← rh_call h (op_key_id o) method params;
  d ← lift (reply_data o nonce' u r);
  mret (mkMessage reply_topic d).
Lemma handle_call_message name o nonce nonce' topic target u method params msg s :
  is_word name -> is_word method -> opts_of keys o -> nonce_ok nonce ->
  (forall id k s', op_key_id o = Some id -> rh_key h id s = (Ok k, s') -> k = keys id) ->
  call_message name o nonce topic target u method params = Ok msg ->
  handle_call h nonce' topic msg s = serve_call o nonce' (topic +:+ name) u method params s.
Proof.
  intros Hname Hm Ho Hn Hk Hmsg. pose proof (opts_of_key _ _ Ho) as Hkey. unfold call_message in Hmsg.
  destruct (match params with Some v => _ | None => _ end) as [p|] eqn:Ep; [|done]. cbv [mbind EResult_bind] in Hmsg.
  assert (match params with Some v => pack v = Ok p | None => p = [] end) as Hp.
  { destruct params as [v|]; [|by simplify_eq]. by destruct (pack v). }
  fold (call_payload u method p) in Hmsg.
  destruct (pack_payload o nonce (call_payload u method p)) as [body|] eqn:Eb; [|done].
  assert (msg = mkMessage (topic +:+ target) (request_head name o ++ body)) as -> by (by injection Hmsg).
  clear Hmsg Ep. unfold handle_call, serve_call. cbn [ms_data].
  rewrite run_bind. change ((request_head name o ++ body) !! 2%nat) with (Some (options_flags o)). cbn [ok_or].
  unfold lift at 1. rewrite run_bind. rewrite parse_flags_flags. unfold lift at 1. rewrite run_bind.
  rewrite (parse_request_head name o keys body) by done. unfold lift at 1.
  set (cont := fun x : Options * option string => _). set (cont' := fun _ : string => rh_call h (op_key_id o) method params ≫= _).
  assert (forall s1, cont (o, op_key_id o) s1 = cont' ""%string s1) as Hcont.
  { intros s1. unfold cont, cont'. rewrite run_bind.
    rewrite (unpack_pack_payload o nonce (request_head name o) _ body Hn Eb). unfold lift at 1.
    by rewrite run_bind, (parse_call_payload u method params p Hm Hp). }
  assert (forall k, cont' k = cont' ""%string) as Hcont' by done. clearbody cont cont'. rewrite !run_bind.
  unfold key_bytes in *. destruct (op_key_id o) as [id|] eqn:Eid.
  - destruct Hkey as ([Ht Hz] & Henc & Heq). destruct (op_encryption o) eqn:Ee; [done|..];
      rewrite run_bind, from_utf8_text by done; unfold lift at 1; rewrite run_bind;
      (destruct (rh_key h id s) as [[k|] s1] eqn:Ek; [|done]);
      rewrite run_ret, (Hk _ _ _ eq_refl Ek), <-Heq, Hcont; by rewrite (Hcont' (keys id)).
  - destruct Hkey as [Henc Heq]. by rewrite Henc, run_ret, <-Heq, Hcont.
Qed.
Lemma serve_call_answer o nonce' reply_topic u method params s reply s' :
  serve_call o nonce' reply_topic u method params s = (Ok reply, s') ->
  exists r d, rh_call h (op_key_id o) method params (key_state (op_key_id o) s) = (Ok r, s') /\
    reply_data o nonce' u r = Ok d /\ reply = mkMessage reply_topic d.
Proof.
  unfold serve_call, key_state. rewrite run_bind.
  assert (match op_key_id o with Some id => rh_key h id | None => mret ""%string end s =
    (match op_key_id o with Some id => (rh_key h id s).1 | None => Ok ""%string end,
     match op_key_id o with Some id => (rh_key h id s).2 | None => s end)) as ->
    by (destruct (op_key_id o); [by destruct (rh_key h _ s)|done]).
  destruct (match op_key_id o with Some id => (rh_key h id s).1 | None => _ end); [|done].
  rewrite run_bind. destruct (rh_call h _ _ _ _) as [[r|] s2]; [|done]. rewrite run_bind.
  destruct (reply_data o nonce' u r) as [d|] eqn:Ed; [|done]. intros [= <- <-]. by exists r, d.
Qed.
End server.

(** ** A reply at the client *)

(** The kinds of errors that can be sent, and the texts of their messages. *)
Definition outcome_ok (r : Outcome) : Prop :=
  match r with
  | Done _ => True
  | Failed k m => k ≠ EPanic /\ k ≠ ENever /\ match m with Some m => is_text m | None => True end
  end.
(** An empty message is no message. *)
Definition delivered (r : Outcome) : Outcome :=
  match r with
  | Failed k (Some "") => Failed k None
  | _ => r
  end.

Definition reply_op (r : Outcome) : Z := match r with Done _ => RPC_REPLY | Failed _ _ => RPC_ERROR end.
Lemma reply_header_length op u : length (reply_header op u) = 20%nat.
Proof. unfold reply_header. by rewrite length_app, to_le_bytes_length. Qed.
(** The reply, up to the encoding of its payload. *)
Lemma reply_data_eq o nonce u r d : reply_data o nonce u r = Ok d ->
  exists b p, d = reply_header (reply_op r) u ++ p /\ pack_payload o nonce b = Ok p /\
    match r with Done v => pack v = Ok b | Failed k m => b = reply_error k m end.
Proof.
  unfold reply_data. destruct r as [v|k m].
  - destruct (pack v) as [b|] eqn:Ev; [|done]. cbv [mbind EResult_bind].
    destruct (pack_payload o nonce b) as [p|] eqn:Ep; [|done]. intros [= <-]. by exists b, p.
  - cbv [mbind EResult_bind]. destruct (pack_payload o nonce (reply_error k m)) as [p|] eqn:Ep; [|done].
    intros [= <-]. by exists (reply_error k m), p.
Qed.

Lemma call_reply_data o nonce u r d topic :
  nonce_ok nonce -> outcome_ok r -> reply_data o nonce u r = Ok d ->
  call_reply o (mkReply (if reply_op r =? RPC_REPLY then Success else ErrorReply) (mkMessage topic d)) =
    Ok (delivered r).
Proof.
  intros Hn Hr (b & p & -> & Hp & Hb)%reply_data_eq. unfold call_reply. cbn [re_message ms_data re_kind].
  rewrite <-(reply_header_length (reply_op r) u), (unpack_pack_payload _ _ _ _ _ Hn Hp).
  cbv [mbind EResult_bind]. destruct r as [v|k m]; cbn [reply_op].
  - by rewrite (unpack_pack _ _ Hb).
  - subst b. destruct Hr as (Hk1 & Hk2 & Hm). unfold reply_error.
    set (c := to_le_bytes 2 (kind_code k)). assert (length c = 2%nat) as Hc by apply to_le_bytes_length.
    change (RPC_ERROR =? RPC_REPLY) with false. cbn iota.
    rewrite (proj2 (Nat.ltb_ge _ _)) by (rewrite length_app; lia).
    rewrite take_app_length', drop_app_length' by done. subst c. rewrite as_i16_bytes by apply kind_code_i16.
    rewrite kind_of_kind_code by done.
    destruct m as [m|]; [|by rewrite app_nil_r, to_le_bytes_length].
    destruct m as [|a m]; [done|]. rewrite (proj2 (Nat.ltb_lt _ _)).
    + by rewrite from_utf8_text.
    + rewrite length_app, to_le_bytes_length, as_bytes_length. simpl. lia.
Qed.

(** ** The network *)

Section network.
Context {St : Type}.
Variables (h : string -> RpcHandlers St) (keys : string -> string) (topic : string).

Abbreviation Peer := (Psrpc.Peer (Uuid := Uuid) St).
(** The nodes, and all messages that were published so far. *)
Record Net := mkNet { nt_peers : gmap string Peer; nt_sent : list Message }.
Implicit Types n : Net.

(** A call that is made; a message that is delivered to a node, any one of those
    that were sent, once more or not at all; a call that is given up; and what
    a node does on its own. *)
Inductive NetOp :=
  | NCall (from target : string) (o : Options) (nonce : EResult (list Z)) (u : Uuid) (method : string)
      (params : option Value)
  | NDeliver (to : string) (i : nat) (nonce : EResult (list Z))
  | NCancel (from : string) (u : Uuid)
  | NTest (who : string) (topic : string)
  | NLocal (who : string) (m : M St unit).

Definition on_peer (who : string) (f : Peer -> Peer) n : Net :=
  mkNet (alter f who (nt_peers n)) (nt_sent n).
Definition net_step (op : NetOp) n : Net :=
  match op with
  | NCall from target o nonce u method params =>
      match call_message from o nonce topic target u method params with
      | Ok msg =>
          let n := on_peer from (call_register u) n in mkNet (nt_peers n) (nt_sent n ++ [msg])
      | Err _ => n
      end
  | NDeliver to i nonce =>
      match nt_peers n !! to, nt_sent n !! i with
      | Some p, Some msg =>
          let '(r, p') := process (h to) nonce topic (topic +:+ to) msg p in
          mkNet (<[to := p']> (nt_peers n)) (nt_sent n ++ match r with Ok (Some reply) => [reply] | _ => [] end)
      | _, _ => n
      end
  | NCancel from u => on_peer from (call_cancel u) n
  | NTest who t => on_peer who (tester_arm t) n
  | NLocal who m => on_peer who (fun p => (on_state m p).2) n
  end.
Definition net_run (ops : list NetOp) n : Net := foldl (fun n op => net_step op n) n ops.

(** All nodes have just started. *)
Definition net_start (nodes : gmap string St) : Net := mkNet (mkPeer ∅ ∅ None <$> nodes) [].

Definition calls_of (ops : list NetOp) : list Uuid :=
  omap (fun op => match op with NCall _ _ _ _ u _ _ => Some u | _ => None end) ops.
Definition op_ok (op : NetOp) : Prop :=
  match op with
  | NCall from _ o nonce _ method _ => is_word from /\ opts_of keys o /\ nonce_ok nonce /\ is_word method
  | NDeliver _ _ nonce => nonce_ok nonce
  | _ => True
  end.
(** The node [to] has answered with [r], in a state it was in during the run. *)
Definition answered_by nodes ops (to : string) (key_id : option string) (method : string) (params : option Value)
    (r : Outcome) : Prop :=
  exists ops1 i nonce ops2 p s', ops = ops1 ++ NDeliver to i nonce :: ops2 /\
    nt_peers (net_run ops1 (net_start nodes)) !! to = Some p /\
    rh_call (h to) key_id method params (key_state (h to) key_id (pr_state p)) = (Ok r, s').

Section faithful.
Implicit Types (ops : list NetOp) (msg : Message).
Variables (nodes : gmap string St).
Hypothesis (keys_agree : forall who id s k s', rh_key (h who) id s = (Ok k, s') -> k = keys id).
Hypothesis (outcomes_ok : forall who id m ps s r s', rh_call (h who) id m ps s = (Ok r, s') -> outcome_ok r).

Definition request_sent ops msg : Prop :=
  exists from target o nonce u m ps, NCall from target o nonce u m ps ∈ ops /\
    call_message from o nonce topic target u m ps = Ok msg.
Definition reply_of ops (from : string) u r msg : Prop :=
  exists target o nonce m ps nonce' d, NCall from target o nonce u m ps ∈ ops /\
    answered_by nodes ops target (op_key_id o) m ps r /\ nonce_ok nonce' /\ reply_data o nonce' u r = Ok d /\
    msg = mkMessage (topic +:+ from) d.
Definition reply_kind (r : Outcome) : ReplyKind := if reply_op r =? RPC_REPLY then Success else ErrorReply.
Record net_inv ops n : Prop := {
  ni_sent msg : msg ∈ nt_sent n -> request_sent ops msg \/ exists from u r, reply_of ops from u r msg;
  ni_replies who p u rep : nt_peers n !! who = Some p -> pr_replies p !! u = Some rep ->
    exists r, reply_of ops who u r (re_message rep) /\ re_kind rep = reply_kind r
}.

Lemma answered_by_app ops ops' to k m ps r :
  answered_by nodes ops to k m ps r -> answered_by nodes (ops ++ ops') to k m ps r.
Proof.
  intros (ops1 & i & nonce & ops2 & p & s' & -> & Hp & Hr). exists ops1, i, nonce, (ops2 ++ ops'), p, s'.
  by rewrite <-app_assoc.
Qed.
Lemma request_sent_app ops ops' msg : request_sent ops msg -> request_sent (ops ++ ops') msg.
Proof.
  intros (from & target & o & nonce & u & m & ps & Hin & Hm). exists from, target, o, nonce, u, m, ps.
  split; [apply elem_of_app; by left|done].
Qed.
Lemma reply_of_app ops ops' from u r msg : reply_of ops from u r msg -> reply_of (ops ++ ops') from u r msg.
Proof.
  intros (target & o & nonce & m & ps & nonce' & d & Hin & Ha & Hr). exists target, o, nonce, m, ps, nonce', d.
  split; [apply elem_of_app; by left|]. split; [by apply answered_by_app|done].
Qed.
Lemma net_inv_app ops ops' n : net_inv ops n -> net_inv (ops ++ ops') n.
Proof.
  intros [Hs Hr]. split.
  - intros msg [Hq|(from & u & r & Hq)]%Hs; [left; by apply request_sent_app|right].
    exists from, u, r. by apply reply_of_app.
  - intros who p u rep Hp Hu. destruct (Hr _ _ _ _ Hp Hu) as (r & Hq & Hk). exists r. split; [by apply reply_of_app|done].
Qed.

(** A change of a node that does not touch its replies. *)
Lemma net_inv_peer ops n who p p' :
  nt_peers n !! who = Some p -> pr_replies p' = pr_replies p -> net_inv ops n ->
  net_inv ops (mkNet (<[who := p']> (nt_peers n)) (nt_sent n)).
Proof.
  intros Hp Hr [Hs Hi]. split; [done|]. simpl. intros who' q u rep Hq Hu.
  destruct (decide (who = who')) as [<-|Hne].
  - rewrite lookup_insert_eq in Hq. injection Hq as <-. rewrite Hr in Hu. by eapply Hi.
  - rewrite lookup_insert_ne in Hq by done. by eapply Hi.
Qed.
Lemma net_inv_on_peer ops n who f :
  (forall p, pr_replies (f p) = pr_replies p) -> net_inv ops n -> net_inv ops (on_peer who f n).
Proof.
  intros Hf [Hs Hi]. split; [done|]. simpl. intros who' q u rep Hq Hu.
  apply lookup_alter_Some in Hq as [(-> & p & Hp & ->)|[_ Hq]]; [|by eapply Hi]. rewrite Hf in Hu. by eapply Hi.
Qed.
Lemma net_inv_send ops n msg :
  (request_sent ops msg \/ exists from u r, reply_of ops from u r msg) -> net_inv ops n ->
  net_inv ops (mkNet (nt_peers n) (nt_sent n ++ [msg])).
Proof.
  intros Hm [Hs Hi]. split; [|done]. simpl. intros msg' [Hm'|Hm']%elem_of_app; [by apply Hs|].
  by apply list_elem_of_singleton in Hm' as ->.
Qed.

Lemma on_state_replies {A} (m : M St A) (p : Peer) : pr_replies (on_state m p).2 = pr_replies p.
Proof. unfold on_state. by destruct (m (pr_state p)). Qed.

(** A message on another topic. *)
Lemma process_other who nonce my msg (p : Peer) :
  ms_topic msg ≠ my ->
  pr_replies (process (h who) nonce topic my msg p).2 = pr_replies p /\
  forall reply, (process (h who) nonce topic my msg p).1 ≠ Ok (Some reply).
Proof.
  intros Ht. unfold process. rewrite (proj2 (String.eqb_neq _ _)) by done. rewrite run_bind.
  unfold tester_fire. destruct (_ && _); [done|]. rewrite run_bind.
  pose proof (on_state_replies (rh_message (h who) msg) p) as Hr.
  by destruct (on_state _ p) as [[]].
Qed.

Lemma topic_inj (a b : string) : (topic +:+ a = topic +:+ b)%string -> a = b.
Proof. induction topic as [|c t IH]; simpl; [done|]. intros [= E]. by apply IH. Qed.

(** A request that arrives. *)
Definition is_request msg : Prop :=
  exists (a b c : Z) l, ms_data msg = PROTO_VERSION :: RPC_REQUEST :: a :: b :: c :: l.
Lemma process_request who nonce msg (p : Peer) :
  is_request msg ->
  ms_topic msg = (topic +:+ who)%string ->
  pr_replies (process (h who) nonce topic (topic +:+ who) msg p).2 = pr_replies p /\
  forall reply, (process (h who) nonce topic (topic +:+ who) msg p).1 = Ok (Some reply) ->
    exists s', handle_call (h who) nonce topic msg (pr_state p) = (Ok reply, s').
Proof.
  intros (a & b & c & l & Hd) Ht. unfold process. rewrite Ht, String.eqb_refl, Hd.
  change (negb (PROTO_VERSION =? PROTO_VERSION)) with false. change (RPC_REQUEST =? RPC_REQUEST) with true. cbn iota.
  rewrite run_bind. unfold attempt, on_state.
  destruct (handle_call (h who) nonce topic msg (pr_state p)) as [[r|] s']; rewrite run_ret; split; try done.
  intros reply [= <-]. by exists s'.
Qed.
Lemma request_data from o nonce target u m ps msg :
  call_message from o nonce topic target u m ps = Ok msg ->
  ms_topic msg = (topic +:+ target)%string /\
  is_request msg.
Proof.
  unfold call_message. destruct (match ps with Some v => _ | None => _ end) as [p|]; [|done]. cbv [mbind EResult_bind].
  destruct (pack_payload o nonce _) as [body|]; [|done]. intros [= <-]. split; [done|]. by eexists _, _, _, _.
Qed.

(** A reply that arrives. *)
Lemma process_is_reply who nonce op x l (p : Peer) :
  op = RPC_REPLY \/ op = RPC_ERROR ->
  let msg := mkMessage (topic +:+ who) (PROTO_VERSION :: op :: 0 :: 0 :: x :: l) in
  process (h who) nonce topic (topic +:+ who) msg p = (Ok None, (process_reply op msg p).2).
Proof.
  intros Hop msg. unfold process. cbn [ms_topic ms_data msg]. rewrite String.eqb_refl.
  change (negb (PROTO_VERSION =? PROTO_VERSION)) with false. cbn iota.
  assert ((op =? RPC_REQUEST) = false /\ (op =? RPC_REPLY) || (op =? RPC_ERROR) = true) as [-> ->] by (by destruct Hop as [->| ->]).
  rewrite run_bind. subst msg. unfold process_reply. by destruct (_ <? _)%nat.
Qed.
Definition take_reply u (rep : Reply) (p : Peer) : Peer :=
  if bool_decide (u ∈ pr_calls p)
  then mkPeer (pr_calls p ∖ {[ u ]}) (<[u := rep]> (pr_replies p)) (pr_tester p) (pr_state p)
  else p.
Lemma process_answer who nonce o nonce' u r d (p : Peer) :
  reply_data o nonce' u r = Ok d ->
  let msg := mkMessage (topic +:+ who) d in
  process (h who) nonce topic (topic +:+ who) msg p =
    (Ok None, if (22 <=? length d)%nat then take_reply u (mkReply (reply_kind r) msg) p else p).
Proof.
  intros (b & pl & Hd & _ & _)%reply_data_eq msg.
  assert (exists x l, d = PROTO_VERSION :: reply_op r :: 0 :: 0 :: x :: l) as (x & l & Hd') by (subst d; by eexists _, _).
  assert (take 16 (drop 4 d) = to_le_bytes 16 (uuid_as_u128 u)) as Hu.
  { subst d. unfold reply_header. rewrite <-app_assoc.
    change (take 16 (to_le_bytes 16 (uuid_as_u128 u) ++ pl) = to_le_bytes 16 (uuid_as_u128 u)).
    apply take_app_length'. by rewrite to_le_bytes_length. }
  assert (process (h who) nonce topic (topic +:+ who) msg p = (Ok None, (process_reply (reply_op r) msg p).2)) as ->.
  { subst msg. rewrite Hd'. apply process_is_reply. destruct r; [by left|by right]. }
  f_equal. unfold process_reply. cbn [ms_data msg]. rewrite Nat.ltb_antisym.
  destruct (22 <=? length d)%nat; [|done]. unfold modify. by rewrite Hu, uuid_of_bytes.
Qed.
Lemma take_reply_replies u rep (p : Peer) :
  pr_replies (take_reply u rep p) = pr_replies p \/ pr_replies (take_reply u rep p) = <[u := rep]> (pr_replies p).
Proof. unfold take_reply. case_bool_decide; [by right|by left]. Qed.

(** ** Runs *)

Lemma net_deliver ops n to i nonce :
  Forall op_ok ops -> nonce_ok nonce -> n = net_run ops (net_start nodes) -> net_inv ops n ->
  net_inv (ops ++ [NDeliver to i nonce]) (net_step (NDeliver to i nonce) n).
Proof.
  intros Hok Hn Hrun Hi. pose proof (net_inv_app _ [NDeliver to i nonce] _ Hi) as Hi'. simpl.
  destruct (nt_peers n !! to) as [p|] eqn:Hp; [|done]. destruct (nt_sent n !! i) as [msg|] eqn:Hmsg; [|done].
  destruct (process (h to) nonce topic (topic +:+ to) msg p) as [res p'] eqn:Epr.
  assert (pr_replies p' = pr_replies p -> forall l, l = [] \/ (exists reply, l = [reply] /\
    exists from u r, reply_of (ops ++ [NDeliver to i nonce]) from u r reply) ->
    net_inv (ops ++ [NDeliver to i nonce]) (mkNet (<[to := p']> (nt_peers n)) (nt_sent n ++ l))) as Hsame.
  { intros Hr l Hl. pose proof (net_inv_peer _ _ _ _ p' Hp Hr Hi') as Hi2.
    destruct Hl as [->|(reply & -> & Hl)]; [by rewrite app_nil_r|]. eapply (net_inv_send _ (mkNet _ _)); [by right|done]. }
  destruct (decide (ms_topic msg = (topic +:+ to)%string)) as [Ht|Ht].
  2:{ destruct (process_other to nonce _ _ p Ht) as [Hr Hno]. rewrite Epr in Hr, Hno. simpl in Hr, Hno.
      apply Hsame; [done|]. left. destruct res as [[reply|]|]; [|done..]. by destruct (Hno reply). }
  apply list_elem_of_lookup_2 in Hmsg. destruct (ni_sent _ _ Hi _ Hmsg) as [Hq|(from & u & r & Hq)].
  - destruct Hq as (from & target & o & nonce0 & u & m & ps & Hin & Hcm).
    destruct (request_data _ _ _ _ _ _ _ _ Hcm) as [Ht' Hreq]. rewrite Ht in Ht'. apply topic_inj in Ht' as <-.
    destruct (process_request to nonce msg p Hreq Ht) as [Hr Hh]. rewrite Epr in Hr, Hh. simpl in Hr, Hh.
    apply Hsame; [done|]. destruct res as [[reply|]|]; [|by left..]. right. exists reply. split; [done|].
    destruct (Hh reply eq_refl) as [s' Hhc]. exists from, u.
    pose proof (proj1 (Forall_forall _ _) Hok _ Hin) as (Hfrom & Ho & Hn0 & Hm).
    rewrite (handle_call_message (h to) keys from o nonce0 nonce topic to u m ps msg (pr_state p) Hfrom Hm Ho Hn0
      (fun id k s1 _ => keys_agree to id (pr_state p) k s1) Hcm) in Hhc.
    apply serve_call_answer in Hhc as (r & d & Hc & Hd & ->).
    exists r, to, o, nonce0, m, ps, nonce, d. split; [apply elem_of_app; by left|].
    split; [|done]. exists ops, i, nonce, [], p, s'. rewrite <-Hrun. done.
  - destruct Hq as (target & o & nonce0 & m & ps & nonce' & d & Hin & Ha & Hn' & Hd & ->).
    simpl in Ht. apply topic_inj in Ht as ->.
    rewrite (process_answer to nonce o nonce' u r d p Hd) in Epr.
    destruct (22 <=? length d)%nat; injection Epr as <- <-; rewrite app_nil_r; [|exact (net_inv_peer _ _ _ _ _ Hp eq_refl Hi')].
    set (msg := mkMessage (topic +:+ to) d) in *. set (p' := take_reply u (mkReply (reply_kind r) msg) p) in *.
    destruct (take_reply_replies u (mkReply (reply_kind r) msg) p) as [Hr|Hr]; fold p' in Hr;
      [exact (net_inv_peer _ _ _ _ _ Hp Hr Hi')|].
    split; [apply (ni_sent _ _ Hi')|]. simpl. intros who q u' rep Hq Hu'.
    destruct (decide (to = who)) as [<-|Hne].
    2:{ rewrite lookup_insert_ne in Hq by done. by apply (ni_replies _ _ Hi' _ _ _ _ Hq). }
    rewrite lookup_insert_eq in Hq. injection Hq as <-. rewrite Hr in Hu'.
    destruct (decide (u = u')) as [<-|Hne].
    2:{ rewrite lookup_insert_ne in Hu' by done. by apply (ni_replies _ _ Hi' _ _ _ _ Hp). }
    rewrite lookup_insert_eq in Hu'. injection Hu' as <-. exists r. split; [|done].
    apply reply_of_app. by exists target, o, nonce0, m, ps, nonce', d.
Qed.

Lemma net_run_inv ops : Forall op_ok ops -> net_inv ops (net_run ops (net_start nodes)).
Proof.
  induction ops as [|op ops IH] using rev_ind; intros Hok.
  - split; simpl; [intros msg Hm; by apply elem_of_nil in Hm|]. intros who p u rep Hp Hu.
    apply lookup_fmap_Some in Hp as (s & <- & _). simpl in Hu. by rewrite lookup_empty in Hu.
  - apply Forall_app in Hok as [Hok Hop]. rewrite Forall_singleton in Hop. specialize (IH Hok).
    unfold net_run. rewrite foldl_app. cbn [foldl]. fold (net_run ops (net_start nodes)).
    destruct op as [from target o nonce u m ps|to i nonce|from u|who t|who m].
    + pose proof (net_inv_app _ [NCall from target o nonce u m ps] _ IH) as Hi. simpl.
      destruct (call_message from o nonce topic target u m ps) as [msg|] eqn:Em; [|done].
      apply (net_inv_send _ (on_peer _ _ _)); [left|by apply net_inv_on_peer].
      exists from, target, o, nonce, u, m, ps. split; [apply elem_of_app; right; by apply list_elem_of_singleton|done].
    + exact (net_deliver ops _ to i nonce Hok Hop eq_refl IH).
    + by apply net_inv_on_peer, net_inv_app.
    + by apply net_inv_on_peer, net_inv_app.
    + apply net_inv_on_peer; [apply on_state_replies|by apply net_inv_app].
Qed.

(** The identifier of a call is that of no other call. *)
Lemma calls_unique ops op op' u :
  NoDup (calls_of ops) -> op ∈ ops -> op' ∈ ops ->
  match op with NCall _ _ _ _ u _ _ => Some u | _ => None end = Some u ->
  match op' with NCall _ _ _ _ u _ _ => Some u | _ => None end = Some u -> op = op'.
Proof.
  intros Hnd Hin Hin' Hu Hu'. unfold calls_of in Hnd. set (f := fun op => _) in Hnd.
  assert (forall x, x ∈ ops -> f x = Some u -> u ∈ omap f ops) as Hf by (intros; apply list_elem_of_omap; eauto).
  clear - Hnd Hin Hin' Hu Hu' f. induction ops as [|y ops IH]; [by apply elem_of_nil in Hin|].
  assert (forall x, x ∈ ops -> f x = Some u -> u ∈ omap f ops) as Hf by (intros; apply list_elem_of_omap; eauto).
  simpl in Hnd. apply elem_of_cons in Hin as [->|Hin], Hin' as [->|Hin']; [done|..].
  - change (f y = Some u) in Hu. rewrite Hu in Hnd. apply NoDup_cons in Hnd as [Hni _]. by destruct Hni; eapply Hf.
  - change (f y = Some u) in Hu'. rewrite Hu' in Hnd. apply NoDup_cons in Hnd as [Hni _]. by destruct Hni; eapply Hf.
  - apply IH; [|done..]. destruct (f y); [by apply NoDup_cons in Hnd as [_ ?]|done].
Qed.

(** C9: Remote calls are answered by whom they were made to, for what was asked.
    Let any number of nodes call each other, and let the pub/sub server lose,
    repeat, delay and reorder messages in any way.  When a call has got a reply,
    then the node that was called has run the handler of the method for the very
    parameters and the key of that call, and the caller gets the value, or the
    error with its text, that the handler has returned.  This holds for every
    combination of encryption and compression; that a reply is not mistaken for
    that of another call needs the identifiers to be different. *)
Theorem rpc_faithful ops from target o nonce u m ps p rep :
  Forall op_ok ops -> NoDup (calls_of ops) -> NCall from target o nonce u m ps ∈ ops ->
  nt_peers (net_run ops (net_start nodes)) !! from = Some p -> pr_replies p !! u = Some rep ->
  exists r, answered_by nodes ops target (op_key_id o) m ps r /\ call_reply o rep = Ok (delivered r).
Proof.
  intros Hok Hnd Hin Hp Hu. destruct (ni_replies _ _ (net_run_inv ops Hok) _ _ _ _ Hp Hu) as (r & Hr & Hk).
  destruct Hr as (target' & o' & nonce0 & m' & ps' & nonce' & d & Hin' & Ha & Hn' & Hd & Hm).
  pose proof (calls_unique _ _ _ u Hnd Hin Hin' eq_refl eq_refl) as [= <- <- <- <- <-].
  exists r. split; [done|]. destruct rep as [k msg]. simpl in *. subst k msg.
  apply (call_reply_data _ nonce' u); [done| |done].
  destruct Ha as (ops1 & i & nonce1 & ops2 & q & s' & _ & _ & Hc). by eapply outcomes_ok.
Qed.
End faithful.

(** A request that is served. *)
Lemma process_served from target o nonce nonce' u m ps msg (q : Peer) r s1 s2 d :
  is_word from -> is_word m -> opts_of keys o -> nonce_ok nonce ->
  call_message from o nonce topic target u m ps = Ok msg ->
  match op_key_id o with
  | Some id => rh_key (h target) id (pr_state q) = (Ok (keys id), s1)
  | None => s1 = pr_state q
  end ->
  rh_call (h target) (op_key_id o) m ps s1 = (Ok r, s2) -> reply_data o nonce' u r = Ok d ->
  process (h target) nonce' topic (topic +:+ target) msg q =
    (Ok (Some (mkMessage (topic +:+ from) d)), mkPeer (pr_calls q) (pr_replies q) (pr_tester q) s2).
Proof.
  intros Hfrom Hm Ho Hn Hmsg Hkey Hcall Hd.
  destruct (request_data _ _ _ _ _ _ _ _ Hmsg) as (Ht & a & b & c & l & Hdata).
  unfold process. rewrite Ht, String.eqb_refl, Hdata.
  change (negb (PROTO_VERSION =? PROTO_VERSION)) with false. change (RPC_REQUEST =? RPC_REQUEST) with true. cbn iota.
  rewrite run_bind. unfold attempt, on_state.
  rewrite (handle_call_message (h target) keys from o nonce nonce' topic target u m ps msg (pr_state q)); try done.
  - unfold serve_call. rewrite run_bind. destruct (op_key_id o) as [id|].
    + by rewrite Hkey, run_bind, Hcall, run_bind, Hd.
    + subst s1. by rewrite run_ret, run_bind, Hcall, run_bind, Hd.
  - intros id k s' Hid Hk. rewrite Hid in Hkey. congruence.
Qed.
(** C34: A call whose messages are delivered comes to its end, with what the handler
    has returned, unless the reply has fewer than 22 bytes: these are taken for
    broken, although one byte is enough for some values when the reply is neither
    encrypted nor compressed. *)
Theorem rpc_completes n from target o nonce nonce' nonce'' u m ps msg p q r s1 s2 d :
  is_word from -> is_word m -> opts_of keys o -> nonce_ok nonce -> nonce_ok nonce' -> outcome_ok r ->
  call_message from o nonce topic target u m ps = Ok msg ->
  nt_peers n !! from = Some p -> nt_peers n !! target = Some q ->
  match op_key_id o with
  | Some id => rh_key (h target) id (pr_state q) = (Ok (keys id), s1)
  | None => s1 = pr_state q
  end ->
  rh_call (h target) (op_key_id o) m ps s1 = (Ok r, s2) -> reply_data o nonce' u r = Ok d ->
  let i := length (nt_sent n) in
  let n' := net_run [NCall from target o nonce u m ps; NDeliver target i nonce'; NDeliver from (S i) nonce''] n in
  if (22 <=? length d)%nat
  then exists p' rep, nt_peers n' !! from = Some p' /\ pr_replies p' !! u = Some rep /\ call_reply o rep = Ok (delivered r)
  else exists p', nt_peers n' !! from = Some p' /\ pr_replies p' !! u = pr_replies p !! u /\ u ∈ pr_calls p'.
Proof.
  intros Hfrom Hm Ho Hn Hn' Hr Hmsg Hp Hq Hkey Hcall Hd i n'.
  set (peers := alter (call_register u) from (nt_peers n)).
  assert (exists q', peers !! target = Some q' /\ pr_state q' = pr_state q) as (q' & Hq' & Hst).
  { subst peers. destruct (decide (from = target)) as [<-|Hne].
    - rewrite lookup_alter_eq, Hq. by eexists.
    - rewrite lookup_alter_ne by done. by exists q. }
  rewrite <-Hst in Hkey.
  pose proof (process_served from target o nonce nonce' u m ps msg q' r s1 s2 d Hfrom Hm Ho Hn Hmsg Hkey Hcall Hd) as Hserve.
  set (q2 := mkPeer (pr_calls q') (pr_replies q') (pr_tester q') s2) in *.
  assert (exists p2, <[target := q2]> peers !! from = Some p2 /\ u ∈ pr_calls p2 /\ pr_replies p2 = pr_replies p)
    as (p2 & Hp2 & Hu & Hrep).
  { assert (peers !! from = Some (call_register u p)) as Hf by (subst peers; by rewrite lookup_alter_eq, Hp).
    destruct (decide (target = from)) as [->|Hne].
    - rewrite lookup_insert_eq. exists q2. rewrite Hf in Hq'. injection Hq' as <-. split; [done|]. split; [set_solver|done].
    - rewrite lookup_insert_ne, Hf by done. eexists. split; [done|]. split; [set_solver|done]. }
  set (rep := mkMessage (topic +:+ from) d) in *.
  assert (n' = mkNet (<[from := if (22 <=? length d)%nat then take_reply u (mkReply (reply_kind r) rep) p2 else p2]>
                        (<[target := q2]> peers)) (nt_sent n ++ [msg; rep])) as ->.
  { subst n'. unfold net_run. cbn [foldl]. unfold net_step at 3. rewrite Hmsg. cbn [on_peer nt_peers nt_sent]. fold peers.
    unfold net_step at 2. cbn [nt_peers nt_sent]. rewrite Hq', list_lookup_middle, Hserve by done.
    unfold net_step. cbn [nt_peers nt_sent]. rewrite <-app_assoc. cbn [app].
    assert ((nt_sent n ++ [msg; rep]) !! S i = Some rep) as ->.
    { rewrite lookup_app_r by (subst i; lia). by replace (S i - length (nt_sent n))%nat with 1%nat by (subst i; lia). }
    pose proof (process_answer from nonce'' o nonce' u r d p2 Hd) as Hans. cbv zeta in Hans. fold rep in Hans.
    rewrite Hp2, Hans. by rewrite app_nil_r. }
  cbn [nt_peers]. rewrite lookup_insert_eq. destruct (22 <=? length d)%nat; [|exists p2; by rewrite Hrep].
  unfold take_reply. rewrite bool_decide_true by done. eexists _, _. split; [done|]. cbn [pr_replies].
  rewrite lookup_insert_eq. split; [done|]. by apply (call_reply_data _ nonce' u).
Qed.
End network.
End spec.
