(* ===== verification/Repl.v ===== *)
(** * The replication service (svc/repl/src)

    The service exchanges items and their states with other nodes over a pub/sub
    server.  It keeps the table of the nodes it knows, static ones of the registry
    and discovered ones; for each of them that is enabled and serves calls, a task
    reloads its inventory and another one pings it.  What it learns goes to the core
    of its node on the bus; the states of the node go out to the others.

    [Repl] is the state: the tables, the tasks, the topics that are subscribed to,
    the caches of keys, the registry, and what was published and called.  [ReplEnv]
    has the configuration, and what comes from outside as functions of the number of
    operations before.  A task that is aborted ends at its next wait: when the task
    that runs has been aborted, an operation that has to wait raises [ENever].
    Waiting for room in a channel, and the timers, are not modelled. *)
From stdpp Require Import sorting.
From S2P Require Import Prelude Duration EvaCommon Password Bytes Psrpc.
Open Scope Z_scope.

(** ** The crates *)

Class ReplTypes `{Ext : Externals, NExt : !NodeExternals} := {
  (* eva_common::acl::Acl *)
  NodeAcl : Type;
  na_check_item_write : NodeAcl -> OID -> bool;
  na_require_item_write : NodeAcl -> OID -> EResult unit;
  na_require_item_read : NodeAcl -> OID -> EResult unit;
  na_require_admin : NodeAcl -> EResult unit;
  na_require_rpvt_read : NodeAcl -> string -> EResult unit;
  na_allow_deny_reading : NodeAcl -> list string * list string;
  na_contains_acl : NodeAcl -> string -> bool;
  (* eva_sdk::types::FullItemState *)
  FullItemState : Type;
  fis_oid : FullItemState -> OID;
  fis_rse : FullItemState -> string -> ReplicationStateEvent;
  fis_of_local : LocalStateEvent -> OID -> FullItemState;
  fis_of_remote : RemoteStateEvent -> OID -> FullItemState
}.

Section types.
Context `{RTypes : ReplTypes}.

(** svc/repl/src/main.rs:19-24 [ReplicationData] *)
Inductive ReplicationData :=
  | RdInventory (item : ReplicationInventoryItem)
  | RdState (state : FullItemState).
(** svc/repl/src/main.rs:27-32 [ReplicationData::oid] *)
Definition rd_oid (d : ReplicationData) : OID :=
  match d with RdState v => fis_oid v | RdInventory v => ri_oid v end.
(** svc/repl/src/main.rs:33-48 [ReplicationData::into_replication_state_event_extended] *)
Definition rd_event (system_name : string) (d : ReplicationData) : ReplicationStateEventExtended :=
  match d with
  | RdState v => RseBasic (fis_rse v system_name)
  | RdInventory v => RseInventory system_name v
  end.
(** svc/repl/src/main.rs:49-65 [ReplicationData::into_replication_state_event_extended_bulk] *)
Definition rd_event_bulk (system_name : string) (d : ReplicationData) : ReplicationStateEventExtended :=
  match d with
  | RdState v => RseBasicItem (fis_oid v) (fis_rse v system_name)
  | RdInventory v => RseInventory system_name v
  end.

(** What is stored of a node: the fields of [Node] that are not skipped. *)
Record NodeConfig := mkNodeConfig {
  nc_name : string;
  nc_ping_interval : Duration;
  nc_reload_interval : Duration;
  nc_compress : bool;
  nc_enabled : bool;
  nc_timeout : Duration;
  nc_trusted : bool;
  nc_key_id : string;
  nc_admin_key_id : option string;
  nc_api_enabled : bool
}.
(** [eva_sdk::pubsub::PsNodeStatus] *)
Inductive PsNodeStatus :=
  | PsRunning (info : option NodeInfo) (api_enabled : bool)
  | PsTerminating.
(** svc/repl/src/nodes.rs:21-26 [PullData] *)
Record PullData := mkPull { pd_info : NodeInfo; pd_items : option (list ReplicationInventoryItem) }.
End types.

Class ReplExternals `{RTypes : ReplTypes} (Uuid : Type) := {
  (* payloads of the bus *)
  un_acl : list Z -> EResult NodeAcl;
  un_key : list Z -> EResult string;
  un_items : list Z -> EResult (list ReplicationInventoryItem);
  un_local_state : list Z -> EResult LocalStateEvent;
  un_remote_state : list Z -> EResult RemoteStateEvent;
  un_map : list Z -> EResult (gmap string Value);
  un_value : list Z -> EResult Value;
  (* values *)
  map_of_value : Value -> EResult (gmap string Value);
  value_of_map : gmap string Value -> EResult Value;
  value_as_str : Value -> option string;
  VStr : string -> Value;
  pull_of_value : Value -> EResult PullData;
  value_of_pull : PullData -> EResult Value;
  id_of_value : Value -> EResult string;
  uuid_of_value : Value -> EResult Uuid;
  node_to_value : NodeConfig -> EResult Value;
  node_of_value : Value -> EResult NodeConfig;
  oid_of_str : string -> EResult OID;
  (* payloads of pub/sub messages *)
  un_node_status : list Z -> EResult PsNodeStatus;
  json_rse : ReplicationStateEvent -> EResult (list Z);
  un_json_rse : list Z -> EResult ReplicationStateEventExtended;
  rsee_node : ReplicationStateEventExtended -> string;
  pack_bulk : list ReplicationData -> EResult (list Z);
  un_bulk : list Z -> EResult (list ReplicationData);
  PS_ITEM_STATE_TOPIC : string;
  PS_ITEM_BULK_STATE_TOPIC : string;
  PS_NODE_STATE_TOPIC : string
}.

Section repl.
Context {Uuid : Type} `{Countable Uuid} `{Ext : Externals, NExt : !NodeExternals, RTypes : !ReplTypes, Hash : HashExternals}.
Context `{PExt : !PsrpcExternals Uuid} `{RExt : !ReplExternals Uuid}.

(** ** State *)

(** svc/repl/src/nodes.rs:282-331 [Node]; of the two tasks their numbers *)
Record Node := mkNode {
  nd_config : NodeConfig;
  nd_sttc : bool;
  nd_online : bool;
  nd_link_uptime : option Z;
  nd_reloader_active : bool;
  nd_last_reload : option Z;
  nd_oids : gset OID;
  nd_info : option NodeInfo;
  nd_tasks : option (nat * nat);
  nd_last_event : Z
}.
Definition node_of_config (c : NodeConfig) : Node := mkNode c false false None false None ∅ None None 0.
Definition set_static (n : Node) : Node :=
  mkNode (nd_config n) true (nd_online n) (nd_link_uptime n) (nd_reloader_active n) (nd_last_reload n) (nd_oids n)
    (nd_info n) (nd_tasks n) (nd_last_event n).
Definition set_online (b : bool) (uptime : option Z) (n : Node) : Node :=
  mkNode (nd_config n) (nd_sttc n) b uptime (nd_reloader_active n) (nd_last_reload n) (nd_oids n)
    (nd_info n) (nd_tasks n) (nd_last_event n).
Definition set_reloader_active (b : bool) (n : Node) : Node :=
  mkNode (nd_config n) (nd_sttc n) (nd_online n) (nd_link_uptime n) b (nd_last_reload n) (nd_oids n)
    (nd_info n) (nd_tasks n) (nd_last_event n).
Definition set_reloaded (t : Z) (info : NodeInfo) (n : Node) : Node :=
  mkNode (nd_config n) (nd_sttc n) (nd_online n) (nd_link_uptime n) (nd_reloader_active n) (Some t) (nd_oids n)
    (Some info) (nd_tasks n) (nd_last_event n).
Definition set_oids (l : gset OID) (n : Node) : Node :=
  mkNode (nd_config n) (nd_sttc n) (nd_online n) (nd_link_uptime n) (nd_reloader_active n) (nd_last_reload n) l
    (nd_info n) (nd_tasks n) (nd_last_event n).
Definition set_info (i : option NodeInfo) (n : Node) : Node :=
  mkNode (nd_config n) (nd_sttc n) (nd_online n) (nd_link_uptime n) (nd_reloader_active n) (nd_last_reload n) (nd_oids n)
    i (nd_tasks n) (nd_last_event n).
Definition set_tasks (t : option (nat * nat)) (n : Node) : Node :=
  mkNode (nd_config n) (nd_sttc n) (nd_online n) (nd_link_uptime n) (nd_reloader_active n) (nd_last_reload n) (nd_oids n)
    (nd_info n) t (nd_last_event n).
(** svc/repl/src/nodes.rs:410-414 [Node::update_last_event] *)
Definition update_last_event (now : Z) (n : Node) : Node :=
  mkNode (nd_config n) (nd_sttc n) (nd_online n) (nd_link_uptime n) (nd_reloader_active n) (nd_last_reload n) (nd_oids n)
    (nd_info n) (nd_tasks n) now.

(** A task: whether its node was triggered, and the channel of a reloader. *)
Inductive TaskKind := Reloader | Pinger.
Record Task := mkTask { ta_kind : TaskKind; ta_node : string; ta_ready : bool; ta_queue : list bool }.

(** What is published on the bus of the node, and what is called there. *)
Inductive BusMsg :=
  | PubNodeState (name : string) (ev : NodeStateEvent)
  | PubInventory (name : string) (items : option (list ReplicationInventoryItem))
  | PubState (oid : OID) (ev : ReplicationStateEventExtended)
  | PubBulk (evs : list ReplicationStateEventExtended)
  | PubRaw (path : string) (status : Z) (value : Value).
Inductive Payload :=
  | PlKeyGet (id : string)
  | PlAuthKey (key : string) (timeout : Duration)
  | PlDeploy (oids : list OID)
  | PlParams (p : gmap string Value)
  | PlUuid (u : Uuid)
  | PlValue (v : Value)
  | PlList (i : OIDMaskList) (node : option string) (include : option (list string)) (exclude : list string)
  | PlEmpty.
Record Call := mkCall { ca_target : string; ca_method : string; ca_payload : Payload }.

Record Repl := mkRepl {
  rp_nodes : gmap string Node;             (* NODES *)
  rp_triggers : gmap string nat;           (* RELOAD_TRIGGERS: the task that receives *)
  rp_tasks : gmap nat Task;
  rp_next : nat;
  rp_self : option nat;                    (* the task that runs *)
  rp_keys : gmap string string;            (* KEYS *)
  rp_opts : gmap string Options;           (* ENC_OPTS *)
  rp_acls : gmap string NodeAcl;           (* ACLS *)
  rp_topics : gset string;                 (* subscribed topics of item states *)
  rp_registry : gmap string Value;         (* the keys node/NAME *)
  rp_loaded : bool;                        (* NODES_LOADED *)
  rp_incoming : list (nat * Publication);  (* the channels of the topic broker *)
  rp_outgoing : list FullItemState;        (* the channel of the sender *)
  rp_bus : list BusMsg;                    (* the latest first *)
  rp_calls : list (Call * EResult (list Z)); (* the latest first *)
  rp_ps : list Message;                    (* the latest first *)
  rp_n : nat
}.
Definition set_nodes (x : gmap string Node) (s : Repl) : Repl :=
  mkRepl x (rp_triggers s) (rp_tasks s) (rp_next s) (rp_self s) (rp_keys s) (rp_opts s) (rp_acls s) (rp_topics s)
    (rp_registry s) (rp_loaded s) (rp_incoming s) (rp_outgoing s) (rp_bus s) (rp_calls s) (rp_ps s) (rp_n s).
Definition set_triggers (x : gmap string nat) (s : Repl) : Repl :=
  mkRepl (rp_nodes s) x (rp_tasks s) (rp_next s) (rp_self s) (rp_keys s) (rp_opts s) (rp_acls s) (rp_topics s)
    (rp_registry s) (rp_loaded s) (rp_incoming s) (rp_outgoing s) (rp_bus s) (rp_calls s) (rp_ps s) (rp_n s).
Definition set_task_table (x : gmap nat Task) (next : nat) (s : Repl) : Repl :=
  mkRepl (rp_nodes s) (rp_triggers s) x next (rp_self s) (rp_keys s) (rp_opts s) (rp_acls s) (rp_topics s)
    (rp_registry s) (rp_loaded s) (rp_incoming s) (rp_outgoing s) (rp_bus s) (rp_calls s) (rp_ps s) (rp_n s).
Definition set_self (x : option nat) (s : Repl) : Repl :=
  mkRepl (rp_nodes s) (rp_triggers s) (rp_tasks s) (rp_next s) x (rp_keys s) (rp_opts s) (rp_acls s) (rp_topics s)
    (rp_registry s) (rp_loaded s) (rp_incoming s) (rp_outgoing s) (rp_bus s) (rp_calls s) (rp_ps s) (rp_n s).
Definition set_caches (k : gmap string string) (o : gmap string Options) (a : gmap string NodeAcl) (s : Repl) : Repl :=
  mkRepl (rp_nodes s) (rp_triggers s) (rp_tasks s) (rp_next s) (rp_self s) k o a (rp_topics s)
    (rp_registry s) (rp_loaded s) (rp_incoming s) (rp_outgoing s) (rp_bus s) (rp_calls s) (rp_ps s) (rp_n s).
Definition set_topics (x : gset string) (s : Repl) : Repl :=
  mkRepl (rp_nodes s) (rp_triggers s) (rp_tasks s) (rp_next s) (rp_self s) (rp_keys s) (rp_opts s) (rp_acls s) x
    (rp_registry s) (rp_loaded s) (rp_incoming s) (rp_outgoing s) (rp_bus s) (rp_calls s) (rp_ps s) (rp_n s).
Definition set_registry (x : gmap string Value) (s : Repl) : Repl :=
  mkRepl (rp_nodes s) (rp_triggers s) (rp_tasks s) (rp_next s) (rp_self s) (rp_keys s) (rp_opts s) (rp_acls s) (rp_topics s)
    x (rp_loaded s) (rp_incoming s) (rp_outgoing s) (rp_bus s) (rp_calls s) (rp_ps s) (rp_n s).
Definition set_loaded (x : bool) (s : Repl) : Repl :=
  mkRepl (rp_nodes s) (rp_triggers s) (rp_tasks s) (rp_next s) (rp_self s) (rp_keys s) (rp_opts s) (rp_acls s) (rp_topics s)
    (rp_registry s) x (rp_incoming s) (rp_outgoing s) (rp_bus s) (rp_calls s) (rp_ps s) (rp_n s).
Definition set_channels (i : list (nat * Publication)) (o : list FullItemState) (s : Repl) : Repl :=
  mkRepl (rp_nodes s) (rp_triggers s) (rp_tasks s) (rp_next s) (rp_self s) (rp_keys s) (rp_opts s) (rp_acls s) (rp_topics s)
    (rp_registry s) (rp_loaded s) i o (rp_bus s) (rp_calls s) (rp_ps s) (rp_n s).
Definition add_pub (m : BusMsg) (s : Repl) : Repl :=
  mkRepl (rp_nodes s) (rp_triggers s) (rp_tasks s) (rp_next s) (rp_self s) (rp_keys s) (rp_opts s) (rp_acls s) (rp_topics s)
    (rp_registry s) (rp_loaded s) (rp_incoming s) (rp_outgoing s) (m :: rp_bus s) (rp_calls s) (rp_ps s) (rp_n s).
Definition add_call (c : Call) (r : EResult (list Z)) (s : Repl) : Repl :=
  mkRepl (rp_nodes s) (rp_triggers s) (rp_tasks s) (rp_next s) (rp_self s) (rp_keys s) (rp_opts s) (rp_acls s) (rp_topics s)
    (rp_registry s) (rp_loaded s) (rp_incoming s) (rp_outgoing s) (rp_bus s) ((c, r) :: rp_calls s) (rp_ps s) (rp_n s).
Definition add_ps (m : Message) (s : Repl) : Repl :=
  mkRepl (rp_nodes s) (rp_triggers s) (rp_tasks s) (rp_next s) (rp_self s) (rp_keys s) (rp_opts s) (rp_acls s) (rp_topics s)
    (rp_registry s) (rp_loaded s) (rp_incoming s) (rp_outgoing s) (rp_bus s) (rp_calls s) (m :: rp_ps s) (rp_n s).
Definition set_n (x : nat) (s : Repl) : Repl :=
  mkRepl (rp_nodes s) (rp_triggers s) (rp_tasks s) (rp_next s) (rp_self s) (rp_keys s) (rp_opts s) (rp_acls s) (rp_topics s)
    (rp_registry s) (rp_loaded s) (rp_incoming s) (rp_outgoing s) (rp_bus s) (rp_calls s) (rp_ps s) x.

(** svc/repl/src/main.rs:182-192 [BulkSendConfig] *)
Record BulkSendConfig := mkBulkSend { bs_topic : string; bs_compress : bool; bs_encryption_key : option string }.
Record ReplEnv := mkReplEnv {
  re_system_name : string;
  re_key_svc : string;
  re_timeout : Duration;
  re_state_lvar : option OID;
  re_default_key_id : string;
  re_pull_info : NodeInfo;
  re_oids : OIDMaskList;
  re_oids_exclude : list string;
  re_discovery_enabled : bool;
  re_subscribe_each : bool;
  re_secure_topics : option (gset string);
  re_bulk_send : option BulkSendConfig;
  re_replicate_remote : bool;
  re_api_enabled : bool;
  re_io : nat -> EResult unit;                    (* publications, subscriptions, the registry *)
  re_yields : nat -> bool;                        (* the operation has to wait *)
  re_bus : nat -> Call -> EResult (list Z);       (* calls of services *)
  re_remote : nat -> string -> string -> option Value -> Options -> EResult Value; (* calls of nodes *)
  re_http : nat -> string -> EResult Value;
  re_now : nat -> Z;                              (* monotonic nanoseconds *)
  re_nonce : nat -> EResult (list Z);
  re_text : Error -> option string                (* the texts of errors *)
}.
Variable (e : ReplEnv).
Abbreviation RM := (M Repl).
Implicit Types (s : Repl) (n : Node).

(** ** Waiting *)

Definition tick : RM nat := fun s => (Ok (rp_n s), set_n (S (rp_n s)) s).
(** The task that runs is alive, unless it was aborted. *)
Definition self_alive s : bool :=
  match rp_self s with Some id => bool_decide (is_Some (rp_tasks s !! id)) | None => true end.
(** A wait: a task that was aborted does not come back from it. *)
Definition await : RM nat :=
  n ← tick;
  s ← get;
  if re_yields e n && negb (self_alive s) then raise ENever else mret n.
Definition now : RM Z := n ← tick; mret (re_now e n).
Definition io : RM unit := n ← await; lift (re_io e n).
Definition publish (m : BusMsg) : RM unit := _ ← io; modify (add_pub m).
Definition bus_call (target method : string) (p : Payload) : RM (list Z) :=
  n ← await;
  let c := mkCall target method p in
  _ ← modify (add_call c (re_bus e n c));
  lift (re_bus e n c).
Definition remote_call (target method : string) (params : option Value) (o : Options) : RM Value :=
  n ← await; lift (re_remote e n target method params o).
Definition ps_publish (topic : string) (data : list Z) : RM unit := _ ← io; modify (add_ps (mkMessage topic data)).
Definition subscribe_bulk (topics : list string) : RM unit :=
  _ ← io; modify (fun s => set_topics (rp_topics s ∪ list_to_set topics) s).
Definition unsubscribe_bulk (topics : list string) : RM unit :=
  _ ← io; modify (fun s => set_topics (rp_topics s ∖ list_to_set topics) s).
Definition key_set (key : string) (v : Value) : RM unit :=
  _ ← io; modify (fun s => set_registry (<[key := v]> (rp_registry s)) s).
Definition key_delete (key : string) : RM unit :=
  _ ← io; modify (fun s => set_registry (delete key (rp_registry s)) s).

(** ** Keys (svc/repl/src/aaa.rs) *)

(** svc/repl/src/aaa.rs:54-75 [get_key] *)
Definition get_key (key_id : string) : RM string :=
  s ← get;
  match rp_keys s !! key_id with
  | Some key => mret key
  | None =>
      data ← bus_call (re_key_svc e) "key.get" (PlKeyGet key_id);
      key ← lift (un_key data);
      _ ← modify (fun s => set_caches (<[key_id := key]> (rp_keys s)) (rp_opts s) (rp_acls s) s);
      mret key
  end.
(** svc/repl/src/aaa.rs:14-36 [get_acl] *)
Definition get_acl (key_id : string) : RM NodeAcl :=
  s ← get;
  match rp_acls s !! key_id with
  | Some acl => mret acl
  | None =>
      key_value ← get_key key_id;
      res ← bus_call (re_key_svc e) "auth.key" (PlAuthKey key_value (re_timeout e));
      acl ← lift (un_acl res);
      _ ← modify (fun s => set_caches (rp_keys s) (rp_opts s) (<[key_id := acl]> (rp_acls s)) s);
      mret acl
  end.
(** svc/repl/src/aaa.rs:38-52 [get_enc_opts] *)
Definition get_enc_opts (key_id : string) : RM Options :=
  s ← get;
  match rp_opts s !! key_id with
  | Some opts => mret opts
  | None =>
      key_value ← get_key key_id;
      let opts := with_encryption Aes256Gcm key_id key_value options_new in
      _ ← modify (fun s => set_caches (rp_keys s) (<[key_id := opts]> (rp_opts s)) (rp_acls s) s);
      mret opts
  end.
Definition compression_if (compress : bool) : Compression := if compress then Bzip2 else ComprNo.

(** ** Nodes (svc/repl/src/nodes.rs) *)

(** svc/repl/src/nodes.rs:37-50 [deploy_undeploy_node_state_sensors] *)
Definition deploy_undeploy_node_state_sensors (name : string) (deploy : bool) : RM unit :=
  match re_state_lvar e with
  | None => mret tt
  | Some lvar_prefix =>
      oid ← lift (oid_of_str (oid_as_str lvar_prefix +:+ "/" +:+ name +:+ "/connected"));
      _ ← bus_call "eva.core" (if deploy then "item.deploy" else "item.undeploy") (PlDeploy [oid]);
      mret tt
  end.
(** svc/repl/src/nodes.rs:52-65 [publish_node_state] *)
Definition publish_node_state (name : string) (svc_ok online : bool) : RM unit :=
  match re_state_lvar e with
  | None => mret tt
  | Some lvar_prefix =>
      publish (PubRaw (oid_as_path lvar_prefix +:+ "/" +:+ name +:+ "/connected") (if svc_ok then 1 else -1)
        (VU8 (if online then 1 else 0)))
  end.

Definition abort (id : nat) s : Repl := set_task_table (delete id (rp_tasks s)) (rp_next s) s.
(** svc/repl/src/nodes.rs:383-390 [Node::stop_tasks] *)
Definition stop_tasks n s : Repl :=
  match nd_tasks n with Some (reloader, pinger) => abort pinger (abort reloader s) | None => s end.
Definition state_topic (oid : OID) : string := PS_ITEM_STATE_TOPIC +:+ oid_as_path oid.

(** svc/repl/src/nodes.rs:567-608 [remove_node] *)
Definition remove_node (name : string) : RM unit :=
  s ← get;
  match rp_nodes s !! name with
  | None => raise ENotFound
  | Some n =>
      _ ← modify (fun s => set_nodes (delete name (rp_nodes s)) s);
      _ ← modify (fun s => set_triggers (delete name (rp_triggers s)) s);
      _ ← modify (stop_tasks n);
      let topics := state_topic <$> elements (nd_oids n) in
      _ ← match topics with [] => mret tt | _ :: _ => unsubscribe_bulk topics end;
      _ ← publish (PubNodeState name (mkNodeState NsRemoved None None));
      deploy_undeploy_node_state_sensors name false
  end.

(** [NODES.get_mut(name)], and a change *)
Definition update_node (name : string) (f : Node -> Node) : RM unit :=
  modify (fun s => set_nodes (alter f name (rp_nodes s)) s).

(** The part of [mark_node] that holds the lock of the table
    (svc/repl/src/nodes.rs:617-636): whether the state is announced after it *)
Definition mark_node_locked (name : string) (online force : bool) : RM bool :=
  s ← get;
  match rp_nodes s !! name with
  | Some n =>
      if negb (Bool.eqb (nd_online n) online) then
        if nd_sttc n || online then
          t ← (if online then t ← now; mret (Some t) else mret None);
          _ ← update_node name (set_online online t);
          mret true
        else _ ← remove_node name; mret false
      else mret true
  | None => mret force
  end.
Definition mark_node_announce (name : string) (online : bool) (info : option NodeInfo) (timeout : option Duration) : RM unit :=
  _ ← publish (PubNodeState name (mkNodeState (if online then NsOnline else NsOffline) info timeout));
  publish_node_state name true online.
(** svc/repl/src/nodes.rs:610-653 [mark_node] *)
Definition mark_node (name : string) (online : bool) (info : option NodeInfo) (force : bool) (timeout : option Duration)
    : RM unit :=
  announce ← mark_node_locked name online force;
  if (announce : bool) then mark_node_announce name online info timeout else mret tt.

(** The topics of the items of a node, when they are subscribed to one by one
    (svc/repl/src/nodes.rs:107-158) *)
Definition reload_topics (name : string) (items : list ReplicationInventoryItem) : RM unit :=
  s ← get;
  match rp_nodes s !! name with
  | None => raise ECore
  | Some n =>
      let oids : gset OID := list_to_set (ri_oid <$> items) in
      let to_remove := nd_oids n ∖ oids in
      let to_add := oids ∖ nd_oids n in
      _ ← update_node name (set_oids ((nd_oids n ∖ to_remove) ∪ to_add));
      _ ← match state_topic <$> elements to_add with [] => mret tt | t :: l => subscribe_bulk (t :: l) end;
      match state_topic <$> elements to_remove with [] => mret tt | t :: l => unsubscribe_bulk (t :: l) end
  end.
(** The inventory is taken over (svc/repl/src/nodes.rs:100-170) *)
Definition reload_apply (name : string) (info : NodeInfo) (items : option (list ReplicationInventoryItem)) (timeout : Duration)
    : RM unit :=
  s ← get;
  _ ← lift (ok_or (rp_nodes s !! name) ECore);
  t ← now;
  _ ← update_node name (set_reloaded t info);
  _ ← match items with
      | Some l => if re_subscribe_each e then reload_topics name l else mret tt
      | None => mret tt
      end;
  _ ← publish (PubInventory name items);
  mark_node name true (Some info) false (Some timeout).
(** svc/repl/src/nodes.rs:67-171 [reload_node] *)
Definition reload_node (name key_id : string) (compress : bool) (timeout : Duration) (trusted : bool) : RM unit :=
  opts ← get_enc_opts key_id;
  let opts := with_compression (compression_if compress) opts in
  v ← remote_call name "pull" None opts;
  res ← lift (pull_of_value v);
  items ← (if trusted then mret (pd_items res)
           else
             acl ← get_acl key_id;
             mret (List.filter (fun i => na_check_item_write acl (ri_oid i)) <$> pd_items res));
  reload_apply name (pd_info res) items timeout.
(** svc/repl/src/nodes.rs:173-184 [ping_node] *)
Definition ping_node (name key_id : string) (compress : bool) : RM unit :=
  opts ← get_enc_opts key_id;
  _ ← remote_call name "ping" None (with_compression (compression_if compress) opts);
  mret tt.

(** *** The tasks *)

Definition finish_task (id : nat) : RM unit := modify (abort id).
(** An error ends a task; one that does not come back from a wait is gone already. *)
Definition run_task (id : nat) (m : RM unit) : RM unit :=
  _ ← modify (set_self (Some id));
  r ← attempt m;
  _ ← match r with Ok _ => mret tt | Err _ => finish_task id end;
  modify (set_self None).
Definition set_active (name : string) (b : bool) : RM unit := update_node name (set_reloader_active b).
(** svc/repl/src/nodes.rs:186-250 [reloader], one turn, for the triggers that have
    come in or the timer; the settings are those of the node.  Whether the reload
    comes too early is only logged. *)
Definition reloader_turn (id : nat) : RM unit :=
  s ← get;
  match rp_tasks s !! id with
  | Some (mkTask Reloader name true queue) =>
      run_task id (
        _ ← modify (fun s => set_task_table (<[id := mkTask Reloader name true []]> (rp_tasks s)) (rp_next s) s);
        n ← lift (ok_or (rp_nodes s !! name) ECore);
        let c := nd_config n in
        _ ← set_active name true;
        r ← attempt (reload_node name (nc_key_id c) (nc_compress c) (nc_timeout c) (nc_trusted c));
        _ ← match r with Ok _ => mret tt | Err _ => mark_node name false None false None end;
        set_active name false)
  | _ => mret tt
  end.
(** svc/repl/src/nodes.rs:252-280 [pinger], one turn *)
Definition pinger_turn (id : nat) : RM unit :=
  s ← get;
  match rp_tasks s !! id with
  | Some (mkTask Pinger name true _) =>
      run_task id (
        n ← lift (ok_or (rp_nodes s !! name) ECore);
        let c := nd_config n in
        if nd_online n && negb (nd_reloader_active n) then
          r ← attempt (ping_node name (nc_key_id c) (nc_compress c));
          match r with Ok _ => mret tt | Err _ => mark_node name false None false None end
        else mret tt)
  | _ => mret tt
  end.

(** svc/repl/src/nodes.rs:359-382 [Node::new] *)
Definition node_new (name : string) (sttc trusted api_enabled : bool) : Node :=
  mkNode (mkNodeConfig name (10 * NANOS_PER_SEC) (60 * NANOS_PER_SEC) false true (re_timeout e) trusted
    (re_default_key_id e) None api_enabled) sttc false None false None ∅ None None 0.
(** svc/repl/src/nodes.rs:333-356 [NodeI] *)
Record NodeI := mkNodeI {
  ni_config : NodeConfig;
  ni_static : bool;
  ni_managed : bool;
  ni_online : bool;
  ni_link_uptime : option Duration;
  ni_info : option NodeInfo
}.
(** svc/repl/src/nodes.rs:391-408 [Node::info] *)
Definition node_info (t : Z) n : NodeI :=
  mkNodeI (nd_config n) (nd_sttc n) (bool_decide (is_Some (nc_admin_key_id (nd_config n)))) (nd_online n)
    ((fun u => t - u) <$> nd_link_uptime n) (nd_info n).

Definition spawn (t : Task) : RM nat := fun s =>
  (Ok (rp_next s), set_task_table (<[rp_next s := t]> (rp_tasks s)) (S (rp_next s)) s).
Definition trigger (id : nat) : RM unit :=
  modify (fun s => set_task_table
    (alter (fun t => mkTask (ta_kind t) (ta_node t) true (ta_queue t)) id (rp_tasks s)) (rp_next s) s).
(** svc/repl/src/nodes.rs:455-509 [append_node] *)
Definition append_node n : RM unit :=
  let name := nc_name (nd_config n) in
  tasks ← (if nc_enabled (nd_config n) && nc_api_enabled (nd_config n) then
             reloader ← spawn (mkTask Reloader name false []);
             pinger ← spawn (mkTask Pinger name false []);
             _ ← deploy_undeploy_node_state_sensors name true;
             mret (Some (reloader, pinger))
           else
             _ ← publish (PubNodeState name (mkNodeState NsRemoved None None));
             _ ← deploy_undeploy_node_state_sensors name false;
             mret None);
  let n := match tasks with Some _ => set_tasks tasks n | None => n end in
  _ ← modify (fun s => set_nodes (<[name := n]> (rp_nodes s)) s);
  _ ← match tasks with
      | Some (reloader, _) => modify (fun s => set_triggers (<[name := reloader]> (rp_triggers s)) s)
      | None => mret tt
      end;
  _ ← publish (PubNodeState name (mkNodeState NsOffline None None));
  match tasks with
  | Some (reloader, pinger) => _ ← trigger reloader; trigger pinger
  | None => mret tt
  end.

(** The channel of a reloader takes 1024 messages. *)
Definition send_trigger (id : nat) (force : bool) : RM unit :=
  s ← get;
  match rp_tasks s !! id with
  | Some t =>
      if (1024 <=? length (ta_queue t))%nat then raise ENever
      else modify (fun s => set_task_table
        (<[id := mkTask (ta_kind t) (ta_node t) (ta_ready t) (ta_queue t ++ [force])]> (rp_tasks s)) (rp_next s) s)
  | None => raise ECore
  end.
(** svc/repl/src/nodes.rs:511-556 [append_discovered_node] *)
Definition append_discovered_node (name : string) (info : option NodeInfo) (api_enabled : bool) : RM unit :=
  if String.eqb name (re_system_name e) then mret tt
  else
    let discover (recreate : bool) : RM unit :=
      if re_discovery_enabled e then
        _ ← (if recreate then remove_node name else mret tt);
        append_node (set_info info (node_new name false true api_enabled))
      else mret tt in
    s ← get;
    match rp_nodes s !! name with
    | Some n =>
        if Bool.eqb (nc_api_enabled (nd_config n)) api_enabled then
          _ ← (if re_discovery_enabled e then
                 match info with
                 | Some i => update_node name (set_info (Some i))
                 | None => mret tt
                 end
               else mret tt);
          if nc_enabled (nd_config n) && nc_api_enabled (nd_config n) && negb (nd_online n) then
            match rp_triggers s !! name with
            | Some id => log_ef (send_trigger id false)
            | None => mret tt
            end
          else mret tt
        else discover true
    | None => discover false
    end.
(** svc/repl/src/nodes.rs:558-565 [append_static_node] *)
Definition append_static_node n : RM unit :=
  s ← get;
  _ ← (if bool_decide (is_Some (rp_nodes s !! nc_name (nd_config n))) then remove_node (nc_name (nd_config n)) else mret tt);
  append_node n.
(** svc/repl/src/nodes.rs:655-675 [state_checker], one turn *)
Definition state_checker : RM unit :=
  t ← now;
  s ← get;
  let watched := filter (fun '(_, n) => negb (nc_api_enabled (nd_config n)) && nd_online n = true) (map_to_list (rp_nodes s)) in
  _ ← (if existsb (fun '(_, n) => 2 ^ 64 <=? nc_timeout (nd_config n)) watched then raise EPanic else mret tt);
  let offline := filter (fun '(_, n) => (wrap 64 (nd_last_event n + nc_timeout (nd_config n)) <? t) = true) watched in
  for_each (fun '(name, _) => log_ef (mark_node name false None false None)) offline.
End repl.
