(* ===== verification/ReplApi.v ===== *)
(** * The replication service: its interfaces (svc/repl/src)

    The calls and events of the bus ([eapi.rs]), the calls and messages of other
    nodes ([pubsub.rs]), the start and the end of the service ([main.rs]). *)
From stdpp Require Import sorting.
From S2P Require Import Prelude Duration EvaCommon Password Bytes Psrpc Repl.
Open Scope Z_scope.

(** More decoders of payloads, and topics of the bus. *)
Class ReplApiExternals `{RTypes : ReplTypes} := {
  un_id : list Z -> EResult string;
  un_append : list Z -> EResult (string * bool);
  un_deploy : list Z -> EResult (list NodeConfig);
  un_undeploy : list Z -> EResult (list (NodeConfig + string));
  oid_of_path : string -> EResult OID;
  LOCAL_STATE_TOPIC : string;
  REMOTE_STATE_TOPIC : string;
  AAA_KEY_TOPIC : string;
  AAA_ACL_TOPIC : string
}.

Section api.
Context {Uuid : Type} `{Countable Uuid} `{Ext : Externals, NExt : !NodeExternals, RTypes : !ReplTypes, Hash : HashExternals}.
Context `{PExt : !PsrpcExternals Uuid} `{RExt : !ReplExternals Uuid} `{AExt : !ReplApiExternals}.
Variable (e : ReplEnv (Uuid := Uuid)).
Abbreviation Repl := (Repl (Uuid := Uuid)).
Abbreviation RM := (M Repl).
Implicit Types (s : Repl) (n : Node).

(** ** Calls of other nodes *)

(** svc/repl/src/eapi.rs:435-440 [call_remote_params] *)
Definition call_remote_params (name : string) : gmap string Value := {[ "node"%string := VStr name ]}.
(** svc/repl/src/eapi.rs:442-496 [call_remote_method] *)
Definition call_remote_method (method : string) (params : gmap string Value) (admin allow_offline : bool) : RM Value :=
  i ← lift (ok_or (params !! "node"%string) EInvalidParams);
  let params := delete "node"%string params in
  name ← lift (ok_or (value_as_str i) EInvalidParams);
  s ← get;
  n ← lift (ok_or (rp_nodes s !! name) EFailed);
  let c := nd_config n in
  if negb (nc_api_enabled c) then raise EAccess
  else
    key_id ← (if admin then lift (ok_or (nc_admin_key_id c) EAccess) else mret (nc_key_id c));
    if negb allow_offline && negb (nd_online n) then raise EFailed
    else
      opts ← get_enc_opts e key_id;
      let opts := with_compression (compression_if (nc_compress c)) opts in
      if decide (params = ∅) then remote_call e name method None opts
      else v ← lift (value_of_map params); remote_call e name method (Some v) opts.

(** ** Calls of the bus *)

Inductive ReplReply :=
  | RpNone
  | RpValue (v : Value)
  | RpNodes (l : list NodeI)
  | RpNode (i : NodeI)
  | RpConfigs (l : list NodeConfig)
  | RpConfig (c : NodeConfig)
  | RpDefault (method : string).

Definition by_name {A} (name : A -> string) (a b : A) : Prop := String.le (name a) (name b).
#[local] Instance by_name_dec {A} (name : A -> string) : RelDecision (by_name name).
Proof. intros a b. unfold by_name. apply _. Defined.

Definition not_local (name : string) : RM unit :=
  if String.eqb name (re_system_name e) then raise EFailed else mret tt.
Definition non_empty {A} (payload : list Z) (un : list Z -> EResult A) : RM A :=
  match payload with [] => raise EInvalidParams | _ :: _ => lift (un payload) end.
Definition get_node (name : string) : RM Node := s ← get; lift (ok_or (rp_nodes s !! name) ENotFound).

(** [node.append] (svc/repl/src/eapi.rs:107-128) *)
Definition call_node_append (payload : list Z) : RM ReplReply :=
  '(i, trusted) ← non_empty payload un_append;
  _ ← not_local i;
  let n := node_new e i true trusted true in
  nval ← lift (node_to_value (nd_config n));
  _ ← append_static_node e n;
  _ ← key_set e i nval;
  mret RpNone.
(** [node.deploy] (svc/repl/src/eapi.rs:129-150) *)
Definition call_node_deploy (payload : list Z) : RM ReplReply :=
  nodes ← non_empty payload un_deploy;
  _ ← for_each (fun c =>
        let n := set_static (node_of_config c) in
        nval ← lift (node_to_value c);
        _ ← append_static_node e n;
        key_set e (nc_name c) nval) nodes;
  mret RpNone.
(** [node.undeploy] (svc/repl/src/eapi.rs:151-170) *)
Definition call_node_undeploy (payload : list Z) : RM ReplReply :=
  nodes ← non_empty payload un_undeploy;
  _ ← for_each (fun node =>
        let name := match node with inl c => nc_name c | inr i => i end in
        _ ← remove_node e name;
        key_delete e name) nodes;
  mret RpNone.
(** [node.export] (svc/repl/src/eapi.rs:171-195) *)
Definition call_node_export (payload : list Z) : RM ReplReply :=
  i ← non_empty payload un_id;
  _ ← not_local i;
  if String.eqb i "*" || String.eqb i "#" then
    s ← get; mret (RpConfigs (merge_sort (by_name nc_name) (nd_config <$> (map_to_list (rp_nodes s)).*2)))
  else n ← get_node i; mret (RpConfigs [nd_config n]).
(** [node.get_config] (svc/repl/src/eapi.rs:196-216) *)
Definition call_node_get_config (payload : list Z) : RM ReplReply :=
  i ← non_empty payload un_id;
  _ ← not_local i;
  n ← get_node i;
  if nd_sttc n then mret (RpConfig (nd_config n)) else raise EFailed.
(** [node.remove] (svc/repl/src/eapi.rs:217-229) *)
Definition call_node_remove (payload : list Z) : RM ReplReply :=
  i ← non_empty payload un_id;
  _ ← not_local i;
  _ ← remove_node e i;
  _ ← key_delete e i;
  mret RpNone.
(** [node.reload] (svc/repl/src/eapi.rs:230-243) *)
Definition call_node_reload (payload : list Z) : RM ReplReply :=
  i ← non_empty payload un_id;
  _ ← not_local i;
  s ← get;
  match rp_triggers s !! i with
  | Some id => _ ← send_trigger id true; mret RpNone
  | None => raise EFailed
  end.
Definition call_remote (admin : bool) (method : string) (payload : list Z) : RM ReplReply :=
  params ← non_empty payload un_map;
  v ← call_remote_method method params admin false;
  mret (RpValue v).
Definition call_node_test (method : string) (admin : bool) (payload : list Z) : RM ReplReply :=
  i ← non_empty payload un_id;
  _ ← not_local i;
  _ ← call_remote_method method (call_remote_params i) admin true;
  mret RpNone.

Definition remote_methods : list string :=
  ["action"; "action.toggle"; "run"; "lvar.set"; "lvar.reset"; "lvar.clear"; "lvar.toggle"; "lvar.incr"; "lvar.decr";
   "action.result"; "rpvt"]%string.
(** svc/repl/src/eapi.rs:59-279 [Handlers::handle_call]; [ready] is
    [svc_rpc_need_ready!] *)
Definition repl_handle_call (ready : bool) (method : string) (payload : list Z) : RM ReplReply :=
  if negb ready then raise ENotReady
  else if bool_decide (method ∈ remote_methods) then call_remote false method payload
  else if String.eqb method "node.list" then
    match payload with
    | [] =>
        t ← now e; s ← get;
        mret (RpNodes (merge_sort (by_name (fun i => nc_name (ni_config i))) (node_info t <$> (map_to_list (rp_nodes s)).*2)))
    | _ :: _ => raise EInvalidParams
    end
  else if String.eqb method "node.get" then
    i ← non_empty payload un_id; _ ← not_local i; t ← now e; n ← get_node i; mret (RpNode (node_info t n))
  else if String.eqb method "node.append" then call_node_append payload
  else if String.eqb method "node.deploy" then call_node_deploy payload
  else if String.eqb method "node.undeploy" then call_node_undeploy payload
  else if String.eqb method "node.export" then call_node_export payload
  else if String.eqb method "node.get_config" then call_node_get_config payload
  else if String.eqb method "node.remove" then call_node_remove payload
  else if String.eqb method "node.reload" then call_node_reload payload
  else if String.eqb method "node.test" then call_node_test "ping" false payload
  else if String.eqb method "node.mtest" then call_node_test "bus::eva.core::test" true payload
  else if String.prefix "bus::" method then call_remote true method payload
  else mret (RpDefault method).

(** ** Events of the bus *)

Definition send_state (st : FullItemState) : RM unit :=
  modify (fun s => set_channels (rp_incoming s) (rp_outgoing s ++ [st]) s).
(** svc/repl/src/eapi.rs:391-411 [process_local_state] *)
Definition process_local_state (path : string) (payload : list Z) : RM unit :=
  match oid_of_path path with
  | Ok oid => match un_local_state payload with Ok v => send_state (fis_of_local v oid) | Err _ => mret tt end
  | Err _ => mret tt
  end.
(** svc/repl/src/eapi.rs:413-433 [process_remote_state] *)
Definition process_remote_state (path : string) (payload : list Z) : RM unit :=
  match oid_of_path path with
  | Ok oid => match un_remote_state payload with Ok v => send_state (fis_of_remote v oid) | Err _ => mret tt end
  | Err _ => mret tt
  end.
(** [Handlers::handle_frame], for a publication (svc/repl/src/eapi.rs:281-310) *)
Definition repl_handle_frame (ready : bool) (topic : string) (payload : list Z) : RM unit :=
  s ← get;
  if negb ready || negb (rp_loaded s) then mret tt
  else
    match strip_prefix LOCAL_STATE_TOPIC topic with
    | Some o => log_ef (process_local_state o payload)
    | None =>
    match strip_prefix REMOTE_STATE_TOPIC topic with
    | Some o => if re_replicate_remote e then log_ef (process_remote_state o payload) else mret tt
    | None =>
    match strip_prefix AAA_KEY_TOPIC topic with
    | Some k => modify (fun s => set_caches (delete k (rp_keys s)) (delete k (rp_opts s)) (delete k (rp_acls s)) s)
    | None =>
    match strip_prefix AAA_ACL_TOPIC topic with
    | Some a =>
        modify (fun s => set_caches (rp_keys s) (rp_opts s)
          (filter (fun '(_, v) => na_contains_acl v a = false) (rp_acls s)) s)
    | None => mret tt
    end end end end.

(** ** States that go out *)

(** The frame of a bulk message (svc/repl/src/eapi.rs:341-349) *)
Definition bulk_frame (o : Options) (key_id : option string) (nonce : EResult (list Z)) (data : list ReplicationData)
    : EResult (list Z) :=
  p ← pack_bulk data;
  body ← pack_payload o nonce p;
  Ok ([0; PROTO_VERSION; options_flags o; 0; 0] ++ as_bytes (re_system_name e) ++ [0] ++
      match key_id with Some k => as_bytes k | None => [] end ++ [0] ++ body).
Definition notify_bulk (data : list ReplicationData) : RM unit :=
  cfg ← lift (ok_or (re_bulk_send e) EPanic);
  opts ← match bs_encryption_key cfg with Some key_id => get_enc_opts e key_id | None => mret options_new end;
  let opts := with_compression (compression_if (bs_compress cfg)) opts in
  k ← tick;
  frame ← lift (bulk_frame opts (bs_encryption_key cfg) (re_nonce e k) data);
  ps_publish e (PS_ITEM_BULK_STATE_TOPIC +:+ bs_topic cfg) frame.
Definition notify_single (st : FullItemState) : RM unit :=
  data ← lift (json_rse (fis_rse st (re_system_name e)));
  ps_publish e (state_topic (fis_oid st)) data.
(** svc/repl/src/eapi.rs:386-389 [Data] *)
Inductive Data := DSingle (st : FullItemState) | DBulk (l : list ReplicationData).
(** svc/repl/src/eapi.rs:313-355 [notify] *)
Definition notify (d : Data) : RM unit :=
  match d with DSingle st => notify_single st | DBulk l => notify_bulk l end.

(** svc/repl/src/eapi.rs:357-384 [sender], one turn: a state of the channel, or the
    timer of the buffer, which is returned *)
Definition sender_turn (buffered timer : bool) (data_buf : list ReplicationData) : RM (list ReplicationData) :=
  if buffered && timer then
    match data_buf with
    | [] => mret []
    | _ :: _ => _ ← log_ef (notify (DBulk data_buf)); mret []
    end
  else
    s ← get;
    match rp_outgoing s with
    | [] => mret data_buf
    | st :: l =>
        _ ← modify (set_channels (rp_incoming s) l);
        if buffered then mret (data_buf ++ [RdState st])
        else _ ← log_ef (notify (DSingle st)); mret data_buf
    end.
(** svc/repl/src/eapi.rs:498-537 [submit_periodic], one turn *)
Definition submit_periodic : RM unit :=
  res ← bus_call e "eva.core" "item.list"
    (PlList (re_oids e) (if re_replicate_remote e then None else Some ".local"%string) None (re_oids_exclude e));
  items ← lift (un_items res);
  notify (DBulk (RdInventory <$> items)).

(** ** Calls from other nodes (svc/repl/src/pubsub.rs) *)

Definition need_key (key_id : option string) : RM string := lift (ok_or key_id EAccess).
Definition need_params (params : option Value) : RM Value := lift (ok_or params EInvalidParams).
Definition value_or_unit (b : list Z) : EResult Value := match b with [] => Ok VUnit | _ :: _ => un_value b end.

(** [pull] (svc/repl/src/pubsub.rs:66-114) *)
Definition ps_pull (key_id : option string) (params : option Value) : RM Value :=
  key_id ← need_key key_id;
  match params with
  | Some _ => raise EInvalidParams
  | None =>
      acl ← get_acl e key_id;
      let '(allow, deny) := na_allow_deny_reading acl in
      res ← bus_call e "eva.core" "item.list"
        (PlList (re_oids e) (if re_replicate_remote e then None else Some ".local"%string) (Some allow)
           (deny ++ re_oids_exclude e));
      items ← lift (un_items res);
      lift (value_of_pull (mkPull (re_pull_info e) (Some items)))
  end.
(** Methods of the core (svc/repl/src/pubsub.rs:115-143) *)
Definition ps_core_call (method : string) (key_id : option string) (params : option Value) : RM Value :=
  key_id ← need_key key_id;
  p ← need_params params;
  params ← lift (map_of_value p);
  acl ← get_acl e key_id;
  i ← lift (ok_or (params !! "i"%string) EInvalidParams);
  str ← lift (ok_or (value_as_str i) EInvalidParams);
  oid ← lift (oid_of_str str);
  _ ← lift (na_require_item_write acl oid);
  res ← bus_call e "eva.core" method (PlParams params);
  lift (value_or_unit res).
(** [rpvt] (svc/repl/src/pubsub.rs:144-168) *)
Definition ps_rpvt (key_id : option string) (params : option Value) : RM Value :=
  key_id ← need_key key_id;
  p ← need_params params;
  i ← lift (id_of_value p);
  acl ← get_acl e key_id;
  _ ← lift (na_require_rpvt_read acl i);
  let '(node, url) := split_once slash i in
  if String.eqb node ".local" then
    url ← lift (ok_or url EInvalidParams);
    k ← await e;
    lift (re_http e k url)
  else raise EAccess.
(** [action.result] (svc/repl/src/pubsub.rs:169-199) *)
Definition ps_action_result (key_id : option string) (params : option Value) : RM Value :=
  key_id ← need_key key_id;
  p ← need_params params;
  acl ← get_acl e key_id;
  u ← lift (uuid_of_value p);
  b ← bus_call e "eva.core" "action.result" (PlUuid u);
  result ← lift (un_map b);
  oid_c ← lift (ok_or (result !! "oid"%string) EInvalidData);
  o ← lift (ok_or (value_as_str oid_c) EInvalidData);
  oid ← lift (oid_of_str o);
  _ ← lift (na_require_item_read acl oid);
  lift (value_of_map result).
(** [s.split_once("::")] *)
Fixpoint split_colons (t : string) : option (string * string) :=
  match strip_prefix "::" t with
  | Some r => Some (EmptyString, r)
  | None =>
      match t with
      | EmptyString => None
      | String a t => match split_colons t with Some (x, r) => Some (String a x, r) | None => None end
      end
  end.
(** [bus::TARGET::METHOD] (svc/repl/src/pubsub.rs:200-230) *)
Definition ps_bus_call (bus_call_str : string) (key_id : option string) (params : option Value) : RM Value :=
  key_id ← need_key key_id;
  acl ← get_acl e key_id;
  _ ← lift (na_require_admin acl);
  '(target, method) ← lift (ok_or (split_colons bus_call_str) EInvalidParams);
  res ← bus_call e target method match params with Some v => PlValue v | None => PlEmpty end;
  lift (value_or_unit res).
Definition core_methods : list string :=
  ["action"; "action.toggle"; "run"; "lvar.set"; "lvar.reset"; "lvar.clear"; "lvar.toggle"; "lvar.incr"; "lvar.decr"]%string.
(** svc/repl/src/pubsub.rs:53-232 [PubSubHandlers::handle_call] *)
Definition ps_handle_call (key_id : option string) (method : string) (params : option Value) : RM Value :=
  if negb (re_api_enabled e) then raise EAccess
  else if String.eqb method "ping" then mret VUnit
  else if String.eqb method "pull" then ps_pull key_id params
  else if bool_decide (method ∈ core_methods) then ps_core_call method key_id params
  else if String.eqb method "rpvt" then ps_rpvt key_id params
  else if String.eqb method "action.result" then ps_action_result key_id params
  else
    match strip_prefix "bus::" method with
    | Some b => ps_bus_call b key_id params
    | None => raise ENotImplemented
    end.

(** The topic broker of the service, with its three channels
    (svc/repl/src/main.rs:429-444, pubsub.rs:34-37) *)
Definition CH_BULK : nat := 0.
Definition CH_STATE : nat := 1.
Definition CH_NODE : nat := 2.
Definition topic_broker (bulk_only : bool) : EResult TopicBroker :=
  b ← register_prefix PS_ITEM_BULK_STATE_TOPIC CH_BULK broker_new;
  b ← (if bulk_only then Ok b else register_prefix PS_ITEM_STATE_TOPIC CH_STATE b);
  register_prefix PS_NODE_STATE_TOPIC CH_NODE b.
(** svc/repl/src/pubsub.rs:50-52 [PubSubHandlers::handle_message] *)
Definition ps_handle_message (b : TopicBroker) (m : Message) : RM unit :=
  match broker_process m b with
  | Some (ch, p) => modify (fun s => set_channels (rp_incoming s ++ [(ch, p)]) (rp_outgoing s) s)
  | None => mret tt
  end.
(** svc/repl/src/pubsub.rs:48-235 (RpcHandlers for PubSubHandlers) *)
Definition repl_handlers (b : TopicBroker) : RpcHandlers Repl :=
  mkHandlers (ps_handle_message b)
    (fun k m p s =>
       let '(r, s') := ps_handle_call k m p s in
       match r with
       | Ok v => (Ok (Done v), s')
       | Err EPanic => (Err EPanic, s')
       | Err ENever => (Err ENever, s')
       | Err k => (Ok (Failed k (re_text e k)), s')
       end)
    (get_key e).

(** ** Messages of other nodes *)

(** svc/repl/src/pubsub.rs:238-254 [discovery_handler], one message *)
Definition discovery_handler (p : Publication) : RM unit :=
  st ← lift (un_node_status (ms_data (pb_message p)));
  let name := subtopic p in
  match st with
  | PsRunning info api_enabled => append_discovered_node e name info api_enabled
  | PsTerminating => mark_node e name false None false None
  end.
(** svc/repl/src/pubsub.rs:270-287 [ps_process_state] *)
Definition ps_process_state (p : Publication) : RM unit :=
  data ← lift (un_json_rse (ms_data (pb_message p)));
  if String.eqb (rsee_node data) (re_system_name e) then mret tt
  else
    oid ← lift (oid_of_path (subtopic p));
    publish e (PubState oid data).

Definition is_secure (bulk_topic : string) : bool :=
  match re_secure_topics e with Some t => bool_decide (bulk_topic ∈ t) | None => false end.
(** The node a bulk frame comes from (svc/repl/src/pubsub.rs:319-342): whether the
    frame is for us to process *)
Definition bulk_sender (sname : string) : RM bool :=
  s ← get;
  match rp_nodes s !! sname with
  | None => mret false
  | Some n =>
      if negb (nc_enabled (nd_config n)) then mret false
      else
        _ ← (if nc_api_enabled (nd_config n) then mret tt
             else
               t ← now e;
               _ ← update_node sname (update_last_event t);
               if nd_online n then mret tt else mark_node e sname true None false None);
        mret (negb (String.eqb sname (re_system_name e)))
  end.
(** The options and the access list of a frame (svc/repl/src/pubsub.rs:350-361) *)
Definition bulk_auth (encryption : Encryption) (compression : Compression) (key_id_buf : list Z)
    : RM (Options * option NodeAcl) :=
  match encryption with
  | EncNo => mret (with_compression compression options_new, None)
  | _ =>
      key_id ← lift (from_utf8 key_id_buf);
      o ← get_enc_opts e key_id;
      acl ← get_acl e key_id;
      mret (with_compression compression o, Some acl)
  end.
(** The events of a bulk frame (svc/repl/src/pubsub.rs:343-376); [rest] is what is
    behind the name of the node *)
Definition bulk_deliver (sname : string) (encryption : Encryption) (compression : Compression) (frame : list Z)
    (rest : option (list Z)) : RM unit :=
  rest ← lift (ok_or rest EInvalidData);
  let '(key_id_buf, payload) := split_zero rest in
  _ ← lift (ok_or payload EInvalidData);
  '(opts, auth) ← bulk_auth encryption compression key_id_buf;
  let len := (length key_id_buf + String.length sname + 7)%nat in
  b ← lift (unpack_payload opts frame len);
  data ← lift (un_bulk b);
  let allowed := List.filter (fun d =>
    match auth with Some acl => na_check_item_write acl (rd_oid d) | None => true end) data in
  publish e (PubBulk (rd_event_bulk sname <$> allowed)).
(** svc/repl/src/pubsub.rs:289-379 [ps_process_bulk_state]; a frame of four bytes
    panics *)
Definition ps_process_bulk_state (p : Publication) : RM unit :=
  match strip_prefix PS_ITEM_BULK_STATE_TOPIC (ms_topic (pb_message p)) with
  | None => mret tt
  | Some bulk_topic =>
      let frame := ms_data (pb_message p) in
      match frame with
      | header :: version :: flags :: _ :: _ =>
          if negb (header =? 0) then raise EInvalidData
          else if negb (version =? PROTO_VERSION) then raise EInvalidData
          else
            '(encryption, compression) ← lift (parse_flags flags);
            if is_secure bulk_topic && negb (bool_decide (encryption = Aes256Gcm)) then raise EAccess
            else if (length frame <? 5)%nat then raise EPanic
            else
              let '(system_name_buf, rest) := split_zero (drop 5 frame) in
              sname ← lift (from_utf8 system_name_buf);
              ours ← bulk_sender sname;
              if negb (ours : bool) then mret tt
              else bulk_deliver sname encryption compression frame rest
      | _ => raise EInvalidData
      end
  end.

(** The tasks that process the channels; errors are logged
    (svc/repl/src/pubsub.rs:39-44, 256-268) *)
Definition process_incoming (i : nat) : RM unit :=
  s ← get;
  match rp_incoming s !! i with
  | Some (ch, p) =>
      _ ← modify (set_channels (delete i (rp_incoming s)) (rp_outgoing s));
      log_ef (if (ch =? CH_BULK)%nat then ps_process_bulk_state p
              else if (ch =? CH_STATE)%nat then ps_process_state p else discovery_handler p)
  | None => mret tt
  end.

(** ** Start and end (svc/repl/src/main.rs) *)

(** The nodes of the registry (svc/repl/src/main.rs:381-399) *)
Definition load_nodes : RM (list Node) :=
  _ ← io e;
  s ← get;
  for_collect (fun '(k, v) =>
    c ← lift (node_of_value v);
    let n := set_static (node_of_config c) in
    if String.eqb k (nc_name c) then _ ← mark_node e (nc_name c) false None true None; mret n
    else raise EPanic) (map_to_list (rp_registry s)).
(** The nodes are taken up when the core is ready (svc/repl/src/main.rs:586-592) *)
Definition start_nodes (static_nodes : list Node) : RM unit :=
  _ ← for_each (append_static_node e) static_nodes;
  modify (set_loaded true).
(** svc/repl/src/main.rs:236-277 [mark_all_offline] *)
Definition mark_all_offline : RM unit :=
  s ← get;
  for_each (fun '(name, n) =>
    if nd_sttc n then
      _ ← publish e (PubNodeState name (mkNodeState NsOffline None None));
      publish_node_state e name false false
    else
      _ ← publish e (PubNodeState name (mkNodeState NsRemoved None None));
      deploy_undeploy_node_state_sensors e name false) (map_to_list (rp_nodes s)).
End api.
