(* ===== verification/ReplSpec.v ===== *)
(** * The replication service: what other nodes can do

    Runs of the service are sequences of calls, messages, turns of its tasks and
    timers, in any order and with failures of any operation.  Over all runs: what the
    service does for another node is what the access control list of its key
    permits, as the key service has answered. *)
From S2P Require Import Prelude Duration EvaCommon Password Bytes Psrpc Repl ReplApi.
Open Scope Z_scope.

Section spec.
Context {Uuid : Type} `{Countable Uuid} `{Ext : Externals, NExt : !NodeExternals, RTypes : !ReplTypes, Hash : HashExternals}.
Context `{PExt : !PsrpcExternals Uuid} `{RExt : !ReplExternals Uuid} `{AExt : !ReplApiExternals}.
Variable (e : ReplEnv (Uuid := Uuid)) (broker : TopicBroker).
Abbreviation Repl := (Repl (Uuid := Uuid)).
Abbreviation RM := (M Repl).
Abbreviation Log := (list (Call (Uuid := Uuid) * EResult (list Z))).
Implicit Types (s : Repl) (l : Log).

(** ** Runs *)

Inductive ReplOp :=
  | RoCall (ready : bool) (method : string) (payload : list Z)
  | RoFrame (ready : bool) (topic : string) (payload : list Z)
  | RoSender (buffered timer : bool) (buf : list ReplicationData)
  | RoSubmit
  | RoPsCall (key_id : option string) (method : string) (params : option Value)
  | RoMessage (m : Message)
  | RoIncoming (i : nat)
  | RoReloader (id : nat)
  | RoPinger (id : nat)
  | RoChecker
  | RoEnd.
Definition repl_op (op : ReplOp) : RM unit :=
  match op with
  | RoCall ready method payload => log_ef (repl_handle_call e ready method payload)
  | RoFrame ready topic payload => repl_handle_frame e ready topic payload
  | RoSender buffered timer buf => log_ef (sender_turn e buffered timer buf)
  | RoSubmit => submit_periodic e
  | RoPsCall key_id method params => log_ef (ps_handle_call e key_id method params)
  | RoMessage m => ps_handle_message broker m
  | RoIncoming i => process_incoming e i
  | RoReloader id => reloader_turn e id
  | RoPinger id => pinger_turn e id
  | RoChecker => state_checker e
  | RoEnd => mark_all_offline e
  end.
Definition repl_step (op : ReplOp) s : Repl := (repl_op op s).2.
Definition repl_run (ops : list ReplOp) s : Repl := foldl (fun s op => repl_step op s) s ops.
(** The service starts with what is in the registry. *)
Definition repl_init (registry : gmap string Value) : Repl :=
  mkRepl ∅ ∅ ∅ 0 None ∅ ∅ ∅ ∅ registry false [] [] [] [] [] 0.
Definition repl_start (registry : gmap string Value) : Repl :=
  ((nodes ← load_nodes e; start_nodes e nodes) (repl_init registry)).2.

(** ** What the key service has answered *)

Definition known_key l (k key : string) : Prop :=
  exists b, (mkCall (re_key_svc e) "key.get" (PlKeyGet k), Ok b) ∈ l /\ un_key b = Ok key.
Definition vouched l (k : string) (acl : NodeAcl) : Prop :=
  exists key b, known_key l k key /\
    (mkCall (re_key_svc e) "auth.key" (PlAuthKey key (re_timeout e)), Ok b) ∈ l /\ un_acl b = Ok acl.
Record caches_ok s : Prop := {
  co_keys k key : rp_keys s !! k = Some key -> known_key (rp_calls s) k key;
  co_acls k acl : rp_acls s !! k = Some acl -> vouched (rp_calls s) k acl;
  co_opts k o : rp_opts s !! k = Some o ->
    exists key, known_key (rp_calls s) k key /\ o = with_encryption Aes256Gcm k key options_new
}.

Lemma known_key_mono l l' k key : l ⊆ l' -> known_key l k key -> known_key l' k key.
Proof. intros Hl (b & Hb & Hk). exists b. split; [by apply Hl|done]. Qed.
Lemma vouched_mono l l' k acl : l ⊆ l' -> vouched l k acl -> vouched l' k acl.
Proof. intros Hl (key & b & Hk & Hb & Ha). exists key, b. split; [by eapply known_key_mono|]. split; [by apply Hl|done]. Qed.

(** The caches hold what was answered, and what was called stays recorded. *)
Definition trusting s s' : Prop :=
  rp_calls s `suffix_of` rp_calls s' /\ (caches_ok s -> caches_ok s').
#[local] Instance trusting_preorder : PreOrder trusting.
Proof.
  split; [by intros s; split|]. intros s1 s2 s3 [H1 H1'] [H2 H2']. split; [by etrans|auto].
Qed.
Lemma suffix_subseteq {A} (l l' : list A) : l `suffix_of` l' -> l ⊆ l'.
Proof. intros [k ->]. set_solver. Qed.
(** A change that leaves the caches and the calls as they are. *)
Definition unrelated s s' : Prop :=
  rp_calls s' = rp_calls s /\ rp_keys s' = rp_keys s /\ rp_acls s' = rp_acls s /\ rp_opts s' = rp_opts s.
#[local] Instance unrelated_preorder : PreOrder unrelated.
Proof. split; [done|]. intros s1 s2 s3 (?&?&?&?) (?&?&?&?). split_and!; congruence. Qed.
Lemma unrelated_trusting : subrelation unrelated trusting.
Proof.
  intros s s' (Hc & Hk & Ha & Ho). split; [by rewrite Hc|]. intros [H1 H2 H3].
  split; rewrite ?Hc, ?Hk, ?Ha, ?Ho; auto.
Qed.

(** ** Frames

    A relation that holds for every elementary change holds for every operation. *)
Section frames.
Variable (R : relation Repl).
Context `{!PreOrder R}.
Hypothesis (R_n : forall s n, R s (set_n n s)).
Hypothesis (R_self : forall s x, R s (set_self x s)).
Hypothesis (R_tasks : forall s x k, R s (set_task_table x k s)).
Hypothesis (R_nodes : forall s x, R s (set_nodes x s)).
Hypothesis (R_triggers : forall s x, R s (set_triggers x s)).
Hypothesis (R_topics : forall s x, R s (set_topics x s)).
Hypothesis (R_registry : forall s x, R s (set_registry x s)).
Hypothesis (R_loaded : forall s x, R s (set_loaded x s)).
Hypothesis (R_channels : forall s x y, R s (set_channels x y s)).
Hypothesis (R_ps : forall s m, R s (add_ps m s)).
Hypothesis (R_state : forall s name ev, R s (add_pub (PubNodeState name ev) s)).
Hypothesis (R_raw : forall s p st v, R s (add_pub (PubRaw p st v) s)).
Hypothesis (R_calls : forall s c r, R s (add_call c r s)).
Hypothesis (R_key : forall k, keeps R (get_key e k)).
Hypothesis (R_acl : forall k, keeps R (get_acl e k)).
Hypothesis (R_opts : forall k, keeps R (get_enc_opts e k)).

Lemma modify_frame f : (forall s, R s (f s)) -> keeps R (modify f).
Proof. intros Hf s. apply Hf. Qed.
#[local] Hint Extern 2 (keeps R (modify _)) => (apply modify_frame; intros; eauto 3 using R_n, R_self, R_tasks, R_nodes,
  R_triggers, R_topics, R_registry, R_loaded, R_channels, R_ps, R_state, R_raw, R_calls) : keeps.
#[local] Hint Resolve R_key R_acl R_opts : keeps.
Lemma tick_frame : keeps R tick.
Proof. intros s. apply R_n. Qed.
#[local] Hint Resolve tick_frame : keeps.
Lemma await_frame : keeps R (await e).
Proof. unfold await. frame. Qed.
#[local] Hint Resolve await_frame : keeps.
Lemma io_frame : keeps R (io e).
Proof. unfold io. frame. Qed.
Lemma now_frame : keeps R (now e).
Proof. unfold now. frame. Qed.
#[local] Hint Resolve io_frame now_frame : keeps.
Lemma publish_frame m : (forall s, R s (add_pub m s)) -> keeps R (publish e m).
Proof. intros Hm. unfold publish. apply keeps_bind; [apply io_frame|]. intros _ s. apply Hm. Qed.
#[local] Hint Extern 2 (keeps R (publish e _)) => (apply publish_frame; intros; eauto 2 using R_state, R_raw) : keeps.
Lemma bus_call_frame t m p : keeps R (bus_call e t m p).
Proof. unfold bus_call. frame. Qed.
Lemma remote_call_frame t m p o : keeps R (remote_call e t m p o).
Proof. unfold remote_call. frame. Qed.
Lemma ps_publish_frame t d : keeps R (ps_publish e t d).
Proof. unfold ps_publish. frame. Qed.
Lemma subscribe_frame t : keeps R (subscribe_bulk e t).
Proof. unfold subscribe_bulk. frame. Qed.
Lemma unsubscribe_frame t : keeps R (unsubscribe_bulk e t).
Proof. unfold unsubscribe_bulk. frame. Qed.
Lemma key_set_frame k v : keeps R (key_set e k v).
Proof. unfold key_set. frame. Qed.
Lemma key_delete_frame k : keeps R (key_delete e k).
Proof. unfold key_delete. frame. Qed.
#[local] Hint Resolve bus_call_frame remote_call_frame ps_publish_frame subscribe_frame unsubscribe_frame key_set_frame
  key_delete_frame : keeps.

Lemma sensors_frame name b : keeps R (deploy_undeploy_node_state_sensors e name b).
Proof. unfold deploy_undeploy_node_state_sensors. frame. Qed.
Lemma publish_node_state_frame name b o : keeps R (publish_node_state e name b o).
Proof. unfold publish_node_state. frame. Qed.
#[local] Hint Resolve sensors_frame publish_node_state_frame : keeps.
Lemma abort_frame id s : R s (abort id s).
Proof. apply R_tasks. Qed.
Lemma stop_tasks_frame n s : R s (stop_tasks n s).
Proof. unfold stop_tasks. destruct (nd_tasks n) as [[]|]; [|done]. etrans; apply abort_frame. Qed.
#[local] Hint Resolve abort_frame stop_tasks_frame : keeps.
#[local] Hint Extern 3 (keeps R (modify (stop_tasks _))) => (apply modify_frame; intros; apply stop_tasks_frame) : keeps.
#[local] Hint Extern 3 (keeps R (modify (abort _))) => (apply modify_frame; intros; apply abort_frame) : keeps.
Lemma remove_node_frame name : keeps R (remove_node e name).
Proof. unfold remove_node. frame. Qed.
#[local] Hint Resolve remove_node_frame : keeps.
Lemma update_node_frame name f : keeps R (update_node name f).
Proof. unfold update_node. frame. Qed.
#[local] Hint Resolve update_node_frame : keeps.
Lemma mark_node_frame name o i f t : keeps R (mark_node e name o i f t).
Proof. unfold mark_node, mark_node_locked, mark_node_announce. frame. Qed.
#[local] Hint Resolve mark_node_frame : keeps.
Lemma reload_topics_frame name items : keeps R (reload_topics e name items).
Proof. unfold reload_topics. frame. Qed.
Lemma ping_node_frame name k c : keeps R (ping_node e name k c).
Proof. unfold ping_node. frame. Qed.
#[local] Hint Resolve reload_topics_frame ping_node_frame : keeps.
Lemma run_task_frame id m : keeps R m -> keeps R (run_task id m).
Proof. intros Hm. unfold run_task, finish_task. frame. Qed.
Lemma spawn_frame t : keeps R (spawn t).
Proof. intros s. apply R_tasks. Qed.
Lemma trigger_frame id : keeps R (trigger id).
Proof. unfold trigger. frame. Qed.
Lemma send_trigger_frame id b : keeps R (send_trigger id b).
Proof. unfold send_trigger. frame. Qed.
#[local] Hint Extern 1 (keeps R (run_task _ _)) => (apply run_task_frame; frame) : keeps.
#[local] Hint Resolve spawn_frame trigger_frame send_trigger_frame : keeps.
Lemma pinger_turn_frame id : keeps R (pinger_turn e id).
Proof. unfold pinger_turn. frame. Qed.
Lemma append_node_frame n : keeps R (append_node e n).
Proof. unfold append_node. frame. Qed.
#[local] Hint Resolve pinger_turn_frame append_node_frame : keeps.
Lemma append_discovered_frame name i a : keeps R (append_discovered_node e name i a).
Proof. unfold append_discovered_node. frame. Qed.
Lemma append_static_frame n : keeps R (append_static_node e n).
Proof. unfold append_static_node. frame. Qed.
#[local] Hint Resolve append_discovered_frame append_static_frame : keeps.
Lemma state_checker_frame : keeps R (state_checker e).
Proof. unfold state_checker. frame. Qed.
#[local] Hint Resolve state_checker_frame : keeps.

Lemma reload_node_frame name k c t trusted :
  (forall s items, R s (add_pub (PubInventory name items) s)) -> keeps R (reload_node e name k c t trusted).
Proof.
  intros HR. unfold reload_node, reload_apply. frame.
Qed.
Lemma reloader_turn_frame id :
  (forall s name items, R s (add_pub (PubInventory name items) s)) -> keeps R (reloader_turn e id).
Proof.
  intros HR. assert (forall name k c t tr, keeps R (reload_node e name k c t tr)) as Hr by (intros; by apply reload_node_frame).
  unfold reloader_turn, set_active. frame.
Qed.

(** The interfaces. *)
Lemma call_remote_method_frame m p a o : keeps R (call_remote_method e m p a o).
Proof. unfold call_remote_method. frame. Qed.
#[local] Hint Resolve call_remote_method_frame : keeps.
Lemma non_empty_frame {A} b (un : list Z -> EResult A) : keeps R (non_empty b un).
Proof. unfold non_empty. frame. Qed.
Lemma not_local_frame name : keeps R (not_local e name).
Proof. unfold not_local. frame. Qed.
Lemma get_node_frame name : keeps R (get_node (Uuid := Uuid) name).
Proof. unfold get_node. frame. Qed.
#[local] Hint Resolve non_empty_frame not_local_frame get_node_frame : keeps.
Lemma handle_call_frame ready m b : keeps R (repl_handle_call e ready m b).
Proof.
  unfold repl_handle_call, call_remote, call_node_append, call_node_deploy, call_node_undeploy, call_node_export,
    call_node_get_config, call_node_remove, call_node_reload, call_node_test. frame.
Qed.
Lemma notify_frame d : keeps R (notify e d).
Proof. unfold notify, notify_single, notify_bulk. frame. Qed.
#[local] Hint Resolve notify_frame : keeps.
Lemma sender_turn_frame b t buf : keeps R (sender_turn e b t buf).
Proof. unfold sender_turn. frame. Qed.
Lemma submit_frame : keeps R (submit_periodic e).
Proof. unfold submit_periodic. frame. Qed.
Lemma ps_call_frame k m p : keeps R (ps_handle_call e k m p).
Proof.
  unfold ps_handle_call, ps_pull, ps_core_call, ps_rpvt, ps_action_result, ps_bus_call, need_key, need_params. frame.
Qed.
Lemma message_frame m : keeps R (ps_handle_message broker m).
Proof. unfold ps_handle_message. frame. Qed.
Lemma handle_frame_frame ready t b :
  (forall s k o a, R s (set_caches k o a s)) -> keeps R (repl_handle_frame e ready t b).
Proof. intros HR. unfold repl_handle_frame, process_local_state, process_remote_state, send_state. frame. Qed.
Lemma mark_all_offline_frame : keeps R (mark_all_offline e).
Proof. unfold mark_all_offline. frame. Qed.
Lemma discovery_frame p : keeps R (discovery_handler e p).
Proof. unfold discovery_handler. frame. Qed.
Lemma process_state_frame p : (forall s oid ev, R s (add_pub (PubState oid ev) s)) -> keeps R (ps_process_state e p).
Proof. intros HR. unfold ps_process_state. frame. Qed.
Lemma bulk_sender_frame name : keeps R (bulk_sender e name).
Proof. unfold bulk_sender. frame. Qed.
#[local] Hint Resolve bulk_sender_frame discovery_frame : keeps.
Lemma process_bulk_frame p : (forall s evs, R s (add_pub (PubBulk evs) s)) -> keeps R (ps_process_bulk_state e p).
Proof. intros HR. unfold ps_process_bulk_state, bulk_deliver, bulk_auth. frame. Qed.
Lemma load_nodes_frame : keeps R (load_nodes e).
Proof. unfold load_nodes. frame. Qed.
Lemma start_nodes_frame nodes : keeps R (start_nodes e nodes).
Proof. unfold start_nodes. frame. Qed.

Lemma start_frame registry : R (repl_init registry) (repl_start registry).
Proof. unfold repl_start. apply (keeps_bind (R := R)); [apply load_nodes_frame|apply start_nodes_frame]. Qed.
(** Every operation, but for those that publish items and forget keys. *)
Lemma op_frame op :
  (forall ready t b, keeps R (repl_handle_frame e ready t b)) ->
  (forall i, keeps R (process_incoming e i)) -> (forall id, keeps R (reloader_turn e id)) -> keeps R (repl_op op).
Proof.
  intros Hc Hi Hr. destruct op; simpl; try apply keeps_log_ef;
    eauto using handle_call_frame, sender_turn_frame, submit_frame, ps_call_frame, message_frame,
      pinger_turn_frame, state_checker_frame, mark_all_offline_frame.
Qed.
Lemma process_incoming_frame i :
  (forall s oid ev, R s (add_pub (PubState oid ev) s)) -> (forall s evs, R s (add_pub (PubBulk evs) s)) ->
  keeps R (process_incoming e i).
Proof.
  intros H1 H2. unfold process_incoming. frame; eauto using process_bulk_frame, process_state_frame.
Qed.
End frames.

(** ** The caches *)

Lemma await_run s :
  await e s = (if re_yields e (rp_n s) && negb (self_alive s) then Err ENever else Ok (rp_n s), set_n (S (rp_n s)) s).
Proof.
  unfold await, tick. rewrite run_bind. cbv beta iota. rewrite run_bind. unfold get.
  change (self_alive (set_n (S (rp_n s)) s)) with (self_alive s). by destruct (re_yields e (rp_n s) && negb (self_alive s)).
Qed.
Lemma bus_call_run t m p s r s' : bus_call e t m p s = (r, s') ->
  rp_keys s' = rp_keys s /\ rp_acls s' = rp_acls s /\ rp_opts s' = rp_opts s /\
  (r = Err ENever /\ rp_calls s' = rp_calls s \/ rp_calls s' = (mkCall t m p, r) :: rp_calls s).
Proof.
  unfold bus_call. rewrite run_bind, await_run.
  destruct (re_yields e (rp_n s) && negb (self_alive s)); [intros [= <- <-]; simpl; split_and!; auto|].
  cbv beta iota zeta. rewrite run_bind. simpl. intros [= <- <-]. simpl. split_and!; auto.
Qed.
Lemma bus_call_trusting t m p : keeps trusting (bus_call e t m p).
Proof.
  intros s. destruct (bus_call e t m p s) as [r s'] eqn:E. apply bus_call_run in E as (Hk & Ha & Ho & Hc). simpl.
  assert (rp_calls s `suffix_of` rp_calls s') as Hs.
  { destruct Hc as [[_ ->]| ->]; [done|]. by apply suffix_cons_r. }
  pose proof (suffix_subseteq _ _ Hs) as Hl. split; [done|]. intros [H1 H2 H3]. split; rewrite ?Hk, ?Ha, ?Ho.
  - intros k key Hkey. eapply known_key_mono; eauto.
  - intros k acl Hacl. eapply vouched_mono; eauto.
  - intros k o Hopt. destruct (H3 _ _ Hopt) as (key & Hkey & ->). exists key. split; [by eapply known_key_mono|done].
Qed.
Lemma get_key_spec k s r s' : get_key e k s = (r, s') ->
  trusting s s' /\ (caches_ok s -> forall key, r = Ok key -> known_key (rp_calls s') k key).
Proof.
  unfold get_key. rewrite run_bind. simpl. destruct (rp_keys s !! k) as [key|] eqn:Ek.
  { intros [= <- <-]. split; [done|]. intros Hc key' [= <-]. by apply (co_keys _ Hc). }
  rewrite run_bind. pose proof (bus_call_trusting (re_key_svc e) "key.get" (PlKeyGet k) s) as Ht.
  destruct (bus_call e _ _ _ s) as [[b|err] s1] eqn:Eb; [|by intros [= <- <-]]. simpl in Ht.
  rewrite run_bind. simpl. destruct (un_key b) as [key|] eqn:Eun; [|by intros [= <- <-]].
  rewrite run_bind. simpl. intros [= <- <-]. apply bus_call_run in Eb as (_ & _ & _ & [[? _]|Hcalls]); [done|].
  assert (known_key (rp_calls s1) k key) as Hkk by (exists b; rewrite Hcalls; split; [left|done]).
  split; [|by intros _ key' [= <-]]. etrans; [exact Ht|]. split; [done|]. intros [H1 H2 H3]. split; simpl; [|done..].
  intros k' key'. destruct (decide (k = k')) as [<-|Hne].
  - rewrite lookup_insert_eq. by intros [= <-].
  - rewrite lookup_insert_ne by done. apply H1.
Qed.
Lemma get_acl_spec k s r s' : get_acl e k s = (r, s') ->
  trusting s s' /\ (caches_ok s -> forall acl, r = Ok acl -> vouched (rp_calls s') k acl).
Proof.
  unfold get_acl. rewrite run_bind. simpl. destruct (rp_acls s !! k) as [acl|] eqn:Ek.
  { intros [= <- <-]. split; [done|]. intros Hc acl' [= <-]. by apply (co_acls _ Hc). }
  rewrite run_bind. destruct (get_key e k s) as [rk s1] eqn:Eg. apply get_key_spec in Eg as [Ht1 Hk].
  destruct rk as [key|]; [|by intros [= <- <-]]. rewrite run_bind.
  pose proof (bus_call_trusting (re_key_svc e) "auth.key" (PlAuthKey key (re_timeout e)) s1) as Ht2.
  destruct (bus_call e _ _ _ s1) as [[b|err] s2] eqn:Eb; [|intros [= <- <-]; by split; [etrans|]].
  simpl in Ht2. assert (trusting s s2) as Ht by by etrans. rewrite run_bind. simpl.
  destruct (un_acl b) as [acl|] eqn:Eun; [|intros [= <- <-]; by split]. rewrite run_bind. simpl. intros [= <- <-].
  apply bus_call_run in Eb as (_ & _ & _ & [[? _]|Hcalls]); [done|].
  assert (caches_ok s -> vouched (rp_calls s2) k acl) as Hv.
  { intros Hc. exists key, b. rewrite Hcalls. split; [|split; [left|done]].
    eapply known_key_mono; [|by apply Hk]. set_solver. }
  split; [|by intros Hc acl' [= <-]; apply Hv]. destruct Ht as [Hs Hco]. split; [done|]. intros Hc.
  destruct (Hco Hc) as [H1 H2 H3]. split; simpl; [done| |done].
  intros k' acl'. destruct (decide (k = k')) as [<-|Hne].
  - rewrite lookup_insert_eq. intros [= <-]. by apply Hv.
  - rewrite lookup_insert_ne by done. apply H2.
Qed.
Lemma get_enc_opts_spec k s r s' : get_enc_opts e k s = (r, s') ->
  trusting s s' /\ (caches_ok s -> forall o, r = Ok o ->
    exists key, known_key (rp_calls s') k key /\ o = with_encryption Aes256Gcm k key options_new).
Proof.
  unfold get_enc_opts. rewrite run_bind. simpl. destruct (rp_opts s !! k) as [o|] eqn:Ek.
  { intros [= <- <-]. split; [done|]. intros Hc o' [= <-]. by apply (co_opts _ Hc). }
  rewrite run_bind. destruct (get_key e k s) as [rk s1] eqn:Eg. apply get_key_spec in Eg as [Ht Hk].
  destruct rk as [key|]; [|by intros [= <- <-]]. rewrite run_bind. simpl. intros [= <- <-].
  split; [|intros Hc o [= <-]; exists key; split; [by apply Hk|done]].
  destruct Ht as [Hs Hco]. split; [done|]. intros Hc. destruct (Hco Hc) as [H1 H2 H3]. split; simpl; [done..|].
  intros k' o'. destruct (decide (k = k')) as [<-|Hne].
  - rewrite lookup_insert_eq. intros [= <-]. exists key. split; [by apply Hk|done].
  - rewrite lookup_insert_ne by done. apply H3.
Qed.

#[local] Hint Extern 1 (trusting _ _) => (apply unrelated_trusting; done) : keeps.
Lemma get_key_trusting k : keeps trusting (get_key e k).
Proof. intros s. destruct (get_key e k s) eqn:E. by apply get_key_spec in E as [? _]. Qed.
Lemma get_acl_trusting k : keeps trusting (get_acl e k).
Proof. intros s. destruct (get_acl e k s) eqn:E. by apply get_acl_spec in E as [? _]. Qed.
Lemma get_enc_opts_trusting k : keeps trusting (get_enc_opts e k).
Proof. intros s. destruct (get_enc_opts e k s) eqn:E. by apply get_enc_opts_spec in E as [? _]. Qed.
#[local] Hint Resolve get_key_trusting get_acl_trusting get_enc_opts_trusting : keeps.
Ltac trusting_frame :=
  first [by intros; apply unrelated_trusting | intros ? ?; apply bus_call_trusting | solve [intros; eauto 2 with keeps nocore] ].
Lemma add_call_trusting s c r : trusting s (add_call c r s).
Proof.
  assert (rp_calls s ⊆ (c, r) :: rp_calls s) as Hl by set_solver. split; [by apply suffix_cons_r|].
  intros [H1 H2 H3]. split; simpl.
  - intros k key Hk. eapply known_key_mono; eauto.
  - intros k acl Ha. eapply vouched_mono; eauto.
  - intros k o Ho. destruct (H3 _ _ Ho) as (key & Hkey & ->). exists key. split; [by eapply known_key_mono|done].
Qed.
Lemma set_caches_trusting s k o a :
  k ⊆ rp_keys s -> o ⊆ rp_opts s -> a ⊆ rp_acls s -> trusting s (set_caches k o a s).
Proof.
  intros Hk Ho Ha. split; [done|]. intros [H1 H2 H3]. split; simpl; intros; eauto using lookup_weaken.
Qed.
Lemma handle_frame_trusting ready t b : keeps trusting (repl_handle_frame e ready t b).
Proof.
  unfold repl_handle_frame, process_local_state, process_remote_state, send_state. frame.
  all: apply keeps_modify; intros s0; first [by apply unrelated_trusting|apply set_caches_trusting];
    first [reflexivity|apply delete_subseteq|apply map_filter_subseteq].
Qed.
Lemma caches_run registry ops : caches_ok (repl_run ops (repl_start registry)).
Proof.
  assert (trusting (repl_init registry) (repl_start registry)) as [_ Hs].
  { apply (start_frame trusting); first [trusting_frame|apply add_call_trusting]. }
  assert (caches_ok (repl_start registry)) as Hc.
  { apply Hs. split; simpl; intros k x Hk; by rewrite lookup_empty in Hk. }
  clear Hs. unfold repl_run. generalize dependent (repl_start registry). induction ops as [|op ops IH]; intros s Hc; [done|].
  apply IH. assert (keeps trusting (repl_op op)) as Ho; [|by apply (Ho s)].
  apply (op_frame trusting); first [trusting_frame|apply add_call_trusting|apply handle_frame_trusting|idtac].
  - intros i. apply (process_incoming_frame trusting); first [trusting_frame|apply add_call_trusting].
  - intros id. apply (reloader_turn_frame trusting); first [trusting_frame|apply add_call_trusting].
Qed.

(** ** Calls of other nodes *)

(** The calls that ask the key service, and those that a list permits. *)
Definition asks_key (c : Call (Uuid := Uuid)) : Prop :=
  ca_target c = re_key_svc e /\
  match ca_payload c with
  | PlKeyGet _ => ca_method c = "key.get"%string
  | PlAuthKey _ _ => ca_method c = "auth.key"%string
  | _ => False
  end.
Definition permitted (acl : NodeAcl) (c : Call (Uuid := Uuid)) : Prop :=
  match ca_payload c with
  | PlList i _ include exclude =>
      ca_target c = "eva.core"%string /\ ca_method c = "item.list"%string /\ i = re_oids e /\
      include = Some (na_allow_deny_reading acl).1 /\ exclude = (na_allow_deny_reading acl).2 ++ re_oids_exclude e
  | PlParams ps =>
      ca_target c = "eva.core"%string /\ ca_method c ∈ core_methods /\
      exists v str oid, ps !! "i"%string = Some v /\ value_as_str v = Some str /\ oid_of_str str = Ok oid /\
        na_require_item_write acl oid = Ok tt
  | PlUuid _ => ca_target c = "eva.core"%string /\ ca_method c = "action.result"%string
  | PlValue _ | PlEmpty => na_require_admin acl = Ok tt
  | _ => False
  end.
Definition on_behalf l (key_id : option string) (c : Call (Uuid := Uuid)) : Prop :=
  asks_key c \/ exists k acl, key_id = Some k /\ vouched l k acl /\ permitted acl c.
Definition authorized (key_id : option string) s s' : Prop :=
  exists l, rp_calls s' = l ++ rp_calls s /\ Forall (fun cr => on_behalf (rp_calls s') key_id cr.1) l.
#[local] Instance authorized_preorder key_id : PreOrder (authorized key_id).
Proof.
  split; [intros s; by exists []|]. intros s1 s2 s3 (l1 & E1 & H1) (l2 & E2 & H2). exists (l2 ++ l1).
  rewrite E2, E1, app_assoc. split; [done|]. rewrite <-app_assoc, <-E1, <-E2. apply Forall_app. split; [done|].
  eapply Forall_impl; [exact H1|]. intros cr [Ha|(k & acl & Hk & Hv & Hp)]; [by left|right]. exists k, acl.
  split_and!; [done| |done]. eapply vouched_mono; [|done]. rewrite E2. set_solver.
Qed.

Lemma bus_call_authorized key_id t m p s :
  on_behalf (rp_calls s) key_id (mkCall t m p) -> authorized key_id s (bus_call e t m p s).2.
Proof.
  intros Hp. destruct (bus_call e t m p s) as [r s'] eqn:E. apply bus_call_run in E as (_ & _ & _ & Hc). simpl.
  destruct Hc as [[_ Hc]|Hc]; [by exists []|]. exists [(mkCall t m p, r)]. split; [done|]. constructor; [|done].
  destruct Hp as [Ha|(k & acl & Hk & Hv & Hp)]; [by left|right]. exists k, acl. split_and!; [done| |done].
  eapply vouched_mono; [|done]. rewrite Hc. set_solver.
Qed.
Lemma get_key_authorized key_id k : keeps (authorized key_id) (get_key e k).
Proof.
  unfold get_key. apply keeps_get_bind. intros s. destruct (rp_keys s !! k); [done|].
  apply run_bind_rel; [apply bus_call_authorized; left; done|]. intros b s1 _.
  assert (forall f, keeps (authorized key_id) (modify (fun s : Repl => set_caches (f s) (rp_opts s) (rp_acls s) s))) as Hm
    by (intros f s0; by exists []).
  apply run_bind_rel; [done|]. intros key s2 _. apply run_bind_rel; [apply Hm|]. done.
Qed.
Lemma get_acl_authorized key_id k : keeps (authorized key_id) (get_acl e k).
Proof.
  unfold get_acl. apply keeps_get_bind. intros s. destruct (rp_acls s !! k); [done|].
  apply run_bind_rel; [apply get_key_authorized|]. intros key s1 _.
  apply run_bind_rel; [apply bus_call_authorized; left; done|]. intros b s2 _.
  apply run_bind_rel; [done|]. intros acl s3 _. apply run_bind_rel; [by exists []|]. done.
Qed.
(** After the list of the key is known, calls that it permits. *)
Lemma with_acl_authorized {A} k (f : NodeAcl -> RM A) s :
  caches_ok s ->
  (forall acl s1, vouched (rp_calls s1) k acl -> authorized (Some k) s1 (f acl s1).2) ->
  authorized (Some k) s ((acl ← get_acl e k; f acl) s).2.
Proof.
  intros Hc Hf. apply run_bind_rel; [apply get_acl_authorized|]. intros acl s1 Hg. apply Hf.
  apply get_acl_spec in Hg as [_ Hv]. by apply Hv.
Qed.
Lemma lift_authorized {A B} key_id (r : EResult A) (f : A -> RM B) s :
  (forall a, r = Ok a -> authorized key_id s (f a s).2) -> authorized key_id s ((lift r ≫= f) s).2.
Proof. intros Hf. rewrite run_bind. simpl. destruct r; [by apply Hf|done]. Qed.

(** The methods. *)
Lemma ps_pull_authorized key_id params s : caches_ok s -> authorized key_id s (ps_pull e key_id params s).2.
Proof.
  intros Hc. unfold ps_pull, need_key. apply lift_authorized. intros k Hk. destruct key_id as [k0|]; [|done].
  injection Hk as ->. destruct params as [p|]; [done|]. apply with_acl_authorized; [done|]. intros acl s1 Hv.
  destruct (na_allow_deny_reading acl) as [allow deny] eqn:Ead.
  apply run_bind_rel; [|intros b s2 _; by apply lift_authorized]. apply bus_call_authorized. right. exists k, acl.
  split_and!; [done..|]. unfold permitted. simpl. by rewrite Ead.
Qed.
Lemma ps_core_call_authorized method key_id params s :
  method ∈ core_methods -> caches_ok s -> authorized key_id s (ps_core_call e method key_id params s).2.
Proof.
  intros Hm Hc. unfold ps_core_call, need_key, need_params. apply lift_authorized. intros k Hk.
  destruct key_id as [k0|]; [|done]. injection Hk as ->. apply lift_authorized. intros p _. apply lift_authorized. intros ps _.
  apply with_acl_authorized; [done|]. intros acl s1 Hv. apply lift_authorized. intros v Hi.
  apply lift_authorized. intros str Hs. apply lift_authorized. intros oid Ho. apply lift_authorized. intros [] Hw.
  apply run_bind_rel; [|intros b s2 _; done]. apply bus_call_authorized. right. exists k, acl. split_and!; [done..|].
  unfold permitted. simpl. split_and!; [done..|]. exists v, str, oid.
  destruct (ps !! "i"%string) as [v0|]; [|done]. injection Hi as ->.
  destruct (value_as_str v) as [str0|]; [|done]. by injection Hs as ->.
Qed.
Lemma ps_rpvt_authorized key_id params s : caches_ok s -> authorized key_id s (ps_rpvt e key_id params s).2.
Proof.
  intros Hc. unfold ps_rpvt, need_key, need_params. apply lift_authorized. intros k Hk. destruct key_id as [k0|]; [|done].
  injection Hk as ->. apply lift_authorized. intros p _. apply lift_authorized. intros i _.
  apply with_acl_authorized; [done|]. intros acl s1 Hv. apply lift_authorized. intros [] Hr.
  destruct (split_once slash i) as [node url]. destruct (String.eqb node ".local"); [|done].
  apply lift_authorized. intros u _. apply run_bind_rel; [|intros n s2 _; done]. rewrite await_run. by exists [].
Qed.
Lemma ps_action_result_authorized key_id params s :
  caches_ok s -> authorized key_id s (ps_action_result e key_id params s).2.
Proof.
  intros Hc. unfold ps_action_result, need_key, need_params. apply lift_authorized. intros k Hk.
  destruct key_id as [k0|]; [|done]. injection Hk as ->. apply lift_authorized. intros p _.
  apply with_acl_authorized; [done|]. intros acl s1 Hv. apply lift_authorized. intros u _.
  apply run_bind_rel; [|intros b s2 _; repeat (apply lift_authorized; intros ? _); done].
  apply bus_call_authorized. right. exists k, acl. by split_and!.
Qed.
Lemma ps_bus_call_authorized b key_id params s : caches_ok s -> authorized key_id s (ps_bus_call e b key_id params s).2.
Proof.
  intros Hc. unfold ps_bus_call, need_key. apply lift_authorized. intros k Hk. destruct key_id as [k0|]; [|done].
  injection Hk as ->. apply with_acl_authorized; [done|]. intros acl s1 Hv. apply lift_authorized. intros [] Ha.
  apply lift_authorized. intros [target m] _. apply run_bind_rel; [|intros bs s2 _; done].
  apply bus_call_authorized. right. exists k, acl. split_and!; [done..|]. unfold permitted. by destruct params.
Qed.

(** C7: Other nodes act only within the rights of their keys.  At any time, whatever
    call another node makes and whatever key it names, the service calls no other
    service but the key service, and otherwise only what the access control list
    permits that the key service has answered with for that very key: the core is
    asked for the items the list lets read; units, macros and variables are
    controlled only with the right to write to the item; services are called only
    by administrators.  A call without a key has nothing called. *)
Theorem node_calls_authorized registry ops key_id method params :
  let s := repl_run ops (repl_start registry) in
  let s' := (ps_handle_call e key_id method params s).2 in
  exists l, rp_calls s' = l ++ rp_calls s /\ Forall (fun cr => on_behalf (rp_calls s') key_id cr.1) l.
Proof.
  intros s s'. pose proof (caches_run registry ops) as Hc. fold s in Hc. subst s'. clearbody s. fold (authorized key_id s).
  change (authorized key_id s (ps_handle_call e key_id method params s).2).
  unfold ps_handle_call. destruct (negb _); [done|]. destruct (String.eqb method "ping"); [done|].
  destruct (String.eqb method "pull"); [by apply ps_pull_authorized|].
  case_bool_decide; [by apply ps_core_call_authorized|].
  destruct (String.eqb method "rpvt"); [by apply ps_rpvt_authorized|].
  destruct (String.eqb method "action.result"); [by apply ps_action_result_authorized|].
  destruct (strip_prefix "bus::" method) as [b|]; [by apply ps_bus_call_authorized|done].
Qed.

(** ** What is published *)

(** States of nodes, and of the items that show them. *)
Definition plain (m : BusMsg) : Prop := match m with PubNodeState _ _ | PubRaw _ _ _ => True | _ => False end.
Definition plain_only s s' : Prop := exists ms, rp_bus s' = ms ++ rp_bus s /\ Forall plain ms.
#[local] Instance plain_only_preorder : PreOrder plain_only.
Proof.
  split; [intros s; by exists []|]. intros s1 s2 s3 (l1 & E1 & H1) (l2 & E2 & H2). exists (l2 ++ l1).
  rewrite E2, E1, app_assoc. split; [done|]. by apply Forall_app.
Qed.
Definition same_bus s s' : Prop := rp_bus s' = rp_bus s.
#[local] Instance same_bus_preorder : PreOrder same_bus.
Proof. split; [done|]. intros s1 s2 s3 E1 E2. unfold same_bus in *. congruence. Qed.
Lemma same_bus_plain : subrelation same_bus plain_only.
Proof. intros s s' E. by exists []. Qed.
Lemma add_plain s m : plain m -> plain_only s (add_pub m s).
Proof. intros Hm. exists [m]. split; [done|]. by apply Forall_singleton. Qed.
Lemma bus_call_same t m p : keeps same_bus (bus_call e t m p).
Proof.
  intros s. unfold bus_call. rewrite run_bind, await_run.
  by destruct (re_yields e (rp_n s) && negb (self_alive s)).
Qed.
#[local] Hint Resolve bus_call_same : keeps.
#[local] Hint Extern 2 (keeps same_bus (modify _)) => (apply keeps_modify; done) : keeps.
Lemma get_key_same k : keeps same_bus (get_key e k).
Proof. unfold get_key. frame. Qed.
#[local] Hint Resolve get_key_same : keeps.
Lemma get_acl_same k : keeps same_bus (get_acl e k).
Proof. unfold get_acl. frame. Qed.
Lemma get_enc_opts_same k : keeps same_bus (get_enc_opts e k).
Proof. unfold get_enc_opts. frame. Qed.
Ltac plain_frame :=
  first [by intros; apply same_bus_plain
        | by intros; apply add_plain
        | intros; apply (keeps_sub same_bus plain_only _ same_bus_plain);
          first [apply get_key_same|apply get_acl_same|apply get_enc_opts_same] ].
Lemma mark_node_plain name o i f t : keeps plain_only (mark_node e name o i f t).
Proof. apply (mark_node_frame plain_only); plain_frame. Qed.
Lemma bulk_sender_plain name : keeps plain_only (bulk_sender e name).
Proof. apply (bulk_sender_frame plain_only); plain_frame. Qed.

(** Besides plain messages only those that [J] justifies by what was called. *)
Section publishes.
Variable (J : Log -> BusMsg -> Prop).
Hypothesis (J_mono : forall l l' m, l ⊆ l' -> J l m -> J l' m).
Definition publishes s s' : Prop :=
  rp_calls s ⊆ rp_calls s' /\ exists ms, rp_bus s' = ms ++ rp_bus s /\ Forall (fun m => plain m \/ J (rp_calls s') m) ms.
#[local] Instance publishes_preorder : PreOrder publishes.
Proof.
  split; [intros s; split; [done|by exists []]|]. intros s1 s2 s3 [C1 (l1 & E1 & H1)] [C2 (l2 & E2 & H2)].
  split; [by etrans|]. exists (l2 ++ l1). rewrite E2, E1, app_assoc. split; [done|]. apply Forall_app. split; [done|].
  eapply Forall_impl; [exact H1|]. intros m [Hp|Hj]; [by left|right]. eauto.
Qed.
Lemma plain_publishes s s' : rp_calls s ⊆ rp_calls s' -> plain_only s s' -> publishes s s'.
Proof.
  intros Hc (ms & E & H1). split; [done|]. exists ms. split; [done|]. eapply Forall_impl; [exact H1|]. auto.
Qed.
Lemma trusting_calls {A} (m : RM A) s : keeps trusting m -> rp_calls s ⊆ rp_calls (m s).2.
Proof. intros Hm. apply suffix_subseteq, (Hm s). Qed.
Ltac publishes_frame :=
  first [by intros; apply plain_publishes; [|apply same_bus_plain]
        | by intros; apply plain_publishes; [|apply add_plain]
        | by intros s0 c r; apply plain_publishes; [simpl; set_solver|apply same_bus_plain]
        | intros k s0; apply plain_publishes; [apply trusting_calls; eauto 2 with keeps nocore|apply same_bus_plain];
          first [apply get_key_same|apply get_acl_same|apply get_enc_opts_same] ].

Lemma publishes_bind {A B} (m : RM A) (f : A -> RM B) x s :
  J (rp_calls s) x -> keeps publishes m -> (forall a s', J (rp_calls s') x -> publishes s' (f a s').2) ->
  publishes s ((m ≫= f) s).2.
Proof.
  intros Hj Hm Hf. apply run_bind_rel; [apply Hm|]. intros a s' E. apply Hf. specialize (Hm s). rewrite E in Hm.
  destruct Hm as [Hc _]. eauto.
Qed.
Lemma publish_publishes m s : J (rp_calls s) m -> publishes s (publish e m s).2.
Proof.
  intros Hj. unfold publish, io. rewrite !run_bind, await_run.
  destruct (re_yields e (rp_n s) && negb (self_alive s)); [split; [done|by exists []]|]. cbv beta iota. unfold lift.
  destruct (re_io e (rp_n s)); [|split; [done|by exists []]]. split; [done|]. exists [m]. split; [done|].
  constructor; [by right|done].
Qed.
Lemma mark_node_publishes name o i f t : keeps publishes (mark_node e name o i f t).
Proof. apply (mark_node_frame publishes); publishes_frame. Qed.
Lemma other_ops_publish op :
  match op with RoIncoming _ | RoReloader _ | RoFrame _ _ _ => False | _ => True end -> keeps publishes (repl_op op).
Proof.
  intros Hop. destruct op; try done; simpl; try apply keeps_log_ef.
  - apply (handle_call_frame publishes); publishes_frame.
  - apply (sender_turn_frame publishes); publishes_frame.
  - apply (submit_frame publishes); publishes_frame.
  - apply (ps_call_frame publishes); publishes_frame.
  - apply (message_frame publishes); publishes_frame.
  - apply (pinger_turn_frame publishes); publishes_frame.
  - apply (state_checker_frame publishes); publishes_frame.
  - apply (mark_all_offline_frame publishes); publishes_frame.
Qed.
Lemma handle_frame_publishes ready t b : keeps publishes (repl_handle_frame e ready t b).
Proof. apply (handle_frame_frame publishes); publishes_frame. Qed.

(** *** Inventories *)

Lemma reload_apply_publishes name info items t s :
  J (rp_calls s) (PubInventory name items) -> publishes s (reload_apply e name info items t s).2.
Proof.
  intros Hj. unfold reload_apply. rewrite run_bind. simpl.
  eapply publishes_bind; [exact Hj|frame|]. intros _ s2 Hj2.
  eapply publishes_bind; [exact Hj2|apply (now_frame publishes); publishes_frame|]. intros t2 s3 Hj3.
  eapply publishes_bind; [exact Hj3|apply (update_node_frame publishes); publishes_frame|]. intros _ s4 Hj4.
  eapply publishes_bind; [exact Hj4| |].
  { destruct items; [|frame]. destruct (re_subscribe_each e); [|frame]. apply (reload_topics_frame publishes); publishes_frame. }
  intros _ s5 Hj5. apply run_bind_rel; [by apply publish_publishes|]. intros _ s6 _. apply mark_node_publishes.
Qed.
(** The items an untrusted node may replicate. *)
Definition allowed_items l (k : string) (trusted : bool) (items : option (list ReplicationInventoryItem)) : Prop :=
  trusted = false -> exists acl, vouched l k acl /\
    forall its, items = Some its -> Forall (fun i => na_check_item_write acl (ri_oid i) = true) its.
Lemma reload_node_publishes name k c t trusted s :
  caches_ok s -> (forall l items, allowed_items l k trusted items -> J l (PubInventory name items)) ->
  publishes s (reload_node e name k c t trusted s).2.
Proof.
  intros Hc HJ. unfold reload_node.
  apply run_bind_rel; [apply plain_publishes; [apply trusting_calls, get_enc_opts_trusting|apply same_bus_plain, get_enc_opts_same]|].
  intros o s1 E1. assert (caches_ok s1) as Hc1 by (apply get_enc_opts_spec in E1 as [[_ Ht] _]; by apply Ht).
  apply run_bind_rel; [apply (remote_call_frame publishes); publishes_frame|]. intros v s2 E2.
  assert (caches_ok s2) as Hc2.
  { assert (keeps trusting (remote_call e name "pull" None (with_compression (compression_if c) o))) as Hk.
    { apply (remote_call_frame trusting); trusting_frame. }
    specialize (Hk s1). rewrite E2 in Hk. by apply Hk. }
  apply run_bind_rel; [done|]. intros res s3 [= _ <-].
  destruct trusted; [rewrite run_bind, run_ret; apply reload_apply_publishes, HJ; done|].
  rewrite run_bind, run_bind.
  pose proof (plain_publishes s2 _ (trusting_calls _ s2 (get_acl_trusting k)) (same_bus_plain _ _ (get_acl_same k s2))) as Hp.
  destruct (get_acl e k s2) as [[acl|] s4] eqn:E4; [|done]. simpl in Hp. rewrite run_ret. etrans; [exact Hp|].
  apply reload_apply_publishes, HJ. intros _. exists acl. apply get_acl_spec in E4 as [_ Hv]. split; [by apply Hv|].
  intros its. destruct (pd_items res) as [l0|]; [|done]. intros [= <-]. apply Forall_forall. intros i Hi.
  by apply list_elem_of_In, filter_In in Hi as [_ Hi].
Qed.

(** *** States *)

Lemma process_state_publishes p s :
  (forall l oid ev, un_json_rse (ms_data (pb_message p)) = Ok ev -> oid_of_path (subtopic p) = Ok oid ->
     rsee_node ev ≠ re_system_name e -> J l (PubState oid ev)) ->
  publishes s (ps_process_state e p s).2.
Proof.
  intros HJ. unfold ps_process_state. rewrite run_bind. simpl. destruct (un_json_rse _) as [ev|] eqn:Eu; [|done].
  destruct (String.eqb_spec (rsee_node ev) (re_system_name e)); [done|]. rewrite run_bind. simpl.
  destruct (oid_of_path (subtopic p)) as [oid|] eqn:Eo; [|done]. apply publish_publishes. by apply HJ.
Qed.

(** The events of a frame that is encrypted are those its key may write to. *)
Definition bulk_allowed l (enc : Encryption) (sname : string) (evs : list ReplicationStateEventExtended) : Prop :=
  exists data, evs = rd_event_bulk sname <$> data /\
    (enc ≠ EncNo -> exists k acl, vouched l k acl /\ Forall (fun d => na_check_item_write acl (rd_oid d) = true) data).
Lemma bulk_auth_publishes enc compr kb s :
  caches_ok s -> publishes s (bulk_auth e enc compr kb s).2 /\
  forall o auth s1, bulk_auth e enc compr kb s = (Ok (o, auth), s1) -> enc ≠ EncNo ->
    exists k acl, auth = Some acl /\ vouched (rp_calls s1) k acl.
Proof.
  intros Hc.
  assert (let m := key_id ← lift (from_utf8 kb); o ← get_enc_opts e key_id; acl ← get_acl e key_id;
      mret (with_compression compr o, Some acl) in publishes s (m s).2 /\
    forall o auth s1, m s = (Ok (o, auth), s1) -> exists k acl, auth = Some acl /\ vouched (rp_calls s1) k acl) as [H1 H2].
  { cbv zeta. rewrite run_bind. simpl. destruct (from_utf8 kb) as [k|]; [|done]. rewrite run_bind.
    pose proof (plain_publishes s _ (trusting_calls _ s (get_enc_opts_trusting k)) (same_bus_plain _ _ (get_enc_opts_same k s))) as Hp1.
    destruct (get_enc_opts e k s) as [[o|] s1] eqn:E1; [|by split]. simpl in Hp1. apply get_enc_opts_spec in E1 as [[_ Ht] _].
    rewrite run_bind.
    pose proof (plain_publishes s1 _ (trusting_calls _ s1 (get_acl_trusting k)) (same_bus_plain _ _ (get_acl_same k s1))) as Hp2.
    destruct (get_acl e k s1) as [[acl|] s2] eqn:E2; (split; [by etrans|]); [|done]. intros o' auth s3 [= <- <- <-].
    exists k, acl. split; [done|]. apply get_acl_spec in E2 as [_ Hv]. auto. }
  unfold bulk_auth. destruct enc; [by split; [done|]|..]; (split; [exact H1|]; intros o auth s1 Hm _; by eapply H2).
Qed.
Lemma bulk_deliver_publishes sname enc compr frame rest s :
  caches_ok s -> (forall l evs, bulk_allowed l enc sname evs -> J l (PubBulk evs)) ->
  publishes s (bulk_deliver e sname enc compr frame rest s).2.
Proof.
  intros Hc HJ. unfold bulk_deliver. rewrite run_bind. simpl. destruct rest as [rest|]; [|done]. simpl.
  destruct (split_zero rest) as [kb payload]. rewrite run_bind. simpl. destruct payload; [|done]. simpl.
  destruct (bulk_auth_publishes enc compr kb s Hc) as [Hp Ha].
  apply run_bind_rel; [exact Hp|]. intros [o auth] s1 E. specialize (Ha o auth s1 E). rewrite run_bind. simpl.
  destruct (unpack_payload _ _ _) as [b|]; [|done].
  rewrite run_bind. simpl. destruct (un_bulk b) as [data|]; [|done]. apply publish_publishes, HJ.
  eexists. split; [done|]. intros Hne. destruct (Ha Hne) as (k & acl & -> & Hv). exists k, acl. split; [done|].
  apply Forall_forall. intros d Hd. by apply list_elem_of_In, filter_In in Hd as [_ Hd].
Qed.
(** Where a bulk frame comes from: a node that is known and enabled; and a frame on a
    secure topic is encrypted. *)
Definition bulk_frame_of s (p : Publication) (sname : string) (enc : Encryption) : Prop :=
  exists topic n, strip_prefix PS_ITEM_BULK_STATE_TOPIC (ms_topic (pb_message p)) = Some topic /\
    (is_secure e topic = true -> enc ≠ EncNo) /\ rp_nodes s !! sname = Some n /\ nc_enabled (nd_config n) = true /\
    sname ≠ re_system_name e.
Lemma process_bulk_publishes p s :
  caches_ok s ->
  (forall l evs sname enc, bulk_frame_of s p sname enc -> bulk_allowed l enc sname evs -> J l (PubBulk evs)) ->
  publishes s (ps_process_bulk_state e p s).2.
Proof.
  intros Hc HJ. unfold ps_process_bulk_state.
  destruct (strip_prefix PS_ITEM_BULK_STATE_TOPIC _) as [topic|] eqn:Et; [|done].
  destruct (ms_data (pb_message p)) as [|hd [|v [|flags [|x fr]]]] eqn:Ed; try done. rewrite <-Ed.
  destruct (negb (hd =? 0)); [done|]. destruct (negb (v =? PROTO_VERSION)); [done|]. rewrite run_bind. simpl.
  destruct (parse_flags flags) as [[enc compr]|]; [|done].
  destruct (is_secure e topic && negb (bool_decide (enc = Aes256Gcm))) eqn:Esec; [done|].
  destruct (length (ms_data (pb_message p)) <? 5)%nat; [done|].
  destruct (split_zero (drop 5 (ms_data (pb_message p)))) as [nb rest]. rewrite run_bind. simpl.
  destruct (from_utf8 nb) as [sname|]; [|done].
  assert (keeps trusting (bulk_sender e sname)) as Htr by (apply (bulk_sender_frame trusting); trusting_frame || apply add_call_trusting).
  apply run_bind_rel; [apply plain_publishes; [by apply trusting_calls|apply bulk_sender_plain]|].
  intros ours s1 E1. destruct ours; [|done]. simpl. specialize (Htr s). rewrite E1 in Htr. simpl in Htr.
  apply bulk_deliver_publishes; [by apply Htr|]. intros l evs Ha. eapply HJ; [|exact Ha].
  revert E1. unfold bulk_sender. rewrite run_bind. simpl. destruct (rp_nodes s !! sname) as [n|] eqn:En; [|done].
  destruct (nc_enabled (nd_config n)) eqn:Een; [|done]. simpl. rewrite run_bind.
  match goal with |- context [(if nc_api_enabled (nd_config n) then ?a else ?b) s] =>
    destruct ((if nc_api_enabled (nd_config n) then a else b) s) as [[]] end; [|done]. intros [= Hne <-].
  exists topic, n. split_and!; [done| |done..|].
  - intros Hs ->. by rewrite Hs in Esec.
  - intros ->. by rewrite String.eqb_refl in Hne.
Qed.
Lemma run_task_publishes id m s :
  publishes (set_self (Some id) s) (m (set_self (Some id) s)).2 -> publishes s (run_task id m s).2.
Proof.
  intros Hm. unfold run_task. rewrite run_bind. simpl. rewrite run_bind. unfold attempt.
  destruct (m (set_self (Some id) s)) as [r s1]. simpl in Hm. trans s1; [exact Hm|].
  destruct r; simpl; split; try done; by exists [].
Qed.
End publishes.

(** What is published on the bus, and why. *)
Definition justified s l (m : BusMsg) : Prop :=
  match m with
  | PubNodeState _ _ | PubRaw _ _ _ => True
  | PubInventory name items => exists n, rp_nodes s !! name = Some n /\
      allowed_items l (nc_key_id (nd_config n)) (nc_trusted (nd_config n)) items
  | PubState oid ev => exists i ch p, rp_incoming s !! i = Some (ch, p) /\
      un_json_rse (ms_data (pb_message p)) = Ok ev /\ oid_of_path (subtopic p) = Ok oid /\ rsee_node ev ≠ re_system_name e
  | PubBulk evs => exists i ch p sname enc, rp_incoming s !! i = Some (ch, p) /\
      bulk_frame_of s p sname enc /\ bulk_allowed l enc sname evs
  end.
Lemma justified_mono s l l' m : l ⊆ l' -> justified s l m -> justified s l' m.
Proof.
  intros Hl. destruct m as [|name items| |evs|]; simpl; try done.
  - intros (n & Hn & Ha). exists n. split; [done|]. intros Ht. destruct (Ha Ht) as (acl & Hv & Hi). exists acl.
    split; [by eapply vouched_mono|done].
  - intros (i & ch & p & sname & enc & Hi & Hf & data & -> & Hd). exists i, ch, p, sname, enc. split_and!; [done..|].
    exists data. split; [done|]. intros Hne. destruct (Hd Hne) as (k & acl & Hv & Hc). exists k, acl.
    split; [by eapply vouched_mono|done].
Qed.
Lemma reloader_justified s id : caches_ok s -> publishes (justified s) s (reloader_turn e id s).2.
Proof.
  intros Hc. pose proof (publishes_preorder (justified s) (justified_mono s)) as HP.
  unfold reloader_turn. rewrite run_bind. simpl.
  destruct (rp_tasks s !! id) as [[[] name [] q]|]; try reflexivity.
  apply run_task_publishes; [apply justified_mono|]. rewrite run_bind. simpl. rewrite run_bind. simpl.
  destruct (rp_nodes s !! name) as [n|] eqn:En; [|split; [done|by exists []]]. simpl.
  set (s1 := set_task_table _ _ _). rewrite run_bind. unfold set_active at 1, update_node at 1. simpl.
  set (s2 := set_nodes _ s1). assert (publishes (justified s) (set_self (Some id) s) s2) as Hp0 by (split; [done|by exists []]).
  etrans; [exact Hp0|]. rewrite run_bind. unfold attempt.
  pose proof (reload_node_publishes (justified s) (justified_mono s) name (nc_key_id (nd_config n)) (nc_compress (nd_config n))
    (nc_timeout (nd_config n)) (nc_trusted (nd_config n)) s2) as Hr.
  destruct (reload_node e name _ _ _ _ s2) as [r s3]. etrans; [apply Hr|].
  - destruct Hc. by split.
  - intros l items Ha. exists n. by split.
  - apply run_bind_rel; [|intros _ s4 _; split; [done|by exists []]].
    destruct r; [reflexivity|]. apply mark_node_publishes, justified_mono.
Qed.
Lemma incoming_justified s i : caches_ok s -> publishes (justified s) s (process_incoming e i s).2.
Proof.
  intros Hc. pose proof (publishes_preorder (justified s) (justified_mono s)) as HP.
  unfold process_incoming. rewrite run_bind. simpl. destruct (rp_incoming s !! i) as [[ch p]|] eqn:Ei; [|reflexivity].
  rewrite run_bind. simpl. set (s1 := set_channels _ _ s).
  assert (publishes (justified s) s s1) as Hp0 by (split; [done|by exists []]). etrans; [exact Hp0|].
  assert (caches_ok s1) as Hc1 by (destruct Hc; by split). destruct (ch =? CH_BULK)%nat.
  { apply process_bulk_publishes; [apply justified_mono|done|]. intros l evs sname enc Hf Ha. by exists i, ch, p, sname, enc. }
  destruct (ch =? CH_STATE)%nat.
  { apply process_state_publishes; [apply justified_mono|]. intros l oid ev Hu Ho Hne. by exists i, ch, p. }
  apply plain_publishes.
  - apply trusting_calls, (discovery_frame trusting); trusting_frame || apply add_call_trusting.
  - apply (discovery_frame plain_only); plain_frame.
Qed.

End spec.
