(* ===== verification/ReplChain.v ===== *)
(** * From one node to the core of another

    The states a node sends in a bulk frame, encrypted and compressed as it is
    configured, are those the replication service of another node publishes there,
    but for the items the key of the frame does not let write; and its core takes
    over those that are newer. *)
From S2P Require Import Prelude Duration EvaCommon ItemState ItemTree Inventory Core Replication CoreSpec CoreInvariant CoreBehaviour ActMgr CoreAction CoreLaunch CoreOps Seq Logs Launcher SvcMgr Eapi EapiSpec.
From S2P Require Import Password Bytes Psrpc PsrpcSpec Repl ReplApi ReplSpec.
Open Scope Z_scope.

(** What is packed can be read, and an event has the name of its node. *)
Class FrameLaws {Uuid : Type} `{RExt : ReplExternals Uuid} : Prop := {
  un_pack_bulk l b : pack_bulk l = Ok b -> un_bulk b = Ok l;
  fis_rse_node v name : rse_node (fis_rse v name) = name
}.

Section bulk.
Context {Uuid : Type} `{Countable Uuid} `{Ext : Externals, NExt : !NodeExternals, RTypes : !ReplTypes, Hash : HashExternals}.
Context `{PExt : !PsrpcExternals Uuid} `{RExt : !ReplExternals Uuid} `{AExt : !ReplApiExternals}.
Context `{PLaws : !PsrpcLaws} `{FLaws : !FrameLaws}.
Variables (from to : ReplEnv (Uuid := Uuid)).
Implicit Types (s : Repl.Repl (Uuid := Uuid)) (o : Options).
Abbreviation name := (re_system_name from).

(** The key of the frames, when there is one, is in the caches of both nodes. *)
Definition agreed (k : option string) o (acl : option NodeAcl) s s' : Prop :=
  match k with
  | None => o = options_new /\ acl = None
  | Some id => is_word id /\ (exists key, o = with_encryption Aes256Gcm id key options_new) /\
      rp_opts s !! id = Some o /\ rp_opts s' !! id = Some o /\ rp_acls s' !! id = acl /\ is_Some acl
  end.
Lemma agreed_opts id o acl s s' : agreed (Some id) o acl s s' -> get_enc_opts from id s = (Ok o, s).
Proof. intros (_ & _ & E & _). unfold get_enc_opts. rewrite run_bind. simpl. by rewrite E. Qed.

(** ** The sender *)

Lemma notify_bulk_sent cfg o acl data s s' s1 :
  re_bulk_send from = Some cfg -> agreed (bs_encryption_key cfg) o acl s s' ->
  notify from (DBulk data) s = (Ok tt, s1) ->
  exists nonce frame, bulk_frame from (with_compression (compression_if (bs_compress cfg)) o) (bs_encryption_key cfg) nonce data = Ok frame /\
    (exists n, nonce = re_nonce from n) /\
    rp_ps s1 = mkMessage (PS_ITEM_BULK_STATE_TOPIC +:+ bs_topic cfg) frame :: rp_ps s.
Proof.
  intros Hc Ha. unfold notify, notify_bulk. rewrite Hc. cbn [ok_or]. rewrite run_bind. cbn [lift fst].
  rewrite run_bind.
  replace (match bs_encryption_key cfg with Some key_id => get_enc_opts from key_id | None => mret options_new end s)
    with (Ok o : EResult Options, s).
  2:{ destruct (bs_encryption_key cfg) as [id|]; [by rewrite (agreed_opts _ _ _ _ _ Ha)|by destruct Ha as [-> _]]. }
  cbn [fst]. rewrite run_bind. unfold tick at 1. cbn iota beta. rewrite run_bind. unfold lift at 1.
  destruct (bulk_frame _ _ _ _ _) as [frame|] eqn:Ef; [|done]. unfold ps_publish, io. rewrite !run_bind, await_run.
  destruct (_ && _); [done|]. cbn iota beta. unfold lift. destruct (re_io from _); [|done]. intros [= <-].
  exists (re_nonce from (rp_n s)), frame. split; [done|]. split; [by eexists|]. done.
Qed.

(** ** The receiver *)

(** The sender is a node whose frames are taken, and its state need not be announced. *)
Definition takes_frames s topic (k : option string) : Prop :=
  exists n, rp_nodes s !! name = Some n /\ nc_enabled (nd_config n) = true /\
    (nc_api_enabled (nd_config n) = true \/ nd_online n = true) /\
    name ≠ re_system_name to /\ (is_secure to topic = true -> is_Some k).
Lemma bulk_sender_known s topic k :
  takes_frames s topic k -> exists x y, bulk_sender to name s = (Ok true, set_n x (set_nodes y s)).
Proof.
  intros (n & Hn & He & Ho & Hne & _). unfold bulk_sender. rewrite run_bind. simpl. rewrite Hn, He. simpl.
  rewrite (proj2 (String.eqb_neq _ _) Hne). destruct (nc_api_enabled (nd_config n)).
  - rewrite run_bind. exists (rp_n s), (rp_nodes s). by destruct s.
  - destruct Ho as [Ho|Ho]; [done|]. rewrite Ho. rewrite run_bind, run_bind. unfold now. rewrite run_bind. by eexists _, _.
Qed.
Lemma bulk_auth_agreed k o acl c s s' :
  agreed k o acl s s' ->
  bulk_auth to (op_encryption o) c (match k with Some id => as_bytes id | None => [] end) s' =
  (Ok (with_compression c o, acl), s').
Proof.
  unfold bulk_auth. destruct k as [id|]; [|by intros [-> ->]].
  intros ([Ht _] & [key Ho] & _ & Eo & Ea & [a Ha]). assert (op_encryption o = Aes256Gcm) as -> by (by rewrite Ho).
  rewrite run_bind, from_utf8_text by done. cbn [lift fst]. rewrite run_bind. unfold get_enc_opts at 1. rewrite run_bind.
  simpl. rewrite Eo. simpl. rewrite run_bind. unfold get_acl at 1. rewrite run_bind. simpl. rewrite Ea, Ha. done.
Qed.
Definition allowed_by (acl : option NodeAcl) (oid : OID) : bool :=
  match acl with Some a => na_check_item_write a oid | None => true end.
(** Nothing fails at the receiver: the pub/sub and the bus work, and the task that
    processes the frame is not one that can be aborted. *)
Definition undisturbed s : Prop := (forall n, re_io to n = Ok tt) /\ rp_self s = None.
Lemma publish_undisturbed m s : undisturbed s -> publish to m s = (Ok tt, add_pub m (set_n (S (rp_n s)) s)).
Proof.
  intros [Hio Hs]. unfold publish, io. rewrite !run_bind, await_run. unfold self_alive. rewrite Hs, andb_false_r. cbn iota beta.
  by rewrite Hio.
Qed.
Lemma bulk_delivered k o acl c nonce data frame s s' topic pos :
  agreed k o acl s s' -> takes_frames s' topic k -> undisturbed s' -> is_word name -> nonce_ok nonce ->
  bulk_frame from (with_compression c o) k nonce data = Ok frame ->
  exists s2, ps_process_bulk_state to (mkPublication pos (mkMessage (PS_ITEM_BULK_STATE_TOPIC +:+ topic) frame)) s' = (Ok tt, s2) /\
    rp_bus s2 = PubBulk (rd_event_bulk name <$> List.filter (fun d => allowed_by acl (rd_oid d)) data) :: rp_bus s'.
Proof.
  intros Ha Ht Hu [Hnt Hnz] Hn. unfold bulk_frame. destruct (pack_bulk data) as [p|] eqn:Ep; [|done]. cbn [mbind EResult_bind].
  destruct (pack_payload _ nonce p) as [body|] eqn:Eb; [|done]. cbn [mbind EResult_bind]. intros [= <-].
  set (kb := match k with Some id => as_bytes id | None => [] end).
  assert (no_zero kb) as Hkz.
  { unfold kb. destruct k; [by destruct Ha as [[] _]|]. apply not_elem_of_nil. }
  unfold ps_process_bulk_state. cbn [pb_message ms_topic ms_data]. rewrite strip_prefix_app. cbn [app].
  rewrite Z.eqb_refl. cbn [negb]. rewrite Z.eqb_refl. cbn [negb].
  rewrite run_bind, parse_flags_flags. cbn [lift fst op_encryption op_compression with_compression].
  assert (is_secure to topic && negb (bool_decide (op_encryption o = Aes256Gcm)) = false) as ->.
  { destruct (is_secure to topic) eqn:Es; [|done]. destruct Ht as (_ & _ & _ & _ & _ & Hsec). destruct (Hsec Es) as [id ->].
    destruct Ha as (_ & [key ->] & _). done. }
  cbn [length Nat.ltb Nat.leb].
  match goal with |- context [split_zero ?x] => change x with (as_bytes name ++ 0 :: kb ++ 0 :: body) end.
  rewrite split_zero_app by done. rewrite run_bind, from_utf8_text by done. cbn [lift fst].
  rewrite run_bind. destruct (bulk_sender_known _ _ _ Ht) as (x & y & ->). cbn [negb].
  set (s1 := set_n x (set_nodes y s')).
  unfold bulk_deliver. rewrite run_bind. cbn [ok_or lift fst]. rewrite split_zero_app by done. rewrite run_bind. cbn [ok_or lift fst].
  pose proof (bulk_auth_agreed k o acl c s s1 Ha) as Hauth. fold kb in Hauth. rewrite run_bind, Hauth, run_bind.
  pose proof (unpack_pack_payload (with_compression c o) nonce
    (0 :: PROTO_VERSION :: options_flags (with_compression c o) :: 0 :: 0 :: as_bytes name ++ 0 :: kb ++ [0]) p body Hn Eb) as Hp.
  match type of Hp with unpack_payload _ ?f ?n = _ => match goal with |- context [unpack_payload _ ?f' ?n'] =>
    replace f' with f; [replace n' with n; [rewrite Hp|]|] end end.
  - cbn [lift fst]. rewrite run_bind, (un_pack_bulk _ _ Ep). cbn [lift fst]. rewrite publish_undisturbed by done.
    eexists. split; [reflexivity|]. done.
  - simpl. rewrite !length_app, as_bytes_length. simpl. rewrite length_app. simpl. lia.
  - simpl. by rewrite <-!app_assoc; simpl; rewrite <-!app_assoc.
Qed.
End bulk.

(** ** To the core *)

Section chain.
Context `{Ext : Externals, NExt : !NodeExternals, !ObjectMaps, LogLevels, SvcExternals, !ParamsCodec, !IeidLaws, !OidLaws}.
Context {Uuid Id : Type} `{Countable Id} `{!EapiExternals Id} `{Countable Uuid} `{RTypes : !ReplTypes, Hash : HashExternals}.
Context `{PExt : !PsrpcExternals Uuid} `{RExt : !ReplExternals Uuid} `{AExt : !ReplApiExternals}.
Context `{PLaws : !PsrpcLaws} `{FLaws : !FrameLaws}.
Variables (from to : ReplEnv (Uuid := Uuid)) (core : SysEnv (Uuid := Id)).
Abbreviation name := (re_system_name from).
Hypothesis (rse_oid_item : forall o r, rse_oid (RseBasicItem o r) = Some o).

(** The states that are let through, as events of the core. *)
Definition events_sent (acl : option NodeAcl) (sts : list FullItemState) : list (OID * ReplicationStateEvent) :=
  (fun v => (fis_oid v, fis_rse v name)) <$> List.filter (fun v => allowed_by acl (fis_oid v)) sts.
Lemma bulk_of_states acl sts :
  rd_event_bulk name <$> List.filter (fun d => allowed_by acl (rd_oid d)) (RdState <$> sts) =
  state_events (events_sent acl sts).
Proof.
  unfold state_events, events_sent. induction sts as [|v sts IH]; [done|].
  cbn [fmap list_fmap List.filter rd_oid]. destruct (allowed_by acl (fis_oid v)); [|exact IH].
  cbn [fmap list_fmap rd_event_bulk]. by f_equal.
Qed.
(** The state of an item does not get older, and no state it could take is newer than
    the one it ends with. *)
Lemma replicas_later o item l st :
  let st' := foldl (replica o item) st l in
  st_ieid st' = st_ieid st \/ ieid_gtb (st_ieid st') (st_ieid st) = true.
Proof.
  revert st. induction l as [|r l IH]; intros st; simpl; [by left|].
  assert (st_ieid (replica o item st r) = st_ieid st \/ ieid_gtb (st_ieid (replica o item st r)) (st_ieid st) = true) as Hst1.
  { unfold replica. destruct (it_source item); [|by left]. destruct (_ && _) eqn:Ec; [|by left].
    apply andb_prop in Ec as [_ Ec]. by right. }
  destruct (IH (replica o item st r)) as [->|Hst2]; [done|]. right.
  destruct Hst1 as [<-|Hst1]; [done|by eapply ieid_gtb_trans].
Qed.
Lemma replicas_newest o item src l st :
  it_source item = Some src -> src_node src = name -> Forall (fun r => rse_node r = name) l ->
  Forall (fun r => takes_state o r = true ->
    ieid_gtb (rs_ieid (rse_state r)) (st_ieid (foldl (replica o item) st l)) = false) l.
Proof.
  intros Hs Hn. revert st. induction l as [|r l IH]; intros st Hl; [constructor|].
  inversion_clear Hl as [|? ? Hr Hl']. constructor; [|by apply IH]. intros Ht. cbn [foldl].
  apply not_true_is_false. intros E.
  assert (replica o item st r = if ieid_gtb (rs_ieid (rse_state r)) (st_ieid st) then set_from_rs (rse_state r) st else st) as Er.
  { unfold replica. by rewrite Hs, Ht, Hn, Hr, String.eqb_refl. }
  assert (ieid_gtb (rs_ieid (rse_state r)) (st_ieid (replica o item st r)) = false) as Hf.
  { rewrite Er. destruct (ieid_gtb (rs_ieid (rse_state r)) (st_ieid st)) eqn:Ei; [apply ieid_gtb_irrefl|done]. }
  destruct (replicas_later o item l (replica o item st r)) as [Hst1|Hst1]; [congruence|].
  rewrite (ieid_gtb_trans _ _ _ E Hst1) in Hf. done.
Qed.

(** C6: States of items reach the core of another node.  A node flushes states to the
    pub/sub server, in a frame that is encrypted when a key is configured, and the
    call succeeds.  At another node that knows the sender, accepts the topic and has
    the same key, the frame is processed, and exactly the states of the items that the
    list of the key lets write are published; once the core of that node has processed
    the frame of the bus, every item has the state that comes of taking over, in the
    order they were sent, those of its states that are newer than the one it has, and
    only if it is an item of the sender.  So of an item of the sender no state that
    was let through is newer than the one the core ends with, whatever the order. *)
Theorem states_replicated cfg o acl sts s s' s1 pos sys payload sender :
  re_bulk_send from = Some cfg -> agreed (bs_encryption_key cfg) o acl s s' ->
  takes_frames from to s' (bs_topic cfg) (bs_encryption_key cfg) -> undisturbed to s' ->
  is_word name -> (forall n, nonce_ok (re_nonce from n)) ->
  is_active sys = true -> inv_good (w_inv (sys_world sys)) -> creates_none (events_sent acl sts) (sys_world sys) ->
  notify from (DBulk (RdState <$> sts)) s = (Ok tt, s1) ->
  let evs := state_events (events_sent acl sts) in
  exists m s2, rp_ps s1 = m :: rp_ps s /\
    ps_process_bulk_state to (mkPublication pos m) s' = (Ok tt, s2) /\ rp_bus s2 = PubBulk evs :: rp_bus s' /\
    (up_repl_bulk payload = Ok evs ->
     exists sys', replication_bulk_state_handler core payload sender sys = (Ok tt, sys') /\
       w_inventory (sys_world sys') = w_inventory (sys_world sys) /\
       forall oid item c, get_item oid (w_inventory (sys_world sys)) = Some item -> it_state item = Some c ->
         let st' := read_state (w_store (sys_world sys')) c in
         st' = foldl (replica oid item) (read_state (w_store (sys_world sys)) c) (events_of oid (events_sent acl sts)) /\
         forall src, it_source item = Some src -> src_node src = name ->
           Forall (fun r => takes_state oid r = true -> ieid_gtb (rs_ieid (rse_state r)) (st_ieid st') = false)
             (events_of oid (events_sent acl sts))).
Proof.
  intros Hc Ha Ht Hu Hw Hn Hact Hg Hcr Hs evs.
  destruct (notify_bulk_sent from cfg o acl _ s s' s1 Hc Ha Hs) as (nonce & frame & Ef & [n ->] & Eps).
  destruct (bulk_delivered from to _ o acl _ _ _ frame s s' _ pos Ha Ht Hu Hw (Hn n) Ef) as (s2 & Ep & Eb).
  rewrite bulk_of_states in Eb. exists (mkMessage (PS_ITEM_BULK_STATE_TOPIC +:+ bs_topic cfg) frame), s2.
  split_and!; [done..|]. intros Hup.
  destruct (bulk_states core rse_oid_item _ payload sender sys Hup Hact Hg Hcr) as (sys' & E & Hi & Hst).
  exists sys'. split_and!; [done..|]. intros oid item c Hit Hl st'. split; [by apply Hst|]. intros src Hsrc Hsn.
  unfold st'. rewrite (Hst oid item c) by done. eapply replicas_newest; [done..|]. unfold events_of, events_sent.
  apply Forall_fmap, Forall_forall. intros [p r] Hp. apply list_elem_of_filter in Hp as [_ Hp].
  apply list_elem_of_fmap in Hp as (v & [= -> ->] & _). apply fis_rse_node.
Qed.
End chain.
