(* ===== verification/ReplExamples.v ===== *)
(** * Examples of remote calls and of the replication

    Two nodes with a cipher that checks the key, but hides nothing; values are
    lists of numbers.  The second node has the lamp of [CoreExamples] from the
    first one. *)
From S2P Require Import Prelude Duration EvaCommon ItemState ItemTree Inventory Core Replication CoreSpec CoreInvariant CoreBehaviour CoreExamples ActMgr CoreAction CoreLaunch CoreOps Seq Logs Launcher SvcMgr SvcMgrExamples Eapi EapiSpec EapiExamples.
From S2P Require Import Password Bytes Psrpc PsrpcSpec Repl ReplApi ReplSpec ReplChain.
Open Scope Z_scope.

Module ReplExamples.
Import Sample CoreExamples.
#[local] Existing Instances SvcMgrExamples.levels SvcMgrExamples.svc_externals SvcMgrExamples.codec EapiExamples.objects
  EapiExamples.eapi_externals.

#[local] Instance hashes : HashExternals := {|
  sha256 b := b; sha512 b := b; pbkdf2_hmac p s _ := Ok (s ++ p);
  hex_encode := string_of_bytes; hex_decode s := Some (as_bytes s);
  base64_encode := string_of_bytes; base64_decode s := Some (as_bytes s) |}.

Definition tag (k : list Z) : list Z := take 16 (k ++ replicate 16 0).
Definition kinds : list Error :=
  [EInvalidData; EInvalidParams; ENotImplemented; ENotFound; EDuplicate; EBusy; EAccess; EFailed; ECore; ETimeout;
   ENotReady; EAborted; EBusClientNotRegistered; EMethodNotFound; EInternalRpc; EUnsupported; EMoreData; EAuthRequired;
   EIo].
Fixpoint index_of (k : Error) (l : list Error) : nat :=
  match l with [] => 0 | x :: l => if decide (x = k) then 0 else S (index_of k l) end.
#[local] Instance psrpc_externals : PsrpcExternals bool := {|
  bzip2_encode b := Ok (7 :: b);
  bzip2_decode b := match b with 7 :: b => Ok b | _ => Err EInvalidData end;
  encrypt_aead _ k _ p := Ok (p, tag k);
  decrypt_aead _ k _ x d := if bool_decide (d = tag k) then Ok x else Err EInvalidData;
  pack v :=
    match v with
    | SUnit => Ok [192] | SNum z => Ok [1; z] | SBytes b => Ok (2 :: b) | SStr s => Ok (3 :: as_bytes s)
    | SF64 _ => Err EInvalidData
    end;
  unpack b :=
    match b with
    | [192] => Ok SUnit | [1; z] => Ok (SNum z) | 2 :: b => Ok (SBytes b) | 3 :: b => Ok (SStr (string_of_bytes b))
    | _ => Err EInvalidData
    end;
  uuid_as_u128 (u : bool) := if u then 1 else 0;
  uuid_from_u128 z := z =? 1;
  kind_code k := Z.of_nat (index_of k kinds);
  kind_of_code z := nth (Z.to_nat z) kinds EFailed |}.
#[local] Instance psrpc_laws : PsrpcLaws.
Proof.
  split.
  - by intros b c [= <-].
  - intros c k iv p x d [= <- <-]. simpl. by rewrite bool_decide_true.
  - intros c k iv p x d [= <- <-]. unfold tag. rewrite length_take, length_app, length_replicate. lia.
  - intros [] c [= <-]; simpl; [done|done|done|]. by rewrite string_of_as_bytes.
  - by intros [] c [= <-].
  - intros []; simpl; lia.
  - by intros [].
  - intros []; vm_compute; by split.
  - by intros [].
Qed.

(** ** Calls *)

Ltac word := apply (bool_decide_eq_true_1 (is_word _)); vm_refl.

Definition keys (id : string) : string := "secret".
Definition handlers (who : string) : RpcHandlers nat :=
  mkHandlers (fun _ => mret tt)
    (fun key method ps => _ ← modify S; if String.eqb method "ping" then mret (Done SUnit)
       else match ps with Some v => mret (Done v) | None => mret (Failed ENotFound (Some "what")) end)
    (fun id => mret "secret").

(** An encrypted and compressed call; the request is delivered twice. *)
Definition opts : Options := with_encryption Aes256Gcm "k1" "secret" (with_compression Bzip2 options_new).
Definition iv : EResult (list Z) := Ok (replicate 12 9).
Definition nodes : gmap string nat := {[ "a"%string := 0%nat; "b"%string := 5%nat ]}.
Definition calls : list (NetOp (Uuid := bool) (St := nat)) :=
  [NCall "a" "b" opts iv true "echo" (Some (SNum 5)); NDeliver "b" 0 iv; NDeliver "b" 0 iv; NDeliver "a" 2 iv].
Definition reply_at (who : string) (u : bool) (n : Net (Uuid := bool) (St := nat)) : option Reply :=
  p ← nt_peers n !! who; pr_replies p !! u.
Lemma iv_ok : nonce_ok iv.
Proof. by intros x [= <-]. Qed.
Lemma opts_ok : opts_of keys opts.
Proof. exists Aes256Gcm, Bzip2, "k1"%string. split; [done|]. word. Qed.
Definition echoed (o : option Reply) : bool :=
  match o with Some rep => match call_reply opts rep with Ok (Done (SNum 5)) => true | _ => false end | None => false end.

Lemma rpc_faithful_witness :
  exists rep r, reply_at "a" true (net_run handlers "rpc/" calls (net_start nodes)) = Some rep /\
    answered_by handlers "rpc/" nodes calls "b" (Some "k1") "echo" (Some (SNum 5)) r /\
    call_reply opts rep = Ok (delivered r).
Proof.
  assert (echoed (reply_at "a" true (net_run handlers "rpc/" calls (net_start nodes))) = true) as Hr by vm_refl.
  unfold reply_at in *. destruct (nt_peers _ !! "a"%string) as [p|] eqn:Ep; [|done]. cbn [mbind option_bind] in *.
  destruct (pr_replies p !! true) as [rep|] eqn:Er; [|done]. exists rep.
  destruct (rpc_faithful handlers keys "rpc/" nodes) with (ops := calls) (from := "a"%string) (target := "b"%string)
    (o := opts) (nonce := iv) (u := true) (m := "echo"%string) (ps := Some (SNum 5)) (p := p) (rep := rep) as (r & Ha & Hc).
  - by intros who id s k s' [= <- _].
  - intros who id m ps s r s'. unfold handlers, rh_call. rewrite run_bind. destruct (String.eqb m "ping"); [by intros [= <- _]|].
    destruct ps; by intros [= <- _].
  - unfold calls. repeat constructor; try apply iv_ok; try apply opts_ok; try done; word.
  - apply (bool_decide_eq_true_1 _). vm_refl.
  - apply list_elem_of_here.
  - exact Ep.
  - exact Er.
  - exists r. by split_and!.
Defined.

Definition pong : Outcome := Done SUnit.
(** The answer to a ping without encryption is dropped, and the call goes on waiting. *)
Lemma rpc_completes_witness :
  exists p, nt_peers (net_run handlers "rpc/" [NCall "a" "b" options_new iv true "ping" None; NDeliver "b" 0 iv; NDeliver "a" 1 iv]
    (net_start nodes)) !! "a"%string = Some p /\ pr_replies p !! true = None /\ true ∈ pr_calls p.
Proof.
  destruct (call_message (Uuid := bool) "a" options_new iv "rpc/" "b" true "ping" None) as [msg|] eqn:Em; [|done].
  destruct (reply_data (Uuid := bool) options_new iv true pong) as [d|] eqn:Ed; [|done].
  pose proof (rpc_completes handlers keys "rpc/" (net_start nodes) "a" "b" options_new iv iv iv true "ping" None msg
    (mkPeer ∅ ∅ None 0%nat) (mkPeer ∅ ∅ None 5%nat) pong 5%nat 6%nat d) as H.
  assert (length d = 21%nat) as Hd by (by injection Ed as <-). rewrite Hd in H. apply H; try done.
  - word.
  - word.
  - exists EncNo, ComprNo, "k1"%string. split; [done|word].
  - apply iv_ok.
  - apply iv_ok.
Defined.

(** ** Replication *)

(** The states of a node are sent as those of the lamp of [CoreExamples]: the number
    of an event and the item. *)
#[local] Instance repl_types : ReplTypes := {|
  NodeAcl := list string;
  na_check_item_write acl o := existsb (String.eqb (oid_full_id o)) acl;
  na_require_item_write _ _ := Ok tt; na_require_item_read _ _ := Ok tt; na_require_admin _ := Ok tt;
  na_require_rpvt_read _ _ := Ok tt; na_allow_deny_reading acl := (acl, []); na_contains_acl _ _ := false;
  FullItemState := string * Z;
  fis_oid v := (Unit, v.1);
  fis_rse v name := mkRse (rse_state (lamp_event v.2)) name false;
  fis_of_local _ o := (o.2, 0); fis_of_remote _ o := (o.2, 0) |}.
Fixpoint un_pairs (l : list Z) : EResult (list ReplicationData) :=
  match l with
  | [] => Ok []
  | 99 :: z :: l => r ← un_pairs l; Ok (RdState ("c"%string, z) :: r)
  | 100 :: z :: l => r ← un_pairs l; Ok (RdState ("d"%string, z) :: r)
  | _ => Err EInvalidData
  end.
Fixpoint pairs (l : list ReplicationData) : EResult (list Z) :=
  match l with
  | [] => Ok []
  | RdState (o, z) :: l =>
      r ← pairs l;
      if String.eqb o "c" then Ok (99 :: z :: r) else if String.eqb o "d" then Ok (100 :: z :: r) else Err EInvalidData
  | _ => Err EInvalidData
  end.
Definition no {A B} (a : A) : EResult B := Err EInvalidData.
#[local] Instance repl_externals : ReplExternals bool := {|
  un_acl := no; un_key := no; un_items := no; un_local_state := no; un_remote_state := no; un_map := no; un_value := no;
  map_of_value := no; value_of_map := no; value_as_str _ := None; VStr := SStr; pull_of_value := no; value_of_pull := no;
  id_of_value := no; uuid_of_value := no; node_to_value := no; node_of_value := no; oid_of_str := no;
  un_node_status := no; json_rse := no; un_json_rse := no; rsee_node _ := "?"%string;
  pack_bulk := pairs; un_bulk := un_pairs;
  PS_ITEM_STATE_TOPIC := "item/"%string; PS_ITEM_BULK_STATE_TOPIC := "bulk/"%string; PS_NODE_STATE_TOPIC := "node/"%string |}.
#[local] Instance repl_api_externals : ReplApiExternals := {|
  un_id := no; un_append := no; un_deploy := no; un_undeploy := no; oid_of_path := no;
  LOCAL_STATE_TOPIC := "L/"%string; REMOTE_STATE_TOPIC := "R/"%string; AAA_KEY_TOPIC := "K/"%string;
  AAA_ACL_TOPIC := "A/"%string |}.
Lemma un_pairs_pairs l b : pairs l = Ok b -> un_pairs b = Ok l.
Proof.
  revert b. induction l as [|[i|[o z]] l IH]; intros b; simpl; [by intros [= <-]|done|].
  destruct (pairs l) as [r|]; [|done]. simpl. destruct (String.eqb_spec o "c"), (String.eqb_spec o "d"); try done; subst;
    intros [= <-]; simpl; by rewrite (IH r).
Qed.
#[local] Instance frame_laws : FrameLaws (Uuid := bool).
Proof. split; [apply un_pairs_pairs|done]. Qed.

Definition node_env (name : string) (send : option BulkSendConfig) : ReplEnv (Uuid := bool) :=
  mkReplEnv name "eva.aaa.localauth" 5000000000 None "default" "info"%string [] [] true false
    (Some {[ "secure"%string ]}) send false true (fun _ => Ok tt) (fun _ => true) (fun _ _ => Err EFailed)
    (fun _ _ _ _ _ => Err EFailed) (fun _ _ => Err EFailed) (fun _ => 0) (fun _ => iv) (fun _ => None).
Definition sending : ReplEnv := node_env "node2" (Some (mkBulkSend "secure" true (Some "k1"%string))).
Definition receiving : ReplEnv := node_env "node1" None.
Definition frame_opts : Options := with_encryption Aes256Gcm "k1" "secret" options_new.
(** The list of the key lets write to the lamp. *)
Definition with_key (s : Repl.Repl (Uuid := bool)) : Repl.Repl (Uuid := bool) :=
  set_caches {[ "k1"%string := "secret"%string ]} {[ "k1"%string := frame_opts ]} {[ "k1"%string := ["c"%string] ]} s.
Definition sender_state : Repl.Repl (Uuid := bool) := with_key (repl_init ∅).
Definition node2_config : NodeConfig := mkNodeConfig "node2" 0 0 true true 0 false "k1" None true.
Definition receiver_state : Repl.Repl (Uuid := bool) :=
  set_nodes {[ "node2"%string := node_of_config node2_config ]} (with_key (repl_init ∅)).
(** The states of the lamp come out of order; there is one of an item that may not be
    written. *)
Definition lamp_states : list FullItemState := [("c"%string, 6); ("d"%string, 9); ("c"%string, 8); ("c"%string, 7)].
Definition is_frame (r : EResult unit) : bool := match r with Ok _ => true | Err _ => false end.

(** The lamp ends with the newest of its states. *)
Lemma states_replicated_witness :
  exists sys', replication_bulk_state_handler EapiExamples.sys_env [1] "eva.repl.1" (EapiExamples.sys w2) = (Ok tt, sys') /\
    rs_ieid (rse_state (lamp_event 8)) = st_ieid (read_state (w_store (sys_world sys')) 6%positive).
Proof.
  assert (is_frame (notify sending (DBulk (RdState <$> lamp_states)) sender_state).1 = true) as Hn by vm_refl.
  destruct (notify sending (DBulk (RdState <$> lamp_states)) sender_state) as [[[]|] s1] eqn:En; [|done].
  destruct (states_replicated sending receiving EapiExamples.sys_env ltac:(done)
    (mkBulkSend "secure" true (Some "k1"%string)) frame_opts (Some ["c"%string]) lamp_states sender_state receiver_state s1 0
    (EapiExamples.sys w2) [1] "eva.repl.1") as (m & s2 & _ & _ & _ & Hc); try done.
  - split; [word|]. split; [by exists "secret"%string|]. split_and!; [vm_refl..|done].
  - exists (node_of_config node2_config). split_and!; try done. by left.
  - word.
  - intros n. apply iv_ok.
  - apply w2_good.
  - intros p Hp. by apply list_elem_of_fmap in Hp as (v & -> & _).
  - destruct (Hc eq_refl) as (sys' & E & _ & Hs). exists sys'. split; [exact E|].
    destruct (Hs lamp lamp_item 6%positive) as [-> _]; [vm_refl|done|]. vm_refl.
Defined.
End ReplExamples.
