(* ===== verification/FileWriter.v ===== *)
(** * The file writer service (svc/svc-filewriter/src/main.rs)

    The service appends the states of items to a file, as lines of CSV or JSON, and
    rotates the file on request or by a schedule.

    Files are inodes under names.  A handle has an inode and a position; as files are
    opened for appending, a write goes to the end of the file.  Every operation on files
    may fail, and a write may put only a part of its bytes into the file before it
    fails; [FwEnv] says so, as a function of the number of operations before.  That the
    runtime buffers what it writes until it is flushed is not modelled. *)
From S2P Require Import Prelude Duration EvaCommon Password Bytes.
Open Scope Z_scope.

(** ** The crates *)

Class FwExternals `{Ext : Externals} := {
  oid_group : OID -> option string;
  oid_id : OID -> string;
  kind_string : ItemKind -> string;
  f64_string : f64 -> string;
  i16_string : Z -> string;
  value_display : Value -> string;
  val_string : string -> Value;
  val_i16 : Z -> Value;
  (* serde_json, for the fields of a state *)
  json_string : gmap string Value -> EResult string;
  (* chrono: a local time as RFC 3339, of a rounded timestamp; one that is out of
     range panics *)
  rfc3339_of_ts : f64 -> EResult string;
  rfc3339 : Z -> string;
  date_format : string -> Z -> string;
  (* the status, the value and the time of a state *)
  un_state : list Z -> EResult (Z * option Value * f64);
  un_states_connected : list Z -> EResult (list (OID * Z * option Value * bool));
  LOCAL_STATE_TOPIC : string;
  REMOTE_STATE_TOPIC : string;
  REMOTE_ARCHIVE_STATE_TOPIC : string
}.

Section writer.
Context `{Ext : Externals, NExt : !NodeExternals, FExt : !FwExternals, Hash : HashExternals}.

(** ** Lines *)

(** svc/svc-filewriter/src/main.rs:262-267 [DataFormat] *)
Inductive DataFormat := Json | Csv.
(** svc/svc-filewriter/src/main.rs:56-69 [FieldKind] *)
Inductive FieldKind := FkOID | FkType | FkGroup | FkId | FkTimestamp | FkTime | FkStatus | FkValue.
(** svc/svc-filewriter/src/main.rs:35-54 [default_fields] *)
Definition default_fields (format : DataFormat) : list FieldKind :=
  match format with
  | Json => [FkOID; FkTimestamp; FkStatus; FkValue]
  | Csv => [FkOID; FkType; FkGroup; FkId; FkTimestamp; FkTime; FkStatus; FkValue]
  end.
(** [eva_sdk::types::ItemState] *)
Record ItemState := mkItemState { is_oid : OID; is_status : Z; is_value : option Value; is_set_time : f64 }.
(** svc/svc-filewriter/src/main.rs:72-95 [FieldKind::default_name] *)
Definition default_name (k : FieldKind) (format : DataFormat) : string :=
  match format with
  | Json =>
      match k with
      | FkOID => "oid" | FkType => "type" | FkGroup => "group" | FkId => "id" | FkTimestamp => "t" | FkTime => "dt"
      | FkStatus => "status" | FkValue => "value"
      end
  | Csv =>
      match k with
      | FkOID => "OID" | FkType => "Type" | FkGroup => "Group" | FkId => "Id" | FkTimestamp => "Timestamp"
      | FkTime => "Time" | FkStatus => "Status" | FkValue => "Value"
      end
  end%string.
(** svc/svc-filewriter/src/main.rs:656-663 [date_str] *)
Definition date_str (t : f64) : EResult string := rfc3339_of_ts t.
(** svc/svc-filewriter/src/main.rs:96-110 [FieldKind::data_value_from] *)
Definition data_value_from (k : FieldKind) (state : ItemState) : EResult Value :=
  match k with
  | FkOID => Ok (val_string (oid_as_str (is_oid state)))
  | FkType => Ok (val_string (kind_string (oid_kind (is_oid state))))
  | FkGroup => Ok (match oid_group (is_oid state) with Some g => val_string g | None => VUnit end)
  | FkId => Ok (val_string (oid_id (is_oid state)))
  | FkTimestamp => Ok (VF64 (is_set_time state))
  | FkTime => d ← date_str (is_set_time state); Ok (val_string d)
  | FkStatus => Ok (val_i16 (is_status state))
  | FkValue => Ok (default value_default (is_value state))
  end.

Definition quote : Ascii.ascii := Ascii.ascii_of_nat 34.
Definition comma : Ascii.ascii := Ascii.ascii_of_nat 44.
Definition cr : Ascii.ascii := Ascii.ascii_of_nat 13.
Definition lf : Ascii.ascii := Ascii.ascii_of_nat 10.
(** svc/svc-filewriter/src/main.rs:144-144 [CSV_ESCAPED_CHARS] *)
Definition csv_escaped_char (c : Ascii.ascii) : bool :=
  Ascii.eqb c comma || Ascii.eqb c cr || Ascii.eqb c lf || Ascii.eqb c quote.
Fixpoint double_quotes (s : string) : string :=
  match s with
  | EmptyString => EmptyString
  | String c s => if Ascii.eqb c quote then String quote (String quote (double_quotes s)) else String c (double_quotes s)
  end.
Fixpoint any_char (p : Ascii.ascii -> bool) (s : string) : bool :=
  match s with EmptyString => false | String c s => p c || any_char p s end.
(** svc/svc-filewriter/src/main.rs:134-144 [escape_csv] *)
Definition escape_csv (s : string) : string :=
  let s := double_quotes s in
  if any_char csv_escaped_char s then String quote (s +:+ String quote EmptyString) else s.
(** svc/svc-filewriter/src/main.rs:111-131 [FieldKind::write_csv_string_from]: what is
    written *)
Definition csv_string_from (k : FieldKind) (state : ItemState) : EResult string :=
  match k with
  | FkOID => Ok (oid_as_str (is_oid state))
  | FkType => Ok (kind_string (oid_kind (is_oid state)))
  | FkGroup => Ok (default EmptyString (oid_group (is_oid state)))
  | FkId => Ok (oid_id (is_oid state))
  | FkTimestamp => Ok (f64_string (is_set_time state))
  | FkTime => date_str (is_set_time state)
  | FkStatus => Ok (i16_string (is_status state))
  | FkValue => Ok (match is_value state with Some v => escape_csv (value_display v) | None => EmptyString end)
  end.

(** svc/svc-filewriter/src/main.rs:539-543 [DataGen] *)
Record DataGen := mkDataGen { dg_format : DataFormat; dg_dos_cr : bool; dg_fields : list FieldKind }.
(** svc/svc-filewriter/src/main.rs:546-553 [DataGen::new] *)
Definition data_gen_new (format : DataFormat) (dos_cr : bool) (fields : option (list FieldKind)) : DataGen :=
  mkDataGen format dos_cr (default (default_fields format) fields).
(** svc/svc-filewriter/src/main.rs:594-601 [DataGen::prepare] *)
Definition prepare (g : DataGen) (s : string) : list Z :=
  as_bytes (s +:+ (if dg_dos_cr g then String cr EmptyString else EmptyString) +:+ String lf EmptyString).
Definition csv_comma : string := String comma EmptyString.
(** svc/svc-filewriter/src/main.rs:554-568 [DataGen::header] *)
Definition header (g : DataGen) : option (list Z) :=
  match dg_format g with
  | Json => None
  | Csv => Some (prepare g (String.concat csv_comma ((fun k => default_name k (dg_format g)) <$> dg_fields g)))
  end.
Fixpoint json_fields (fields : list FieldKind) (state : ItemState) (data : gmap string Value) : EResult (gmap string Value) :=
  match fields with
  | [] => Ok data
  | k :: fields => v ← data_value_from k state; json_fields fields state (<[default_name k Json := v]> data)
  end.
Fixpoint csv_fields (fields : list FieldKind) (state : ItemState) (s : string) : EResult string :=
  match fields with
  | [] => Ok s
  | k :: fields =>
      let s := match s with EmptyString => s | _ => s +:+ csv_comma end in
      t ← csv_string_from k state;
      csv_fields fields state (s +:+ t)
  end.
(** svc/svc-filewriter/src/main.rs:569-593 [DataGen::line] *)
Definition line (g : DataGen) (state : ItemState) : EResult (list Z) :=
  match dg_format g with
  | Json => data ← json_fields (dg_fields g) state ∅; s ← json_string data; Ok (prepare g s)
  | Csv => s ← csv_fields (dg_fields g) state EmptyString; Ok (prepare g s)
  end.

(** ** Files *)

Record Files := mkFiles {
  fl_names : gmap string nat;
  fl_inodes : gmap nat (list Z);
  fl_next : nat
}.
Record Fw := mkFw {
  fw_files : Files;
  fw_cache : gmap (list Z) Z;       (* LINE_CACHE *)
  fw_n : nat                        (* operations so far *)
}.
Definition set_files (x : Files) (s : Fw) : Fw := mkFw x (fw_cache s) (fw_n s).
Definition set_cache (x : gmap (list Z) Z) (s : Fw) : Fw := mkFw (fw_files s) x (fw_n s).
Definition set_fw_n (x : nat) (s : Fw) : Fw := mkFw (fw_files s) (fw_cache s) x.
Definition content (i : nat) (f : Files) : list Z := default [] (fl_inodes f !! i).
Definition set_content (i : nat) (c : list Z) (f : Files) : Files :=
  mkFiles (fl_names f) (<[i := c]> (fl_inodes f)) (fl_next f).

Record FwEnv := mkFwEnv {
  fe_base : string;
  fe_rotated : option string;
  fe_gen : DataGen;
  fe_auto_flush : bool;
  fe_dedup : bool;                  (* NEED_DEDUP_LINES *)
  fe_io : nat -> EResult unit;
  fe_written : nat -> option nat;   (* a write that fails, and what it has written before *)
  fe_now : nat -> Z                 (* the clocks *)
}.
Variable (e : FwEnv).
Abbreviation FM := (M Fw).

Definition fw_tick : FM nat := fun s => (Ok (fw_n s), set_fw_n (S (fw_n s)) s).
Definition fw_io : FM unit := n ← fw_tick; lift (fe_io e n).
Definition fw_now : FM Z := n ← fw_tick; mret (fe_now e n).
(** The file of a name, which is created if there is none. *)
Definition fw_open (path : string) : FM nat :=
  _ ← fw_io;
  s ← get;
  let f := fw_files s in
  match fl_names f !! path with
  | Some i => mret i
  | None =>
      let i := fl_next f in
      _ ← modify (set_files (mkFiles (<[path := i]> (fl_names f)) (<[i := []]> (fl_inodes f)) (S i)));
      mret i
  end.
(** The position after it is the end of the file. *)
Definition fw_write_all (i : nat) (data : list Z) : FM nat :=
  n ← fw_tick;
  s ← get;
  let c := content i (fw_files s) in
  match fe_written e n with
  | None => _ ← modify (set_files (set_content i (c ++ data) (fw_files s))); mret (length (c ++ data))
  | Some k => _ ← modify (set_files (set_content i (c ++ take k data) (fw_files s))); raise EIo
  end.
Definition fw_read_byte (i pos : nat) : FM Z :=
  _ ← fw_io;
  s ← get;
  lift (ok_or (content i (fw_files s) !! pos) EIo).
Definition fw_set_len (i len : nat) : FM unit :=
  _ ← fw_io;
  s ← get;
  let c := content i (fw_files s) in
  modify (set_files (set_content i (take len (c ++ replicate (len - length c) 0)) (fw_files s))).
Definition fw_rename (from to : string) : FM unit :=
  _ ← fw_io;
  s ← get;
  let f := fw_files s in
  i ← lift (ok_or (fl_names f !! from) EIo);
  modify (set_files (mkFiles (<[to := i]> (delete from (fl_names f))) (fl_inodes f) (fl_next f))).

(** svc/svc-filewriter/src/main.rs:322-328 [generate_file_path] *)
Definition generate_file_path (base_file_path : string) (dt : Z) : string :=
  if contains base_file_path "%" then date_format base_file_path dt else base_file_path.
(** svc/svc-filewriter/src/main.rs:330-359 [sync_dirs]: it may only fail *)
Definition sync_dirs : FM unit := fw_io.

Definition LF : Z := 10.
(** The loop of [truncate_last_line] (svc/svc-filewriter/src/main.rs:362-375); [cursor]
    is the position in the file, which is returned *)
Fixpoint truncate_loop (fuel i pos cursor : nat) : FM nat :=
  match fuel with
  | O => raise ENever
  | S fuel =>
      if (pos <? 2)%nat then _ ← fw_set_len i 0; mret cursor
      else if (cursor <? 2)%nat then raise EIo
      else
        let pos := (cursor - 2)%nat in
        b ← fw_read_byte i pos;
        if b =? LF then _ ← fw_set_len i (S pos); mret (S pos)
        else truncate_loop fuel i pos (S pos)
  end.
(** svc/svc-filewriter/src/main.rs:361-378 [truncate_last_line] *)
Definition truncate_last_line (i cursor : nat) : FM nat :=
  cursor ← truncate_loop (S cursor) i cursor cursor;
  _ ← fw_io;
  mret cursor.
(** svc/svc-filewriter/src/main.rs:380-392 [truncate_if_broken] *)
Definition truncate_if_broken (i cursor : nat) : FM nat :=
  if (0 <? cursor)%nat then
    s ← get;
    let len := length (content i (fw_files s)) in
    b ← fw_read_byte i (len - 1);
    if negb (b =? LF) then truncate_last_line i len else mret len
  else mret cursor.

(** ** The handler *)

(** svc/svc-filewriter/src/main.rs:314-320 [Event] *)
Inductive Event := EvState (state : ItemState) | EvBulkState (states : list ItemState) | EvFlush | EvRotate | EvQuit.

(** svc/svc-filewriter/src/main.rs:159-172 [can_write_line] *)
Definition can_write_line (l : list Z) : FM bool :=
  if fe_dedup e then
    let checksum := sha256 l in
    s ← get;
    match fw_cache s !! checksum with
    | None => now ← fw_now; _ ← modify (fun s => set_cache (<[checksum := now]> (fw_cache s)) s); mret true
    | Some _ => mret false
    end
  else mret true.
(** svc/svc-filewriter/src/main.rs:174-177 [clean_dedup_cache] *)
Definition clean_dedup_cache (d : Duration) : FM unit :=
  now ← fw_now;
  modify (fun s => set_cache (filter (fun p => now - p.2 < d) (fw_cache s)) s).

(** The variables of [file_handler]: the time of the opening, the path, and the handle
    with its inode and position. *)
Record Handler := mkHandler { hd_dt : Z; hd_path : string; hd_fx : option (nat * nat) }.

(** The handle for an event (svc/svc-filewriter/src/main.rs:411-445) *)
Definition handler_open (h : Handler) : FM (Handler * (nat * nat)) :=
  r ← attempt (
    match hd_fx h with
    | None => raise ENotFound
    | Some (i, pos) =>
        _ ← fw_io;                                  (* metadata of the path *)
        s ← get;
        lift (ok_or (fl_names (fw_files s) !! hd_path h) ENotFound)
    end);
  same ← match hd_fx h, r with
         | Some (i, pos), Ok i' => _ ← fw_io; mret (if (i =? i')%nat then Some (i, pos) else None)
         | _, _ => mret None
         end;
  match same with
  | Some fd => mret (h, fd)
  | None =>
      i ← fw_open (hd_path h);
      _ ← sync_dirs;
      _ ← fw_io;                                    (* seek to the end *)
      s ← get;
      cursor ← truncate_if_broken i (length (content i (fw_files s)));
      dt ← fw_now;
      mret (mkHandler dt (hd_path h) (Some (i, cursor)), (i, cursor))
  end.
(** A file that is empty gets the header (svc/svc-filewriter/src/main.rs:446-456) *)
Definition handler_header (i cursor : nat) : FM nat :=
  _ ← fw_io;
  if (cursor =? 0)%nat then
    match header (fe_gen e) with
    | Some h => fw_write_all i h
    | None => mret cursor
    end
  else mret cursor.
Definition flush : FM unit := fw_io.
Definition auto_flush : FM unit := if fe_auto_flush e then flush else mret tt.
(** [Event::Rotate] (svc/svc-filewriter/src/main.rs:492-528) *)
Definition handler_rotate (h : Handler) : FM Handler :=
  _ ← flush;
  match fe_rotated e with
  | Some path =>
      let rotated_path := generate_file_path path (hd_dt h) in
      _ ← fw_rename (hd_path h) rotated_path;
      _ ← sync_dirs;
      mret (mkHandler (hd_dt h) (generate_file_path (fe_base e) (hd_dt h)) None)
  | None =>
      if contains (fe_base e) "%" then mret (mkHandler (hd_dt h) (generate_file_path (fe_base e) (hd_dt h)) None)
      else
        let rotated_path := (hd_path h +:+ "." +:+ rfc3339 (hd_dt h))%string in
        _ ← fw_rename (hd_path h) rotated_path;
        _ ← sync_dirs;
        mret (mkHandler (hd_dt h) (hd_path h) None)
  end.
(** svc/svc-filewriter/src/main.rs:394-537 [file_handler], one event; returns whether
    to go on *)
Definition handle_event (ev : Event) (h : Handler) : FM (Handler * bool) :=
  '(h, (i, cursor)) ← handler_open h;
  cursor ← handler_header i cursor;
  let go cursor := (mkHandler (hd_dt h) (hd_path h) (Some (i, cursor)), true) in
  match ev with
  | EvState state =>
      l ← lift (line (fe_gen e) state);
      ok ← can_write_line l;
      if negb (ok : bool) then mret (go cursor)
      else
        cursor ← fw_write_all i l;
        _ ← auto_flush;
        mret (go cursor)
  | EvBulkState states =>
      ls ← for_collect (fun state => lift (line (fe_gen e) state)) states;
      match concat ls with
      | [] => mret (go cursor)
      | buf =>
          cursor ← fw_write_all i buf;
          _ ← auto_flush;
          mret (go cursor)
      end
  | EvQuit => _ ← flush; mret (mkHandler (hd_dt h) (hd_path h) (Some (i, cursor)), false)
  | EvFlush => _ ← flush; mret (go cursor)
  | EvRotate => h ← handler_rotate h; mret (h, true)
  end.
(** A handler that starts (svc/svc-filewriter/src/main.rs:407-409) *)
Definition handler_new : FM Handler :=
  dt ← fw_now; mret (mkHandler dt (generate_file_path (fe_base e) dt) None).
(** The task of the handler, for the events of the channel: after an error it starts
    anew (svc/svc-filewriter/src/main.rs:709-720) *)
Fixpoint writer_task (events : list Event) (h : Handler) : FM unit :=
  match events with
  | [] => mret tt
  | ev :: events =>
      r ← attempt (handle_event ev h);
      match r with
      | Ok (h, true) => writer_task events h
      | Ok (_, false) => mret tt
      | Err EPanic => raise EPanic
      | Err _ => h ← handler_new; writer_task events h
      end
  end.
Definition writer (events : list Event) : FM unit := h ← handler_new; writer_task events h.

(** ** Events of the bus *)

(** svc/svc-filewriter/src/main.rs:184-209 [process_state]: what is queued *)
Definition process_state (path : string) (payload : list Z) : list Event :=
  match oid_from_path path with
  | Ok oid =>
      match un_state payload with
      | Ok (status, value, set_time) => [EvState (mkItemState oid status value set_time)]
      | Err _ => []
      end
  | Err _ => []
  end.
(** svc/svc-filewriter/src/main.rs:236-254 [handle_frame] *)
Definition handle_frame (topic : string) (payload : list Z) : list Event :=
  match strip_prefix LOCAL_STATE_TOPIC topic with
  | Some o => process_state o payload
  | None =>
      match strip_prefix REMOTE_STATE_TOPIC topic with
      | Some o => process_state o payload
      | None => match strip_prefix REMOTE_ARCHIVE_STATE_TOPIC topic with Some o => process_state o payload | None => [] end
      end
  end.
(** svc/svc-filewriter/src/main.rs:213-234 [handle_call]; the methods
    all services have are those of the SDK *)
Definition handle_call (method : string) (payload : list Z) : EResult (list Event) :=
  if String.eqb method "flush" then match payload with [] => Ok [EvFlush] | _ :: _ => Err EInvalidParams end
  else if String.eqb method "rotate" then match payload with [] => Ok [EvRotate] | _ :: _ => Err EInvalidParams end
  else Err EMethodNotFound.
(** svc/svc-filewriter/src/main.rs:604-654 [collect_periodic], one turn: the time of the
    tick and the answer of the core *)
Definition collect_periodic (t : f64) (skip_disconnected : bool) (reply : EResult (list Z)) : EResult (list Event) :=
  data ← reply;
  states ← un_states_connected data;
  let states := List.filter (fun s => negb skip_disconnected || s.2) states in
  match states with
  | [] => Ok []
  | _ :: _ => Ok [EvBulkState ((fun '(oid, status, value, _) => mkItemState oid status value t) <$> states)]
  end.
End writer.
