(* ===== verification/FileWriterSpec.v ===== *)
(** * The file writer service: properties

    Whatever fails, files consist of whole lines, in the order of the events, but for
    the end of a line that was being written, which is removed before anything else is
    written to the file; and when nothing fails, no line is lost. *)
From S2P Require Import Prelude Duration EvaCommon Password Bytes FileWriter.
Open Scope Z_scope.

Section spec.
Context `{Ext : Externals, NExt : !NodeExternals, FExt : !FwExternals, Hash : HashExternals}.
Variable (e : FwEnv).
Implicit Types (s : Fw) (f : Files) (h : Handler) (c l : list Z) (i : nat).

(** ** Records *)

(** A line with something before its end. *)
Definition is_record l : Prop := exists b, l = b ++ [LF] /\ b ≠ [] /\ LF ∉ b.
(** What was written: to which file, whether as a header, and the line. *)
Abbreviation Entry := (nat * (bool * list Z))%type.
Implicit Types (log : list Entry).
Definition records i log : list (list Z) := (filter (fun p => p.1 = i) log).*2.*2.
Definition lines_of log : list (list Z) := (filter (fun p => p.2.1 = false) log).*2.*2.
(** A file has its records, and perhaps a part of one more. *)
Definition file_ok log i c : Prop := exists part, c = concat (records i log) ++ part /\ LF ∉ part.
Record files_ok log f : Prop := {
  fo_files i : file_ok log i (content i f);
  fo_records : Forall is_record (log.*2.*2);
  fo_headers n i hd : log !! n = Some (i, (true, hd)) -> records i (take n log) = [];
  fo_fresh i : (fl_next f <= i)%nat -> fl_inodes f !! i = None;
  fo_names p i : fl_names f !! p = Some i -> (i < fl_next f)%nat
}.
Definition clean c : Prop := c = [] \/ (2 <= length c)%nat /\ last c = Some LF.
Definition entries i (b : bool) (ls : list (list Z)) : list Entry := (fun l => (i, (b, l))) <$> ls.

Lemma content_set i j c f : content i (set_content j c f) = if decide (i = j) then c else content i f.
Proof. unfold content, set_content. simpl. case_decide as Hd; [rewrite Hd; by rewrite lookup_insert_eq|by rewrite lookup_insert_ne]. Qed.
Lemma records_app i log log' : records i (log ++ log') = records i log ++ records i log'.
Proof. unfold records. by rewrite filter_app, !fmap_app. Qed.
Lemma lines_app log log' : lines_of (log ++ log') = lines_of log ++ lines_of log'.
Proof. unfold lines_of. by rewrite filter_app, !fmap_app. Qed.
Lemma records_in i log r : r ∈ records i log -> r ∈ log.*2.*2.
Proof.
  unfold records. rewrite !list_elem_of_fmap. intros (x & -> & Hx). exists x. split; [done|].
  apply list_elem_of_fmap in Hx as (y & -> & [_ Hy]%list_elem_of_filter). apply list_elem_of_fmap. by exists y.
Qed.
Lemma records_entries i j b ls : records j (entries i b ls) = if decide (i = j) then ls else [].
Proof.
  unfold records, entries. case_decide as Hd; induction ls as [|l ls IH]; try done; rewrite fmap_cons.
  - rewrite filter_cons_True by done. by rewrite !fmap_cons, IH.
  - by rewrite filter_cons_False.
Qed.
Lemma lines_entries i b ls : lines_of (entries i b ls) = if b then [] else ls.
Proof.
  unfold lines_of, entries. destruct b; induction ls as [|l ls IH]; try done; rewrite fmap_cons.
  rewrite filter_cons_True by done. by rewrite !fmap_cons, IH.
Qed.
Lemma entries_records i b ls : (entries i b ls).*2.*2 = ls.
Proof. unfold entries. rewrite <- !list_fmap_compose. apply list_fmap_id. Qed.
Lemma concat_clean rs : Forall is_record rs -> clean (concat rs).
Proof.
  intros Hr. destruct rs as [|r rs _] using rev_ind; [by left|]. right. apply Forall_app in Hr as [_ Hr].
  apply Forall_singleton in Hr as (b & -> & Hb & _). rewrite concat_app. simpl. rewrite app_nil_r, app_assoc. split; [|apply last_snoc].
  rewrite !length_app. destruct b; [done|simpl; lia].
Qed.
Lemma concat_nil rs : Forall is_record rs -> concat rs = [] -> rs = [].
Proof. intros Hr Hc. destruct rs as [|r rs]; [done|]. inversion Hr as [|?? (b & -> & _) _]. simpl in Hc. by destruct b. Qed.
Lemma records_ok i log f : files_ok log f -> Forall is_record (records i log).
Proof. intros Hf. apply Forall_forall. intros r Hr%records_in. by apply (Forall_forall is_record (log.*2.*2)); [apply Hf|]. Qed.
(** A file that ends with a line feed has no part of a record. *)
Lemma file_ok_whole log i c : file_ok log i c -> last c = Some LF -> c = concat (records i log).
Proof.
  intros (part & -> & Hp) Hw. destruct part as [|x part _] using rev_ind; [by rewrite app_nil_r|].
  rewrite app_assoc, last_snoc in Hw. injection Hw as ->. set_solver.
Qed.
(** What a write that is not complete leaves. *)
Lemma take_concat ls : Forall is_record ls -> forall k,
  exists n part, take k (concat ls) = concat (take n ls) ++ part /\ LF ∉ part.
Proof.
  induction 1 as [|l ls (b & -> & _ & Hb) _ IH]; intros k.
  { exists O, []. split; [by destruct k|set_solver]. }
  cbn [concat]. destruct (decide (k < length (b ++ [LF]))%nat) as [Hk|Hk].
  - exists O, (take k b). rewrite length_app in Hk. simpl in Hk. rewrite take_app_le by (rewrite length_app; simpl; lia).
    rewrite take_app_le by lia. split; [done|]. intros Hin. apply Hb. apply list_elem_of_lookup_1 in Hin as [n Hn].
    apply lookup_take_Some in Hn as [Hn _]. by apply list_elem_of_lookup_2 in Hn.
  - destruct (IH (k - length (b ++ [LF]))%nat) as (n & part & Ht & Hp). exists (S n), part. split; [|done].
    rewrite take_app_ge by lia. rewrite Ht. simpl. by rewrite <- !app_assoc.
Qed.

(** Records that are written to a file at once. *)
Lemma files_ok_write log f i b ls part :
  files_ok log f -> (i < fl_next f)%nat -> content i f = concat (records i log) -> Forall is_record ls -> LF ∉ part ->
  (b = true -> records i log = [] /\ length ls <= 1)%nat ->
  files_ok (log ++ entries i b ls) (set_content i (content i f ++ concat ls ++ part) f).
Proof.
  intros Hf Hi Hc Hls Hp Hb. split.
  - intros j. rewrite content_set. unfold file_ok. rewrite records_app, records_entries. case_decide as Hj.
    + subst j. exists part. rewrite decide_True by done. by rewrite concat_app, <- app_assoc, Hc.
    + rewrite decide_False by done. rewrite app_nil_r. apply Hf.
  - rewrite !fmap_app, entries_records. apply Forall_app. split; [apply Hf|done].
  - intros n j hd [Hn|[Hle Hn]]%lookup_app_Some.
    + rewrite take_app_le by (apply lookup_lt_Some in Hn; lia). by eapply Hf.
    + unfold entries in Hn. apply list_lookup_fmap_Some in Hn as (l & [= -> <- ->] & Hn).
      destruct Hb as [Hr Hlen]; [done|]. apply lookup_lt_Some in Hn. rewrite take_app_le by lia. by rewrite take_ge by lia.
  - intros j Hj. simpl in *. rewrite lookup_insert_ne by lia. by apply Hf.
  - apply Hf.
Qed.
(** A file is cut to its records. *)
Lemma files_ok_cut log f i :
  files_ok log f -> (i < fl_next f)%nat -> files_ok log (set_content i (concat (records i log)) f).
Proof.
  intros Hf Hi. split; try apply Hf.
  - intros j. rewrite content_set. case_decide as Hj; [subst j|apply Hf]. exists []. rewrite app_nil_r. split; [done|set_solver].
  - intros j Hj. simpl in *. rewrite lookup_insert_ne by lia. by apply Hf.
Qed.

(** ** The end of a file is repaired *)

(** A run may be free of failures. *)
Variable (fair : Prop).
Hypothesis fair_io : fair -> forall n, fe_io e n = Ok tt.
Hypothesis fair_written : fair -> forall n, fe_written e n = None.

(** What holds of the files before and after an operation: [Q] when it succeeds, [E]
    when it fails. *)
Definition triple {A} (P : Files -> Prop) (m : M Fw A) (Q : A -> Files -> Prop) (E : Files -> Prop) : Prop :=
  forall s, P (fw_files s) -> match m s with (Ok a, s') => Q a (fw_files s') | (Err _, s') => ~ fair /\ E (fw_files s') end.
Lemma triple_bind {A B} P (m : M Fw A) (k : A -> M Fw B) Q R E :
  triple P m Q E -> (forall a, triple (Q a) (k a) R E) -> triple P (m ≫= k) R E.
Proof.
  intros Hm Hk s Hs. rewrite run_bind. specialize (Hm s Hs). destruct (m s) as [[a|] s1]; [|done]. by apply Hk.
Qed.
Lemma triple_seq {A B} P (m : M Fw A) (k : A -> M Fw B) Q R E :
  triple P m (fun _ => Q) E -> (forall a, triple Q (k a) R E) -> triple P (m ≫= k) R E.
Proof. apply triple_bind. Qed.
Lemma triple_ret {A} (a : A) (P : Files -> Prop) (Q : A -> Files -> Prop) E : (forall f, P f -> Q a f) -> triple P (mret a) Q E.
Proof. intros HQ s. apply HQ. Qed.
Lemma triple_post {A} (P P' : Files -> Prop) (m : M Fw A) (Q Q' : A -> Files -> Prop) (E E' : Files -> Prop) :
  triple P m Q E -> (forall f, P' f -> P f) -> (forall a f, Q a f -> Q' a f) -> (forall f, E f -> E' f) -> triple P' m Q' E'.
Proof. intros Hm HP HQ HE s Hs. specialize (Hm s (HP _ Hs)). destruct (m s) as [[a|] s1]; naive_solver. Qed.
Lemma triple_io P : triple P (fw_io e) (fun _ => P) P.
Proof.
  intros s Hs. unfold fw_io, fw_tick. unfold_m. simpl. destruct (fe_io e (fw_n s)) eqn:He; [done|].
  split; [intros Hfair; by rewrite (fair_io Hfair) in He|done].
Qed.
Lemma triple_io_seq {A} (P : Files -> Prop) (k : unit -> M Fw A) Q (E : Files -> Prop) :
  (forall f, P f -> E f) -> triple P (k tt) Q E -> triple P (fw_io e ≫= k) Q E.
Proof. intros HE Hk. apply (triple_seq P _ _ P); [|by intros []]. by apply (triple_post P P _ (fun _ => P) _ P); [apply triple_io|..]. Qed.
Lemma triple_now P : triple P (fw_now e) (fun _ => P) P.
Proof. intros s Hs. done. Qed.
Lemma triple_get_bind {A} (P : Files -> Prop) (k : Fw -> M Fw A) Q E :
  (forall s, P (fw_files s) -> triple (fun f => f = fw_files s /\ P f) (k s) Q E) -> triple P (s ← get; k s) Q E.
Proof. intros Hk s Hs. rewrite run_bind. simpl. by apply Hk. Qed.

Lemma triple_set_len (P : Files -> Prop) i len (Q : Files -> Prop) :
  (forall f, P f -> (len <= length (content i f))%nat /\ Q (set_content i (take len (content i f)) f)) ->
  triple P (fw_set_len e i len) (fun _ => Q) P.
Proof.
  intros HQ. unfold fw_set_len. eapply triple_seq; [apply triple_io|intros _]. intros s Hs. unfold_m. simpl.
  destruct (HQ _ Hs) as [Hl H]. by rewrite take_app_le.
Qed.
Lemma triple_read (P : Files -> Prop) i pos b :
  (forall f, P f -> content i f !! pos = Some b) -> triple P (fw_read_byte e i pos) (fun b' f => b' = b /\ P f) P.
Proof.
  intros Hb. unfold fw_read_byte. eapply triple_seq; [apply triple_io|intros _]. intros s Hs. unfold_m. simpl.
  by rewrite (Hb _ Hs).
Qed.

(** The file up to its last line feed; the first byte is not looked at. *)
Lemma truncate_loop_spec (P : Files -> Prop) i pre part fuel : forall pos cursor,
  (forall f, P f -> content i f = pre ++ part) ->
  clean pre -> LF ∉ part ->
  (length pre < cursor <= length (pre ++ part))%nat -> (pos = cursor \/ S pos = cursor)%nat -> (cursor <= fuel)%nat ->
  triple P (truncate_loop e fuel i pos cursor)
    (fun k f => (0 < k)%nat /\ exists f0, P f0 /\ f = set_content i pre f0) P.
Proof.
  induction fuel as [|fuel IH]; intros pos cursor HP Hpre Hpart Hc Hpos Hf; [lia|]. cbn [truncate_loop].
  destruct (Nat.ltb_spec pos 2) as [Hp|Hp].
  { assert (Hn : pre = []) by (destruct Hpre as [|[? _]]; [done|lia]). subst pre.
    eapply triple_seq; [apply (triple_set_len P i 0 (fun f => exists f0, P f0 /\ f = set_content i [] f0))|intros _].
    - intros f Hf'. split; [lia|]. rewrite take_0. eauto.
    - apply triple_ret. intros f Hf'. split; [lia|done]. }
  destruct (Nat.ltb_spec cursor 2) as [Hk|Hk]; [lia|].
  destruct (lookup_lt_is_Some_2 (pre ++ part) (cursor - 2)) as [b Hb]; [lia|].
  eapply triple_bind; [apply (triple_read P i _ b); intros f Hf'; by rewrite (HP f Hf')|]. intros b'.
  intros s [-> Hs]. revert s Hs. change (triple P (if b =? LF then _ ← fw_set_len e i (S (cursor - 2)); mret (S (cursor - 2))
    else truncate_loop e fuel i (cursor - 2) (S (cursor - 2)))
    (fun k f => (0 < k)%nat /\ exists f0, P f0 /\ f = set_content i pre f0) P).
  destruct (Z.eqb_spec b LF) as [->|Hne].
  - assert (Hl : S (cursor - 2) = length pre).
    { destruct (decide (cursor - 2 < length pre)%nat); [lia|]. rewrite lookup_app_r in Hb by lia.
      by apply list_elem_of_lookup_2 in Hb. }
    eapply triple_seq; [apply (triple_set_len P i _ (fun f => exists f0, P f0 /\ f = set_content i pre f0))|intros _].
    + intros f Hf'. rewrite (HP f Hf'), Hl. split; [rewrite length_app; lia|]. rewrite take_app_length. eauto.
    + apply triple_ret. intros f Hf'. split; [lia|done].
  - apply IH; try done; [|by right|lia]. rewrite length_app in *.
    destruct Hpre as [->|[H2 Hlast]]; [simpl in *; lia|].
    destruct (decide (cursor = S (length pre))) as [->|]; [|lia]. exfalso. apply Hne.
    rewrite last_lookup in Hlast. rewrite lookup_app_l in Hb by lia.
    replace (S (length pre) - 2)%nat with (pred (length pre)) in Hb by lia. congruence.
Qed.

(** ** The handle of an event *)

(** A file that is open under its name and ends with a record; a position of 0 is one
    of an empty file. *)
Record ready log (p : string) i (k : nat) f : Prop := {
  rd_ok : files_ok log f;
  rd_name : fl_names f !! p = Some i;
  rd_content : content i f = concat (records i log);
  rd_start : k = O -> content i f = []
}.
Lemma triple_open log p :
  triple (files_ok log) (fw_open e p) (fun i f => files_ok log f /\ fl_names f !! p = Some i) (files_ok log).
Proof.
  unfold fw_open. eapply triple_seq; [apply triple_io|intros _]. intros s Hs. unfold_m. simpl.
  destruct (fl_names (fw_files s) !! p) as [i|] eqn:Hp; simpl; [done|]. split; [|apply lookup_insert_eq].
  assert (Hfr : fl_inodes (fw_files s) !! fl_next (fw_files s) = None) by (by apply Hs).
  split; simpl; try apply Hs.
  - intros j. unfold content. simpl. destruct (decide (j = fl_next (fw_files s))) as [->|Hne].
    + rewrite lookup_insert_eq. pose proof (fo_files _ _ Hs (fl_next (fw_files s))) as Hj. unfold content in Hj. by rewrite Hfr in Hj.
    + rewrite lookup_insert_ne by done. apply Hs.
  - intros j Hj. rewrite lookup_insert_ne by lia. apply Hs. lia.
  - intros q j Hq. destruct (decide (q = p)) as [->|].
    + rewrite lookup_insert_eq in Hq. injection Hq as <-. lia.
    + rewrite lookup_insert_ne in Hq by done. apply Nat.lt_lt_succ_r. by eapply Hs.
Qed.
Lemma triple_repair log p i (c : nat) :
  triple (fun f => files_ok log f /\ fl_names f !! p = Some i /\ length (content i f) = c)
    (truncate_if_broken e i c) (fun k f => ready log p i k f) (files_ok log).
Proof.
  unfold truncate_if_broken. destruct (Nat.ltb_spec 0 c) as [Hc|Hc].
  2: { apply triple_ret. intros f (Hf & Hn & Hl). assert (content i f = []) as He by (apply nil_length_inv; lia).
       split; try done. rewrite He. pose proof (fo_files _ _ Hf i) as (part & Hp & _). rewrite He in Hp.
       by symmetry in Hp; apply app_eq_nil in Hp as [-> _]. }
  apply triple_get_bind. intros s (Hf & Hn & Hl).
  destruct (fo_files _ _ Hf i) as (part & Hpart & HLF).
  set (P := fun f => f = fw_files s). apply (triple_post P) with (Q := ready log p i) (E := files_ok log); [|by intros f [-> _]|done|done].
  destruct (last (content i (fw_files s))) as [b|] eqn:Hb; [|apply last_None in Hb; rewrite Hb in Hl; simpl in Hl; lia].
  eapply (triple_bind _ _ _ (fun b' f => b' = b /\ P f)).
  { apply (triple_post P P _ (fun b' f => b' = b /\ P f) _ P); [|done|done|by intros f ->].
    apply triple_read. intros f ->. rewrite last_lookup in Hb. rewrite <- Hb. f_equal. lia. }
  intros b' s1 [-> Hs1]. destruct (Z.eqb_spec b LF) as [->|Hne]; simpl.
  - rewrite Hs1. split; try done; [apply file_ok_whole; [by apply fo_files|done]|]. intros. lia.
  - revert s1 Hs1. change (triple P (truncate_last_line e i (length (content i (fw_files s)))) (ready log p i) (files_ok log)).
    unfold truncate_last_line. eapply (triple_bind _ _ _ (ready log p i)).
    + eapply triple_post; [apply (truncate_loop_spec P i (concat (records i log)) part)|done| |].
      * intros f ->. done.
      * by apply concat_clean, (records_ok _ _ _ Hf).
      * done.
      * rewrite <- Hpart. split; [|done]. rewrite Hpart, length_app. destruct part; [|simpl; lia]. exfalso.
        rewrite app_nil_r in Hpart. destruct (concat_clean _ (records_ok i _ _ Hf)) as [He|[_ He]]; rewrite <- Hpart in He; [rewrite He in Hl; simpl in Hl; lia|congruence].
      * by left.
      * lia.
      * intros k f (Hk & f0 & -> & ->). split; try done; [apply files_ok_cut; [done|by eapply fo_names]|by rewrite content_set, decide_True|lia].
      * by intros f ->.
    + intros k. apply triple_io_seq; [apply rd_ok|]. by apply triple_ret.
Qed.
Lemma triple_handle log p :
  triple (files_ok log)
    (i ← fw_open e p; _ ← sync_dirs e; _ ← fw_io e; s ← get;
     cursor ← truncate_if_broken e i (length (content i (fw_files s)));
     dt ← fw_now e; mret (mkHandler dt p (Some (i, cursor)), (i, cursor)))
    (fun r f => hd_path r.1 = p /\ ready log p r.2.1 r.2.2 f) (files_ok log).
Proof.
  eapply triple_bind; [apply triple_open|intros i]. cbv beta.
  unfold sync_dirs. apply triple_io_seq; [by intros f []|]. apply triple_io_seq; [by intros f []|].
  apply triple_get_bind. intros s _. eapply triple_bind.
  - eapply triple_post; [apply (triple_repair log p i)| |done|done]. by intros f [-> []].
  - intros k. cbv beta. eapply triple_seq; [apply (triple_now (ready log p i k))|]. intros dt. by apply triple_ret.
Qed.
(** What is known of the handler between two events. *)
Definition handler_ok log h f : Prop :=
  files_ok log f /\ forall i k, hd_fx h = Some (i, k) -> ready log (hd_path h) i k f.
Lemma triple_handler_open log h :
  triple (handler_ok log h) (handler_open e h)
    (fun r f => hd_path r.1 = hd_path h /\ ready log (hd_path h) r.2.1 r.2.2 f) (files_ok log).
Proof.
  unfold handler_open. destruct (hd_fx h) as [[i k]|] eqn:Hfx.
  - apply (triple_post (ready log (hd_path h) i k)) with
      (Q := fun r f => hd_path r.1 = hd_path h /\ ready log (hd_path h) r.2.1 r.2.2 f) (E := files_ok log); [|by intros f [_ Hr]; auto|done|done].
    apply (triple_seq _ _ _ (ready log (hd_path h) i k)).
    { intros s Hs. unfold fw_io, fw_tick. unfold_m. simpl. destruct (fe_io e (fw_n s)); simpl; [|done].
      by destruct (fl_names (fw_files s) !! hd_path h). }
    intros r. apply (triple_bind _ _ _ (fun o f => ready log (hd_path h) i k f /\ (o = None \/ o = Some (i, k)))).
    + destruct r as [i'|]; [|apply triple_ret; auto]. apply triple_io_seq; [apply rd_ok|]. apply triple_ret.
      intros f Hf. destruct (i =? i')%nat; auto.
    + intros [fd|]; [|eapply triple_post; [apply (triple_handle log (hd_path h))| |done|done]; by intros f [[] _]].
      apply triple_ret. intros f [Hf [[=]|[= ->]]]. by split.
  - apply (triple_post (files_ok log)) with
      (Q := fun r f => hd_path r.1 = hd_path h /\ ready log (hd_path h) r.2.1 r.2.2 f) (E := files_ok log); [|by intros f []|done|done].
    apply (triple_handle log (hd_path h)).
Qed.

(** ** Writing *)

Lemma triple_write log p i k b ls :
  Forall is_record ls -> (b = true -> k = O /\ length ls <= 1)%nat ->
  triple (ready log p i k) (fw_write_all e i (concat ls)) (fun k f => ready (log ++ entries i b ls) p i k f)
    (fun f => exists n, files_ok (log ++ entries i b (take n ls)) f).
Proof.
  intros Hls Hb s [Hf Hn Hc H0]. unfold fw_write_all, fw_tick. unfold_m. simpl.
  assert (Hi : (i < fl_next (fw_files s))%nat) by (by eapply fo_names).
  assert (Hb' : (b = true -> records i log = [] /\ length ls <= 1)%nat).
  { intros [Hk Hl]%Hb. split; [|done]. rewrite H0 in Hc by done. by apply concat_nil; [by eapply records_ok|]. }
  destruct (fe_written e (fw_n s)) as [k'|] eqn:Hw; simpl.
  - split; [intros Hfair; by rewrite (fair_written Hfair) in Hw|].
    destruct (take_concat ls Hls k') as (n & part & -> & Hp). exists n. apply files_ok_write; try done; [by apply Forall_take|].
    intros [Hr Hl]%Hb'. split; [done|]. rewrite length_take. lia.
  - split; simpl; try done.
    + rewrite <- (app_nil_r (concat ls)). apply files_ok_write; try done. set_solver.
    + rewrite content_set, decide_True by done. by rewrite records_app, records_entries, decide_True, concat_app, Hc.
    + rewrite content_set, decide_True by done. apply nil_length_inv.
Qed.
Lemma triple_pure {A} (phi : Prop) (P : Files -> Prop) (m : M Fw A) Q E :
  (phi -> triple P m Q E) -> triple (fun f => phi /\ P f) m Q E.
Proof. intros Hm s [Hphi Hs]. by apply (Hm Hphi). Qed.
Lemma triple_exists {A B} (P : B -> Files -> Prop) (m : M Fw A) Q E :
  (forall x, triple (P x) m Q E) -> triple (fun f => exists x, P x f) m Q E.
Proof. intros Hm s [x Hs]. by apply (Hm x). Qed.
Hypothesis header_record : forall hd, header (fe_gen e) = Some hd -> is_record hd.
Lemma triple_header log p i k :
  triple (ready log p i k) (handler_header e i k) (fun k f => exists hs, ready (log ++ entries i true hs) p i k f)
    (fun f => exists hs, files_ok (log ++ entries i true hs) f).
Proof.
  assert (Hnil : forall log', log' ++ entries i true [] = log') by (intros; apply app_nil_r).
  unfold handler_header. apply triple_io_seq; [intros f Hf; exists []; rewrite Hnil; apply Hf|].
  assert (Hskip : triple (ready log p i k) (mret k) (fun k f => exists hs, ready (log ++ entries i true hs) p i k f)
    (fun f => exists hs, files_ok (log ++ entries i true hs) f)).
  { apply triple_ret. intros f Hf. exists []. by rewrite Hnil. }
  destruct (Nat.eqb_spec k 0) as [->|]; [|done]. destruct (header (fe_gen e)) as [hd|] eqn:Hh; [|done].
  rewrite <- (app_nil_r hd). change (hd ++ []) with (concat [hd]).
  eapply triple_post; [apply (triple_write log p i 0 true [hd])|done|..].
  - apply Forall_singleton. auto.
  - simpl. lia.
  - eauto.
  - intros f [n Hf]. eauto.
Qed.
Lemma triple_rename log p i k q :
  triple (ready log p i k) (fw_rename e p q) (fun _ => files_ok log) (files_ok log).
Proof.
  unfold fw_rename. apply triple_io_seq; [apply rd_ok|]. intros s [Hf Hn _ _]. unfold_m. simpl. rewrite Hn. simpl.
  split; simpl; try apply Hf. intros q' j Hq. destruct (decide (q' = q)) as [->|].
  - rewrite lookup_insert_eq in Hq. injection Hq as <-. by eapply fo_names.
  - rewrite lookup_insert_ne in Hq by done. apply lookup_delete_Some in Hq as [_ Hq]. by eapply fo_names.
Qed.
Lemma triple_rotate log h i k :
  triple (ready log (hd_path h) i k) (handler_rotate e h) (fun h' f => handler_ok log h' f) (files_ok log).
Proof.
  assert (Hk : forall dt p f, files_ok log f -> handler_ok log (mkHandler dt p None) f) by (by intros; split).
  assert (Hr : forall q h', hd_fx h' = None ->
    triple (ready log (hd_path h) i k) (_ ← fw_rename e (hd_path h) q; _ ← sync_dirs e; mret h') (fun h' f => handler_ok log h' f) (files_ok log)).
  { intros q [dt p fx] Hx. simpl in Hx. subst fx. eapply triple_seq; [apply triple_rename|intros _]. unfold sync_dirs.
    apply triple_io_seq; [done|]. by apply triple_ret, Hk. }
  unfold handler_rotate, flush. apply triple_io_seq; [apply rd_ok|]. destruct (fe_rotated e) as [path|]; [by apply Hr|].
  destruct (contains (fe_base e) "%"); [|by apply Hr]. apply triple_ret. intros f Hf. by apply Hk, Hf.
Qed.

(** ** Events *)

Definition states_of (ev : Event) : list ItemState :=
  match ev with EvState st => [st] | EvBulkState sts => sts | _ => [] end.
(** The lines of an event. *)
Definition event_lines (ev : Event) : list (list Z) :=
  omap (fun st => match line (fe_gen e) st with Ok l => Some l | Err _ => None end) (states_of ev).
Variable (events : list Event).
Hypothesis line_record : forall ev st l, ev ∈ events -> st ∈ states_of ev -> line (fe_gen e) st = Ok l -> is_record l.
Hypothesis fair_lines : fair -> forall ev st, ev ∈ events -> st ∈ states_of ev -> exists l, line (fe_gen e) st = Ok l.
Hypothesis fair_dedup : fair -> fe_dedup e = false.
Hypothesis fair_quit : fair -> EvQuit ∉ events.

Lemma event_records ev : ev ∈ events -> Forall is_record (event_lines ev).
Proof.
  intros Hev. apply Forall_forall. intros l (st & Hst & Hl)%list_elem_of_omap. destruct (line (fe_gen e) st) eqn:Hline; simplify_eq.
  by eapply line_record.
Qed.
Lemma collect_lines sts s :
  match for_collect (fun state => lift (line (fe_gen e) state)) sts s with
  | (Ok ls, s') => s' = s /\ ls = omap (fun st => match line (fe_gen e) st with Ok l => Some l | Err _ => None end) sts
  | (Err _, s') => s' = s /\ exists st err, st ∈ sts /\ line (fe_gen e) st = Err err
  end.
Proof.
  induction sts as [|st sts IH]; [done|]. cbn [for_collect]. rewrite run_bind. unfold_m. simpl.
  destruct (line (fe_gen e) st) as [l|err] eqn:Hl; simpl.
  2: { split; [done|]. exists st, err. split; [apply list_elem_of_here|done]. }
  destruct (for_collect _ sts s) as [[ls|err] s1]; simpl.
  - by destruct IH as [-> ->].
  - destruct IH as [-> (st' & err' & Hin & He)]. split; [done|]. exists st', err'. split; [by apply list_elem_of_further|done].
Qed.
Lemma triple_can_write P l : triple P (can_write_line e l) (fun ok f => P f /\ (fair -> ok = true)) P.
Proof.
  unfold can_write_line. destruct (fe_dedup e) eqn:Hd; [|by apply triple_ret].
  intros s Hs. unfold_m. simpl. destruct (fw_cache s !! _); simpl; [|done]. split; [done|].
  intros Hfair. pose proof (fair_dedup Hfair). congruence.
Qed.
Lemma triple_flush (P : Files -> Prop) : triple P (auto_flush e) (fun _ => P) P.
Proof. unfold auto_flush. destruct (fe_auto_flush e); [apply triple_io|by apply triple_ret]. Qed.

(** An event adds lines of its own, all of them if nothing fails. *)
Definition added log (ev : Event) (P : list Entry -> Files -> Prop) f : Prop :=
  exists new, lines_of new `sublist_of` event_lines ev /\ (fair -> lines_of new = event_lines ev) /\ P (log ++ new) f.
Definition failed log (ev : Event) f : Prop :=
  exists new, lines_of new `sublist_of` event_lines ev /\ files_ok (log ++ new) f.
(** Its lines are written at once. *)
Lemma triple_write_event log hs ev p i k (h : Handler) :
  ev ∈ events -> hd_path h = p ->
  triple (ready (log ++ entries i true hs) p i k)
    (cursor ← fw_write_all e i (concat (event_lines ev)); _ ← auto_flush e;
     mret (mkHandler (hd_dt h) (hd_path h) (Some (i, cursor)), true))
    (fun r f => added log ev (fun log => handler_ok log r.1) f /\ (r.2 = false -> ev = EvQuit)) (failed log ev).
Proof.
  intros Hev <-. eapply triple_bind.
  - eapply triple_post; [by apply (triple_write (log ++ entries i true hs) (hd_path h) i k false _ (event_records _ Hev))|done|intros ? ? Hf; exact Hf|].
    intros f [n Hf]. exists (entries i true hs ++ entries i false (take n (event_lines ev))).
    rewrite lines_app, !lines_entries, app_assoc. split; [apply sublist_take|done].
  - intros k'. set (R := ready ((log ++ entries i true hs) ++ entries i false (event_lines ev)) (hd_path h) i k').
    apply (triple_seq R _ _ R); [apply (triple_post R R _ (fun _ => R) _ R); [apply triple_flush|done|done|]|].
    + intros f [Hf _ _ _]. exists (entries i true hs ++ entries i false (event_lines ev)).
      by rewrite lines_app, !lines_entries, app_assoc.
    + intros _. apply triple_ret. intros f Hf. split; [|done]. exists (entries i true hs ++ entries i false (event_lines ev)).
      rewrite lines_app, !lines_entries, app_assoc. split_and!; try done. split; [apply Hf|]. by intros ? ? [= <- <-].
Qed.
(** It writes nothing, or nothing more. *)
Lemma added_none log hs ev p i k dt f :
  ready (log ++ entries i true hs) p i k f -> (fair -> event_lines ev = []) ->
  added log ev (fun log => handler_ok log (mkHandler dt p (Some (i, k)))) f.
Proof.
  intros Hf Hl. exists (entries i true hs). rewrite lines_entries. split_and!; [apply sublist_nil_l|by intros ->%Hl|].
  split; [apply Hf|]. by intros ? ? [= <- <-].
Qed.
Lemma failed_none log hs ev i f : files_ok (log ++ entries i true hs) f -> failed log ev f.
Proof. intros Hf. exists (entries i true hs). rewrite lines_entries. split; [apply sublist_nil_l|done]. Qed.
Lemma triple_state log hs st p i k h : EvState st ∈ events -> hd_path h = p ->
  triple (ready (log ++ entries i true hs) p i k)
    (l ← lift (line (fe_gen e) st); ok ← can_write_line e l;
     if negb ok then mret (mkHandler (hd_dt h) (hd_path h) (Some (i, k)), true)
     else cursor ← fw_write_all e i l; _ ← auto_flush e; mret (mkHandler (hd_dt h) (hd_path h) (Some (i, cursor)), true))
    (fun r f => added log (EvState st) (fun log => handler_ok log r.1) f /\ (r.2 = false -> EvState st = EvQuit))
    (failed log (EvState st)).
Proof.
  intros Hev Hh. set (R := ready (log ++ entries i true hs) p i k). destruct (line (fe_gen e) st) as [l|err] eqn:Hl.
  2: { intros s Hs. unfold_m. simpl. split; [|by eapply failed_none, rd_ok].
       intros Hfair. destruct (fair_lines Hfair (EvState st) st) as [l' ?]; [done|apply list_elem_of_here|congruence]. }
  apply (triple_bind R _ _ (fun l' f => l' = l /\ R f)); [by apply triple_ret|].
  intros l' s [-> Hs]. revert s Hs. fold (triple R (ok ← can_write_line e l;
     if negb ok then mret (mkHandler (hd_dt h) (hd_path h) (Some (i, k)), true)
     else cursor ← fw_write_all e i l; _ ← auto_flush e; mret (mkHandler (hd_dt h) (hd_path h) (Some (i, cursor)), true))
    (fun r f => added log (EvState st) (fun log => handler_ok log r.1) f /\ (r.2 = false -> EvState st = EvQuit))
    (failed log (EvState st))).
  eapply triple_bind; [apply (triple_post R R _ (fun ok f => R f /\ (fair -> ok = true)) _ R); [apply triple_can_write|done|intros ? ? Hf; exact Hf|]|].
  - intros f Hf. by eapply failed_none, rd_ok.
  - intros ok. destruct ok; simpl negb; cbv iota.
    + apply (triple_post R) with (E := failed log (EvState st))
        (Q := fun r f => added log (EvState st) (fun log => handler_ok log r.1) f /\ (r.2 = false -> EvState st = EvQuit));
        [|by intros f []|done|done].
      pose proof (triple_write_event log hs (EvState st) p i k h Hev Hh) as Hw.
      unfold event_lines in Hw. simpl in Hw. rewrite Hl in Hw. simpl in Hw. rewrite app_nil_r in Hw. exact Hw.
    + apply triple_ret. intros f [Hf Hok]. split; [|done]. rewrite Hh. eapply added_none; [exact Hf|].
      intros Hfair. by specialize (Hok Hfair).
Qed.
Lemma triple_bulk log hs sts p i k h : EvBulkState sts ∈ events -> hd_path h = p ->
  triple (ready (log ++ entries i true hs) p i k)
    (ls ← for_collect (fun state => lift (line (fe_gen e) state)) sts;
     match concat ls with
     | [] => mret (mkHandler (hd_dt h) (hd_path h) (Some (i, k)), true)
     | buf => cursor ← fw_write_all e i buf; _ ← auto_flush e; mret (mkHandler (hd_dt h) (hd_path h) (Some (i, cursor)), true)
     end)
    (fun r f => added log (EvBulkState sts) (fun log => handler_ok log r.1) f /\ (r.2 = false -> EvBulkState sts = EvQuit))
    (failed log (EvBulkState sts)).
Proof.
  intros Hev Hh s Hs. rewrite run_bind. pose proof (collect_lines sts s) as Hls.
  destruct (for_collect _ sts s) as [[ls|err] s1].
  - destruct Hls as [-> Hls]. change (ls = event_lines (EvBulkState sts)) in Hls.
    pose proof (triple_write_event log hs (EvBulkState sts) p i k h Hev Hh s Hs) as Hw. rewrite <- Hls in Hw.
    destruct (concat ls) as [|x buf] eqn:Hc; [|exact Hw]. simpl. split; [|done]. rewrite Hh.
    eapply added_none; [exact Hs|]. intros _. rewrite <- Hls. apply concat_nil; [|done]. rewrite Hls. by apply event_records.
  - destruct Hls as [-> (st & err' & Hin & He)]. split; [|by eapply failed_none, rd_ok].
    intros Hfair. destruct (fair_lines Hfair (EvBulkState sts) st) as [l' ?]; [done|done|congruence].
Qed.
(** An event, whatever happens. *)
Lemma triple_event log ev h : ev ∈ events ->
  triple (handler_ok log h) (handle_event e ev h)
    (fun r f => added log ev (fun log => handler_ok log r.1) f /\ (r.2 = false -> ev = EvQuit)) (failed log ev).
Proof.
  intros Hev. unfold handle_event.
  eapply triple_bind; [eapply triple_post; [apply triple_handler_open|done|intros ? ? Hf; exact Hf|]|].
  { intros f Hf. apply (failed_none log [] _ O). by rewrite app_nil_r. }
  intros [h1 [i k]]. apply triple_pure. intros Hp. cbn [fst snd] in *. apply (triple_bind _ _ _ (fun k f => exists hs, ready (log ++ entries i true hs) (hd_path h) i k f)).
  { eapply triple_post; [apply triple_header|done|done|]. intros f [hs Hf]. by eapply failed_none. }
  intros k'. apply triple_exists. intros hs. destruct ev as [st|sts| | |].
  - by apply triple_state.
  - by apply triple_bulk.
  - unfold flush. apply triple_io_seq; [intros f Hf; by eapply failed_none, rd_ok|]. apply triple_ret. intros f Hf.
    split; [|done]. rewrite Hp. by eapply added_none.
  - rewrite <- Hp. eapply triple_bind; [eapply triple_post; [apply (triple_rotate (log ++ entries i true hs) h1 i k')|done|intros ? ? Hf; exact Hf|]|].
    + intros f Hf. by eapply failed_none.
    + intros h2. apply triple_ret. intros f Hf. split; [|done]. exists (entries i true hs). rewrite lines_entries. by split_and!.
  - unfold flush. apply triple_io_seq; [intros f Hf; by eapply failed_none, rd_ok|]. apply triple_ret. intros f Hf.
    split; [|done]. rewrite Hp. by eapply added_none.
Qed.

(** ** The task *)

Lemma triple_task evs : evs ⊆ events -> forall log h s,
  handler_ok log h (fw_files s) ->
  exists new, files_ok (log ++ new) (fw_files (writer_task e evs h s).2) /\
    lines_of new `sublist_of` (evs ≫= event_lines) /\ (fair -> lines_of new = (evs ≫= event_lines)).
Proof.
  induction evs as [|ev evs IH]; intros Hsub log h s Hs.
  { exists []. rewrite app_nil_r. split_and!; [apply Hs|done|done]. }
  assert (Hev : ev ∈ events) by (apply Hsub, list_elem_of_here).
  assert (Hevs : evs ⊆ events) by (intros x Hx; apply Hsub; by apply list_elem_of_further).
  cbn [writer_task]. rewrite run_bind. pose proof (triple_event log ev h Hev s Hs) as Ht. rewrite bind_cons.
  unfold attempt. destruct (handle_event e ev h s) as [[[h' go]|err] s1]; cbn [fst snd] in *.
  - destruct Ht as [(new & Hsl & Hall & Hok) Hgo]. destruct go.
    + destruct (IH Hevs _ _ _ Hok) as (new' & Hf & Hsl' & Hall'). exists (new ++ new').
      rewrite app_assoc, lines_app. split_and!; [done|by apply sublist_app|]. intros Hfair. by rewrite Hall, Hall'.
    + exists new. split_and!; [apply Hok|by apply sublist_inserts_r|]. intros Hfair. exfalso.
      apply (fair_quit Hfair). by rewrite <- (Hgo eq_refl).
  - destruct Ht as [Hnf (new & Hsl & Hok)].
    assert (Hend : exists new0, files_ok (log ++ new0) (fw_files s1) /\
      lines_of new0 `sublist_of` (event_lines ev ++ (evs ≫= event_lines)) /\ (fair -> lines_of new0 = event_lines ev ++ (evs ≫= event_lines))).
    { exists new. split_and!; [done|by apply sublist_inserts_r|done]. }
    assert (Hon : exists new0, files_ok (log ++ new0) (fw_files ((h ← handler_new e; writer_task e evs h) s1).2) /\
      lines_of new0 `sublist_of` (event_lines ev ++ (evs ≫= event_lines)) /\ (fair -> lines_of new0 = event_lines ev ++ (evs ≫= event_lines))).
    { set (dt := fe_now e (fw_n s1)).
      destruct (IH Hevs (log ++ new) (mkHandler dt (generate_file_path (fe_base e) dt) None) (set_fw_n (S (fw_n s1)) s1))
        as (new' & Hf & Hsl' & _); [by split|]. exists (new ++ new').
      rewrite app_assoc, lines_app. split_and!; [exact Hf|by apply sublist_app|done]. }
    by destruct err.
Qed.
End spec.

(** The names of fields are without line feeds, so that a header is a record. *)
Lemma prepare_record g t : t ≠ EmptyString -> LF ∉ as_bytes t -> is_record (prepare g t).
Proof.
  intros Ht Hl. unfold prepare. exists (as_bytes (t +:+ (if dg_dos_cr g then String cr EmptyString else EmptyString))).
  split_and!.
  - rewrite !as_bytes_app, <- app_assoc. done.
  - rewrite as_bytes_app. intros [Hn _]%app_eq_nil. by apply as_bytes_nil in Hn.
  - rewrite as_bytes_app, elem_of_app. intros [|Hc]; [done|]. destruct (dg_dos_cr g); vm_compute in Hc; set_solver.
Qed.
Lemma name_no_lf k fmt : LF ∉ as_bytes (default_name k fmt).
Proof. destruct k, fmt; apply (bool_decide_eq_true_1 _); vm_refl. Qed.
Lemma names_no_lf fmt ks : LF ∉ as_bytes (String.concat csv_comma ((fun k => default_name k fmt) <$> ks)).
Proof.
  induction ks as [|k ks IH]; [apply not_elem_of_nil|]. destruct ks as [|k' ks]; [apply name_no_lf|].
  change (LF ∉ as_bytes (default_name k fmt +:+ csv_comma +:+ String.concat csv_comma ((fun k => default_name k fmt) <$> k' :: ks))).
  rewrite !as_bytes_app, !elem_of_app. intros [Hc|[Hc|Hc]]; [by apply name_no_lf in Hc|vm_compute in Hc; set_solver|done].
Qed.
Lemma header_is_record g hd : dg_fields g ≠ [] -> header g = Some hd -> is_record hd.
Proof.
  unfold header. destruct (dg_format g) eqn:Hfmt; [done|]. intros Hf [= <-]. apply prepare_record; [|apply (names_no_lf Csv)].
  destruct (dg_fields g) as [|k ks]; [done|]. by destruct k, ks.
Qed.


(** ** An example *)

Module FileWriterExamples.
Import Sample.

Definition record_b (l : list Z) : bool :=
  bool_decide (last l = Some LF) && bool_decide (2 <= length l)%nat && forallb (fun b => negb (b =? LF)) (removelast l).
Lemma record_b_ok l : record_b l = true -> is_record l.
Proof.
  unfold record_b. intros [[Hl%bool_decide_eq_true Hn%bool_decide_eq_true]%andb_true_iff Hb]%andb_true_iff.
  apply last_Some in Hl as [b ->]. rewrite removelast_last in Hb. exists b. split_and!; [done| |].
  - intros ->. simpl in Hn. lia.
  - intros Hin%list_elem_of_In. rewrite forallb_forall in Hb. by apply Hb in Hin.
Qed.
#[export] Instance hashes : HashExternals := {|
  sha256 l := l; sha512 l := l; pbkdf2_hmac l _ _ := Ok l; hex_encode _ := EmptyString; hex_decode _ := None;
  base64_encode _ := EmptyString; base64_decode _ := None |}.
#[export] Instance fw_externals : FwExternals := {|
  oid_group _ := None; oid_id := oid_full_id; kind_string := kind_str; f64_string _ := "1.5"%string;
  i16_string z := if z =? 1 then "1"%string else "-1"%string;
  value_display v := match v with SStr s => s | _ => "?"%string end;
  val_string := SStr; val_i16 := SNum; json_string _ := Ok "{}"%string; rfc3339_of_ts _ := Ok "2024"%string;
  rfc3339 _ := "2024"%string; date_format f _ := f; un_state _ := Err EInvalidData; un_states_connected _ := Err EInvalidData;
  LOCAL_STATE_TOPIC := "L/"%string; REMOTE_STATE_TOPIC := "R/"%string; REMOTE_ARCHIVE_STATE_TOPIC := "A/"%string |}.

(** The second line is cut after three bytes. *)
Definition fw_env : FwEnv :=
  mkFwEnv "out.csv" (Some "old.csv"%string) (data_gen_new Csv false (Some [FkOID; FkStatus; FkValue])) true false
    (fun _ => Ok tt) (fun n => if (n =? 12)%nat then Some 3%nat else None) (fun n => Z.of_nat n).
Definition item (v : string) : Event := EvState (mkItemState (Sensor, "t"%string) 1 (Some (SStr v)) f64_zero).
Definition fw_events : list Event := [item "a"; item "b"; item "c"; EvRotate; item "d"].
Definition fw_start : Fw := mkFw (mkFiles ∅ ∅ 0) ∅ 0.
Definition file (p : string) (s : Fw) : list Z :=
  match fl_names (fw_files s) !! p with Some i => content i (fw_files s) | None => [] end.
Definition lines_record : bool :=
  forallb (fun ev => forallb (fun st => match line (fe_gen fw_env) st with Ok l => record_b l | Err _ => true end) (states_of ev)) fw_events.
End FileWriterExamples.
