(* ===== verification/Gettext.v ===== *)
(** * Message catalogues (vendor/eva-gettext/src)

    The HMI service translates its pages by catalogues in the format of GNU gettext.
    This is the library that reads them: the parser of plural expressions, the header of
    a catalogue, the binary file, and the look-up of translations.

    A text is the list of its characters; as the code addresses texts by bytes, so does
    [slice], which panics within a character.  [usize] has 64 bits. *)
From S2P Require Import Prelude Password Bytes Numbers.
Open Scope Z_scope.

(** ** Results *)

(** vendor/eva-gettext/src/parser.rs:22-40 [Error], with panics and recursion that does
    not end *)
Inductive GtError :=
  BadMagic | DecodingError | Eof | Io | MalformedMetadata | MisplacedMetadata | PluralParsing | UnknownEncoding
  | Panic | Never.
Inductive GResult (A : Type) := GOk (a : A) | GErr (e : GtError).
Arguments GOk {_} _.
Arguments GErr {_} _.
#[export] Instance gresult_ret : MRet GResult := @GOk.
#[export] Instance gresult_bind : MBind GResult := fun A B f m => match m with GOk a => f a | GErr e => GErr e end.
Definition gt_or {A} (o : option A) (e : GtError) : GResult A := match o with Some a => GOk a | None => GErr e end.

(** ** Texts *)

Abbreviation Text := (list Z).
Implicit Types (t : Text).
(** The bytes of a character. *)
Definition width (c : Z) : Z := if c <? 128 then 1 else if c <? 2048 then 2 else if c <? 65536 then 3 else 4.
Definition utf8_char (c : Z) : list Z :=
  if c <? 128 then [c]
  else if c <? 2048 then [192 + c / 64; 128 + c mod 64]
  else if c <? 65536 then [224 + c / 4096; 128 + c / 64 mod 64; 128 + c mod 64]
  else [240 + c / 262144; 128 + c / 4096 mod 64; 128 + c / 64 mod 64; 128 + c mod 64].
Definition utf8_encode t : list Z := t ≫= utf8_char.
Fixpoint byte_len t : Z := match t with [] => 0 | c :: t' => width c + byte_len t' end.
Fixpoint drop_bytes (n : Z) t : GResult Text :=
  if n =? 0 then GOk t
  else match t with [] => GErr Panic | c :: t' => if n <? width c then GErr Panic else drop_bytes (n - width c) t' end.
Fixpoint take_bytes (n : Z) t : GResult Text :=
  if n =? 0 then GOk []
  else
    match t with
    | [] => GErr Panic
    | c :: t' => if n <? width c then GErr Panic else r ← take_bytes (n - width c) t'; GOk (c :: r)
    end.
(** [t[a..b]] *)
Definition slice t (a b : Z) : GResult Text :=
  if b <? a then GErr Panic else r ← drop_bytes a t; take_bytes (b - a) r.
(** [char::is_whitespace] *)
Definition is_whitespace (c : Z) : bool :=
  between 9 13 c || (c =? 32) || (c =? 133) || (c =? 160) || (c =? 5760) || between 8192 8202 c || (c =? 8232)
  || (c =? 8233) || (c =? 8239) || (c =? 8287) || (c =? 12288).
Fixpoint trim_start t : Text :=
  match t with [] => [] | c :: t' => if is_whitespace c then trim_start t' else t end.
Definition trim t : Text := reverse (trim_start (reverse (trim_start t))).
(** [split] at single elements, of texts and of bytes *)
Fixpoint split_by (sep : Z) (l : list Z) : list (list Z) :=
  match l with
  | [] => [[]]
  | c :: l' =>
      if c =? sep then [] :: split_by sep l'
      else match split_by sep l' with x :: xs => (c :: x) :: xs | [] => [[c]] end
  end.
Fixpoint position (x : Z) (l : list Z) : option nat :=
  match l with [] => None | c :: l' => if c =? x then Some O else S <$> position x l' end.
(** What is before and after the first occurrence of a pattern. *)
Fixpoint find_pat (pat t : Text) : option (Text * Text) :=
  if bool_decide (take (length pat) t = pat) then Some ([], drop (length pat) t)
  else match t with [] => None | c :: t' => (fun p => (c :: p.1, p.2)) <$> find_pat pat t' end.
(** ** Plural expressions (vendor/eva-gettext/src/plurals.rs) *)

(** vendor/eva-gettext/src/plurals.rs:63-74 [Operator] *)
Inductive Operator := Equal | NotEqual | GreaterOrEqual | SmallerOrEqual | Greater | Smaller | And | Or | Modulo.
(** vendor/eva-gettext/src/plurals.rs:46-61 [Ast] *)
Inductive Ast :=
  | Ternary (cond ok nok : Ast)
  | N
  | Integer (x : Z)
  | Op (op : Operator) (lhs rhs : Ast)
  | Not (val : Ast).

Definition b2z (b : bool) : Z := if b then 1 else 0.
(** vendor/eva-gettext/src/plurals.rs:77-105 [Ast::resolve]; a remainder by zero panics *)
Fixpoint resolve_ast (a : Ast) (n : Z) : GResult Z :=
  match a with
  | Ternary cond ok nok => c ← resolve_ast cond n; if c =? 0 then resolve_ast nok n else resolve_ast ok n
  | N => GOk n
  | Integer x => GOk x
  | Op And lhs rhs => l ← resolve_ast lhs n; if l =? 0 then GOk 0 else r ← resolve_ast rhs n; GOk (b2z (negb (r =? 0)))
  | Op Or lhs rhs => l ← resolve_ast lhs n; if l =? 0 then r ← resolve_ast rhs n; GOk (b2z (negb (r =? 0))) else GOk 1
  | Op op lhs rhs =>
      l ← resolve_ast lhs n;
      r ← resolve_ast rhs n;
      match op with
      | Equal => GOk (b2z (l =? r))
      | NotEqual => GOk (b2z (negb (l =? r)))
      | GreaterOrEqual => GOk (b2z (r <=? l))
      | SmallerOrEqual => GOk (b2z (l <=? r))
      | Greater => GOk (b2z (r <? l))
      | Smaller => GOk (b2z (l <? r))
      | _ => if r =? 0 then GErr Panic else GOk (l mod r)
      end
  | Not val => v ← resolve_ast val n; GOk (if v =? 0 then 1 else 0)
  end.

Definition open : Z := 40.
Definition close : Z := 41.
(** The state of [index_of]: the match, the position, how much of the pattern has
    matched, and the level of parentheses. *)
Definition Scan : Type := option Z * Z * nat * Z.
Definition scan_char (pat : Text) (st : Scan) (ch : Z) : Scan :=
  let '(match_index, i, n_matches, paren_level) := st in
  match match_index with
  | Some x => (Some x, i, n_matches, paren_level)
  | None =>
      let new_par_lvl := if ch =? open then paren_level + 1 else if ch =? close then paren_level - 1 else paren_level in
      if bool_decide (pat !! n_matches = Some ch) then
        let len := S n_matches in
        if (Z.of_nat len =? byte_len pat) && (new_par_lvl =? 0) then (Some (i - Z.of_nat n_matches), i + 1, len, new_par_lvl)
        else (None, i + 1, len, new_par_lvl)
      else (None, i + 1, O, new_par_lvl)
  end.
(** vendor/eva-gettext/src/plurals.rs:15-43 [index_of] *)
Definition index_of t (pat : Text) : option Z := (foldl (scan_char pat) (None, 0, O, 0) t).1.1.1.

Section parser.
(** [Ast::parse], which the others call *)
Variable (parse : Text -> GResult Ast).

Definition binary (op : Operator) t (i len : Z) : GResult Ast :=
  l ← slice t 0 i;
  lhs ← parse l;
  r ← slice t (i + len) (byte_len t);
  rhs ← parse r;
  GOk (Op op lhs rhs).
(** vendor/eva-gettext/src/plurals.rs:282-288 [Ast::parse_n] *)
Definition parse_n t : GResult Ast := if bool_decide (t = as_bytes "n") then GOk N else GErr PluralParsing.
(** vendor/eva-gettext/src/plurals.rs:274-280 [Ast::parse_int] *)
Definition parse_int t : GResult Ast :=
  match parse_u64 t with Some x => GOk (Integer x) | None => parse_n (trim t) end.
(** vendor/eva-gettext/src/plurals.rs:266-272 [Ast::parse_not] *)
Definition parse_not t : GResult Ast :=
  if bool_decide (index_of t (as_bytes "!") = Some 0) then
    r ← slice t 1 (byte_len t); a ← parse r; GOk (Not a)
  else parse_int (trim t).
(** vendor/eva-gettext/src/plurals.rs:254-264 [Ast::parse_mod] *)
Definition parse_mod t : GResult Ast :=
  match index_of t (as_bytes "%") with Some i => binary Modulo t i 1 | None => parse_not (trim t) end.
(** vendor/eva-gettext/src/plurals.rs:243-253 [Ast::parse_neq] *)
Definition parse_neq t : GResult Ast :=
  match index_of t (as_bytes "!=") with Some i => binary NotEqual t i 2 | None => parse_mod t end.
(** vendor/eva-gettext/src/plurals.rs:231-241 [Ast::parse_eq] *)
Definition parse_eq t : GResult Ast :=
  match index_of t (as_bytes "==") with Some i => binary Equal t i 2 | None => parse_neq t end.
(** vendor/eva-gettext/src/plurals.rs:219-229 [Ast::parse_lt] *)
Definition parse_lt t : GResult Ast :=
  match index_of t (as_bytes "<") with Some i => binary Smaller t i 1 | None => parse_eq t end.
(** vendor/eva-gettext/src/plurals.rs:207-217 [Ast::parse_le] *)
Definition parse_le t : GResult Ast :=
  match index_of t (as_bytes "<=") with Some i => binary SmallerOrEqual t i 2 | None => parse_lt t end.
(** vendor/eva-gettext/src/plurals.rs:195-205 [Ast::parse_gt] *)
Definition parse_gt t : GResult Ast :=
  match index_of t (as_bytes ">") with Some i => binary Greater t i 1 | None => parse_le t end.
(** vendor/eva-gettext/src/plurals.rs:183-193 [Ast::parse_ge] *)
Definition parse_ge t : GResult Ast :=
  match index_of t (as_bytes ">=") with Some i => binary GreaterOrEqual t i 2 | None => parse_gt t end.
(** vendor/eva-gettext/src/plurals.rs:167-181 [Ast::parse_ternary] *)
Definition parse_ternary t : GResult Ast :=
  match index_of t (as_bytes "?") with
  | Some i =>
      match index_of t (as_bytes ":") with
      | Some l =>
          c ← slice t 0 i;
          cond ← parse c;
          a ← slice t (i + 1) l;
          ok ← parse a;
          b ← slice t (l + 1) (byte_len t);
          nok ← parse b;
          GOk (Ternary cond ok nok)
      | None => GErr PluralParsing
      end
  | None => parse_ge t
  end.
(** vendor/eva-gettext/src/plurals.rs:155-165 [Ast::parse_or] *)
Definition parse_or t : GResult Ast :=
  match index_of t (as_bytes "||") with Some i => binary Or t i 2 | None => parse_ternary t end.
(** vendor/eva-gettext/src/plurals.rs:143-153 [Ast::parse_and] *)
Definition parse_and t : GResult Ast :=
  match index_of t (as_bytes "&&") with Some i => binary And t i 2 | None => parse_or t end.
(** How far the parenthesis at the start reaches: the level, and the end. *)
Definition paren_char (st : Z * Z) (ch : Z) : Z * Z :=
  let '(level, index) := st in
  if 0 <? level then
    if ch =? close then (level - 1, index + 1)
    else if ch =? open then (level + 1, index + 1)
    else (level, index + 1)
  else if ch =? open then (level + 1, index + 1)
  else (level, index).
(** vendor/eva-gettext/src/plurals.rs:111-141 [Ast::parse_parens] *)
Definition parse_parens t : GResult Ast :=
  match t with
  | 40 :: _ =>
      inner ← slice t 1 (byte_len t - 1);
      if (foldl paren_char (1, 2) inner).2 =? byte_len t then parse (trim inner) else parse_and (trim t)
  | _ => parse_and (trim t)
  end.
End parser.
(** vendor/eva-gettext/src/plurals.rs:107-109 [Ast::parse]; a call is for a part of the
    text, so that its length is enough *)
Fixpoint parse_fuel (fuel : nat) t : GResult Ast :=
  match fuel with O => GErr Never | S fuel => parse_parens (parse_fuel fuel) (trim t) end.
Definition parse t : GResult Ast := parse_fuel (S (Z.to_nat (byte_len t))) t.

(** vendor/eva-gettext/src/plurals.rs:5-12 [Resolver] *)
Inductive Resolver := Expr (ast : Ast) | Function (f : Z -> Z).
(** vendor/eva-gettext/src/plurals.rs:294-299 [Resolver::resolve] *)
Definition resolve (r : Resolver) (n : Z) : GResult Z :=
  match r with Expr ast => resolve_ast ast n | Function f => GOk (f n) end.

(** ** The header (vendor/eva-gettext/src/metadata.rs) *)

Abbreviation MetadataMap := (gmap (list Z) (list Z)).
(** vendor/eva-gettext/src/metadata.rs:12-15 [MetadataMap::charset] *)
Definition charset (m : MetadataMap) : option Text :=
  x ← m !! as_bytes "Content-Type";
  p ← find_pat (as_bytes "charset=") x;
  Some (match find_pat (as_bytes "charset=") p.2 with Some q => q.1 | None => p.2 end).
(** One property of the plural forms; the position of the sign is that of a character,
    and the split is at a byte (vendor/eva-gettext/src/metadata.rs:25-36) *)
Definition plural_prop (st : option Z * option Text) (prop : Text) : GResult (option Z * option Text) :=
  let '(n_pl, pl) := st in
  match position 61 prop with
  | Some index =>
      name ← slice prop 0 (Z.of_nat index);
      value ← slice prop (Z.of_nat index) (byte_len prop);
      v ← slice value 1 (byte_len value);
      let value := trim v in
      let name := trim name in
      GOk (if bool_decide (name = as_bytes "n_plurals") then (parse_u64 value, pl)
           else if bool_decide (name = as_bytes "plural") then (n_pl, Some value)
           else (n_pl, pl))
  | None => GOk (n_pl, pl)
  end.
Fixpoint plural_props (props : list Text) (st : option Z * option Text) : GResult (option Z * option Text) :=
  match props with [] => GOk st | p :: props => st ← plural_prop st p; plural_props props st end.
(** vendor/eva-gettext/src/metadata.rs:22-39 [MetadataMap::plural_forms] *)
Definition plural_forms (m : MetadataMap) : GResult (option Z * option Text) :=
  match m !! as_bytes "Plural-Forms" with None => GOk (None, None) | Some f => plural_props (split_by 59 f) (None, None) end.
Fixpoint metadata_lines (lines : list Text) (m : MetadataMap) : GResult MetadataMap :=
  match lines with
  | [] => GOk m
  | [] :: lines => metadata_lines lines m
  | line :: lines =>
      match position 58 line with
      | None => GErr MalformedMetadata
      | Some k =>
          let pos := byte_len (take k line) in
          name ← slice line 0 pos;
          value ← slice line (pos + 1) (byte_len line);
          metadata_lines lines (<[trim name := trim value]> m)
      end
  end.
(** vendor/eva-gettext/src/metadata.rs:55-64 [parse_metadata] *)
Definition parse_metadata (blob : Text) : GResult MetadataMap := metadata_lines (split_by 10 blob) ∅.

(** ** Catalogues (vendor/eva-gettext/src/lib.rs) *)

(** vendor/eva-gettext/src/lib.rs:177-182 [Message] *)
Record Message := mkMessage { msg_id : Text; msg_context : option Text; msg_translated : list Text }.
(** vendor/eva-gettext/src/lib.rs:193-195 [Message::get_translated] *)
Definition get_translated (m : Message) (form_no : Z) : option Text := msg_translated m !! Z.to_nat form_no.
(** vendor/eva-gettext/src/lib.rs:57-62 [key_with_context] *)
Definition key_with_context (context key : Text) : Text := context ++ [4] ++ key.
(** vendor/eva-gettext/src/lib.rs:66-70 [Catalog] *)
Record Catalog := mkCatalog { cat_strings : gmap Text Message; cat_resolver : Resolver }.
(** vendor/eva-gettext/src/parser.rs:232-234 [default_resolver] *)
Definition default_resolver (n : Z) : Z := b2z (negb (n =? 1)).
(** vendor/eva-gettext/src/lib.rs:81-86 [Catalog::new] *)
Definition catalog_new : Catalog := mkCatalog ∅ (Function default_resolver).
Definition set_resolver (r : Resolver) (c : Catalog) : Catalog := mkCatalog (cat_strings c) r.
Definition msg_key (msg : Message) : Text :=
  match msg_context msg with Some ctxt => key_with_context ctxt (msg_id msg) | None => msg_id msg end.
(** vendor/eva-gettext/src/lib.rs:108-114 [Catalog::insert] *)
Definition insert_msg (msg : Message) (c : Catalog) : Catalog :=
  mkCatalog (<[msg_key msg := msg]> (cat_strings c)) (cat_resolver c).
(** vendor/eva-gettext/src/lib.rs:118-123 [Catalog::gettext] *)
Definition gettext (c : Catalog) (id : Text) : Text :=
  default id (m ← cat_strings c !! id; get_translated m 0).
Definition plural_of (c : Catalog) (key id id_plural : Text) (n : Z) : GResult Text :=
  form_no ← resolve (cat_resolver c) n;
  GOk (match (m ← cat_strings c !! key; get_translated m form_no) with
       | Some msg => msg
       | None => if n =? 1 then id else id_plural
       end).
(** vendor/eva-gettext/src/lib.rs:129-138 [Catalog::ngettext] *)
Definition ngettext (c : Catalog) (id id_plural : Text) (n : Z) : GResult Text := plural_of c id id id_plural n.
(** vendor/eva-gettext/src/lib.rs:144-150 [Catalog::pgettext] *)
Definition pgettext (c : Catalog) (context id : Text) : Text :=
  default id (m ← cat_strings c !! key_with_context context id; get_translated m 0).
(** vendor/eva-gettext/src/lib.rs:158-174 [Catalog::npgettext] *)
Definition npgettext (c : Catalog) (context id id_plural : Text) (n : Z) : GResult Text :=
  plural_of c (key_with_context context id) id id_plural n.

(** ** Files (vendor/eva-gettext/src/parser.rs) *)

(** [encoding_rs] *)
Class GtExternals := {
  Encoding : Type;
  UTF_8 : Encoding;
  enc_decode : Encoding -> list Z -> option Text;
  for_label : list Z -> option Encoding
}.

Section files.
Context `{GExt : GtExternals}.

(** vendor/eva-gettext/src/parser.rs:14-19 [decode] *)
Definition decode (encoding : Encoding) (input : list Z) : GResult Text := gt_or (enc_decode encoding input) DecodingError.
(** vendor/eva-gettext/src/parser.rs:79-84 [ParseOptions] *)
Record ParseOptions := mkOptions { force_encoding : option Encoding; force_plural : option (Z -> Z) }.
(** vendor/eva-gettext/src/parser.rs:120-128 [get_read_u32_fn] *)
Definition get_read_u32_fn (magic : list Z) : option (list Z -> Z) :=
  if bool_decide (magic = [222; 18; 4; 149]) then Some from_le_bytes
  else if bool_decide (magic = [149; 4; 18; 222]) then Some (fun b => from_le_bytes (reverse b))
  else None.
(** [contents[a..b]] of bytes *)
Definition sub (contents : list Z) (a b : Z) : GResult (list Z) :=
  if (a <=? b) && (b <=? Z.of_nat (length contents)) then GOk (take (Z.to_nat (b - a)) (drop (Z.to_nat a) contents))
  else GErr Panic.
Definition guard_eof (b : bool) : GResult unit := if b then GErr Eof else GOk tt.

Section loop.
Variable (contents : list Z) (read_u32 : list Z -> Z) (opts : ParseOptions).
Let n : Z := Z.of_nat (length contents).

(** The length and the offset of a string (vendor/eva-gettext/src/parser.rs:155-164) *)
Definition table_entry (table_offset : Z) : GResult (Z * Z) :=
  _ ← guard_eof (n <? table_offset + 8);
  l ← sub contents table_offset (table_offset + 4);
  o ← sub contents (table_offset + 4) (table_offset + 8);
  let len := read_u32 l in
  let off := read_u32 o in
  _ ← guard_eof (n <? off + len + 1);
  GOk (len, off).
(** The context and the identifier (vendor/eva-gettext/src/parser.rs:166-183) *)
Definition original_of (encoding : Encoding) (original : list Z) : GResult (option Text * Text) :=
  '(context, original) ← match position 4 original with
                         | Some idx =>
                             ctx ← decode encoding (take idx original);
                             GOk (Some ctx, drop (S idx) original)
                         | None => GOk (None, original)
                         end;
  id ← match position 0 original with
       | Some i => decode encoding (take i original)
       | None => GErr Eof
       end;
  GOk (context, id).
Fixpoint decode_all (encoding : Encoding) (l : list (list Z)) : GResult (list Text) :=
  match l with [] => GOk [] | b :: l => t ← decode encoding b; ts ← decode_all encoding l; GOk (t :: ts) end.
(** The header of the catalogue (vendor/eva-gettext/src/parser.rs:205-213) *)
Definition header_of (translated : list Text) (encoding : Encoding) (c : Catalog) : GResult (Encoding * Catalog) :=
  first ← gt_or (head translated) Panic;
  m ← parse_metadata first;
  encoding ← match charset m, force_encoding opts with
             | Some cs, None => gt_or (for_label (utf8_encode cs)) UnknownEncoding
             | _, _ => GOk encoding
             end;
  match force_plural opts with
  | None =>
      forms ← plural_forms m;
      match forms.2 with
      | Some p => ast ← parse p; GOk (encoding, set_resolver (Expr ast) c)
      | None => GOk (encoding, c)
      end
  | Some _ => GOk (encoding, c)
  end.
(** The strings from the [i]-th (vendor/eva-gettext/src/parser.rs:153-220) *)
Fixpoint strings_loop (k : nat) (i original_offset translation_offset : Z) (encoding : Encoding) (c : Catalog) : GResult Catalog :=
  match k with
  | O => GOk c
  | S k =>
      '(len, off) ← table_entry original_offset;
      original ← sub contents off (off + len + 1);
      '(context, id) ← original_of encoding original;
      _ ← match id with [] => if i =? 0 then GOk tt else GErr MisplacedMetadata | _ => GOk tt end;
      '(len, off) ← table_entry translation_offset;
      data ← sub contents off (off + len);
      translated ← decode_all encoding (split_by 0 data);
      '(encoding, c) ← match id with [] => header_of translated encoding c | _ => GOk (encoding, c) end;
      strings_loop k (i + 1) (original_offset + 8) (translation_offset + 8) encoding
        (insert_msg (mkMessage id context translated) c)
  end.
End loop.
(** vendor/eva-gettext/src/parser.rs:130-223 [parse_catalog] *)
Definition parse_catalog (file : GResult (list Z)) (opts : ParseOptions) : GResult Catalog :=
  contents ← file;
  let n := Z.of_nat (length contents) in
  _ ← guard_eof (n <? 28);
  magic ← sub contents 0 4;
  read_u32 ← gt_or (get_read_u32_fn magic) BadMagic;
  num ← sub contents 8 12;
  o ← sub contents 12 16;
  t ← sub contents 16 20;
  let original_offset := read_u32 o in
  let translation_offset := read_u32 t in
  _ ← guard_eof ((n <? original_offset) || (n <? translation_offset));
  let c := match force_plural opts with Some f => set_resolver (Function f) catalog_new | None => catalog_new end in
  let encoding := default UTF_8 (force_encoding opts) in
  strings_loop contents read_u32 opts (Z.to_nat (read_u32 num)) 0 original_offset translation_offset encoding c.
End files.
