(* ===== verification/GettextSpec.v ===== *)
(** * Message catalogues: properties

    The parser of plural expressions ends and reads back what is printed with all
    parentheses; a file in the format of gettext, of either byte order and whatever its
    layout, is read as the messages it describes; and a message is translated by the
    form its plural expression says. *)
From S2P Require Import Prelude Password Bytes Gettext Numbers.
Open Scope Z_scope.
Implicit Types (t l r : Text).

(** ** Texts *)

Lemma width_pos c : 1 <= width c.
Proof. unfold width. repeat case_match; lia. Qed.
Lemma byte_len_nonneg t : 0 <= byte_len t.
Proof. induction t as [|c t IH]; simpl; [lia|]. pose proof (width_pos c). lia. Qed.
Lemma byte_len_length t : Z.of_nat (length t) <= byte_len t.
Proof. induction t as [|c t IH]; simpl; [lia|]. pose proof (width_pos c). lia. Qed.
Lemma byte_len_app t t' : byte_len (t ++ t') = byte_len t + byte_len t'.
Proof. induction t as [|c t IH]; simpl; [done|]. lia. Qed.
Lemma byte_len_reverse t : byte_len (reverse t) = byte_len t.
Proof. induction t as [|c t IH]; [done|]. rewrite reverse_cons, byte_len_app. simpl. lia. Qed.
Lemma drop_bytes_app l r : drop_bytes (byte_len l) (l ++ r) = GOk r.
Proof.
  induction l as [|c l IH]; simpl; [by destruct r|]. pose proof (width_pos c). pose proof (byte_len_nonneg l).
  destruct (Z.eqb_spec (width c + byte_len l) 0); [lia|]. destruct (Z.ltb_spec (width c + byte_len l) (width c)); [lia|].
  by replace (width c + byte_len l - width c) with (byte_len l) by lia.
Qed.
Lemma take_bytes_app l r : take_bytes (byte_len l) (l ++ r) = GOk l.
Proof.
  induction l as [|c l IH]; simpl; [by destruct r|]. pose proof (width_pos c). pose proof (byte_len_nonneg l).
  destruct (Z.eqb_spec (width c + byte_len l) 0); [lia|]. destruct (Z.ltb_spec (width c + byte_len l) (width c)); [lia|].
  replace (width c + byte_len l - width c) with (byte_len l) by lia. by rewrite IH.
Qed.
Lemma slice_app l t r : slice (l ++ t ++ r) (byte_len l) (byte_len l + byte_len t) = GOk t.
Proof.
  unfold slice. pose proof (byte_len_nonneg t). destruct (Z.ltb_spec (byte_len l + byte_len t) (byte_len l)); [lia|].
  rewrite drop_bytes_app. simpl. replace (byte_len l + byte_len t - byte_len l) with (byte_len t) by lia. apply take_bytes_app.
Qed.
Lemma slice_eq t l m r a b : t = l ++ m ++ r -> a = byte_len l -> b = byte_len l + byte_len m -> slice t a b = GOk m.
Proof. intros -> -> ->. apply slice_app. Qed.
Lemma drop_bytes_len n t r : drop_bytes n t = GOk r -> 0 <= n -> byte_len r = byte_len t - n.
Proof.
  revert n. induction t as [|c t IH]; intros n; simpl; destruct (Z.eqb_spec n 0); try (intros [= <-]; simpl; lia); try done.
  destruct (Z.ltb_spec n (width c)); [done|]. intros Hr Hn. rewrite (IH _ Hr); lia.
Qed.
Lemma take_bytes_len n t r : take_bytes n t = GOk r -> byte_len r = n.
Proof.
  revert n r. induction t as [|c t IH]; intros n r; simpl; destruct (Z.eqb_spec n 0); try (intros [= <-]; simpl; lia); try done.
  destruct (Z.ltb_spec n (width c)); [done|]. destruct (take_bytes (n - width c) t) eqn:E; [|done]. intros [= <-]. simpl.
  rewrite (IH _ _ E). lia.
Qed.
Lemma slice_len t a b r : slice t a b = GOk r -> byte_len r = b - a.
Proof.
  unfold slice. destruct (b <? a); [done|]. destruct (drop_bytes a t); [|done]. simpl. apply take_bytes_len.
Qed.
Lemma trim_start_len t : byte_len (trim_start t) <= byte_len t.
Proof. induction t as [|c t IH]; simpl; [lia|]. pose proof (width_pos c). destruct (is_whitespace c); simpl; lia. Qed.
Lemma trim_len t : byte_len (trim t) <= byte_len t.
Proof.
  unfold trim. rewrite byte_len_reverse. etrans; [apply trim_start_len|]. rewrite byte_len_reverse. apply trim_start_len.
Qed.

(** ** Plural expressions: the parser ends *)

(** The state after some characters. *)
Definition scan_ok (pat : Text) (k : Z) (st : Scan) : Prop :=
  match st.1.1.1 with
  | None => st.1.1.2 = k /\ Z.of_nat st.1.2 <= k
  | Some x => 0 <= x /\ x + byte_len pat <= k
  end.
Lemma scan_char_ok pat k st ch : scan_ok pat k st -> scan_ok pat (k + 1) (scan_char pat st ch).
Proof.
  destruct st as [[[m i] n] lv]. unfold scan_ok, scan_char. destruct m as [x|]; cbn [fst snd]; [lia|]. intros [-> Hn].
  case_bool_decide; cbn [fst snd]; [|lia].
  destruct (Z.eqb_spec (Z.of_nat (S n)) (byte_len pat)) as [He|He]; cbn [fst snd andb]; [|lia].
  destruct ((if ch =? open then _ else _) =? 0); cbn [fst snd]; lia.
Qed.
Lemma index_of_bounds t pat i : index_of t pat = Some i -> 0 <= i /\ i + byte_len pat <= byte_len t.
Proof.
  intros Hi. assert (scan_ok pat (0 + Z.of_nat (length t)) (foldl (scan_char pat) (None, 0, O, 0) t)) as Hok.
  { assert (forall t k st, scan_ok pat k st -> scan_ok pat (k + Z.of_nat (length t)) (foldl (scan_char pat) st t)) as H.
    { clear. induction t as [|c t IH]; intros k st Hst; simpl; [by rewrite Z.add_0_r|].
      replace (k + Z.of_nat (S (length t))) with (k + 1 + Z.of_nat (length t)) by lia. by apply IH, scan_char_ok. }
    by apply H. }
  unfold index_of in Hi. unfold scan_ok in Hok. rewrite Hi in Hok. pose proof (byte_len_length t). lia.
Qed.

(** Two parsers that agree on what is shorter, and end there. *)
Definition agree (t : Text) (p p' : Text -> GResult Ast) : Prop :=
  forall t', byte_len t' < byte_len t -> p t' = p' t' /\ p t' ≠ GErr Never.
Definition ends (x y : GResult Ast) : Prop := x = y /\ x ≠ GErr Never.
Lemma agree_weaken t t' p p' : agree t p p' -> byte_len t' <= byte_len t -> agree t' p p'.
Proof. intros Ha Hl u Hu. apply Ha. lia. Qed.
Lemma ends_bind {A} (m : GResult A) (k k' : A -> GResult Ast) :
  m ≠ GErr Never -> (forall x, m = GOk x -> ends (k x) (k' x)) -> ends (m ≫= k) (m ≫= k').
Proof. intros Hm Hk. destruct m as [x|e]; [by apply Hk|]. split; [done|]. simpl. congruence. Qed.
Lemma ends_parse t t' p p' (k : Ast -> GResult Ast) :
  agree t p p' -> byte_len t' < byte_len t -> (forall x, ends (k x) (k x)) -> ends (p t' ≫= k) (p' t' ≫= k).
Proof. intros Ha Hl Hk. destruct (Ha t' Hl) as [<- Hn]. apply ends_bind; [done|]. intros x _. apply Hk. Qed.
Lemma slice_ends t a b : slice t a b ≠ GErr Never.
Proof.
  unfold slice. destruct (b <? a); [done|]. destruct (drop_bytes a t) as [r|e] eqn:Hd; simpl.
  - clear. generalize (b - a). induction r as [|c r IH]; intros n; simpl; destruct (n =? 0); try done.
    destruct (n <? width c); [done|]. specialize (IH (n - width c)). by destruct (take_bytes (n - width c) r).
  - revert a Hd. induction t as [|c t IH]; intros a; simpl; destruct (a =? 0); try (by intros [= <-]); try done.
    destruct (a <? width c); [by intros [= <-]|]. apply IH.
Qed.
Lemma binary_ends op t pat i len p p' : agree t p p' -> index_of t pat = Some i -> byte_len pat = len -> 0 < len ->
  ends (binary p op t i len) (binary p' op t i len).
Proof.
  intros Ha Hi Hlen Hpos. apply index_of_bounds in Hi as [Hi Hb]. unfold binary.
  apply ends_bind; [apply slice_ends|]. intros l Hl%slice_len. destruct (Ha l ltac:(lia)) as [<- Hn].
  apply ends_bind; [done|]. intros x _. apply ends_bind; [apply slice_ends|]. intros r Hr%slice_len.
  apply (ends_parse t); [done|lia|]. by split.
Qed.
Lemma parse_not_ends t p p' : agree t p p' -> ends (parse_not p t) (parse_not p' t).
Proof.
  intros Ha. unfold parse_not. case_bool_decide as Hi.
  - apply index_of_bounds in Hi as [_ Hb]. change (byte_len (as_bytes "!")) with 1 in Hb.
    apply ends_bind; [apply slice_ends|]. intros r Hr%slice_len. apply (ends_parse t); [done|lia|]. by split.
  - split; [done|]. unfold parse_int. destruct (parse_u64 _); [done|]. unfold parse_n. by case_bool_decide.
Qed.
Lemma parse_and_ends t p p' : agree t p p' -> ends (parse_and p t) (parse_and p' t).
Proof.
  intros Ha. unfold parse_and, parse_or, parse_ternary. destruct (index_of t _) eqn:?; [by eapply binary_ends|].
  destruct (index_of t (as_bytes "||")) eqn:?; [by eapply binary_ends|].
  destruct (index_of t (as_bytes "?")) as [i|] eqn:Hi; [destruct (index_of t (as_bytes ":")) as [l|] eqn:Hl; [|by split]|].
  { apply index_of_bounds in Hi as [Hi Hi'], Hl as [Hl Hl']. change (byte_len (as_bytes _)) with 1 in Hi', Hl'.
    apply ends_bind; [apply slice_ends|]. intros x Hx%slice_len. destruct (Ha x ltac:(lia)) as [<- Hn].
    apply ends_bind; [done|]. intros c _. apply ends_bind; [apply slice_ends|]. intros y Hy%slice_len.
    destruct (Ha y ltac:(lia)) as [<- Hn']. apply ends_bind; [done|]. intros ok _.
    apply ends_bind; [apply slice_ends|]. intros z Hz%slice_len. apply (ends_parse t); [done|lia|]. by split. }
  unfold parse_ge, parse_gt, parse_le, parse_lt, parse_eq, parse_neq, parse_mod.
  repeat match goal with
  | |- ends (match index_of t ?q with _ => _ end) _ => destruct (index_of t q) eqn:?; [by eapply binary_ends|]
  end.
  apply parse_not_ends. eapply agree_weaken; [done|apply trim_len].
Qed.
Lemma parse_parens_ends t p p' : agree t p p' -> ends (parse_parens p t) (parse_parens p' t).
Proof.
  intros Ha. assert (ends (parse_and p (trim t)) (parse_and p' (trim t))) as Hand.
  { apply parse_and_ends. eapply agree_weaken; [done|apply trim_len]. }
  unfold parse_parens. destruct t as [|c t']; [done|].
  assert (forall P : Prop, (c = 40 -> P) -> (c ≠ 40 -> P) -> P) as Hc by (intros P; destruct (decide (c = 40)); auto).
  apply Hc; [intros ->|intros Hne; repeat (case_match; try done)].
  apply ends_bind; [apply slice_ends|]. intros inner Hin%slice_len. case_match; [|done].
  apply Ha. pose proof (trim_len inner). lia.
Qed.
Lemma parse_fuel_ends : forall f f' t, byte_len t < Z.of_nat f -> byte_len t < Z.of_nat f' -> ends (parse_fuel f t) (parse_fuel f' t).
Proof.
  induction f as [|f IH]; intros [|f'] t Hf Hf'; try (pose proof (byte_len_nonneg t); lia).
  cbn [parse_fuel]. apply parse_parens_ends. intros t' Ht'. pose proof (trim_len t). apply IH; lia.
Qed.
(** It ends for every text. *)
Lemma parse_ends t : parse t ≠ GErr Never.
Proof. unfold parse. pose proof (byte_len_nonneg t). apply (parse_fuel_ends _ (S (Z.to_nat (byte_len t)))); lia. Qed.
Lemma parse_unfold t : parse t = parse_parens parse (trim t).
Proof.
  unfold parse at 1. cbn [parse_fuel]. apply parse_parens_ends. intros t' Ht'. unfold parse.
  pose proof (byte_len_nonneg t'). pose proof (trim_len t). apply parse_fuel_ends; lia.
Qed.

(** ** Plural expressions: what is printed is read back *)

Definition wrap t : Text := open :: t ++ [close].
Definition op_text (op : Operator) : Text :=
  as_bytes match op with
           | Equal => "==" | NotEqual => "!=" | GreaterOrEqual => ">=" | SmallerOrEqual => "<=" | Greater => ">"
           | Smaller => "<" | And => "&&" | Or => "||" | Modulo => "%"
           end.
(** The decimal digits of a number. *)
Fixpoint dec_fuel (fuel : nat) (x : Z) (acc : Text) : Text :=
  match fuel with
  | O => acc
  | S fuel => let acc := 48 + x mod 10 :: acc in if x / 10 =? 0 then acc else dec_fuel fuel (x / 10) acc
  end.
Definition dec (x : Z) : Text := dec_fuel 20 x [].
(** An expression with all its parentheses. *)
Fixpoint print (a : Ast) : Text :=
  match a with
  | Ternary cond ok nok => wrap (print cond) ++ as_bytes "?" ++ wrap (print ok) ++ as_bytes ":" ++ wrap (print nok)
  | N => as_bytes "n"
  | Integer x => dec x
  | Op op lhs rhs => wrap (print lhs) ++ op_text op ++ wrap (print rhs)
  | Not val => as_bytes "!" ++ wrap (print val)
  end.
(** Its numbers are [u64]. *)
Fixpoint ast_ok (a : Ast) : Prop :=
  match a with
  | Ternary c x y => ast_ok c /\ ast_ok x /\ ast_ok y
  | N => True
  | Integer x => 0 <= x < 2 ^ 64
  | Op _ x y => ast_ok x /\ ast_ok y
  | Not x => ast_ok x
  end.

(** Parentheses that match. *)
Inductive balanced : Text -> Prop :=
  | balanced_nil : balanced []
  | balanced_char c t : c ≠ open -> c ≠ close -> balanced t -> balanced (c :: t)
  | balanced_wrap t t' : balanced t -> balanced t' -> balanced (wrap t ++ t').
Lemma balanced_app t t' : balanced t -> balanced t' -> balanced (t ++ t').
Proof. induction 1; intros Ht'; simpl; [done|by constructor; auto|]. rewrite <- app_assoc. apply (balanced_wrap t); auto. Qed.
Lemma balanced_plain t : Forall (fun c => c ≠ open /\ c ≠ close) t -> balanced t.
Proof. induction 1 as [|c t [] _ IH]; by constructor. Qed.
Lemma balanced_one t : balanced t -> balanced (wrap t).
Proof. intros Ht. rewrite <- (app_nil_r (wrap t)). apply balanced_wrap; [done|constructor]. Qed.

(** A position moves with the text before. *)
Definition shift (d : Z) (st : Scan) : Scan := (Z.add d <$> st.1.1.1, d + st.1.1.2, st.1.2, st.2).
Lemma scan_shift pat d t : forall st, foldl (scan_char pat) (shift d st) t = shift d (foldl (scan_char pat) st t).
Proof.
  induction t as [|c t IH]; intros st; [done|]. cbn [foldl]. rewrite <- IH. f_equal.
  destruct st as [[[[x|] i] n] lv]; [done|]. unfold scan_char, shift. cbn [fst snd fmap option_fmap option_map].
  rewrite <- Z.add_sub_assoc, <- Z.add_assoc. case_bool_decide; [|done]. by destruct (_ && _).
Qed.
Lemma scan_found pat t : forall x i n lv, (foldl (scan_char pat) (Some x, i, n, lv) t).1.1.1 = Some x.
Proof. induction t as [|c t IH]; intros; [done|]. apply IH. Qed.
(** Nothing is found within parentheses. *)
Lemma scan_inside pat t : balanced t -> forall i n lv, 1 <= lv ->
  exists n', foldl (scan_char pat) (None, i, n, lv) t = (None, i + Z.of_nat (length t), n', lv).
Proof.
  assert (forall i n lv c lv', (if c =? open then lv + 1 else if c =? close then lv - 1 else lv) = lv' -> 1 <= lv' ->
    exists n', scan_char pat (None, i, n, lv) c = (None, i + 1, n', lv')) as Hstep.
  { intros i n lv c lv' Hlv Hpos. unfold scan_char. rewrite Hlv. case_bool_decide; [|eauto].
    destruct (Z.eqb_spec lv' 0); [lia|]. rewrite andb_false_r. eauto. }
  induction 1 as [|c t Ho Hc _ IH|t t' _ IH _ IH']; intros i n lv Hlv.
  - exists n. simpl. by rewrite Z.add_0_r.
  - destruct (Hstep i n lv c lv) as [n1 H1]; [by destruct (Z.eqb_spec c open), (Z.eqb_spec c close)|done|].
    cbn [foldl]. rewrite H1. destruct (IH (i + 1) n1 lv Hlv) as [n2 ->]. exists n2. cbn [length].
    by replace (i + 1 + Z.of_nat (length t)) with (i + Z.of_nat (S (length t))) by lia.
  - unfold wrap. cbn [foldl app]. rewrite <- app_assoc, !foldl_app. cbn [foldl app].
    destruct (Hstep i n lv open (lv + 1)) as [n1 ->]; [done|lia|]. destruct (IH (i + 1) n1 (lv + 1)) as [n2 ->]; [lia|].
    destruct (Hstep (i + 1 + Z.of_nat (length t)) n2 (lv + 1) close lv) as [n3 H3]; [simpl; lia|done|].
    cbn [app foldl]. rewrite H3. destruct (IH' (i + 1 + Z.of_nat (length t) + 1) n3 lv Hlv) as [n4 ->]. exists n4.
    cbn [length]. rewrite length_app. cbn [length].
    by match goal with |- (None, ?x, _, _) = (None, ?y, _, _) => replace y with x by lia end.
Qed.
Definition no_parens (pat : Text) : Prop := (open ∉ pat) /\ close ∉ pat.
Lemma scan_wrap pat t i n : no_parens pat -> balanced t ->
  foldl (scan_char pat) (None, i, n, 0) (wrap t) = (None, i + Z.of_nat (length (wrap t)), O, 0).
Proof.
  intros [Ho Hc] Ht. unfold wrap. cbn [foldl]. rewrite foldl_app.
  assert (forall n c, c ∉ pat -> bool_decide (pat !! n = Some c) = false) as Hno.
  { intros m c Hn. apply bool_decide_eq_false. intros Hm. by apply list_elem_of_lookup_2 in Hm. }
  assert (scan_char pat (None, i, n, 0) open = (None, i + 1, O, 1)) as -> by (unfold scan_char; by rewrite Hno).
  destruct (scan_inside pat t Ht (i + 1) O 1) as [n' ->]; [lia|]. cbn [foldl]. unfold scan_char. rewrite Hno by done.
  cbn [length]. rewrite length_app. cbn [length].
  by match goal with |- (None, ?x, _, _) = (None, ?y, _, _) => replace y with x by lia end.
Qed.
Lemma index_of_wrap pat t t' : no_parens pat -> balanced t ->
  index_of (wrap t ++ t') pat = Z.add (Z.of_nat (length (wrap t))) <$> index_of t' pat.
Proof.
  intros Hp Ht. unfold index_of. rewrite foldl_app, scan_wrap by done.
  replace (None, 0 + Z.of_nat (length (wrap t)), O, 0) with (shift (Z.of_nat (length (wrap t))) (None, 0, O, 0))
    by (unfold shift; cbn [fst snd fmap option_fmap option_map]; by rewrite Z.add_0_r).
  by rewrite scan_shift.
Qed.
Lemma scan_level pat o : no_parens o -> forall m i n lv, (foldl (scan_char pat) (m, i, n, lv) o).2 = lv.
Proof.
  intros [Ho Hc]. induction o as [|c o IH]; intros m i n lv; [done|]. cbn [foldl].
  apply not_elem_of_cons in Ho as [Ho1 Ho], Hc as [Hc1 Hc]. destruct m as [x|]; [by apply IH|]. unfold scan_char.
  destruct (Z.eqb_spec c open); [congruence|]. destruct (Z.eqb_spec c close); [congruence|].
  case_bool_decide; [|by apply IH]. destruct (_ && _); by apply IH.
Qed.
Lemma scan_position pat o : forall i n lv, (foldl (scan_char pat) (None, i, n, lv) o).1.1.1 = None ->
  (foldl (scan_char pat) (None, i, n, lv) o).1.1.2 = i + Z.of_nat (length o).
Proof.
  induction o as [|c o IH]; intros i n lv; [intros _; simpl; lia|]. cbn [foldl]. unfold scan_char at 2 4.
  case_bool_decide; [destruct (_ && _); [by rewrite scan_found|]|]; intros Hn; rewrite (IH _ _ _ Hn); cbn [length]; lia.
Qed.
(** A sign, and what is in parentheses after it. *)
Lemma index_of_sign pat o t t' : no_parens pat -> no_parens o -> balanced t ->
  index_of (o ++ wrap t ++ t') pat =
    match index_of o pat with
    | Some k => Some k
    | None => Z.add (Z.of_nat (length o) + Z.of_nat (length (wrap t))) <$> index_of t' pat
    end.
Proof.
  intros Hp Ho Ht. unfold index_of. rewrite !foldl_app.
  pose proof (scan_level pat o Ho None 0 O 0) as Hlv. pose proof (scan_position pat o 0 O 0) as Hpos.
  destruct (foldl (scan_char pat) (None, 0, O, 0) o) as [[[[x|] i] n] lv]; cbn [fst snd] in *.
  - rewrite <- foldl_app. apply scan_found.
  - rewrite Hlv, (Hpos eq_refl), scan_wrap by done.
    set (d := Z.of_nat (length o) + Z.of_nat (length (wrap t))).
    replace (None, 0 + Z.of_nat (length o) + Z.of_nat (length (wrap t)), O, 0) with (shift d (None, 0, O, 0))
      by (unfold shift, d; cbn [fst snd fmap option_fmap option_map]; by rewrite Z.add_0_r).
    by rewrite scan_shift.
Qed.

(** *** The parts of a printed text *)

Lemma byte_len_ascii t : Forall (fun c => 0 <= c < 128) t -> byte_len t = Z.of_nat (length t).
Proof.
  induction 1 as [|c t Hc _ IH]; [done|]. cbn [byte_len length]. rewrite IH. unfold width.
  destruct (Z.ltb_spec c 128); lia.
Qed.
Definition visible (c : Z) : Prop := 33 <= c <= 126.
Lemma visible_ascii t : Forall visible t -> byte_len t = Z.of_nat (length t).
Proof. intros Ht. apply byte_len_ascii. eapply Forall_impl; [exact Ht|]. unfold visible. simpl. lia. Qed.
Lemma visible_not_space c : visible c -> is_whitespace c = false.
Proof.
  unfold visible, is_whitespace, between. intros Hc.
  repeat (rewrite orb_false_iff; split); repeat (rewrite andb_false_iff);
    repeat match goal with
    | |- (_ =? _) = false => apply Z.eqb_neq; lia
    | |- (?x <=? ?y) = false \/ _ => first [left; apply Z.leb_gt; lia | right; apply Z.leb_gt; lia]
    end.
Qed.
Lemma trim_start_visible t : (forall c, head t = Some c -> visible c) -> trim_start t = t.
Proof. destruct t as [|c t]; intros Ht; [done|]. simpl. by rewrite visible_not_space by auto. Qed.
Lemma trim_ends t : (forall c, head t = Some c -> visible c) -> (forall c, last t = Some c -> visible c) -> trim t = t.
Proof.
  intros Hh Hl. unfold trim. rewrite (trim_start_visible t) by done. rewrite trim_start_visible; [apply reverse_involutive|].
  intros c. rewrite <- last_reverse, reverse_involutive. apply Hl.
Qed.
Lemma trim_visible t : Forall visible t -> trim t = t.
Proof.
  intros Ht. rewrite Forall_forall in Ht. apply trim_ends; intros c Hc; apply Ht.
  - by apply head_Some_elem_of.
  - rewrite last_lookup in Hc. by apply list_elem_of_lookup_2 in Hc.
Qed.

Lemma dec_fuel_app fuel : forall x acc, dec_fuel fuel x acc = dec_fuel fuel x [] ++ acc.
Proof.
  induction fuel as [|fuel IH]; intros x acc; [done|]. cbn [dec_fuel]. destruct (x / 10 =? 0); [done|].
  rewrite (IH _ (_ :: acc)), (IH _ [_]), <- app_assoc. done.
Qed.
Lemma parse_dec_app t t' : forall acc, parse_dec acc (t ++ t') = (x ← parse_dec acc t; parse_dec x t').
Proof.
  induction t as [|c t IH]; intros acc; [done|]. cbn [parse_dec app]. destruct (between 48 57 c); [|done].
  destruct (_ <? _); [apply IH|done].
Qed.
Lemma dec_digits fuel x : 0 <= x -> Forall (fun c => 48 <= c <= 57) (dec_fuel fuel x []).
Proof.
  revert x. induction fuel as [|fuel IH]; intros x Hx; [constructor|]. cbn [dec_fuel].
  assert (Forall (fun c => 48 <= c <= 57) [48 + x mod 10]) as Hd.
  { constructor; [|constructor]. pose proof (Z.mod_pos_bound x 10). lia. }
  destruct (x / 10 =? 0); [done|]. rewrite dec_fuel_app. apply Forall_app. split; [|done]. apply IH, Z.div_pos; lia.
Qed.
Lemma parse_dec_fuel fuel x : 0 <= x < 2 ^ 64 -> x < 10 ^ Z.of_nat (S fuel) -> parse_dec 0 (dec_fuel (S fuel) x []) = Some x.
Proof.
  revert x. induction fuel as [|fuel IH]; intros x Hx Hf; cbn [dec_fuel].
  all: assert (Hm : 0 <= x mod 10 < 10) by (apply Z.mod_pos_bound; lia); assert (Hdm := Z.div_mod x 10 ltac:(lia)).
  all: assert (Hone : forall a, 10 * a + x mod 10 = x -> parse_dec a [48 + x mod 10] = Some x) by
    (intros a Ha; cbn [parse_dec]; unfold between; rewrite !(proj2 (Z.leb_le _ _)) by lia; simpl;
     replace (10 * a + (48 + x mod 10 - 48)) with x by lia; rewrite (proj2 (Z.ltb_lt x _)) by lia; done).
  - change (10 ^ Z.of_nat 1) with 10 in Hf. rewrite Z.div_small by lia. cbn [Z.eqb]. apply Hone. rewrite Z.mod_small; lia.
  - destruct (Z.eqb_spec (x / 10) 0) as [H0|H0]; [apply Hone; lia|].
    change (parse_dec 0 (dec_fuel (S fuel) (x / 10) [48 + x mod 10]) = Some x). rewrite dec_fuel_app, parse_dec_app.
    rewrite IH; [apply Hone; lia| |].
    + split; [apply Z.div_pos; lia|]. apply Z.div_lt_upper_bound; lia.
    + apply Z.div_lt_upper_bound; [lia|]. rewrite (Nat2Z.inj_succ (S fuel)), Z.pow_succ_r in Hf by lia. done.
Qed.
Lemma dec_ne x : dec x ≠ [].
Proof.
  unfold dec. generalize 19%nat. intros f. cbn [dec_fuel]. destruct (x / 10 =? 0); [done|]. rewrite dec_fuel_app.
  intros [_ ?]%app_eq_nil. done.
Qed.
Lemma parse_dec_u64 x : 0 <= x < 2 ^ 64 -> parse_u64 (dec x) = Some x.
Proof.
  intros Hx. pose proof (dec_digits 20 x ltac:(lia)) as Hd. pose proof (dec_ne x) as Hn.
  assert (parse_dec 0 (dec x) = Some x) as Hp.
  { apply (parse_dec_fuel 19); [done|]. etrans; [apply Hx|]. by vm_compute. }
  fold (dec x) in Hd. unfold parse_u64. destruct (dec x) as [|c t] eqn:Ed; [done|].
  inversion_clear Hd. repeat (case_match; try done); lia.
Qed.
Lemma visible_text s : forallb (fun c => (33 <=? c) && (c <=? 126)) (as_bytes s) = true -> Forall visible (as_bytes s).
Proof.
  intros Hs. apply Forall_forall. intros c Hc%list_elem_of_In. rewrite forallb_forall in Hs. apply Hs in Hc. unfold visible. lia.
Qed.
(** The characters of an expression. *)
Definition alphabet : Text := as_bytes "()?:n!=<>&|%0123456789".
Lemma alphabet_text s : forallb (fun c => bool_decide (c ∈ alphabet)) (as_bytes s) = true -> Forall (.∈ alphabet) (as_bytes s).
Proof.
  intros Hs. apply Forall_forall. intros c Hc%list_elem_of_In. rewrite forallb_forall in Hs. apply Hs in Hc.
  by apply bool_decide_eq_true in Hc.
Qed.
Lemma print_alphabet a : ast_ok a -> Forall (.∈ alphabet) (print a).
Proof.
  assert (Hw : forall t, Forall (.∈ alphabet) t -> Forall (.∈ alphabet) (wrap t)).
  { intros t Ht. change (wrap t) with (as_bytes "(" ++ t ++ as_bytes ")"). rewrite !Forall_app. split_and!; [|done|]; by apply alphabet_text. }
  induction a as [c IHc x IHx y IHy| |x|op x IHx y IHy|x IHx]; cbn [print ast_ok]; intros Ha; rewrite ?Forall_app.
  - destruct Ha as (? & ? & ?). split_and!; auto; by apply alphabet_text.
  - by apply alphabet_text.
  - apply Forall_forall. intros c Hc. pose proof (proj1 (Forall_forall _ _) (dec_digits 20 x ltac:(lia)) c Hc) as Hd. simpl in Hd.
    assert (c = 48 \/ c = 49 \/ c = 50 \/ c = 51 \/ c = 52 \/ c = 53 \/ c = 54 \/ c = 55 \/ c = 56 \/ c = 57) as Hn by lia.
    repeat destruct Hn as [->|Hn]; [..|subst c]; by apply (bool_decide_eq_true_1 (_ ∈ alphabet)).
  - destruct Ha. split_and!; auto. apply alphabet_text. by destruct op.
  - split; [by apply alphabet_text|auto].
Qed.
Lemma alphabet_all (f : Z -> bool) a : ast_ok a -> forallb f alphabet = true -> forall c, c ∈ print a -> f c = true.
Proof.
  intros Ha%print_alphabet Hf c Hc. rewrite forallb_forall in Hf. rewrite Forall_forall in Ha. by apply Hf, list_elem_of_In, Ha.
Qed.
Lemma print_visible a : ast_ok a -> Forall visible (print a).
Proof.
  intros Ha. apply Forall_forall. intros c Hc.
  pose proof (alphabet_all (fun c => (33 <=? c) && (c <=? 126)) a Ha eq_refl c Hc) as H. cbv beta in H.
  unfold visible. lia.
Qed.
Lemma print_balanced a : ast_ok a -> balanced (print a).
Proof.
  assert (Hs : forall s, forallb (fun c => negb ((c =? open) || (c =? close))) (as_bytes s) = true -> balanced (as_bytes s)).
  { intros s Hs. apply balanced_plain, Forall_forall. intros c Hc%list_elem_of_In. rewrite forallb_forall in Hs.
    apply Hs in Hc. split; intros ->; done. }
  induction a as [c IHc x IHx y IHy| |x|op x IHx y IHy|x IHx]; cbn [print ast_ok]; intros Ha.
  - destruct Ha as (? & ? & ?). repeat apply balanced_app; auto using balanced_one.
  - by apply Hs.
  - apply balanced_plain. eapply Forall_impl; [apply dec_digits; lia|]. unfold open, close. simpl. lia.
  - destruct Ha. repeat apply balanced_app; auto using balanced_one. apply Hs. by destruct op.
  - apply balanced_app; auto using balanced_one.
Qed.
Lemma print_ne a : print a ≠ [].
Proof. destruct a; try done. apply dec_ne. Qed.

(** *** Reading it back *)

Lemma paren_open lv k : 0 <= lv -> paren_char (lv, k) open = (lv + 1, k + 1).
Proof. intros Hlv. unfold paren_char. by destruct (Z.ltb_spec 0 lv). Qed.
Lemma paren_close lv k : 0 < lv -> paren_char (lv, k) close = (lv - 1, k + 1).
Proof. intros Hlv. unfold paren_char. destruct (Z.ltb_spec 0 lv); [done|lia]. Qed.
Lemma paren_inside t : balanced t -> forall lv k, 1 <= lv -> foldl paren_char (lv, k) t = (lv, k + Z.of_nat (length t)).
Proof.
  induction 1 as [|c t Ho Hc _ IH|t t' _ IH _ IH']; intros lv k Hlv.
  - simpl. by rewrite Z.add_0_r.
  - cbn [foldl paren_char]. destruct (Z.ltb_spec 0 lv); [|lia]. destruct (Z.eqb_spec c close); [done|].
    destruct (Z.eqb_spec c open); [done|]. rewrite IH by done. cbn [length]. f_equal. lia.
  - unfold wrap. cbn [app]. rewrite <- app_assoc. cbn [foldl app]. rewrite foldl_app. cbn [foldl].
    rewrite paren_open, IH, paren_close by lia.
    replace (lv + 1 - 1) with lv by lia. rewrite IH' by done. cbn [length]. rewrite !length_app. cbn [length]. f_equal. lia.
Qed.
Lemma visible_wrap t : Forall visible t -> Forall visible (wrap t).
Proof.
  intros Ht. unfold wrap. constructor; [unfold visible, open; lia|]. apply Forall_app. split; [done|].
  constructor; [unfold visible, close; lia|constructor].
Qed.
Lemma length_wrap t : length (wrap t) = S (S (length t)).
Proof. unfold wrap. simpl. rewrite length_app. simpl. lia. Qed.
Section read_back.
Variable (p : Text -> GResult Ast).

(** A text that starts with a parenthesis which ends before the text does. *)
Lemma parens_pass l t :
  Forall visible l -> Forall visible t -> balanced l -> t ≠ [] ->
  (foldl paren_char (0, 3 + Z.of_nat (length l)) (removelast t)).2 ≠ Z.of_nat (length (wrap l ++ t)) ->
  parse_parens p (wrap l ++ t) = parse_and p (wrap l ++ t).
Proof.
  intros Hl Ht Hb Hne Hend. assert (Hv : Forall visible (wrap l ++ t)) by (apply Forall_app; split; [by apply visible_wrap|done]).
  change (parse_parens p (wrap l ++ t)) with (inner ← slice (wrap l ++ t) 1 (byte_len (wrap l ++ t) - 1);
    if (foldl paren_char (1, 2) inner).2 =? byte_len (wrap l ++ t) then p (trim inner) else parse_and p (trim (wrap l ++ t))).
  rewrite (trim_visible _ Hv). destruct (exists_last Hne) as (t' & c & ->). rewrite removelast_last in Hend.
  rewrite (slice_eq _ [open] (l ++ [close] ++ t') [c]).
  - cbn [mbind gresult_bind]. rewrite foldl_app, paren_inside by (done || lia). cbn [foldl app].
    rewrite paren_close by lia.
    rewrite (visible_ascii _ Hv). replace (1 - 1) with 0 by lia. replace (2 + Z.of_nat (length l) + 1) with (3 + Z.of_nat (length l)) by lia.
    by rewrite (proj2 (Z.eqb_neq _ _) Hend).
  - unfold wrap. simpl. by rewrite <- !app_assoc.
  - done.
  - unfold wrap. cbn [app byte_len]. rewrite !byte_len_app. cbn [byte_len app].
    assert (byte_len [c] = 1) as Hc by (rewrite visible_ascii; [done|]; by apply Forall_app in Ht as []).
    cbn [byte_len] in Hc. change (width open) with 1. lia.
Qed.
Lemma no_parens_text s : forallb (fun c => negb ((c =? open) || (c =? close))) (as_bytes s) = true -> no_parens (as_bytes s).
Proof. intros Hs. rewrite forallb_forall in Hs. split; intros Hc%list_elem_of_In; by apply Hs in Hc. Qed.
Lemma op_visible op : Forall visible (op_text op) /\ no_parens (op_text op) /\ op_text op ≠ [].
Proof.
  split_and!; [|by destruct op; apply no_parens_text|by destruct op].
  apply Forall_forall. intros c Hc. unfold visible. destruct op; vm_compute in Hc; repeat (apply elem_of_cons in Hc as [->|Hc]; [lia|]); by apply not_elem_of_nil in Hc.
Qed.
Lemma paren_plain t k : open ∉ t -> foldl paren_char (0, k) t = (0, k).
Proof.
  induction t as [|c t IH]; intros Ho; [done|]. apply not_elem_of_cons in Ho as [Hc Ho]. cbn [foldl paren_char].
  destruct (Z.ltb_spec 0 0); [lia|]. destruct (Z.eqb_spec c open); [by subst|]. by apply IH.
Qed.
Lemma removelast_wrap t : removelast (wrap t) = open :: t.
Proof. unfold wrap. by rewrite app_comm_cons, removelast_last. Qed.
Lemma binary_print op l r :
  Forall visible l -> Forall visible r ->
  binary p op (wrap l ++ op_text op ++ wrap r) (Z.of_nat (length (wrap l)) + 0) (Z.of_nat (length (op_text op))) =
    (lhs ← p (wrap l); rhs ← p (wrap r); GOk (Op op lhs rhs)).
Proof.
  intros Hl%visible_wrap Hr%visible_wrap. destruct (op_visible op) as (Ho & _ & _). unfold binary.
  rewrite (slice_eq (wrap l ++ op_text op ++ wrap r) [] (wrap l) (op_text op ++ wrap r) 0); [|reflexivity|reflexivity|rewrite (visible_ascii (wrap l)) by done; cbn [byte_len]; lia].
  cbn [mbind gresult_bind]. destruct (p (wrap l)) as [x|e]; [|done]. cbn [mbind gresult_bind].
  rewrite (slice_eq _ (wrap l ++ op_text op) (wrap r) []); [reflexivity|by rewrite app_nil_r, <- app_assoc|..].
  - rewrite byte_len_app, (visible_ascii (wrap l)), (visible_ascii (op_text op)) by done. lia.
  - rewrite !byte_len_app. lia.
Qed.
Lemma index_of_op op pat l r : no_parens pat -> balanced l -> balanced r ->
  index_of (wrap l ++ op_text op ++ wrap r) pat = Z.add (Z.of_nat (length (wrap l))) <$> index_of (op_text op) pat.
Proof.
  intros Hp Hl Hr. rewrite index_of_wrap by done. rewrite <- (app_nil_r (wrap r)). rewrite index_of_sign; [|done|apply op_visible|done].
  by destruct (index_of (op_text op) pat).
Qed.
Ltac compute_index :=
  repeat match goal with
  | |- context [index_of (?f ?x) (as_bytes ?s)] =>
      let v := eval vm_compute in (index_of (f x) (as_bytes s)) in change (index_of (f x) (as_bytes s)) with v
  end.
Lemma parse_op op l r :
  Forall visible l -> Forall visible r -> balanced l -> balanced r ->
  parse_parens p (wrap l ++ op_text op ++ wrap r) = (lhs ← p (wrap l); rhs ← p (wrap r); GOk (Op op lhs rhs)).
Proof.
  intros Hl Hr Hbl Hbr. destruct (op_visible op) as (Ho & [Hno _] & Hne). rewrite parens_pass; try done.
  - rewrite <- binary_print by done.
    assert (forall s, no_parens (as_bytes s) -> index_of (wrap l ++ op_text op ++ wrap r) (as_bytes s) =
      Z.add (Z.of_nat (length (wrap l))) <$> index_of (op_text op) (as_bytes s)) as Hi by (intros; by apply index_of_op).
    unfold parse_and, parse_or, parse_ternary, parse_ge, parse_gt, parse_le, parse_lt, parse_eq, parse_neq, parse_mod.
    rewrite !Hi by (by apply no_parens_text). by destruct op; compute_index.
  - apply Forall_app. split; [done|by apply visible_wrap].
  - destruct (op_text op); done.
  - rewrite removelast_app by done. rewrite removelast_wrap, foldl_app, paren_plain by done. cbn [foldl].
    rewrite paren_open, paren_inside by (done || lia). cbn [snd].
    rewrite !length_app, !length_wrap. destruct (op_text op); [done|]. simpl length. lia.
Qed.
Lemma index_of_ternary c a b pat : no_parens pat -> balanced c -> balanced a -> balanced b ->
  index_of (wrap c ++ as_bytes "?" ++ wrap a ++ as_bytes ":" ++ wrap b) pat =
    Z.add (Z.of_nat (length (wrap c))) <$>
      match index_of (as_bytes "?") pat with
      | Some k => Some k
      | None => Z.add (1 + Z.of_nat (length (wrap a))) <$> index_of (as_bytes ":") pat
      end.
Proof.
  intros Hp Hc Ha Hb. rewrite index_of_wrap by done. rewrite index_of_sign; [|done|by apply no_parens_text|done].
  rewrite <- (app_nil_r (wrap b)), index_of_sign; [|done|by apply no_parens_text|done].
  by destruct (index_of (as_bytes "?") pat), (index_of (as_bytes ":") pat).
Qed.
Lemma parse_if c a b :
  Forall visible c -> Forall visible a -> Forall visible b -> balanced c -> balanced a -> balanced b ->
  parse_parens p (wrap c ++ as_bytes "?" ++ wrap a ++ as_bytes ":" ++ wrap b) =
    (x ← p (wrap c); y ← p (wrap a); z ← p (wrap b); GOk (Ternary x y z)).
Proof.
  intros Hc Ha Hb Hbc Hba Hbb. set (t := wrap c ++ _).
  assert (Hq : Forall visible (as_bytes "?")) by (by apply visible_text).
  assert (Hd : Forall visible (as_bytes ":")) by (by apply visible_text).
  pose proof (visible_wrap c Hc) as Hwc. pose proof (visible_wrap a Ha) as Hwa. pose proof (visible_wrap b Hb) as Hwb.
  unfold t at 1. rewrite parens_pass; try done.
  - assert (forall s, no_parens (as_bytes s) -> index_of t (as_bytes s) = Z.add (Z.of_nat (length (wrap c))) <$>
      match index_of (as_bytes "?") (as_bytes s) with
      | Some k => Some k
      | None => Z.add (1 + Z.of_nat (length (wrap a))) <$> index_of (as_bytes ":") (as_bytes s)
      end) as Hi by (intros; by apply index_of_ternary).
    fold t. unfold parse_and, parse_or, parse_ternary. rewrite !Hi by (by apply no_parens_text). compute_index.
    cbn [fmap option_fmap option_map].
    rewrite (slice_eq t [] (wrap c) (as_bytes "?" ++ wrap a ++ as_bytes ":" ++ wrap b) 0);
      [|done|done|rewrite (visible_ascii (wrap c)) by done; cbn [byte_len]; lia].
    cbn [mbind gresult_bind]. destruct (p (wrap c)) as [x|e]; [|done]. cbn [mbind gresult_bind].
    assert (byte_len (wrap c ++ as_bytes "?") = Z.of_nat (length (wrap c)) + 1) as Hl1.
    { rewrite byte_len_app, (visible_ascii (wrap c)) by done. done. }
    rewrite (slice_eq t (wrap c ++ as_bytes "?") (wrap a) (as_bytes ":" ++ wrap b) (Z.of_nat (length (wrap c)) + 0 + 1));
      [|unfold t; by rewrite <- !app_assoc|rewrite Hl1; lia|rewrite Hl1, (visible_ascii (wrap a)) by done; lia].
    cbn [mbind gresult_bind]. destruct (p (wrap a)) as [y|e]; [|done]. cbn [mbind gresult_bind].
    assert (byte_len (wrap c ++ as_bytes "?" ++ wrap a ++ as_bytes ":") = Z.of_nat (length (wrap c)) + 1 + Z.of_nat (length (wrap a)) + 1) as Hl2.
    { rewrite !byte_len_app, (visible_ascii (wrap c)), (visible_ascii (wrap a)) by done. change (byte_len (as_bytes _)) with 1. lia. }
    rewrite (slice_eq t (wrap c ++ as_bytes "?" ++ wrap a ++ as_bytes ":") (wrap b) []);
      [reflexivity|unfold t; by rewrite app_nil_r, <- !app_assoc|rewrite Hl2; lia|unfold t; rewrite !byte_len_app; lia].
  - repeat (apply Forall_app; split); done.
  - cbn [as_bytes app]. rewrite !removelast_app by (first [done|intros [_ ?]%app_eq_nil; done]). rewrite removelast_wrap.
    rewrite !foldl_app. rewrite paren_plain by (apply no_parens_text; done). unfold wrap at 1. cbn [foldl]. rewrite foldl_app.
    rewrite paren_open, paren_inside by (done || lia). cbn [foldl]. rewrite paren_close by lia.
    rewrite paren_plain by (apply no_parens_text; done). rewrite paren_open, paren_inside by (done || lia). cbn [snd].
    rewrite !length_app, !length_wrap. simpl length. lia.
Qed.
Lemma parse_negation a : Forall visible a -> balanced a ->
  parse_parens p (as_bytes "!" ++ wrap a) = (x ← p (wrap a); GOk (Not x)).
Proof.
  intros Ha Hb. set (t := as_bytes "!" ++ wrap a).
  assert (Hv : Forall visible t) by (apply Forall_app; split; [by apply visible_text|by apply visible_wrap]).
  change (parse_parens p t) with (parse_and p (trim t)). rewrite (trim_visible t Hv).
  assert (forall s, no_parens (as_bytes s) -> index_of t (as_bytes s) = index_of (as_bytes "!") (as_bytes s)) as Hi.
  { intros s Hs. unfold t. rewrite <- (app_nil_r (wrap a)), index_of_sign; [|done|by apply no_parens_text|done].
    by destruct (index_of (as_bytes "!") (as_bytes s)). }
  unfold parse_and, parse_or, parse_ternary, parse_ge, parse_gt, parse_le, parse_lt, parse_eq, parse_neq, parse_mod, parse_not.
  rewrite (trim_visible t Hv), !Hi by (by apply no_parens_text). compute_index.
  rewrite bool_decide_true by done.
  by rewrite (slice_eq t (as_bytes "!") (wrap a) []); [|unfold t; by rewrite app_nil_r|..].
Qed.
Lemma index_of_digits pat t c0 : head pat = Some c0 -> between 48 57 c0 = false -> Forall (fun c => 48 <= c <= 57) t -> index_of t pat = None.
Proof.
  intros Hp Hc0 Ht. unfold index_of. generalize 0 at 1. destruct pat as [|c pat]; [done|]. injection Hp as ->.
  induction Ht as [|d t Hd _ IH]; intros i; [done|]. cbn [foldl].
  assert (scan_char (c0 :: pat) (None, i, O, 0) d = (None, i + 1, O, 0)) as ->; [|apply IH].
  unfold scan_char. rewrite bool_decide_false by (intros [= ->]; unfold between in Hc0; lia).
  destruct (Z.eqb_spec d open); [unfold open in *; lia|]. destruct (Z.eqb_spec d close); [unfold close in *; lia|done].
Qed.
Lemma parse_number x : 0 <= x < 2 ^ 64 -> parse_parens p (dec x) = GOk (Integer x).
Proof.
  intros Hx. pose proof (dec_digits 20 x ltac:(lia)) as Hd. fold (dec x) in Hd.
  assert (Hv : Forall visible (dec x)) by (eapply Forall_impl; [exact Hd|]; unfold visible; simpl; lia).
  assert (parse_parens p (dec x) = parse_and p (dec x)) as ->.
  { unfold parse_parens. rewrite (trim_visible _ Hv). destruct (dec x) as [|c t]; [done|]. inversion_clear Hd.
    repeat (case_match; try done); lia. }
  unfold parse_and, parse_or, parse_ternary, parse_ge, parse_gt, parse_le, parse_lt, parse_eq, parse_neq, parse_mod, parse_not.
  repeat (erewrite (index_of_digits (as_bytes _) (dec x)); [|reflexivity|reflexivity|done]).
  rewrite (trim_visible _ Hv). erewrite (index_of_digits (as_bytes _) (dec x)); [|reflexivity|reflexivity|done].
  rewrite bool_decide_false by done. rewrite (trim_visible _ Hv). unfold parse_int. by rewrite parse_dec_u64.
Qed.
End read_back.
Lemma parse_wrap t : Forall visible t -> balanced t -> parse (wrap t) = parse t.
Proof.
  intros Hv Hb. rewrite parse_unfold, (trim_visible _ (visible_wrap t Hv)).
  change (parse_parens parse (wrap t)) with (inner ← slice (wrap t) 1 (byte_len (wrap t) - 1);
    if (foldl paren_char (1, 2) inner).2 =? byte_len (wrap t) then parse (trim inner) else parse_and parse (trim (wrap t))).
  rewrite (slice_eq (wrap t) [open] t [close]); [|done|done|].
  - cbn [mbind gresult_bind]. rewrite paren_inside, (trim_visible t Hv) by (done || lia). cbn [snd].
    rewrite (visible_ascii _ (visible_wrap t Hv)), length_wrap. rewrite (proj2 (Z.eqb_eq _ _)) by lia. done.
  - unfold wrap. cbn [byte_len app]. rewrite byte_len_app. cbn [byte_len]. change (width open) with 1. change (width close) with 1. lia.
Qed.
(** What is printed is read back. *)
Lemma parse_print a : ast_ok a -> parse (print a) = GOk a.
Proof.
  intros Ha. induction a as [c IHc x IHx y IHy| |x|op x IHx y IHy|x IHx]; cbn [ast_ok] in Ha;
    rewrite parse_unfold; [|done|..]; rewrite trim_visible by (by apply print_visible); cbn [print].
  - destruct Ha as (Hc & Hx & Hy). rewrite parse_if by auto using print_visible, print_balanced.
    rewrite !parse_wrap by auto using print_visible, print_balanced. by rewrite IHc, IHx, IHy.
  - by apply parse_number.
  - destruct Ha as (Hx & Hy). rewrite parse_op by auto using print_visible, print_balanced.
    rewrite !parse_wrap by auto using print_visible, print_balanced. by rewrite IHx, IHy.
  - rewrite parse_negation by auto using print_visible, print_balanced.
    rewrite !parse_wrap by auto using print_visible, print_balanced. by rewrite IHx.
Qed.

(** ** The header *)

Lemma split_by_app sep x y : sep ∉ x -> split_by sep (x ++ sep :: y) = x :: split_by sep y.
Proof.
  induction x as [|c x IH]; intros Hx; simpl; [by rewrite Z.eqb_refl|]. apply not_elem_of_cons in Hx as [Hc Hx].
  rewrite (proj2 (Z.eqb_neq c sep)) by congruence. by rewrite IH.
Qed.
Lemma split_by_none sep x : sep ∉ x -> split_by sep x = [x].
Proof.
  induction x as [|c x IH]; intros Hx; simpl; [done|]. apply not_elem_of_cons in Hx as [Hc Hx].
  rewrite (proj2 (Z.eqb_neq c sep)) by congruence. by rewrite IH.
Qed.
Lemma position_app x l r : x ∉ l -> position x (l ++ x :: r) = Some (length l).
Proof.
  induction l as [|c l IH]; intros Hx; simpl; [by rewrite Z.eqb_refl|]. apply not_elem_of_cons in Hx as [Hc Hx].
  rewrite (proj2 (Z.eqb_neq c x)) by congruence. by rewrite IH.
Qed.
Lemma position_none x l : x ∉ l -> position x l = None.
Proof.
  induction l as [|c l IH]; intros Hx; simpl; [done|]. apply not_elem_of_cons in Hx as [Hc Hx].
  rewrite (proj2 (Z.eqb_neq c x)) by congruence. by rewrite IH.
Qed.
(** A header has lines of a name and a value. *)
Definition header_line (kv : Text * Text) : Text := kv.1 ++ 58 :: 32 :: kv.2.
Definition header_text (lines : list (Text * Text)) : Text := lines ≫= fun kv => header_line kv ++ [10].
Definition line_ok (kv : Text * Text) : Prop :=
  (58 ∉ kv.1) /\ (10 ∉ kv.1) /\ (10 ∉ kv.2) /\ trim kv.1 = kv.1 /\ trim kv.2 = kv.2.
Lemma header_split lines : Forall line_ok lines -> split_by 10 (header_text lines) = (header_line <$> lines) ++ [[]].
Proof.
  induction 1 as [|kv lines (H1 & H2 & H3 & _) _ IH]; [done|]. unfold header_text. rewrite bind_cons, <- app_assoc. cbn [app].
  rewrite split_by_app; [exact (f_equal (cons _) IH)|]. unfold header_line. rewrite elem_of_app, !elem_of_cons. naive_solver.
Qed.
Lemma metadata_line_ok kv rest m : line_ok kv ->
  metadata_lines (header_line kv :: rest) m = metadata_lines rest (<[kv.1 := kv.2]> m).
Proof.
  intros (H1 & _ & _ & Hk & Hv). assert (position 58 (header_line kv) = Some (length kv.1)) as Hp by (by apply position_app).
  unfold header_line in *. destruct (kv.1 ++ 58 :: 32 :: kv.2) as [|c line] eqn:El; [by destruct (kv.1)|]. cbn [metadata_lines].
  rewrite Hp, <- El, take_app_length.
  rewrite (slice_eq _ [] kv.1 (58 :: 32 :: kv.2) 0); [|done|done|done]. cbn [mbind gresult_bind].
  rewrite (slice_eq _ (kv.1 ++ [58]) (32 :: kv.2) []); [|by rewrite app_nil_r, <- app_assoc|by rewrite byte_len_app|].
  - cbn [mbind gresult_bind]. rewrite Hk. change (trim (32 :: kv.2)) with (trim kv.2). by rewrite Hv.
  - rewrite !byte_len_app. cbn [byte_len]. lia.
Qed.
Lemma parse_header lines : Forall line_ok lines ->
  parse_metadata (header_text lines) = GOk (foldl (fun m kv => <[kv.1 := kv.2]> m) ∅ lines).
Proof.
  intros Hl. unfold parse_metadata. rewrite header_split by done. generalize (∅ : MetadataMap).
  induction Hl as [|kv lines Hkv _ IH]; intros m; [done|]. rewrite fmap_cons. cbn [app]. rewrite metadata_line_ok by done. apply IH.
Qed.
Lemma header_lookup lines k v : NoDup lines.*1 -> (k, v) ∈ lines ->
  foldl (fun m kv => <[kv.1 := kv.2]> m) (∅ : MetadataMap) lines !! k = Some v.
Proof.
  assert (forall m : MetadataMap, (NoDup lines.*1 -> ((k, v) ∈ lines \/ (k ∉ lines.*1) /\ m !! k = Some v) ->
    foldl (fun m kv => <[kv.1 := kv.2]> m) m lines !! k = Some v)) as H; [|intros; apply H; auto].
  induction lines as [|[k' v'] lines IH]; intros m Hn Hin; cbn [foldl].
  { by destruct Hin as [?%not_elem_of_nil|[_ ?]]. }
  rewrite fmap_cons in Hn. apply NoDup_cons in Hn as [Hk Hn]. apply IH; [done|]. cbn [fst snd] in *.
  rewrite fmap_cons, elem_of_cons, not_elem_of_cons in Hin. destruct Hin as [[[= -> ->]|Hin]|[[Hne Hk'] Hm]]; [right|by left|right].
  - split; [done|]. apply lookup_insert_eq.
  - split; [done|]. rewrite lookup_insert_ne; [done|]. cbn in Hne. congruence.
Qed.
(** The usual values. *)
Definition content_type (cs : Text) : Text := as_bytes "text/plain; charset=" ++ cs.
Definition plural_value (k : Z) (a : Ast) : Text := as_bytes "nplurals=" ++ dec k ++ as_bytes "; plural=" ++ print a ++ as_bytes ";".
Lemma charset_lookup (m : MetadataMap) cs :
  m !! as_bytes "Content-Type" = Some (content_type cs) -> find_pat (as_bytes "charset=") cs = None -> charset m = Some cs.
Proof.
  intros Hm Hcs. unfold charset. rewrite Hm. cbn [mbind option_bind].
  assert (find_pat (as_bytes "charset=") (content_type cs) = Some (as_bytes "text/plain; ", cs)) as -> by reflexivity.
  cbn [mbind option_bind snd]. by rewrite Hcs.
Qed.
Lemma plural_prop_value name value st :
  Forall (fun c => 0 <= c < 128) name -> 61 ∉ name ->
  plural_prop st (name ++ 61 :: value) =
    GOk (if bool_decide (trim name = as_bytes "n_plurals") then (parse_u64 (trim value), st.2)
         else if bool_decide (trim name = as_bytes "plural") then (st.1, Some (trim value)) else st).
Proof.
  intros Hn He. destruct st as [n_pl pl]. unfold plural_prop. rewrite position_app by done.
  rewrite <- (byte_len_ascii name) by done.
  rewrite (slice_eq _ [] name (61 :: value) 0); [|done|done|done]. cbn [mbind gresult_bind].
  rewrite (slice_eq _ name (61 :: value) []); [|by rewrite app_nil_r|done|by rewrite byte_len_app]. cbn [mbind gresult_bind].
  rewrite (slice_eq _ [61] value []); [|by rewrite app_nil_r|done|done]. done.
Qed.
Lemma plural_value_parsed (m : MetadataMap) k a : 0 <= k -> ast_ok a ->
  m !! as_bytes "Plural-Forms" = Some (plural_value k a) -> plural_forms m = GOk (None, Some (print a)).
Proof.
  intros Hk Ha Hm. unfold plural_forms. rewrite Hm.
  assert (split_by 59 (plural_value k a) = [as_bytes "nplurals" ++ 61 :: dec k; as_bytes " plural" ++ 61 :: print a; []]) as ->.
  { unfold plural_value. change (as_bytes "; plural=" ++ ?x) with (59 :: as_bytes " plural=" ++ x).
    rewrite app_assoc, split_by_app; [f_equal; rewrite app_assoc; change (as_bytes ";") with [59]; rewrite split_by_app; [done|]|];
      rewrite elem_of_app; intros [Hc|Hc].
    - vm_compute in Hc. by repeat (apply elem_of_cons in Hc as [?|Hc]; [lia|]); apply not_elem_of_nil in Hc.
    - by pose proof (alphabet_all (fun c => negb (c =? 59)) a Ha eq_refl 59 Hc).
    - vm_compute in Hc. by repeat (apply elem_of_cons in Hc as [?|Hc]; [lia|]); apply not_elem_of_nil in Hc.
    - pose proof (proj1 (Forall_forall _ _) (dec_digits 20 k Hk) 59 Hc). simpl in *. lia. }
  assert (Hascii : forall s, forallb (fun c => (0 <=? c) && (c <? 128) && negb (c =? 61)) (as_bytes s) = true ->
    Forall (fun c => 0 <= c < 128) (as_bytes s) /\ 61 ∉ as_bytes s).
  { intros s Hs. rewrite forallb_forall in Hs. split; [apply Forall_forall; intros c|]; intros Hc%list_elem_of_In; apply Hs in Hc; lia. }
  cbn [plural_props]. rewrite plural_prop_value by (by apply Hascii). cbn [mbind gresult_bind].
  rewrite bool_decide_false by done. rewrite bool_decide_false by done.
  rewrite plural_prop_value by (by apply Hascii). cbn [mbind gresult_bind].
  rewrite bool_decide_false by done. rewrite bool_decide_true by done. rewrite trim_visible by (by apply print_visible). done.
Qed.

(** ** Files *)

(** A part of a file. *)
Definition has (c : list Z) (off : Z) (b : list Z) : Prop :=
  exists pre post, c = pre ++ b ++ post /\ off = Z.of_nat (length pre).
Lemma has_len c off b : has c off b -> 0 <= off /\ off + Z.of_nat (length b) <= Z.of_nat (length c).
Proof. intros (pre & post & -> & ->). rewrite !length_app. lia. Qed.
Lemma has_sub c off b e : has c off b -> e = off + Z.of_nat (length b) -> sub c off e = GOk b.
Proof.
  intros (pre & post & -> & ->) ->. unfold sub. rewrite !length_app, !(proj2 (Z.leb_le _ _)) by lia. simpl.
  replace (Z.to_nat (Z.of_nat (length pre) + Z.of_nat (length b) - Z.of_nat (length pre))) with (length b) by lia.
  by rewrite Nat2Z.id, drop_app_length, take_app_length.
Qed.
Lemma has_app c off a b : has c off (a ++ b) -> has c off a /\ has c (off + Z.of_nat (length a)) b.
Proof.
  intros (pre & post & -> & ->). split; [exists pre, (b ++ post)|exists (pre ++ a), post]; rewrite <- ?app_assoc, ?length_app; split; [done|done|done|lia].
Qed.
(** Integers, in both byte orders. *)
Definition u32 (be : bool) (x : Z) : list Z := if be then reverse (to_le_bytes 4 x) else to_le_bytes 4 x.
Definition read_u32 (be : bool) : list Z -> Z := if be then fun b => from_le_bytes (reverse b) else from_le_bytes.
Definition magic (be : bool) : list Z := u32 be 2500072158.
Lemma read_u32_ok be x : 0 <= x < 2 ^ 32 -> read_u32 be (u32 be x) = x.
Proof.
  intros Hx. assert (from_le_bytes (to_le_bytes 4 x) = x) as H.
  { rewrite from_to_le_bytes. change (256 ^ Z.of_nat 4) with (2 ^ 32). by apply Z.mod_small. }
  destruct be; unfold read_u32, u32; [by rewrite reverse_involutive|done].
Qed.
Lemma length_u32 be x : length (u32 be x) = 4%nat.
Proof. destruct be; unfold u32; rewrite ?length_reverse; apply to_le_bytes_length. Qed.
Lemma magic_read be : exists f, get_read_u32_fn (magic be) = Some f /\ f = read_u32 be.
Proof. by destruct be; eexists; split. Qed.

(** A message in the file: the context, the identifier with its plural, and the forms. *)
Record Raw := mkRaw { raw_context : option (list Z); raw_id : list Z; raw_plural : option (list Z); raw_forms : list (list Z) }.
Definition original (raw : Raw) : list Z :=
  match raw_context raw with Some ctx => ctx ++ [4] | None => [] end ++ raw_id raw ++
  match raw_plural raw with Some p => 0 :: p | None => [] end.
Fixpoint join0 (l : list (list Z)) : list Z :=
  match l with [] => [] | [x] => x | x :: l => x ++ 0 :: join0 l end.
Definition raw_ok (raw : Raw) : Prop :=
  match raw_context raw with Some ctx => 4 ∉ ctx | None => 4 ∉ original raw end /\ (0 ∉ raw_id raw) /\
  raw_forms raw ≠ [] /\ Forall (fun f => 0 ∉ f) (raw_forms raw).
(** A string that a table points to, with the zero byte after it. *)
Definition string_at (be : bool) (c : list Z) (table : Z) (b : list Z) : Prop :=
  exists off, 0 <= off < 2 ^ 32 /\ Z.of_nat (length b) < 2 ^ 32 /\
    has c table (u32 be (Z.of_nat (length b)) ++ u32 be off) /\ has c off (b ++ [0]).
(** The format of a file: what is where the header and the tables say, whatever the
    order of the parts and whatever else is in the file. *)
Definition mo_file (be : bool) (c : list Z) (raws : list Raw) : Prop :=
  exists o t : Z, 0 <= o < 2 ^ 32 /\ 0 <= t < 2 ^ 32 /\ Z.of_nat (length raws) < 2 ^ 32 /\ 28 <= Z.of_nat (length c) /\
    o <= Z.of_nat (length c) /\ t <= Z.of_nat (length c) /\
    has c 0 (magic be) /\ has c 8 (u32 be (Z.of_nat (length raws)) ++ u32 be o ++ u32 be t) /\
    Forall raw_ok raws /\
    forall i raw, raws !! i = Some raw ->
      string_at be c (o + 8 * Z.of_nat i) (original raw) /\ string_at be c (t + 8 * Z.of_nat i) (join0 (raw_forms raw)).

Section file.
Context `{GExt : GtExternals}.
Variable (be : bool) (c : list Z) (opts : ParseOptions).

Lemma table_entry_ok table b : string_at be c table b -> exists off, has c off (b ++ [0]) /\
  table_entry c (read_u32 be) table = GOk (Z.of_nat (length b), off).
Proof.
  intros (off & Hoff & Hlen & Ht & Hb). exists off. split; [done|]. unfold table_entry, guard_eof.
  pose proof (has_len _ _ _ Ht) as Hl. rewrite length_app, !length_u32 in Hl. rewrite (proj2 (Z.ltb_ge _ _)) by lia.
  apply has_app in Ht as [H1 H2]. rewrite length_u32 in H2. change (Z.of_nat 4) with 4 in H2. cbn [mbind gresult_bind].
  rewrite (has_sub _ _ _ _ H1) by (by rewrite length_u32). cbn [mbind gresult_bind].
  rewrite (has_sub _ _ _ (table + 8) H2) by (rewrite length_u32; lia). cbn [mbind gresult_bind].
  rewrite !read_u32_ok by lia. pose proof (has_len _ _ _ Hb) as Hl'. rewrite length_app in Hl'. cbn [length] in Hl'.
  by rewrite (proj2 (Z.ltb_ge _ _)) by lia.
Qed.
(** The messages without the file: a reference for the loop. *)
Definition decode_original (encoding : Encoding) (raw : Raw) : GResult (option Text * Text) :=
  context ← match raw_context raw with Some ctx => x ← decode encoding ctx; GOk (Some x) | None => GOk None end;
  id ← decode encoding (raw_id raw);
  GOk (context, id).
Fixpoint build (first : bool) (encoding : Encoding) (cat : Catalog) (raws : list Raw) : GResult Catalog :=
  match raws with
  | [] => GOk cat
  | raw :: raws =>
      '(context, id) ← decode_original encoding raw;
      _ ← match id with [] => if first then GOk tt else GErr MisplacedMetadata | _ => GOk tt end;
      translated ← decode_all encoding (raw_forms raw);
      '(encoding, cat) ← match id with [] => header_of opts translated encoding cat | _ => GOk (encoding, cat) end;
      build false encoding (insert_msg (mkMessage id context translated) cat) raws
  end.
Lemma original_ok encoding raw : raw_ok raw -> original_of encoding (original raw ++ [0]) = decode_original encoding raw.
Proof.
  intros (Hctx & Hid & _). unfold original_of, decode_original, original in *.
  assert (Hpos : forall rest, position 0 (raw_id raw ++ match raw_plural raw with Some p => 0 :: p | None => [] end ++ 0 :: rest) =
    Some (length (raw_id raw))) by (intros rest; destruct (raw_plural raw); by apply position_app).
  destruct (raw_context raw) as [ctx|].
  - rewrite <- !app_assoc. cbn [app]. rewrite position_app by done. rewrite take_app_length.
    destruct (decode encoding ctx) as [x|e]; [|done]. cbn [mbind gresult_bind].
    assert (Hdrop : forall y (l rest : list Z), drop (S (length l)) (l ++ y :: rest) = rest) by (intros y l; by induction l).
    by rewrite Hdrop, Hpos, take_app_length.
  - cbn [app] in *. rewrite position_none; [|rewrite elem_of_app; intros [?|[?|?%not_elem_of_nil]%elem_of_cons]; done].
    cbn [mbind gresult_bind]. rewrite <- app_assoc, Hpos, take_app_length. done.
Qed.
Lemma split_join (l : list Text) : l ≠ [] -> Forall (fun f => 0 ∉ f) l -> split_by 0 (join0 l) = l.
Proof.
  intros Hne Hl. induction Hl as [|x l Hx Hl IH]; [done|]. destruct l as [|y l]; [by apply split_by_none|].
  change (join0 (x :: y :: l)) with (x ++ 0 :: join0 (y :: l)). rewrite split_by_app by done. by rewrite IH.
Qed.
Lemma loop_build raws : forall i o (t : Z) encoding cat,
  Forall raw_ok raws -> 0 <= i ->
  (forall k raw, raws !! k = Some raw ->
     string_at be c (o + 8 * Z.of_nat k) (original raw) /\ string_at be c (t + 8 * Z.of_nat k) (join0 (raw_forms raw))) ->
  strings_loop c (read_u32 be) opts (length raws) i o t encoding cat = build (i =? 0) encoding cat raws.
Proof.
  induction raws as [|raw raws IH]; intros i o t encoding cat Hok Hi Hs; [done|]. inversion_clear Hok as [|? ? Hr Hrs].
  destruct (Hs O raw eq_refl) as [Ho Ht]. rewrite !Z.add_0_r in Ho, Ht. cbn [length strings_loop build].
  destruct (table_entry_ok _ _ Ho) as (off & Hhas & ->). cbn [mbind gresult_bind].
  rewrite (has_sub _ _ _ _ Hhas) by (rewrite length_app; simpl; lia). cbn [mbind gresult_bind]. rewrite original_ok by done.
  destruct (decode_original encoding raw) as [[context id]|e]; [|done]. cbn [mbind gresult_bind].
  destruct (match id with [] => if i =? 0 then GOk tt else GErr MisplacedMetadata | _ => GOk tt end) as [[]|e]; [|done].
  cbn [mbind gresult_bind]. destruct (table_entry_ok _ _ Ht) as (off' & Hhas' & ->). cbn [mbind gresult_bind].
  apply has_app in Hhas' as [Hhas' _]. rewrite (has_sub _ _ _ _ Hhas') by done. cbn [mbind gresult_bind].
  destruct Hr as (_ & _ & Hne & Hz). rewrite split_join by done.
  destruct (decode_all encoding (raw_forms raw)) as [ts|e]; [|done]. cbn [mbind gresult_bind].
  destruct (match id with [] => header_of opts ts encoding cat | _ => GOk (encoding, cat) end) as [[enc' cat']|e]; [|done].
  cbn [mbind gresult_bind]. rewrite IH; [|done|lia|].
  - by rewrite (proj2 (Z.eqb_neq (i + 1) 0)) by lia.
  - intros k raw' Hk. destruct (Hs (S k) raw' Hk) as [H1 H2]. rewrite Nat2Z.inj_succ in H1, H2.
    replace (o + 8 * Z.succ (Z.of_nat k)) with (o + 8 + 8 * Z.of_nat k) in H1 by lia.
    replace (t + 8 * Z.succ (Z.of_nat k)) with (t + 8 + 8 * Z.of_nat k) in H2 by lia. done.
Qed.
Lemma parse_catalog_build raws : mo_file be c raws ->
  parse_catalog (GOk c) opts = build true (default UTF_8 (force_encoding opts))
    (match force_plural opts with Some f => set_resolver (Function f) catalog_new | None => catalog_new end) raws.
Proof.
  intros (o & t & Ho & Ht & Hn & H28 & Hoc & Htc & Hm & Hh & Hok & Hs). unfold parse_catalog, guard_eof. cbn [mbind gresult_bind].
  rewrite (proj2 (Z.ltb_ge _ _)) by lia. cbn [mbind gresult_bind]. unfold magic in Hm.
  rewrite (has_sub _ _ _ 4 Hm) by (by rewrite length_u32). cbn [mbind gresult_bind].
  destruct (magic_read be) as (f & Hf & ->). unfold magic in Hf. rewrite Hf. cbn [gt_or mbind gresult_bind].
  apply has_app in Hh as [Hnum Hh]. apply has_app in Hh as [Hho Hht]. rewrite length_u32 in Hho. rewrite !length_u32 in Hht.
  rewrite (has_sub _ _ _ 12 Hnum) by (by rewrite length_u32). cbn [mbind gresult_bind].
  rewrite (has_sub _ 12 _ 16 Hho) by (by rewrite length_u32). cbn [mbind gresult_bind].
  rewrite (has_sub _ 16 _ 20 Hht) by (by rewrite length_u32). cbn [mbind gresult_bind].
  rewrite !read_u32_ok by lia. rewrite !(proj2 (Z.ltb_ge _ _)) by lia. cbn [orb mbind gresult_bind].
  rewrite Nat2Z.id. by rewrite loop_build.
Qed.

(** *** Messages that can be decoded *)

Definition decodes (encoding : Encoding) (raw : Raw) (m : Message) : Prop :=
  match raw_context raw with
  | Some ctx => exists x, enc_decode encoding ctx = Some x /\ msg_context m = Some x
  | None => msg_context m = None
  end /\ enc_decode encoding (raw_id raw) = Some (msg_id m) /\
  Forall2 (fun f x => enc_decode encoding f = Some x) (raw_forms raw) (msg_translated m).
Lemma decode_all_ok encoding (l ts : list Text) : Forall2 (fun f x => enc_decode encoding f = Some x) l ts -> decode_all encoding l = GOk ts.
Proof. induction 1 as [|f x l ts Hf _ IH]; [done|]. cbn [decode_all]. unfold decode. by rewrite Hf, IH. Qed.
Lemma build_messages encoding raws msgs : forall cat,
  Forall2 (decodes encoding) raws msgs -> Forall (fun m => msg_id m ≠ []) msgs ->
  build false encoding cat raws = GOk (foldl (fun cat m => insert_msg m cat) cat msgs).
Proof.
  intros cat Hd. revert cat. induction Hd as [|raw m raws msgs (Hctx & Hid & Hf) _ IH]; intros cat Hne; [done|].
  inversion_clear Hne as [|? ? Hm Hms]. cbn [build foldl].
  assert (decode_original encoding raw = GOk (msg_context m, msg_id m)) as ->.
  { unfold decode_original, decode. rewrite Hid. destruct (raw_context raw) as [ctx|]; [|by rewrite Hctx].
    destruct Hctx as (x & Hx & ->). by rewrite Hx. }
  cbn [mbind gresult_bind]. destruct (msg_id m) as [|ch id] eqn:Hi; [done|]. cbn [mbind gresult_bind].
  rewrite (decode_all_ok _ _ _ Hf). cbn [mbind gresult_bind]. rewrite <- Hi. destruct m. by apply IH.
Qed.
Lemma catalog_lookup msgs : forall cat, NoDup (msg_key <$> msgs) ->
  let cat' := foldl (fun cat m => insert_msg m cat) cat msgs in
  cat_resolver cat' = cat_resolver cat /\
  (forall m, m ∈ msgs -> cat_strings cat' !! msg_key m = Some m) /\
  (forall k, k ∉ msg_key <$> msgs -> cat_strings cat' !! k = cat_strings cat !! k).
Proof.
  induction msgs as [|m msgs IH]; intros cat Hnd; cbn [foldl].
  { split_and!; [done| |done]. intros m Hm. by apply not_elem_of_nil in Hm. }
  rewrite fmap_cons in Hnd. apply NoDup_cons in Hnd as [Hk Hnd]. destruct (IH (insert_msg m cat) Hnd) as (Hr & Hin & Hout).
  split_and!; [done| |].
  - intros m' [->|Hm']%elem_of_cons; [|by apply Hin]. rewrite Hout by done. apply lookup_insert_eq.
  - intros k. rewrite fmap_cons, not_elem_of_cons. intros [Hne Hk']. rewrite Hout by done. by apply lookup_insert_ne.
Qed.
End file.


(** ** An example *)

Module GettextExamples.

#[export] Instance gt_externals : GtExternals := {|
  Encoding := bool;
  UTF_8 := true;
  enc_decode (utf8 : bool) b := if utf8 && negb (forallb (fun x => x <? 128) b) then None else Some b;
  for_label b := if bool_decide (b = as_bytes "utf-8") then Some true else if bool_decide (b = as_bytes "latin1") then Some false else None |}.

Definition ast : Ast := Ternary (Op Greater N (Integer 1)) (Integer 1) (Integer 0).
Definition lines : list (Text * Text) :=
  [(as_bytes "Content-Type", content_type (as_bytes "latin1")); (as_bytes "Plural-Forms", plural_value 2 ast)].
Definition raws : list Raw :=
  [mkRaw None (as_bytes "lamp") (Some (as_bytes "lamps")) [as_bytes "ampoule" ++ [233]; as_bytes "ampoules"];
   mkRaw (Some (as_bytes "menu")) (as_bytes "open") None [as_bytes "ouvrir"]].
Definition header : list Z := header_text lines.
(** Big-endian, the strings after the tables. *)
Definition string_data (l : list (list Z)) : list Z := l ≫= fun b => b ++ [0].
Fixpoint table (off : Z) (l : list (list Z)) : list Z :=
  match l with
  | [] => []
  | b :: l => u32 true (Z.of_nat (length b)) ++ u32 true off ++ table (off + Z.of_nat (length b) + 1) l
  end.
Definition all : list Raw := mkRaw None [] None [header] :: raws.
Definition originals : list (list Z) := original <$> all.
Definition translations : list (list Z) := (fun raw => join0 (raw_forms raw)) <$> all.
Definition contents : list Z :=
  magic true ++ u32 true 0 ++ u32 true 3 ++ u32 true 28 ++ u32 true 52 ++ u32 true 0 ++ u32 true 0 ++
  table 76 originals ++ table (76 + Z.of_nat (length (string_data originals))) translations ++
  string_data originals ++ string_data translations.

Definition has_b (c : list Z) (off : Z) (b : list Z) : bool :=
  (0 <=? off) && (off <=? Z.of_nat (length c)) && bool_decide (take (length b) (drop (Z.to_nat off) c) = b).
Lemma has_b_ok c off b : has_b c off b = true -> has c off b.
Proof.
  unfold has_b. intros [[H0%Z.leb_le H1%Z.leb_le]%andb_true_iff Hb%bool_decide_eq_true]%andb_true_iff.
  exists (take (Z.to_nat off) c), (drop (length b) (drop (Z.to_nat off) c)). split.
  - rewrite <- Hb at 1. by rewrite take_drop, take_drop.
  - rewrite length_take. lia.
Qed.
Definition off_of (table : Z) : Z := from_le_bytes (reverse (take 4 (drop (Z.to_nat table + 4) contents))).
Definition string_b (table : Z) (b : list Z) : bool :=
  let off := off_of table in
  (0 <=? off) && (off <? 2 ^ 32) && (Z.of_nat (length b) <? 2 ^ 32) && has_b contents table (u32 true (Z.of_nat (length b)) ++ u32 true off)
  && has_b contents off (b ++ [0]).
Lemma string_b_ok table b : string_b table b = true -> string_at true contents table b.
Proof.
  unfold string_b. rewrite !andb_true_iff. intros ((((H0 & H1) & H2) & H3) & H4). exists (off_of table).
  split_and!; [lia|lia|lia|by apply has_b_ok|by apply has_b_ok].
Qed.
Lemma contents_file : mo_file true contents all.
Proof.
  exists 28, 52. assert (Hl : (length contents =? 0)%nat = false /\ (28 <=? Z.of_nat (length contents)) && (52 <=? Z.of_nat (length contents)) = true)
    by (split; vm_refl). destruct Hl as [_ [H28%Z.leb_le H52%Z.leb_le]%andb_true_iff].
  split_and!; try done; try (apply has_b_ok; vm_refl).
  - repeat constructor; try (apply (bool_decide_eq_true_1 _); vm_refl); done.
  - intros [|[|[|i]]] raw Hr; [..|done]; injection Hr as <-; split; apply string_b_ok; vm_refl.
Qed.
End GettextExamples.
