(* ===== verification/Otp.v ===== *)
(** * One-time passwords (svc/aaa-otp/src/main.rs)

    The service that authentication services ask for a second factor.  The first check
    of a login creates a secret, which is shown until a code made of it is given; from
    then on the secret is active and is kept in the registry.

    The registry may fail at any operation ([OtpEnv]); values are written and read back
    by [serde] ([OtpLaws]). *)
From stdpp Require Import sorting.
From S2P Require Import Prelude EvaCommon.
Open Scope Z_scope.

(** svc/aaa-otp/src/main.rs:23-30 [Otp] *)
Record Otp := mkOtp { otp_login : string; otp_secret : string; otp_active : bool }.

(** ** The crates *)

Class OtpExternals := {
  RegValue : Type;
  base32_encode : list Z -> string;
  (* libreauth: whether a code is one of a secret at a time *)
  totp_valid : string -> string -> Z -> EResult bool;
  u32_string : Z -> string;
  to_value : Otp -> EResult RegValue;
  otp_of_value : RegValue -> EResult Otp;
  otp_un_id : list Z -> EResult string;
  (* the login and the code, a text or a number *)
  un_check : list Z -> EResult (string * option (string + Z))
}.
(** A value is read back as it was written. *)
Class OtpLaws `{OtpExternals} : Prop := value_roundtrip o v : to_value o = Ok v -> otp_of_value v = Ok o.

Section otp.
Context `{OExt : OtpExternals}.

(** ** State *)

Record OtpSt := mkOtpSt {
  os_up : bool;                       (* the service runs *)
  os_otps : gmap string Otp;          (* OTPS *)
  os_reg : gmap string RegValue;      (* the keys of the registry below otp *)
  os_n : nat                          (* operations so far *)
}.
Record OtpEnv := mkOtpEnv {
  oe_exclude : gset string;
  oe_svc_id : string;
  oe_reg : nat -> EResult unit;
  oe_rand : nat -> EResult (list Z);
  oe_now : nat -> Z
}.
Variable (e : OtpEnv).
Abbreviation OM := (M OtpSt).
Definition set_otps (x : gmap string Otp) (s : OtpSt) : OtpSt := mkOtpSt (os_up s) x (os_reg s) (os_n s).
Definition set_reg (x : gmap string RegValue) (s : OtpSt) : OtpSt := mkOtpSt (os_up s) (os_otps s) x (os_n s).
Definition otp_tick : OM nat := fun s => (Ok (os_n s), mkOtpSt (os_up s) (os_otps s) (os_reg s) (S (os_n s))).
Definition reg_io : OM unit := n ← otp_tick; lift (oe_reg e n).

(** What is asked for (the texts of [access_more_data_required]). *)
Inductive More := MSetup (secret : string) | MReq | MInvalid.
Definition more_text (m : More) : string :=
  ("|OTP|" +:+ oe_svc_id e +:+ "|" +:+ match m with MSetup secret => "SETUP=" +:+ secret | MReq => "REQ" | MInvalid => "INVALID" end)%string.
Inductive OtpReply := ONone | OLogins (l : list string) | OMore (m : More).

(** ** Operations *)

(** svc/aaa-otp/src/main.rs:40-45 [StringOrInt::into_string] *)
Definition into_string (c : string + Z) : string := match c with inl v => v | inr v => u32_string v end.
(** svc/aaa-otp/src/main.rs:49-57 [Otp::create] *)
Definition otp_create (login : string) : OM Otp :=
  n ← otp_tick;
  rand_otp ← lift (oe_rand e n);
  mret (mkOtp login (base32_encode rand_otp) false).
(** svc/aaa-otp/src/main.rs:58-75 [Otp::verify] *)
Definition verify (otp : Otp) (code : string) : OM bool :=
  n ← otp_tick;
  lift (totp_valid (otp_secret otp) code (oe_now e n)).
(** [otp.check] (svc/aaa-otp/src/main.rs:131-183) *)
Definition otp_check (login : string) (code : option (string + Z)) : OM OtpReply :=
  if bool_decide (login ∈ oe_exclude e) then mret ONone
  else
    s ← get;
    match os_otps s !! login with
    | Some otp =>
        match code with
        | Some c =>
            ok ← verify otp (into_string c);
            if (ok : bool) then
              if otp_active otp then mret ONone
              else
                let otp := mkOtp (otp_login otp) (otp_secret otp) true in
                _ ← modify (fun s => set_otps (<[login := otp]> (os_otps s)) s);
                value ← lift (to_value otp);
                _ ← reg_io;
                _ ← modify (fun s => set_reg (<[login := value]> (os_reg s)) s);
                mret ONone
            else mret (OMore MInvalid)
        | None => if negb (otp_active otp) then mret (OMore (MSetup (otp_secret otp))) else mret (OMore MReq)
        end
    | None =>
        otp ← otp_create login;
        _ ← modify (fun s => set_otps (<[login := otp]> (os_otps s)) s);
        mret (OMore (MSetup (otp_secret otp)))
    end.
(** [otp.destroy] (svc/aaa-otp/src/main.rs:116-130) *)
Definition otp_destroy (login : string) : OM OtpReply :=
  s ← get;
  match os_otps s !! login with
  | Some _ =>
      _ ← modify (fun s => set_otps (delete login (os_otps s)) s);
      _ ← reg_io;
      _ ← modify (fun s => set_reg (delete login (os_reg s)) s);
      mret ONone
  | None => raise ENotFound
  end.
(** [otp.list] (svc/aaa-otp/src/main.rs:105-115) *)
Definition otp_list : OM OtpReply :=
  s ← get;
  mret (OLogins (merge_sort String.le (otp_login <$> filter (fun o => otp_active o = true) (map_to_list (os_otps s)).*2))).
(** svc/aaa-otp/src/main.rs:99-186 [handle_call], of a service that is ready; the
    methods all services have are those of the SDK *)
Definition otp_handle_call (method : string) (payload : list Z) : OM OtpReply :=
  s ← get;
  if negb (os_up s) then raise ENotReady
  else if String.eqb method "otp.list" then match payload with [] => otp_list | _ :: _ => raise EInvalidParams end
  else if String.eqb method "otp.destroy" then
    match payload with [] => raise EInvalidParams | _ :: _ => id ← lift (otp_un_id payload); otp_destroy id end
  else if String.eqb method "otp.check" then
    match payload with [] => raise EInvalidParams | _ :: _ => '(login, code) ← lift (un_check payload); otp_check login code end
  else raise EMethodNotFound.
Fixpoint load_all (l : list RegValue) (otps : gmap string Otp) : EResult (gmap string Otp) :=
  match l with
  | [] => Ok otps
  | v :: l => otp ← otp_of_value v; load_all l (<[otp_login otp := otp]> otps)
  end.
(** The start (svc/aaa-otp/src/main.rs:217-226) *)
Definition otp_start : OM unit :=
  _ ← reg_io;
  s ← get;
  otps ← lift (load_all (map_to_list (os_reg s)).*2 ∅);
  modify (fun s => mkOtpSt true otps (os_reg s) (os_n s)).

(** ** Runs *)

Inductive OtpOp := OpCall (method : string) (payload : list Z) | OpRestart.
Definition otp_step (s : OtpSt) (op : OtpOp) : OtpSt :=
  match op with
  | OpCall method payload => (otp_handle_call method payload s).2
  | OpRestart => (otp_start (mkOtpSt false ∅ (os_reg s) (os_n s))).2
  end.
Definition otp_run (ops : list OtpOp) (s : OtpSt) : OtpSt := foldl otp_step s ops.
Definition otp_init : OtpSt := mkOtpSt false ∅ ∅ 0.
(** Operations that do not remove the second factor of a login. *)
Definition not_destroyed (login : string) (op : OtpOp) : Prop :=
  match op with OpCall method payload => ~ (method = "otp.destroy" /\ otp_un_id payload = Ok login) | OpRestart => True end.

(** ** Properties *)

Context `{OLaws : !OtpLaws}.

(** The registry has active secrets only, under their logins. *)
Definition stored (login : string) (o : Otp) (s : OtpSt) : Prop :=
  exists v, os_reg s !! login = Some v /\ otp_of_value v = Ok o.
Record otp_ok (s : OtpSt) : Prop := {
  oo_reg login v : os_reg s !! login = Some v -> exists o, otp_of_value v = Ok o /\ otp_login o = login;
  oo_mem login o : os_otps s !! login = Some o -> otp_login o = login
}.
(** The second factor of a login is set up. *)
Definition established (login secret : string) (s : OtpSt) : Prop :=
  stored login (mkOtp login secret true) s /\ (os_up s = true -> os_otps s !! login = Some (mkOtp login secret true)).

Lemma load_all_ok (l : list (string * RegValue)) : forall otps,
  NoDup l.*1 -> (forall k v, (k, v) ∈ l -> exists o, otp_of_value v = Ok o /\ otp_login o = k) ->
  exists otps', load_all l.*2 otps = Ok otps' /\
    forall k, match list_to_map (M := gmap string RegValue) l !! k with
              | Some v => exists o, otp_of_value v = Ok o /\ otps' !! k = Some o
              | None => otps' !! k = otps !! k
              end.
Proof.
  induction l as [|[k v] l IH]; intros otps Hnd Hl; [by exists otps|]. rewrite fmap_cons in Hnd. apply NoDup_cons in Hnd as [Hk Hnd].
  destruct (Hl k v (list_elem_of_here _ _)) as (o & Ho & Hlogin).
  destruct (IH (<[k := o]> otps) Hnd) as (otps' & Hload & Hget); [intros; apply Hl; by apply list_elem_of_further|].
  exists otps'. rewrite fmap_cons. cbn [load_all snd]. rewrite Ho. cbn [mbind EResult_bind]. rewrite Hlogin. split; [done|].
  intros k'. cbn [list_to_map foldr]. specialize (Hget k'). destruct (decide (k' = k)) as [->|Hne].
  - rewrite lookup_insert_eq. exists o. split; [done|]. rewrite not_elem_of_list_to_map_1 in Hget by done.
    by rewrite Hget, lookup_insert_eq.
  - rewrite lookup_insert_ne by done. destruct (list_to_map l !! k'); [done|]. rewrite Hget. by apply lookup_insert_ne.
Qed.
Lemma start_cases s : otp_ok s ->
  let s' := otp_step s OpRestart in
  os_reg s' = os_reg s /\ otp_ok s' /\
  forall login o, stored login o s -> os_up s' = true -> os_otps s' !! login = Some o.
Proof.
  intros Hs. cbn [otp_step]. unfold otp_start, reg_io, otp_tick. unfold_m. cbn [os_n os_reg os_up os_otps].
  destruct (oe_reg e (os_n s)) as [[]|err]; cbn [os_n os_reg os_up os_otps snd].
  2: { split_and!; [done| |done]. split; [apply Hs|by intros]. }
  destruct (load_all_ok (map_to_list (os_reg s)) ∅) as (otps & Hl & Hget).
  - apply NoDup_fst_map_to_list.
  - intros k v Hkv%elem_of_map_to_list. by apply Hs.
  - rewrite Hl. cbn [snd os_reg os_up os_otps]. rewrite list_to_map_to_list in Hget. split_and!; [done| |].
    + split; [apply Hs|]. intros login o Ho. cbn [os_otps] in Ho. specialize (Hget login).
      destruct (os_reg s !! login) as [v|] eqn:Hv; [|by rewrite Hget in Ho].
      destruct Hget as (o' & Hv' & Ho'). destruct (oo_reg _ Hs login v Hv) as (o2 & H2 & Hlogin). congruence.
    + intros login o (v & Hv & Ho) _. specialize (Hget login). rewrite Hv in Hget. destruct Hget as (o' & H1 & H2). congruence.
Qed.
(** What a check does: nothing to what is kept; a login gets a secret; or its secret
    becomes active, which may fail before it is kept. *)
Inductive check_effect (login : string) (s s' : OtpSt) : EResult OtpReply -> Prop :=
  | check_same r : os_reg s' = os_reg s -> os_otps s' = os_otps s ->
      (forall o, os_otps s !! login = Some o -> otp_active o = false -> login ∉ oe_exclude e -> r ≠ Ok ONone) ->
      check_effect login s s' r
  | check_new secret r : os_otps s !! login = None -> os_reg s' = os_reg s ->
      os_otps s' = <[login := mkOtp login secret false]> (os_otps s) -> check_effect login s s' r
  | check_activated o reg r : os_otps s !! login = Some o -> otp_active o = false ->
      os_otps s' = <[login := mkOtp (otp_login o) (otp_secret o) true]> (os_otps s) ->
      os_reg s' = (match reg with Some v => <[login := v]> (os_reg s) | None => os_reg s end) ->
      match reg with
      | Some v => otp_of_value v = Ok (mkOtp (otp_login o) (otp_secret o) true)
      | None => r ≠ Ok ONone
      end -> check_effect login s s' r.
Lemma check_cases login code s r s' : otp_check login code s = (r, s') -> check_effect login s s' r /\ os_up s' = os_up s.
Proof.
  unfold otp_check. case_bool_decide as Hex; [intros [= <- <-]; split; [by constructor|done]|].
  unfold verify, otp_create, reg_io, otp_tick. unfold_m. cbn [os_n os_reg os_up os_otps].
  destruct (os_otps s !! login) as [o|] eqn:Hl.
  - destruct code as [c|].
    + destruct (totp_valid _ _ _) as [[]|err].
      2,3: intros [= <- <-]; split; [apply check_same|done]; naive_solver.
      destruct (otp_active o) eqn:Ha.
      { intros [= <- <-]. split; [apply check_same|done]; try done. intros o' Ho'. congruence. }
      cbn [os_n os_reg os_up os_otps set_otps].
      destruct (to_value _) as [v|err] eqn:Hv; cbn [os_n os_reg os_up os_otps set_otps]; [destruct (oe_reg e _) as [[]|err]|];
        intros [= <- <-]; split; try done.
      * by apply (check_activated login s _ o (Some v)); try done; apply value_roundtrip.
      * by apply (check_activated login s _ o None).
      * by apply (check_activated login s _ o None).
    + destruct (otp_active o) eqn:Ha; intros [= <- <-]; (split; [by apply check_same|done]).
  - cbn [os_n os_reg os_up os_otps]. destruct (oe_rand e _) as [b|err]; intros [= <- <-]; split; try done.
    + by apply (check_new login s _ (base32_encode b)).
    + by apply check_same.
Qed.
Lemma destroy_cases login s : let s' := (otp_destroy login s).2 in
  os_up s' = os_up s /\ (forall l, l ≠ login -> os_reg s' !! l = os_reg s !! l /\ os_otps s' !! l = os_otps s !! l) /\
  (forall l v, os_reg s' !! l = Some v -> os_reg s !! l = Some v) /\
  (forall l v, os_otps s' !! l = Some v -> os_otps s !! l = Some v).
Proof.
  unfold otp_destroy, reg_io, otp_tick. unfold_m. destruct (os_otps s !! login); [|done]. cbn [os_n os_reg os_up os_otps set_otps].
  destruct (oe_reg e (os_n s)) as [[]|]; cbn [snd os_n os_reg os_up os_otps set_otps set_reg]; split_and!; try done.
  - intros l Hl. by rewrite !lookup_delete_ne.
  - intros l v Hv. by apply lookup_delete_Some in Hv as [].
  - intros l v Hv. by apply lookup_delete_Some in Hv as [].
  - intros l Hl. by rewrite lookup_delete_ne.
  - intros l v Hv. by apply lookup_delete_Some in Hv as [].
Qed.
Lemma call_cases method payload s : let s' := (otp_handle_call method payload s).2 in
  s' = s \/ (exists login code, os_up s = true /\ s' = (otp_check login code s).2) \/
  (exists login, method = "otp.destroy"%string /\ otp_un_id payload = Ok login /\ s' = (otp_destroy login s).2).
Proof.
  unfold otp_handle_call. unfold_m. destruct (os_up s) eqn:Hup; [|by left]. cbn [negb].
  destruct (String.eqb method "otp.list"); [destruct payload; by left|].
  destruct (String.eqb_spec method "otp.destroy") as [->|].
  { destruct payload; [by left|]. destruct (otp_un_id _) as [id|] eqn:Hid; [|by left]. right; right. by exists id. }
  destruct (String.eqb method "otp.check"); [|by left]. destruct payload; [by left|].
  destruct (un_check _) as [[login code]|]; [|by left]. right; left. by exists login, code.
Qed.
Lemma otp_step_ok s op : otp_ok s -> otp_ok (otp_step s op).
Proof.
  intros Hs. destruct op as [method payload|]; [|by apply start_cases]. cbn [otp_step].
  destruct (call_cases method payload s) as [->|[(login & code & _ & ->)|(login & _ & _ & ->)]]; [done|..].
  - destruct (otp_check login code s) as [r s'] eqn:Hc. apply check_cases in Hc as [Hc _]. cbn [snd].
    destruct Hc as [r Hr Ho _|secret r Hl Hr Ho|o reg r Hl Ha Ho Hr Hreg].
    + split; rewrite ?Hr, ?Ho; apply Hs.
    + split; [rewrite Hr; apply Hs|]. rewrite Ho. intros l o [[<- <-]|[_ Hl']]%lookup_insert_Some; [done|by apply Hs].
    + pose proof (oo_mem _ Hs _ _ Hl) as Hlog. split.
      * rewrite Hr. intros l v Hv. destruct reg as [v'|]; [|by apply Hs].
        apply lookup_insert_Some in Hv as [[<- <-]|[_ Hv]]; [by eexists|by apply Hs].
      * rewrite Ho. intros l o' [[<- <-]|[_ Hl']]%lookup_insert_Some; [done|by apply Hs].
  - destruct (destroy_cases login s) as (_ & _ & Hr & Ho). split; [intros l v Hv%Hr|intros l o Hl%Ho]; by apply Hs.
Qed.
Lemma otp_run_ok ops : forall s, otp_ok s -> otp_ok (otp_run ops s).
Proof. induction ops as [|op ops IH]; intros s Hs; [done|]. by apply IH, otp_step_ok. Qed.
Lemma established_step login secret s op :
  otp_ok s -> established login secret s -> not_destroyed login op -> established login secret (otp_step s op).
Proof.
  intros Hs [Hst Hm] Hop. destruct op as [method payload|].
  - cbn [otp_step]. destruct (call_cases method payload s) as [->|[(l & code & Hup & ->)|(l & -> & Hid & ->)]]; [done|..].
    + destruct (otp_check l code s) as [r s'] eqn:Hc. apply check_cases in Hc as [Hc Hup']. cbn [snd]. specialize (Hm Hup).
      unfold established, stored. destruct Hc as [r Hr Ho _|sec r Hl Hr Ho|o reg r Hl Ha Ho Hr Hreg].
      * by rewrite Hr, Ho.
      * rewrite Hr, Ho. split; [done|]. intros _. rewrite lookup_insert_ne; [done|]. congruence.
      * assert (l ≠ login) as Hne by (intros ->; rewrite Hm in Hl; injection Hl as <-; done).
        rewrite Hr, Ho. split; [destruct reg; by rewrite ?lookup_insert_ne|]. intros _. by rewrite lookup_insert_ne.
    + assert (login ≠ l) as Hne by (intros ->; by apply Hop). destruct (destroy_cases l s) as (Hup & Hl & _).
      destruct (Hl login Hne) as [Hr Ho]. unfold established, stored. rewrite Hr, Ho, Hup. done.
  - destruct (start_cases s Hs) as (Hr & _ & Hload). split; [unfold stored; by rewrite Hr|]. intros Hup. by apply Hload.
Qed.
Lemma established_run login secret ops : Forall (not_destroyed login) ops -> forall s,
  otp_ok s -> established login secret s -> established login secret (otp_run ops s).
Proof.
  induction 1 as [|op ops Hop _ IH]; intros s Hs He; [done|]. apply (IH (otp_step s op)); [by apply otp_step_ok|by apply established_step].
Qed.

(** C20: once a code of the secret that was shown to a login has been accepted, the
    second factor stays until it is destroyed: whatever is called, whenever the service
    is started again and whatever operations of the registry fail, every check without
    a code is answered by a request for one, without the secret, and a check with a code
    succeeds exactly if the code is valid for that very secret. *)
Theorem otp_stays pre login secret c s1 ops code :
  let s := otp_run pre otp_init in
  login ∉ oe_exclude e -> os_otps s !! login = Some (mkOtp login secret false) ->
  otp_check login (Some c) s = (Ok ONone, s1) -> Forall (not_destroyed login) ops ->
  let s' := otp_run ops s1 in
  os_up s' = true ->
  (otp_check login code s').1 =
    match code with
    | None => Ok (OMore MReq)
    | Some c => valid ← totp_valid secret (into_string c) (oe_now e (os_n s')); Ok (if (valid : bool) then ONone else OMore MInvalid)
    end.
Proof.
  intros s Hex Hl Hc Hops s' Hup.
  assert (Hs : otp_ok s) by (apply otp_run_ok; split; by intros).
  assert (Hs1 : otp_ok s1).
  { apply check_cases in Hc as [Hc _]. destruct Hc as [r Hr Ho _|sec r Hn Hr Ho|o reg r Hl' Ha Ho Hr Hreg].
    - split; rewrite ?Hr, ?Ho; apply Hs.
    - congruence.
    - rewrite Hl in Hl'. injection Hl' as <-. split; rewrite ?Hr, ?Ho.
      + intros l v. destruct reg as [v'|]; [|apply Hs]. intros [[<- <-]|[_ Hv]]%lookup_insert_Some; [by eexists|by apply Hs].
      + intros l o [[<- <-]|[_ Hv]]%lookup_insert_Some; [done|by apply Hs]. }
  assert (He : established login secret s1).
  { apply check_cases in Hc as [Hc _]. inversion Hc as [r Hr Ho Hno|sec r Hn|o reg r Hl' Ha Ho Hr Hreg]; subst r.
    - exfalso. by apply (Hno _ Hl).
    - congruence.
    - rewrite Hl in Hl'. injection Hl' as <-. destruct reg as [v|]; [|done]. unfold established, stored. rewrite Hr, Ho, !lookup_insert_eq.
      split; [by exists v|done]. }
  assert (Hes : established login secret s') by (by apply established_run).
  destruct Hes as [_ Hm]. specialize (Hm Hup). unfold otp_check. rewrite bool_decide_false by done.
  unfold verify, otp_tick. unfold_m. rewrite Hm. destruct code as [c'|]; [|done]. cbn [otp_secret otp_active os_n].
  by destruct (totp_valid secret (into_string c') (oe_now e (os_n s'))) as [[]|].
Qed.
End otp.

(** ** An example *)

Module OtpExamples.

#[export] Instance otp_externals : OtpExternals := {|
  RegValue := Otp;
  base32_encode _ := "MFRGG"%string;
  totp_valid (secret code : string) _ := Ok (String.eqb code "123456");
  u32_string z := if z =? 123456 then "123456"%string else "0"%string;
  to_value o := Ok o;
  otp_of_value (o : Otp) := Ok o;
  otp_un_id _ := Ok "operator"%string;
  un_check b := match b with [1] => Ok ("admin"%string, None) | [2] => Ok ("operator"%string, Some (inr 7)) | _ => Err EInvalidData end |}.
#[export] Instance otp_laws : OtpLaws.
Proof. by intros o v [= ->]. Qed.
(** The registry fails at the first restart. *)
Definition otp_env : OtpEnv :=
  mkOtpEnv {["guest"%string]} "eva.aaa.otp" (fun n => if (n =? 5)%nat then Err EFailed else Ok tt) (fun _ => Ok []) (fun n => Z.of_nat n).
Definition pre : list OtpOp := [OpRestart; OpCall "otp.check" [1]].
Definition ops : list OtpOp := [OpCall "otp.check" [2]; OpRestart; OpRestart; OpCall "otp.destroy" [1]; OpCall "otp.list" []].
Lemma otp_stays_witness :
  let s1 := (otp_check otp_env "admin" (Some (inr 123456)) (otp_run otp_env pre otp_init)).2 in
  (otp_check otp_env "admin" None (otp_run otp_env ops s1)).1 = Ok (OMore MReq).
Proof.
  intros s1. apply (otp_stays otp_env pre "admin" "MFRGG" (inr 123456) s1 ops None).
  - apply (bool_decide_eq_true_1 (_ ∉ _)). vm_refl.
  - vm_refl.
  - vm_refl.
  - repeat constructor; intros [? ?]; done.
  - vm_refl.
Defined.
End OtpExamples.
