(* ===== verification/FileMgr.v ===== *)
(** * The file manager service (svc/filemgr/src/main.rs)

    Files of the runtime directory are read, written, removed and listed over the bus;
    archives may be unpacked and commands run.

    The file system is a tree of directories and files without links; a path is resolved
    from the root, [..] leads to the parent of a directory that is there.  Every
    operation may fail, a write also after a part ([FmEnv]).  Commands and archivers are
    other programs, and change files at will.  Terminals are not modelled. *)
From Stdlib Require Import Ascii.
From S2P Require Import Prelude Duration EvaCommon Password Bytes.
Open Scope Z_scope.

(** ** The crates *)

(** [eva_sdk::fs] lists files. *)
Inductive EntryKind := EkFile | EkDir.
Record Entry := mkEntry { en_path : list string; en_kind : EntryKind }.

(** svc/filemgr/src/main.rs:212-222 [Extract] *)
Inductive Extract := ExNo | ExTar | ExTxz | ExTgz | ExTbz2 | ExZip.
#[export] Instance Extract_eq_dec : EqDecision Extract.
Proof. solve_decision. Defined.
(** svc/filemgr/src/main.rs:253-265 [Mode] *)
Inductive Mode := MdText | MdBinary | MdInfo | MdExtendedInfo.
(** svc/filemgr/src/main.rs:267-275 [Caller] *)
Inductive Caller := Human | Machine.
(** svc/filemgr/src/main.rs:277-283 [Permissions] *)
Inductive Permissions := POct (s : string) | PDec (p : Z) | PExecutable (b : bool).
(** svc/filemgr/src/main.rs:312-317 [Sha256Checksum] *)
Inductive Sha256Checksum := SumStr (s : string) | SumBytes (b : list Z).
(** svc/filemgr/src/main.rs:339-344 [Content] *)
Inductive Content := CnBinary (b : list Z) | CnText (s : string).

Record GetParams := mkGetParams { gp_path : string; gp_mode : Mode; gp_caller : Caller }.
Record PutParams := mkPutParams {
  pp_path : string; pp_content : Content; pp_permissions : Permissions; pp_sha256 : option Sha256Checksum;
  pp_extract : Extract; pp_download : bool
}.
Record ListParams := mkListParams { lp_path : option string; lp_masks : option (list string); lp_recursive : bool }.
Record CmdParams := mkCmdParams { cp_c : string; cp_timeout : option Duration; cp_stdin : option string; cp_check_exit_code : bool }.
Record CmdResult := mkCmdResult { cr_code : option Z; cr_out : string; cr_err : string }.

Class FmExternals := {
  fm_un_get : list Z -> EResult GetParams;
  fm_un_put : list Z -> EResult PutParams;
  fm_un_path : list Z -> EResult string;
  fm_un_list : list Z -> EResult ListParams;
  fm_un_cmd : list Z -> EResult CmdParams;
  parse_int : string -> EResult Z;
  oct_string : Z -> string
}.

(** The nodes of the file system. *)
Inductive Node := NDir | NFile (content : list Z) (mode : Z).
#[export] Instance Node_eq_dec : EqDecision Node.
Proof. solve_decision. Defined.
Abbreviation Path := (list string).
Abbreviation Fs := (gmap (list string) Node).

Section filemgr.
Context `{FExt : FmExternals, Hash : HashExternals}.

(** ** Files *)

Record Fm := mkFm { fm_fs : Fs; fm_n : nat }.
Record FmEnv := mkFmEnv {
  ve_runtime : Path;
  ve_protected : list Path;
  ve_timeout : Duration;
  ve_mime : gmap string string;
  ve_create_mode : Z;                     (* of new files *)
  ve_dir : Path -> Z * Z;                 (* mode and size of directories *)
  ve_io : nat -> EResult unit;
  ve_written : nat -> option nat;
  ve_modified : nat -> option Z;
  ve_download : nat -> string -> EResult (Z * list Z);      (* status and body *)
  ve_command : nat -> CmdParams -> Fs -> EResult CmdResult * Fs;
  ve_archiver : nat -> Extract -> list Z -> Path -> Fs -> EResult unit * Fs;
  ve_list : nat -> Path -> list string -> bool -> Fs -> EResult (list Entry)
}.
Variable (e : FmEnv).
Abbreviation VM := (M Fm).
Definition set_fs (x : Fs) (s : Fm) : Fm := mkFm x (fm_n s).
Definition fm_tick : VM nat := fun s => (Ok (fm_n s), mkFm (fm_fs s) (S (fm_n s))).
Definition fm_io : VM unit := n ← fm_tick; lift (ve_io e n).

(** Where a path leads. *)
Fixpoint walk (fs : Fs) (cur : Path) (p : list string) : option Path :=
  match p with
  | [] => Some cur
  | c :: p =>
      match fs !! cur with
      | Some NDir => walk fs (if String.eqb c ".." then removelast cur else cur ++ [c]) p
      | _ => None
      end
  end.
Definition node_at (fs : Fs) (p : Path) : option (Path * Node) :=
  r ← walk fs [] p; x ← fs !! r; Some (r, x).
Definition fs_exists (p : Path) : VM bool := s ← get; mret (match node_at (fm_fs s) p with Some _ => true | None => false end).
Definition fs_metadata (p : Path) : VM Node :=
  _ ← fm_io; s ← get; lift (x ← ok_or (node_at (fm_fs s) p) EIo; Ok x.2).
Definition fs_read (p : Path) : VM (list Z) :=
  _ ← fm_io;
  s ← get;
  match node_at (fm_fs s) p with Some (_, NFile c _) => mret c | _ => raise EIo end.
(** The error says whether there was no such file. *)
Definition fs_remove_file (p : Path) : VM unit :=
  _ ← fm_io;
  s ← get;
  match node_at (fm_fs s) p with
  | Some (r, NFile _ _) => modify (set_fs (delete r (fm_fs s)))
  | Some (_, NDir) => raise EIo
  | None => raise ENotFound
  end.
(** [create(true).write(true).truncate(true)]: the inode, by the place of its name *)
Definition fs_create (p : Path) : VM Path :=
  _ ← fm_io;
  s ← get;
  match walk (fm_fs s) [] p with
  | Some r =>
      match fm_fs s !! r with
      | Some NDir => raise EIo
      | Some (NFile _ m) => _ ← modify (set_fs (<[r := NFile [] m]> (fm_fs s))); mret r
      | None => _ ← modify (set_fs (<[r := NFile [] (ve_create_mode e)]> (fm_fs s))); mret r
      end
  | None => raise EIo
  end.
Definition fs_set_mode (p : Path) (mode : Z) : VM unit :=
  _ ← fm_io;
  s ← get;
  match node_at (fm_fs s) p with
  | Some (r, NFile c _) => modify (set_fs (<[r := NFile c mode]> (fm_fs s)))
  | Some (_, NDir) => mret tt
  | None => raise EIo
  end.
Definition fs_write_all (r : Path) (data : list Z) : VM unit :=
  n ← fm_tick;
  s ← get;
  match fm_fs s !! r with
  | Some (NFile c m) =>
      match ve_written e n with
      | None => modify (set_fs (<[r := NFile (c ++ data) m]> (fm_fs s)))
      | Some k => _ ← modify (set_fs (<[r := NFile (c ++ take k data) m]> (fm_fs s))); raise EIo
      end
  | _ => raise EIo
  end.
(** [create_dir_all], from the root down *)
Fixpoint mkdirs (done rest : list string) : VM unit :=
  match rest with
  | [] => mret tt
  | c :: rest =>
      let p := done ++ [c] in
      s ← get;
      _ ← match walk (fm_fs s) [] p with
          | Some r =>
              match fm_fs s !! r with
              | Some NDir => mret tt
              | Some (NFile _ _) => raise EIo
              | None => _ ← fm_io; modify (fun s => set_fs (<[r := NDir]> (fm_fs s)) s)
              end
          | None => raise EIo
          end;
      mkdirs p rest
  end.
Definition create_dir_all (p : Path) : VM unit := mkdirs [] p.

(** ** Paths and parameters *)

(** The components that are pushed; [.] and empty ones are not. *)
Definition path_comps (s : string) : list string :=
  filter (fun c => c ≠ EmptyString /\ c ≠ "."%string) (split_on slash s).
Definition starts_with (p prefix : Path) : bool := bool_decide (take (length prefix) p = prefix).
(** svc/filemgr/src/main.rs:805-827 [Handlers::format_path] *)
Definition format_path (s : string) : EResult Path :=
  if String.eqb s "/" then Ok (ve_runtime e)
  else if String.prefix "/" s then Err EAccess
  else if contains s "../" then Err EAccess
  else if contains s "/./" || String.prefix "./" s then Err EAccess
  else
    let path := ve_runtime e ++ path_comps s in
    if existsb (starts_with path) (ve_protected e) then Err EAccess else Ok path.
(** svc/filemgr/src/main.rs:286-291 [Permissions::new] *)
Definition permissions_new (p : Z) (caller : Caller) : Permissions :=
  match caller with Human => POct (oct_string p) | Machine => PDec p end.
(** svc/filemgr/src/main.rs:296-302 [try_from] *)
Definition permissions_u32 (p : Permissions) : EResult Z :=
  match p with PDec v => Ok v | POct v => parse_int v | PExecutable v => Ok (if v then 493 else 420) end.
(** svc/filemgr/src/main.rs:320-320 [Sha256Checksum::new] *)
Definition checksum_new (digest : list Z) (caller : Caller) : Sha256Checksum :=
  match caller with Human => SumStr (hex_encode digest) | Machine => SumBytes digest end.
(** svc/filemgr/src/main.rs:326-336 [Sha256Checksum::compare] *)
Definition checksum_compare (c : Sha256Checksum) (content : list Z) : EResult unit :=
  let sum := sha256 content in
  same ← match c with
         | SumStr v => d ← ok_or (hex_decode v) EInvalidData; Ok (bool_decide (d = sum))
         | SumBytes v => Ok (bool_decide (v = sum))
         end;
  if (same : bool) then Ok tt else Err EInvalidData.
(** svc/filemgr/src/main.rs:347-353 [Content::as_bytes] *)
Definition content_bytes (c : Content) : list Z := match c with CnBinary v => v | CnText v => as_bytes v end.
(** svc/filemgr/src/main.rs:354-360 [Content::as_str] *)
Definition content_str (c : Content) : EResult string := match c with CnBinary v => from_utf8 v | CnText v => Ok v end.

(** ** Methods *)

Record GetResult := mkGetResult {
  gr_content_type : string; gr_path : Path; gr_content : option (list Z); gr_text : option string; gr_permissions : Permissions;
  gr_size : Z; gr_modified : option Z; gr_sha256 : option Sha256Checksum
}.
Inductive FmReply := FrNone | FrGet (r : GetResult) | FrList (l : list Entry) | FrCmd (exitcode : Z) (out err : string).
Definition DEFAULT_MIME : string := "application/octet-stream".
Definition file_extension (p : Path) : option string :=
  name ← last p;
  if String.eqb name ".." then None
  else
    match reverse (split_on "."%char name) with
    | ext :: rest => if bool_decide (rest = []) || bool_decide (rest = [EmptyString]) then None else Some ext
    | [] => None
    end.
(** [strip_prefix], by components *)
Definition relative_to (base p : Path) : option Path := if starts_with p base then Some (drop (length base) p) else None.

(** [file.get] (svc/filemgr/src/main.rs:541-625) *)
Definition file_get (p : GetParams) : VM FmReply :=
  fpath ← lift (format_path (gp_path p));
  there ← fs_exists fpath;
  if negb there then raise ENotFound
  else
    relpath ← lift (ok_or (relative_to (ve_runtime e) fpath) EIo);
    metadata ← fs_metadata fpath;
    n ← fm_tick;
    let modified := ve_modified e n in
    let content_type := match file_extension fpath with Some ext => default DEFAULT_MIME (ve_mime e !! ext) | None => DEFAULT_MIME end in
    let '(mode, size) := match metadata with NDir => ve_dir e fpath | NFile c m => (m, Z.of_nat (length c)) end in
    let result := mkGetResult content_type relpath None None (permissions_new mode (gp_caller p)) size modified None in
    let with_sum c text sum := FrGet (mkGetResult content_type relpath c text (gr_permissions result) size modified (Some (checksum_new sum (gp_caller p)))) in
    match gp_mode p with
    | MdBinary => content ← fs_read fpath; mret (with_sum (Some content) None (sha256 content))
    | MdText =>
        content ← fs_read fpath;
        text ← lift (from_utf8 content);
        mret (with_sum None (Some text) (sha256 (as_bytes text)))
    | MdInfo => mret (FrGet result)
    | MdExtendedInfo => content ← fs_read fpath; mret (with_sum None None (sha256 content))
    end.
(** What is to be written (svc/filemgr/src/main.rs:650-671) *)
Definition put_content (p : PutParams) : VM (list Z) :=
  content ← (if pp_download p then
               url ← lift (content_str (pp_content p));
               n ← fm_tick;
               '(status, body) ← lift (ve_download e n url);
               if negb (status =? 200) then raise EFailed else mret body
             else mret (content_bytes (pp_content p)));
  _ ← match pp_sha256 p with Some s => lift (checksum_compare s content) | None => mret tt end;
  mret content.
(** svc/filemgr/src/main.rs:368-399 [extract_archive]; the content is in a temporary file *)
Definition extract_archive (content : list Z) (extract : Extract) (dest : Path) : VM unit :=
  if bool_decide (extract = ExNo) then mret tt
  else
    n ← fm_tick;
    s ← get;
    let '(r, fs) := ve_archiver e n extract content dest (fm_fs s) in
    _ ← modify (set_fs fs);
    lift r.
(** A file is written (svc/filemgr/src/main.rs:674-689) *)
Definition put_file (fpath : Path) (perm : Z) (content : list Z) : VM unit :=
  _ ← create_dir_all (removelast fpath);            (* the root has no parent, and nothing is created *)
  _ ← log_ef (fs_remove_file fpath);
  fh ← fs_create fpath;
  _ ← fm_io;
  _ ← fs_set_mode fpath perm;
  _ ← fs_write_all fh content;
  fm_io.
(** [file.put] (svc/filemgr/src/main.rs:626-707); the temporary file is not modelled *)
Definition file_put (p : PutParams) : VM FmReply :=
  perm ← lift (permissions_u32 (pp_permissions p));
  content ← put_content p;
  fpath ← lift (format_path (pp_path p));
  _ ← (if bool_decide (pp_extract p = ExNo) then put_file fpath perm content
       else
         _ ← create_dir_all fpath;
         _ ← fm_io;
         extract_archive content (pp_extract p) fpath);
  mret FrNone.
(** [file.unlink] (svc/filemgr/src/main.rs:708-729) *)
Definition file_unlink (path : string) : VM FmReply :=
  fpath ← lift (format_path path);
  r ← attempt (fs_remove_file fpath);
  match r with
  | Err ENotFound | Ok _ => mret FrNone
  | Err err => raise err
  end.
(** [list] (svc/filemgr/src/main.rs:730-796) *)
Definition file_list (p : ListParams) : VM FmReply :=
  let rel_path := match lp_path p with Some p => if String.eqb p "" then "/"%string else p | None => "/"%string end in
  path ← lift (format_path rel_path);
  let masks := default ["*"%string] (lp_masks p) in
  n ← fm_tick;
  s ← get;
  entries ← lift (ve_list e n path masks (lp_recursive p) (fm_fs s));
  mret (FrList (omap (fun r =>
    if existsb (starts_with (en_path r)) (ve_protected e) then None
    else match drop (length path) (en_path r) with
         | [] => None
         | rel => Some (mkEntry rel (en_kind r))
         end) entries)).
(** [sh] (svc/filemgr/src/main.rs:489-540) *)
Definition sh (p : CmdParams) : VM FmReply :=
  n ← fm_tick;
  s ← get;
  let '(r, fs) := ve_command e n p (fm_fs s) in
  _ ← modify (set_fs fs);
  result ← lift r;
  let exitcode := default (-15) (cr_code result) in
  if (exitcode =? 0) || negb (cp_check_exit_code p) then mret (FrCmd exitcode (cr_out result) (cr_err result))
  else raise EFailed.
Definition with_payload {A} (payload : list Z) (m : VM A) : VM A :=
  match payload with [] => raise EInvalidParams | _ :: _ => m end.
(** svc/filemgr/src/main.rs:403-799 [handle_call], without the terminals; the methods all
    services have are those of the SDK *)
Definition fm_handle_call (method : string) (payload : list Z) : VM FmReply :=
  if String.eqb method "sh" then with_payload payload (p ← lift (fm_un_cmd payload); sh p)
  else if String.eqb method "file.get" then with_payload payload (p ← lift (fm_un_get payload); file_get p)
  else if String.eqb method "file.put" then with_payload payload (p ← lift (fm_un_put payload); file_put p)
  else if String.eqb method "file.unlink" then with_payload payload (p ← lift (fm_un_path payload); file_unlink p)
  else if String.eqb method "list" then
    p ← match payload with [] => mret (mkListParams None None false) | _ :: _ => lift (fm_un_list payload) end;
    file_list p
  else raise EMethodNotFound.
End filemgr.
