(* ===== verification/FileMgrSpec.v ===== *)
(** * The file manager service: properties

    Calls without archives and commands change and read only files below the runtime
    directory that are not protected; and what is put is got back. *)
From Stdlib Require Import Ascii.
From S2P Require Import Prelude Duration EvaCommon Password Bytes FileMgr.
Open Scope Z_scope.

(** ** Paths *)

Lemma substring_app x p y : String.substring (String.length x) (String.length p) (x +:+ p +:+ y)%string = p.
Proof.
  induction x as [|c x IH]; [|exact IH]. cbn [String.length]. change (EmptyString +:+ ?t)%string with t.
  induction p as [|c p IH]; [by destruct y|]. exact (f_equal (String c) IH).
Qed.
Lemma contains_app x p y : p ≠ EmptyString -> contains (x +:+ p +:+ y)%string p = true.
Proof.
  intros Hp. unfold contains. destruct (String.index 0 p (x +:+ p +:+ y)) eqn:E; [done|]. exfalso.
  apply (String.index_correct3 0 (String.length x) _ _ E); [done|lia|]. apply substring_app.
Qed.
(** A component that is not the last has a slash after it. *)
Lemma join_inner l1 c d l2 : exists x y, join_with slash (l1 ++ c :: d :: l2) = (x +:+ (c +:+ "/") +:+ y)%string.
Proof.
  induction l1 as [|a l1 IH].
  - exists EmptyString, (join_with slash (d :: l2)). cbn [app]. change (join_with slash (c :: d :: l2)) with (c +:+ String slash (join_with slash (d :: l2)))%string.
    change (EmptyString +:+ ?t)%string with t. rewrite <- app_string_assoc. done.
  - destruct IH as (x & y & IH). exists (a +:+ String slash x)%string, y.
    destruct (l1 ++ c :: d :: l2) as [|b l] eqn:E; [by destruct l1|].
    change ((a :: l1) ++ c :: d :: l2) with (a :: (l1 ++ c :: d :: l2)). rewrite E.
    change (join_with slash (a :: b :: l)) with (a +:+ String slash (join_with slash (b :: l)))%string. rewrite IH.
    by rewrite <- (app_string_assoc a (String slash x)).
Qed.
Lemma dots_last s l1 l2 : contains s "../" = false -> split_on slash s = l1 ++ ".."%string :: l2 -> l2 = [].
Proof.
  intros Hc Hs. destruct l2 as [|d l2]; [done|]. exfalso. destruct (join_inner l1 ".." d l2) as (x & y & Hj).
  rewrite <- Hs, join_split in Hj. pose proof (contains_app x "../" y ltac:(done)) as Ht.
  change (".." +:+ "/")%string with "../"%string in Hj. rewrite <- Hj in Ht. congruence.
Qed.
Definition plain (p : Path) : Prop := ".."%string ∉ p.
Lemma path_comps_plain s : contains s "../" = false ->
  plain (path_comps s) \/ exists q, path_comps s = q ++ [".."%string] /\ plain q.
Proof.
  intros Hc. unfold plain, path_comps. destruct (decide (".."%string ∈ split_on slash s)) as [Hin|Hin].
  - apply list_elem_of_split in Hin as (l1 & l2 & Hs). pose proof (dots_last s l1 l2 Hc Hs) as ->. right. rewrite Hs.
    exists (filter (fun c => c ≠ EmptyString /\ c ≠ "."%string) l1). rewrite filter_app. split; [done|].
    intros [_ Hin]%list_elem_of_filter. apply list_elem_of_split in Hin as (l3 & l4 & ->). rewrite <- app_assoc in Hs.
    by pose proof (dots_last s l3 (l4 ++ [".."%string]) Hc Hs) as [_ ?]%app_eq_nil.
  - left. by intros [_ ?]%list_elem_of_filter.
Qed.

(** ** The file system *)

Section fs.
Context `{FExt : FmExternals, Hash : HashExternals}.
Variable (e : FmEnv).
Implicit Types (fs : Fs) (p q r : Path).
Hypothesis runtime_plain : plain (ve_runtime e).

(** What may be read and written. *)
Definition confined r : Prop := ve_runtime e `prefix_of` r /\ Forall (fun q => ~ q `prefix_of` r) (ve_protected e).
(** Files and directories are in directories; the runtime directory is there. *)
Record fs_ok fs : Prop := {
  fo_parent p c : is_Some (fs !! (p ++ [c])) -> fs !! p = Some NDir;
  fo_root : fs !! [] = Some NDir;
  fo_runtime : fs !! ve_runtime e = Some NDir
}.
Lemma starts_with_prefix p q : starts_with p q = true <-> q `prefix_of` p.
Proof.
  unfold starts_with. rewrite bool_decide_eq_true. split.
  - intros <-. apply prefix_take.
  - intros [l ->]. apply take_app_length.
Qed.
Lemma fs_ok_prefix fs p q : fs_ok fs -> p `prefix_of` q -> p ≠ q -> is_Some (fs !! q) -> fs !! p = Some NDir.
Proof.
  intros Hfs [l ->]. induction l as [|c l IH] using rev_ind; [by rewrite app_nil_r|]. intros _. rewrite app_assoc.
  intros Hq%(fo_parent _ Hfs). destruct l as [|c' l]; [by rewrite app_nil_r in Hq|].
  apply IH; [|by rewrite Hq]. rewrite <- (app_nil_r p) at 1. by intros ?%app_inv_head.
Qed.
Lemma walk_plain fs p : plain p -> forall cur r, walk fs cur p = Some r -> r = cur ++ p.
Proof.
  unfold plain. induction p as [|c p IH]; intros Hp cur r; simpl; [intros [= <-]; by rewrite app_nil_r|].
  apply not_elem_of_cons in Hp as [Hc Hp]. destruct (String.eqb_spec c ".."); [congruence|].
  destruct (fs !! cur) as [[]|]; [|done|done]. intros ->%IH; [|done]. by rewrite <- app_assoc.
Qed.
Lemma walk_snoc fs p c : forall cur r, walk fs cur (p ++ [c]) = Some r ->
  exists d, walk fs cur p = Some d /\ fs !! d = Some NDir /\ r = (if String.eqb c ".." then removelast d else d ++ [c]).
Proof.
  induction p as [|c' p IH]; intros cur r; simpl.
  - destruct (fs !! cur) as [[]|] eqn:E; [|done|done]. intros [= <-]. by exists cur.
  - destruct (fs !! cur) as [[]|]; [|done|done]. apply IH.
Qed.
(** What a path that is accepted leads to. *)
Lemma format_path_cases s p : format_path e s = Ok p ->
  (p = ve_runtime e \/ Forall (fun q => ~ q `prefix_of` p) (ve_protected e)) /\ ve_runtime e `prefix_of` p /\
  (plain p \/ exists q, p = q ++ [".."%string] /\ plain q).
Proof.
  unfold format_path. destruct (String.eqb s "/").
  { intros [= <-]. split_and!; [by left|done|by left]. }
  destruct (String.prefix "/" s); [done|]. destruct (contains s "../") eqn:Hd; [done|].
  destruct (contains s "/./" || String.prefix "./" s); [done|].
  destruct (existsb _ _) eqn:Hp; [done|]. intros [= <-]. split_and!.
  - right. apply Forall_forall. intros q Hq Hpre. apply not_true_iff_false in Hp. apply Hp, existsb_exists. exists q.
    split; [by apply list_elem_of_In|by apply starts_with_prefix].
  - by apply prefix_app_r.
  - unfold plain in *. destruct (path_comps_plain s Hd) as [Hc|(q & -> & Hq)].
    + left. rewrite elem_of_app. naive_solver.
    + right. exists (ve_runtime e ++ q). rewrite app_assoc, elem_of_app. split; [done|]. unfold plain in Hq. naive_solver.
Qed.
Lemma format_path_leads s p fs r : format_path e s = Ok p -> fs_ok fs -> walk fs [] p = Some r ->
  fs !! r = Some NDir \/ (confined r /\ r = p /\ plain p).
Proof.
  intros (Hprot & Hpre & Hpl)%format_path_cases Hfs Hw. destruct Hpl as [Hpl|(q & -> & Hq)].
  - apply walk_plain in Hw as ->; [|done]. cbn [app] in *. destruct Hprot as [->|Hprot]; [left; apply Hfs|right]. done.
  - left. apply walk_snoc in Hw as (d & Hd & Hdir & ->). cbn [String.eqb Ascii.eqb Bool.eqb].
    destruct d as [|c d _] using rev_ind; [apply Hfs|]. change (fs !! removelast (d ++ [c]) = Some NDir). rewrite removelast_last.
    by apply (fo_parent _ Hfs d c).
Qed.

(** A name is added to a directory, or the content of a file changes. *)
Lemma insert_ok fs r x :
  fs_ok fs -> fs !! r ≠ Some NDir ->
  (exists d c, r = d ++ [c] /\ fs !! d = Some NDir) -> fs_ok (<[r := x]> fs).
Proof.
  intros Hfs Hr (d & c & -> & Hd). split.
  - intros p c' Hc. destruct (decide (p = d ++ [c])) as [->|Hne].
    + exfalso. rewrite lookup_insert_ne in Hc by (intros Hl%(f_equal length); rewrite !length_app in Hl; simpl in Hl; lia).
      by apply (fo_parent _ Hfs) in Hc.
    + rewrite lookup_insert_ne by done. destruct (decide (p ++ [c'] = d ++ [c])) as [[-> _]%app_inj_tail|Hne']; [done|].
      rewrite lookup_insert_ne in Hc by done. by apply (fo_parent _ Hfs) in Hc.
  - rewrite lookup_insert_ne by (by destruct d). apply Hfs.
  - rewrite lookup_insert_ne; [apply Hfs|]. intros Hd'. rewrite Hd' in Hr. by apply Hr, Hfs.
Qed.
Lemma delete_ok fs r c m : fs_ok fs -> fs !! r = Some (NFile c m) -> fs_ok (delete r fs).
Proof.
  intros Hfs Hr. split.
  - intros p c' [_ Hc]%lookup_delete_is_Some. apply (fo_parent _ Hfs) in Hc. rewrite lookup_delete_ne; [done|]. congruence.
  - rewrite lookup_delete_ne; [apply Hfs|]. intros ->. rewrite (fo_root _ Hfs) in Hr. done.
  - rewrite lookup_delete_ne; [apply Hfs|]. intros ->. rewrite (fo_runtime _ Hfs) in Hr. done.
Qed.
Lemma file_parent fs r c m : fs_ok fs -> fs !! r = Some (NFile c m) -> exists d x, r = d ++ [x] /\ fs !! d = Some NDir.
Proof.
  intros Hfs Hr. destruct r as [|x r _] using rev_ind; [rewrite (fo_root _ Hfs) in Hr; done|].
  exists r, x. split; [done|]. apply (fo_parent _ Hfs r x). by rewrite Hr.
Qed.

(** ** Operations *)

Definition confines (s s' : Fm) : Prop :=
  fs_ok (fm_fs s) -> fs_ok (fm_fs s') /\ forall r, fm_fs s' !! r ≠ fm_fs s !! r -> confined r.
#[local] Instance confines_preorder : PreOrder confines.
Proof.
  split; [by intros s Hs; split|]. intros x y z Hxy Hyz Hx. destruct (Hxy Hx) as [Hy H1]. destruct (Hyz Hy) as [Hz H2].
  split; [done|]. intros r Hr. destruct (decide (fm_fs y !! r = fm_fs x !! r)) as [Heq|Hne]; [|by apply H1].
  apply H2. by rewrite Heq.
Qed.
Lemma io_confines : keeps confines (fm_io e).
Proof. unfold fm_io, fm_tick. intros s. unfold_m. simpl. by destruct (ve_io e (fm_n s)). Qed.
Lemma tick_confines : keeps confines fm_tick.
Proof. by intros s Hs. Qed.
#[local] Hint Resolve io_confines tick_confines : keeps.
Lemma set_confines (s : Fm) r x :
  (fs_ok (fm_fs s) -> confined r /\ fm_fs s !! r ≠ Some NDir /\ exists d c, r = d ++ [c] /\ fm_fs s !! d = Some NDir) ->
  confines s (set_fs (<[r := x]> (fm_fs s)) s).
Proof.
  intros H Hs. destruct (H Hs) as (Hc & Hn & Hd). split; [by apply insert_ok|]. intros r' Hr'. cbn [set_fs fm_fs] in Hr'.
  destruct (decide (r' = r)) as [->|]; [done|]. by rewrite lookup_insert_ne in Hr'.
Qed.

Section target.
(** A path that was accepted. *)
Variable (text : string) (p : Path).
Hypothesis accepted : format_path e text = Ok p.

Lemma target_file fs r c m : fs_ok fs -> node_at fs p = Some (r, NFile c m) ->
  fs !! r = Some (NFile c m) /\ confined r /\ r = p /\ exists d x, r = d ++ [x] /\ fs !! d = Some NDir.
Proof.
  intros Hfs. unfold node_at. destruct (walk fs [] p) as [r'|] eqn:Hw; [|done]. simpl.
  destruct (fs !! r') as [x|] eqn:Hr; [|done]. simpl. intros [= -> ->].
  destruct (format_path_leads text p fs r accepted Hfs Hw) as [Hd|(Hc & -> & _)]; [congruence|].
  split_and!; [done|done|done|by eapply file_parent].
Qed.
Lemma remove_confines : keeps confines (fs_remove_file e p).
Proof.
  unfold fs_remove_file. apply keeps_bind; [frame|]. intros _. apply keeps_get_bind. intros s.
  destruct (node_at (fm_fs s) p) as [[r [|c m]]|] eqn:Hn; [done| |done]. intros Hs.
  destruct (target_file _ _ _ _ Hs Hn) as (Hr & Hc & -> & _). split; [by eapply delete_ok|]. intros r Hd. cbn [modify snd set_fs fm_fs] in Hd.
  destruct (decide (r = p)) as [->|]; [done|]. by rewrite lookup_delete_ne in Hd.
Qed.
Lemma set_mode_confines mode : keeps confines (fs_set_mode e p mode).
Proof.
  unfold fs_set_mode. apply keeps_bind; [frame|]. intros _. apply keeps_get_bind. intros s.
  destruct (node_at (fm_fs s) p) as [[r [|c m]]|] eqn:Hn; [done| |done]. apply set_confines. intros Hs.
  destruct (target_file _ _ _ _ Hs Hn) as (Hr & Hc & _ & Hd). split_and!; [done|congruence|done].
Qed.
(** The file that was opened is the one of the path. *)
Lemma create_confines s : confines s (fs_create e p s).2 /\
  (fs_ok (fm_fs s) -> forall r, (fs_create e p s).1 = Ok r -> confined r /\ r = p).
Proof.
  unfold fs_create. rewrite run_bind. pose proof (io_confines s) as Hio. unfold fm_io, fm_tick in *. unfold_m. simpl in Hio |- *.
  destruct (ve_io e (fm_n s)) as [[]|err]; [|done]. simpl. destruct (walk (fm_fs s) [] p) as [r|] eqn:Hw; [|done].
  assert (Hdir : fs_ok (fm_fs s) -> fm_fs s !! r ≠ Some NDir -> confined r /\ r = p /\ exists d c, r = d ++ [c] /\ fm_fs s !! d = Some NDir).
  { intros Hs Hn. destruct (format_path_leads text p _ _ accepted Hs Hw) as [?|(Hc & -> & Hpl)]; [done|]. split_and!; [done|done|].
    destruct p as [|x q _] using rev_ind; [exfalso; apply Hn, Hs|]. apply walk_snoc in Hw as (d & Hd & Hdir & Hr).
    unfold plain in Hpl. rewrite elem_of_app, elem_of_cons in Hpl.
    destruct (String.eqb_spec x ".."); [exfalso; apply Hpl; subst; auto|]. apply app_inj_tail in Hr as [-> _]. by exists d, x. }
  destruct (fm_fs s !! r) as [[|c m]|] eqn:Hr; [done| |]; simpl; (split; [|intros Hs r' [= <-]; destruct (Hdir Hs); naive_solver]);
    intros Hs; apply (set_confines (mkFm (fm_fs s) (S (fm_n s)))); try done; intros _; destruct (Hdir Hs) as (? & -> & ?); try done; split_and!; try done; simpl; congruence.
Qed.
Lemma write_confines r data : confined r -> keeps confines (fs_write_all e r data).
Proof.
  intros Hc. unfold fs_write_all. apply keeps_bind; [frame|]. intros n. apply keeps_get_bind. intros s.
  destruct (fm_fs s !! r) as [[|c m]|] eqn:Hr; [done| |done].
  assert (forall b, confines s (set_fs (<[r := NFile b m]> (fm_fs s)) s)) as Hset.
  { intros b. apply set_confines. intros Hs. split_and!; [done|congruence|by eapply file_parent]. }
  destruct (ve_written e n); apply Hset.
Qed.
Lemma mkdirs_confines rest : forall done,
  plain (done ++ rest) -> (forall q, q `prefix_of` done ++ rest -> ~ q `prefix_of` ve_runtime e -> confined q) ->
  keeps confines (mkdirs e done rest).
Proof.
  induction rest as [|c rest IH]; intros done Hpl Hq; cbn [mkdirs]; [frame|].
  assert (Hcat : done ++ c :: rest = (done ++ [c]) ++ rest) by (by rewrite <- app_assoc). rewrite Hcat in Hpl, Hq.
  assert (Hc : plain (done ++ [c])) by (unfold plain in *; rewrite elem_of_app in Hpl; naive_solver).
  apply keeps_get_bind. intros s. rewrite run_bind.
  assert (Hrest : forall s1, confines s s1 -> confines s (mkdirs e (done ++ [c]) rest s1).2).
  { intros s1 H1. etrans; [exact H1|]. by apply IH. }
  destruct (walk (fm_fs s) [] (done ++ [c])) as [r|] eqn:Hw; [|done]. pose proof (walk_plain _ _ Hc _ _ Hw) as ->. cbn [app] in *.
  destruct (fm_fs s !! (done ++ [c])) as [[|b m]|] eqn:Hr; [by apply Hrest|done|].
  pose proof (io_confines s) as Hio. unfold fm_io, fm_tick in *. unfold_m. simpl in Hio |- *.
  destruct (ve_io e (fm_n s)) as [[]|err]; [|done]. simpl. apply Hrest. etrans; [exact Hio|].
  apply (set_confines (mkFm (fm_fs s) (S (fm_n s)))). cbn [fm_fs]. intros Hs. split_and!; [|congruence|].
  - apply Hq; [by apply prefix_app_r|]. intros Hpre. destruct (decide (done ++ [c] = ve_runtime e)) as [Heq|Hne].
    + rewrite Heq, (fo_runtime _ Hs) in Hr. done.
    + rewrite (fs_ok_prefix _ _ _ Hs Hpre Hne) in Hr; [done|]. rewrite (fo_runtime _ Hs). done.
  - apply walk_snoc in Hw as (d & Hd & Hdir & Heq). destruct (String.eqb_spec c "..") as [->|_].
    + exfalso. apply Hc. unfold plain. rewrite elem_of_app, elem_of_cons. auto.
    + apply app_inj_tail in Heq as [<- _]. by exists done, c.
Qed.
Lemma prefix_comparable (a b c : Path) : a `prefix_of` c -> b `prefix_of` c -> ~ a `prefix_of` b -> b `prefix_of` a.
Proof. intros Ha Hb Hn. by destruct (prefix_weak_total _ _ _ Ha Hb). Qed.
Lemma parent_confines : keeps confines (create_dir_all e (removelast p)).
Proof.
  destruct (format_path_cases text p accepted) as (Hprot & Hpre & Hpl). unfold create_dir_all.
  assert (Hsub : removelast p `prefix_of` p).
  { destruct p as [|c q _] using rev_ind; [done|]. rewrite removelast_last. by apply prefix_app_r. }
  apply mkdirs_confines; cbn [app].
  - unfold plain in *. destruct Hpl as [Hpl|(q & -> & Hq)]; [|by rewrite removelast_last].
    intros Hin. apply Hpl. destruct Hsub as [l ->]. rewrite elem_of_app. by left.
  - intros q Hq Hn. assert (Hqp : q `prefix_of` p) by (by etrans). split; [by eapply prefix_comparable|].
    destruct Hprot as [->|Hprot]; [done|]. eapply Forall_impl; [exact Hprot|]. intros q' Hq' Hqq. apply Hq'. by etrans.
Qed.
Lemma put_file_confines perm content : keeps confines (put_file e p perm content).
Proof.
  unfold put_file. apply keeps_bind; [apply parent_confines|]. intros _.
  apply keeps_bind; [apply keeps_log_ef, remove_confines|]. intros _.
  intros s Hs. destruct (create_confines s) as [Hc Hr]. specialize (Hr Hs). rewrite run_bind.
  destruct (fs_create e p s) as [[r|err] s1]; [|by apply Hc]. cbn [fst snd] in *. destruct (Hr r eq_refl) as [Hconf _].
  assert (Hk : keeps confines (_ ← fm_io e; _ ← fs_set_mode e p perm; _ ← fs_write_all e r content; fm_io e)).
  { apply keeps_bind; [frame|]. intros _. apply keeps_bind; [apply set_mode_confines|]. intros _.
    apply keeps_bind; [by apply write_confines|]. intros _. frame. }
  exact (transitivity Hc (Hk s1) Hs).
Qed.
End target.

(** ** Calls *)

(** Calls that make other programs change files are left out. *)
Definition own_call (method : string) (payload : list Z) : Prop :=
  method ≠ "sh"%string /\ (forall p : PutParams, method = "file.put"%string -> fm_un_put payload = Ok p -> pp_extract p = ExNo).
Lemma read_confines q : keeps confines (fs_read e q).
Proof. unfold fs_read. apply keeps_bind; [frame|]. intros _. apply keeps_get_bind. intros s. by destruct (node_at _ q) as [[? []]|]. Qed.
Lemma get_confines (p : GetParams) : keeps confines (file_get e p).
Proof.
  unfold file_get, fs_exists, fs_metadata. apply keeps_lift_bind. intros fpath _. apply keeps_bind; [frame|]. intros b.
  destruct (negb b); [frame|]. apply keeps_lift_bind. intros rel _. apply keeps_bind; [frame|]. intros node.
  apply keeps_bind; [frame|]. intros n. destruct (match node with NDir => _ | NFile _ _ => _ end) as [mode size].
  destruct (gp_mode p); try (apply keeps_bind; [apply read_confines|]; intros content); frame.
Qed.
Lemma put_confines (p : PutParams) : pp_extract p = ExNo -> keeps confines (file_put e p).
Proof.
  intros Hx. unfold file_put, put_content. apply keeps_lift_bind. intros perm _. apply keeps_bind; [frame|]. intros content.
  apply keeps_lift_bind. intros fpath Hf. rewrite bool_decide_true by done. apply keeps_bind; [|frame].
  by eapply put_file_confines.
Qed.
Lemma unlink_confines path : keeps confines (file_unlink e path).
Proof.
  unfold file_unlink. apply keeps_lift_bind. intros fpath Hf. apply keeps_bind; [|intros [?|[]]; frame].
  apply keeps_attempt. by eapply remove_confines.
Qed.
Lemma call_confines method payload : own_call method payload -> keeps confines (fm_handle_call e method payload).
Proof.
  intros [Hsh Hput]. unfold fm_handle_call, with_payload. destruct (String.eqb_spec method "sh"); [done|].
  destruct (String.eqb method "file.get").
  { destruct payload; [frame|]. apply keeps_lift_bind. intros p _. apply get_confines. }
  destruct (String.eqb_spec method "file.put").
  { destruct payload; [frame|]. apply keeps_lift_bind. intros p Hp. apply put_confines. by eapply Hput. }
  destruct (String.eqb method "file.unlink").
  { destruct payload; [frame|]. apply keeps_lift_bind. intros p _. apply unlink_confines. }
  destruct (String.eqb method "list"); [|frame]. unfold file_list. frame.
Qed.

(** *** Contents *)

Definition same (s s' : Fm) : Prop := fm_fs s' = fm_fs s.
#[local] Instance same_preorder : PreOrder same.
Proof. unfold same. split; [done|]. intros x y z -> ->. done. Qed.
Lemma io_same : keeps same (fm_io e).
Proof. unfold fm_io, fm_tick. intros s. unfold_m. simpl. by destruct (ve_io e (fm_n s)). Qed.
Lemma tick_same : keeps same fm_tick.
Proof. by intros s. Qed.
#[local] Hint Resolve io_same tick_same : keeps.
Lemma metadata_same q : keeps same (fs_metadata e q).
Proof. unfold fs_metadata. frame. Qed.
Lemma read_same q : keeps same (fs_read e q).
Proof. unfold fs_read. apply keeps_bind; [frame|]. intros _. apply keeps_get_bind. intros s. by destruct (node_at _ q) as [[? []]|]. Qed.
Lemma fs_kept {A} (m : M Fm A) s x s' : keeps same m -> m s = (x, s') -> fm_fs s' = fm_fs s.
Proof. intros Hm Hs. specialize (Hm s). by rewrite Hs in Hm. Qed.
Ltac next H x s Hx :=
  rewrite run_bind in H;
  match type of H with (match ?m with _ => _ end) = _ => destruct m as [[x|] s] eqn:Hx; [|done] end.
Lemma read_run q s c s' : fs_read e q s = (Ok c, s') -> exists r m, node_at (fm_fs s) q = Some (r, NFile c m).
Proof.
  unfold fs_read. intros H. next H u s1 Hio. apply (fs_kept _ _ _ _ io_same) in Hio. rewrite run_bind in H. cbn [get] in H.
  rewrite Hio in H. destruct (node_at (fm_fs s) q) as [[r [|c' m]]|]; [done| |done]. injection H as -> _. eauto.
Qed.
(** The file a reply is about. *)
Lemma get_run (p : GetParams) s g s' : fs_ok (fm_fs s) -> file_get e p s = (Ok (FrGet g), s') ->
  exists fpath, format_path e (gp_path p) = Ok fpath /\ fpath = ve_runtime e ++ gr_path g /\
    (forall c, gr_content g = Some c -> confined fpath /\ exists m, fm_fs s !! fpath = Some (NFile c m)) /\
    (forall t, gr_text g = Some t -> confined fpath /\ exists c m, fm_fs s !! fpath = Some (NFile c m) /\ from_utf8 c = Ok t) /\
    (gp_mode p = MdBinary -> is_Some (gr_content g)).
Proof.
  intros Hs. unfold file_get. intros H. next H fpath s1 Hf. injection Hf as Hf <-. exists fpath. split; [done|].
  next H there s1 Ht. injection Ht as _ <-. destruct (negb there); [done|].
  next H rel s1 Hrel. injection Hrel as Hrel <-.
  assert (Hfp : fpath = ve_runtime e ++ rel).
  { unfold relative_to in Hrel. destruct (starts_with fpath (ve_runtime e)) eqn:Hst; [|done]. injection Hrel as <-.
    apply starts_with_prefix in Hst as [l ->]. by rewrite drop_app_length. }
  next H node s1 Hm. apply (fs_kept _ _ _ _ (metadata_same fpath)) in Hm. next H n s2 Hn. apply (fs_kept _ _ _ _ tick_same) in Hn.
  destruct (match node with NDir => ve_dir e fpath | NFile c m => (m, Z.of_nat (length c)) end) as [mode size].
  assert (Hread : forall c s3, fs_read e fpath s2 = (Ok c, s3) -> confined fpath /\ exists m, fm_fs s !! fpath = Some (NFile c m)).
  { intros c s3 (r & m & Hnode)%read_run. rewrite Hn, Hm in Hnode.
    destruct (target_file (gp_path p) fpath Hf _ _ _ _ Hs Hnode) as (Hr & Hc & -> & _). eauto. }
  destruct (gp_mode p).
  - next H c s3 Hr. next H t s4 Ht. injection H as <- <-. simpl. injection Ht as Ht _. split_and!; [done|done| |done].
    intros t' [= <-]. destruct (Hread c s3 eq_refl) as [? [m ?]]. split; [done|]. by exists c, m.
  - next H c s3 Hr. injection H as <- <-. simpl. split_and!; [done| |done|by eexists]. intros c' [= <-]. by eapply Hread.
  - injection H as <- <-. simpl. by split_and!.
  - next H c s3 Hr. injection H as <- <-. simpl. by split_and!.
Qed.
(** A file that was put has its content. *)
Lemma put_file_run text fpath perm content s s' : format_path e text = Ok fpath -> fs_ok (fm_fs s) ->
  put_file e fpath perm content s = (Ok tt, s') -> exists m, fm_fs s' !! fpath = Some (NFile content m).
Proof.
  intros Hf Hs. unfold put_file. intros H. next H u s1 Hp.
  assert (Hs1 : fs_ok (fm_fs s1)).
  { pose proof (parent_confines text fpath Hf s) as Hk. rewrite Hp in Hk. by apply Hk. }
  next H u2 s2 Hrm. assert (Hs2 : fs_ok (fm_fs s2)).
  { pose proof (keeps_log_ef _ (remove_confines text fpath Hf) s1) as Hk. rewrite Hrm in Hk. by apply Hk. }
  next H fh s3 Hc. assert (Hfh : fh = fpath /\ exists m, fm_fs s3 !! fpath = Some (NFile [] m)).
  { destruct (create_confines text fpath Hf s2) as [_ Hk]. rewrite Hc in Hk. destruct (Hk Hs2 fh eq_refl) as [_ ->]. split; [done|].
    unfold fs_create in Hc. next Hc u3 s4 Hio. rewrite run_bind in Hc. cbn [get] in Hc.
    destruct (walk (fm_fs s4) [] fpath) as [r|]; [|done].
    destruct (fm_fs s4 !! r) as [[|c m]|]; [done|..]; injection Hc as -> <-; simpl; eexists; apply lookup_insert_eq. }
  destruct Hfh as [-> [m Hm]]. next H u3 s4 Hio. apply (fs_kept _ _ _ _ io_same) in Hio. rewrite <- Hio in Hm.
  next H u4 s5 Hmode. assert (Hm5 : exists m, fm_fs s5 !! fpath = Some (NFile [] m)).
  { assert (Hs4 : fs_ok (fm_fs s4)).
    { rewrite Hio. destruct (create_confines text fpath Hf s2) as [Hk _]. rewrite Hc in Hk. by apply Hk. }
    unfold fs_set_mode in Hmode. next Hmode u5 s6 Hio6. apply (fs_kept _ _ _ _ io_same) in Hio6. rewrite run_bind in Hmode. cbn [get] in Hmode.
    rewrite Hio6 in Hmode. destruct (node_at (fm_fs s4) fpath) as [[r [|c m']]|] eqn:Hn; [|..|done].
    - injection Hmode as _ <-. rewrite Hio6. by exists m.
    - injection Hmode as _ <-. destruct (target_file text fpath Hf _ _ _ _ Hs4 Hn) as (Hr & _ & -> & _). rewrite Hm in Hr. injection Hr as <- <-.
      simpl. eexists. apply lookup_insert_eq. }
  destruct Hm5 as [m5 Hm5]. next H u5 s6 Hw. apply (fs_kept _ _ _ _ io_same) in H. rewrite H.
  unfold fs_write_all in Hw. next Hw n s7 Hn. apply (fs_kept _ _ _ _ tick_same) in Hn. rewrite run_bind in Hw. cbn [get] in Hw.
  rewrite Hn, Hm5 in Hw. destruct (ve_written e n); [done|]. injection Hw as _ <-. simpl. eexists. apply lookup_insert_eq.
Qed.
Lemma put_run (p : PutParams) s s' fpath : fs_ok (fm_fs s) -> pp_extract p = ExNo -> pp_download p = false ->
  format_path e (pp_path p) = Ok fpath -> file_put e p s = (Ok FrNone, s') ->
  exists m, fm_fs s' !! fpath = Some (NFile (content_bytes (pp_content p)) m).
Proof.
  intros Hs Hx Hd Hf. unfold file_put. intros H. next H perm s1 Hp. injection Hp as _ <-. next H content s1 Hc.
  unfold put_content in Hc. rewrite Hd in Hc. next Hc c s2 Hcc. injection Hcc as <- <-. next Hc u s2 Hsum.
  injection Hc as <- <-. assert (s2 = s) as -> by (destruct (pp_sha256 p); by injection Hsum).
  rewrite Hf in H. next H fp s2 Hfp. injection Hfp as <- <-. rewrite bool_decide_true in H by done. next H u' s3 Hput.
  injection H as <-. destruct u'. by eapply put_file_run.
Qed.
Definition fm_run (calls : list (string * list Z)) (s : Fm) : Fm := foldl (fun s c => (fm_handle_call e c.1 c.2 s).2) s calls.
Lemma run_confines calls : Forall (fun c => own_call c.1 c.2) calls -> forall s, confines s (fm_run calls s).
Proof.
  induction 1 as [|c calls Hc _ IH]; intros s; [reflexivity|]. etrans; [by apply (call_confines c.1 c.2 Hc s)|]. apply IH.
Qed.
End fs.


(** ** An example *)

Module FileMgrExamples.

#[export] Instance fm_hashes : HashExternals := {|
  sha256 l := l; sha512 l := l; pbkdf2_hmac l _ _ := Ok l; hex_encode _ := EmptyString; hex_decode _ := None;
  base64_encode _ := EmptyString; base64_decode _ := None |}.
Definition put_params (path : string) : PutParams := mkPutParams path (CnBinary [104; 105]) (PDec 420) None ExNo false.
#[export] Instance fm_externals : FmExternals := {|
  fm_un_get _ := Err EInvalidData;
  fm_un_put b := match b with [1] => Ok (put_params "ui/app/index.html") | [2] => Ok (put_params "keys/id") | _ => Ok (put_params "ui/..") end;
  fm_un_path _ := Ok "ui/old"%string; fm_un_list _ := Err EInvalidData; fm_un_cmd _ := Err EInvalidData;
  parse_int _ := Err EInvalidData; oct_string _ := EmptyString |}.
Definition fm_env : FmEnv :=
  mkFmEnv ["opt"; "eva"; "runtime"]%string [["opt"; "eva"; "runtime"; "keys"]%string] 0 ∅ 420 (fun _ => (493, 4096)) (fun _ => Ok tt) (fun _ => None)
    (fun _ => None) (fun _ _ => Err EFailed) (fun _ _ fs => (Err EFailed, fs)) (fun _ _ _ _ fs => (Err EFailed, fs)) (fun _ _ _ _ _ => Ok []).
Definition fm_start : Fm :=
  mkFm (<[[] := NDir]> (<[["opt"%string] := NDir]> (<[["opt"; "eva"]%string := NDir]> (<[["opt"; "eva"; "runtime"]%string := NDir]> ∅)))) 0.
Definition fm_calls : list (string * list Z) := [("file.put"%string, [1]); ("file.put"%string, [2]); ("file.put"%string, [3]); ("file.unlink"%string, [1])].
Lemma fm_start_ok : fs_ok fm_env (fm_fs fm_start).
Proof.
  split; [|vm_refl|vm_refl]. intros p c [x Hx]. simpl in Hx.
  apply lookup_insert_Some in Hx as [[Hp _]|[_ Hx]]; [by destruct p|].
  apply lookup_insert_Some in Hx as [[Hp _]|[_ Hx]]; [apply (app_inj_tail [] p) in Hp as [<- _]; vm_refl|].
  apply lookup_insert_Some in Hx as [[Hp _]|[_ Hx]]; [apply (app_inj_tail ["opt"%string] p) in Hp as [<- _]; vm_refl|].
  apply lookup_insert_Some in Hx as [[Hp _]|[_ Hx]]; [apply (app_inj_tail ["opt"; "eva"]%string p) in Hp as [<- _]; vm_refl|].
  by rewrite lookup_empty in Hx.
Qed.
Definition new_file : Path := ["opt"; "eva"; "runtime"; "ui"; "app"; "index.html"]%string.
End FileMgrExamples.
