(* ===== verification/Expiration.v ===== *)
(** * The expiration service (svc/svc-expiration/src/main.rs)

    The table of watched items, the handler of frames and the checker.  The
    handler and the checker are two threads which share the watchers, and
    their steps are the accesses to the mutex and to the flag of a watcher, so
    that every interleaving of them is a run.  A run records notes: what is
    written, what is found expired, what is published and when the checker
    goes to sleep.  Times are nanoseconds of the monotonic clock. *)
From S2P Require Import Prelude EvaCommon Duration.
Local Open Scope Z_scope.

(** The topics of [eva_common::events], and the order a hash map is iterated in *)
Class ExpExternals := {
  X_RAW_STATE_TOPIC : string;
  X_LOCAL_STATE_TOPIC : string;
  iter_order : gset string -> list string
}.
Class ExpLaws `{ExpExternals} : Prop := {
  iter_order_perm ks : iter_order ks ≡ₚ elements ks
}.

Section expiration.
Context `{Externals, ExpExternals}.

(** ** Watchers *)

(** svc/svc-expiration/src/main.rs:21-26 [ItemWatch] *)
Record ItemWatch := mkWatch { iw_oid : OID; iw_expires : Z; iw_last_event : Z; iw_expired : bool }.
(** svc/svc-expiration/src/main.rs:29-32 [ItemWatch::is_expired] *)
Definition is_expired (now : Z) (w : ItemWatch) : bool := iw_expires w <=? Z.max 0 (now - iw_last_event w).
(** svc/svc-expiration/src/main.rs:33-36 [ItemWatch::is_marked_expired] *)
Definition is_marked_expired (w : ItemWatch) : bool := iw_expired w.
(** svc/svc-expiration/src/main.rs:42-45 [ItemWatch::mark_expired] *)
Definition mark_expired (w : ItemWatch) : ItemWatch := mkWatch (iw_oid w) (iw_expires w) (iw_last_event w) true.
Definition set_last_event (now : Z) (w : ItemWatch) : ItemWatch := mkWatch (iw_oid w) (iw_expires w) now (iw_expired w).
Definition unmark_expired (w : ItemWatch) : ItemWatch := mkWatch (iw_oid w) (iw_expires w) (iw_last_event w) false.

(** What happens: the time of the last event of an item is written, and its flag is
    reset; the checker begins to look, finds an item expired, publishes, and goes to
    sleep until a time. *)
Inductive Note :=
  | NEvent (p : string) (t : Z)
  | NReset (p : string)
  | NBegin (t : Z)
  | NExpired (p : string) (t : Z)
  | NSent (p : string) (ok : bool)
  | NEnd (t : Z) (until : Z).

(** Where the checker is *)
Inductive Checker :=
  | CStart                                            (* the core is waited for *)
  | CScan (todo expired : list string)
  | CUnmarked (p : string) (todo expired : list string)   (* its flag is not set *)
  | CExpired (p : string) (todo expired : list string)    (* and it is expired *)
  | CPublish (expired : list string)
  | CSleep
  | CEndless                                          (* the loop that catches up *)
  | CDone.

Record ExpSt := mkExp {
  ex_now : Z;
  ex_watchers : gmap string ItemWatch;
  ex_handler : option string;      (* the item whose flag is to be reset *)
  ex_checker : Checker;
  ex_next_iter : Z;
  ex_notes : list Note             (* the newest is the first *)
}.
Definition ex_set_watch (p : string) (f : ItemWatch -> ItemWatch) (s : ExpSt) : ExpSt :=
  mkExp (ex_now s) (alter f p (ex_watchers s)) (ex_handler s) (ex_checker s) (ex_next_iter s) (ex_notes s).
Definition ex_set_handler (h : option string) (s : ExpSt) : ExpSt :=
  mkExp (ex_now s) (ex_watchers s) h (ex_checker s) (ex_next_iter s) (ex_notes s).
Definition ex_set_checker (c : Checker) (s : ExpSt) : ExpSt :=
  mkExp (ex_now s) (ex_watchers s) (ex_handler s) c (ex_next_iter s) (ex_notes s).
Definition ex_note (n : Note) (s : ExpSt) : ExpSt :=
  mkExp (ex_now s) (ex_watchers s) (ex_handler s) (ex_checker s) (ex_next_iter s) (n :: ex_notes s).

(** ** The start *)

Definition oid_topic (oid : OID) : string :=
  ((if decide (oid_kind oid = Lvar) then X_LOCAL_STATE_TOPIC else X_RAW_STATE_TOPIC) +:+ oid_as_path oid)%string.
Fixpoint make_watchers (now : Z) (items : list (OID * f64)) (topics : list string) (m : gmap string ItemWatch) :
    EResult (list string * gmap string ItemWatch) :=
  match items with
  | [] => Ok (topics, m)
  | (oid, t) :: items =>
      d ← duration_from_secs_f64 t;
      make_watchers now items (topics ++ [oid_topic oid]) (<[oid_as_path oid := mkWatch oid d now false]> m)
  end.
(** The topics that are subscribed to and the watchers
    (svc/svc-expiration/src/main.rs:155-176) *)
Definition ex_start (now : Z) (items : list (OID * f64)) : EResult (list string * ExpSt) :=
  '(topics, m) ← make_watchers now items [] ∅;
  Ok (topics, mkExp now m None CStart now []).

(** ** The handler *)

(** A frame of the bus: is it a publication, who sent it, its topic *)
Record BusFrame := mkFrame { bf_publish : bool; bf_sender : string; bf_topic : option string }.

(** svc/svc-expiration/src/main.rs:37-41 [ItemWatch::handle_event]: the time is written,
    and the flag is stored after that *)
Definition handle_event (p : string) (s : ExpSt) : ExpSt :=
  match ex_watchers s !! p with
  | Some _ => ex_note (NEvent p (ex_now s)) (ex_set_handler (Some p) (ex_set_watch p (set_last_event (ex_now s)) s))
  | None => s
  end.
Definition handle_event_store (s : ExpSt) : ExpSt :=
  match ex_handler s with
  | Some p => ex_note (NReset p) (ex_set_handler None (ex_set_watch p unmark_expired s))
  | None => s
  end.
(** svc/svc-expiration/src/main.rs:114-130 [handle_frame]; frames are handled one by one *)
Definition handle_frame (me : string) (f : BusFrame) (s : ExpSt) : ExpSt :=
  match ex_handler s with
  | Some _ => s
  | None =>
      if bf_publish f && negb (String.eqb (bf_sender f) me) then
        match bf_topic f with
        | Some topic =>
            match strip_prefix X_RAW_STATE_TOPIC topic with
            | Some oid_path => handle_event oid_path s
            | None =>
                match strip_prefix X_LOCAL_STATE_TOPIC topic with
                | Some oid_path => handle_event oid_path s
                | None => s
                end
            end
        | None => s
        end
      else s
  end.

(** ** The checker *)

(** The loop that catches up; [None] is one that does not end
    (svc/svc-expiration/src/main.rs:94-96) *)
Fixpoint catch_up (fuel : nat) (sleep_step now next_iter : Z) : option Z :=
  if next_iter <? now then
    match fuel with
    | O => None
    | S fuel => catch_up fuel sleep_step now (next_iter + sleep_step)
    end
  else Some next_iter.
(** The end of an iteration (svc/svc-expiration/src/main.rs:88-99) *)
Definition end_iter (sleep_step : Z) (terminating : bool) (s : ExpSt) : ExpSt :=
  let next_iter := ex_next_iter s + sleep_step in
  let now := ex_now s in
  if terminating then ex_set_checker CDone s
  else
    match (if next_iter <? now then catch_up (Z.to_nat (now - next_iter)) sleep_step now next_iter else Some next_iter) with
    | Some next_iter =>
        mkExp now (ex_watchers s) (ex_handler s) CSleep next_iter (NEnd now next_iter :: ex_notes s)
    | None => ex_set_checker CEndless s
    end.
Definition begin_iter (s : ExpSt) : ExpSt :=
  ex_note (NBegin (ex_now s)) (ex_set_checker (CScan (iter_order (dom (ex_watchers s))) []) s).
(** svc/svc-expiration/src/main.rs:48-101 [checker], one step: [ok] tells if a publication
    succeeds, or if the service is terminating *)
Definition checker (sleep_step : Z) (ok : bool) (s : ExpSt) : ExpSt :=
  match ex_checker s with
  | CStart =>
      begin_iter (mkExp (ex_now s) (ex_watchers s) (ex_handler s) (ex_checker s) (ex_now s) (ex_notes s))
  | CScan [] expired => ex_set_checker (CPublish expired) s
  | CScan (p :: todo) expired =>
      match ex_watchers s !! p with
      | Some w => ex_set_checker (if is_marked_expired w then CScan todo expired else CUnmarked p todo expired) s
      | None => ex_set_checker (CScan todo expired) s
      end
  | CUnmarked p todo expired =>
      match ex_watchers s !! p with
      | Some w =>
          if is_expired (ex_now s) w
          then ex_note (NExpired p (ex_now s)) (ex_set_checker (CExpired p todo expired) s)
          else ex_set_checker (CScan todo expired) s
      | None => ex_set_checker (CScan todo expired) s
      end
  | CExpired p todo expired => ex_set_checker (CScan todo (expired ++ [p])) (ex_set_watch p mark_expired s)
  | CPublish (p :: expired) => ex_note (NSent p ok) (ex_set_checker (CPublish expired) s)
  | CPublish [] => end_iter sleep_step ok s
  | CSleep => if ex_next_iter s <=? ex_now s then begin_iter s else s
  | CEndless | CDone => s
  end.

(** ** Runs *)

(** Time passes, a frame comes, the handler or the checker go on *)
Inductive ExpStep := XTick (d : Z) | XFrame (f : BusFrame) | XHandler | XChecker (ok : bool).
Definition ex_step (me : string) (sleep_step : Z) (s : ExpSt) (x : ExpStep) : ExpSt :=
  match x with
  | XTick d => mkExp (ex_now s + Z.max 0 d) (ex_watchers s) (ex_handler s) (ex_checker s) (ex_next_iter s) (ex_notes s)
  | XFrame f => handle_frame me f s
  | XHandler => handle_event_store s
  | XChecker ok => checker sleep_step ok s
  end.
Definition ex_run (me : string) (sleep_step : Z) (xs : list ExpStep) (s : ExpSt) : ExpSt :=
  foldl (ex_step me sleep_step) s xs.

(** ** What the notes promise *)

Fixpoint latest {A} (f : Note -> option A) (l : list Note) : option A :=
  match l with [] => None | n :: l => match f n with Some a => Some a | None => latest f l end end.
(** Of the notes on [p]: the time of an event; is an event handled now; has it been found
    expired since its flag was reset; is it to be published; is a publication the last
    that came of it *)
Definition event_of (p : string) (n : Note) : option Z :=
  match n with NEvent q t => if decide (q = p) then Some t else None | _ => None end.
Definition handled_of (p : string) (n : Note) : option bool :=
  match n with
  | NEvent q _ => if decide (q = p) then Some true else None
  | NReset q => if decide (q = p) then Some false else None
  | _ => None
  end.
Definition marked_of (p : string) (n : Note) : option bool :=
  match n with
  | NExpired q _ => if decide (q = p) then Some true else None
  | NReset q => if decide (q = p) then Some false else None
  | _ => None
  end.
Definition pending_of (p : string) (n : Note) : option bool :=
  match n with
  | NExpired q _ => if decide (q = p) then Some true else None
  | NSent q _ => if decide (q = p) then Some false else None
  | _ => None
  end.
Definition sent_of (p : string) (n : Note) : option bool :=
  match n with
  | NSent q _ => if decide (q = p) then Some true else None
  | NEvent q _ | NReset q => if decide (q = p) then Some false else None
  | _ => None
  end.
Definition begin_of (n : Note) : option Z := match n with NBegin t => Some t | _ => None end.

(** The time of the last event of [p], or that of the start *)
Definition last_time (start : Z) (p : string) (l : list Note) : Z := default start (latest (event_of p) l).

(** Of an iteration that has begun at [t0], after the notes [b], and has made the notes [a]:
    [p] was silent for its time when it began, and nothing came since *)
Definition silent (start : Z) (p : string) (expires t0 : Z) (a b : list Note) : Prop :=
  latest begin_of a = None /\ latest (handled_of p) a = None /\ latest (handled_of p) b <> Some true /\
  expires <= t0 - last_time start p b.

(** What a note means, after the notes [b]:
    - an item is found expired when no event came for its time, and once until it is reset;
    - what is published was found expired, and is published once;
    - when the checker goes to sleep, it does so for not longer than its step, and the last
      that came of an item that was silent is a publication. *)
Definition note_ok (start sleep_step : Z) (watchers : gmap string ItemWatch) (n : Note) (b : list Note) : Prop :=
  match n with
  | NExpired p t =>
      exists w, watchers !! p = Some w /\ iw_expires w <= Z.max 0 (t - last_time start p b) /\
        latest (marked_of p) b <> Some true
  | NSent p _ => latest (pending_of p) b = Some true
  | NEnd t until =>
      t <= until <= t + sleep_step /\
      forall a t0 b' p w, b = a ++ NBegin t0 :: b' -> watchers !! p = Some w ->
        silent start p (iw_expires w) t0 a b' -> latest (sent_of p) b = Some true
  | _ => True
  end.

(** ** The invariant *)

Definition pending (c : Checker) : list string :=
  match c with
  | CScan _ expired | CUnmarked _ _ expired => expired
  | CExpired p _ expired => p :: expired
  | CPublish expired => expired
  | _ => []
  end.
Definition todo (c : Checker) : list string :=
  match c with
  | CScan todo _ => todo
  | CUnmarked p todo _ => p :: todo
  | CExpired _ todo _ => todo
  | _ => []
  end.
Definition in_iter (c : Checker) : bool :=
  match c with CScan _ _ | CUnmarked _ _ _ | CExpired _ _ _ | CPublish _ => true | _ => false end.
Definition flag (s : ExpSt) (p : string) : bool :=
  match ex_watchers s !! p with Some w => iw_expired w | None => false end.

Section invariant.
Context `{!ExpLaws}.
Variable (start sleep_step : Z) (watchers : gmap string ItemWatch).

Record ex_inv (s : ExpSt) : Prop := {
  xi_watch p : (iw_expires <$> ex_watchers s !! p) = (iw_expires <$> watchers !! p) /\
    (iw_last_event <$> ex_watchers s !! p) = ((fun _ => last_time start p (ex_notes s)) <$> watchers !! p);
  xi_handler p : ex_handler s = Some p -> latest (handled_of p) (ex_notes s) = Some true;
  xi_nodup : NoDup (todo (ex_checker s) ++ pending (ex_checker s));
  xi_dom p : p ∈ todo (ex_checker s) ++ pending (ex_checker s) -> is_Some (ex_watchers s !! p);
  xi_marked p : latest (marked_of p) (ex_notes s) = Some true ->
    flag s p = true \/ exists todo expired, ex_checker s = CExpired p todo expired;
  xi_unmarked p todo expired : ex_checker s = CUnmarked p todo expired -> latest (marked_of p) (ex_notes s) <> Some true;
  xi_pending p : p ∈ pending (ex_checker s) -> latest (pending_of p) (ex_notes s) = Some true;
  xi_sent p : flag s p = true -> ex_handler s <> Some p ->
    latest (sent_of p) (ex_notes s) = Some true \/ p ∈ pending (ex_checker s);
  xi_next : in_iter (ex_checker s) = true -> ex_next_iter s <= ex_now s;
  xi_iter a t0 b p w : in_iter (ex_checker s) = true -> ex_notes s = a ++ NBegin t0 :: b -> watchers !! p = Some w ->
    silent start p (iw_expires w) t0 a b ->
    t0 <= ex_now s /\ (p ∈ todo (ex_checker s) \/ flag s p = true \/ exists todo expired, ex_checker s = CExpired p todo expired);
  xi_notes c n b : ex_notes s = c ++ n :: b -> note_ok start sleep_step watchers n b
}.

Lemma latest_app {A} (f : Note -> option A) a b :
  latest f (a ++ b) = match latest f a with Some x => Some x | None => latest f b end.
Proof. induction a as [|n a IH]; [done|]. cbn. by destruct (f n). Qed.
Lemma no_event p a : latest (handled_of p) a = None -> latest (event_of p) a = None.
Proof.
  induction a as [|n a IH]; [done|]. cbn. destruct n; cbn; try destruct (decide (_ = p)); try done; exact IH.
Qed.
Lemma silent_last p d t0 a b : silent start p d t0 a b -> last_time start p (a ++ NBegin t0 :: b) = last_time start p b.
Proof. intros (_ & Ha & _). unfold last_time. by rewrite latest_app, (no_event _ _ Ha). Qed.
Lemma silent_idle p d t0 a b : silent start p d t0 a b -> latest (handled_of p) (a ++ NBegin t0 :: b) <> Some true.
Proof. intros (_ & Ha & Hb & _). by rewrite latest_app, Ha. Qed.
Lemma silent_cons n p d t0 a b : silent start p d t0 (n :: a) b -> silent start p d t0 a b /\ handled_of p n = None.
Proof.
  unfold silent. cbn. intros (Hb & Hh & Hp & Hd). destruct (begin_of n); [done|]. destruct (handled_of p n); [done|].
  auto.
Qed.
(** The notes of the iteration that goes on, before another note *)
Lemma iter_cons n p d t0 a b l : n :: l = a ++ NBegin t0 :: b -> begin_of n = None ->
  silent start p d t0 a b -> exists a', l = a' ++ NBegin t0 :: b /\ silent start p d t0 a' b /\ handled_of p n = None.
Proof.
  intros Hl Hn Hs. destruct a as [|m a]; cbn in Hl; simplify_eq.
  apply silent_cons in Hs. exists a. tauto.
Qed.
Lemma notes_cons m l : (forall c n b, l = c ++ n :: b -> note_ok start sleep_step watchers n b) ->
  note_ok start sleep_step watchers m l ->
  forall c n b, m :: l = c ++ n :: b -> note_ok start sleep_step watchers n b.
Proof. intros Hl Hm [|k c] n b Hs; cbn in Hs; simplify_eq; eauto. Qed.
Lemma flag_alter s q f p :
  flag (ex_set_watch q f s) p =
    if decide (p = q) then match ex_watchers s !! p with Some w => iw_expired (f w) | None => false end else flag s p.
Proof.
  unfold flag, ex_set_watch. cbn. destruct (decide (p = q)) as [->|Hne].
  - rewrite lookup_alter_eq. by destruct (ex_watchers s !! q).
  - by rewrite lookup_alter_ne by done.
Qed.

(** A step of the checker that makes no note *)
Lemma inv_checker s c f q :
  (forall w, iw_expires (f w) = iw_expires w /\ iw_last_event (f w) = iw_last_event w) ->
  ex_inv s -> in_iter (ex_checker s) = true -> in_iter c = true ->
  NoDup (todo c ++ pending c) -> todo c ++ pending c ⊆ todo (ex_checker s) ++ pending (ex_checker s) ->
  pending (ex_checker s) ⊆ pending c -> (forall p, p ∈ pending c -> latest (pending_of p) (ex_notes s) = Some true) ->
  let s' := ex_set_checker c (ex_set_watch q f s) in
  (forall p todo expired, c = CUnmarked p todo expired -> latest (marked_of p) (ex_notes s) <> Some true) ->
  (forall p, flag s' p = true -> flag s p = true \/ p ∈ pending c) ->
  (forall p, flag s p = true \/ (exists todo expired, ex_checker s = CExpired p todo expired) ->
    flag s' p = true \/ (exists todo expired, c = CExpired p todo expired)) ->
  (forall p w, p ∈ todo (ex_checker s) -> p ∉ todo c -> watchers !! p = Some w ->
    iw_expires w <= ex_now s - last_time start p (ex_notes s) ->
    flag s' p = true \/ (exists todo expired, c = CExpired p todo expired)) ->
  ex_inv s'.
Proof.
  intros Hf [Hw Hh Hn Hd Hm Hu Hp Hs Hx Hi Ho] Hc Hc' Hn' Hsub Hpend Hp' s' Hu' Hfl Hmark Hdrop.
  assert (Hwf : forall p, (iw_expires <$> ex_watchers s' !! p) = (iw_expires <$> ex_watchers s !! p) /\
    (iw_last_event <$> ex_watchers s' !! p) = (iw_last_event <$> ex_watchers s !! p)).
  { intros p. cbn. destruct (decide (p = q)) as [->|Hne].
    - rewrite lookup_alter_eq. destruct (ex_watchers s !! q) as [w|]; [|done]. cbn. destruct (Hf w). by split; f_equal.
    - by rewrite lookup_alter_ne by done. }
  assert (Hdm : forall p, is_Some (ex_watchers s !! p) -> is_Some (ex_watchers s' !! p)).
  { intros p [w Hl]. destruct (Hwf p) as [He _]. rewrite Hl in He. by destruct (ex_watchers s' !! p). }
  constructor.
  - intros p. destruct (Hwf p) as [-> ->]. apply Hw.
  - exact Hh.
  - exact Hn'.
  - intros p Hin. apply Hdm, Hd, Hsub, Hin.
  - intros p Hin. apply Hmark, Hm, Hin.
  - exact Hu'.
  - exact Hp'.
  - intros p Hin Hne. destruct (Hfl p Hin) as [Hin'|?]; [|by right].
    destruct (Hs p Hin' Hne) as [?|?]; [by left|right; by apply Hpend].
  - intros _. by apply Hx.
  - intros a t0 b p w _ Hsplit Hl Hsil. destruct (Hi a t0 b p w Hc Hsplit Hl Hsil) as [Ht Hcase]. split; [exact Ht|].
    destruct Hcase as [Hin|Hcase]; [|right; by apply Hmark].
    destruct (decide (p ∈ todo c)) as [Hin'|Hout]; [by left|right].
    cbn in Hsplit. pose proof (silent_last _ _ _ _ _ Hsil) as Hlast. destruct Hsil as (_ & _ & _ & Hexp).
    apply (Hdrop p w); [done..|]. rewrite Hsplit, Hlast. lia.
  - exact Ho.
Qed.
Lemma set_watch_id q s : ex_set_watch q id s = s.
Proof. unfold ex_set_watch. rewrite alter_id by done. by destruct s. Qed.

Ltac inv_fields Hinv := destruct Hinv as [Hw Hh Hn Hd Hm Hu Hp Hs Hx Hi Ho].
Ltac case_names := repeat (case_decide; simplify_eq).

(** An item is found expired *)
Lemma inv_expired s p todo' expired w : ex_inv s -> ex_checker s = CUnmarked p todo' expired ->
  ex_watchers s !! p = Some w -> is_expired (ex_now s) w = true ->
  ex_inv (ex_note (NExpired p (ex_now s)) (ex_set_checker (CExpired p todo' expired) s)).
Proof.
  intros Hinv Hc Hl He. inv_fields Hinv. rewrite Hc in *. cbn in *.
  assert (Hsub : forall q, q ∈ todo' ++ p :: expired -> q ∈ p :: todo' ++ expired) by set_solver.
  constructor; cbn.
  - exact Hw.
  - exact Hh.
  - by rewrite <- Permutation_middle.
  - intros q Hq. by apply Hd, Hsub.
  - intros q Hq. case_names; [right; eauto|]. destruct (Hm q Hq) as [|(? & ? & ?)]; [by left|done].
  - done.
  - intros q Hq. case_names; [done|]. apply Hp. set_solver.
  - intros q Hq Hne. destruct (Hs q Hq Hne); [by left|]. right. set_solver.
  - exact Hx.
  - intros a t0 b q w' _ Hsplit Hl' Hsil.
    destruct (iter_cons _ _ _ _ _ _ _ Hsplit eq_refl Hsil) as (a' & Ha & Hsil' & _).
    destruct (Hi a' t0 b q w' eq_refl Ha Hl' Hsil') as [Ht Hcase]. split; [exact Ht|].
    destruct Hcase as [[->|?]%elem_of_cons|[?|(? & ? & ?)]]; eauto; done.
  - apply notes_cons; [exact Ho|]. cbn. destruct (Hw p) as [Hwe Hwl]. rewrite Hl in Hwe, Hwl. cbn in *.
    destruct (watchers !! p) as [w'|]; [|done]. cbn in *. exists w'. injection Hwe as <-. injection Hwl as Hwl.
    unfold is_expired in He. rewrite Hwl in He. split_and!; [done|lia|]. by eapply Hu.
Qed.
(** A publication *)
Lemma inv_sent s p expired ok : ex_inv s -> ex_checker s = CPublish (p :: expired) ->
  ex_inv (ex_note (NSent p ok) (ex_set_checker (CPublish expired) s)).
Proof.
  intros Hinv Hc. inv_fields Hinv. rewrite Hc in *. cbn in *. apply NoDup_cons in Hn as [Hn1 Hn2].
  constructor; cbn.
  - exact Hw.
  - exact Hh.
  - exact Hn2.
  - intros q Hq. apply Hd. set_solver.
  - intros q Hq. destruct (Hm q Hq) as [|(? & ? & ?)]; [by left|done].
  - done.
  - intros q Hq. case_names; [done|]. apply Hp. set_solver.
  - intros q Hq Hne. case_names; [by left|]. destruct (Hs q Hq Hne) as [|Hin]; [by left|]. right. set_solver.
  - exact Hx.
  - intros a t0 b q w' _ Hsplit Hl' Hsil.
    destruct (iter_cons _ _ _ _ _ _ _ Hsplit eq_refl Hsil) as (a' & Ha & Hsil' & _).
    destruct (Hi a' t0 b q w' eq_refl Ha Hl' Hsil') as [Ht Hcase]. split; [exact Ht|].
    destruct Hcase as [?|[?|(? & ? & ?)]]; [set_solver|auto|done].
  - apply notes_cons; [exact Ho|]. cbn. apply Hp. set_solver.
Qed.
(** The beginning of an iteration *)
Lemma inv_begin s : ex_inv s -> todo (ex_checker s) ++ pending (ex_checker s) = [] ->
  (forall p todo expired, ex_checker s <> CExpired p todo expired) ->
  ex_next_iter s <= ex_now s -> ex_inv (begin_iter s).
Proof.
  intros Hinv Hnil Hc Hnext. inv_fields Hinv. apply app_nil in Hnil as [_ Hnil]. rewrite Hnil in *.
  unfold begin_iter. constructor; cbn; rewrite ?app_nil_r.
  - exact Hw.
  - exact Hh.
  - rewrite iter_order_perm. apply NoDup_elements.
  - intros p. rewrite iter_order_perm, elem_of_elements, elem_of_dom. done.
  - intros p Hp'. left. destruct (Hm p Hp') as [|(? & ? & ?%Hc)]; done.
  - done.
  - set_solver.
  - exact Hs.
  - done.
  - intros a t0 b p w _ Hsplit Hl (Hb & _). destruct a as [|n a]; cbn in Hsplit; simplify_eq.
    split; [done|]. left. rewrite iter_order_perm, elem_of_elements, elem_of_dom. destruct (Hw p) as [He _].
    rewrite Hl in He. by destruct (ex_watchers s !! p).
  - by apply notes_cons.
Qed.
(** The handler *)
Lemma inv_event s p : ex_inv s -> ex_handler s = None -> ex_inv (handle_event p s).
Proof.
  intros Hinv Hidle. unfold handle_event. destruct (ex_watchers s !! p) as [w|] eqn:Hl; [|done]. inv_fields Hinv.
  assert (Hfl : forall q, flag (ex_set_watch p (set_last_event (ex_now s)) s) q = flag s q).
  { intros q. rewrite flag_alter. case_names; [|done]. unfold flag. by rewrite Hl. }
  constructor; cbn; try done.
  - intros q. destruct (Hw q) as [He Hlast]. destruct (decide (q = p)) as [->|Hne].
    + rewrite lookup_alter_eq, Hl. rewrite Hl in He. cbn in *. destruct (watchers !! p); [|done]. cbn in *.
      split; [done|]. f_equal. unfold last_time. cbn. by rewrite decide_True by done.
    + rewrite lookup_alter_ne by done. split; [done|]. rewrite Hlast. unfold last_time. cbn. by rewrite decide_False by done.
  - intros q [= ->]. by rewrite decide_True by done.
  - intros q Hq. specialize (Hd q Hq). rewrite lookup_alter. case_decide; subst; [by apply fmap_is_Some|done].
  - intros q Hq. setoid_rewrite Hfl. by apply Hm.
  - intros q Hq Hne. rewrite decide_False by congruence. apply Hs; [by rewrite <- Hfl|]. by rewrite Hidle.
  - intros a t0 b q w' Hit Hsplit Hl' Hsil.
    destruct (iter_cons _ _ _ _ _ _ _ Hsplit eq_refl Hsil) as (a' & Ha & Hsil' & _).
    setoid_rewrite Hfl. by apply (Hi a' t0 b q w').
  - by apply notes_cons.
Qed.
Lemma inv_reset s : ex_inv s -> ex_inv (handle_event_store s).
Proof.
  intros Hinv. unfold handle_event_store. destruct (ex_handler s) as [p|] eqn:Hhd; [|done]. inv_fields Hinv.
  assert (Hfl : forall q, flag (ex_note (NReset p) (ex_set_handler None (ex_set_watch p unmark_expired s))) q =
    if decide (q = p) then false else flag s q).
  { intros q. change (flag _ q) with (flag (ex_set_watch p unmark_expired s) q) at 1. rewrite flag_alter. case_names; [|done]. by destruct (ex_watchers s !! p). }
  constructor; cbn; try done.
  - intros q. destruct (Hw q) as [He Hlast]. rewrite lookup_alter. case_names; [|done].
    by destruct (ex_watchers s !! q).
  - intros q Hq. specialize (Hd q Hq). rewrite lookup_alter. case_decide; subst; [by apply fmap_is_Some|done].
  - intros q Hq. rewrite Hfl. case_names. by apply Hm.
  - intros q ? ? Hq. case_names; [done|]. by eapply Hu.
  - intros q. rewrite Hfl. intros Hq _. case_names. apply Hs; [done|]. congruence.
  - intros a t0 b q w' Hit Hsplit Hl' Hsil.
    destruct (iter_cons _ _ _ _ _ _ _ Hsplit eq_refl Hsil) as (a' & Ha & Hsil' & Hno). cbn in Hno. rewrite Hfl. case_names.
    by apply (Hi a' t0 b q w').
  - by apply notes_cons.
Qed.
(** The loop that catches up ends when the step is not zero, with less than a step ahead *)
Lemma catch_up_bounds fuel : forall next now u, catch_up fuel sleep_step now next = Some u ->
  next < now + sleep_step -> now <= u < now + sleep_step.
Proof.
  induction fuel as [|fuel IH]; intros next now u; cbn; destruct (Z.ltb_spec next now); try done.
  - by intros [= ->].
  - intros Hu Hlt. apply IH in Hu; lia.
  - by intros [= ->].
Qed.
Lemma catch_up_ends fuel next now : 0 < sleep_step -> now - next <= Z.of_nat fuel ->
  is_Some (catch_up fuel sleep_step now next).
Proof.
  intros Hpos. revert next. induction fuel as [|fuel IH]; intros next Hf; cbn; destruct (Z.ltb_spec next now); try done.
  - lia.
  - apply IH. lia.
Qed.
Lemma inv_end s ok : 0 <= sleep_step -> ex_inv s -> ex_checker s = CPublish [] -> ex_inv (end_iter sleep_step ok s).
Proof.
  intros Hstep Hinv Hc. pose proof Hinv as Hinv'. inv_fields Hinv. rewrite Hc in *. cbn in *.
  assert (Hidle : forall c, in_iter c = false -> todo c = [] -> pending c = [] -> (forall p l k, c <> CUnmarked p l k) ->
    ex_inv (ex_set_checker c s)).
  { intros c Hi0 Ht Hpd Hun. constructor; cbn; rewrite ?Ht, ?Hpd, ?Hi0; try done.
    - intros q Hq. destruct (Hm q Hq) as [|(? & ? & ?)]; [by left|done].
    - by intros p l k ?%Hun. }
  unfold end_iter. destruct ok; [by apply Hidle|]. case_match eqn:Hn'; [|by apply Hidle].
  assert (Hu' : ex_now s <= z <= ex_now s + sleep_step).
  { specialize (Hx eq_refl). destruct (Z.ltb_spec (ex_next_iter s + sleep_step) (ex_now s)) as [Hlt|Hge].
    - apply catch_up_bounds in Hn'; [|lia]. lia.
    - injection Hn' as <-. lia. }
  destruct (Hidle CSleep) as [Hw2 Hh2 Hn2 Hd2 Hm2 Hu2 Hp2 Hs2 Hx2 Hi2 Ho2]; [done..|].
  constructor; cbn; try done.
  - apply notes_cons; [exact Ho|]. cbn. split; [done|]. intros a t0 b' p w Hsplit Hl Hsil.
    destruct (Hi a t0 b' p w eq_refl Hsplit Hl Hsil) as [_ [?|[Hf|(? & ? & ?)]]]; [set_solver| |done].
    apply silent_idle in Hsil. rewrite <- Hsplit in Hsil.
    destruct (Hs p Hf) as [|?]; [|done|set_solver]. intros ?%Hh. done.
Qed.
(** The checker looks at a watcher *)
Lemma inv_scan s p todo' expired w : ex_inv s -> ex_checker s = CScan (p :: todo') expired -> ex_watchers s !! p = Some w ->
  ex_inv (ex_set_checker (if is_marked_expired w then CScan todo' expired else CUnmarked p todo' expired) s).
Proof.
  intros Hinv Hc Hl. pose proof Hinv as Hinv'. inv_fields Hinv'. rewrite Hc in *. cbn in *.
  assert (Hfl : flag s p = is_marked_expired w) by (unfold flag; by rewrite Hl).
  rewrite <- (set_watch_id p s). rewrite <- Hfl. destruct (flag s p) eqn:Hf; apply inv_checker; rewrite ?Hc, ?set_watch_id; try done.
  - by apply NoDup_cons in Hn as [_ ?].
  - set_solver.
  - auto.
  - intros q [?|(? & ? & ?)]; [by left|done].
  - intros q w' Hin Hout _ _. left. cbn in *. assert (q = p) as -> by set_solver. exact Hf.
  - intros q ? ? [= <- _ _] Hq. destruct (Hm p Hq) as [?|(? & ? & ?)]; [congruence|done].
  - auto.
  - intros q [?|(? & ? & ?)]; [by left|done].
Qed.
Lemma inv_fresh s p todo' expired w : ex_inv s -> ex_checker s = CUnmarked p todo' expired -> ex_watchers s !! p = Some w ->
  is_expired (ex_now s) w = false -> ex_inv (ex_set_checker (CScan todo' expired) s).
Proof.
  intros Hinv Hc Hl He. pose proof Hinv as Hinv'. inv_fields Hinv'. rewrite Hc in *. cbn in *.
  rewrite <- (set_watch_id p s). apply inv_checker; rewrite ?Hc, ?set_watch_id; try done; cbn.
  - by apply NoDup_cons in Hn as [_ ?].
  - set_solver.
  - auto.
  - intros q [?|(? & ? & ?)]; [by left|done].
  - intros q w' Hin Hout Hl' Hexp. assert (q = p) as -> by set_solver. exfalso.
    destruct (Hw p) as [Hwe Hwl]. rewrite Hl, Hl' in *. cbn in *. injection Hwe as Hwe. injection Hwl as Hwl.
    unfold is_expired in He. lia.
Qed.
Lemma inv_mark s p todo' expired : ex_inv s -> ex_checker s = CExpired p todo' expired ->
  ex_inv (ex_set_checker (CScan todo' (expired ++ [p])) (ex_set_watch p mark_expired s)).
Proof.
  intros Hinv Hc. pose proof Hinv as Hinv'. inv_fields Hinv'. rewrite Hc in *. cbn in *.
  assert (Hperm : todo' ++ expired ++ [p] ≡ₚ todo' ++ p :: expired) by (by rewrite (Permutation_app_comm expired)).
  destruct (Hd p) as [w Hl]; [set_solver|].
  apply inv_checker; rewrite ?Hc; try done; cbn.
  - by rewrite Hperm.
  - intros q. by rewrite Hperm.
  - set_solver.
  - intros q Hq. apply Hp. set_solver.
  - intros q. change (flag _ q) with (flag (ex_set_watch p mark_expired s) q) at 1. rewrite flag_alter. case_names; [set_solver|auto].
  - intros q Hq. left. change (flag _ q) with (flag (ex_set_watch p mark_expired s) q). rewrite flag_alter.
    case_names; [by rewrite Hl|]. destruct Hq as [?|(? & ? & ?)]; [done|congruence].
Qed.
Lemma inv_scanned s expired : ex_inv s -> ex_checker s = CScan [] expired -> ex_inv (ex_set_checker (CPublish expired) s).
Proof.
  intros Hinv Hc. pose proof Hinv as Hinv'. inv_fields Hinv'. rewrite Hc in *. cbn in *.
  rewrite <- (set_watch_id EmptyString s). apply inv_checker; rewrite ?Hc, ?set_watch_id; try done; cbn; [auto|].
  intros q [?|(? & ? & ?)]; [by left|done].
Qed.
Lemma inv_next s t : ex_inv s -> in_iter (ex_checker s) = false ->
  ex_inv (mkExp (ex_now s) (ex_watchers s) (ex_handler s) (ex_checker s) t (ex_notes s)).
Proof. intros Hinv Hc. inv_fields Hinv. constructor; cbn; try done. congruence. Qed.
Lemma inv_step me s x : 0 <= sleep_step -> ex_inv s -> ex_inv (ex_step me sleep_step s x).
Proof.
  intros Hstep Hinv. destruct x as [d|f| |ok]; cbn.
  - inv_fields Hinv. constructor; cbn; try done; [intros Hit; specialize (Hx Hit); lia|].
    intros a t0 b p w Hit Hsplit Hl Hsil. destruct (Hi a t0 b p w Hit Hsplit Hl Hsil). split; [lia|done].
  - unfold handle_frame. destruct (ex_handler s) eqn:Hidle; [done|]. repeat case_match; auto using inv_event.
  - by apply inv_reset.
  - unfold checker. pose proof (xi_dom _ Hinv) as Hd. destruct (ex_checker s) as [|[|p todo'] expired|p todo' expired|p todo' expired|[|p expired]| | |] eqn:Hc; try done.
    + rewrite <- Hc. apply inv_begin; cbn; rewrite ?Hc; try done. rewrite <- Hc. apply inv_next; by rewrite ?Hc.
    + by apply inv_scanned.
    + destruct (Hd p) as [w Hl]; [set_solver|]. rewrite Hl. by eapply inv_scan.
    + destruct (Hd p) as [w Hl]; [set_solver|]. rewrite Hl. destruct (is_expired (ex_now s) w) eqn:He; [by eapply inv_expired|by eapply inv_fresh].
    + by apply inv_mark.
    + by apply inv_end.
    + by apply inv_sent.
    + destruct (Z.leb_spec (ex_next_iter s) (ex_now s)); [|done]. apply inv_begin; by rewrite ?Hc.
Qed.
Lemma inv_run me xs s : 0 <= sleep_step -> ex_inv s -> ex_inv (ex_run me sleep_step xs s).
Proof. intros Hstep. revert s. induction xs as [|x xs IH]; intros s Hinv; [done|]. by apply IH, inv_step. Qed.
Lemma endless_step me s x : 0 < sleep_step -> ex_checker s <> CEndless -> ex_checker (ex_step me sleep_step s x) <> CEndless.
Proof.
  intros Hstep Hs. destruct x as [d|f| |ok]; cbn; [done|..].
  - unfold handle_frame, handle_event. by repeat case_match.
  - unfold handle_event_store. by repeat case_match.
  - unfold checker, end_iter. repeat case_match; cbn; try done; try congruence.
    destruct (catch_up_ends (Z.to_nat (ex_now s - (ex_next_iter s + sleep_step))) (ex_next_iter s + sleep_step) (ex_now s)); [done|lia|congruence].
Qed.
Lemma endless_run me xs s : 0 < sleep_step -> ex_checker s <> CEndless -> ex_checker (ex_run me sleep_step xs s) <> CEndless.
Proof. intros Hstep. revert s. induction xs as [|x xs IH]; intros s Hs; [done|]. by apply IH, endless_step. Qed.
End invariant.

Lemma make_watchers_new now items : forall topics m topics' m', make_watchers now items topics m = Ok (topics', m') ->
  (forall p w, m !! p = Some w -> iw_last_event w = now /\ iw_expired w = false) ->
  forall p w, m' !! p = Some w -> iw_last_event w = now /\ iw_expired w = false.
Proof.
  induction items as [|[oid t] items IH]; intros topics m topics' m'; cbn; [by intros [= _ <-]|].
  destruct (duration_from_secs_f64 t) as [d|]; [|done]. cbn. intros Hm Hall. eapply IH; [exact Hm|].
  intros p w. rewrite lookup_insert. case_decide; [by intros [= <-]|apply Hall].
Qed.
Lemma inv_start now sleep_step items topics s : ex_start now items = Ok (topics, s) ->
  ex_inv now sleep_step (ex_watchers s) s.
Proof.
  unfold ex_start. destruct (make_watchers now items [] ∅) as [[topics' m]|] eqn:Hm; [|done]. cbn. intros [= -> <-].
  pose proof (make_watchers_new _ _ _ _ _ _ Hm) as Hnew. specialize (Hnew ltac:(done)).
  constructor; cbn; try done.
  - intros p. split; [done|]. destruct (m !! p) as [w|] eqn:Hl; [|done]. cbn. by destruct (Hnew p w Hl) as [-> _].
  - constructor.
  - set_solver.
  - set_solver.
  - unfold flag. cbn. intros p. destruct (m !! p) as [w|] eqn:Hl; [|done]. by destruct (Hnew p w Hl) as [_ ->].
  - by intros [].
Qed.
End expiration.

(** C15: whatever frames come and however the two threads of the expiration service
    interleave, an item is found expired only when no event has come for its time, and not
    again until an event has reset it; what is published has been found expired, and once;
    and when the checker goes to sleep, for at most its step, the last that came of an item
    which had been silent for its time when the iteration began is a publication.  If the
    step is not zero the loop that catches up ends. *)
Theorem expiration_exact `{Externals, !ExpExternals, !ExpLaws} me now sleep_step items topics s0 xs :
  0 <= sleep_step -> ex_start now items = Ok (topics, s0) ->
  (forall c n b, ex_notes (ex_run me sleep_step xs s0) = c ++ n :: b -> note_ok now sleep_step (ex_watchers s0) n b) /\
  (0 < sleep_step -> ex_checker (ex_run me sleep_step xs s0) <> CEndless).
Proof.
  intros Hstep Hs. split.
  - intros c n b. eapply xi_notes, inv_run; [done|by eapply inv_start].
  - intros Hpos. apply endless_run; [done|]. unfold ex_start in Hs. destruct (make_watchers _ _ _ _) as [[]|]; [|done].
    by injection Hs as _ <-.
Qed.

Module ExpirationExamples.
Import Sample.
#[export] Instance exp_sample : ExpExternals := {|
  X_RAW_STATE_TOPIC := "RAW/"; X_LOCAL_STATE_TOPIC := "ST/LOC/"; iter_order := elements |}.
#[export] Instance exp_laws : ExpLaws.
Proof. by constructor. Qed.

Definition items : list (OID * f64) := [((Sensor, "a"%string), f64_of_Z 2); ((Lvar, "b"%string), f64_of_Z 100)].
Definition sec (n : Z) : Z := n * NANOS_PER_SEC.
Definition frame : BusFrame := mkFrame true "plc" (Some "RAW/sensor/a"%string).
(** An event of the sensor comes while the checker has found it expired *)
Definition steps : list ExpStep :=
  XTick (sec 3) :: replicate 3 (XChecker true) ++ [XFrame frame; XHandler] ++ replicate 9 (XChecker false).
Definition s0 : ExpSt :=
  match ex_start 0 items with Ok (_, s) => s | Err _ => mkExp 0 ∅ None CStart 0 [] end.

Lemma expiration_exact_witness :
  ex_start 0 items = Ok (["RAW/sensor/a"; "ST/LOC/lvar/b"]%string, s0) /\
  ex_notes (ex_run "me" (sec 1) steps s0) =
    [NEnd (sec 3) (sec 4); NSent "sensor/a" false; NReset "sensor/a"; NEvent "sensor/a" (sec 3);
     NExpired "sensor/a" (sec 3); NBegin (sec 3)] /\
  latest (pending_of "sensor/a") [NReset "sensor/a"; NEvent "sensor/a" (sec 3); NExpired "sensor/a" (sec 3); NBegin (sec 3)] = Some true.
Proof.
  assert (Hn : ex_notes (ex_run "me" (sec 1) steps s0) =
    [NEnd (sec 3) (sec 4); NSent "sensor/a" false; NReset "sensor/a"; NEvent "sensor/a" (sec 3);
     NExpired "sensor/a" (sec 3); NBegin (sec 3)]) by vm_refl.
  split; [vm_refl|]. split; [exact Hn|].
  apply (proj1 (expiration_exact "me" 0 (sec 1) items ["RAW/sensor/a"; "ST/LOC/lvar/b"]%string s0 steps ltac:(done) ltac:(vm_refl))
    [NEnd (sec 3) (sec 4)] (NSent "sensor/a" false)). exact Hn.
Defined.
End ExpirationExamples.
