(* ===== verification/PubSubCtl.v ===== *)
(** * The pub/sub controller (svc/controller-pubsub/src)

    A gateway between the bus and a pub/sub server.  Messages of mapped topics
    become raw state events and actions of items, states of items become messages
    of the topics they are mapped to, and unit actions are sent as messages.

    [Ps] is the state: the cache of item states, the cache of raw states, the topic
    the tester waits for, and what was sent, in order: events on the bus, tasks of
    the sender, actions and macros.  JSON paths, transformations, encodings and the
    two caches are those of other crates.  The configuration is taken as read, and
    connections to the server are not modelled. *)
From S2P Require Import Prelude Duration EvaCommon Password Bytes Numbers.
Local Open Scope Z_scope.

(** ** The crates *)

Section states.
Context `{Externals}.
(** What is used of [eva_sdk::types::State] *)
Record PState := mkPState { st_status : Z; st_value : option Value; st_set_time : f64 }.
End states.

(** svc/controller-pubsub/src/main.rs:414-421 [Packer] *)
Inductive Packer := PkNo | PkJson | PkMsgPack.

Class PsExternals `{Ext : Externals, NExt : !NodeExternals} := {
  (* eva_common::value::Value *)
  ps_value_string : Value -> string;
  ps_as_string : Value -> option string;
  ps_value_i16 : Value -> option Z;
  ps_string : string -> Value;
  ps_u64 : Z -> Value;
  ps_i16 : Z -> Value;
  ps_jp_lookup : Value -> string -> EResult (option Value);
  ps_jp_insert : Value -> string -> Value -> EResult Value;
  ps_json : list Z -> EResult Value;
  ps_to_json : Value -> EResult (list Z);
  ps_unpack : list Z -> EResult Value;
  ps_pack : Value -> EResult (list Z);
  (* eva_common::time::Time, of a timestamp *)
  ps_time_ms : f64 -> Z;
  ps_time_us : f64 -> Z;
  ps_time_ns : f64 -> Z;
  (* eva_sdk::controller *)
  PsTransform : Type;
  ps_transform : list PsTransform -> OID -> f64 -> EResult f64;
  ps_pack_raw : RawStateEvent -> EResult (list Z);
  (* RawStateCache: what has been modified, at a time *)
  RawCache : Type;
  retain_map_modified : Z -> gmap OID RawStateEvent -> RawCache -> gmap OID RawStateEvent * RawCache;
  (* ttl_cache::TtlCache, with the time of the access *)
  StateCache : Type;
  cache_get : Z -> OID -> StateCache -> option PState;
  cache_insert : Z -> OID -> PState -> Z -> StateCache -> StateCache;
  (* unpack, then into() *)
  un_local_event : list Z -> EResult PState;
  un_remote_event : list Z -> EResult PState;
  PS_RAW_STATE_TOPIC : string;
  PS_LOCAL_STATE_TOPIC : string;
  PS_REMOTE_STATE_TOPIC : string;
  (* the events of an action that is pending or completed, and its topic *)
  action_topic : OID -> string;
  pack_pending : list Z -> EResult (list Z);
  pack_completed : list Z -> EResult (list Z);
  (* the parameters of the calls *)
  un_task : list Z -> EResult (string * Value * option Z * Packer);
  un_action : list Z -> EResult (OID * EResult Value)
}.
(** What is cached of a key is what was put there last; other keys may be dropped. *)
Class PsLaws `{PsExternals} : Prop := {
  cache_get_same t t' o st ttl c : cache_get t' o (cache_insert t o st ttl c) = Some st \/ cache_get t' o (cache_insert t o st ttl c) = None;
  cache_get_other t t' o o' st ttl c x : o <> o' -> cache_get t' o' (cache_insert t o st ttl c) = Some x ->
    cache_get t' o' c = Some x;
  (* events are only left out *)
  retain_subset t m c : (retain_map_modified t m c).1 ⊆ m
}.

Section pubsub.
Context `{Ext : Externals, NExt : !NodeExternals, PExt : !PsExternals}.

Definition CACHE_TTL : Duration := 60 * NANOS_PER_SEC.

(** ** The configuration *)

(** svc/controller-pubsub/src/main.rs:401-412 [SourceProp] *)
Inductive SourceProp := SpStatus | SpValue | SpTime | SpTimeSec | SpTimeMillis | SpTimeMicros | SpTimeNanos.
(** svc/controller-pubsub/src/main.rs:358-365 [Processing] *)
Inductive Processing := PrStatus | PrValue | PrAction.
(** svc/controller-pubsub/src/main.rs:344-356 [InputMappingEntry] *)
Record InputMappingEntry := mkInEntry {
  ie_path : string; ie_oid : OID; ie_process : Processing; ie_value_map : gmap string Value; ie_transform : list PsTransform
}.
(** svc/controller-pubsub/src/main.rs:334-342 [InputMapping] *)
Record InputMapping := mkInput { im_topic : string; im_packer : Packer; im_map : list InputMappingEntry }.
(** svc/controller-pubsub/src/main.rs:386-399 [OutputMappingEntry] *)
Record OutputMappingEntry := mkOutEntry {
  oe_path : string; oe_payload : option Value; oe_oid : option OID; oe_prop : SourceProp;
  oe_value_map : gmap string Value; oe_transform : list PsTransform
}.
(** svc/controller-pubsub/src/main.rs:367-384 [OutputMapping] *)
Record OutputMapping := mkOutput {
  om_topic : string; om_packer : Packer; om_map : list OutputMappingEntry; om_interval : option Duration;
  om_ignore_events : bool; om_qos : option Z
}.

(** svc/controller-pubsub/src/main.rs:424-441 [Packer::unpack] *)
Definition packer_unpack (k : Packer) (data : list Z) : EResult Value :=
  match k with
  | PkNo =>
      s ← from_utf8 data;
      match parse_u64 data with
      | Some v => Ok (ps_u64 v)
      | None =>
          match parse_i64 data with
          | Some v => Ok (VI64 v)
          | None => match parse_f64 data with Some v => Ok (VF64 v) | None => Ok (ps_string s) end
          end
      end
  | PkJson => ps_json data
  | PkMsgPack => ps_unpack data
  end.
(** svc/controller-pubsub/src/main.rs:442-448 [Packer::pack] *)
Definition packer_pack (k : Packer) (value : Value) : EResult (list Z) :=
  match k with PkNo => Ok (as_bytes (ps_value_string value)) | PkJson => ps_to_json value | PkMsgPack => ps_pack value end.

(** ** The state *)

(** svc/controller-pubsub/src/main.rs:36-41 [PubSubTask]; does someone wait for it *)
Record PubSubTask := mkTask { ta_topic : string; ta_payload : list Z; ta_qos : Z; ta_processed : bool }.
(** What is sent: to the bus, to the sender of messages, an action and a macro to the core *)
Inductive Sent :=
  | SBus (topic : string) (payload : list Z)
  | SOut (task : PubSubTask)
  | SAction (oid : OID) (value : Value)
  | SMacro (oid : OID) (topic : string) (payload : Value).
Record Ps := mkPs {
  ps_cache : StateCache;
  ps_raw : RawCache;
  ps_tester : option string;
  ps_sent : list Sent;
  ps_known : list (OID * PState);   (* the states that came, the newest first *)
  ps_n : nat                   (* the calls of other code so far *)
}.
(** What others do, by the number of the call: the clock, the states the core answers with,
    the results of actions and of macros (their exit code), and if the sender takes a task *)
Record PsEnv := mkPsEnv {
  pv_system_name : string;
  pv_default_qos : Z;
  pv_now : nat -> Z;
  pv_item_state : nat -> OID -> EResult (list PState);
  pv_action : nat -> OID -> Value -> EResult unit;
  pv_macro : nat -> OID -> string -> Value -> EResult (option Z);
  pv_queue : nat -> EResult unit;
  pv_processed : nat -> EResult unit
}.
Variable (e : PsEnv).
Abbreviation PM := (M Ps).

Definition ps_tick : PM nat :=
  s ← get; _ ← modify (fun s => mkPs (ps_cache s) (ps_raw s) (ps_tester s) (ps_sent s) (ps_known s) (S (ps_n s))); mret (ps_n s).
Definition send (x : Sent) : PM unit :=
  modify (fun s => mkPs (ps_cache s) (ps_raw s) (ps_tester s) (ps_sent s ++ [x]) (ps_known s) (ps_n s)).
(** A state is put into the cache *)
Definition cache_state (oid : OID) (state : PState) : PM unit :=
  n ← ps_tick;
  modify (fun s => mkPs (cache_insert (pv_now e n) oid state CACHE_TTL (ps_cache s)) (ps_raw s) (ps_tester s) (ps_sent s)
    ((oid, state) :: ps_known s) (ps_n s)).

(** ** States become messages *)

(** [s.replace(p, r)] *)
Fixpoint replace_fuel (fuel : nat) (p r s : string) : string :=
  match fuel with
  | O => s
  | S fuel =>
      match s with
      | EmptyString => EmptyString
      | String c s' =>
          match strip_prefix p s with
          | Some rest => (r +:+ replace_fuel fuel p r rest)%string
          | None => String c (replace_fuel fuel p r s')
          end
      end
  end.
Definition str_replace (p r s : string) : string := replace_fuel (String.length s) p r s.
(** svc/controller-pubsub/src/main.rs:61-63 [format_output_string] *)
Definition format_output_string (s : string) : string := str_replace "${system_name}" (pv_system_name e) s.

(** svc/controller-pubsub/src/main.rs:65-81 [get_state] *)
Definition get_state (oid : OID) : PM PState :=
  n ← ps_tick;
  s ← get;
  match cache_get (pv_now e n) oid (ps_cache s) with
  | Some state => mret state
  | None =>
      n ← ps_tick;
      states ← lift (pv_item_state e n oid);
      state ← lift (ok_or (head states) ENotFound);
      _ ← cache_state oid state;
      mret state
  end.
(** svc/controller-pubsub/src/main.rs:83-94 [format_output_value] *)
Definition format_output_value (value : Value) (m : OutputMappingEntry) (oid : OID) : EResult Value :=
  value ← match oe_transform m with
          | [] => Ok value
          | _ :: _ => f ← ok_or (value_to_f64 value) EInvalidData; f ← ps_transform (oe_transform m) oid f; Ok (VF64 f)
          end;
  Ok (default value (oe_value_map m !! ps_value_string value)).
(** The property of a state (svc/controller-pubsub/src/main.rs:107-125) *)
Definition state_prop (p : SourceProp) (state : PState) : Value :=
  match p with
  | SpStatus => ps_i16 (st_status state)
  | SpValue => default value_default (st_value state)
  | SpTime => VF64 (st_set_time state)
  | SpTimeSec => ps_u64 (f64_as_u64 (st_set_time state))
  | SpTimeMillis => ps_u64 (ps_time_ms (st_set_time state))
  | SpTimeMicros => ps_u64 (ps_time_us (st_set_time state))
  | SpTimeNanos => ps_u64 (ps_time_ns (st_set_time state))
  end.
(** An entry of a mapping (svc/controller-pubsub/src/main.rs:99-131); the value of an action
    is taken by the first entry without a payload and an item *)
Definition output_entry (m : OutputMappingEntry) (unit_action : option (OID * Value)) (value : Value) : PM (option (OID * Value) * Value) :=
  match oe_payload m with
  | Some payload =>
      let payload := match ps_as_string payload with Some s => ps_string (format_output_string s) | None => payload end in
      value ← lift (ps_jp_insert value (oe_path m) payload);
      mret (unit_action, value)
  | None =>
      match oe_oid m with
      | Some oid =>
          state ← get_state oid;
          val ← lift (format_output_value (state_prop (oe_prop m) state) m oid);
          value ← lift (ps_jp_insert value (oe_path m) val);
          mret (unit_action, value)
      | None =>
          match unit_action with
          | Some (oid, av) =>
              val ← lift (format_output_value av m oid);
              value ← lift (ps_jp_insert value (oe_path m) val);
              mret (None, value)
          | None => mret (None, value)
          end
      end
  end.
Fixpoint output_entries (map : list OutputMappingEntry) (unit_action : option (OID * Value)) (value : Value) : PM Value :=
  match map with
  | [] => mret value
  | m :: map => '(unit_action, value) ← output_entry m unit_action value; output_entries map unit_action value
  end.
(** A task is given to the sender *)
Definition queue (t : PubSubTask) : PM unit :=
  n ← ps_tick;
  _ ← lift (pv_queue e n);
  send (SOut t).
(** svc/controller-pubsub/src/main.rs:96-148 [send_output] *)
Definition send_output (o : OutputMapping) (unit_action : option (OID * Value)) : PM unit :=
  value ← output_entries (om_map o) unit_action VUnit;
  payload ← lift (packer_pack (om_packer o) value);
  queue (mkTask (om_topic o) payload (default (pv_default_qos e) (om_qos o)) false).

(** An event of an item (svc/controller-pubsub/src/main.rs:239-256) *)
Definition state_event (output : gmap OID (list OutputMapping)) (path : string) (state : EResult PState) : PM unit :=
  match state, oid_from_path path with
  | Ok state, Ok oid =>
      _ ← cache_state oid state;
      for_each (fun o => if om_ignore_events o then mret tt else log_ef (send_output o None)) (default [] (output !! oid))
  | _, _ => mret tt
  end.
(** svc/controller-pubsub/src/main.rs:232-264 [handle_frame], of a service that is ready *)
Definition ps_handle_frame (output : gmap OID (list OutputMapping)) (topic : option string) (payload : list Z) : PM unit :=
  match topic with
  | Some topic =>
      match strip_prefix PS_LOCAL_STATE_TOPIC topic with
      | Some i => state_event output i (un_local_event payload)
      | None =>
          match strip_prefix PS_REMOTE_STATE_TOPIC topic with
          | Some i => state_event output i (un_remote_event payload)
          | None => mret tt
          end
      end
  | None => mret tt
  end.
(** One turn of the task of an output with an interval
    (svc/controller-pubsub/src/main.rs:704-713) *)
Definition interval_output (o : OutputMapping) : PM unit := log_ef (send_output o None).

(** ** Calls *)

(** [pubsub.publish] (svc/controller-pubsub/src/main.rs:157-198) *)
Definition pubsub_publish (topic : string) (payload : Value) (qos : option Z) (packer : Packer) : PM unit :=
  let qos := default (pv_default_qos e) qos in
  let wait := 0 <? qos in
  payload ← lift (packer_pack packer payload);
  _ ← queue (mkTask topic payload qos wait);
  if wait then n ← ps_tick; lift (pv_processed e n) else mret tt.
(** [action] (svc/controller-pubsub/src/main.rs:199-228): [action] is the payload, with the
    unit and the value it holds *)
Definition ps_action (action_map : gmap OID OutputMapping) (action : list Z) (oid : OID) (value : EResult Value) : PM unit :=
  match action_map !! oid with
  | Some o =>
      value ← lift value;
      pending ← lift (pack_pending action);
      _ ← send (SBus (action_topic oid) pending);
      _ ← send_output o (Some (oid, value));
      completed ← lift (pack_completed action);
      send (SBus (action_topic oid) completed)
  | None => raise ENotFound
  end.
(** svc/controller-pubsub/src/main.rs:152-231 [handle_call], of a service that is ready; the
    methods all services have are those of the SDK *)
Definition pubsub_handle_call (action_map : gmap OID OutputMapping) (method : string) (payload : list Z) : PM unit :=
  if String.eqb method "pubsub.publish" then
    match payload with
    | [] => raise EInvalidParams
    | _ :: _ => '(topic, value, qos, packer) ← lift (un_task payload); pubsub_publish topic value qos packer
    end
  else if String.eqb method "action" then
    match payload with
    | [] => raise EInvalidParams
    | _ :: _ => '(oid, value) ← lift (un_action payload); ps_action action_map payload oid value
    end
  else raise EMethodNotFound.

(** ** Messages become events *)

(** svc/controller-pubsub/src/main.rs:451-473 [execute_action] *)
Definition execute_action (oid : OID) (value : Value) : PM unit :=
  n ← ps_tick;
  _ ← send (SAction oid value);
  lift (pv_action e n oid value).
(** The value of an entry (svc/controller-pubsub/src/main.rs:495-541) *)
Definition input_value (m : InputMappingEntry) (v : Value) : EResult Value :=
  let v := default v (ie_value_map m !! ps_value_string v) in
  match ie_transform m with
  | [] => Ok v
  | _ :: _ => f ← ok_or (value_to_f64 v) EInvalidData; n ← ps_transform (ie_transform m) (ie_oid m) f; Ok (VF64 n)
  end.
Definition set_raw_status (status : Z) (r : RawStateEvent) : RawStateEvent :=
  mkRaw status (raw_value r) (raw_force r) (raw_t r) (raw_on_modified r) (raw_status_compare r) (raw_value_compare r)
    (raw_status_else r) (raw_value_else r).
Definition set_raw_value (value : Value) (r : RawStateEvent) : RawStateEvent :=
  mkRaw (raw_status r) (Some value) (raw_force r) (raw_t r) (raw_on_modified r) (raw_status_compare r) (raw_value_compare r)
    (raw_status_else r) (raw_value_else r).
(** An entry of a mapping (svc/controller-pubsub/src/main.rs:493-591) *)
Definition input_entry (value : Value) (m : InputMappingEntry) (states : gmap OID RawStateEvent) : PM (gmap OID RawStateEvent) :=
  match ps_jp_lookup value (ie_path m) with
  | Ok (Some v) =>
      match input_value m v with
      | Ok v =>
          match ie_process m with
          | PrAction => _ ← log_ef (execute_action (ie_oid m) v); mret states
          | PrStatus =>
              let item_status := default ITEM_STATUS_ERROR (ps_value_i16 v) in
              mret (<[ie_oid m := match states !! ie_oid m with
                                  | None => raw_of item_status None ForceNone None
                                  | Some r => set_raw_status item_status r
                                  end]> states)
          | PrValue =>
              mret (<[ie_oid m := match states !! ie_oid m with
                                  | None => raw_of 1 (Some v) ForceNone None
                                  | Some r => set_raw_value v r
                                  end]> states)
          end
      | Err _ => mret states
      end
  | _ => mret states
  end.
Fixpoint input_entries (value : Value) (map : list InputMappingEntry) (states : gmap OID RawStateEvent) : PM (gmap OID RawStateEvent) :=
  match map with
  | [] => mret states
  | m :: map => states ← input_entry value m states; input_entries value map states
  end.
(** The events (svc/controller-pubsub/src/main.rs:595-604); one that cannot be packed ends it *)
Fixpoint send_events (l : list (OID * RawStateEvent)) : PM unit :=
  match l with
  | [] => mret tt
  | (oid, raw) :: l =>
      match ps_pack_raw raw with
      | Ok payload => _ ← send (SBus (PS_RAW_STATE_TOPIC +:+ oid_as_path oid)%string payload); send_events l
      | Err _ => mret tt
      end
  end.
(** svc/controller-pubsub/src/main.rs:475-613 [process_input_payload] *)
Definition process_input_payload (data : list Z) (mapping : InputMapping) : PM unit :=
  match packer_unpack (im_packer mapping) data with
  | Ok value =>
      states ← input_entries value (im_map mapping) ∅;
      n ← ps_tick;
      s ← get;
      let '(states, raw) := retain_map_modified (pv_now e n) states (ps_raw s) in
      _ ← modify (fun s => mkPs (ps_cache s) raw (ps_tester s) (ps_sent s) (ps_known s) (ps_n s));
      send_events (map_to_list states)
  | Err _ => mret tt
  end.
(** svc/controller-pubsub/src/common.rs:30-51 [safe_run_macro] *)
Definition safe_run_macro (oid : OID) (topic : string) (payload : Value) : PM unit :=
  n ← ps_tick;
  _ ← send (SMacro oid topic payload);
  exitcode ← lift (pv_macro e n oid topic payload);
  match exitcode with
  | Some code => if code =? 0 then mret tt else raise EFailed
  | None => raise EFailed
  end.
(** The last mapping of a topic counts (svc/controller-pubsub/src/main.rs:622-625) *)
Definition mapping_of (mapping_vec : list InputMapping) : gmap string InputMapping :=
  foldl (fun m v => <[im_topic v := v]> m) ∅ mapping_vec.
(** [Tester::fire] of the tester in [psrpc] *)
Definition tester_test (topic : string) (payload : list Z) : PM bool :=
  s ← get;
  if bool_decide (payload = [43]) && bool_decide (ps_tester s = Some topic)
  then _ ← modify (fun s => mkPs (ps_cache s) (ps_raw s) None (ps_sent s) (ps_known s) (ps_n s)); mret true
  else mret false.
(** svc/controller-pubsub/src/main.rs:615-650 [handle_input], one message *)
Definition handle_input (mapping_vec : list InputMapping) (process_extra : option OID) (topic : string) (payload : list Z) : PM unit :=
  fired ← tester_test topic payload;
  if (fired : bool) then mret tt
  else
    match mapping_of mapping_vec !! topic with
    | Some m => process_input_payload payload m
    | None =>
        match process_extra with
        | Some oid =>
            let pubsub_payload := match from_utf8 payload with Ok s => ps_string s | Err _ => VBytes payload end in
            log_ef (safe_run_macro oid topic pubsub_payload)
        | None => mret tt
        end
    end.

(** ** The start *)

(** The outputs by the items they show, as often as they show them
    (svc/controller-pubsub/src/main.rs:837-845) *)
Definition output_map (output : list OutputMapping) : gmap OID (list OutputMapping) :=
  foldl (fun om o =>
    foldl (fun om m => match oe_oid m with
                       | Some oid => <[oid := default [] (om !! oid) ++ [o]]> om
                       | None => om
                       end) om (om_map o)) ∅ output.
(** The items that are marked as failed (svc/controller-pubsub/src/main.rs:811-820); [ok] tells which
    publications succeed *)
Fixpoint mark_failed (failed : list Z) (ok : nat -> EResult unit) (oids : list OID) : PM unit :=
  match oids with
  | [] => mret tt
  | oid :: oids =>
      n ← ps_tick;
      _ ← lift (ok n);
      _ ← send (SBus (PS_RAW_STATE_TOPIC +:+ oid_as_path oid)%string failed);
      mark_failed failed ok oids
  end.
(** The mode that marks all items as failed (svc/controller-pubsub/src/main.rs:807-822) *)
Definition fail_all (ok : nat -> EResult unit) (input : list InputMapping) : PM unit :=
  failed ← lift (ps_pack_raw (raw_of ITEM_STATUS_ERROR None ForceNone None));
  mark_failed failed ok (input ≫= fun i => ie_oid <$> im_map i).
End pubsub.
