(* ===== verification/PubSubSpec.v ===== *)
(** * The pub/sub controller: what it sends

    A message of a mapped topic becomes, for each item, one event with the last
    status and the last value its entries find; a message that is sent shows, for
    each item, the state that came last, from an event or from the core. *)
From S2P Require Import Prelude Duration EvaCommon Password Bytes Numbers PubSubCtl.
Local Open Scope Z_scope.

Section spec.
Context `{Ext : Externals, NExt : !NodeExternals, PExt : !PsExternals, !PsLaws}.
Variable (e : PsEnv).

(** ** Messages *)

(** What an entry finds in a message *)
Definition found (value : Value) (m : InputMappingEntry) : option Value :=
  match ps_jp_lookup value (ie_path m) with
  | Ok (Some v) => match input_value m v with Ok v => Some v | Err _ => None end
  | _ => None
  end.
Definition found_as (p : Processing) (value : Value) (oid : OID) (m : InputMappingEntry) : option Value :=
  match ie_process m, p with
  | PrStatus, PrStatus | PrValue, PrValue | PrAction, PrAction => if decide (ie_oid m = oid) then found value m else None
  | _, _ => None
  end.
(** The event of an item: the last status that was found, or one if there is none, and the
    last value *)
Definition expected (value : Value) (map : list InputMappingEntry) (oid : OID) : option RawStateEvent :=
  let statuses := omap (found_as PrStatus value oid) map in
  let values := omap (found_as PrValue value oid) map in
  match statuses, values with
  | [], [] => None
  | _, _ =>
      Some (raw_of (default 1 ((fun v => default ITEM_STATUS_ERROR (ps_value_i16 v)) <$> last statuses)) (last values) ForceNone None)
  end.
(** The actions, in the order of the entries *)
Definition expected_actions (value : Value) (map : list InputMappingEntry) : list Sent :=
  omap (fun m => SAction (ie_oid m) <$> found_as PrAction value (ie_oid m) m) map.

Lemma expected_snoc value map m oid :
  expected value (map ++ [m]) oid =
    match found_as PrStatus value oid m, found_as PrValue value oid m with
    | Some v, _ =>
        let st := default ITEM_STATUS_ERROR (ps_value_i16 v) in
        Some match expected value map oid with None => raw_of st None ForceNone None | Some r => set_raw_status st r end
    | None, Some v =>
        Some match expected value map oid with None => raw_of 1 (Some v) ForceNone None | Some r => set_raw_value v r end
    | None, None => expected value map oid
    end.
Proof.
  unfold expected. rewrite !omap_app.
  generalize (omap (found_as PrStatus value oid) map), (omap (found_as PrValue value oid) map). intros ss vs. cbn.
  assert (Hex : found_as PrStatus value oid m = None \/ found_as PrValue value oid m = None).
  { unfold found_as. destruct (ie_process m); auto. }
  destruct (found_as PrStatus value oid m) as [v|], (found_as PrValue value oid m) as [v'|]; [naive_solver|..].
  - rewrite last_snoc, app_nil_r. by destruct ss, vs.
  - rewrite last_snoc, app_nil_r. by destruct ss, vs.
  - by rewrite !app_nil_r.
Qed.

Lemma input_entry_found value m states :
  input_entry e value m states =
    match found value m with
    | Some v =>
        match ie_process m with
        | PrAction => _ ← log_ef (execute_action e (ie_oid m) v); mret states
        | PrStatus =>
            let st := default ITEM_STATUS_ERROR (ps_value_i16 v) in
            mret (<[ie_oid m := match states !! ie_oid m with None => raw_of st None ForceNone None | Some r => set_raw_status st r end]> states)
        | PrValue =>
            mret (<[ie_oid m := match states !! ie_oid m with None => raw_of 1 (Some v) ForceNone None | Some r => set_raw_value v r end]> states)
        end
    | None => mret states
    end.
Proof. unfold input_entry, found. by destruct (ps_jp_lookup value (ie_path m)) as [[v|]|]; [destruct (input_value m v)|..]. Qed.

(** The state after some messages were sent and calls made *)
Definition after (x : list Sent) (n : nat) (s : Ps) : Ps := mkPs (ps_cache s) (ps_raw s) (ps_tester s) (ps_sent s ++ x) (ps_known s) n.
Lemma after_nil s : s = after [] (ps_n s) s.
Proof. destruct s. unfold after. cbn. by rewrite app_nil_r. Qed.
Lemma input_entry_spec value done m states s :
  (forall oid, states !! oid = expected value done oid) ->
  exists states' n, input_entry e value m states s = (Ok states', after (expected_actions value [m]) n s) /\
    forall oid, states' !! oid = expected value (done ++ [m]) oid.
Proof.
  intros Hs. rewrite input_entry_found. unfold expected_actions. cbn. setoid_rewrite expected_snoc. unfold found_as.
  destruct (found value m) as [v|]; destruct (ie_process m); cbn; rewrite ?decide_True by done; cbn.
  all: try (eexists _, _; split; [by rewrite <- after_nil|]; intros oid; rewrite ?lookup_insert, ?Hs; first [done|by case_decide; subst]).
  unfold execute_action, ps_tick, send. unfold_m. cbn. eexists _, _. split; [done|]. intros oid. by rewrite Hs.
Qed.
Lemma input_entries_spec value map : forall done states s,
  (forall oid, states !! oid = expected value done oid) ->
  exists states' n, input_entries e value map states s = (Ok states', after (expected_actions value map) n s) /\
    forall oid, states' !! oid = expected value (done ++ map) oid.
Proof.
  induction map as [|m map IH]; intros done states s Hs; cbn [input_entries].
  - exists states, (ps_n s). rewrite app_nil_r. split; [by rewrite <- after_nil|done].
  - destruct (input_entry_spec value done m states s Hs) as (st1 & n1 & H1 & Hs1). rewrite run_bind, H1.
    destruct (IH _ _ (after (expected_actions value [m]) n1 s) Hs1) as (st2 & n2 & H2 & Hs2).
    exists st2, n2. rewrite H2. split; [|by rewrite <- app_assoc in Hs2].
    unfold after. cbn [ps_cache ps_raw ps_tester ps_sent ps_known]. rewrite <- app_assoc. unfold expected_actions.
    by rewrite <- (omap_app _ [m] map).
Qed.
Definition event_sent (x : OID * RawStateEvent) (y : Sent) : Prop :=
  exists payload, ps_pack_raw x.2 = Ok payload /\ y = SBus (PS_RAW_STATE_TOPIC +:+ oid_as_path x.1)%string payload.
Lemma send_events_spec l : forall s, exists packed events,
  send_events l s = (Ok tt, after events (ps_n s) s) /\ packed `prefix_of` l /\ Forall2 event_sent packed events /\
  (Forall (fun x => is_ok (ps_pack_raw x.2)) l -> packed = l).
Proof.
  induction l as [|[oid raw] l IH]; intros s; cbn [send_events].
  - exists [], []. rewrite <- after_nil. split_and!; done.
  - destruct (ps_pack_raw raw) as [payload|err] eqn:Hp.
    + destruct (IH (after [SBus (PS_RAW_STATE_TOPIC +:+ oid_as_path oid)%string payload] (ps_n s) s)) as (packed & events & Hr & Hpre & Hall & Hok).
      exists ((oid, raw) :: packed), (SBus (PS_RAW_STATE_TOPIC +:+ oid_as_path oid)%string payload :: events). split_and!.
      * rewrite run_bind. unfold send, modify. cbn [fst snd]. etrans; [exact Hr|]. unfold after. cbn. by rewrite <- app_assoc.
      * by apply prefix_cons.
      * constructor; [|done]. by exists payload.
      * intros Ha. inversion_clear Ha. f_equal. auto.
    + exists [], []. rewrite <- after_nil. split_and!; [done|apply prefix_nil|done|]. intros Ha. inversion_clear Ha as [|?? Hx].
      cbn in Hx. by rewrite Hp in Hx.
Qed.
(** ** States *)

(** The state of an item that came last *)
Definition known (oid : OID) (l : list (OID * PState)) : option PState :=
  snd <$> head (filter (fun x => x.1 = oid) l).
(** What is cached is what came last *)
Definition cache_ok (s : Ps) : Prop :=
  forall t oid st, cache_get t oid (ps_cache s) = Some st -> known oid (ps_known s) = Some st.

(** The item an entry shows *)
Definition entry_item (m : OutputMappingEntry) : option OID := match oe_payload m with Some _ => None | None => oe_oid m end.
(** What an entry adds to a message, when the state of its item is [st] *)
Definition message_entry (m : OutputMappingEntry) (st : option PState) (unit_action : option (OID * Value)) (value : Value) :
    EResult (option (OID * Value) * Value) :=
  match oe_payload m, oe_oid m, unit_action with
  | Some payload, _, _ =>
      let payload := match ps_as_string payload with Some s => ps_string (format_output_string e s) | None => payload end in
      value ← ps_jp_insert value (oe_path m) payload; Ok (unit_action, value)
  | None, Some oid, _ =>
      st ← ok_or st ENotFound;
      val ← format_output_value (state_prop (oe_prop m) st) m oid;
      value ← ps_jp_insert value (oe_path m) val; Ok (unit_action, value)
  | None, None, Some (oid, av) =>
      val ← format_output_value av m oid;
      value ← ps_jp_insert value (oe_path m) val; Ok (None, value)
  | None, None, None => Ok (None, value)
  end.
(** A message, when the states of its items are [states] *)
Fixpoint message_of (map : list OutputMappingEntry) (states : list PState) (unit_action : option (OID * Value)) (value : Value) : EResult Value :=
  match map with
  | [] => Ok value
  | m :: map =>
      let '(st, states) := match entry_item m with Some _ => (head states, tail states) | None => (None, states) end in
      '(unit_action, value) ← message_entry m st unit_action value;
      message_of map states unit_action value
  end.
(** The items of a message *)
Definition items_of (map : list OutputMappingEntry) : list OID := omap entry_item map.

Lemma known_cons o o' st l : known o ((o', st) :: l) = if decide (o' = o) then Some st else known o l.
Proof. unfold known. rewrite filter_cons. cbn [fst]. by repeat case_decide. Qed.
Lemma cache_state_ok oid st s r s' : cache_state e oid st s = (r, s') -> cache_ok s ->
  cache_ok s' /\ r = Ok tt /\ ps_known s' = (oid, st) :: ps_known s /\ ps_sent s' = ps_sent s.
Proof.
  unfold cache_state, ps_tick. unfold_m. cbn. intros [= <- <-] Hc. split_and!; try done. intros t o x. cbn. rewrite known_cons.
  case_decide as Heq; [subst o|].
  - intros Hg. destruct (cache_get_same (pv_now e (ps_n s)) t oid st CACHE_TTL (ps_cache s)) as [Hx|Hx]; rewrite Hx in Hg; congruence.
  - intros Hg%cache_get_other; [|done]. by eapply Hc.
Qed.
(** The state of an item is what came last, or what the core answers now *)
Lemma get_state_ok oid s r s' : get_state e oid s = (r, s') -> cache_ok s ->
  cache_ok s' /\ ps_sent s' = ps_sent s /\ exists new, ps_known s' = new ++ ps_known s /\
    forall st, r = Ok st -> known oid (ps_known s) = Some st /\ new = [] \/ new = [(oid, st)].
Proof.
  unfold get_state. intros Hr Hc. unfold ps_tick in Hr. unfold_m. cbn in Hr.
  destruct (cache_get _ oid _) as [st|] eqn:Hg.
  - injection Hr as <- <-. split_and!; try done. exists []. split; [done|]. intros ? [= <-]. left. split; [|done]. by eapply Hc.
  - destruct (pv_item_state _ _ _) as [states|]; [|by injection Hr as <- <-; split_and!; try done; exists []].
    destruct states as [|st states]; cbn in Hr; [by injection Hr as <- <-; split_and!; try done; exists []|].
    destruct (cache_state e oid st _) as [r1 s1] eqn:H1. apply cache_state_ok in H1 as (Hc1 & -> & Hk & Hs); [|exact Hc].
    injection Hr as <- <-. split_and!; [done|by rewrite Hs|]. exists [(oid, st)]. rewrite Hk. split; [done|]. intros ? [= <-]. by right.
Qed.
Lemma known_app o a b st : known o (a ++ b) = Some st -> (o, st) ∈ a \/ known o b = Some st.
Proof.
  induction a as [|[o' x] a IH]; [by right|]. cbn [app]. rewrite known_cons. case_decide as Heq; [subst o'|].
  - intros [= ->]. left. by apply elem_of_cons; left.
  - intros [?|?]%IH; [left; by apply elem_of_cons; right|by right].
Qed.
(** A state that came now, or the last that came before *)
Definition current (fresh old : list (OID * PState)) (oid : OID) (st : PState) : Prop := (oid, st) ∈ fresh \/ known oid old = Some st.
Lemma current_shift fresh mid old oid st : current fresh (mid ++ old) oid st -> current (fresh ++ mid) old oid st.
Proof. unfold current. intros [?|[?|?]%known_app]; [left; set_solver|left; set_solver|by right]. Qed.
Lemma current_more fresh more old oid st : current fresh old oid st -> current (more ++ fresh) old oid st.
Proof. unfold current. intros [?|?]; [left; set_solver|by right]. Qed.

(** An entry asks for the state of its item, and the rest is a function of it *)
Lemma output_entry_pure m ua value s :
  output_entry e m ua value s =
    match entry_item m with
    | Some oid => (st ← get_state e oid; lift (message_entry m (Some st) ua value)) s
    | None => (message_entry m None ua value, s)
    end.
Proof.
  unfold output_entry, message_entry, entry_item.
  destruct (oe_payload m) as [payload|]; [|destruct (oe_oid m) as [oid|]; [|destruct ua as [[oid av]|]]].
  - unfold_m. by destruct (ps_jp_insert _ _ _).
  - rewrite !run_bind. destruct (get_state e oid s) as [[st|] s1]; [|done]. unfold_m. cbn.
    destruct (format_output_value _ _ _); [|done]. by destruct (ps_jp_insert _ _ _).
  - unfold_m. destruct (format_output_value _ _ _); [|done]. by destruct (ps_jp_insert _ _ _).
  - done.
Qed.
Lemma output_entry_ok m ua value s r s' : output_entry e m ua value s = (r, s') -> cache_ok s ->
  cache_ok s' /\ ps_sent s' = ps_sent s /\ exists fresh, ps_known s' = fresh ++ ps_known s /\
    forall x, r = Ok x -> exists st, message_entry m st ua value = Ok x /\
      match entry_item m with Some oid => exists y, st = Some y /\ current fresh (ps_known s) oid y | None => st = None end.
Proof.
  rewrite output_entry_pure. intros Hr Hc. destruct (entry_item m) as [oid|].
  2: { injection Hr as <- <-. split_and!; [done..|]. exists []. split; [done|]. intros x Hx. by exists None. }
  rewrite run_bind in Hr. destruct (get_state e oid s) as [r1 s1] eqn:Hg.
  destruct (get_state_ok _ _ _ _ Hg Hc) as (Hc1 & Hs1 & fresh & Hk & Hst).
  destruct r1 as [st|]; injection Hr as <- <-; (split_and!; [done..|]); exists fresh; (split; [done|]); [|done].
  intros x Hx. exists (Some st). split; [done|]. exists st. split; [done|].
  destruct (Hst st eq_refl) as [[? _]| ->]; [by right|left; set_solver].
Qed.
Lemma output_entries_ok map : forall ua value s r s', output_entries e map ua value s = (r, s') -> cache_ok s ->
  cache_ok s' /\ ps_sent s' = ps_sent s /\ exists fresh, ps_known s' = fresh ++ ps_known s /\
    forall v, r = Ok v -> exists states, message_of map states ua value = Ok v /\
      Forall2 (current fresh (ps_known s)) (items_of map) states.
Proof.
  induction map as [|m map IH]; intros ua value s r s' Hr Hc; cbn [output_entries] in Hr.
  { injection Hr as <- <-. split_and!; try done. exists []. split; [done|]. intros v [= <-]. by exists []. }
  rewrite run_bind in Hr. destruct (output_entry e m ua value s) as [r1 s1] eqn:H1.
  destruct (output_entry_ok _ _ _ _ _ _ H1 Hc) as (Hc1 & Hs1 & fresh & Hk & Hx).
  destruct r1 as [[ua' value']|]; [|injection Hr as <- <-; split_and!; [done..|]; by exists fresh].
  destruct (IH _ _ _ _ _ Hr Hc1) as (Hc2 & Hs2 & fresh' & Hk2 & Hv). split_and!; [done|congruence|].
  exists (fresh' ++ fresh). split; [by rewrite Hk2, Hk, app_assoc|]. intros v Hrv.
  destruct (Hx _ eq_refl) as (st & Hme & Hit). destruct (Hv v Hrv) as (states & Hm & Hall).
  assert (Hall' : Forall2 (current (fresh' ++ fresh) (ps_known s)) (items_of map) states).
  { eapply Forall2_impl; [exact Hall|]. intros o x. rewrite Hk. apply current_shift. }
  unfold items_of in *. cbn [omap list_omap message_of]. destruct (entry_item m) as [oid|].
  - destruct Hit as (y & -> & Hy). exists (y :: states). cbn. rewrite Hme. split; [done|]. constructor; [by apply current_more|done].
  - subst st. exists states. rewrite Hme. done.
Qed.
(** A task is the message of an output, made of current states *)
Definition shows (o : OutputMapping) (ua : option (OID * Value)) (fresh old : list (OID * PState)) (task : PubSubTask) : Prop :=
  exists states value, message_of (om_map o) states ua VUnit = Ok value /\
    Forall2 (current fresh old) (items_of (om_map o)) states /\
    packer_pack (om_packer o) value = Ok (ta_payload task) /\
    ta_topic task = om_topic o /\ ta_qos task = default (pv_default_qos e) (om_qos o) /\ ta_processed task = false.
Lemma send_output_ok o ua s r s' : send_output e o ua s = (r, s') -> cache_ok s ->
  cache_ok s' /\ exists fresh, ps_known s' = fresh ++ ps_known s /\
    ((exists err, r = Err err) /\ ps_sent s' = ps_sent s \/
     r = Ok tt /\ exists task, ps_sent s' = ps_sent s ++ [SOut task] /\ shows o ua fresh (ps_known s) task).
Proof.
  unfold send_output. intros Hr Hc. rewrite run_bind in Hr. destruct (output_entries e (om_map o) ua VUnit s) as [r1 s1] eqn:H1.
  destruct (output_entries_ok _ _ _ _ _ _ H1 Hc) as (Hc1 & Hs1 & fresh & Hk & Hv).
  destruct r1 as [v|]; [|injection Hr as <- <-; split; [done|]; exists fresh; eauto].
  destruct (Hv v eq_refl) as (states & Hm & Hall). unfold queue, ps_tick, send in Hr. unfold_m. cbn in Hr.
  destruct (packer_pack (om_packer o) v) as [payload|] eqn:Hp; [|injection Hr as <- <-; split; [done|]; exists fresh; eauto].
  destruct (pv_queue e _); injection Hr as <- <-; (split; [done|]); exists fresh; (split; [done|]); [right|left; cbn; eauto].
  split; [done|]. cbn. rewrite Hs1. eexists. split; [done|]. by exists states, v.
Qed.
Lemma shows_more o ua fresh mid old task more : shows o ua fresh (mid ++ old) task -> shows o ua (more ++ fresh ++ mid) old task.
Proof.
  intros (states & value & Hm & Hall & Hrest). exists states, value. split; [done|]. split; [|done].
  eapply Forall2_impl; [exact Hall|]. intros. by apply current_more, current_shift.
Qed.
(** What becomes of an output at an event: a message, unless it ignores events or an attempt failed *)
Definition outcome (fresh old : list (OID * PState)) (o : OutputMapping) (res : option PubSubTask) : Prop :=
  match res with
  | Some task => om_ignore_events o = false /\ shows o None fresh old task
  | None => om_ignore_events o = true \/ exists s err s', send_output e o None s = (Err err, s')
  end.
Lemma outcome_more fresh mid old o res more : outcome fresh (mid ++ old) o res -> outcome (more ++ fresh ++ mid) old o res.
Proof. destruct res as [t|]; cbn; [|done]. intros [? ?]. split; [done|]. by apply shows_more. Qed.
(** The messages of some outputs, one after the other *)
Lemma send_all_ok outs : forall s r s',
  for_each (fun o => if om_ignore_events o then mret tt else log_ef (send_output e o None)) outs s = (r, s') -> cache_ok s ->
  cache_ok s' /\ r = Ok tt /\ exists fresh results, ps_known s' = fresh ++ ps_known s /\ ps_sent s' = ps_sent s ++ (SOut <$> omap id results) /\
    Forall2 (outcome fresh (ps_known s)) outs results.
Proof.
  induction outs as [|o outs IH]; intros s r s' Hr Hc; cbn [for_each] in Hr.
  { injection Hr as <- <-. split_and!; [done..|]. exists [], []. cbn. by rewrite app_nil_r. }
  rewrite run_bind in Hr.
  destruct ((if om_ignore_events o then mret tt else log_ef (send_output e o None)) s) as [r1 s1] eqn:H1.
  assert (H2 : cache_ok s1 /\ r1 = Ok tt /\ exists fresh res, ps_known s1 = fresh ++ ps_known s /\ ps_sent s1 = ps_sent s ++ (SOut <$> omap id [res]) /\
    outcome fresh (ps_known s) o res).
  { unfold outcome. destruct (om_ignore_events o).
    - injection H1 as <- <-. split_and!; [done..|]. exists [], None. cbn. rewrite app_nil_r. auto.
    - unfold log_ef in H1. destruct (send_output e o None s) as [r2 s2] eqn:H2. injection H1 as <- <-.
      destruct (send_output_ok _ _ _ _ _ H2 Hc) as (Hc2 & fresh & Hk & [[[err ->] Hs]|(_ & task & Hs & Hsh)]); (split_and!; [done..|]).
      + exists fresh, None. cbn. rewrite Hs, app_nil_r. split_and!; [done..|]. right. by exists s, err, s2.
      + by exists fresh, (Some task). }
  destruct H2 as (Hc1 & -> & fresh1 & res & Hk1 & Hs1 & Hres).
  destruct (IH _ _ _ Hr Hc1) as (Hc2 & -> & fresh2 & results & Hk2 & Hs2 & Hall). split_and!; [done..|].
  exists (fresh2 ++ fresh1), (res :: results). split_and!.
  - by rewrite Hk2, Hk1, app_assoc.
  - rewrite Hs2, Hs1, <- app_assoc, <- fmap_app. do 2 f_equal. cbn. by destruct res.
  - constructor.
    + apply (outcome_more _ [] _ _ _ fresh2) in Hres. by rewrite app_nil_r in Hres.
    + eapply Forall2_impl; [exact Hall|]. intros o' task. rewrite Hk1. apply (outcome_more _ _ _ _ _ []).
Qed.

(** ** Runs *)

(** An operation that keeps the cache as it should be *)
Definition safe (s s' : Ps) : Prop := cache_ok s -> cache_ok s'.
#[local] Instance safe_preorder : PreOrder safe.
Proof. split; [by intros s Hs|]. intros s1 s2 s3 H1 H2 Hs. by apply H2, H1. Qed.
Lemma tick_safe : keeps safe ps_tick.
Proof. by intros s Hs. Qed.
Lemma send_safe x : keeps safe (send x).
Proof. by intros s Hs. Qed.
Lemma send_output_safe o ua : keeps safe (send_output e o ua).
Proof. intros s Hs. destruct (send_output e o ua s) as [r s'] eqn:Hr. by destruct (send_output_ok _ _ _ _ _ Hr Hs). Qed.
Lemma cache_state_safe oid st : keeps safe (cache_state e oid st).
Proof. intros s Hs. destruct (cache_state e oid st s) as [r s'] eqn:Hr. by destruct (cache_state_ok _ _ _ _ _ Hr Hs). Qed.
#[local] Hint Resolve tick_safe send_safe send_output_safe cache_state_safe : keeps.
Lemma input_safe mappings extra topic payload : keeps safe (handle_input e mappings extra topic payload).
Proof.
  assert (Htest : keeps safe (tester_test topic payload)).
  { intros s Hs. unfold tester_test. unfold_m. cbn. by case_match. }
  assert (Hev : forall l, keeps safe (send_events l)) by (induction l as [|[oid raw] l IH]; cbn [send_events]; frame).
  assert (Hin : forall value map states, keeps safe (input_entries e value map states)).
  { intros value map. induction map as [|m map IH]; intros states; cbn [input_entries]; [frame|].
    apply keeps_bind; [|intros; apply IH]. unfold input_entry, execute_action. frame. }
  unfold handle_input, process_input_payload, safe_run_macro. frame.
Qed.

Record PsConfig := mkPsConfig {
  pc_input : list InputMapping; pc_output : list OutputMapping; pc_action_map : gmap OID OutputMapping; pc_extra : option OID
}.
(** What comes: a frame of the bus, a message, the time of an output, a call *)
Inductive PsOp :=
  | OpFrame (topic : option string) (payload : list Z)
  | OpMessage (topic : string) (payload : list Z)
  | OpInterval (o : OutputMapping)
  | OpCall (method : string) (payload : list Z)
  | OpTest (topic : string).
Definition ps_step (cfg : PsConfig) (s : Ps) (op : PsOp) : Ps :=
  match op with
  | OpFrame topic payload => (ps_handle_frame e (output_map (pc_output cfg)) topic payload s).2
  | OpMessage topic payload => (handle_input e (pc_input cfg) (pc_extra cfg) topic payload s).2
  | OpInterval o => (interval_output e o s).2
  | OpCall method payload => (pubsub_handle_call e (pc_action_map cfg) method payload s).2
  | OpTest topic => mkPs (ps_cache s) (ps_raw s) (Some topic) (ps_sent s) (ps_known s) (ps_n s)
  end.
Definition ps_run (cfg : PsConfig) (ops : list PsOp) (s : Ps) : Ps := foldl (ps_step cfg) s ops.
Lemma run_safe cfg ops s : cache_ok s -> cache_ok (ps_run cfg ops s).
Proof.
  revert s. induction ops as [|op ops IH]; intros s Hs; [done|]. apply IH. revert Hs.
  destruct op; cbn [ps_step]; [..|done]; revert s.
  - change (keeps safe (ps_handle_frame e (output_map (pc_output cfg)) topic payload)). unfold ps_handle_frame, state_event. frame.
  - change (keeps safe (handle_input e (pc_input cfg) (pc_extra cfg) topic payload)). apply input_safe.
  - change (keeps safe (interval_output e o)). unfold interval_output. frame.
  - change (keeps safe (pubsub_handle_call e (pc_action_map cfg) method payload)).
    unfold pubsub_handle_call, pubsub_publish, ps_action, queue. frame.
Qed.

(** The outputs of an item, as often as an entry names it *)
Definition outputs_of (oid : OID) (output : list OutputMapping) : list OutputMapping :=
  output ≫= fun o => (fun _ => o) <$> filter (fun m => oe_oid m = Some oid) (om_map o).
Lemma output_map_spec output oid : default [] (output_map output !! oid) = outputs_of oid output.
Proof.
  unfold output_map. set (entry := fun (o : OutputMapping) (om : gmap OID (list OutputMapping)) m =>
    match oe_oid m with Some oid => <[oid := default [] (om !! oid) ++ [o]]> om | None => om end).
  assert (Hin : forall o map om, default [] (foldl (entry o) om map !! oid) =
    default [] (om !! oid) ++ ((fun _ => o) <$> filter (fun m => oe_oid m = Some oid) map)).
  { intros o map. induction map as [|m map IH]; intros om; cbn [foldl]; [by rewrite app_nil_r|]. rewrite IH, filter_cons. unfold entry.
    destruct (oe_oid m) as [oid'|]; [|by rewrite decide_False by done]. rewrite lookup_insert. repeat case_decide; simplify_eq/=; [|done].
    by rewrite <- app_assoc. }
  enough (forall om, default [] (foldl (fun om o => foldl (entry o) om (om_map o)) om output !! oid) = default [] (om !! oid) ++ outputs_of oid output) as Hx.
  { by rewrite Hx, lookup_empty. }
  induction output as [|o output IH]; intros om; cbn [foldl]; [by rewrite app_nil_r|].
  rewrite IH, Hin, <- app_assoc. done.
Qed.
Lemma mapping_of_spec (l : list InputMapping) topic : mapping_of l !! topic = last (filter (fun m => im_topic m = topic) l).
Proof.
  unfold mapping_of. induction l as [|m l IH] using rev_ind; [done|]. rewrite foldl_app, filter_app, filter_cons, filter_nil. cbn [foldl].
  rewrite lookup_insert, IH. case_decide; [by rewrite last_snoc|by rewrite app_nil_r].
Qed.
Lemma tester_idle topic payload s : ~ (payload = [43] /\ ps_tester s = Some topic) -> tester_test topic payload s = (Ok false, s).
Proof.
  intros Hno. unfold tester_test. unfold_m. cbn. destruct (bool_decide_reflect (payload = [43])); [|done].
  destruct (bool_decide_reflect (ps_tester s = Some topic)); [|done]. naive_solver.
Qed.
Lemma state_event_ok output path oid st s r s' : cache_ok s -> oid_from_path path = Ok oid ->
  state_event e (output_map output) path (Ok st) s = (r, s') ->
  r = Ok tt /\ exists fresh results, ps_known s' = fresh ++ (oid, st) :: ps_known s /\
    ps_sent s' = ps_sent s ++ (SOut <$> omap id results) /\
    Forall2 (outcome fresh ((oid, st) :: ps_known s)) (outputs_of oid output) results.
Proof.
  intros Hc Hp Hr. unfold state_event in Hr. rewrite Hp, run_bind in Hr.
  destruct (cache_state e oid st s) as [r1 s1] eqn:H1. apply cache_state_ok in H1 as (Hc1 & -> & Hk & Hs); [|done].
  apply send_all_ok in Hr as (_ & -> & fresh & results & Hk2 & Hs2 & Hall); [|done]. split; [done|].
  exists fresh, results. rewrite output_map_spec, Hk in Hall. by rewrite Hk2, Hk, Hs2, Hs.
Qed.
End spec.

(** C16: a message of a mapped topic, by the last mapping of the topic, causes the actions its
    entries find, in their order, and one event for each item of the others, with the last
    status that was found, or one, and the last value; of these events only those are left out
    that the cache has as unchanged, and those after one that cannot be packed. *)
Theorem messages_become_events `{Ext : Externals, NExt : !NodeExternals, PExt : !PsExternals, !PsLaws} e cfg topic payload m value s r s' :
  last (filter (fun m => im_topic m = topic) (pc_input cfg)) = Some m ->
  ~ (payload = [43] /\ ps_tester s = Some topic) ->
  packer_unpack (im_packer m) payload = Ok value ->
  handle_input e (pc_input cfg) (pc_extra cfg) topic payload s = (r, s') ->
  r = Ok tt /\ exists states kept t packed events,
    (forall oid, states !! oid = expected value (im_map m) oid) /\
    retain_map_modified t states (ps_raw s) = (kept, ps_raw s') /\ kept ⊆ states /\
    ps_sent s' = ps_sent s ++ expected_actions value (im_map m) ++ events /\
    packed `prefix_of` map_to_list kept /\ Forall2 event_sent packed events /\
    (Forall (fun x => is_ok (ps_pack_raw x.2)) (map_to_list kept) -> packed = map_to_list kept).
Proof.
  intros Hm Hno Hu Hr. unfold handle_input in Hr. rewrite run_bind, (tester_idle _ _ _ Hno), mapping_of_spec, Hm in Hr.
  unfold process_input_payload in Hr. rewrite Hu, run_bind in Hr.
  destruct (input_entries_spec e value (im_map m) [] ∅ s) as (states & n & Hi & Hs); [done|]. rewrite Hi in Hr.
  unfold ps_tick, after in Hr. rewrite !run_bind in Hr. cbn in Hr. rewrite !run_bind in Hr. cbn in Hr.
  rewrite run_bind in Hr. cbn in Hr.
  destruct (retain_map_modified (pv_now e n) states (ps_raw s)) as [kept raw] eqn:Hret. rewrite run_bind in Hr. cbn in Hr.
  destruct (send_events_spec (map_to_list kept) (mkPs (ps_cache s) raw (ps_tester s)
    (ps_sent s ++ expected_actions value (im_map m)) (ps_known s) (S n))) as (packed & events & He & Hpre & Hall & Hok).
  pose proof (eq_trans (eq_sym He) Hr) as Heq. injection Heq as <- <-. split; [done|]. exists states, kept, (pv_now e n), packed, events.
  split_and!; try done; [|cbn; by rewrite app_assoc]. pose proof (retain_subset (pv_now e n) states (ps_raw s)) as Hsub.
  by rewrite Hret in Hsub.
Qed.


Module PubSubExamples.
Import Sample.
(** A message is one value, which every path finds; the caches keep all and nothing *)
#[export] Instance ps_sample : PsExternals := {|
  ps_value_string v := match v with SStr s => s | SNum 0 => "0"%string | _ => "?"%string end;
  ps_as_string v := match v with SStr s => Some s | _ => None end;
  ps_value_i16 v := match v with SNum z => Some z | _ => None end;
  ps_string := SStr; ps_u64 := SNum; ps_i16 := SNum;
  ps_jp_lookup v _ := Ok (Some v); ps_jp_insert _ _ v := Ok v;
  ps_json _ := Err EInvalidData; ps_to_json _ := Err EInvalidData; ps_unpack _ := Err EInvalidData;
  ps_pack v := match v with SNum z => Ok [z] | _ => Err EInvalidData end;
  ps_time_ms _ := 0; ps_time_us _ := 0; ps_time_ns _ := 0;
  PsTransform := unit; ps_transform _ _ f := Ok f;
  ps_pack_raw r := Ok [raw_status r];
  RawCache := unit; retain_map_modified _ m c := (m, c);
  StateCache := gmap (ItemKind * string) PState;
  cache_get _ o c := c !! o; cache_insert _ o st _ c := <[o := st]> c;
  un_local_event p := match p with [z] => Ok (mkPState 1 (Some (SNum z)) f64_zero) | _ => Err EInvalidData end;
  un_remote_event _ := Err EInvalidData;
  PS_RAW_STATE_TOPIC := "RAW/"; PS_LOCAL_STATE_TOPIC := "ST/LOC/"; PS_REMOTE_STATE_TOPIC := "ST/REM/";
  action_topic o := "ACT/"; pack_pending a := Ok a; pack_completed a := Ok a;
  un_task _ := Err EInvalidData; un_action _ := Err EInvalidData |}.
#[export] Instance ps_laws : PsLaws.
Proof.
  constructor; cbn.
  - intros _ _ o st _ c. left. by rewrite lookup_insert_eq.
  - intros _ _ o o' st _ c x Hne. by rewrite lookup_insert_ne.
  - done.
Qed.

Definition env : PsEnv := mkPsEnv "node" 1 (fun _ => 0) (fun _ _ => Ok [mkPState 0 (Some (SNum 9)) f64_zero])
  (fun _ _ _ => Ok tt) (fun _ _ _ _ => Ok (Some 0)) (fun _ => Ok tt) (fun _ => Ok tt).
Definition sensor : OID := (Sensor, "a"%string).
Definition unit1 : OID := (Unit, "u"%string).
(** The value of a sensor, then its status by a table, and an action of a unit *)
Definition input : InputMapping := mkInput "t" PkNo
  [mkInEntry "$." sensor PrValue ∅ []; mkInEntry "$." unit1 PrAction ∅ [];
   mkInEntry "$." sensor PrStatus {["0"%string := SNum (-1)]} []].
Definition output : OutputMapping := mkOutput "o" PkMsgPack [mkOutEntry "$." None (Some sensor) SpValue ∅ []] None false None.
Definition cfg : PsConfig := mkPsConfig [input] [output] ∅ None.
Definition init : Ps := mkPs ∅ tt None [] [] 0.
Definition data : list Z := [48].

Lemma messages_become_events_witness :
  exists states kept t packed events,
    (forall oid, states !! oid = expected (SNum 0) (im_map input) oid) /\
    retain_map_modified t states tt = (kept, tt) /\ kept ⊆ states /\
    ps_sent (handle_input env (pc_input cfg) None "t" data init).2 =
      [] ++ expected_actions (SNum 0) (im_map input) ++ events /\
    packed `prefix_of` map_to_list kept /\ Forall2 event_sent packed events /\
    (Forall (fun x => is_ok (ps_pack_raw x.2)) (map_to_list kept) -> packed = map_to_list kept).
Proof.
  refine (proj2 (messages_become_events env cfg "t" data input (SNum 0) init (Ok tt)
    (handle_input env (pc_input cfg) None "t" data init).2 eq_refl _ eq_refl _)).
  - by intros [? _].
  - apply pair_fst. reflexivity.
Defined.
Example input_sent : ps_sent (handle_input env (pc_input cfg) None "t" data init).2 =
  [SAction unit1 (SNum 0); SBus "RAW/sensor/a" [-1]].
Proof. reflexivity. Qed.

Example output_sent : ps_sent (ps_handle_frame env (output_map [output]) (Some "ST/LOC/sensor/a"%string) [7] init).2 =
  [SOut (mkTask "o" [7] 1 false)].
Proof. reflexivity. Qed.
(** An output that has two entries of an item sends its message twice *)
Definition twice : OutputMapping := mkOutput "o" PkMsgPack
  [mkOutEntry "$.status" None (Some sensor) SpStatus ∅ []; mkOutEntry "$.value" None (Some sensor) SpValue ∅ []] None false None.
Example output_twice : ps_sent (ps_handle_frame env (output_map [twice]) (Some "ST/LOC/sensor/a"%string) [7] init).2 =
  [SOut (mkTask "o" [7] 1 false); SOut (mkTask "o" [7] 1 false)].
Proof. reflexivity. Qed.
End PubSubExamples.
